(* ===== verification/_CoqProject ===== *)
-Q . S2P
Prelude.v
CLib.v
Buffer.v
Sds.v
SdsFmt.v
SdsEdit.v
SdsText.v
Read.v
Parser.v
ReadLines.v
ReaderRefines.v
Replies.v
Session.v
Reply.v
Tree.v
Resp.v
ReplyRefines.v
Printf.v
Concrete.v
SdsTheorems.v
Streams.v
ReaderTheorems.v
Format.v
FormatFacts.v
FormatTheorems.v
Dict.v
DictFacts.v
DictTheorems.v
Network.v
Net.v
NetFacts.v
Context.v
ContextFacts.v
Transport.v
Pipeline.v
Simulation.v
ContextTheorems.v
Async.v
AsyncText.v
AsyncRun.v
AsyncFacts.v
AsyncSubs.v
AsyncLoop.v
AsyncSim.v
AsyncTheorems.v
Slots.v
StdString.v
ClusterText.v
ClusterTextFacts.v
ClusterNodes.v
SlotTheorems.v
Driver.v
RedisClient.v
HiredisDriver.v
ClientFacts.v
ClientSpecs.v
ClientTable.v
ClientRun.v
ClientLoop.v
MockDriver.v
ClientTheorems.v
RouteTheorems.v
Sha1.v
Sha1Facts.v
Sha1Theorems.v
Decoders.v
Commands.v
Collections.v
Scripts.v
CommandFacts.v
CommandTheorems.v
StackTheorems.v
RedisConn.v
Pool.v
PoolClient.v
PoolCommands.v
PoolFacts.v
PoolTables.v
PoolTheorems.v
Findings.v
