(* ===== verification/Prelude.v ===== *)
(** * Verification of hiredis and of three Redis clients built on it in C++

    The subjects are the library under src/hiredis: the dynamic strings (sds.c),
    the protocol reader (read.c), the reply objects, the command formatters and
    the blocking connection (hiredis.c), the sockets (net.c), the hash table
    (dict.c) and the asynchronous client (async.c); and the client of Redis
    clusters under src/r3c that is built on it: key slots, checksums and texts
    (utils.cpp), SHA-1 (sha1.cpp), and the client with its table of nodes, its
    retries and its commands (r3c.cpp, r3c.h); the client with pools of
    connections under src/redis_client (RedisClient.cpp, RedisClient.hpp); and the
    client of one connection under src/RedisCpp-hiredis (CRedisConn.h).  The
    model is a shallow embedding: one definition per function, with its name,
    guards and order of effects.

    ** How the program is put together

    A program connects ([redisConnectWithOptions], which calls
    [redisContextConnectBindTcp] or [redisContextConnectUnix] of net.c), and
    appends commands to the output buffer of the context: a formatter writes
    them as RESP arrays into a dynamic string.  [redisGetReply] flushes the
    buffer with [send], feeds what [recv] returns to the protocol reader, and
    takes replies off it; the reader builds them through a table of object
    functions.  The asynchronous client does the same from an event loop, and
    hands each reply to the callback of its command; the callbacks of
    subscriptions are kept in two hash tables.

    r3c's [CRedisClient] keeps one hiredis context per node.  A method ([get],
    [hmincrby], [xreadgroup], ...) puts its words into a [CommandArgs] and calls
    [redis_command]: the slot of the key gives the master, the read policy
    perhaps a replica ([get_redis_node]), a connection is made when there is
    none, the command is sent with [redisCommandArgv], and the reply decides
    what follows: return, exception, redirection (ASK, MOVED), a retry, with the
    table refreshed from CLUSTER NODES when a node has failed or moved
    ([refresh_master_node_table]).  The method decodes the reply, which its
    helper frees.

    The other [CRedisClient], of redis_client, is shared by threads.  Each of its
    servers has a queue of connections: a request takes one, sends the command,
    reconnects when the connection is too old, and puts it back.  In a cluster a
    table of regions, sorted by their first slot, gives the server of a key.  A
    thread of the client refreshes the tables from CLUSTER SLOTS when they have
    been found invalid, and holds the lock meanwhile, which a command holds
    shared.  A pipeline collects commands, sends those of each server over one
    connection, and takes their replies in order.

    [CRedisConn], of RedisCpp-hiredis, has one connection and no retries: a method
    formats its command with [redisvCommand], takes the reply, reads it and frees
    it, and keeps the reason of a failure in [_errStr].

    ** Conventions

    A function that can fail, read outside a buffer, free twice, fail an
    [assert] or call [abort] returns an [option], with [None] for these; a
    status of the C code stays a status.  Machine integers are [Z] with their
    wrap-around written out ([s32], [u64], [sw], [uw] in this file), and signed
    overflow, where the code relies on its absence, is [None].  The width of
    [long] is a parameter ([DataModel]); so are [malloc] and the other
    allocators ([Allocator]: a counter of the calls decides which succeed, so
    each theorem holds for every pattern of failures unless it says that
    allocation succeeds), [strtod] and the text of floating-point conversions
    ([FloatLib], [PrintfDouble]), the system calls ([Network]), the callbacks of
    a hash table ([dictType]) and those of the program ([Program]).  Concrete.v
    and Simulation.v instantiate them all, for the witnesses.

    The client of r3c uses hiredis through the class [Driver]: the functions it
    calls, on a world of contexts and replies.  Its theorems are proved for any
    driver that keeps the books of its connections and replies ([Reliable]);
    HiredisDriver.v implements the class with the model of hiredis, also on a
    farm of simulated servers, MockDriver.v with one.  An exception is a value of the monad
    [CM] of Driver.v, which passes the client, the current [ErrorInfo], the
    events of the monitor and the world; a failed assertion, a null pointer
    followed or an index out of range is [None].  The order of an
    [unordered_map] ([UnorderedMap]), whether assertions are compiled ([Build])
    and the byte order ([ByteOrder]) are parameters.  A [std::map] passed to a
    method is the list of its entries in the order of the keys.

    The pooled client uses hiredis through [PipeDriver], which adds appending and
    replies to [Driver], with the promises of [PipeReliable].  Its state ([pstate])
    is the client, its servers in a store with addresses, where the refreshing
    thread is, and a schedule: at each place where a thread takes the lock or
    sleeps, [other_threads] runs the turns of the refreshing thread and the wakes
    that the next slice of the schedule says, and every theorem holds for all
    schedules.  PoolTheorems.v also has client threads that take, use and return
    connections in any order ([thread_step]).  Where [new] puts a server
    ([Allocation]), what [std::sort] does with equal elements ([RegionSort]), what
    is in the memory of a temporary that is gone ([Temporaries]) and the text of a
    [double] ([StreamDouble]) are parameters.

    The client of one connection uses hiredis through [FormatDriver], which adds
    [redisvCommand], with the promise [FormatReliable].

    ** The files

    - Prelude.v: bytes, machine integers, lists, options, tactics.  CLib.v: C
      strings, character classes, decimal numerals, allocation outcomes.
    - Buffer.v: the interface [ByteBuf] of a growable buffer and its laws, which
      the reader and the formatters use; SdsEdit.v gives the instance.
    - Sds.v (headers, growth, concatenation), SdsFmt.v ([sdscatprintf] and
      [sdscatfmt]), SdsEdit.v (ranges, trimming, comparing, splitting, joining),
      SdsText.v ([sdscatrepr], [sdssplitargs]): sds.h and sds.c.  A string is its
      flags byte, its two header fields and the cells of its block; [sds_repr]
      relates it to its bytes.  Theorems in SdsTheorems.v.
    - Read.v: read.h and read.c, the whole of it, with the stack of tasks as the
      code keeps it.  Parser.v: the abstract parser, without a buffer or machine
      arithmetic; ReadLines.v ([seekNewline], [string2ll]) and ReaderRefines.v
      show that the reader implements it.  Replies.v and Session.v: streams of
      replies, fed in pieces.
    - Reply.v: [redisReply] objects in a heap of cells, [freeReplyObject] and the
      default object functions of hiredis.c.  Tree.v: the heap as trees.  Resp.v:
      RESP as a recursive descent parser and as an encoder, one inverse to the
      other; ReplyRefines.v: the reader with the default functions computes it.  Streams.v: streams of
      replies, complete or not.  ReaderTheorems.v: the theorems.
    - Printf.v: one conversion of [printf].  Format.v: [redisvFormatCommand],
      [redisFormatCommandArgv], [redisFormatSdsCommandArgv] of hiredis.c;
      FormatFacts.v, FormatTheorems.v: what they write.
    - Dict.v: dict.h and dict.c; DictFacts.v: the table as a finite map;
      DictTheorems.v.
    - Network.v: the system calls as a class, [redisContext], and the monad of the
      code that changes it.  Net.v: net.c.  Context.v: the connection functions
      and the commands of hiredis.c.  NetFacts.v ([Ledger]: what a system promises
      about descriptors) and ContextFacts.v: connecting and freeing.  Transport.v:
      one read, one write.  Pipeline.v ([Peer]: what a stream socket and a server
      promise): a client over a server.  Simulation.v: a network that satisfies
      [Ledger] and [Peer].  ContextTheorems.v: the theorems.
    - Async.v: async.c, async.h and async_private.h.  The state is the context
      ([None] once freed), the environment, and a log of the calls made of the
      program's callbacks and the event library's hooks; the callbacks
      themselves ([Program]) are computations on that state, which may call the
      client again.  AsyncText.v: what [nextArgument] finds.  AsyncRun.v: a
      program over the client as data, events and actions, the history of a run,
      and what is assumed of the program ([Scripted]) and of the connection
      ([Stream]).  AsyncFacts.v (each operation), AsyncSubs.v (the tables of
      subscriptions as maps), AsyncLoop.v (the loop over the replies and the
      events).  AsyncSim.v: a server and a program that satisfy the assumptions.
      AsyncTheorems.v: the theorems.
    - Slots.v: key slots, CRC16, CRC64 of utils.cpp, with the bit-serial
      definitions and what is proved of them.  StdString.v: the operations of [std::string]
      that are used.  ClusterText.v: numbers, node lists, addresses, splitting;
      ClusterTextFacts.v.  ClusterNodes.v: the records of r3c.h, CLUSTER NODES,
      [CommandArgs], error types.  Theorems in SlotTheorems.v.
    - Driver.v: the class [Driver], the state of [CRedisClient] and its nodes, the
      monad.  RedisClient.v: from [init] to [redis_command].  ClientFacts.v (the
      invariant [inv]: the contexts of the tables are those open, each once, and
      the replies held are those alive), ClientSpecs.v (each operation keeps it),
      ClientTable.v (the refresh as a function on tables), ClientRun.v, ClientLoop.v
      (the loop of [redis_command], [init] and [fini]).
      ClientTheorems.v and RouteTheorems.v: the theorems.
    - Decoders.v: [get_value] and [get_values].  Commands.v (keys, strings, hashes,
      scripts), Collections.v (lists, sets, sorted sets, streams, bits): every
      command.  Scripts.v: the increments applied once per identifier,
      whose scripts are run by digest, the constructors and the destructor.
      CommandFacts.v (words, and what the decoders make of trees of replies),
      CommandTheorems.v (what a command leaves of the client, and the theorems).
    - Sha1.v: sha1.cpp and [strsha1], and the standard (FIPS 180-4); Sha1Facts.v
      (one block, and the buffer), Sha1Theorems.v.
    - StackTheorems.v: a command of r3c over the model of hiredis over a server.
    - Pool.v: [CRedisCommand], [CRedisConnection] and [CRedisServer] of
      RedisClient.cpp, the functions that fetch and convert results, key slots.
      PoolClient.v: pipelines, the tables, the refreshing thread, [Execute],
      [Initialize] and the destructor.  PoolCommands.v: every method.  PoolFacts.v:
      rules for the computations, the books of connections and replies ([books]),
      requests, servers, and the binary search.  PoolTables.v: the tables, the
      invariant [inv] and that every operation keeps it.  PoolTheorems.v: the
      theorems, threads, and a driver in memory.
    - RedisConn.v: CRedisConn.h, what its methods mean ([means]), the theorems, also
      over the model of hiredis ([hiredis_format_driver]).
    - Findings.v: runs in which the code faults.

    ** What is proved

    - Reading: a new reader fed any bytes in any pieces returns exactly what the
      recursive descent parser finds, with exactly the objects of those replies
      in the heap; it reads back every encoding; how the input is cut does not
      matter; nothing is leaked or freed twice; an error is final; nesting is
      limited to eight containers.
    - Formatting: the formatters write the RESP array of the arguments of a
      template, invalid formats are refused and everything is freed once; the
      reader reads a formatted command back as its arguments.
    - Strings: each operation against its function on byte lists, room and header
      changes included; splitting and joining, quoting and unquoting are inverse.
    - Tables: any sequence of operations is that sequence on a finite map, the
      destructor calls included; iteration, release, growth.
    - Connections: no socket is leaked whatever the system answers, failures are
      reported, the loop over the addresses ends, timeouts are exact; writes
      remove what was sent; a pipelined client gets the answers of the server in
      order, and a command is answered.
    - The asynchronous client: whatever the event loop, the callbacks and the
      program do, each reply is handed to the callback of its command, in order
      and once, and the end of the context calls the rest with [NULL] and frees
      everything; the arguments of a command are found in its text; what SUBSCRIBE
      registers and what the messages of the server do, on maps from channels to
      callbacks.
    - Texts of a cluster: the slot of a key is the CRC16 of its hash tag; the
      checksums driven by tables are the bit-serial ones; numbers, node lists and
      the text of a topology are read back.
    - The cluster client: a command ends within the turns its retries allow, with
      a reply or an exception, whatever the servers answer, and every connection
      and reply is accounted for; [init] leaves nothing open when it throws and
      [fini] closes everything; after a refresh the table is the one of the
      topology; a command goes to the owner of its slot or where it is
      redirected; an error is acted on by its first word.
    - Commands: the words of a method are what hiredis writes; a method ends and
      frees its reply; no command changes the settings of the client; replies are
      decoded as what they list.  The digests of scripts are SHA-1.
    - The whole stack: a command of a client whose master is connected reaches the
      server as the RESP array of its words, and the value of the answer returns.
    - The pooled client: [Initialize] establishes the invariant and every command
      and pipeline ends and keeps it, whatever the refreshing thread does in
      between: every open connection is in one queue or one hand, every reply is
      freed, every region of the table has a server that is there.  However
      threads are interleaved no two use one connection.  A slot is routed to its
      region of the last answer of CLUSTER SLOTS.  A client of one server closes
      everything when it is deleted.  Both clients agree on the slot of a key.
      A redirection is never followed.
    - The client of one connection: connecting leaves at most one connection open; a
      method without a connection changes nothing but the reason, and otherwise
      reads, reports and frees the reply; through the whole stack, the server gets
      the words of the method, and the method returns what the reply means.

    ** Bounds and fuel

    Loops that are not structural take fuel.  The item loop of the reader needs
    one more than the bytes that wait (Parser.v); [redisvFormatCommand] one more
    than the length of the format; the loop over the addresses of a host
    [addr_fuel], which is proved enough for every address and retry
    ([addr_loop_bounded]); the loops of [redisGetReply] one more than the bytes
    to send and receive and the interruptions to come ([get_run]); the loops of
    the asynchronous client more than the bytes of all the commands of the run,
    which bound its callbacks ([async_in_order]); [redis_command] the turns of
    its loop, [max 2 num_retries + 2] ([redis_command_returns]); the loop over
    the blocks of an update of SHA-1 one more than its length, and its padding 65
    ([sha1_standard]); the binary search one more than the length of the table
    ([slot_routed]), the loops over the elements of a reply one more than their
    number.  In each case a theorem says that the function returns
    with that fuel.

    ** Not modelled

    - ssl.c, and the function table and [privdata] of a context it hooks into:
      calls of OpenSSL.  sockcompat.c, win32.h, and the branches of net.c for
      Windows and macOS: the variant compiled on Linux is the one modelled.
    - The memory of the strings the context owns (host, path, timeout, address):
      they are values here; what is wrong with their freeing is a finding.
    - sdsfree, sdsfreesplitres, redisFreeCommand, redisFreeSdsCommand: one call
      of [free] each.  hi_realloc has no caller.
    - adapters, test.c, examples, and the C# and C++ demos of Demo_2020-02-15: they
      call the clients.
    - In CRedisConn.h a reply that does not arrive is followed as a null pointer:
      [conn_command] says so, [conn_answered] is about replies that arrive.
    - In redis_client: the printing of commands and replies, and races finer than
      the turns of the refreshing thread (reads of the tables without the lock are
      findings).  [pool_pipeline] is about clients of one server: a pipeline of a
      cluster may use a server that was deleted ([pipeline_server_deleted]).
    - In r3c: the messages of errors (but the words the code reads back), the
      printing of nodes, streams and replies, the logs, the dates of utils.cpp,
      and what a [CommandMonitor] does with the two events it is told of.  The
      time that a retry sleeps is passed to the driver ([os_sleep]).
    - In async.c: the function table of a context is that of plain sockets.
      [async_in_order] is about contexts without subscriptions and MONITOR, and
      about established connections; subscriptions are treated one operation at a
      time. *)

From Stdlib Require Export ZArith Lia.
From Stdlib Require Import Strings.Byte String.
From stdpp Require Export base tactics option list numbers sets.
From stdpp Require Import countable.

#[global] Open Scope Z_scope.

(** ** Bytes *)

Abbreviation byte := Byte.byte.
Abbreviation bytes := (list Byte.byte).

(** The value of an [unsigned char]. *)
Definition bZ (b : byte) : Z := Z.of_N (Byte.to_N b).

(** Conversion of an integer to [unsigned char]: reduction modulo 256. *)
Definition Zb (z : Z) : byte :=
  match Byte.of_N (Z.to_N (z mod 256)) with
  | Some b => b
  | None => Byte.x00
  end.

(** The bytes of a string literal. *)
Definition bs (s : string) : bytes := String.list_byte_of_string s.

Definition CR : byte := Byte.x0d.
Definition LF : byte := Byte.x0a.
Definition NUL : byte := Byte.x00.
Definition crlf : bytes := [CR; LF].

#[global] Instance byte_eq_decision : EqDecision byte := Byte.byte_eq_dec.

Lemma byte_of_to_N b : Byte.of_N (Byte.to_N b) = Some b.
Proof. apply Byte.of_to_N. Qed.

#[global] Program Instance byte_countable : Countable byte :=
  inj_countable Byte.to_N Byte.of_N byte_of_to_N.

Lemma bZ_range b : 0 <= bZ b < 256.
Proof. unfold bZ. pose proof (Byte.to_N_bounded b). lia. Qed.

Lemma bZ_inj a b : bZ a = bZ b -> a = b.
Proof.
  unfold bZ. intros H%N2Z.inj.
  pose proof (byte_of_to_N a) as Ha. rewrite H, byte_of_to_N in Ha. congruence.
Qed.

Lemma bZ_Zb_mod z : bZ (Zb z) = z mod 256.
Proof.
  unfold Zb, bZ.
  pose proof (Z.mod_pos_bound z 256 ltac:(lia)) as Hm.
  destruct (Byte.of_N (Z.to_N (z mod 256))) as [b|] eqn:E.
  - apply Byte.to_of_N in E. rewrite E. lia.
  - apply Byte.of_N_None_iff in E. lia.
Qed.

Lemma bZ_Zb z : 0 <= z < 256 -> bZ (Zb z) = z.
Proof. intros. rewrite bZ_Zb_mod. by apply Z.mod_small. Qed.

Lemma Zb_bZ b : Zb (bZ b) = b.
Proof. apply bZ_inj, bZ_Zb, bZ_range. Qed.

(** ** Machine integers

    A [w]-bit integer is a [Z]; arithmetic that can leave the range is
    followed by one of these two reductions. *)

Definition uw (w z : Z) : Z := z mod 2 ^ w.
Definition sw (w z : Z) : Z := (z + 2 ^ (w - 1)) mod 2 ^ w - 2 ^ (w - 1).

Abbreviation u8 := (uw 8).
Abbreviation u16 := (uw 16).
Abbreviation u32 := (uw 32).
Abbreviation u64 := (uw 64).
Abbreviation s32 := (sw 32).
Abbreviation s64 := (sw 64).

Definition INT_MAX : Z := 2147483647.
Definition LLONG_MAX : Z := 9223372036854775807.
Definition LLONG_MIN : Z := -9223372036854775808.
Definition ULLONG_MAX : Z := 18446744073709551615.
Definition SIZE_MAX : Z := 18446744073709551615.

Lemma uw_small w z : 0 <= z < 2 ^ w -> uw w z = z.
Proof. apply Z.mod_small. Qed.

Lemma uw_range w z : 0 <= w -> 0 <= uw w z < 2 ^ w.
Proof. intros. apply Z.mod_pos_bound. by apply Z.pow_pos_nonneg. Qed.

Lemma pow2_pred w : 0 < w -> 2 ^ w = 2 * 2 ^ (w - 1).
Proof.
  intros. rewrite <- Z.pow_succ_r by lia. f_equal. lia.
Qed.

Lemma sw_small w z : 0 < w -> - 2 ^ (w - 1) <= z < 2 ^ (w - 1) -> sw w z = z.
Proof.
  intros Hw Hz. unfold sw. rewrite Z.mod_small; [lia|]. rewrite (pow2_pred w) by lia. lia.
Qed.

Lemma sw_range w z : 0 < w -> - 2 ^ (w - 1) <= sw w z < 2 ^ (w - 1).
Proof.
  intros Hw. unfold sw.
  pose proof (Z.mod_pos_bound (z + 2 ^ (w - 1)) (2 ^ w) ltac:(apply Z.pow_pos_nonneg; lia)).
  pose proof (pow2_pred w Hw). lia.
Qed.

Lemma uw_idemp w z : uw w (uw w z) = uw w z.
Proof. unfold uw. apply Zmod_mod. Qed.

Lemma u8_small z : 0 <= z < 256 -> u8 z = z.
Proof. intros. by apply uw_small. Qed.
Lemma u16_small z : 0 <= z < 65536 -> u16 z = z.
Proof. intros. by apply uw_small. Qed.
Lemma u32_small z : 0 <= z < 4294967296 -> u32 z = z.
Proof. intros. by apply uw_small. Qed.
Lemma u64_small z : 0 <= z <= ULLONG_MAX -> u64 z = z.
Proof. unfold ULLONG_MAX. intros. apply uw_small. lia. Qed.
Lemma s32_small z : - 2147483648 <= z <= INT_MAX -> s32 z = z.
Proof. unfold INT_MAX. intros. apply sw_small; lia. Qed.
Lemma s64_small z : LLONG_MIN <= z <= LLONG_MAX -> s64 z = z.
Proof. unfold LLONG_MIN, LLONG_MAX. intros. apply sw_small; lia. Qed.

(** Evaluates the width constants so that [lia] sees literals. *)
Ltac widths :=
  unfold INT_MAX, LLONG_MAX, LLONG_MIN, ULLONG_MAX, SIZE_MAX in *.
Ltac width_lia := widths; lia.

(** Rewrites every reduction whose argument [lia] shows in range. *)
Ltac unwrap :=
  repeat match goal with
  | |- context [s32 ?z] => rewrite (s32_small z) by width_lia
  | |- context [s64 ?z] => rewrite (s64_small z) by width_lia
  | |- context [u64 ?z] => rewrite (u64_small z) by width_lia
  | |- context [u32 ?z] => rewrite (u32_small z) by width_lia
  | |- context [u16 ?z] => rewrite (u16_small z) by width_lia
  | |- context [u8 ?z] => rewrite (u8_small z) by width_lia
  end.

(** ** Memory as lists of bytes *)

(** Length as an integer. *)
Definition zlen {A} (l : list A) : Z := Z.of_nat (length l).

(** [p[i]]: [None] is an access outside the object. *)
Definition zget {A} (l : list A) (i : Z) : option A :=
  if 0 <=? i then l !! Z.to_nat i else None.

Definition ztake {A} (i : Z) (l : list A) : list A := take (Z.to_nat i) l.
Definition zdrop {A} (i : Z) (l : list A) : list A := drop (Z.to_nat i) l.

(** [memcpy(buf+off, src, len)]: [None] is a write outside the object. *)
Definition zwrite {A} (buf : list A) (off : Z) (src : list A) : option (list A) :=
  if (0 <=? off) && (off + zlen src <=? zlen buf)
  then Some (ztake off buf ++ src ++ zdrop (off + zlen src) buf)
  else None.

(** The bytes [memcpy(dst, buf+off, n)] reads. *)
Definition zread {A} (buf : list A) (off n : Z) : option (list A) :=
  if (0 <=? off) && (0 <=? n) && (off + n <=? zlen buf)
  then Some (ztake n (zdrop off buf))
  else None.

Section zlist.
Context {A : Type}.
Implicit Types l k : list A.

Lemma zlen_nonneg l : 0 <= zlen l.
Proof. unfold zlen. lia. Qed.
Lemma zlen_nil : zlen (@nil A) = 0.
Proof. done. Qed.
Lemma zlen_cons x l : zlen (x :: l) = 1 + zlen l.
Proof. unfold zlen. simpl. lia. Qed.
Lemma zlen_app l k : zlen (l ++ k) = zlen l + zlen k.
Proof. unfold zlen. rewrite length_app. lia. Qed.
Lemma zlen_fmap {B} (f : A -> B) l : zlen (f <$> l) = zlen l.
Proof. unfold zlen. by rewrite length_fmap. Qed.
Lemma zlen_0_nil l : zlen l = 0 -> l = [].
Proof. destruct l; [done|]. rewrite zlen_cons. pose proof (zlen_nonneg l). lia. Qed.
Lemma zlen_ztake i l : 0 <= i <= zlen l -> zlen (ztake i l) = i.
Proof. unfold zlen, ztake. rewrite length_take. lia. Qed.
Lemma zlen_zdrop i l : 0 <= i <= zlen l -> zlen (zdrop i l) = zlen l - i.
Proof. unfold zlen, zdrop. rewrite length_drop. lia. Qed.
Lemma zlen_replicate n (x : A) : zlen (replicate n x) = Z.of_nat n.
Proof. unfold zlen. by rewrite length_replicate. Qed.

Lemma ztake_zdrop i l : ztake i l ++ zdrop i l = l.
Proof. apply take_drop. Qed.
Lemma ztake_all i l : zlen l <= i -> ztake i l = l.
Proof. unfold zlen, ztake. intros. apply take_ge. lia. Qed.
Lemma zdrop_all i l : zlen l <= i -> zdrop i l = [].
Proof. unfold zlen, zdrop. intros. apply drop_ge. lia. Qed.
Lemma ztake_0 l : ztake 0 l = [].
Proof. done. Qed.
Lemma zdrop_0 l : zdrop 0 l = l.
Proof. done. Qed.
Lemma ztake_nonpos i l : i <= 0 -> ztake i l = [].
Proof. unfold ztake. intros. by replace (Z.to_nat i) with 0%nat by lia. Qed.
Lemma zdrop_nonpos i l : i <= 0 -> zdrop i l = l.
Proof. unfold zdrop. intros. by replace (Z.to_nat i) with 0%nat by lia. Qed.

Lemma ztake_app_l i l k : i <= zlen l -> ztake i (l ++ k) = ztake i l.
Proof. unfold zlen, ztake. intros. apply take_app_le. lia. Qed.
Lemma ztake_app_len l k : ztake (zlen l) (l ++ k) = l.
Proof. unfold zlen, ztake. rewrite Nat2Z.id. apply take_app_length. Qed.
Lemma zdrop_app_len l k : zdrop (zlen l) (l ++ k) = k.
Proof. unfold zlen, zdrop. rewrite Nat2Z.id. apply drop_app_length. Qed.
Lemma zdrop_app_l i l k : i <= zlen l -> zdrop i (l ++ k) = zdrop i l ++ k.
Proof. unfold zlen, zdrop. intros. apply drop_app_le. lia. Qed.
Lemma zdrop_app_r i l k : zlen l <= i -> zdrop i (l ++ k) = zdrop (i - zlen l) k.
Proof.
  unfold zlen, zdrop. intros. rewrite drop_app_ge by lia. f_equal. lia.
Qed.
Lemma ztake_app_r i l k : zlen l <= i -> ztake i (l ++ k) = l ++ ztake (i - zlen l) k.
Proof.
  unfold zlen, ztake. intros. rewrite take_app_ge by lia. do 2 f_equal. lia.
Qed.
Lemma zdrop_zdrop i j l : 0 <= i -> 0 <= j -> zdrop i (zdrop j l) = zdrop (i + j) l.
Proof. unfold zdrop. intros. rewrite drop_drop. f_equal. lia. Qed.
Lemma ztake_ztake i j l : i <= j -> ztake i (ztake j l) = ztake i l.
Proof. unfold ztake. intros. rewrite take_take. f_equal. lia. Qed.

Lemma zget_Some l i x : zget l i = Some x -> 0 <= i < zlen l.
Proof.
  unfold zget, zlen. destruct (Z.leb_spec 0 i); [|done].
  intros ?%lookup_lt_Some. lia.
Qed.
Lemma zget_is_Some l i : 0 <= i < zlen l -> is_Some (zget l i).
Proof.
  unfold zget, zlen. intros. destruct (Z.leb_spec 0 i); [|lia].
  apply lookup_lt_is_Some. lia.
Qed.
Lemma zdrop_cons l pos c :
  zget l pos = Some c -> zdrop pos l = c :: zdrop (pos + 1) l.
Proof.
  intros Hc. pose proof (zget_Some _ _ _ Hc). unfold zget in Hc.
  destruct (Z.leb_spec 0 pos); [|done]. unfold zdrop.
  replace (Z.to_nat (pos + 1)) with (S (Z.to_nat pos)) by lia. by apply drop_S.
Qed.
Lemma zget_app_l l k i : i < zlen l -> zget (l ++ k) i = zget l i.
Proof.
  unfold zget, zlen. intros. destruct (Z.leb_spec 0 i); [|done].
  apply lookup_app_l. lia.
Qed.
Lemma zget_app_r l k i : zlen l <= i -> zget (l ++ k) i = zget k (i - zlen l).
Proof.
  unfold zget, zlen. intros. destruct (Z.leb_spec 0 i); [|lia].
  destruct (Z.leb_spec 0 (i - Z.of_nat (length l))); [|lia].
  rewrite lookup_app_r by lia. f_equal. lia.
Qed.
Lemma zget_mid l x k : zget (l ++ x :: k) (zlen l) = Some x.
Proof. rewrite zget_app_r by lia. by rewrite Z.sub_diag. Qed.
Lemma zget_zdrop l i j : 0 <= i -> 0 <= j -> zget (zdrop i l) j = zget l (i + j).
Proof.
  unfold zget, zdrop. intros.
  destruct (Z.leb_spec 0 j), (Z.leb_spec 0 (i + j)); try lia.
  rewrite lookup_drop. f_equal. lia.
Qed.

Lemma zwrite_mid l m k m' :
  length m = length m' -> zwrite (l ++ m ++ k) (zlen l) m' = Some (l ++ m' ++ k).
Proof.
  intros Hm. unfold zwrite. rewrite !zlen_app.
  pose proof (zlen_nonneg l). pose proof (zlen_nonneg k).
  assert (zlen m = zlen m') as -> by (unfold zlen; lia).
  destruct (Z.leb_spec 0 (zlen l)); [|lia].
  destruct (Z.leb_spec (zlen l + zlen m') (zlen l + (zlen m' + zlen k))); [|lia].
  simpl. rewrite ztake_app_len. do 3 f_equal.
  rewrite zdrop_app_r by (pose proof (zlen_nonneg m'); lia).
  replace (zlen l + zlen m' - zlen l) with (zlen m) by (unfold zlen in *; lia).
  apply zdrop_app_len.
Qed.

Lemma zread_mid l m k : zread (l ++ m ++ k) (zlen l) (zlen m) = Some m.
Proof.
  unfold zread. rewrite !zlen_app.
  pose proof (zlen_nonneg l). pose proof (zlen_nonneg k). pose proof (zlen_nonneg m).
  rewrite (proj2 (Z.leb_le 0 (zlen l))), (proj2 (Z.leb_le 0 (zlen m))) by lia.
  rewrite (proj2 (Z.leb_le _ _)) by lia. simpl.
  by rewrite zdrop_app_len, ztake_app_len.
Qed.

Lemma zread_app l k off n x :
  zread l off n = Some x -> zread (l ++ k) off n = Some x.
Proof.
  unfold zread. rewrite zlen_app. pose proof (zlen_nonneg k).
  destruct (Z.leb_spec 0 off), (Z.leb_spec 0 n); try done. simpl.
  destruct (Z.leb_spec (off + n) (zlen l)); [|done].
  destruct (Z.leb_spec (off + n) (zlen l + zlen k)); [|lia].
  intros [= <-]. f_equal. rewrite zdrop_app_l by lia. apply ztake_app_l.
  rewrite zlen_zdrop; lia.
Qed.

End zlist.

Create Rewrite HintDb zlen.
#[export] Hint Rewrite @zlen_nil @zlen_cons @zlen_app @zlen_fmap @zlen_replicate : zlen.

(** Normalises lengths, records that every length is nonnegative, calls [lia]. *)
Ltac zlen_pos :=
  repeat match goal with
  | |- context [zlen ?l] =>
      lazymatch goal with
      | H : 0 <= zlen l |- _ => fail
      | _ => pose proof (zlen_nonneg l)
      end
  | H : context [zlen ?l] |- _ =>
      lazymatch goal with
      | H : 0 <= zlen l |- _ => fail
      | _ => pose proof (zlen_nonneg l)
      end
  end.
Ltac zlia := autorewrite with zlen in *; zlen_pos; width_lia.

(** Splits on every boolean comparison of integers in the goal. *)
Ltac zcases :=
  repeat match goal with
  | |- context [?a <=? ?b] => destruct (Z.leb_spec a b)
  | |- context [?a <? ?b] => destruct (Z.ltb_spec a b)
  | |- context [?a =? ?b] => destruct (Z.eqb_spec a b)
  end.

(** Decides a comparison with [lia] and rewrites it away. *)
Ltac ztrue e :=
  replace e with true by
    (symmetry; first [apply Z.leb_le | apply Z.ltb_lt | apply Z.eqb_eq | idtac]; lia).
Ltac zfalse e :=
  replace e with false by
    (symmetry; first [apply Z.leb_gt | apply Z.ltb_ge | apply Z.eqb_neq | idtac]; lia).

(** Inverts a chain of option binds in the hypotheses. *)
Ltac inv_opt :=
  repeat match goal with
  | H : Some _ = Some _ |- _ => injection H as H; subst
  | H : None = Some _ |- _ => discriminate H
  | H : Some _ = None |- _ => discriminate H
  | H : _ ≫= _ = Some _ |- _ => apply bind_Some in H as (? & ? & H)
  end.
