(* ===== verification/CLib.v ===== *)
(** * The parts of the C library the sources rely on

    C strings, character classes in the "C" locale, decimal conversion as
    [printf] does it, byte comparison, and the outcome of [malloc]. *)

From Stdlib Require Import Strings.Byte.
From S2P Require Import Prelude.

(** ** Allocation

    [malloc], [calloc] and [realloc] may return [NULL].  Whether the [n]-th
    request of a run (of [sz] bytes) succeeds is given by an arbitrary
    function; the programs thread the request counter. *)

Class Allocator := alloc_ok : nat -> Z -> bool.

Section alloc.
Context {al : Allocator}.

Definition malloc (a : nat) (sz : Z) : bool * nat := (alloc_ok a sz, S a).

(** [calloc] fails when the product does not fit in [size_t]. *)
Definition calloc (a : nat) (n sz : Z) : bool * nat :=
  if SIZE_MAX <? n * sz then (false, S a) else malloc a (n * sz).

End alloc.

(** The allocator that satisfies every request. *)
Definition always_alloc : Allocator := fun _ _ => true.

(** ** C strings *)

(** The bytes of [p] before its first NUL. *)
Fixpoint cstr (p : bytes) : bytes :=
  match p with
  | [] => []
  | b :: p' => if bool_decide (b = NUL) then [] else b :: cstr p'
  end.

Definition strlen (p : bytes) : Z := zlen (cstr p).

(** ** Character classes ("C" locale, ASCII) *)

Definition in_range (lo hi : Z) (b : byte) : bool := (lo <=? bZ b) && (bZ b <=? hi).

Definition isdigit : byte -> bool := in_range 48 57.
Definition isprint : byte -> bool := in_range 32 126.
Definition isspace (b : byte) : bool := (bZ b =? 32) || in_range 9 13 b.
Definition isupper : byte -> bool := in_range 65 90.
Definition islower : byte -> bool := in_range 97 122.
Definition tolower (b : byte) : byte := if isupper b then Zb (bZ b + 32) else b.
Definition toupper (b : byte) : byte := if islower b then Zb (bZ b - 32) else b.

(** [strcasecmp(a,b) == 0] on NUL-terminated strings. *)
Definition strcaseeq (a b : bytes) : bool :=
  bool_decide (tolower <$> cstr a = tolower <$> cstr b).

(** [strncasecmp(a,b,n) == 0]. *)
Definition strncaseeq (n : nat) (a b : bytes) : bool :=
  bool_decide (tolower <$> take n (cstr a) = tolower <$> take n (cstr b)).

(** Sign of [memcmp] on two blocks of the same length. *)
Fixpoint memcmp (a b : bytes) : Z :=
  match a, b with
  | x :: a', y :: b' => if bZ x =? bZ y then memcmp a' b' else bZ x - bZ y
  | _, _ => 0
  end.

(** ** Decimal and hexadecimal conversion *)

Definition digit (d : Z) : byte := Zb (48 + d).
Definition digit_val (b : byte) : Z := bZ b - 48.

Fixpoint dec_rev (fuel : nat) (v : Z) : bytes :=
  match fuel with
  | O => []
  | S f => digit (v mod 10) :: (if v / 10 =? 0 then [] else dec_rev f (v / 10))
  end.

(** [%u], [%zu], [%llu]. *)
Definition udec (v : Z) : bytes := rev (dec_rev (S (Z.to_nat (Z.log2 v + 1))) v).

(** [%d], [%i], [%lld]. *)
Definition dec (v : Z) : bytes := if v <? 0 then Byte.x2d :: udec (- v) else udec v.

(** Value of a string of digits. *)
Definition dec_val (l : bytes) : Z := fold_left (fun a b => a * 10 + digit_val b) l 0.

(** The bytes of a list that satisfy [f], then the rest. *)
Fixpoint span (f : byte -> bool) (l : bytes) : bytes * bytes :=
  match l with
  | [] => ([], [])
  | b :: l' => if f b then let '(x, y) := span f l' in (b :: x, y) else ([], l)
  end.

(** Width of [long]: 64 on LP64 systems, 32 on Windows. *)
Class DataModel := long_bits : Z.
(** [long] has 64 bits. *)
Definition LP64 {dm : DataModel} : Prop := long_bits = 64.

Definition LONG_MAX {dm : DataModel} : Z := 2 ^ (long_bits - 1) - 1.
Definition LONG_MIN {dm : DataModel} : Z := - 2 ^ (long_bits - 1).

(** [strtol(l, NULL, 10)]. *)
Definition strtol {dm : DataModel} (l : bytes) : Z :=
  let l := (span isspace l).2 in
  let '(neg, l) := match l with
                   | b :: l' => if bool_decide (b = Byte.x2d) then (true, l')
                                else if bool_decide (b = Byte.x2b) then (false, l') else (false, l)
                   | [] => (false, l)
                   end in
  let v := dec_val (span isdigit l).1 in
  Z.max LONG_MIN (Z.min LONG_MAX (if (neg : bool) then - v else v)).

Definition hex_digit (d : Z) : byte := if d <? 10 then Zb (48 + d) else Zb (87 + d).

(** [%02x] of an [unsigned char]. *)
Definition hex2 (b : byte) : bytes := [hex_digit (bZ b / 16); hex_digit (bZ b mod 16)].

(** ** Lemmas: characters *)

Lemma in_range_spec lo hi b : in_range lo hi b = true <-> lo <= bZ b <= hi.
Proof. unfold in_range. lia. Qed.

Lemma isdigit_digit d : 0 <= d < 10 -> isdigit (digit d) = true.
Proof. intros. apply in_range_spec. unfold digit. rewrite bZ_Zb; lia. Qed.

Lemma digit_val_digit d : 0 <= d < 10 -> digit_val (digit d) = d.
Proof. intros. unfold digit_val, digit. rewrite bZ_Zb; lia. Qed.

Lemma digit_digit_val b : isdigit b = true -> digit (digit_val b) = b.
Proof.
  intros. unfold digit, digit_val. replace (48 + (bZ b - 48)) with (bZ b) by lia. apply Zb_bZ.
Qed.

Lemma digit_val_range b : isdigit b = true -> 0 <= digit_val b < 10.
Proof. intros ?%in_range_spec. unfold digit_val. lia. Qed.

(** ** Lemmas: C strings *)

Lemma cstr_no_nul p : NUL ∉ cstr p.
Proof.
  induction p as [|b p IH]; simpl; [set_solver|].
  case_bool_decide; set_solver.
Qed.

Lemma cstr_id p : NUL ∉ p -> cstr p = p.
Proof.
  induction p as [|b p IH]; simpl; [done|]. intros H.
  rewrite bool_decide_false by set_solver. f_equal. apply IH. set_solver.
Qed.

Lemma cstr_length s : zlen (cstr s) <= zlen s.
Proof. induction s as [|b s IH]; simpl; [done|]. case_bool_decide; zlia. Qed.

Lemma cstr_app_nul p q : NUL ∉ p -> cstr (p ++ NUL :: q) = p.
Proof.
  induction p as [|b p IH]; simpl; [done|]. intros H.
  rewrite bool_decide_false by set_solver. f_equal. apply IH. set_solver.
Qed.

(** ** Lemmas: [memcmp] *)

Lemma memcmp_refl a : memcmp a a = 0.
Proof. induction a as [|x a IH]; simpl; [done|]. by rewrite Z.eqb_refl. Qed.

Lemma memcmp_eq a b : length a = length b -> memcmp a b = 0 <-> a = b.
Proof.
  revert b; induction a as [|x a IH]; intros [|y b]; simpl; try done.
  intros [= Hl]. destruct (Z.eqb_spec (bZ x) (bZ y)) as [E|E].
  - apply bZ_inj in E as ->. rewrite (IH b Hl). split; congruence.
  - split; [lia|]. intros [= -> ->]. done.
Qed.

(** ** Lemmas: decimal conversion *)

Lemma dec_rev_fuel f g v :
  0 <= v < 2 ^ Z.of_nat f -> v < 2 ^ Z.of_nat g -> dec_rev (S f) v = dec_rev (S g) v.
Proof.
  revert g v. induction f as [|f IH]; intros g v Hf Hg.
  - assert (v = 0) as -> by (simpl in Hf; lia). done.
  - cbn [dec_rev]. f_equal.
    destruct (Z.eqb_spec (v / 10) 0) as [|Hn]; [done|].
    destruct g as [|g].
    + assert (v = 0) as -> by (simpl in Hg; lia). done.
    + rewrite Nat2Z.inj_succ, Z.pow_succ_r in Hf, Hg by lia.
      apply IH; [split|]; [apply Z.div_pos; lia|apply Z.div_lt_upper_bound; lia..].
Qed.

Lemma log2_fuel v : 0 <= v -> v < 2 ^ Z.of_nat (Z.to_nat (Z.log2 v + 1)).
Proof.
  intros Hv. pose proof (Z.log2_nonneg v). rewrite Z2Nat.id by lia.
  destruct (Z.eq_dec v 0) as [->|]; [done|].
  replace (Z.log2 v + 1) with (Z.succ (Z.log2 v)) by lia. apply Z.log2_spec. lia.
Qed.

Lemma udec_small v : 0 <= v < 10 -> udec v = [digit v].
Proof.
  intros. unfold udec. cbn [dec_rev]. rewrite Z.div_small, Z.mod_small by lia. done.
Qed.

Lemma udec_step v : 10 <= v -> udec v = udec (v / 10) ++ [digit (v mod 10)].
Proof.
  intros Hv. unfold udec at 1. cbn [dec_rev].
  assert (1 <= v / 10) by (apply Z.div_le_lower_bound; lia).
  destruct (Z.eqb_spec (v / 10) 0); [lia|]. simpl. f_equal.
  pose proof (Z.log2_pos v ltac:(lia)).
  pose proof (log2_fuel v ltac:(lia)) as Hf.
  pose proof (log2_fuel (v / 10) ltac:(lia)) as Hg.
  unfold udec. f_equal.
  replace (Z.to_nat (Z.log2 v + 1)) with (S (Z.to_nat (Z.log2 v))) in Hf |- * by lia.
  rewrite Nat2Z.inj_succ, Z.pow_succ_r in Hf by lia.
  apply dec_rev_fuel; [|done]. split; [lia|]. apply Z.div_lt_upper_bound; lia.
Qed.

(** Induction along the digits of a nonnegative integer. *)
Lemma digits_ind (P : Z -> Prop) :
  (forall v, 0 <= v < 10 -> P v) ->
  (forall v, 10 <= v -> P (v / 10) -> P v) ->
  forall v, 0 <= v -> P v.
Proof.
  intros Hs Hb v Hv. generalize Hv.
  apply (Z_lt_induction (fun v => 0 <= v -> P v)); [|done].
  clear v Hv. intros v IH Hv.
  destruct (Z.lt_ge_cases v 10) as [|Hge]; [apply Hs; lia|].
  assert (0 <= v / 10) by (apply Z.div_pos; lia).
  apply Hb; [done|]. apply IH; [split; [done|apply Z.div_lt; lia]|done].
Qed.

Lemma dec_val_snoc l b : dec_val (l ++ [b]) = dec_val l * 10 + digit_val b.
Proof. unfold dec_val. by rewrite fold_left_app. Qed.

Lemma dec_val_udec v : 0 <= v -> dec_val (udec v) = v.
Proof.
  revert v. apply digits_ind; intros v Hv.
  - rewrite udec_small by lia. unfold dec_val. simpl. by rewrite digit_val_digit.
  - intros IH. rewrite udec_step, dec_val_snoc, IH by lia.
    rewrite digit_val_digit by (apply Z.mod_pos_bound; lia).
    pose proof (Z.div_mod v 10). lia.
Qed.

Lemma udec_digits v : 0 <= v -> Forall (fun b => isdigit b = true) (udec v).
Proof.
  revert v. apply digits_ind; intros v Hv.
  - rewrite udec_small by lia. constructor; [by apply isdigit_digit|constructor].
  - intros IH. rewrite udec_step by lia. apply Forall_app; split; [done|].
    constructor; [|constructor]. apply isdigit_digit, Z.mod_pos_bound. lia.
Qed.

(** The first digit: no leading zero, except for zero itself. *)
Lemma udec_head v : 0 <= v ->
  exists d l, udec v = digit d :: l /\ 0 <= d < 10 /\ (d = 0 -> v = 0 /\ l = []).
Proof.
  revert v. apply digits_ind; intros v Hv.
  - exists v, []. rewrite udec_small by lia. naive_solver lia.
  - intros (d & l & E & Hd & H0). exists d, (l ++ [digit (v mod 10)]).
    rewrite udec_step, E by lia. split_and!; [done|lia..|]. intros ->.
    destruct H0; [done|]. assert (1 <= v / 10) by (apply Z.div_le_lower_bound; lia). lia.
Qed.

Lemma udec_nonnil v : 0 <= v -> udec v <> [].
Proof. intros Hv. destruct (udec_head v Hv) as (d & l & -> & _). done. Qed.

Lemma dec_val_nonneg l : Forall (fun b => isdigit b = true) l -> 0 <= dec_val l.
Proof.
  induction l as [|b l IH] using rev_ind; [done|].
  rewrite Forall_app, dec_val_snoc. intros [Hl Hb]. inversion Hb; subst.
  pose proof (digit_val_range b ltac:(done)). pose proof (IH Hl). lia.
Qed.

(** A string of digits that does not start with a zero is the decimal
    representation of its value. *)
Lemma udec_dec_val d l :
  isdigit d = true -> d <> digit 0 -> Forall (fun b => isdigit b = true) l ->
  0 < dec_val (d :: l) /\ udec (dec_val (d :: l)) = d :: l.
Proof.
  intros Hd Hd0. pose proof (digit_val_range d Hd) as Hr.
  assert (digit_val d <> 0).
  { intros E. apply Hd0. rewrite <- (digit_digit_val d Hd). by rewrite E. }
  induction l as [|b l IH] using rev_ind; intros Hl.
  - unfold dec_val; simpl. split; [lia|]. rewrite udec_small by lia.
    f_equal. by apply digit_digit_val.
  - apply Forall_app in Hl as [Hl Hb]. inversion Hb as [|?? Hb' _]; subst.
    destruct (IH Hl) as [Hp E]. pose proof (digit_val_range b Hb').
    rewrite app_comm_cons, dec_val_snoc. split; [lia|].
    rewrite udec_step by lia.
    rewrite Z.div_add_l, Z.div_small, Z.add_0_r, E by lia.
    rewrite Z.add_comm, Z.mod_add, Z.mod_small by lia.
    by rewrite digit_digit_val.
Qed.

Lemma zlen_udec_pos v : 0 <= v -> 1 <= zlen (udec v).
Proof.
  intros Hv. destruct (udec_head v Hv) as (d & l & -> & _). zlia.
Qed.

Lemma dec_nonneg v : 0 <= v -> dec v = udec v.
Proof. intros. unfold dec. destruct (Z.ltb_spec v 0); [lia|done]. Qed.

(** Decimal digits contain no carriage return. *)
Lemma dec_no_cr v : CR ∉ dec v.
Proof.
  assert (forall l, Forall (fun b => isdigit b = true) l -> CR ∉ l) as Hd.
  { intros l Hl Hin. rewrite Forall_forall in Hl. specialize (Hl _ Hin). done. }
  unfold dec. destruct (Z.ltb_spec v 0).
  - apply not_elem_of_cons. split; [done|]. apply Hd, udec_digits. lia.
  - apply Hd, udec_digits. lia.
Qed.

(** ** Lemmas: [strtol] *)

Lemma span_all f l r :
  Forall (fun b => f b = true) l -> (forall b r', r = b :: r' -> f b = false) ->
  span f (l ++ r) = (l, r).
Proof.
  intros Hl Hr. induction Hl as [|x l Hx _ IH]; simpl; [|by rewrite Hx, IH].
  destruct r as [|b r]; simpl; [done|]. by rewrite (Hr b r).
Qed.

(** [strtol] reads the numeral at the start of a text, up to the first byte
    that is no digit. *)
Lemma strtol_udec {dm : DataModel} v r :
  LP64 -> 0 <= v <= INT_MAX -> (forall b r', r = b :: r' -> isdigit b = false) ->
  strtol (udec v ++ r) = v.
Proof.
  intros Hlp Hv Hr. unfold strtol.
  destruct (udec_head v ltac:(lia)) as (d & l & E & Hd & _).
  assert (isdigit (digit d) = true) as Hdg by (by apply isdigit_digit).
  assert (span isspace (udec v ++ r) = ([], udec v ++ r)) as ->.
  { rewrite E. simpl. replace (isspace (digit d)) with false; [done|]. symmetry.
    apply in_range_spec in Hdg. unfold isspace, in_range.
    destruct (Z.eqb_spec (bZ (digit d)) 32); [lia|]. simpl.
    apply andb_false_iff. right. lia. }
  cbn [snd]. rewrite E, <- app_comm_cons.
  rewrite !bool_decide_false by (intros Eb; rewrite Eb in Hdg; done).
  rewrite app_comm_cons, <- E, span_all by (done || by apply udec_digits; lia). cbn [fst].
  rewrite dec_val_udec by lia.
  assert (INT_MAX <= LONG_MAX) by (unfold LONG_MAX; rewrite Hlp; done).
  assert (LONG_MIN <= 0) by (unfold LONG_MIN; rewrite Hlp; done). lia.
Qed.
