(* ===== verification/Buffer.v ===== *)
(** * The interface of a growable byte buffer

    What the protocol reader and the command formatter use of the dynamic
    strings: creation, appending, dropping a prefix in place.  The clients are
    proved against the laws of this interface; SdsOps discharges them. *)

From S2P Require Import Prelude CLib.

(** What a function that may move a buffer returns: the new buffer, or [NULL],
    in which case the argument has been freed or is still live. *)
Inductive grow {B : Type} :=
  | GNull (freed : bool)
  | GOk (s : B).
Arguments grow : clear implicits.

(** The allocator that never fails, as a hypothesis. *)
Definition alloc_total (al : Allocator) : Prop := forall n z, alloc_ok n z = true.

Lemma malloc_ok {al : Allocator} : alloc_total al -> forall a n, malloc a n = (true, S a).
Proof. intros Hal a n. unfold malloc. by rewrite Hal. Qed.

Lemma calloc_ok {al : Allocator} : alloc_total al ->
  forall a n sz, n * sz <= SIZE_MAX -> calloc a n sz = (true, S a).
Proof.
  intros Hal a n sz Hn. unfold calloc. rewrite (proj2 (Z.ltb_ge _ _)) by lia. by apply malloc_ok.
Qed.

(** [m] runs without fault and its result satisfies [P]. *)
Definition returns {A} (m : option (A * nat)) (P : A -> Prop) : Prop :=
  exists x a, m = Some (x, a) /\ P x.

(** [NULL] is returned only when an allocation fails. *)
Definition grow_post {B} (al : Allocator) (P : B -> Prop) (g : grow B) : Prop :=
  match g with GOk s => P s | GNull _ => ~ alloc_total al end.

Definition opt_post {B} (al : Allocator) (P : B -> Prop) (o : option B) : Prop :=
  match o with Some s => P s | None => ~ alloc_total al end.

(** Continues with the buffer a growth returned, or returns [NULL]. *)
Definition grown {B} (k : B -> nat -> option (grow B * nat)) (g : grow B * nat) :
    option (grow B * nat) :=
  match g with
  | (GOk s, a) => k s a
  | (GNull f, a) => Some (GNull f, a)
  end.

Class ByteBuf (B : Type) := {
  buf_empty : nat -> option (option B * nat);
  buf_cat : B -> bytes -> Z -> nat -> option (grow B * nat);
  buf_range : B -> Z -> Z -> option B;
  buf_len : B -> Z;
  buf_avail : B -> Z;
  buf_val : B -> bytes
}.

(** Largest contents for which no size computation wraps. *)
Definition BUF_SAFE : Z := SIZE_MAX - 2 * (1024 * 1024).

Class ByteBufLaws (al : Allocator) (B : Type) `{ByteBuf B} := {
  buf_ok : B -> Prop;
  buf_empty_spec a :
    returns (buf_empty a) (opt_post al (fun b => buf_ok b /\ buf_val b = []));
  buf_cat_spec b t a :
    buf_ok b -> zlen (buf_val b) + zlen t <= BUF_SAFE ->
    returns (buf_cat b t (zlen t) a)
      (grow_post al (fun b' => buf_ok b' /\ buf_val b' = buf_val b ++ t));
  buf_range_spec b i :
    buf_ok b -> 0 <= i <= INT_MAX -> zlen (buf_val b) <= INT_MAX ->
    exists b', buf_range b i (-1) = Some b' /\ buf_ok b' /\ buf_val b' = zdrop i (buf_val b);
  buf_len_spec b : buf_ok b -> buf_len b = zlen (buf_val b)
}.

(** Sequencing of the two kinds of result. *)
Lemma returns_bind {A C} (m : option (A * nat)) (P : A -> Prop) k (Q : C -> Prop) :
  returns m P -> (forall x a, P x -> returns (k (x, a)) Q) -> returns (m ≫= k) Q.
Proof. intros (x & a & -> & Hx) Hk. by apply Hk. Qed.

Lemma returns_grown {B} al (m : option (grow B * nat)) (P Q : B -> Prop) k :
  returns m (grow_post al P) ->
  (forall s a, P s -> returns (k s a) (grow_post al Q)) ->
  returns (m ≫= grown k) (grow_post al Q).
Proof.
  intros Hm Hk. eapply returns_bind; [exact Hm|].
  intros [f|s] a Hx; simpl; [|by apply Hk]. by exists (GNull f), a.
Qed.

Lemma returns_mono {A} (m : option (A * nat)) (P Q : A -> Prop) :
  returns m P -> (forall x, P x -> Q x) -> returns m Q.
Proof. intros (x & a & -> & Hx) Hpq. exists x, a. auto. Qed.

Lemma grow_post_mono {B} al (P Q : B -> Prop) g :
  (forall s, P s -> Q s) -> grow_post al P g -> grow_post al Q g.
Proof. destruct g; simpl; auto. Qed.

Lemma returns_ok {B} al (s : B) a (P : B -> Prop) :
  P s -> returns (Some (GOk s, a)) (grow_post al P).
Proof. intros. by exists (GOk s), a. Qed.
