(* ===== verification/Sds.v ===== *)
(** * Dynamic strings: headers, growth and concatenation (sds.h, sds.c)

    An [sds] is a pointer behind a packed header.  The model keeps the flags
    byte [s[-1]], the [len] and [alloc] fields of the header the flags select
    (types 8 to 64; type 5 keeps its length in the flags byte), and the cells
    of the allocation from [s] on; a cell is [None] while it is indeterminate.
    A result [None] of a function is undefined behaviour or a failed
    [assert]. *)

From Stdlib Require Import Strings.Byte.
From S2P Require Import Prelude CLib Buffer.

Abbreviation cell := (option byte).

Record sds := Sds {
  s_flags : Z;            (* s[-1] *)
  s_hlen : Z;             (* sh->len *)
  s_halloc : Z;           (* sh->alloc *)
  s_buf : list cell       (* the bytes from s to the end of the allocation *)
}.

Definition SDS_TYPE_5 : Z := 0.
Definition SDS_TYPE_8 : Z := 1.
Definition SDS_TYPE_16 : Z := 2.
Definition SDS_TYPE_32 : Z := 3.
Definition SDS_TYPE_64 : Z := 4.
Definition SDS_TYPE_MASK : Z := 7.
Definition SDS_TYPE_BITS : Z := 3.
Definition SDS_MAX_PREALLOC : Z := 1024 * 1024.

(** ** Headers *)

Definition sdsHdrSize (type : Z) : Z :=
  let t := Z.land type SDS_TYPE_MASK in
  if t =? SDS_TYPE_5 then 1 else if t =? SDS_TYPE_8 then 3
  else if t =? SDS_TYPE_16 then 5 else if t =? SDS_TYPE_32 then 9
  else if t =? SDS_TYPE_64 then 17 else 0.

Definition sdsReqType (string_size : Z) : Z :=
  if string_size <? 32 then SDS_TYPE_5
  else if string_size <? 255 then SDS_TYPE_8
  else if string_size <? 65535 then SDS_TYPE_16
  else if string_size <? 4294967295 then SDS_TYPE_32
  else SDS_TYPE_64.

Definition sdstype (s : sds) : Z := Z.land (s_flags s) SDS_TYPE_MASK.

(** Width of the header fields of a type. *)
Definition type_bits (t : Z) : Z :=
  if t =? SDS_TYPE_8 then 8 else if t =? SDS_TYPE_16 then 16
  else if t =? SDS_TYPE_32 then 32 else 64.

Definition SDS_TYPE_5_LEN (f : Z) : Z := Z.shiftr f SDS_TYPE_BITS.

Definition sdslen (s : sds) : Z :=
  if sdstype s =? SDS_TYPE_5 then SDS_TYPE_5_LEN (s_flags s)
  else if sdstype s <=? SDS_TYPE_64 then s_hlen s else 0.

Definition sdsavail (s : sds) : Z :=
  if sdstype s =? SDS_TYPE_5 then 0
  else if sdstype s <=? SDS_TYPE_64 then u64 (s_halloc s - s_hlen s) else 0.

Definition sdsalloc (s : sds) : Z :=
  if sdstype s =? SDS_TYPE_5 then SDS_TYPE_5_LEN (s_flags s)
  else if sdstype s <=? SDS_TYPE_64 then s_halloc s else 0.

Definition sdssetlen (s : sds) (newlen : Z) : sds :=
  if sdstype s =? SDS_TYPE_5
  then Sds (u8 (Z.lor SDS_TYPE_5 (Z.shiftl newlen SDS_TYPE_BITS)))
           (s_hlen s) (s_halloc s) (s_buf s)
  else if sdstype s <=? SDS_TYPE_64
  then Sds (s_flags s) (uw (type_bits (sdstype s)) newlen) (s_halloc s) (s_buf s)
  else s.

Definition sdsinclen (s : sds) (inc : Z) : sds :=
  if sdstype s =? SDS_TYPE_5
  then let newlen := u8 (SDS_TYPE_5_LEN (s_flags s) + u8 inc) in
       Sds (u8 (Z.lor SDS_TYPE_5 (Z.shiftl newlen SDS_TYPE_BITS)))
           (s_hlen s) (s_halloc s) (s_buf s)
  else if sdstype s <=? SDS_TYPE_64
  then let w := type_bits (sdstype s) in
       Sds (s_flags s) (uw w (s_hlen s + uw w inc)) (s_halloc s) (s_buf s)
  else s.

Definition sdssetalloc (s : sds) (newlen : Z) : sds :=
  if sdstype s =? SDS_TYPE_5 then s
  else if sdstype s <=? SDS_TYPE_64
  then Sds (s_flags s) (s_hlen s) (uw (type_bits (sdstype s)) newlen) (s_buf s)
  else s.

(** [memcpy] and single-byte stores into the buffer. *)
Definition sdsput (s : sds) (off : Z) (src : list cell) : option sds :=
  buf ← zwrite (s_buf s) off src;
  Some (Sds (s_flags s) (s_hlen s) (s_halloc s) buf).

(** A read of the byte at [i]: outside the allocation, or indeterminate, it
    faults. *)
Definition sdsget (s : sds) (i : Z) : option byte := mjoin (zget (s_buf s) i).

Definition fresh (n : Z) : list cell := replicate (Z.to_nat n) None.

(** [realloc] keeps the common prefix. *)
Definition resize (buf : list cell) (n : Z) : list cell :=
  ztake n buf ++ fresh (n - zlen buf).

Section ops.
Context {al : Allocator}.

(** ** Creation *)

Definition sdsnewlen (init : option bytes) (initlen : Z) (a : nat) : option (option sds * nat) :=
  let type := sdsReqType initlen in
  let type := if (type =? SDS_TYPE_5) && (initlen =? 0) then SDS_TYPE_8 else type in
  let hdrlen := sdsHdrSize type in
  let size := u64 (hdrlen + initlen + 1) in
  let '(ok, a) := malloc a size in
  if negb ok then Some (None, a) else
  let cells := match init with
               | None => replicate (Z.to_nat (size - hdrlen)) (Some NUL)
               | Some _ => fresh (size - hdrlen)
               end in
  let s := if type =? SDS_TYPE_5
           then Sds (u8 (Z.lor type (Z.shiftl initlen SDS_TYPE_BITS))) 0 0 cells
           else Sds type (uw (type_bits type) initlen) (uw (type_bits type) initlen) cells in
  s ← match init with
      | Some p => if initlen =? 0 then Some s
                  else src ← zread p 0 initlen; sdsput s 0 (Some <$> src)
      | None => Some s
      end;
  s ← sdsput s initlen [Some NUL];
  Some (Some s, a).

Definition sdsempty (a : nat) : option (option sds * nat) := sdsnewlen (Some []) 0 a.

Definition sdsnew (init : option bytes) (a : nat) : option (option sds * nat) :=
  let initlen := match init with None => 0 | Some p => strlen p end in
  sdsnewlen init initlen a.

(** The bytes of [s] as the source of a copy of [len] bytes. *)
Definition sdsbytes (s : sds) (len : Z) : option bytes :=
  cells ← zread (s_buf s) 0 len; mapM id cells.

Definition sdsdup (s : sds) (a : nat) : option (option sds * nat) :=
  p ← sdsbytes s (sdslen s);
  sdsnewlen (Some p) (sdslen s) a.

(** ** Length updates *)

(** [strlen(s)]: the distance to the first NUL; a fault when there is none
    in the allocation. *)
Fixpoint cells_strlen (buf : list cell) : option Z :=
  match buf with
  | Some b :: buf' =>
      if bool_decide (b = NUL) then Some 0
      else n ← cells_strlen buf'; Some (1 + n)
  | _ => None
  end.

Definition sdsupdatelen (s : sds) : option sds :=
  reallen ← cells_strlen (s_buf s);
  Some (sdssetlen s (u64 (s32 reallen))).

Definition sdsclear (s : sds) : option sds :=
  sdsput (sdssetlen s 0) 0 [Some NUL].

(** ** Growth *)

Definition sdsMakeRoomFor (s : sds) (addlen : Z) (a : nat) : option (grow sds * nat) :=
  let avail := sdsavail s in
  let oldtype := sdstype s in
  if addlen <=? avail then Some (GOk s, a) else
  let len := sdslen s in
  let newlen := u64 (len + addlen) in
  let newlen := if newlen <? SDS_MAX_PREALLOC then u64 (newlen * 2)
                else u64 (newlen + SDS_MAX_PREALLOC) in
  let type := sdsReqType newlen in
  let type := if type =? SDS_TYPE_5 then SDS_TYPE_8 else type in
  let hdrlen := sdsHdrSize type in
  let size := u64 (hdrlen + newlen + 1) in
  let '(ok, a) := malloc a size in
  if oldtype =? type then
    if negb ok then Some (GNull true, a)
    else Some (GOk (sdssetalloc (Sds (s_flags s) (s_hlen s) (s_halloc s)
                                     (resize (s_buf s) (size - hdrlen))) newlen), a)
  else
    if negb ok then Some (GNull false, a)
    else
      src ← zread (s_buf s) 0 (len + 1);
      s' ← sdsput (Sds type 0 0 (fresh (size - hdrlen))) 0 src;
      Some (GOk (sdssetalloc (sdssetlen s' len) newlen), a).

Definition sdsRemoveFreeSpace (s : sds) (a : nat) : option (grow sds * nat) :=
  let oldtype := sdstype s in
  let len := sdslen s in
  let type := sdsReqType len in
  let hdrlen := sdsHdrSize type in
  let size := u64 (hdrlen + len + 1) in
  let '(ok, a) := malloc a size in
  if negb ok then Some (GNull false, a)
  else if oldtype =? type then
    Some (GOk (sdssetalloc (Sds (s_flags s) (s_hlen s) (s_halloc s)
                                (resize (s_buf s) (size - hdrlen))) len), a)
  else
    src ← zread (s_buf s) 0 (len + 1);
    s' ← sdsput (Sds type 0 0 (fresh (size - hdrlen))) 0 src;
    Some (GOk (sdssetalloc (sdssetlen s' len) len), a).

Definition sdsAllocSize (s : sds) : Z :=
  u64 (sdsHdrSize (s_flags s) + sdsalloc s + 1).

Definition sdsIncrLen (s : sds) (incr : Z) : option sds :=
  if sdstype s =? SDS_TYPE_5 then
    let oldlen := SDS_TYPE_5_LEN (s_flags s) in
    if ((0 <? incr) && (oldlen + incr <? 32)) || ((incr <? 0) && (u32 (- incr) <=? oldlen))
    then let len := oldlen + incr in
         sdsput (Sds (u8 (Z.lor SDS_TYPE_5 (Z.shiftl len SDS_TYPE_BITS)))
                     (s_hlen s) (s_halloc s) (s_buf s)) len [Some NUL]
    else None
  else if sdstype s <=? SDS_TYPE_64 then
    if ((0 <=? incr) && (incr <=? s_halloc s - s_hlen s))
       || ((incr <? 0) && (- incr <=? s_hlen s))
    then let len := uw (type_bits (sdstype s)) (s_hlen s + incr) in
         sdsput (Sds (s_flags s) len (s_halloc s) (s_buf s)) len [Some NUL]
    else None
  else sdsput s 0 [Some NUL].

Definition sdsgrowzero (s : sds) (len : Z) (a : nat) : option (grow sds * nat) :=
  let curlen := sdslen s in
  if len <=? curlen then Some (GOk s, a) else
  g ← sdsMakeRoomFor s (len - curlen) a;
  grown (fun s a =>
    s ← sdsput s curlen (replicate (Z.to_nat (len - curlen + 1)) (Some NUL));
    Some (GOk (sdssetlen s len), a)) g.

(** ** Concatenation and copy *)

Definition sdscatlen (s : sds) (t : bytes) (len : Z) (a : nat) : option (grow sds * nat) :=
  let curlen := sdslen s in
  g ← sdsMakeRoomFor s len a;
  grown (fun s a =>
    src ← zread t 0 len;
    s ← sdsput s curlen (Some <$> src);
    let s := sdssetlen s (curlen + len) in
    s ← sdsput s (curlen + len) [Some NUL];
    Some (GOk s, a)) g.

Definition sdscat (s : sds) (t : bytes) (a : nat) : option (grow sds * nat) :=
  sdscatlen s t (strlen t) a.

Definition sdscatsds (s t : sds) (a : nat) : option (grow sds * nat) :=
  p ← sdsbytes t (sdslen t);
  sdscatlen s p (sdslen t) a.

Definition sdscpylen (s : sds) (t : bytes) (len : Z) (a : nat) : option (grow sds * nat) :=
  g ← if sdsalloc s <? len then sdsMakeRoomFor s (u64 (len - sdslen s)) a
      else Some (GOk s, a);
  grown (fun s a =>
    src ← zread t 0 len;
    s ← sdsput s 0 (Some <$> src);
    s ← sdsput s len [Some NUL];
    Some (GOk (sdssetlen s len), a)) g.

Definition sdscpy (s : sds) (t : bytes) (a : nat) : option (grow sds * nat) :=
  sdscpylen s t (strlen t) a.

End ops.

(** ** Representation

    A well-formed string of contents [v] has a header of type [t] whose
    length is that of [v], and a buffer holding [v], a NUL and [junk], the
    free space. *)

Definition type_cap (t : Z) : Z :=
  if t =? SDS_TYPE_5 then 31 else 2 ^ type_bits t - 1.

Definition hdr (t len alloc : Z) (buf : list cell) : sds :=
  if t =? SDS_TYPE_5 then Sds (Z.shiftl len SDS_TYPE_BITS) 0 0 buf else Sds t len alloc buf.

Definition sds_of (t : Z) (v : bytes) (c : cell) (junk : list cell) : sds :=
  hdr t (zlen v) (zlen v + zlen junk) ((Some <$> v) ++ c :: junk).

Definition sds_repr (s : sds) (v : bytes) : Prop :=
  exists t junk, s = sds_of t v (Some NUL) junk /\ 0 <= t <= 4
                 /\ zlen v + zlen junk <= type_cap t.

(** The same without the NUL: a string some operation is still writing to. *)
Definition sds_open (s : sds) (v : bytes) : Prop :=
  exists t c junk, s = sds_of t v c junk /\ 0 <= t <= 4 /\ zlen v + zlen junk <= type_cap t.

(** The contents as a function of the string. *)
Definition sdsval (s : sds) : bytes := default NUL <$> ztake (sdslen s) (s_buf s).

(** *** Headers *)

Lemma type_cap_bounds t : 0 <= t <= 4 -> 31 <= type_cap t <= ULLONG_MAX.
Proof.
  intros. assert (t = 0 \/ t = 1 \/ t = 2 \/ t = 3 \/ t = 4) as Ht by lia.
  destruct_or! Ht; subst; vm_compute; intuition congruence.
Qed.

Lemma hdr_land l : 0 <= l <= 31 -> Z.land (Z.shiftl l 3) 7 = 0 /\ Z.shiftr (Z.shiftl l 3) 3 = l
  /\ u8 (Z.shiftl l 3) = Z.shiftl l 3.
Proof.
  intros. split_and!.
  - change 7 with (Z.ones 3). rewrite Z.land_ones, Z.shiftl_mul_pow2 by lia. apply Z.mod_mul. lia.
  - rewrite Z.shiftr_shiftl_l by lia. apply Z.shiftl_0_r.
  - apply u8_small. rewrite Z.shiftl_mul_pow2 by lia. lia.
Qed.

Ltac type_cases t :=
  let H := fresh in
  assert (t = 0 \/ t = 1 \/ t = 2 \/ t = 3 \/ t = 4) as H by lia;
  destruct_or! H; subst t.

Section headers.
Variables (t l al : Z) (buf : list cell).
Hypothesis Ht : 0 <= t <= 4.
Hypothesis Hl : 0 <= l <= type_cap t.
Hypothesis Hal : 0 <= al <= type_cap t.

Lemma sdstype_hdr : sdstype (hdr t l al buf) = t.
Proof.
  unfold sdstype, hdr. destruct (Z.eqb_spec t SDS_TYPE_5) as [E|E]; simpl.
  - rewrite E in *. apply hdr_land, Hl.
  - type_cases t; try done.
Qed.

Lemma sdslen_hdr : sdslen (hdr t l al buf) = l.
Proof.
  unfold sdslen. rewrite sdstype_hdr. unfold hdr.
  destruct (Z.eqb_spec t SDS_TYPE_5) as [E|E]; simpl.
  - rewrite E in *. apply hdr_land, Hl.
  - destruct (Z.leb_spec t SDS_TYPE_64); [done|unfold SDS_TYPE_64 in *; lia].
Qed.

Lemma sdsalloc_hdr : sdsalloc (hdr t l al buf) = if t =? SDS_TYPE_5 then l else al.
Proof.
  unfold sdsalloc. rewrite sdstype_hdr. unfold hdr.
  destruct (Z.eqb_spec t SDS_TYPE_5) as [E|E]; simpl.
  - rewrite E in *. apply hdr_land, Hl.
  - destruct (Z.leb_spec t SDS_TYPE_64); [done|unfold SDS_TYPE_64 in *; lia].
Qed.

Lemma sdsavail_hdr : l <= al ->
  sdsavail (hdr t l al buf) = if t =? SDS_TYPE_5 then 0 else al - l.
Proof.
  intros Hla. unfold sdsavail. rewrite sdstype_hdr. unfold hdr.
  pose proof (type_cap_bounds t Ht).
  destruct (Z.eqb_spec t SDS_TYPE_5) as [E|E]; simpl; [done|].
  destruct (Z.leb_spec t SDS_TYPE_64); [|unfold SDS_TYPE_64 in *; lia].
  apply u64_small. lia.
Qed.

Lemma uw_type_bits n : t <> SDS_TYPE_5 -> 0 <= n <= type_cap t -> uw (type_bits t) n = n.
Proof.
  unfold type_cap. destruct (Z.eqb_spec t SDS_TYPE_5); [done|]. intros _ ?.
  apply uw_small. lia.
Qed.

Lemma sdssetlen_hdr n : 0 <= n <= type_cap t ->
  sdssetlen (hdr t l al buf) n = hdr t n al buf.
Proof.
  intros Hn. unfold sdssetlen. rewrite sdstype_hdr. unfold hdr.
  destruct (Z.eqb_spec t SDS_TYPE_5) as [E|E]; simpl.
  - rewrite E in *. unfold SDS_TYPE_BITS, SDS_TYPE_5.
    by rewrite Z.lor_0_l, (proj2 (proj2 (hdr_land n Hn))).
  - destruct (Z.leb_spec t SDS_TYPE_64); [|unfold SDS_TYPE_64 in *; lia].
    by rewrite uw_type_bits.
Qed.

Lemma sdssetalloc_hdr n : 0 <= n <= type_cap t -> t <> SDS_TYPE_5 ->
  sdssetalloc (hdr t l al buf) n = hdr t l n buf.
Proof.
  intros Hn E. unfold sdssetalloc. rewrite sdstype_hdr. unfold hdr.
  destruct (Z.eqb_spec t SDS_TYPE_5) as [|_]; [done|]; simpl.
  destruct (Z.leb_spec t SDS_TYPE_64); [|unfold SDS_TYPE_64 in *; lia].
  by rewrite uw_type_bits.
Qed.

Lemma sdsinclen_hdr n : 0 <= n -> l + n <= type_cap t ->
  sdsinclen (hdr t l al buf) n = hdr t (l + n) al buf.
Proof.
  intros Hn Hc. unfold sdsinclen. rewrite sdstype_hdr. unfold hdr.
  destruct (Z.eqb_spec t SDS_TYPE_5) as [E|E]; simpl.
  - rewrite E in *. change (type_cap SDS_TYPE_5) with 31 in *.
    unfold SDS_TYPE_5_LEN, SDS_TYPE_BITS.
    rewrite (proj1 (proj2 (hdr_land l Hl))).
    rewrite (u8_small n), (u8_small (l + n)) by lia.
    unfold SDS_TYPE_5. by rewrite Z.lor_0_l, (proj2 (proj2 (hdr_land (l + n) ltac:(lia)))).
  - destruct (Z.leb_spec t SDS_TYPE_64); [|unfold SDS_TYPE_64 in *; lia].
    rewrite (uw_type_bits n), (uw_type_bits (l + n)) by (done || lia). done.
Qed.

Lemma sbuf_hdr : s_buf (hdr t l al buf) = buf.
Proof. unfold hdr. by destruct (t =? SDS_TYPE_5). Qed.

Lemma sdsput_hdr off src :
  sdsput (hdr t l al buf) off src = hdr t l al <$> zwrite buf off src.
Proof.
  unfold sdsput. rewrite sbuf_hdr. unfold hdr.
  by destruct (zwrite buf off src), (t =? SDS_TYPE_5).
Qed.

End headers.

Lemma sdsReqType_cap n : 0 <= n <= SIZE_MAX ->
  0 <= sdsReqType n <= 4 /\ n <= type_cap (sdsReqType n).
Proof.
  intros. unfold sdsReqType. zcases;
    match goal with |- context [type_cap ?t] =>
      let c := eval vm_compute in (type_cap t) in change (type_cap t) with c;
      let d := eval vm_compute in t in change t with d
    end; width_lia.
Qed.

Lemma sdsReqType_mono n m : n <= m -> sdsReqType n <= sdsReqType m.
Proof.
  intros. unfold sdsReqType, SDS_TYPE_5, SDS_TYPE_8, SDS_TYPE_16, SDS_TYPE_32, SDS_TYPE_64.
  zcases; lia.
Qed.

Lemma zlen_fresh n : 0 <= n -> zlen (fresh n) = n.
Proof. intros. unfold fresh. rewrite zlen_replicate. lia. Qed.

Lemma resize_grow l n : zlen l <= n -> resize l n = l ++ fresh (n - zlen l).
Proof. intros. unfold resize. by rewrite ztake_all. Qed.

(** *** Canonical forms *)

Section canonical.
Variables (t : Z) (v : bytes) (c : cell) (junk : list cell).
Hypothesis Ht : 0 <= t <= 4.
Hypothesis Hc : zlen v + zlen junk <= type_cap t.

Lemma sdstype_of : sdstype (sds_of t v c junk) = t.
Proof. apply sdstype_hdr; zlia. Qed.

Lemma sdslen_of : sdslen (sds_of t v c junk) = zlen v.
Proof. apply sdslen_hdr; zlia. Qed.

Lemma sdsalloc_of :
  sdsalloc (sds_of t v c junk) = if t =? SDS_TYPE_5 then zlen v else zlen v + zlen junk.
Proof. apply sdsalloc_hdr; zlia. Qed.

Lemma sdsavail_of : sdsavail (sds_of t v c junk) = if t =? SDS_TYPE_5 then 0 else zlen junk.
Proof.
  unfold sds_of. rewrite sdsavail_hdr by zlia. destruct (t =? SDS_TYPE_5); [done|]. lia.
Qed.

Lemma sbuf_of : s_buf (sds_of t v c junk) = (Some <$> v) ++ c :: junk.
Proof. apply sbuf_hdr. Qed.

Lemma sdsval_of : sdsval (sds_of t v c junk) = v.
Proof.
  unfold sdsval. rewrite sdslen_of, sbuf_of, <- (zlen_fmap Some v), ztake_app_len.
  rewrite <- list_fmap_compose. rewrite <- (list_fmap_id v) at 2. by apply list_fmap_ext.
Qed.

Lemma sds_of_open : sds_open (sds_of t v c junk) v.
Proof. by exists t, c, junk. Qed.

Lemma sds_of_repr : sds_repr (sds_of t v (Some NUL) junk) v.
Proof. by exists t, junk. Qed.

End canonical.

Lemma repr_len s v : sds_repr s v -> sdslen s = zlen v.
Proof. intros (t & junk & -> & Ht & Hc). by apply sdslen_of. Qed.

Lemma repr_val s v : sds_repr s v -> sdsval s = v.
Proof. intros (t & junk & -> & Ht & Hc). by apply sdsval_of. Qed.

Lemma repr_avail s v : sds_repr s v -> 0 <= sdsavail s <= sdsalloc s - sdslen s.
Proof.
  intros (t & junk & -> & Ht & Hc). rewrite sdsavail_of, sdsalloc_of, sdslen_of by done.
  destruct (t =? SDS_TYPE_5); zlia.
Qed.

Lemma repr_fun s v w : sds_repr s v -> sds_repr s w -> v = w.
Proof. intros Hv Hw. by rewrite <- (repr_val _ _ Hv), <- (repr_val _ _ Hw). Qed.

(** The byte at an index of the contents; the byte at the length is the NUL. *)
Lemma repr_get s v i : sds_repr s v -> 0 <= i < zlen v -> sdsget s i = zget v i.
Proof.
  intros (t & junk & -> & Ht & Hc) Hi. unfold sdsget. rewrite sbuf_of.
  rewrite zget_app_l by (rewrite zlen_fmap; lia).
  unfold zget. destruct (Z.leb_spec 0 i); [|lia]. rewrite list_lookup_fmap.
  by destruct (v !! Z.to_nat i).
Qed.

Lemma repr_nul s v : sds_repr s v -> sdsget s (zlen v) = Some NUL.
Proof.
  intros (t & junk & -> & Ht & Hc). unfold sdsget.
  by rewrite sbuf_of, <- (zlen_fmap Some v), zget_mid.
Qed.

Lemma mapM_Some_fmap (v : bytes) : mapM id (Some <$> v) = Some v.
Proof. induction v as [|b v IH]; [done|]. rewrite fmap_cons. simpl. by rewrite IH. Qed.

Lemma sdsbytes_repr s v : sds_repr s v -> sdsbytes s (sdslen s) = Some v.
Proof.
  intros (t & junk & -> & Ht & Hc). unfold sdsbytes.
  rewrite sdslen_of, sbuf_of by done.
  pose proof (zread_mid [] (Some <$> v) (Some NUL :: junk)) as Hr.
  rewrite zlen_fmap, zlen_nil in Hr. simpl app in Hr. rewrite Hr. simpl. apply mapM_Some_fmap.
Qed.

Create HintDb sds.
#[export] Hint Resolve sds_of_repr : sds.

(** *** Creation and growth *)

Lemma sdsHdrSize_bounds t : 0 <= sdsHdrSize t <= 17.
Proof. unfold sdsHdrSize. zcases; lia. Qed.

Section growth.
Context {al : Allocator}.

(** A store behind the first [i] bytes of the contents, and the NUL. *)
Lemma sdsput_front t l a buf src tail :
  zlen src <= zlen buf -> tail = zdrop (zlen src) buf ->
  sdsput (hdr t l a buf) 0 src = Some (hdr t l a (src ++ tail)).
Proof.
  intros Hl ->. rewrite sdsput_hdr. unfold zwrite. rewrite Z.add_0_l.
  pose proof (zlen_nonneg src). ztrue (zlen src <=? zlen buf). simpl. done.
Qed.

Lemma sdsput_at t l a pre mid post src off :
  off = zlen pre -> length mid = length src ->
  sdsput (hdr t l a (pre ++ mid ++ post)) off src = Some (hdr t l a (pre ++ src ++ post)).
Proof. intros -> Hl. rewrite sdsput_hdr, zwrite_mid; done. Qed.

Lemma sdsnewlen_repr (p : option bytes) n a :
  0 <= n <= BUF_SAFE -> (forall q, p = Some q -> n <= zlen q) ->
  returns (sdsnewlen p n a)
    (opt_post al (fun s => sds_repr s (match p with
                                       | Some q => ztake n q
                                       | None => replicate (Z.to_nat n) NUL
                                       end))).
Proof.
  intros Hn Hp. unfold sdsnewlen.
  set (type := if (sdsReqType n =? SDS_TYPE_5) && (n =? 0) then SDS_TYPE_8 else sdsReqType n).
  assert (0 <= type <= 4 /\ n <= type_cap type) as [Ht Hc].
  { pose proof (sdsReqType_cap n ltac:(unfold BUF_SAFE in *; width_lia)).
    unfold type. destruct (_ && _) eqn:E; [|done].
    split; [done|]. vm_compute type_cap. lia. }
  pose proof (sdsHdrSize_bounds type). cbv zeta. fold type. clearbody type.
  rewrite (u64_small (sdsHdrSize type + n + 1)) by (unfold BUF_SAFE in *; width_lia).
  replace (sdsHdrSize type + n + 1 - sdsHdrSize type) with (n + 1) by lia.
  unfold malloc. simpl.
  destruct (alloc_ok a _) eqn:Hok; simpl.
  2: { exists None, (S a). split; [done|]. intros Htot. by rewrite Htot in Hok. }
  assert (forall cells, (if type =? SDS_TYPE_5
     then Sds (u8 (Z.lor type (Z.shiftl n SDS_TYPE_BITS))) 0 0 cells
     else Sds type (uw (type_bits type) n) (uw (type_bits type) n) cells) = hdr type n n cells) as Hh.
  { intros cells. unfold hdr. destruct (Z.eqb_spec type SDS_TYPE_5) as [E|E].
    - rewrite E in Hc |- *. change (type_cap SDS_TYPE_5) with 31 in Hc.
      unfold SDS_TYPE_5, SDS_TYPE_BITS.
      by rewrite Z.lor_0_l, (proj2 (proj2 (hdr_land n ltac:(lia)))).
    - by rewrite !uw_type_bits by (done || lia). }
  rewrite Hh.
  assert (forall v, zlen v = n ->
    sds_repr (hdr type n n ((Some <$> v) ++ [Some NUL])) v) as Hr.
  { intros v Hv. exists type, []. unfold sds_of. rewrite Hv, zlen_nil, Z.add_0_r. done. }
  destruct p as [q|].
  - specialize (Hp q eq_refl).
    assert (forall src, zlen src = n ->
      sdsput (hdr type n n ((Some <$> src) ++ fresh 1)) n [Some NUL]
      = Some (hdr type n n ((Some <$> src) ++ [Some NUL]))) as Hnul.
    { intros src Hs. change (fresh 1) with ([None] ++ [] : list cell).
      rewrite (sdsput_at _ _ _ _ [None] []); [done|by rewrite zlen_fmap|done]. }
    destruct (Z.eqb_spec n 0) as [E0|E0].
    + simpl. rewrite E0 in *. change (fresh (0 + 1)) with ((Some <$> []) ++ fresh 1).
      rewrite (Hnul [] eq_refl). simpl. eexists _, _. split; [done|].
      rewrite ztake_0. by apply (Hr []).
    + unfold zread. ztrue (0 <=? n). ztrue (0 + n <=? zlen q). rewrite zdrop_0. simpl.
      assert (zlen (ztake n q) = n) as Hz by (apply zlen_ztake; lia).
      rewrite (sdsput_front _ _ _ _ _ (fresh 1)); simpl.
      * rewrite Hnul by done. simpl. eexists _, _. split; [done|]. by apply Hr.
      * rewrite zlen_fmap, Hz, zlen_fresh; lia.
      * rewrite zlen_fmap, Hz. unfold zdrop, fresh. rewrite drop_replicate. f_equal. lia.
  - set (v := replicate (Z.to_nat n) NUL).
    assert (zlen v = n) as Hv by (unfold v; rewrite zlen_replicate; lia).
    assert (replicate (Z.to_nat (n + 1)) (Some NUL) = (Some <$> v) ++ [Some NUL] ++ []) as ->.
    { unfold v. rewrite Z2Nat.inj_add, replicate_add by lia. by rewrite fmap_replicate. }
    simpl. rewrite (sdsput_at _ _ _ _ [Some NUL] []); [|by rewrite zlen_fmap|done].
    eexists _, _. split; [done|]. by apply Hr.
Qed.

(** Moving or extending the allocation: contents kept, room for [addlen]. *)
Lemma sdsMakeRoomFor_of t v c junk addlen a :
  0 <= t <= 4 -> zlen v + zlen junk <= type_cap t ->
  0 <= addlen -> zlen v + addlen <= BUF_SAFE ->
  returns (sdsMakeRoomFor (sds_of t v c junk) addlen a)
    (grow_post al (fun s' => exists t' junk', s' = sds_of t' v c junk' /\ 0 <= t' <= 4
        /\ zlen v + zlen junk' <= type_cap t' /\ addlen <= sdsavail s'
        /\ sdsavail (sds_of t v c junk) <= sdsavail s')).
Proof.
  intros Ht Hc Ha Hsafe. unfold sdsMakeRoomFor.
  rewrite sdsavail_of, sdstype_of, sdslen_of by done.
  destruct (Z.leb_spec addlen (if t =? SDS_TYPE_5 then 0 else zlen junk)) as [Hle|Hgt].
  { apply returns_ok. exists t, junk. rewrite sdsavail_of by done. split_and!; (done || lia). }
  pose proof (zlen_nonneg v). pose proof (zlen_nonneg junk).
  unfold BUF_SAFE, SDS_MAX_PREALLOC in *.
  rewrite (u64_small (zlen v + addlen)) by width_lia.
  set (newlen := if _ <? _ then _ else _).
  assert (zlen v + addlen <= newlen <= SIZE_MAX - 18) as Hnl.
  { unfold newlen. destruct (Z.ltb_spec (zlen v + addlen) (1024 * 1024));
      rewrite u64_small by width_lia; width_lia. }
  clearbody newlen.
  set (type := if sdsReqType newlen =? SDS_TYPE_5 then SDS_TYPE_8 else sdsReqType newlen).
  assert (1 <= type <= 4 /\ newlen <= type_cap type) as [Hty Hcap].
  { pose proof (sdsReqType_cap newlen ltac:(width_lia)) as [? Hcap].
    unfold type. destruct (Z.eqb_spec (sdsReqType newlen) SDS_TYPE_5) as [E|E].
    - rewrite E in Hcap. change (type_cap SDS_TYPE_5) with 31 in Hcap.
      change (type_cap SDS_TYPE_8) with 255. split; [done|]. lia.
    - split; [unfold SDS_TYPE_5 in E; lia|done]. }
  pose proof (sdsHdrSize_bounds type). cbv zeta. fold type.
  rewrite (u64_small (sdsHdrSize type + newlen + 1)) by width_lia.
  replace (sdsHdrSize type + newlen + 1 - sdsHdrSize type) with (newlen + 1) by lia.
  unfold malloc. simpl.
  assert (forall junk', zlen v + zlen junk' = newlen ->
    grow_post al (fun s' => exists t' junk', s' = sds_of t' v c junk' /\ 0 <= t' <= 4
        /\ zlen v + zlen junk' <= type_cap t' /\ addlen <= sdsavail s'
        /\ (if t =? SDS_TYPE_5 then 0 else zlen junk) <= sdsavail s')
      (GOk (sds_of type v c junk'))) as Hdone.
  { intros junk' Hj. exists type, junk'. rewrite sdsavail_of by lia.
    destruct (Z.eqb_spec type SDS_TYPE_5); [unfold SDS_TYPE_5 in *; lia|].
    split_and!; (done || lia). }
  destruct (alloc_ok a _) eqn:Hok.
  2: { destruct (t =? type); simpl; (eexists _, _; split; [done|]);
       intros Htot; by rewrite Htot in Hok. }
  destruct (Z.eqb_spec t type) as [->|Hne]; simpl.
  - rewrite sbuf_of.
    change (Sds (s_flags ?x) (s_hlen ?x) (s_halloc ?x)) with (Sds (s_flags x) (s_hlen x) (s_halloc x)).
    assert (type <> SDS_TYPE_5) as Hn5 by (unfold SDS_TYPE_5; lia).
    destruct (Z.eqb_spec type SDS_TYPE_5); [done|].
    rewrite resize_grow by zlia.
    eexists _, _. split; [done|].
    rewrite <- app_assoc, <- app_comm_cons.
    set (junk' := junk ++ fresh _).
    assert (zlen v + zlen junk' = newlen) as Hj.
    { unfold junk'. rewrite zlen_app, zlen_fresh; zlia. }
    replace (Sds _ _ _ _) with (hdr type (zlen v) (zlen v + zlen junk)
      ((Some <$> v) ++ c :: junk')).
    2: { unfold sds_of, hdr. by destruct (Z.eqb_spec type SDS_TYPE_5). }
    rewrite sdssetalloc_hdr by (done || lia). rewrite <- Hj. by apply Hdone.
  - rewrite sbuf_of.
    pose proof (zread_mid [] ((Some <$> v) ++ [c]) junk) as Hr.
    rewrite zlen_app, zlen_fmap, zlen_nil in Hr. simpl app in Hr.
    rewrite <- app_assoc in Hr. simpl in Hr. change (zlen [c]) with 1 in Hr.
    rewrite Hr. simpl.
    assert (type <> SDS_TYPE_5) as Hn5 by (unfold SDS_TYPE_5; lia).
    replace (Sds type 0 0) with (hdr type 0 0)
      by (unfold hdr; by destruct (Z.eqb_spec type SDS_TYPE_5)).
    rewrite (sdsput_front _ _ _ _ _ (fresh (newlen - zlen v))); simpl.
    + pose proof (type_cap_bounds type ltac:(lia)).
      rewrite sdssetlen_hdr, sdssetalloc_hdr by (done || lia).
      eexists _, _. split; [done|]. rewrite <- app_assoc. simpl.
      replace (hdr type (zlen v) newlen _) with (sds_of type v c (fresh (newlen - zlen v))).
      * apply Hdone. rewrite zlen_fresh; lia.
      * unfold sds_of. rewrite zlen_fresh by lia. f_equal. lia.
    + rewrite zlen_app, zlen_fmap, zlen_fresh by lia. change (zlen [c]) with 1. lia.
    + rewrite zlen_app, zlen_fmap. change (zlen [c]) with 1.
      unfold zdrop, fresh. rewrite drop_replicate. f_equal. lia.
Qed.

Lemma sdsMakeRoomFor_repr s v addlen a :
  sds_repr s v -> 0 <= addlen -> zlen v + addlen <= BUF_SAFE ->
  returns (sdsMakeRoomFor s addlen a)
    (grow_post al (fun s' => sds_repr s' v /\ addlen <= sdsavail s'
                             /\ sdsavail s <= sdsavail s')).
Proof.
  intros (t & junk & -> & Ht & Hc) Ha Hsafe.
  eapply returns_mono; [by apply sdsMakeRoomFor_of|].
  intros g. apply grow_post_mono. intros s' (t' & junk' & -> & ? & ? & ? & ?).
  split; [by apply sds_of_repr|done].
Qed.

Lemma sdsMakeRoomFor_open s v addlen a :
  sds_open s v -> 0 <= addlen -> zlen v + addlen <= BUF_SAFE ->
  returns (sdsMakeRoomFor s addlen a)
    (grow_post al (fun s' => sds_open s' v /\ addlen <= sdsavail s'
                             /\ sdsavail s <= sdsavail s')).
Proof.
  intros (t & c & junk & -> & Ht & Hc) Ha Hsafe.
  eapply returns_mono; [by apply sdsMakeRoomFor_of|].
  intros g. apply grow_post_mono. intros s' (t' & junk' & -> & ? & ? & ? & ?).
  split; [by apply sds_of_open|done].
Qed.

(** Splitting a list at an index. *)
Lemma cells_split (m : list cell) n : 0 <= n < zlen m ->
  exists m1 c m2, m = m1 ++ c :: m2 /\ zlen m1 = n.
Proof.
  intros Hn. exists (ztake n m).
  destruct (zdrop n m) as [|c m2] eqn:E.
  - assert (zlen (zdrop n m) = 0) by (by rewrite E). rewrite zlen_zdrop in *; lia.
  - exists c, m2. rewrite <- E, ztake_zdrop, zlen_ztake by lia. done.
Qed.

Lemma length_zlen {A C} (l : list A) (k : list C) : zlen l = zlen k -> length l = length k.
Proof. unfold zlen. lia. Qed.

(** The terminator behind contents [w] makes the buffer a string again. *)
Lemma sds_terminate t w c junk n :
  0 <= t <= 4 -> n = zlen w -> zlen w + zlen junk <= type_cap t ->
  sdsput (hdr t (zlen w) (zlen w + zlen junk) ((Some <$> w) ++ c :: junk)) n [Some NUL]
  = Some (sds_of t w (Some NUL) junk).
Proof.
  intros Ht -> Hc. by rewrite (sdsput_at _ _ _ _ [c] junk) by (by rewrite ?zlen_fmap).
Qed.

(** The common tail of the operations that append [src] in place. *)
Lemma sds_append t v junk src l1 l2 :
  0 <= t <= 4 -> zlen v + zlen junk <= type_cap t -> zlen src <= zlen junk ->
  l1 = zlen v -> l2 = zlen v + zlen src ->
  exists s, (s1 ← sdsput (sds_of t v (Some NUL) junk) l1 (Some <$> src);
             sdsput (sdssetlen s1 l2) l2 [Some NUL]) = Some s /\ sds_repr s (v ++ src).
Proof.
  intros Ht Hc Hs -> ->.
  destruct (cells_split (Some NUL :: junk) (zlen src)) as (m1 & c & m2 & E & Hm); [zlia|].
  pose proof (f_equal zlen E) as El. autorewrite with zlen in El.
  unfold sds_of. rewrite E.
  rewrite (sdsput_at _ _ _ _ m1 (c :: m2) (Some <$> src));
    [|by rewrite zlen_fmap|apply length_zlen; rewrite zlen_fmap; lia]. simpl.
  rewrite sdssetlen_hdr by zlia.
  replace (zlen v + zlen junk) with (zlen (v ++ src) + zlen m2) by zlia.
  rewrite <- zlen_app, app_assoc, <- fmap_app.
  rewrite sds_terminate by (done || zlia). eexists. split; [done|].
  apply sds_of_repr; [done|zlia].
Qed.

Lemma avail_junk_of t v c junk n :
  0 <= t <= 4 -> zlen v + zlen junk <= type_cap t ->
  n <= sdsavail (sds_of t v c junk) -> n <= zlen junk.
Proof.
  intros Ht Hc. rewrite sdsavail_of by done. destruct (t =? SDS_TYPE_5); zlia.
Qed.

Lemma zread_prefix {A} (t : list A) n :
  0 <= n <= zlen t -> zread t 0 n = Some (ztake n t).
Proof.
  intros. unfold zread. ztrue (0 <=? n). ztrue (0 + n <=? zlen t). done.
Qed.

Theorem sdscatlen_spec s v t n a :
  sds_repr s v -> 0 <= n <= zlen t -> zlen v + n <= BUF_SAFE ->
  returns (sdscatlen s t n a) (grow_post al (fun s' => sds_repr s' (v ++ ztake n t))).
Proof.
  intros Hr Hn Hb. unfold sdscatlen. rewrite (repr_len s v Hr).
  eapply returns_grown; [apply sdsMakeRoomFor_repr; [done|lia..]|].
  intros s1 a1 ((ty & junk & -> & Hty & Hc) & Hav & _).
  apply avail_junk_of in Hav; [|done..]. rewrite zread_prefix by lia. simpl.
  assert (zlen (ztake n t) = n) as Hz by (apply zlen_ztake; lia).
  destruct (sds_append ty v junk (ztake n t) (zlen v) (zlen v + n)) as (s2 & E & Hs2);
    [done|done|lia|done|lia|].
  destruct (sdsput _ _ _) as [s3|]; simpl in *; [|done]. rewrite E. simpl.
  by apply returns_ok.
Qed.

Corollary sdscatlen_all s v t a :
  sds_repr s v -> zlen v + zlen t <= BUF_SAFE ->
  returns (sdscatlen s t (zlen t) a) (grow_post al (fun s' => sds_repr s' (v ++ t))).
Proof.
  intros Hr Hb. pose proof (sdscatlen_spec s v t (zlen t) a Hr) as H.
  rewrite ztake_all in H by lia. apply H; zlia.
Qed.

Lemma sdsempty_spec a : returns (sdsempty a) (opt_post al (fun s => sds_repr s [])).
Proof.
  apply (sdsnewlen_repr (Some []) 0 a); [unfold BUF_SAFE; width_lia|].
  intros q _. zlia.
Qed.

Lemma sdsdup_spec s v a :
  sds_repr s v -> zlen v <= BUF_SAFE ->
  returns (sdsdup s a) (opt_post al (fun s' => sds_repr s' v)).
Proof.
  intros Hr Hb. unfold sdsdup. rewrite (sdsbytes_repr s v), (repr_len s v) by done. simpl.
  eapply returns_mono; [apply sdsnewlen_repr|].
  - zlia.
  - intros q [= <-]. lia.
  - intros o. simpl. by rewrite (ztake_all (zlen v)) by lia.
Qed.

Lemma sdscatsds_spec s v t w a :
  sds_repr s v -> sds_repr t w -> zlen v + zlen w <= BUF_SAFE ->
  returns (sdscatsds s t a) (grow_post al (fun s' => sds_repr s' (v ++ w))).
Proof.
  intros Hs Ht Hb. unfold sdscatsds.
  rewrite (sdsbytes_repr t w), (repr_len t w) by done. simpl. by apply sdscatlen_all.
Qed.

(** Overwriting the whole contents, for the operations that rebuild the
    string in place: any [w] that fits the allocation. *)
Lemma sds_overwrite t v junk w :
  0 <= t <= 4 -> zlen v + zlen junk <= type_cap t -> zlen w <= zlen v + zlen junk ->
  exists s, (s1 ← sdsput (sds_of t v (Some NUL) junk) 0 (Some <$> w);
             s2 ← sdsput s1 (zlen w) [Some NUL];
             Some (sdssetlen s2 (zlen w))) = Some s /\ sds_repr s w.
Proof.
  intros Ht Hc Hw. pose proof (zlen_nonneg v). pose proof (zlen_nonneg junk).
  destruct (cells_split ((Some <$> v) ++ Some NUL :: junk) (zlen w))
    as (m1 & c & m2 & E & Hm); [zlia|].
  pose proof (f_equal zlen E) as El. autorewrite with zlen in El.
  unfold sds_of. rewrite E.
  pose proof (sdsput_at t (zlen v) (zlen v + zlen junk) [] m1 (c :: m2) (Some <$> w) 0) as Hp.
  simpl app in Hp. rewrite Hp; [|done|apply length_zlen; rewrite zlen_fmap; lia].
  simpl. rewrite (sdsput_at _ _ _ _ [c] m2) by (by rewrite ?zlen_fmap).
  simpl. rewrite sdssetlen_hdr by zlia.
  eexists. split; [done|]. exists t, m2. split_and!; try zlia. unfold sds_of. f_equal. lia.
Qed.

Lemma sdscpylen_spec s v t n a :
  sds_repr s v -> 0 <= n <= zlen t -> zlen v + n <= BUF_SAFE ->
  returns (sdscpylen s t n a) (grow_post al (fun s' => sds_repr s' (ztake n t))).
Proof.
  intros Hr Hn Hb. unfold sdscpylen.
  eapply (returns_grown al _ (fun s' => sds_repr s' v /\ n <= sdsalloc s')).
  - destruct (Z.ltb_spec (sdsalloc s) n) as [Hlt|Hge]; [|by apply returns_ok].
    pose proof (repr_avail s v Hr) as Hav. rewrite (repr_len s v Hr) in Hav |- *.
    pose proof (zlen_nonneg v). unfold BUF_SAFE in *. rewrite u64_small by width_lia.
    eapply returns_mono; [apply sdsMakeRoomFor_repr; [done|unfold BUF_SAFE; width_lia..]|].
    intros g. apply grow_post_mono. intros s' (Hr' & Hav' & _). split; [done|].
    pose proof (repr_avail s' v Hr'). rewrite (repr_len s' v Hr') in *. lia.
  - intros s1 a1 ((ty & junk & -> & Hty & Hc) & Hal).
    rewrite zread_prefix by lia. simpl.
    destruct (sds_overwrite ty v junk (ztake n t)) as (s2 & E & Hs2); try done.
    { rewrite zlen_ztake by lia. rewrite sdsalloc_of in Hal by done.
      destruct (ty =? SDS_TYPE_5); zlia. }
    rewrite zlen_ztake in E by lia.
    destruct (sdsput _ 0 _) as [s3|]; simpl in *; [|done].
    destruct (sdsput s3 n _) as [s4|]; simpl in *; [|done].
    injection E as <-. by apply returns_ok.
Qed.

Lemma sdsclear_spec s v : sds_repr s v -> exists s', sdsclear s = Some s' /\ sds_repr s' [].
Proof.
  intros (t & junk & -> & Ht & Hc). unfold sdsclear, sds_of.
  pose proof (type_cap_bounds t Ht). rewrite sdssetlen_hdr by zlia.
  destruct (cells_split ((Some <$> v) ++ Some NUL :: junk) 0) as (m1 & c & m2 & E & Hm); [zlia|].
  apply zlen_0_nil in Hm as ->. rewrite E.
  pose proof (f_equal zlen E) as El. autorewrite with zlen in El. simpl in El |- *.
  pose proof (sdsput_at t 0 (zlen v + zlen junk) [] [c] m2 [Some NUL] 0 eq_refl eq_refl) as Hp.
  simpl app in Hp. rewrite Hp. eexists. split; [done|].
  exists t, m2. split_and!; [|zlia..]. unfold sds_of. simpl. f_equal; zlia.
Qed.

Lemma sdsgrowzero_spec s v n a :
  sds_repr s v -> 0 <= n <= BUF_SAFE ->
  returns (sdsgrowzero s n a)
    (grow_post al (fun s' => sds_repr s' (v ++ replicate (Z.to_nat (n - zlen v)) NUL))).
Proof.
  intros Hr Hn. unfold sdsgrowzero. rewrite (repr_len s v Hr).
  destruct (Z.leb_spec n (zlen v)) as [Hle|Hgt].
  { apply returns_ok. replace (Z.to_nat (n - zlen v)) with 0%nat by lia.
    by rewrite app_nil_r. }
  pose proof (zlen_nonneg v).
  eapply returns_grown; [apply sdsMakeRoomFor_repr; [done|lia..]|].
  intros s1 a1 ((ty & junk & -> & Hty & Hc) & Hav & _).
  apply avail_junk_of in Hav; [|done..].
  set (z := replicate (Z.to_nat (n - zlen v)) NUL).
  assert (zlen z = n - zlen v) as Hz by (unfold z; rewrite zlen_replicate; lia).
  assert (replicate (Z.to_nat (n - zlen v + 1)) (Some NUL) = (Some <$> z) ++ [Some NUL]) as ->.
  { unfold z. rewrite Z2Nat.inj_add, replicate_add by lia. by rewrite fmap_replicate. }
  destruct (cells_split (Some NUL :: junk) (zlen z)) as (m1 & c & m2 & E & Hm); [zlia|].
  pose proof (f_equal zlen E) as El. autorewrite with zlen in El.
  unfold sds_of. rewrite E.
  replace (m1 ++ c :: m2) with ((m1 ++ [c]) ++ m2) by (by rewrite <- app_assoc).
  rewrite (sdsput_at _ _ _ _ (m1 ++ [c]) m2); [|by rewrite zlen_fmap|].
  2: { apply length_zlen. rewrite !zlen_app, zlen_fmap. zlia. }
  simpl. rewrite sdssetlen_hdr by zlia.
  apply returns_ok. exists ty, m2. split_and!; [|zlia..].
  unfold sds_of. rewrite fmap_app, <- !app_assoc. simpl. f_equal; zlia.
Qed.

End growth.

#[global] Arguments sdsnewlen : simpl never.
#[global] Arguments sdsempty : simpl never.
#[global] Arguments sdsMakeRoomFor : simpl never.
#[global] Arguments sdscatlen : simpl never.
#[global] Arguments sdscat : simpl never.
