(* ===== verification/SdsFmt.v ===== *)
(** * Numbers and formatted text in dynamic strings (sds.c)

    [sdsll2str], [sdsull2str], [sdsfromlonglong], [sdscatvprintf] and
    [sdscatfmt], with the text each of them appends. *)

From Stdlib Require Import Strings.Byte.
From S2P Require Import Prelude CLib Buffer Sds.

(** ** Number to text *)

Definition SDS_LLSTR_SIZE : Z := 21.

(** [*p++ = b] in a buffer of [SDS_LLSTR_SIZE] bytes; [p - s] is the number of
    bytes written so far. *)
Definition ll_push (p : bytes) (b : byte) : option bytes :=
  if zlen p <? SDS_LLSTR_SIZE then Some (p ++ [b]) else None.

(** [do { *p++ = '0'+(v%10); v /= 10; } while(v);] *)
Fixpoint ll_digits (fuel : nat) (p : bytes) (v : Z) : option bytes :=
  match fuel with
  | O => None
  | S f => p ← ll_push p (digit (v mod 10));
           if v / 10 =? 0 then Some p else ll_digits f p (v / 10)
  end.

Definition zset {A} (l : list A) (i : Z) (x : A) : list A := <[Z.to_nat i := x]> l.

(** [while(s < p) { aux = *s; *s = *p; *p = aux; s++; p--; }] *)
Fixpoint ll_reverse (fuel : nat) (l : bytes) (s p : Z) : option bytes :=
  match fuel with
  | O => None
  | S f =>
      if s <? p then
        aux ← zget l s; y ← zget l p;
        ll_reverse f (zset (zset l s y) p aux) (s + 1) (p - 1)
      else Some l
  end.

(** Length, terminator and reversal: the common end of the two conversions. *)
Definition ll_finish (p : bytes) : option bytes :=
  _ ← ll_push p NUL;
  ll_reverse (length p + 1) p 0 (zlen p - 1).

Definition LL_FUEL : nat := 21.

(** The text stored at [s]; its length is the value returned. *)
Definition sdsll2str (value : Z) : option bytes :=
  let v := u64 (if value <? 0 then s64 (- value) else value) in
  p ← ll_digits LL_FUEL [] v;
  p ← if value <? 0 then ll_push p Byte.x2d else Some p;
  ll_finish p.

Definition sdsull2str (v : Z) : option bytes :=
  p ← ll_digits LL_FUEL [] v;
  ll_finish p.

(** ** Variadic arguments

    An argument slot holds a pointer to bytes or an integer; reading an
    integer slot at a type converts it to the width of that type.  Reading a
    slot of the wrong kind, or past the last one, faults. *)

Inductive vaarg :=
  | VaPtr (p : bytes)
  | VaInt (z : Z)
  | VaDouble (enc : bytes).

Definition va_ptr (ap : list vaarg) : option (bytes * list vaarg) :=
  match ap with VaPtr p :: ap => Some (p, ap) | _ => None end.

Definition va_int (conv : Z -> Z) (ap : list vaarg) : option (Z * list vaarg) :=
  match ap with VaInt z :: ap => Some (conv z, ap) | _ => None end.

Definition va_double (ap : list vaarg) : option (bytes * list vaarg) :=
  match ap with VaDouble d :: ap => Some (d, ap) | _ => None end.

Section ops.
Context {al : Allocator}.

Definition sdsfromlonglong (value : Z) (a : nat) : option (option sds * nat) :=
  buf ← sdsll2str value;
  sdsnewlen (Some buf) (zlen buf) a.

(** ** [sdscatvprintf]

    [out] is the text [vsnprintf] produces for the format and the arguments.
    With a buffer of [buflen] bytes the first [buflen-1] bytes of it are
    stored and terminated. *)
Fixpoint vprintf_loop (fuel : nat) (s : sds) (out : bytes) (buflen : Z) (a : nat) :
    option (grow sds * nat) :=
  match fuel with
  | O => None
  | S f =>
      let full := match zget out (buflen - 2) with
                  | Some b => (buflen - 1 <=? zlen out) && negb (bool_decide (b = NUL))
                  | None => false
                  end in
      if full then
        let buflen := u64 (buflen * 2) in
        let '(ok, a) := malloc a buflen in
        if ok then vprintf_loop f s out buflen a else Some (GNull false, a)
      else sdscat s (ztake (buflen - 1) out) a
  end.

Definition sdscatvprintf (s : sds) (fmt out : bytes) (a : nat) : option (grow sds * nat) :=
  let buflen := u64 (strlen fmt * 2) in
  let fuel := 64%nat in
  if 1024 <? buflen then
    let '(ok, a) := malloc a buflen in
    if ok then vprintf_loop fuel s out buflen a else Some (GNull false, a)
  else vprintf_loop fuel s out 1024 a.

(** ** [sdscatfmt] *)

(** The next byte goes to [s+i]; the length is advanced without a NUL. *)
Definition fmt_put (s : sds) (i : Z) (src : bytes) : option sds :=
  s ← sdsput s i (Some <$> src); Some (sdsinclen s (zlen src)).

Definition fmt_room (s : sds) (l : Z) (a : nat) : option (grow sds * nat) :=
  if sdsavail s <? l then sdsMakeRoomFor s l a else Some (GOk s, a).

(** The loop over the format: [f] is the rest of the format.  Advancing past
    its terminator faults. *)
Fixpoint catfmt_loop (f : bytes) (ap : list vaarg) (s : sds) (i : Z) (a : nat) :
    option (grow sds * nat) :=
  match f with
  | [] => s ← sdsput s i [Some NUL]; Some (GOk s, a)
  | c :: f1 =>
      g ← (if sdsavail s =? 0 then sdsMakeRoomFor s 1 a else Some (GOk s, a));
      grown (fun s a =>
        if bool_decide (c = Byte.x25) then
          match f1 with
          | [] => None
          | next :: f2 =>
              if bool_decide (next = Byte.x73) || bool_decide (next = Byte.x53) then
                r ← va_ptr ap;
                let str := if bool_decide (next = Byte.x73) then cstr r.1 else r.1 in
                g ← fmt_room s (zlen str) a;
                grown (fun s a => s ← fmt_put s i str;
                                  catfmt_loop f2 r.2 s (s32 (i + zlen str)) a) g
              else if bool_decide (next = Byte.x69) || bool_decide (next = Byte.x49) then
                r ← va_int (if bool_decide (next = Byte.x69) then s32 else s64) ap;
                buf ← sdsll2str r.1;
                g ← fmt_room s (zlen buf) a;
                grown (fun s a => s ← fmt_put s i buf;
                                  catfmt_loop f2 r.2 s (s32 (i + zlen buf)) a) g
              else if bool_decide (next = Byte.x75) || bool_decide (next = Byte.x55) then
                r ← va_int (if bool_decide (next = Byte.x75) then u32 else u64) ap;
                buf ← sdsull2str r.1;
                g ← fmt_room s (zlen buf) a;
                grown (fun s a => s ← fmt_put s i buf;
                                  catfmt_loop f2 r.2 s (s32 (i + zlen buf)) a) g
              else
                s ← fmt_put s i [next];
                catfmt_loop f2 ap s (s32 (i + 1)) a
          end
        else
          s ← fmt_put s i [c];
          catfmt_loop f1 ap s (s32 (i + 1)) a) g
  end.

Definition sdscatfmt (s : sds) (fmt : bytes) (ap : list vaarg) (a : nat) :
    option (grow sds * nat) :=
  catfmt_loop (cstr fmt) ap s (s32 (sdslen s)) a.

End ops.

(** ** Specification of [sdscatfmt]: the text a format stands for *)

Fixpoint fmt_text (f : bytes) (ap : list vaarg) : option bytes :=
  match f with
  | [] => Some []
  | c :: f1 =>
      if bool_decide (c = Byte.x25) then
        match f1 with
        | [] => None
        | next :: f2 =>
            if bool_decide (next = Byte.x73) then
              r ← va_ptr ap; w ← fmt_text f2 r.2; Some (cstr r.1 ++ w)
            else if bool_decide (next = Byte.x53) then
              r ← va_ptr ap; w ← fmt_text f2 r.2; Some (r.1 ++ w)
            else if bool_decide (next = Byte.x69) then
              r ← va_int s32 ap; w ← fmt_text f2 r.2; Some (dec r.1 ++ w)
            else if bool_decide (next = Byte.x49) then
              r ← va_int s64 ap; w ← fmt_text f2 r.2; Some (dec r.1 ++ w)
            else if bool_decide (next = Byte.x75) then
              r ← va_int u32 ap; w ← fmt_text f2 r.2; Some (udec r.1 ++ w)
            else if bool_decide (next = Byte.x55) then
              r ← va_int u64 ap; w ← fmt_text f2 r.2; Some (udec r.1 ++ w)
            else w ← fmt_text f2 ap; Some (next :: w)
        end
      else w ← fmt_text f1 ap; Some (c :: w)
  end.

(** ** Lemmas: conversion *)

Lemma rev_udec_step v : 10 <= v -> rev (udec v) = digit (v mod 10) :: rev (udec (v / 10)).
Proof. intros. rewrite udec_step by done. by rewrite rev_app_distr. Qed.

Lemma ll_push_ok p b : zlen p < SDS_LLSTR_SIZE -> ll_push p b = Some (p ++ [b]).
Proof. intros. unfold ll_push. by ztrue (zlen p <? SDS_LLSTR_SIZE). Qed.

Lemma ll_digits_spec v : 0 <= v -> forall fuel p,
  zlen (udec v) <= Z.of_nat fuel -> zlen p + zlen (udec v) <= SDS_LLSTR_SIZE ->
  ll_digits fuel p v = Some (p ++ rev (udec v)).
Proof.
  revert v. apply (digits_ind (fun v => forall fuel p, zlen (udec v) <= Z.of_nat fuel ->
    zlen p + zlen (udec v) <= SDS_LLSTR_SIZE -> ll_digits fuel p v = Some (p ++ rev (udec v))));
    intros v Hv.
  - intros fuel p. rewrite udec_small by lia. change (zlen [digit v]) with 1. intros Hf Hp.
    destruct fuel as [|fuel]; [lia|]. simpl. rewrite ll_push_ok by lia. simpl.
    rewrite Z.div_small, Z.mod_small by lia. done.
  - intros IH fuel p. rewrite udec_step, zlen_app by lia.
    change (zlen [digit (v mod 10)]) with 1. intros Hf Hp.
    pose proof (zlen_nonneg (udec (v / 10))).
    destruct fuel as [|fuel]; [lia|]. simpl. rewrite ll_push_ok by lia. simpl.
    assert (1 <= v / 10) by (apply Z.div_le_lower_bound; lia). zfalse (v / 10 =? 0).
    rewrite IH; [|lia|rewrite zlen_app; change (zlen [digit (v mod 10)]) with 1; lia].
    by rewrite rev_app_distr, <- app_assoc.
Qed.

Lemma zlen_udec_bound v : 0 <= v -> forall n, 1 <= n -> v < 10 ^ n -> zlen (udec v) <= n.
Proof.
  revert v. apply (digits_ind (fun v => forall n, 1 <= n -> v < 10 ^ n -> zlen (udec v) <= n));
    intros v Hv.
  - intros n Hn _. rewrite udec_small by lia. zlia.
  - intros IH n Hn Hlt. rewrite udec_step, zlen_app by lia.
    assert (2 <= n).
    { destruct (Z.eq_dec n 1) as [->|]; [lia|lia]. }
    specialize (IH (n - 1) ltac:(lia)).
    change (zlen [digit (v mod 10)]) with 1.
    assert (zlen (udec (v / 10)) <= n - 1); [apply IH|lia].
    apply Z.div_lt_upper_bound; [lia|].
    rewrite <- Z.pow_succ_r by lia. by replace (Z.succ (n - 1)) with n by lia.
Qed.

Lemma rev_swap (pre m post : bytes) x y :
  zset (zset (pre ++ x :: m ++ y :: post) (zlen pre) y) (zlen pre + zlen m + 1) x
  = pre ++ y :: m ++ x :: post.
Proof.
  unfold zset, zlen. rewrite Nat2Z.id, insert_app_r_alt, Nat.sub_diag by lia. simpl.
  rewrite insert_app_r_alt by lia.
  replace (Z.to_nat _ - length pre)%nat with (S (length m)) by lia. simpl.
  rewrite insert_app_r_alt, Nat.sub_diag by lia. done.
Qed.

Lemma ll_reverse_spec m : forall fuel pre post,
  (length m < fuel)%nat ->
  ll_reverse fuel (pre ++ m ++ post) (zlen pre) (zlen pre + zlen m - 1)
  = Some (pre ++ rev m ++ post).
Proof.
  remember (length m) as k eqn:Hk. revert m Hk.
  induction (lt_wf k) as [k _ IH]. intros m -> fuel pre post Hf.
  destruct fuel as [|fuel]; [lia|]. cbn [ll_reverse].
  destruct m as [|x m].
  { rewrite zlen_nil. zfalse (zlen pre <? zlen pre + 0 - 1). done. }
  destruct m as [|y m _] using rev_ind.
  { rewrite zlen_cons, zlen_nil. zfalse (zlen pre <? zlen pre + (1 + 0) - 1). done. }
  rewrite zlen_cons, zlen_app, zlen_cons, zlen_nil. pose proof (zlen_nonneg m).
  ztrue (zlen pre <? zlen pre + (1 + (zlen m + (1 + 0))) - 1). simpl app.
  rewrite <- app_assoc. simpl app. rewrite zget_mid. simpl.
  replace (zlen pre + (1 + (zlen m + (1 + 0))) - 1) with (zlen pre + zlen m + 1) by lia.
  assert (zget (pre ++ x :: m ++ y :: post) (zlen pre + zlen m + 1) = Some y) as ->.
  { replace (pre ++ x :: m ++ y :: post) with ((pre ++ x :: m) ++ y :: post)
      by (by rewrite <- app_assoc).
    replace (zlen pre + zlen m + 1) with (zlen (pre ++ x :: m)) by zlia. apply zget_mid. }
  simpl. rewrite rev_swap.
  specialize (IH (length m) ltac:(simpl; rewrite length_app; simpl; lia) m eq_refl fuel
    (pre ++ [y]) (x :: post)).
  rewrite !zlen_app, <- !app_assoc in IH. simpl in IH.
  change (zlen [y]) with 1 in IH.
  replace (zlen pre + zlen m + 1 - 1) with (zlen pre + 1 + zlen m - 1) by lia.
  rewrite IH by (simpl in Hf; rewrite length_app in Hf; simpl in Hf; lia).
  rewrite rev_app_distr. simpl. by rewrite <- app_assoc.
Qed.

Lemma ll_finish_spec p : zlen p < SDS_LLSTR_SIZE -> ll_finish p = Some (rev p).
Proof.
  intros Hp. unfold ll_finish. rewrite ll_push_ok by done. simpl.
  pose proof (ll_reverse_spec p (length p + 1) [] [] ltac:(lia)) as H.
  rewrite zlen_nil, app_nil_r, app_nil_r in H. exact H.
Qed.

(** [sdsull2str] is [%llu]. *)
Lemma sdsull2str_spec v : 0 <= v <= ULLONG_MAX -> sdsull2str v = Some (udec v).
Proof.
  intros Hv. pose proof (zlen_udec_bound v ltac:(lia) 20 ltac:(lia) ltac:(width_lia)).
  unfold sdsull2str. rewrite (ll_digits_spec v) by (unfold SDS_LLSTR_SIZE, LL_FUEL in *; zlia).
  simpl. rewrite ll_finish_spec; [by rewrite rev_involutive|].
  unfold zlen, SDS_LLSTR_SIZE in *. rewrite length_rev. lia.
Qed.

Lemma zlen_dec_bound v : LLONG_MIN <= v <= LLONG_MAX -> zlen (dec v) <= 20.
Proof.
  intros Hv. unfold dec. destruct (Z.ltb_spec v 0).
  - rewrite zlen_cons.
    pose proof (zlen_udec_bound (- v) ltac:(lia) 19 ltac:(lia) ltac:(width_lia)). lia.
  - pose proof (zlen_udec_bound v ltac:(lia) 20 ltac:(lia) ltac:(width_lia)). lia.
Qed.

(** [sdsll2str] is [%lld] on the whole range, [LLONG_MIN] included, and stays
    within its 21 bytes. *)
Lemma sdsll2str_dec v : LLONG_MIN <= v <= LLONG_MAX -> sdsll2str v = Some (dec v).
Proof.
  intros Hv. unfold sdsll2str, dec. destruct (Z.ltb_spec v 0) as [Hneg|Hpos].
  - assert (u64 (s64 (- v)) = - v) as ->.
    { destruct (Z.eq_dec v LLONG_MIN) as [->|]; [reflexivity|]. by unwrap. }
    pose proof (zlen_udec_bound (- v) ltac:(lia) 19 ltac:(lia) ltac:(width_lia)).
    rewrite ll_digits_spec by (unfold SDS_LLSTR_SIZE, LL_FUEL in *; zlia). simpl.
    assert (zlen (rev (udec (- v))) = zlen (udec (- v))) as Hl
      by (unfold zlen; by rewrite length_rev).
    rewrite ll_push_ok by (unfold SDS_LLSTR_SIZE in *; lia). simpl.
    rewrite ll_finish_spec; [|unfold SDS_LLSTR_SIZE in *; zlia].
    by rewrite rev_app_distr, rev_involutive.
  - rewrite u64_small by width_lia. pose proof (sdsull2str_spec v ltac:(width_lia)) as H.
    exact H.
Qed.

(** ** Lemmas: open strings *)

Lemma open_len s v : sds_open s v -> sdslen s = zlen v.
Proof. intros (t & c & junk & -> & Ht & Hc). by apply sdslen_of. Qed.

Lemma repr_open s v : sds_repr s v -> sds_open s v.
Proof. intros (t & junk & -> & Ht & Hc). by apply sds_of_open. Qed.

Lemma fmt_put_open s v src :
  sds_open s v -> zlen src <= sdsavail s ->
  exists s', fmt_put s (zlen v) src = Some s' /\ sds_open s' (v ++ src).
Proof.
  intros (t & c & junk & -> & Ht & Hc) Hav.
  apply avail_junk_of in Hav; [|done..].
  destruct (cells_split (c :: junk) (zlen src)) as (m1 & c' & m2 & E & Hm); [zlia|].
  pose proof (f_equal zlen E) as El. autorewrite with zlen in El.
  unfold fmt_put, sds_of. rewrite E.
  rewrite (sdsput_at _ _ _ _ m1 (c' :: m2) (Some <$> src));
    [|by rewrite zlen_fmap|apply length_zlen; rewrite zlen_fmap; lia]. simpl.
  rewrite sdsinclen_hdr by zlia.
  replace (zlen v + zlen junk) with (zlen (v ++ src) + zlen m2) by zlia.
  rewrite <- zlen_app, app_assoc, <- fmap_app.
  eexists. split; [done|]. apply sds_of_open; [done|zlia].
Qed.

Lemma open_close s v :
  sds_open s v -> exists s', sdsput s (zlen v) [Some NUL] = Some s' /\ sds_repr s' v.
Proof.
  intros (t & c & junk & -> & Ht & Hc). unfold sds_of.
  rewrite sds_terminate by done. eexists. split; [done|]. by apply sds_of_repr.
Qed.

Lemma va_int_inv conv ap r :
  va_int conv ap = Some r -> exists z ap', ap = VaInt z :: ap' /\ r = (conv z, ap').
Proof. destruct ap as [|[] ap']; simpl; naive_solver. Qed.

Section catfmt.
Context {al : Allocator}.

Lemma fmt_room_spec s v l a :
  sds_open s v -> 0 <= l -> zlen v + l <= BUF_SAFE ->
  returns (fmt_room s l a) (grow_post al (fun s' => sds_open s' v /\ l <= sdsavail s')).
Proof.
  intros Ho Hl Hb. unfold fmt_room. destruct (Z.ltb_spec (sdsavail s) l).
  - eapply returns_mono; [by apply sdsMakeRoomFor_open|].
    intros g. apply grow_post_mono. tauto.
  - by apply returns_ok.
Qed.

(** One conversion: make room, copy, go on. *)
Lemma fmt_conv_spec s v src k w a :
  sds_open s v -> zlen v + zlen src <= INT_MAX ->
  (forall s a, sds_open s (v ++ src) ->
     returns (k s (zlen (v ++ src)) a) (grow_post al (fun s' => sds_repr s' w))) ->
  returns (fmt_room s (zlen src) a ≫= grown (fun s a =>
             s ← fmt_put s (zlen v) src; k s (s32 (zlen v + zlen src)) a))
    (grow_post al (fun s' => sds_repr s' w)).
Proof.
  intros Ho Hb Hk. pose proof (zlen_nonneg v). pose proof (zlen_nonneg src).
  eapply returns_grown; [apply fmt_room_spec; [done|lia|unfold BUF_SAFE; width_lia]|].
  intros s1 a1 [Ho1 Hav]. destruct (fmt_put_open s1 v src Ho1 Hav) as (s2 & -> & Ho2). simpl.
  rewrite s32_small by width_lia. rewrite <- zlen_app. by apply Hk.
Qed.

Lemma catfmt_loop_spec f : forall ap s v w a,
  sds_open s v -> fmt_text f ap = Some w -> zlen v + zlen w <= INT_MAX ->
  returns (catfmt_loop f ap s (zlen v) a) (grow_post al (fun s' => sds_repr s' (v ++ w))).
Proof.
  remember (length f) as k eqn:Hk. revert f Hk.
  induction (lt_wf k) as [k _ IH]. intros f -> ap s v w a Ho Hw Hb.
  destruct f as [|c f1]; cbn [catfmt_loop fmt_text] in *.
  { inv_opt. destruct (open_close s v Ho) as (s' & -> & Hr). simpl.
    rewrite app_nil_r. by apply returns_ok. }
  pose proof (zlen_nonneg v). pose proof (zlen_nonneg w).
  eapply (returns_grown al _ (fun s' => sds_open s' v /\ 1 <= sdsavail s')).
  { destruct (Z.eqb_spec (sdsavail s) 0).
    - eapply returns_mono; [apply sdsMakeRoomFor_open; [done|lia|unfold BUF_SAFE; width_lia]|].
      intros g. apply grow_post_mono. tauto.
    - apply returns_ok. split; [done|].
      destruct Ho as (t & c' & junk & -> & Ht & Hc). rewrite sdsavail_of in * by done.
      destruct (t =? SDS_TYPE_5); zlia. }
  clear s a Ho. intros s a [Ho Hav].
  assert (forall f2 ap2 src w2, (length f2 < length (c :: f1))%nat ->
    fmt_text f2 ap2 = Some w2 -> w = src ++ w2 -> forall s a, sds_open s (v ++ src) ->
    returns (catfmt_loop f2 ap2 s (zlen (v ++ src)) a)
      (grow_post al (fun s' => sds_repr s' (v ++ w)))) as Hstep.
  { intros f2 ap2 src w2 Hlt Hw2 -> s' a' Ho'. rewrite app_assoc.
    eapply IH; [exact Hlt|done|done|done|]. zlia. }
  assert (forall b f2 ap2 w2, (length f2 < length (c :: f1))%nat ->
    fmt_text f2 ap2 = Some w2 -> w = b :: w2 ->
    returns (s ← fmt_put s (zlen v) [b]; catfmt_loop f2 ap2 s (s32 (zlen v + 1)) a)
      (grow_post al (fun s' => sds_repr s' (v ++ w)))) as Hchar.
  { intros b f2 ap2 w2 Hlt Hw2 ->. destruct (fmt_put_open s v [b] Ho) as (s2 & -> & Ho2);
      [zlia|]. simpl. rewrite s32_small by zlia.
    replace (zlen v + 1) with (zlen (v ++ [b])) by zlia.
    by eapply (Hstep f2 ap2 [b]). }
  case_bool_decide as Hc; [|inv_opt; by eapply Hchar; [simpl; lia| |]].
  destruct f1 as [|next f2]; [done|].
  assert (length f2 < length (c :: next :: f2))%nat as Hlt by (simpl; lia).
  clear Hc.
  repeat case_bool_decide; simplify_eq; simpl; inv_opt;
    repeat match goal with
    | H : va_ptr _ = Some _ |- _ => rewrite H
    | H : va_int _ _ = Some _ |- _ => rewrite H
    end; simpl.
  all: try (by eapply Hchar).
  all: try (by apply fmt_conv_spec; [done|zlia|intros; by eapply Hstep]).
  all: match goal with
       | H : va_int _ _ = Some _ |- _ =>
           apply va_int_inv in H as (z & ap' & -> & ->); simpl in *
       end.
  1,2: rewrite sdsll2str_dec by (pose proof (sw_range 32 z); pose proof (sw_range 64 z); width_lia).
  3,4: rewrite sdsull2str_spec by (pose proof (uw_range 32 z); pose proof (uw_range 64 z); width_lia).
  all: simpl; apply fmt_conv_spec; [done|zlia|intros; by eapply Hstep].
Qed.

Theorem sdscatfmt_spec s v fmt ap w a :
  sds_repr s v -> fmt_text (cstr fmt) ap = Some w -> zlen v + zlen w <= INT_MAX ->
  returns (sdscatfmt s fmt ap a) (grow_post al (fun s' => sds_repr s' (v ++ w))).
Proof.
  intros Hr Hw Hb. unfold sdscatfmt. pose proof (zlen_nonneg v). pose proof (zlen_nonneg w).
  rewrite (repr_len s v Hr), s32_small by width_lia.
  apply catfmt_loop_spec; [by apply repr_open|done|done].
Qed.

End catfmt.

Section vprintf.
Context {al : Allocator}.

Lemma sdscat_spec s v t a :
  sds_repr s v -> zlen v + strlen t <= BUF_SAFE ->
  returns (sdscat s t a) (grow_post al (fun s' => sds_repr s' (v ++ cstr t))).
Proof.
  intros Hr Hb. unfold sdscat, strlen in *.
  assert (exists u, t = cstr t ++ u) as [u Hu].
  { clear -t. induction t as [|b t IH]; simpl; [by exists []|].
    case_bool_decide; [by exists (b :: t)|]. destruct IH as [u Hu]. exists u. simpl. congruence. }
  pose proof (f_equal zlen Hu) as Hl. rewrite zlen_app in Hl. pose proof (zlen_nonneg u).
  eapply returns_mono; [apply (sdscatlen_spec s v t); [done|split; [zlia|lia]|done]|].
  intros g. apply grow_post_mono. intros s'.
  assert (forall w, t = w ++ u -> ztake (zlen w) t = w) as Hw by (intros w ->; apply ztake_app_len).
  by rewrite (Hw _ Hu).
Qed.

Lemma sdscat_no_nul s v t a :
  sds_repr s v -> NUL ∉ t -> zlen v + zlen t <= BUF_SAFE ->
  returns (sdscat s t a) (grow_post al (fun s' => sds_repr s' (v ++ t))).
Proof.
  intros Hr Hn Hb. pose proof (sdscat_spec s v t a Hr) as H.
  unfold strlen in H. rewrite (cstr_id t Hn) in H. by apply H.
Qed.

(** The doubling loop ends within its fuel and loses no byte. *)
Lemma vprintf_loop_spec s v out : forall fuel buflen a,
  sds_repr s v -> NUL ∉ out -> zlen v + zlen out <= INT_MAX -> 2 <= buflen ->
  zlen out + 2 <= buflen * 2 ^ Z.of_nat fuel ->
  returns (vprintf_loop (S fuel) s out buflen a)
    (grow_post al (fun s' => sds_repr s' (v ++ out))).
Proof.
  induction fuel as [|fuel IH]; intros buflen a Hr Hn Hb Hbl Hf;
    remember (S _) as k eqn:Hk; destruct k as [|k]; try done; injection Hk as ->;
    cbn [vprintf_loop]; pose proof (zlen_nonneg v); pose proof (zlen_nonneg out).
  all: assert (zlen out + 1 < buflen -> returns (sdscat s (ztake (buflen - 1) out) a)
         (grow_post al (fun s' => sds_repr s' (v ++ out)))) as Hlast.
  1,3: intros Hlt; rewrite ztake_all by lia;
       apply sdscat_no_nul; [done|done|unfold BUF_SAFE; width_lia].
  all: destruct (zget out (buflen - 2)) as [b|] eqn:E.
  1: apply zget_Some in E; lia.
  1: apply Hlast; lia.
  2: { apply Hlast. destruct (Z.lt_ge_cases (buflen - 2) (zlen out)) as [Hlt|]; [|lia].
       destruct (zget_is_Some out (buflen - 2)) as [? ?]; [lia|congruence]. }
  assert (b <> NUL) as Hb0.
  { intros ->. apply Hn. unfold zget in E. destruct (_ <=? _); [|done].
    by eapply list_elem_of_lookup_2. }
  apply zget_Some in E. rewrite bool_decide_false by done. ztrue (buflen - 1 <=? zlen out).
  simpl. rewrite u64_small by width_lia. unfold malloc.
  destruct (alloc_ok a (buflen * 2)) eqn:Hok; simpl.
  - apply IH; try done; [lia|]. rewrite Nat2Z.inj_succ, Z.pow_succ_r in Hf by lia. lia.
  - exists (GNull false), (S a). split; [done|]. intros Htot. by rewrite Htot in Hok.
Qed.

Theorem sdscatvprintf_spec s v fmt out a :
  sds_repr s v -> NUL ∉ out -> zlen v + zlen out <= INT_MAX -> strlen fmt <= INT_MAX ->
  returns (sdscatvprintf s fmt out a) (grow_post al (fun s' => sds_repr s' (v ++ out))).
Proof.
  intros Hr Hn Hb Hf. unfold sdscatvprintf, malloc.
  pose proof (zlen_nonneg (cstr fmt)). pose proof (zlen_nonneg v). unfold strlen in *.
  rewrite u64_small by width_lia.
  assert (forall n a, 1024 <= n -> returns (vprintf_loop 64 s out n a)
    (grow_post al (fun s' => sds_repr s' (v ++ out)))) as Hl.
  { intros n a' Hn'. apply vprintf_loop_spec; try done; [lia|].
    change (2 ^ Z.of_nat 63) with 9223372036854775808. width_lia. }
  destruct (Z.ltb_spec 1024 (zlen (cstr fmt) * 2)); [|by apply Hl].
  destruct (alloc_ok a _) eqn:Hok; [by apply Hl; lia|].
  exists (GNull false), (S a). split; [done|]. intros Htot. by rewrite Htot in Hok.
Qed.

(** [sdsfromlonglong] builds the decimal text of its argument. *)
Lemma sdsfromlonglong_spec v a :
  LLONG_MIN <= v <= LLONG_MAX ->
  returns (sdsfromlonglong v a) (opt_post al (fun s => sds_repr s (dec v))).
Proof.
  intros Hv. unfold sdsfromlonglong. rewrite sdsll2str_dec by done. simpl.
  pose proof (zlen_dec_bound v Hv). pose proof (zlen_nonneg (dec v)).
  eapply returns_mono; [apply sdsnewlen_repr|].
  - unfold BUF_SAFE. width_lia.
  - intros q [= <-]. lia.
  - intros o. simpl. by rewrite (ztake_all (zlen (dec v))) by lia.
Qed.

End vprintf.
