(* ===== verification/SdsEdit.v ===== *)
(** * Editing, comparing, splitting and joining dynamic strings (sds.c)

    [sdstrim], [sdsrange], [sdstolower], [sdstoupper], [sdscmp],
    [sdssplitlen], [sdsmapchars], [sdsjoin] and [sdsjoinsds], each against a
    function on byte lists, and the instance of the buffer interface. *)

From Stdlib Require Import Strings.Byte.
From S2P Require Import Prelude CLib Buffer Sds.

(** ** In-place edits *)

(** [strchr(cset, b) != NULL]: the search includes the terminator. *)
Definition in_cset (cset : bytes) (b : byte) : bool :=
  bool_decide (b = NUL) || bool_decide (b ∈ cstr cset).

(** [while(sp <= end && strchr(cset, *sp)) sp++;] *)
Fixpoint trim_left (fuel : nat) (s : sds) (cset : bytes) (sp last : Z) : option Z :=
  match fuel with
  | O => None
  | S f => if sp <=? last then
             b ← sdsget s sp;
             if in_cset cset b then trim_left f s cset (sp + 1) last else Some sp
           else Some sp
  end.

(** [while(ep > sp && strchr(cset, *ep)) ep--;] *)
Fixpoint trim_right (fuel : nat) (s : sds) (cset : bytes) (sp ep : Z) : option Z :=
  match fuel with
  | O => None
  | S f => if sp <? ep then
             b ← sdsget s ep;
             if in_cset cset b then trim_right f s cset sp (ep - 1) else Some ep
           else Some ep
  end.

(** [memmove(s, s+off, n)] *)
Definition sdsmove (s : sds) (off n : Z) : option sds :=
  cells ← zread (s_buf s) off n; sdsput s 0 cells.

Definition sdstrim (s : sds) (cset : bytes) : option sds :=
  let len := sdslen s in
  let fuel := S (Z.to_nat len) in
  let last := len - 1 in
  sp ← trim_left fuel s cset 0 last;
  ep ← trim_right fuel s cset sp last;
  let len := if ep <? sp then 0 else ep - sp + 1 in
  s ← (if sp =? 0 then Some s else sdsmove s sp len);
  s ← sdsput s len [Some NUL];
  Some (sdssetlen s len).

(** [(start > end) ? 0 : (end-start)+1]: computed in [int], stored in a [size_t]. *)
Definition range_len (start last : Z) : Z :=
  if last <? start then 0 else u64 (s32 (last - start + 1)).

Definition sdsrange (s : sds) (start last : Z) : option sds :=
  let len := sdslen s in
  if len =? 0 then Some s else
  let start := if start <? 0 then
                 let start := s32 (u64 (len + start)) in
                 if start <? 0 then 0 else start
               else start in
  let last := if last <? 0 then
                let last := s32 (u64 (len + last)) in
                if last <? 0 then 0 else last
              else last in
  let newlen := range_len start last in
  let '(start, newlen) :=
    if negb (newlen =? 0) then
      if s32 len <=? start then (start, 0)
      else if s32 len <=? last then
        let last := s32 (u64 (len - 1)) in (start, range_len start last)
      else (start, newlen)
    else (0, newlen) in
  s ← (if negb (start =? 0) && negb (newlen =? 0) then sdsmove s start newlen else Some s);
  s ← sdsput s newlen [Some NUL];
  Some (sdssetlen s newlen).

(** [for (j = 0; j < len; j++) s[j] = f(s[j]);] *)
Fixpoint sds_each (f : byte -> option byte) (n : nat) (j : Z) (s : sds) : option sds :=
  match n with
  | O => Some s
  | S n' => b ← sdsget s j; b' ← f b; s ← sdsput s j [Some b']; sds_each f n' (j + 1) s
  end.

Definition sdstolower (s : sds) : option sds :=
  sds_each (fun b => Some (tolower b)) (Z.to_nat (s32 (sdslen s))) 0 s.

Definition sdstoupper (s : sds) : option sds :=
  sds_each (fun b => Some (toupper b)) (Z.to_nat (s32 (sdslen s))) 0 s.

(** [for (i = 0; i < setlen; i++) if (b == from[i]) { b = to[i]; break; }] *)
Fixpoint mapchar (from to : bytes) (n : nat) (i : Z) (b : byte) : option byte :=
  match n with
  | O => Some b
  | S n' => x ← zget from i;
            if bool_decide (b = x) then zget to i else mapchar from to n' (i + 1) b
  end.

Definition sdsmapchars (s : sds) (from to : bytes) (setlen : Z) : option sds :=
  sds_each (mapchar from to (Z.to_nat setlen) 0) (Z.to_nat (sdslen s)) 0 s.

(** ** Comparison *)

Definition sdscmp (s1 s2 : sds) : option Z :=
  let l1 := sdslen s1 in
  let l2 := sdslen s2 in
  let minlen := if l1 <? l2 then l1 else l2 in
  a ← sdsbytes s1 minlen;
  b ← sdsbytes s2 minlen;
  let cmp := memcmp a b in
  Some (if cmp =? 0 then s32 (u64 (l1 - l2)) else cmp).

Section ops.
Context {al : Allocator}.

(** ** Splitting and joining *)

(** The test for the separator at [s+j]. *)
Definition sep_at (s sep : bytes) (seplen j : Z) : option bool :=
  eq1 ← (if seplen =? 1 then x ← zget s j; y ← zget sep 0; Some (bool_decide (x = y))
         else Some false);
  if (eq1 : bool) then Some true
  else m ← zread s j seplen; p ← zread sep 0 seplen; Some (memcmp m p =? 0).

(** The [for] loop; the result is the tokens and [start], or [None] when an
    allocation failed and the tokens were released. *)
Fixpoint split_loop (fuel : nat) (s : bytes) (len : Z) (sep : bytes) (seplen : Z)
    (tokens : list sds) (slots start j : Z) (a : nat) : option (option (list sds * Z) * nat) :=
  match fuel with
  | O => None
  | S f =>
      if j <? len - (seplen - 1) then
        let '(ok, slots, a) :=
          if slots <? zlen tokens + 2 then
            let '(ok, a) := malloc a (8 * (slots * 2)) in (ok, slots * 2, a)
          else (true, slots, a) in
        if negb ok then Some (None, a) else
        hit ← sep_at s sep seplen j;
        if (hit : bool) then
          t ← sdsnewlen (Some (zdrop start s)) (j - start) a;
          match t with
          | (None, a) => Some (None, a)
          | (Some tok, a) =>
              split_loop f s len sep seplen (tokens ++ [tok]) slots
                (j + seplen) (j + seplen - 1 + 1) a
          end
        else split_loop f s len sep seplen tokens slots start (j + 1) a
      else Some (Some (tokens, start), a)
  end.

(** The tokens ([None] for [NULL]) and the value stored in [*count] ([None]
    when it is left alone). *)
Definition sdssplitlen (s : bytes) (len : Z) (sep : bytes) (seplen : Z) (a : nat) :
    option (option (list sds) * option Z * nat) :=
  if (seplen <? 1) || (len <? 0) then Some (None, None, a) else
  let '(ok, a) := malloc a (8 * 5) in
  if negb ok then Some (None, None, a) else
  if len =? 0 then Some (Some [], Some 0, a) else
  r ← split_loop (S (Z.to_nat len)) s len sep seplen [] 5 0 0 a;
  match r with
  | (None, a) => Some (None, Some 0, a)
  | (Some (tokens, start), a) =>
      t ← sdsnewlen (Some (zdrop start s)) (len - start) a;
      match t with
      | (None, a) => Some (None, Some 0, a)
      | (Some tok, a) => Some (Some (tokens ++ [tok]), Some (zlen tokens + 1), a)
      end
  end.

(** The callers that do not test for [NULL] before the next call use it as a
    string: a fault. *)
Definition must {B} (g : grow B * nat) : option (B * nat) :=
  match g with (GOk s, a) => Some (s, a) | (GNull _, _) => None end.

Definition must_opt {B} (g : option B * nat) : option (B * nat) :=
  match g with (Some s, a) => Some (s, a) | (None, _) => None end.

Fixpoint join_loop (argv : list bytes) (sep : bytes) (join : sds) (a : nat) :
    option (sds * nat) :=
  match argv with
  | [] => Some (join, a)
  | p :: argv' =>
      r ← sdscat join p a ≫= must;
      r ← (match argv' with [] => Some r | _ => sdscat r.1 sep r.2 ≫= must end);
      join_loop argv' sep r.1 r.2
  end.

Definition sdsjoin (argv : list bytes) (sep : bytes) (a : nat) : option (sds * nat) :=
  r ← sdsempty a ≫= must_opt;
  join_loop argv sep r.1 r.2.

Fixpoint joinsds_loop (argv : list sds) (sep : bytes) (seplen : Z) (join : sds) (a : nat) :
    option (sds * nat) :=
  match argv with
  | [] => Some (join, a)
  | p :: argv' =>
      r ← sdscatsds join p a ≫= must;
      r ← (match argv' with [] => Some r | _ => sdscatlen r.1 sep seplen r.2 ≫= must end);
      joinsds_loop argv' sep seplen r.1 r.2
  end.

Definition sdsjoinsds (argv : list sds) (sep : bytes) (seplen : Z) (a : nat) :
    option (sds * nat) :=
  r ← sdsempty a ≫= must_opt;
  joinsds_loop argv sep seplen r.1 r.2.

End ops.

(** ** Specifications on byte lists *)

Fixpoint drop_while (p : byte -> bool) (l : bytes) : bytes :=
  match l with
  | [] => []
  | b :: l' => if p b then drop_while p l' else l
  end.

(** [l] without its longest prefix and suffix of bytes in [p]. *)
Definition trim_bytes (p : byte -> bool) (l : bytes) : bytes :=
  rev (drop_while p (rev (drop_while p l))).

(** The inclusive interval [start..last], negative indices from the end. *)
Definition norm_index (len i : Z) : Z := if i <? 0 then Z.max 0 (len + i) else i.

Definition slice (l : bytes) (start last : Z) : bytes :=
  let st := norm_index (zlen l) start in
  let en := Z.min (norm_index (zlen l) last) (zlen l - 1) in
  if en <? st then [] else ztake (en - st + 1) (zdrop st l).

(** Scanning from the left; [cur] is the token being read. *)
Fixpoint split_bytes (fuel : nat) (sep cur l : bytes) : list bytes :=
  match fuel with
  | O => [cur ++ l]
  | S f =>
      if bool_decide (sep `prefix_of` l)
      then cur :: split_bytes f sep [] (drop (length sep) l)
      else match l with
           | [] => [cur]
           | b :: l' => split_bytes f sep (cur ++ [b]) l'
           end
  end.

Definition split_on (sep l : bytes) : list bytes := split_bytes (length l) sep [] l.

Fixpoint join_bytes (sep : bytes) (ls : list bytes) : bytes :=
  match ls with
  | [] => []
  | l :: ls' => match ls' with [] => l | _ => l ++ sep ++ join_bytes sep ls' end
  end.

(** Lexicographic order of byte strings, a proper prefix being smaller. *)
Fixpoint bytes_lt (a b : bytes) : Prop :=
  match a, b with
  | _, [] => False
  | [], _ :: _ => True
  | x :: a', y :: b' => bZ x < bZ y \/ (x = y /\ bytes_lt a' b')
  end.

(** Byte-wise substitution: the first index of [b] in [from]. *)
Definition subst_byte (from to : bytes) (b : byte) : byte :=
  match list_find (fun x => b = x) from with
  | Some (i, _) => default b (to !! i)
  | None => b
  end.

(** ** Lemmas: in-place edits *)

Lemma hdr_same_put t l a buf src tail :
  zlen src <= zlen buf -> buf = src ++ tail ->
  sdsput (hdr t l a buf) 0 src = Some (hdr t l a buf).
Proof.
  intros Hl E. rewrite (sdsput_front _ _ _ _ _ (zdrop (zlen src) buf)) by done.
  do 2 f_equal. by rewrite E, zdrop_app_len.
Qed.

Lemma sdsput_prefix_id s v n :
  sds_repr s v -> 0 <= n <= zlen v -> sdsput s 0 (Some <$> ztake n v) = Some s.
Proof.
  intros (t & junk & -> & Ht & Hc) Hn. unfold sds_of.
  rewrite (hdr_same_put _ _ _ _ _ ((Some <$> zdrop n v) ++ Some NUL :: junk)); [done|..].
  - rewrite zlen_fmap, zlen_ztake by lia. zlia.
  - by rewrite app_assoc, <- fmap_app, ztake_zdrop.
Qed.

Lemma zread_cells (v : bytes) (rest : list cell) off n :
  0 <= off -> 0 <= n -> off + n <= zlen v ->
  zread ((Some <$> v) ++ rest) off n = Some (Some <$> ztake n (zdrop off v)).
Proof.
  intros Ho Hn Hl.
  assert (zlen (ztake off v) = off) as E1 by (apply zlen_ztake; lia).
  assert (zlen (ztake n (zdrop off v)) = n) as E2.
  { apply zlen_ztake. rewrite zlen_zdrop; lia. }
  pose proof (zread_mid (Some <$> ztake off v) (Some <$> ztake n (zdrop off v))
                ((Some <$> zdrop n (zdrop off v)) ++ rest)) as H.
  rewrite !zlen_fmap, E1, E2 in H. rewrite <- H. f_equal.
  rewrite !app_assoc, <- !fmap_app. do 2 f_equal.
  by rewrite <- app_assoc, ztake_zdrop, ztake_zdrop.
Qed.

(** Keeping [n] bytes from [off]: the common end of [sdstrim] and [sdsrange]. *)
Lemma sds_keep s v (move : bool) off n :
  sds_repr s v -> 0 <= off -> 0 <= n -> off + n <= zlen v ->
  (move = false -> off = 0 \/ n = 0) ->
  exists s', (s1 ← (if move then sdsmove s off n else Some s);
              s2 ← sdsput s1 n [Some NUL];
              Some (sdssetlen s2 n)) = Some s' /\ sds_repr s' (ztake n (zdrop off v)).
Proof.
  intros Hr Ho Hn Hl Hm.
  assert ((if move then sdsmove s off n else Some s)
          = sdsput s 0 (Some <$> ztake n (zdrop off v))) as ->.
  { destruct move.
    - unfold sdsmove. destruct Hr as (t & junk & -> & Ht & Hc).
      by rewrite sbuf_of, zread_cells by done.
    - destruct (Hm eq_refl) as [-> | ->].
      + rewrite zdrop_0, (sdsput_prefix_id s v) by (done || lia). done.
      + rewrite ztake_0, <- (ztake_0 v), (sdsput_prefix_id s v) by (done || lia). done. }
  pose proof (zlen_ztake n (zdrop off v)) as Hz. rewrite zlen_zdrop in Hz by lia.
  destruct Hr as (t & junk & -> & Ht & Hc).
  destruct (sds_overwrite t v junk (ztake n (zdrop off v))) as (s' & E & Hr'); try done.
  { rewrite Hz by lia. zlia. }
  rewrite Hz in E by lia. by exists s'.
Qed.

(** ** [sdsrange] *)

Theorem sdsrange_spec s v start last :
  sds_repr s v -> zlen v <= INT_MAX ->
  - INT_MAX - 1 <= start <= INT_MAX -> - INT_MAX - 1 <= last <= INT_MAX ->
  exists s', sdsrange s start last = Some s' /\ sds_repr s' (slice v start last).
Proof.
  intros Hr Hv Hs Hl. unfold sdsrange. rewrite (repr_len s v Hr). cbv zeta.
  pose proof (zlen_nonneg v).
  destruct (Z.eqb_spec (zlen v) 0) as [E0|E0].
  { apply zlen_0_nil in E0 as ->. exists s. split; [done|].
    unfold slice, ztake, zdrop. rewrite drop_nil, take_nil. by destruct (_ <? _). }
  assert (forall i, - INT_MAX - 1 <= i <= INT_MAX ->
    (if i <? 0 then if s32 (u64 (zlen v + i)) <? 0 then 0 else s32 (u64 (zlen v + i)) else i)
    = norm_index (zlen v) i) as Hnorm.
  { intros i Hi. unfold norm_index. destruct (Z.ltb_spec i 0); [|done].
    assert (s32 (u64 (zlen v + i)) = zlen v + i) as ->; [|zcases; lia].
    destruct (Z.lt_ge_cases (zlen v + i) 0); [|by unwrap].
    unfold u64, uw. rewrite <- (Z.mod_add _ 1), Z.mod_small by (lia || width_lia).
    unfold sw. replace (zlen v + i + 1 * 2 ^ 64 + 2 ^ (32 - 1))
      with (zlen v + i + 2 ^ (32 - 1) + 4294967296 * 2 ^ 32) by lia.
    rewrite Z.mod_add, Z.mod_small by (lia || width_lia). lia. }
  rewrite (Hnorm start), (Hnorm last) by lia. clear Hnorm.
  unfold slice.
  set (st := norm_index (zlen v) start). set (en := norm_index (zlen v) last).
  assert (0 <= st <= INT_MAX /\ 0 <= en <= INT_MAX) as [Hst Hen].
  { unfold st, en, norm_index. zcases; width_lia. }
  clearbody st en. rewrite (s32_small (zlen v)) by width_lia.
  rewrite (u64_small (zlen v - 1)), (s32_small (zlen v - 1)) by width_lia.
  unfold range_len.
  assert (forall (b : bool) off n, 0 <= off -> 0 <= n -> off + n <= zlen v ->
    (b = false -> off = 0 \/ n = 0) -> exists s',
    (s0 ← (if b then sdsmove s off n else Some s);
     s1 ← sdsput s0 n [Some NUL]; Some (sdssetlen s1 n)) = Some s'
    /\ sds_repr s' (ztake n (zdrop off v))) as Hkeep
    by (intros; by apply sds_keep).
  assert (exists s', (s1 ← sdsput s 0 [Some NUL]; Some (sdssetlen s1 0)) = Some s'
    /\ sds_repr s' []) as Hempty.
  { destruct (Hkeep false 0 0) as (s' & E & Hr'); [lia..|by left|]. by exists s'. }
  destruct (Z.ltb_spec en st) as [Hlt|Hge]; simpl.
  { by ztrue (Z.min en (zlen v - 1) <? st). }
  assert (u64 (s32 (en - st + 1)) <> 0) as Hnz.
  { destruct (Z.eq_dec (en - st + 1) 2147483648) as [->|]; [done|].
    rewrite s32_small, u64_small by width_lia. lia. }
  zfalse (u64 (s32 (en - st + 1)) =? 0). simpl.
  destruct (Z.leb_spec (zlen v) st) as [Hout|Hin]; simpl.
  { ztrue (Z.min en (zlen v - 1) <? st). by rewrite andb_false_r. }
  zfalse (Z.min en (zlen v - 1) <? st).
  destruct (Z.leb_spec (zlen v) en) as [Hout|Hin2]; simpl.
  - zfalse (zlen v - 1 <? st). rewrite (s32_small (zlen v - 1 - st + 1)), u64_small by width_lia.
    replace (Z.min en (zlen v - 1)) with (zlen v - 1) by lia. apply Hkeep; lia.
  - replace (Z.min en (zlen v - 1)) with en by lia.
    rewrite s32_small, u64_small by width_lia. apply Hkeep; lia.
Qed.

(** Dropping a prefix, as the reader and the write path use it. *)
Corollary sdsrange_drop s v i :
  sds_repr s v -> zlen v <= INT_MAX -> 0 <= i <= INT_MAX ->
  exists s', sdsrange s i (-1) = Some s' /\ sds_repr s' (zdrop i v).
Proof.
  intros Hr Hv Hi.
  destruct (sdsrange_spec s v i (-1)) as (s' & E & Hr'); [done|done|width_lia..|].
  exists s'. split; [done|]. replace (zdrop i v) with (slice v i (-1)); [done|].
  pose proof (zlen_nonneg v). unfold slice, norm_index. zfalse (i <? 0). simpl.
  destruct (Z.eqb_spec (zlen v) 0) as [E0|E0].
  { apply zlen_0_nil in E0 as ->. unfold ztake, zdrop. rewrite drop_nil, take_nil.
    by destruct (_ <? _). }
  replace (Z.min (Z.max 0 (zlen v + -1)) (zlen v - 1)) with (zlen v - 1) by lia.
  destruct (Z.ltb_spec (zlen v - 1) i).
  - by rewrite zdrop_all by lia.
  - rewrite ztake_all; [done|]. rewrite zlen_zdrop; lia.
Qed.

(** ** [sdstrim] *)

Lemma drop_while_suffix p l : exists k, l = k ++ drop_while p l.
Proof.
  induction l as [|b l [k IH]]; [by exists []|]. simpl.
  destruct (p b); [|by exists []]. exists (b :: k). simpl. by rewrite <- IH.
Qed.

Lemma drop_while_head p l b k : drop_while p l = b :: k -> p b = false.
Proof.
  induction l as [|c l IH]; [done|]. simpl. destruct (p c) eqn:E; [done|].
  intros [= <- <-]. done.
Qed.

Lemma drop_while_snoc p l b : p b = false -> drop_while p (l ++ [b]) = drop_while p l ++ [b].
Proof.
  intros Hb. induction l as [|c l IH]; simpl; [by rewrite Hb|]. by destruct (p c).
Qed.

Lemma drop_while_prefix p l :
  exists k, l = k ++ drop_while p l /\ Forall (fun b => p b = true) k.
Proof.
  induction l as [|b l (k & E & Hk)]; simpl; [by exists []|].
  destruct (p b) eqn:Hb; [|by exists []].
  exists (b :: k). simpl. rewrite <- E. split; [done|]. by constructor.
Qed.

(** What trimming removes, and where it stops. *)
Lemma trim_bytes_split p l :
  exists pre post, l = pre ++ trim_bytes p l ++ post /\
    Forall (fun b => p b = true) pre /\ Forall (fun b => p b = true) post /\
    (forall b, head (trim_bytes p l) = Some b \/ last (trim_bytes p l) = Some b -> p b = false).
Proof.
  unfold trim_bytes. destruct (drop_while_prefix p l) as (pre & E1 & Hpre).
  set (m := drop_while p l) in *.
  destruct (drop_while_prefix p (rev m)) as (k & E2 & Hk).
  pose proof (f_equal (@rev byte) E2) as E3. rewrite rev_involutive, rev_app_distr in E3.
  exists pre, (rev k). rewrite <- E3. split; [done|]. split; [done|].
  split; [by apply Forall_rev|].
  intros b [Hb|Hb].
  - destruct (rev (drop_while p (rev m))) as [|c t] eqn:Et; [done|]. injection Hb as ->.
    rewrite <- app_comm_cons in E3. unfold m in E3. by apply (drop_while_head p l b (t ++ rev k)).
  - rewrite rev_alt in Hb. change (rev_append ?l []) with (reverse l) in Hb.
    rewrite last_reverse in Hb.
    destruct (drop_while p (rev m)) as [|c t] eqn:Et; [done|]. injection Hb as ->.
    by apply (drop_while_head p (rev m) b t).
Qed.

Lemma repr_get_mid s v pre b post :
  sds_repr s v -> v = pre ++ b :: post -> sdsget s (zlen pre) = Some b.
Proof.
  intros Hr ->. rewrite (repr_get _ _ _ Hr) by zlia. apply zget_mid.
Qed.

Lemma trim_left_spec s v cset rest : forall fuel pre,
  sds_repr s v -> v = pre ++ rest -> (length rest < fuel)%nat ->
  trim_left fuel s cset (zlen pre) (zlen v - 1)
  = Some (zlen v - zlen (drop_while (in_cset cset) rest)).
Proof.
  induction rest as [|b rest IH]; intros fuel pre Hr Hv Hf;
    (destruct fuel as [|fuel]; [simpl in Hf; lia|]); cbn [trim_left];
    pose proof (f_equal zlen Hv) as Hl; autorewrite with zlen in Hl.
  - zfalse (zlen pre <=? zlen v - 1). simpl. f_equal. zlia.
  - pose proof (zlen_nonneg rest). ztrue (zlen pre <=? zlen v - 1).
    rewrite (repr_get_mid s v pre b rest) by done. simpl.
    destruct (in_cset cset b) eqn:Hb.
    + replace (zlen pre + 1) with (zlen (pre ++ [b])) by zlia.
      apply IH; [done| by rewrite <- app_assoc|simpl in Hf; lia].
    + f_equal. zlia.
Qed.

Lemma trim_right_spec s v cset pre b m : forall fuel post,
  sds_repr s v -> v = pre ++ b :: m ++ post -> (length m < fuel)%nat ->
  trim_right fuel s cset (zlen pre) (zlen pre + zlen m)
  = Some (zlen pre + zlen (drop_while (in_cset cset) (rev m))).
Proof.
  induction m as [|x m IH] using rev_ind; intros fuel post Hr Hv Hf;
    (destruct fuel as [|fuel]; [rewrite ?length_app in Hf; simpl in Hf; lia|]);
    cbn [trim_right].
  - rewrite zlen_nil, Z.add_0_r, Z.ltb_irrefl. simpl. by rewrite zlen_nil, Z.add_0_r.
  - rewrite zlen_app. change (zlen [x]) with 1. pose proof (zlen_nonneg m).
    ztrue (zlen pre <? zlen pre + (zlen m + 1)).
    replace (zlen pre + (zlen m + 1)) with (zlen (pre ++ b :: m)) by zlia.
    rewrite (repr_get_mid s v (pre ++ b :: m) x post)
      by (done || (rewrite Hv, <- !app_assoc; done)). simpl.
    rewrite rev_app_distr. simpl. destruct (in_cset cset x).
    + replace (zlen (pre ++ b :: m) - 1) with (zlen pre + zlen m) by zlia.
      apply (IH _ (x :: post)); [done| |rewrite length_app in Hf; simpl in Hf; lia].
      rewrite Hv, <- !app_assoc. done.
    + f_equal. rewrite zlen_cons. unfold zlen. rewrite length_app, length_rev. simpl. lia.
Qed.

Theorem sdstrim_spec s v cset :
  sds_repr s v ->
  exists s', sdstrim s cset = Some s' /\ sds_repr s' (trim_bytes (in_cset cset) v).
Proof.
  intros Hr. unfold sdstrim, trim_bytes. rewrite (repr_len s v Hr). cbv zeta.
  set (p := in_cset cset).
  assert (Z.to_nat (zlen v) = length v) as Ef by (unfold zlen; lia). rewrite Ef.
  pose proof (trim_left_spec s v cset v (S (length v)) [] Hr eq_refl ltac:(lia)) as Hleft.
  rewrite zlen_nil in Hleft. rewrite Hleft. fold p. simpl.
  destruct (drop_while_suffix p v) as [pre Hpre].
  pose proof (f_equal zlen Hpre) as Hl. rewrite zlen_app in Hl.
  replace (zlen v - zlen (drop_while p v)) with (zlen pre) by lia.
  pose proof (zlen_nonneg pre) as Hpos.
  destruct (drop_while p v) as [|b m] eqn:E.
  - rewrite zlen_nil in Hl. zfalse (zlen pre <? zlen v - 1). simpl.
    ztrue (zlen v - 1 <? zlen pre).
    destruct (sds_keep s v (negb (zlen pre =? 0)) (zlen pre) 0) as (s' & Es & Hr');
      [done|lia..|by right|].
    exists s'. split; [|exact Hr']. rewrite <- Es. by destruct (zlen pre =? 0).
  - assert (p b = false) as Hb by (by eapply drop_while_head).
    rewrite zlen_cons in Hl. replace (zlen v - 1) with (zlen pre + zlen m) by lia.
    pose proof (trim_right_spec s v cset pre b m (S (length v)) [] Hr) as Hright.
    rewrite app_nil_r in Hright. unfold trim_right in Hright |- *. fold trim_right in *.
    rewrite Hright; [|done|apply (f_equal length) in Hpre; rewrite length_app in Hpre;
      simpl in Hpre; lia]. fold p. simpl.
    set (k := drop_while p (rev m)). pose proof (zlen_nonneg k).
    zfalse (zlen pre + zlen k <? zlen pre).
    replace (zlen pre + zlen k - zlen pre + 1) with (1 + zlen k) by lia.
    simpl. rewrite drop_while_snoc by done. fold k. rewrite rev_app_distr. simpl.
    destruct (drop_while_suffix p (rev m)) as [u Hu]. fold k in Hu.
    assert (m = rev k ++ rev u) as Hm
      by (rewrite <- rev_app_distr, <- Hu; by rewrite rev_involutive).
    assert (zlen (rev k) = zlen k) as Hk by (unfold zlen; by rewrite length_rev).
    pose proof (zlen_nonneg (rev u)).
    destruct (sds_keep s v (negb (zlen pre =? 0)) (zlen pre) (1 + zlen k)) as (s' & Es & Hr').
    { done. } { lia. } { lia. } { pose proof (f_equal zlen Hm). autorewrite with zlen in *. lia. }
    { intros Hz. left. lia. }
    exists s'. split; [rewrite <- Es; by destruct (zlen pre =? 0)|].
    rewrite Hpre, zdrop_app_len in Hr'.
    replace (ztake (1 + zlen k) (b :: m)) with (b :: rev k) in Hr'; [done|].
    rewrite Hm, <- Hk, <- zlen_cons with (x := b).
    change (b :: rev k ++ rev u) with ((b :: rev k) ++ rev u). by rewrite ztake_app_len.
Qed.

(** ** Byte-wise maps *)

(** Replacing one byte of the contents. *)
Lemma sdsput_byte s pre b post c :
  sds_repr s (pre ++ b :: post) ->
  exists s', sdsput s (zlen pre) [Some c] = Some s' /\ sds_repr s' (pre ++ c :: post).
Proof.
  intros (t & junk & -> & Ht & Hc). unfold sds_of.
  rewrite fmap_app, <- app_assoc, fmap_cons. simpl.
  eexists. split.
  { apply (sdsput_at _ _ _ _ [Some b] ((Some <$> post) ++ Some NUL :: junk));
      [by rewrite zlen_fmap|done]. } exists t, junk.
  autorewrite with zlen in *. split_and!; [|lia..].
  unfold sds_of. by rewrite !zlen_app, !zlen_cons, fmap_app, <- app_assoc.
Qed.

Lemma sds_each_spec (f : byte -> option byte) (g : byte -> byte) rest : forall pre s,
  (forall b, f b = Some (g b)) -> sds_repr s (pre ++ rest) ->
  exists s', sds_each f (length rest) (zlen pre) s = Some s' /\ sds_repr s' (pre ++ (g <$> rest)).
Proof.
  induction rest as [|b rest IH]; intros pre s Hf Hr; simpl; [by exists s|].
  rewrite (repr_get_mid s _ pre b rest Hr eq_refl). simpl. rewrite Hf. simpl.
  destruct (sdsput_byte s pre b rest (g b) Hr) as (s1 & -> & Hr1). simpl.
  replace (zlen pre + 1) with (zlen (pre ++ [g b])) by zlia.
  destruct (IH (pre ++ [g b]) s1 Hf) as (s2 & E & Hr2); [by rewrite <- app_assoc|].
  exists s2. split; [done|]. by rewrite <- app_assoc in Hr2.
Qed.

Lemma sds_each_all f g s v :
  (forall b, f b = Some (g b)) -> sds_repr s v ->
  exists s', sds_each f (length v) 0 s = Some s' /\ sds_repr s' (g <$> v).
Proof. intros Hf Hr. by apply (sds_each_spec f g v []). Qed.

Lemma s32_len s v : sds_repr s v -> zlen v <= INT_MAX ->
  Z.to_nat (s32 (sdslen s)) = length v.
Proof.
  intros Hr Hv. rewrite (repr_len s v Hr), s32_small by (pose proof (zlen_nonneg v); width_lia).
  unfold zlen. lia.
Qed.

Theorem sdstolower_spec s v :
  sds_repr s v -> zlen v <= INT_MAX ->
  exists s', sdstolower s = Some s' /\ sds_repr s' (tolower <$> v).
Proof.
  intros Hr Hv. unfold sdstolower. rewrite (s32_len s v) by done. by apply sds_each_all.
Qed.

Theorem sdstoupper_spec s v :
  sds_repr s v -> zlen v <= INT_MAX ->
  exists s', sdstoupper s = Some s' /\ sds_repr s' (toupper <$> v).
Proof.
  intros Hr Hv. unfold sdstoupper. rewrite (s32_len s v) by done. by apply sds_each_all.
Qed.

Lemma mapchar_spec to b from : forall pre_from pre_to,
  length pre_from = length pre_to -> (length from <= length to)%nat ->
  mapchar (pre_from ++ from) (pre_to ++ to) (length from) (zlen pre_from) b
  = Some (subst_byte from to b).
Proof.
  revert to. induction from as [|x from IH]; intros to pf pt Hl Hle; [done|].
  destruct to as [|y to]; [simpl in Hle; lia|]. cbn [mapchar length].
  rewrite zget_mid. simpl. unfold subst_byte. simpl.
  case_bool_decide as Hb.
  - rewrite decide_True by done. simpl.
    replace (zlen pf) with (zlen pt) by (unfold zlen; lia). apply zget_mid.
  - rewrite decide_False by done.
    specialize (IH to (pf ++ [x]) (pt ++ [y])).
    rewrite <- !app_assoc in IH. simpl in IH.
    replace (zlen pf + 1) with (zlen (pf ++ [x])) by zlia.
    rewrite IH; [|rewrite !length_app; simpl; lia|simpl in Hle; lia].
    unfold subst_byte. by destruct (list_find _ from) as [[i z]|].
Qed.

Theorem sdsmapchars_spec s v from to n :
  sds_repr s v -> zlen from = n -> zlen to = n ->
  exists s', sdsmapchars s from to n = Some s' /\ sds_repr s' (subst_byte from to <$> v).
Proof.
  intros Hr Hf Ht. unfold sdsmapchars. rewrite (repr_len s v Hr).
  replace (Z.to_nat (zlen v)) with (length v) by (unfold zlen; lia).
  replace (Z.to_nat n) with (length from) by (unfold zlen in *; lia).
  apply sds_each_all; [|done]. intros b.
  apply (mapchar_spec to b from [] []); [done|unfold zlen in *; lia].
Qed.

(** ** [sdscmp] *)

Lemma sdsbytes_prefix s v n :
  sds_repr s v -> 0 <= n <= zlen v -> sdsbytes s n = Some (ztake n v).
Proof.
  intros (t & junk & -> & Ht & Hc) Hn. unfold sdsbytes. rewrite sbuf_of.
  rewrite zread_cells by lia. rewrite zdrop_0. simpl. apply mapM_Some_fmap.
Qed.

(** The comparison of two byte strings [sdscmp] computes. *)
Definition cmp_bytes (a b : bytes) : Z :=
  let n := Z.min (zlen a) (zlen b) in
  let c := memcmp (ztake n a) (ztake n b) in
  if c =? 0 then zlen a - zlen b else c.

Lemma cmp_bytes_cons x a y b :
  cmp_bytes (x :: a) (y :: b) = if bZ x =? bZ y then cmp_bytes a b else bZ x - bZ y.
Proof.
  unfold cmp_bytes. rewrite !zlen_cons. pose proof (zlen_nonneg a). pose proof (zlen_nonneg b).
  replace (Z.min (1 + zlen a) (1 + zlen b)) with (1 + Z.min (zlen a) (zlen b)) by lia.
  unfold ztake. rewrite Z2Nat.inj_add by lia. simpl.
  destruct (Z.eqb_spec (bZ x) (bZ y)); zcases; lia.
Qed.

Lemma cmp_bytes_lt a b : cmp_bytes a b < 0 <-> bytes_lt a b.
Proof.
  revert b. induction a as [|x a IH]; intros [|y b].
  - done.
  - change (cmp_bytes [] (y :: b)) with (0 - zlen (y :: b)). simpl. zlia.
  - change (cmp_bytes (x :: a) []) with (zlen (x :: a) - 0). simpl. zlia.
  - rewrite cmp_bytes_cons. simpl. rewrite <- IH.
    destruct (Z.eqb_spec (bZ x) (bZ y)) as [E|E].
    + apply bZ_inj in E as ->. intuition lia.
    + split; [lia|]. intros [?|[-> _]]; [lia|done].
Qed.

Lemma cmp_bytes_eq a b : cmp_bytes a b = 0 <-> a = b.
Proof.
  revert b. induction a as [|x a IH]; intros [|y b].
  - done.
  - change (cmp_bytes [] (y :: b)) with (0 - zlen (y :: b)). split; [zlia|done].
  - change (cmp_bytes (x :: a) []) with (zlen (x :: a) - 0). split; [zlia|done].
  - rewrite cmp_bytes_cons.
    destruct (Z.eqb_spec (bZ x) (bZ y)) as [E|E].
    + apply bZ_inj in E as ->. rewrite IH. split; congruence.
    + split; [lia|]. intros [= -> ->]. done.
Qed.

Lemma sdscmp_bytes s1 s2 v1 v2 :
  sds_repr s1 v1 -> sds_repr s2 v2 -> zlen v1 <= INT_MAX -> zlen v2 <= INT_MAX ->
  sdscmp s1 s2 = Some (cmp_bytes v1 v2).
Proof.
  intros H1 H2 L1 L2. unfold sdscmp, cmp_bytes.
  rewrite (repr_len s1 v1 H1), (repr_len s2 v2 H2). cbv zeta.
  pose proof (zlen_nonneg v1). pose proof (zlen_nonneg v2).
  replace (if zlen v1 <? zlen v2 then zlen v1 else zlen v2) with (Z.min (zlen v1) (zlen v2))
    by (zcases; lia).
  rewrite (sdsbytes_prefix s1 v1), (sdsbytes_prefix s2 v2) by (done || lia). simpl.
  destruct (memcmp _ _ =? 0); [|done]. f_equal.
  destruct (Z.lt_ge_cases (zlen v1) (zlen v2)); [|by unwrap].
  unfold uw. rewrite <- (Z.mod_add _ 1), Z.mod_small by (lia || width_lia).
  unfold sw. replace (zlen v1 - zlen v2 + 1 * 2 ^ 64 + 2 ^ (32 - 1))
    with (zlen v1 - zlen v2 + 2 ^ (32 - 1) + 4294967296 * 2 ^ 32) by lia.
  rewrite Z.mod_add, Z.mod_small by (lia || width_lia). lia.
Qed.

(** The sign of [sdscmp] is lexicographic order. *)
Theorem sdscmp_spec s1 s2 v1 v2 :
  sds_repr s1 v1 -> sds_repr s2 v2 -> zlen v1 <= INT_MAX -> zlen v2 <= INT_MAX ->
  exists c, sdscmp s1 s2 = Some c /\ (c < 0 <-> bytes_lt v1 v2) /\ (c = 0 <-> v1 = v2).
Proof.
  intros. rewrite (sdscmp_bytes s1 s2 v1 v2) by done.
  eauto using cmp_bytes_lt, cmp_bytes_eq.
Qed.

(** ** Splitting and joining *)

Lemma split_bytes_nonnil f sep cur l : split_bytes f sep cur l <> [].
Proof.
  revert cur l. induction f as [|f IH]; intros cur l; simpl; [done|].
  case_bool_decide; [done|]. destruct l; [done|]. apply IH.
Qed.

Lemma join_cons sep l ls : ls <> [] -> join_bytes sep (l :: ls) = l ++ sep ++ join_bytes sep ls.
Proof. by destruct ls. Qed.

(** Joining the tokens gives the string back. *)
Lemma join_split_bytes f sep : forall cur l,
  join_bytes sep (split_bytes f sep cur l) = cur ++ l.
Proof.
  induction f as [|f IH]; intros cur l; simpl; [done|].
  case_bool_decide as Hp.
  - rewrite join_cons by apply split_bytes_nonnil. rewrite IH.
    destruct Hp as [k ->]. by rewrite drop_app_length.
  - destruct l as [|b l]; simpl; [by rewrite app_nil_r|].
    by rewrite IH, <- app_assoc.
Qed.

(** No token contains the separator. *)
Definition occurs (sep l : bytes) : Prop := exists pre post, l = pre ++ sep ++ post.

Lemma split_bytes_tokens f sep : forall cur l,
  sep <> [] -> (length l <= f)%nat ->
  (forall pre post, cur ++ l = pre ++ sep ++ post -> (length cur <= length pre)%nat) ->
  Forall (fun t => ~ occurs sep t) (split_bytes f sep cur l).
Proof.
  assert (forall cur l, sep <> [] ->
    (forall pre post, cur ++ l = pre ++ sep ++ post -> (length cur <= length pre)%nat) ->
    ~ occurs sep cur) as Hno.
  { intros cur l Hs Hc (pre & post & ->).
    specialize (Hc pre (post ++ l)). rewrite <- !app_assoc in Hc.
    specialize (Hc eq_refl). rewrite !length_app in Hc.
    destruct sep; [done|simpl in Hc; lia]. }
  induction f as [|f IH]; intros cur l Hs Hf Hc.
  - simpl. destruct l; [|simpl in Hf; lia]. rewrite app_nil_r in *.
    repeat constructor. apply (Hno cur []); [done|]. by rewrite app_nil_r.
  - cbn [split_bytes]. case_bool_decide as Hp.
    + constructor; [by eapply Hno|].
      apply IH; [done| |simpl; lia]. rewrite length_drop.
      destruct sep; [done|simpl; lia].
    + destruct l as [|b l]; [repeat constructor; by eapply Hno|].
      apply IH; [done|simpl in Hf; lia|].
      intros pre post E. rewrite <- app_assoc in E. pose proof (Hc _ _ E) as Hle.
      rewrite length_app. simpl. destruct (decide (length pre = length cur)) as [El|]; [|lia].
      apply app_inj_1 in E as [_ E]; [|done]. exfalso. apply Hp. by exists post.
Qed.

Section split_join.
Context {al : Allocator}.

Lemma ztake_zlen (l k : bytes) : ztake (zlen l) k = take (length l) k.
Proof. unfold ztake, zlen. by rewrite Nat2Z.id. Qed.

Lemma zdrop_split (s l : bytes) j :
  s = ztake j s ++ l -> 0 <= j <= zlen s -> zdrop j s = l.
Proof.
  intros E Hj. rewrite <- (ztake_zdrop j s) in E at 1. by apply app_inv_head in E.
Qed.

Lemma sep_at_spec s sep j l :
  s = ztake j s ++ l -> 0 <= j -> 1 <= zlen sep -> j + zlen sep <= zlen s ->
  sep_at s sep (zlen sep) j = Some (bool_decide (sep `prefix_of` l)).
Proof.
  intros Hs Hj Hsep Hlen. unfold sep_at.
  assert (zlen (ztake j s) = j) as Hz by (apply zlen_ztake; lia).
  pose proof (f_equal zlen Hs) as Hl. rewrite zlen_app, Hz in Hl.
  assert (zread s j (zlen sep) = Some (take (length sep) l)) as Hread.
  { unfold zread. ztrue (0 <=? j). ztrue (0 <=? zlen sep). ztrue (j + zlen sep <=? zlen s).
    simpl. f_equal. rewrite (ztake_zlen sep).
    by rewrite (zdrop_split s l) by (done || lia). }
  assert (zread sep 0 (zlen sep) = Some sep) as Hread2
    by (rewrite zread_prefix by lia; by rewrite ztake_all).
  assert (length (take (length sep) l) = length sep) as Hlt
    by (rewrite length_take; unfold zlen in *; lia).
  assert ((memcmp (take (length sep) l) sep =? 0) = bool_decide (sep `prefix_of` l)) as Hcmp.
  { destruct (Z.eqb_spec (memcmp (take (length sep) l) sep) 0) as [E|E];
      rewrite memcmp_eq in E by done.
    - rewrite bool_decide_true; [done|]. exists (drop (length sep) l).
      rewrite <- E at 1. by rewrite take_drop.
    - rewrite bool_decide_false; [done|]. intros [k ->]. by rewrite take_app_length in E. }
  rewrite Hread, Hread2. simpl. rewrite Hcmp.
  destruct (Z.eqb_spec (zlen sep) 1) as [E1|E1]; [|done].
  destruct sep as [|y [|? ?]]; [zlia| |zlia].
  destruct l as [|x l]; [unfold zlen in *; simpl in *; lia|].
  replace (zget s j) with (zget (zdrop j s) 0) by (rewrite zget_zdrop by lia; f_equal; lia).
  rewrite (zdrop_split s (x :: l)) by (done || lia). simpl.
  destruct (bool_decide_reflect (x = y)) as [->|]; [|done].
  rewrite bool_decide_true; [done|]. by exists l.
Qed.

Lemma split_bytes_short sep f : forall cur l,
  (length l < length sep)%nat -> split_bytes f sep cur l = [cur ++ l].
Proof.
  induction f as [|f IH]; intros cur l Hl; [done|]. cbn [split_bytes].
  rewrite bool_decide_false.
  2: { intros [k ->]. rewrite length_app in Hl. lia. }
  destruct l as [|b l]; [by rewrite app_nil_r|].
  rewrite IH by (simpl in Hl; lia). by rewrite <- app_assoc.
Qed.

Lemma zdrop_take_drop (s cur rest : bytes) start j :
  zdrop start s = cur ++ rest -> 0 <= start -> j = start + zlen cur -> zdrop j s = rest.
Proof.
  intros E Hs ->. pose proof (zlen_nonneg cur).
  rewrite Z.add_comm, <- zdrop_zdrop, E by lia. apply zdrop_app_len.
Qed.

Definition split_post (s : bytes) (strs want : list bytes) (r : list sds * Z) : Prop :=
  exists strs' last, Forall2 sds_repr r.1 (strs ++ strs') /\ want = strs' ++ [last]
    /\ zdrop r.2 s = last /\ 0 <= r.2 <= zlen s.

Lemma split_loop_spec s sep : forall fuel f tokens strs slots start j a cur rest,
  zlen s <= INT_MAX -> 1 <= zlen sep ->
  0 <= start -> start <= zlen s -> j = start + zlen cur -> zdrop start s = cur ++ rest ->
  (length rest < fuel)%nat -> (length rest <= f)%nat -> Forall2 sds_repr tokens strs ->
  returns (split_loop fuel s (zlen s) sep (zlen sep) tokens slots start j a)
    (opt_post al (split_post s strs (split_bytes f sep cur rest))).
Proof.
  induction fuel as [|fuel IH]; intros f tokens strs slots start j a cur rest
    Hs Hsep Hst Hst2 Hj Hdrop Hfuel Hf Htok; [lia|]. cbn [split_loop].
  pose proof (zdrop_take_drop s cur rest start j Hdrop Hst Hj) as Hrest.
  pose proof (zlen_nonneg cur). pose proof (zlen_nonneg rest).
  assert (zlen s = j + zlen rest) as Hlen.
  { pose proof (zlen_zdrop start s ltac:(lia)) as Hz. rewrite Hdrop, zlen_app in Hz. lia. }
  destruct (Z.ltb_spec j (zlen s - (zlen sep - 1))) as [Hin|Hout].
  2: { exists (Some (tokens, start)), a. split; [done|]. exists [], (cur ++ rest).
       rewrite app_nil_r, split_bytes_short by (unfold zlen in *; lia). done. }
  match goal with |- context [if slots <? ?e then ?x else ?y] =>
    destruct (if slots <? e then x else y) as [[ok slots'] a'] eqn:Halloc end.
  destruct ok; simpl.
  2: { exists None, a'. split; [done|]. intros Htot. unfold malloc in Halloc.
       destruct (slots <? _); [rewrite Htot in Halloc|]; congruence. }
  rewrite (sep_at_spec s sep j rest); [|rewrite <- Hrest; by rewrite ztake_zdrop|lia..].
  simpl. destruct f as [|f].
  { destruct rest; [unfold zlen in *; simpl in *; lia|simpl in Hf; lia]. }
  cbn [split_bytes]. case_bool_decide as Hp.
  - eapply returns_bind.
    { apply (sdsnewlen_repr (Some (zdrop start s)) (j - start) a').
      - unfold BUF_SAFE. width_lia.
      - intros q [= <-]. rewrite Hdrop, zlen_app. lia. }
    intros [tok|] a2 Htk; simpl in Htk; [|by exists None, a2].
    rewrite Hdrop in Htk. replace (j - start) with (zlen cur) in Htk by lia.
    rewrite ztake_app_len in Htk.
    destruct Hp as [k ->]. rewrite drop_app_length. rewrite length_app in Hfuel, Hf.
    replace (j + zlen sep - 1 + 1) with (j + zlen sep) by lia. rewrite zlen_app in Hlen.
    eapply returns_mono.
    { pose proof (zlen_nonneg k).
      apply (IH f (tokens ++ [tok]) (strs ++ [cur]) slots' (j + zlen sep) (j + zlen sep) a2 [] k).
      - done.
      - done.
      - lia.
      - lia.
      - rewrite zlen_nil. lia.
      - by rewrite (Z.add_comm j), <- zdrop_zdrop, Hrest, zdrop_app_len by lia.
      - unfold zlen in *. lia.
      - unfold zlen in *. lia.
      - apply Forall2_app; [done|]. by constructor. }
    intros [r|]; simpl; [|done]. intros (strs' & last & H1 & H2 & H3).
    exists (cur :: strs'), last. rewrite <- app_assoc in H1. simpl. by rewrite H2.
  - destruct rest as [|b rest]; [unfold zlen in *; simpl in *; lia|].
    apply IH; try done; [zlia|by rewrite <- app_assoc|simpl in *; lia..].
Qed.

(** The tokens [sdssplitlen] returns are those of the reference splitter. *)
Theorem sdssplitlen_spec s sep a :
  1 <= zlen sep -> zlen s <= INT_MAX -> s <> [] ->
  exists toks cnt a', sdssplitlen s (zlen s) sep (zlen sep) a = Some (toks, cnt, a') /\
    match toks with
    | Some toks => Forall2 sds_repr toks (split_on sep s) /\ cnt = Some (zlen toks)
    | None => ~ alloc_total al
    end.
Proof.
  intros Hsep Hs Hn. unfold sdssplitlen, malloc. pose proof (zlen_nonneg s).
  zfalse (zlen sep <? 1). zfalse (zlen s <? 0). cbn -[split_loop].
  destruct (alloc_ok a _) eqn:Hok; cbn -[split_loop].
  2: { exists None, None, (S a). split; [done|]. intros Htot. by rewrite Htot in Hok. }
  assert (zlen s <> 0) by (intros E; by apply zlen_0_nil in E). zfalse (zlen s =? 0).
  destruct (split_loop_spec s sep (S (Z.to_nat (zlen s))) (length s) [] [] 5 0 0 (S a) [] s)
    as (r & a' & -> & Hr); try done; try (unfold zlen in *; lia).
  cbn -[sdsnewlen]. destruct r as [[tokens start]|]; simpl in Hr.
  2: { by exists None, (Some 0), a'. }
  destruct Hr as (strs & last & H1 & H2 & H3 & H4). simpl in H1, H3, H4.
  destruct (sdsnewlen_repr (Some (zdrop start s)) (zlen s - start) a')
    as (tok & a2 & -> & Htok).
  { unfold BUF_SAFE. width_lia. }
  { intros q [= <-]. rewrite zlen_zdrop; lia. }
  simpl. destruct tok as [tok|]; simpl in Htok.
  2: { by exists None, (Some 0), a2. }
  exists (Some (tokens ++ [tok])), (Some (zlen tokens + 1)), a2. split; [done|].
  rewrite ztake_all in Htok by (rewrite zlen_zdrop; lia). split.
  - unfold split_on. rewrite H2. apply Forall2_app; [done|]. constructor; [|done]. by rewrite <- H3.
  - f_equal. zlia.
Qed.

Lemma returns_must {B} (m : option (grow B * nat)) P :
  alloc_total al -> returns m (grow_post al P) -> returns (m ≫= must) P.
Proof.
  intros Htot ([f|s] & a & -> & Hp); simpl in *; [done|]. by exists s, a.
Qed.

Lemma returns_must_opt {B} (m : option (option B * nat)) P :
  alloc_total al -> returns m (opt_post al P) -> returns (m ≫= must_opt) P.
Proof.
  intros Htot ([s|] & a & -> & Hp); simpl in *; [|done]. by exists s, a.
Qed.

Lemma join_loop_zlen sep l ls : zlen (join_bytes sep ls) <= zlen (join_bytes sep (l :: ls)).
Proof.
  pose proof (zlen_nonneg l). pose proof (zlen_nonneg sep).
  destruct ls as [|l' ls]; [simpl join_bytes; zlia|]. rewrite (join_cons sep l (l' :: ls)) by done.
  rewrite !zlen_app. lia.
Qed.

Lemma joinsds_loop_spec sep : alloc_total al -> forall argv vs join v a,
  Forall2 sds_repr argv vs -> sds_repr join v ->
  zlen v + zlen (join_bytes sep vs) <= BUF_SAFE ->
  returns (joinsds_loop argv sep (zlen sep) join a) (fun s => sds_repr s (v ++ join_bytes sep vs)).
Proof.
  intros Htot. induction argv as [|p argv IH]; intros vs join v a Hvs Hv Hb;
    inversion Hvs as [|? w ? vs' Hp Hvs']; subst; clear Hvs.
  { simpl. rewrite app_nil_r. by exists join, a. }
  cbn [joinsds_loop]. pose proof (join_loop_zlen sep w vs').
  pose proof (zlen_nonneg sep). pose proof (zlen_nonneg (join_bytes sep vs')).
  eapply returns_bind.
  { apply returns_must; [done|]. apply (sdscatsds_spec join v p w); [done..|].
    destruct vs' as [|w2 vs2]; [simpl in Hb; lia|].
    rewrite (join_cons sep w (w2 :: vs2)), !zlen_app in Hb by done. lia. }
  intros j1 a1 Hj1. destruct argv as [|p2 argv].
  - inversion Hvs'; subst. simpl. by exists j1, a1.
  - inversion Hvs' as [|? w2 ? vs2]; subst.
    rewrite (join_cons sep w (w2 :: vs2)) in Hb |- * by done. rewrite !zlen_app in Hb.
    eapply returns_bind.
    { apply returns_must; [done|]. apply (sdscatlen_all j1 (v ++ w)); [exact Hj1|].
      rewrite zlen_app. lia. }
    intros j2 a2 Hj2. cbn [fst snd].
    eapply returns_mono; [apply (IH (w2 :: vs2) j2 _ a2 Hvs' Hj2); rewrite !zlen_app; lia|].
    intros s. by rewrite <- !app_assoc.
Qed.

Theorem sdsjoinsds_spec argv vs sep a :
  alloc_total al -> Forall2 sds_repr argv vs -> zlen (join_bytes sep vs) <= BUF_SAFE ->
  returns (sdsjoinsds argv sep (zlen sep) a) (fun s => sds_repr s (join_bytes sep vs)).
Proof.
  intros Htot Hvs Hb. unfold sdsjoinsds.
  eapply returns_bind; [apply returns_must_opt; [done|apply sdsempty_spec]|].
  intros j a1 Hj. apply (joinsds_loop_spec sep Htot argv vs j []); [done..|zlia].
Qed.

End split_join.

(** ** The dynamic strings as byte buffers *)

#[export] Instance sds_buf (al : Allocator) : ByteBuf sds := {
  buf_empty := sdsempty;
  buf_cat := sdscatlen;
  buf_range := sdsrange;
  buf_len := sdslen;
  buf_avail := sdsavail;
  buf_val := sdsval
}.

#[export] Program Instance sds_buf_laws (al : Allocator) : ByteBufLaws al sds := {
  buf_ok s := sds_repr s (sdsval s)
}.
Next Obligation.
  intros al a. eapply returns_mono; [apply sdsempty_spec|].
  intros [s|]; simpl; [|done]. intros Hr. by rewrite (repr_val s []).
Qed.
Next Obligation.
  intros al b t a Hb Hl. simpl in *.
  eapply returns_mono; [by apply sdscatlen_all|].
  intros g. apply grow_post_mono. intros s Hr. by rewrite (repr_val s _ Hr).
Qed.
Next Obligation.
  intros al b i Hb Hi Hl. simpl in *.
  destruct (sdsrange_drop b (sdsval b) i Hb Hl Hi) as (s' & E & Hr).
  exists s'. by rewrite (repr_val s' _ Hr).
Qed.
Next Obligation. intros al b Hb. by apply repr_len. Qed.
