(* ===== verification/SdsText.v ===== *)
(** * Quoted text (sds.c)

    [sdscatrepr] writes bytes as a quoted string, [sdssplitargs] splits a line
    into arguments, quoted or not.  A line is the list of its bytes before the
    terminator: the empty list is [*p == 0]. *)

From Stdlib Require Import Strings.Byte String.
From S2P Require Import Prelude CLib Buffer Sds SdsFmt SdsEdit.

Definition QUOTE : byte := Byte.x22.
Definition APOS : byte := Byte.x27.
Definition BSLASH : byte := Byte.x5c.

Definition is_hex_digit (c : byte) : bool :=
  in_range 48 57 c || in_range 97 102 c || in_range 65 70 c.

Definition hex_digit_to_int (c : byte) : Z :=
  if in_range 48 57 c then bZ c - 48
  else if in_range 97 102 c then bZ c - 87
  else if in_range 65 70 c then bZ c - 55
  else 0.

(** The letter of an escape, and back; [None] when there is none. *)
Definition escape_letter (c : byte) : option byte :=
  if bool_decide (c = LF) then Some Byte.x6e
  else if bool_decide (c = CR) then Some Byte.x72
  else if bool_decide (c = Byte.x09) then Some Byte.x74
  else if bool_decide (c = Byte.x07) then Some Byte.x61
  else if bool_decide (c = Byte.x08) then Some Byte.x62
  else None.

Definition unescape (c : byte) : byte :=
  if bool_decide (c = Byte.x6e) then LF
  else if bool_decide (c = Byte.x72) then CR
  else if bool_decide (c = Byte.x74) then Byte.x09
  else if bool_decide (c = Byte.x62) then Byte.x08
  else if bool_decide (c = Byte.x61) then Byte.x07
  else c.

Section ops.
Context {al : Allocator}.

(** ** Writing *)

(** The body of the loop of [sdscatrepr]: a byte is written with
    [sdscatprintf] or [sdscatlen]. *)
Definition catrepr_byte (s : sds) (c : byte) (a : nat) : option (grow sds * nat) :=
  if bool_decide (c = BSLASH) || bool_decide (c = QUOTE) then
    sdscatvprintf s (bs "\%c") [BSLASH; c] a
  else match escape_letter c with
  | Some l => sdscatlen s [BSLASH; l] 2 a
  | None =>
      if isprint c then sdscatvprintf s (bs "%c") [c] a
      else sdscatvprintf s (bs "\x%02x") (BSLASH :: Byte.x78 :: hex2 c) a
  end.

(** The results inside the loop are not checked: [NULL] is used at once. *)
Fixpoint catrepr_loop (p : bytes) (s : sds) (a : nat) : option (sds * nat) :=
  match p with
  | [] => Some (s, a)
  | c :: p => g ← catrepr_byte s c a; r ← must g; catrepr_loop p r.1 r.2
  end.

Definition sdscatrepr (s : sds) (p : bytes) (len : Z) (a : nat) : option (grow sds * nat) :=
  t ← zread p 0 len;
  g ← sdscatlen s [QUOTE] 1 a;
  r ← must g;
  r ← catrepr_loop t r.1 r.2;
  sdscatlen r.1 [QUOTE] 1 r.2.

(** ** Splitting *)

Inductive quoting := Plain | InQuotes | InSingle.

(** How a token ends. *)
Inductive token_end :=
  | TokDone (p : bytes) (current : option sds)
  | TokErr.

(** [current = sdscatlen(current,&c,1)]; [current] must not be [NULL]. *)
Definition cat1 (current : option sds) (c : byte) (a : nat) : option (option sds * nat) :=
  s ← current;
  g ← sdscatlen s [c] 1 a;
  match g with
  | (GOk s, a) => Some (Some s, a)
  | (GNull _, a) => Some (None, a)
  end.

(** A closing quote must be followed by a space or nothing at all. *)
Definition close_quote (rest : bytes) (current : option sds) : token_end :=
  match rest with
  | b :: _ => if isspace b then TokDone rest current else TokErr
  | [] => TokDone rest current
  end.

(** [while (!done)]. *)
Fixpoint token_loop (fuel : nat) (p : bytes) (q : quoting) (current : option sds) (a : nat) :
    option (token_end * nat) :=
  match fuel with
  | O => None
  | S f =>
      let add c rest q := r ← cat1 current c a; token_loop f rest q r.1 r.2 in
      match q with
      | InQuotes =>
          match p with
          | [] => Some (TokErr, a)
          | b :: p1 =>
              if bool_decide (b = BSLASH) then
                match p1 with
                | c :: h1 :: h2 :: rest =>
                    if bool_decide (c = Byte.x78) && is_hex_digit h1 && is_hex_digit h2
                    then add (Zb (hex_digit_to_int h1 * 16 + hex_digit_to_int h2)) rest InQuotes
                    else add (unescape c) (h1 :: h2 :: rest) InQuotes
                | c :: rest => add (unescape c) rest InQuotes
                | [] => add b p1 InQuotes
                end
              else if bool_decide (b = QUOTE) then Some (close_quote p1 current, a)
              else add b p1 InQuotes
          end
      | InSingle =>
          match p with
          | [] => Some (TokErr, a)
          | b :: p1 =>
              if bool_decide (b = BSLASH) && bool_decide (head p1 = Some APOS)
              then add APOS (tail p1) InSingle
              else if bool_decide (b = APOS) then Some (close_quote p1 current, a)
              else add b p1 InSingle
          end
      | Plain =>
          match p with
          | [] => Some (TokDone [] current, a)
          | b :: p1 =>
              if bool_decide (b = Byte.x20) || bool_decide (b = LF) || bool_decide (b = CR)
                 || bool_decide (b = Byte.x09)
              then Some (TokDone p1 current, a)
              else if bool_decide (b = QUOTE) then token_loop f p1 InQuotes current a
              else if bool_decide (b = APOS) then token_loop f p1 InSingle current a
              else add b p1 Plain
          end
      end
  end.

(** The vector (entries may be [NULL]) or [NULL], and the count. *)
Definition args_result : Type := option (list (option sds)) * Z.

Fixpoint splitargs_loop (fuel : nat) (p : bytes) (vector : option (list (option sds))) (argc : Z)
    (a : nat) : option (args_result * nat) :=
  match fuel with
  | O => None
  | S f =>
      match drop_while isspace p with
      | [] =>
          match vector with
          | Some _ => Some ((vector, argc), a)
          | None => let '(ok, a) := malloc a 8 in Some ((if (ok : bool) then Some [] else None, argc), a)
          end
      | p =>
          e ← sdsempty a;
          t ← token_loop (S (length p)) p Plain e.1 e.2;
          match t with
          | (TokErr, a) => Some ((None, 0), a)
          | (TokDone p current, a) =>
              let '(ok, a) := malloc a ((argc + 1) * 8) in
              if negb ok then Some ((None, argc), a) else
              splitargs_loop f p (Some (default [] vector ++ [current])) (s32 (argc + 1)) a
          end
      end
  end.

Definition sdssplitargs (line : bytes) (a : nat) : option (args_result * nat) :=
  splitargs_loop (S (length (cstr line))) (cstr line) None 0 a.

End ops.

(** ** Specification *)

(** The escaped text of a byte, and of a string. *)
Definition repr_byte (c : byte) : bytes :=
  if bool_decide (c = BSLASH) || bool_decide (c = QUOTE) then [BSLASH; c]
  else match escape_letter c with
  | Some l => [BSLASH; l]
  | None => if isprint c then [c] else BSLASH :: Byte.x78 :: hex2 c
  end.

Definition repr_body (t : bytes) : bytes := t ≫= repr_byte.
Definition repr_text (t : bytes) : bytes := QUOTE :: repr_body t ++ [QUOTE].

(** ** Writing *)

Section facts.
Context {al : Allocator}.
Hypothesis Hal : alloc_total al.

Lemma zlen_repr_byte c : 1 <= zlen (repr_byte c) <= 4.
Proof. destruct c; vm_compute; split; discriminate. Qed.

Lemma zlen_repr_body t : zlen t <= zlen (repr_body t).
Proof.
  unfold repr_body. induction t as [|c t IH]; [done|]. rewrite bind_cons, zlen_cons, zlen_app.
  pose proof (zlen_repr_byte c). lia.
Qed.

(** The three ways a byte is written. *)
Lemma repr_byte_cases c :
  (repr_byte c = [BSLASH; c] /\ bool_decide (c = BSLASH) || bool_decide (c = QUOTE) = true) \/
  (bool_decide (c = BSLASH) || bool_decide (c = QUOTE) = false /\
   match escape_letter c with
   | Some l => repr_byte c = [BSLASH; l]
   | None => if isprint c then repr_byte c = [c] /\ c <> NUL
             else repr_byte c = BSLASH :: Byte.x78 :: hex2 c /\ NUL ∉ (BSLASH :: Byte.x78 :: hex2 c)
   end).
Proof.
  unfold repr_byte. destruct (bool_decide (c = BSLASH) || bool_decide (c = QUOTE)) eqn:E; [by left|].
  right. split; [done|]. destruct (escape_letter c); [done|].
  destruct (isprint c) eqn:Ep; split; try done.
  - intros ->. done.
  - clear E. unfold hex2. rewrite !not_elem_of_cons. pose proof (bZ_range c).
    assert (forall d, 0 <= d < 16 -> NUL <> hex_digit d) as Hd.
    { intros d Hd E. unfold hex_digit in E. destruct (d <? 10) eqn:E10;
        apply (f_equal bZ) in E; rewrite bZ_Zb in E by lia; change (bZ NUL) with 0 in E; lia. }
    split; [done|]. split; [done|]. split; [apply Hd; split; [apply Z.div_pos|apply Z.div_lt_upper_bound]; lia|].
    split; [apply Hd, Z.mod_pos_bound; lia|apply not_elem_of_nil].
Qed.

Lemma catrepr_byte_spec s v c a :
  sds_repr s v -> zlen v + zlen (repr_byte c) <= INT_MAX ->
  returns (catrepr_byte s c a ≫= must) (fun s' => sds_repr s' (v ++ repr_byte c)).
Proof.
  intros Hr Hl. apply (returns_must _ _ Hal). unfold catrepr_byte.
  assert (forall fmt out, out = repr_byte c -> NUL ∉ out -> strlen fmt <= INT_MAX ->
    returns (sdscatvprintf s fmt out a) (grow_post al (fun s' => sds_repr s' (v ++ repr_byte c)))) as Hp.
  { intros fmt out -> Hn Hf. by apply sdscatvprintf_spec. }
  assert (forall l, repr_byte c = [BSLASH; l] ->
    returns (sdscatlen s [BSLASH; l] 2 a) (grow_post al (fun s' => sds_repr s' (v ++ repr_byte c)))) as Hc.
  { intros l ->. apply (sdscatlen_all s v [BSLASH; l]); [done|]. change (zlen [BSLASH; l]) with 2.
    pose proof (zlen_repr_byte c). unfold BUF_SAFE. width_lia. }
  destruct (repr_byte_cases c) as [[E ->]|[-> H]].
  - apply Hp; [done| |vm_compute; discriminate]. rewrite !not_elem_of_cons. split; [done|].
    split; [|apply not_elem_of_nil]. intros <-. done.
  - destruct (escape_letter c) as [l|]; [by apply Hc|].
    destruct (isprint c); destruct H as [E Hn]; (apply Hp; [done| |vm_compute; discriminate]); [|done].
    rewrite not_elem_of_cons. split; [done|apply not_elem_of_nil].
Qed.

Lemma catrepr_loop_spec t : forall s v a,
  sds_repr s v -> zlen v + zlen (repr_body t) <= INT_MAX ->
  returns (catrepr_loop t s a) (fun s' => sds_repr s' (v ++ repr_body t)).
Proof.
  induction t as [|c t IH]; intros s v a Hr Hl; cbn [catrepr_loop].
  { exists s, a. unfold repr_body. simpl. by rewrite app_nil_r. }
  unfold repr_body in *. rewrite bind_cons in Hl |- *. rewrite zlen_app in Hl.
  pose proof (zlen_nonneg (t ≫= repr_byte)).
  destruct (catrepr_byte_spec s v c a Hr) as (s1 & a1 & E & Hs1); [lia|].
  destruct (catrepr_byte s c a) as [g|]; [|done]. cbn [mbind option_bind] in E |- *. rewrite E.
  cbn [mbind option_bind fst snd].
  destruct (IH s1 (v ++ repr_byte c) a1 Hs1) as (s2 & a2 & -> & Hs2); [rewrite zlen_app; lia|].
  exists s2, a2. by rewrite (assoc_L (++)).
Qed.

(** [sdscatrepr] appends the quoted text. *)
Lemma sdscatrepr_spec s v t a :
  sds_repr s v -> zlen v + zlen (repr_text t) <= INT_MAX ->
  returns (sdscatrepr s t (zlen t) a) (grow_post al (fun s' => sds_repr s' (v ++ repr_text t))).
Proof.
  intros Hr Hl. unfold repr_text in *. rewrite zlen_cons, zlen_app in Hl.
  change (zlen [QUOTE]) with 1 in Hl. pose proof (zlen_nonneg (repr_body t)).
  unfold sdscatrepr. rewrite zread_prefix, ztake_all by (pose proof (zlen_nonneg t); lia).
  cbn [mbind option_bind].
  destruct (returns_must _ _ Hal (sdscatlen_all s v [QUOTE] a Hr
    ltac:(change (zlen [QUOTE]) with 1; unfold BUF_SAFE; width_lia))) as (s1 & a1 & E1 & Hs1).
  destruct (sdscatlen s [QUOTE] 1 a) as [g|] eqn:Eg.
  2: { change (zlen [QUOTE]) with 1 in E1. by rewrite Eg in E1. }
  change (zlen [QUOTE]) with 1 in E1. rewrite Eg in E1. cbn [mbind option_bind] in E1 |- *. rewrite E1.
  cbn [mbind option_bind fst snd].
  destruct (catrepr_loop_spec t s1 (v ++ [QUOTE]) a1 Hs1) as (s2 & a2 & -> & Hs2).
  { rewrite zlen_app. change (zlen [QUOTE]) with 1. lia. }
  cbn [mbind option_bind fst snd].
  eapply returns_mono.
  { apply (sdscatlen_all s2 _ [QUOTE] a2 Hs2). rewrite !zlen_app. change (zlen [QUOTE]) with 1.
    unfold BUF_SAFE. width_lia. }
  intros g'. apply grow_post_mono. intros s3 Hs3. by rewrite <- !(assoc_L (++)) in Hs3.
Qed.

(** ** Splitting what was written *)

Lemma token_step c rest f cur a :
  token_loop (S f) (repr_byte c ++ rest) InQuotes cur a =
  (r ← cat1 cur c a; token_loop f rest InQuotes r.1 r.2).
Proof. destruct rest as [|b1 [|b2 rest]]; destruct c; reflexivity. Qed.

Lemma cat1_spec s v c a :
  sds_repr s v -> zlen v < INT_MAX ->
  exists s' a', cat1 (Some s) c a = Some (Some s', a') /\ sds_repr s' (v ++ [c]).
Proof.
  intros Hr Hl. unfold cat1. cbn [mbind option_bind].
  destruct (sdscatlen_all s v [c] a Hr) as ([f|s'] & a' & E & Hs').
  { change (zlen [c]) with 1. unfold BUF_SAFE. width_lia. }
  - by destruct Hs'.
  - change (zlen [c]) with 1 in E. rewrite E. by exists s', a'.
Qed.

(** Where a closing quote may stand. *)
Definition ends_token (rest : bytes) : Prop := match rest with [] => True | b :: _ => isspace b = true end.

Lemma token_quoted t : forall f s v rest a,
  sds_repr s v -> zlen v + zlen t <= INT_MAX -> ends_token rest -> (length t < f)%nat ->
  exists s' a', token_loop f (repr_body t ++ QUOTE :: rest) InQuotes (Some s) a
      = Some (TokDone rest (Some s'), a') /\ sds_repr s' (v ++ t).
Proof.
  induction t as [|c t IH]; intros f s v rest a Hr Hl He Hf; (destruct f as [|f]; [simpl in Hf; lia|]).
  { exists s, a. rewrite app_nil_r. split; [|done]. destruct rest as [|b rest]; [done|].
    cbn [repr_body mbind list_bind app token_loop]. cbn. by rewrite He. }
  unfold repr_body. rewrite bind_cons, <- (assoc_L (++)), token_step.
  rewrite zlen_cons in Hl. pose proof (zlen_nonneg t).
  destruct (cat1_spec s v c a Hr) as (s1 & a1 & -> & Hs1); [lia|]. cbn [mbind option_bind fst snd].
  destruct (IH f s1 (v ++ [c]) rest a1 Hs1) as (s2 & a2 & E & Hs2); [|done|simpl in Hf; lia|].
  { rewrite zlen_app. change (zlen [c]) with 1. lia. }
  exists s2, a2. split; [exact E|]. by rewrite <- (assoc_L (++)) in Hs2.
Qed.

(** The line with the quoted texts of its arguments, separated by blanks. *)
Definition quoted_line (args : list bytes) : bytes := join_bytes [Byte.x20] (repr_text <$> args).

Lemma quoted_line_cons t args :
  exists rest, quoted_line (t :: args) = repr_text t ++ rest /\ ends_token rest /\
    drop_while isspace rest = quoted_line args /\ (length (quoted_line args) <= length rest)%nat.
Proof.
  unfold quoted_line. destruct args as [|u args].
  - exists []. simpl. by rewrite app_nil_r.
  - exists (Byte.x20 :: join_bytes [Byte.x20] (repr_text <$> u :: args)).
    split; [by rewrite fmap_cons, join_cons by done|]. split; [done|]. split; [|simpl; lia].
    cbn [drop_while isspace]. destruct args; done.
Qed.

Lemma args_loop_spec args : forall f p vec toks argc a,
  drop_while isspace p = quoted_line args -> (length (quoted_line args) < f)%nat ->
  zlen (quoted_line args) <= INT_MAX -> 0 <= argc -> argc + zlen args <= INT_MAX ->
  (vec = Some toks \/ (vec = None /\ toks = [])) ->
  exists new a', splitargs_loop f p vec argc a
      = Some ((Some (toks ++ (Some <$> new)), argc + zlen args), a') /\ Forall2 sds_repr new args.
Proof.
  induction args as [|t args IH]; intros f p vec toks argc a Hp Hf Hl Hc Hm Hv;
    (destruct f as [|f]; [lia|]); cbn [splitargs_loop]; rewrite Hp.
  { exists []. simpl. rewrite zlen_nil, Z.add_0_r, app_nil_r.
    destruct Hv as [->|[-> ->]]; [by exists a|]. rewrite Hal. by exists (S a). }
  destruct (quoted_line_cons t args) as (rest & El & He & Hd & Hlen). rewrite El in Hf, Hl |- *.
  unfold repr_text in Hf, Hl |- *. cbn [app] in Hf, Hl |- *. rewrite <- (assoc_L (++)) in Hf, Hl |- *.
  cbn [app] in Hf, Hl |- *. rewrite zlen_cons, zlen_app, zlen_cons in Hl.
  pose proof (zlen_nonneg rest). pose proof (zlen_repr_body t). pose proof (zlen_nonneg t).
  rewrite zlen_cons in Hm. pose proof (zlen_nonneg args).
  destruct (sdsempty_spec a) as ([s0|] & a0 & -> & Hs0); [|by destruct Hs0].
  cbn [mbind option_bind fst snd]. cbn [token_loop].
  change (bool_decide (QUOTE = Byte.x20) || bool_decide (QUOTE = LF) || bool_decide (QUOTE = CR)
                     || bool_decide (QUOTE = Byte.x09)) with false.
  change (bool_decide (QUOTE = QUOTE)) with true. cbv iota.
  destruct (token_quoted t (length (QUOTE :: repr_body t ++ QUOTE :: rest)) s0 [] rest a0 Hs0)
    as (s1 & a1 & -> & Hs1); [rewrite zlen_nil; lia|done| |].
  { unfold zlen in *. simpl. rewrite length_app. lia. }
  cbn [mbind option_bind]. rewrite (malloc_ok Hal). cbn [negb]. rewrite s32_small by width_lia.
  destruct (IH f rest (Some (default [] vec ++ [Some s1])) (toks ++ [Some s1]) (argc + 1) (S a1) Hd)
    as (new & a' & -> & Hnew).
  - simpl in Hf. rewrite length_app in Hf. simpl in Hf. lia.
  - unfold zlen in *. lia.
  - lia.
  - lia.
  - left. destruct Hv as [->|[-> ->]]; done.
  - exists (s1 :: new), a'. split; [|by constructor]. rewrite <- (assoc_L (++)). simpl.
    do 3 f_equal. rewrite zlen_cons. lia.
Qed.

Lemma quoted_no_nul args : NUL ∉ quoted_line args.
Proof.
  assert (forall t, NUL ∉ repr_text t) as Ht.
  { intros t. unfold repr_text, repr_body. rewrite elem_of_cons, elem_of_app, list_elem_of_singleton.
    intros [?|[Hn|?]]; [done| |done]. apply list_elem_of_bind in Hn as (c & Hn & _). revert Hn.
    destruct c; vm_compute; set_solver. }
  unfold quoted_line. induction args as [|t args IH]; [apply not_elem_of_nil|].
  destruct args as [|u args]; [apply Ht|]. rewrite fmap_cons, join_cons by done.
  rewrite !elem_of_app, list_elem_of_singleton. intros [?|[?|?]]; [by eapply Ht|done|done].
Qed.

(** The arguments are read back, whatever bytes they hold. *)
Lemma sdssplitargs_quoted args a :
  zlen (quoted_line args) <= INT_MAX -> zlen args <= INT_MAX ->
  exists toks a', sdssplitargs (quoted_line args) a = Some ((Some (Some <$> toks), zlen args), a') /\
    Forall2 sds_repr toks args.
Proof.
  intros Hl Ha. unfold sdssplitargs. rewrite cstr_id by apply quoted_no_nul.
  destruct (args_loop_spec args (S (length (quoted_line args))) (quoted_line args) None [] 0 a)
    as (new & a' & E & Hn); [|lia|done|lia|lia|by right|by exists new, a'].
  destruct args as [|t args]; [done|]. destruct (quoted_line_cons t args) as (rest & -> & _). done.
Qed.

End facts.
