(* ===== verification/Read.v ===== *)
(** * The protocol reader (read.h, read.c)

    The reader is generic in the buffer ([ByteBuf]) and in the functions that
    build replies, which work on an object store [H] and the allocation
    counter.  A result [None] is a failed [assert], an access outside the
    buffer or a second [free]. *)

From Stdlib Require Import Strings.Byte String.
From S2P Require Import Prelude CLib Buffer.

Definition REDIS_ERR : Z := -1.
Definition REDIS_OK : Z := 0.

Definition REDIS_ERR_IO : Z := 1.
Definition REDIS_ERR_EOF : Z := 3.
Definition REDIS_ERR_PROTOCOL : Z := 4.
Definition REDIS_ERR_OOM : Z := 5.
Definition REDIS_ERR_TIMEOUT : Z := 6.
Definition REDIS_ERR_OTHER : Z := 2.

Definition REDIS_REPLY_STRING : Z := 1.
Definition REDIS_REPLY_ARRAY : Z := 2.
Definition REDIS_REPLY_INTEGER : Z := 3.
Definition REDIS_REPLY_NIL : Z := 4.
Definition REDIS_REPLY_STATUS : Z := 5.
Definition REDIS_REPLY_ERROR : Z := 6.
Definition REDIS_REPLY_DOUBLE : Z := 7.
Definition REDIS_REPLY_BOOL : Z := 8.
Definition REDIS_REPLY_MAP : Z := 9.
Definition REDIS_REPLY_SET : Z := 10.

Definition REDIS_READER_MAX_BUF : Z := 1024 * 16.

(** The floating-point part of the C library: [strtod] returns the value and
    the number of bytes it consumed. *)
Class FloatLib := {
  double : Type;
  infinity : bool -> double;      (* INFINITY, or its negative *)
  isnan : double -> bool;
  strtod : bytes -> double * Z
}.

(** A [void*] that stands for a reply: the numbers the code casts to pointers,
    and the address of an object.  [NULL] is the [None] of [option optr]. *)
Inductive optr :=
  | OTag (n : Z)
  | OLoc (l : nat).

#[global] Instance optr_eq_dec : EqDecision optr.
Proof. solve_decision. Defined.

Record redisReadTask := Task {
  t_type : Z;
  t_elements : Z;             (* int *)
  t_idx : Z;                  (* int *)
  t_obj : option optr;
  t_parent : option nat;      (* index in the task stack *)
  t_privdata : Z
}.

(** The functions of [redisReplyObjectFunctions]; each may be absent.  A task
    argument is the stack and the index of the task in it.  A creation
    function returns the object, or [None] for [NULL], with the new allocation
    counter and store. *)
Record redisReplyObjectFunctions `{FloatLib} (H : Type) := Functions {
  createString : option (list redisReadTask -> nat -> bytes -> nat -> H ->
                         option (option optr * nat * H));
  createArray : option (list redisReadTask -> nat -> Z -> nat -> H ->
                        option (option optr * nat * H));
  createInteger : option (list redisReadTask -> nat -> Z -> nat -> H ->
                          option (option optr * nat * H));
  createDouble : option (list redisReadTask -> nat -> double -> bytes -> nat -> H ->
                         option (option optr * nat * H));
  createNil : option (list redisReadTask -> nat -> nat -> H ->
                      option (option optr * nat * H));
  createBool : option (list redisReadTask -> nat -> Z -> nat -> H ->
                       option (option optr * nat * H));
  freeObject : option (optr -> H -> option H)
}.
Arguments Functions {_} {_}.
Arguments createString {_} {_}.
Arguments createArray {_} {_}.
Arguments createInteger {_} {_}.
Arguments createDouble {_} {_}.
Arguments createNil {_} {_}.
Arguments createBool {_} {_}.
Arguments freeObject {_} {_}.

(** The [buf] pointer of a reader. *)
Inductive bufptr {B : Type} :=
  | BNull
  | BLive (b : B)
  | BFreed.
Arguments bufptr : clear implicits.

Record redisReader (B : Type) := Reader {
  r_err : Z;
  r_errstr : bytes;
  r_buf : bufptr B;
  r_pos : Z;
  r_len : Z;
  r_maxbuf : Z;
  r_rstack : list redisReadTask;
  r_ridx : Z;
  r_reply : option optr;
  r_privdata : Z
}.
Arguments Reader {_}.
Arguments r_err {_}.
Arguments r_errstr {_}.
Arguments r_buf {_}.
Arguments r_pos {_}.
Arguments r_len {_}.
Arguments r_maxbuf {_}.
Arguments r_rstack {_}.
Arguments r_ridx {_}.
Arguments r_reply {_}.
Arguments r_privdata {_}.

Section updates.
Context {B : Type}.
Implicit Types r : redisReader B.

Definition with_pos r pos : redisReader B :=
  Reader (r_err r) (r_errstr r) (r_buf r) pos (r_len r) (r_maxbuf r) (r_rstack r)
         (r_ridx r) (r_reply r) (r_privdata r).
Definition with_buf r buf pos len : redisReader B :=
  Reader (r_err r) (r_errstr r) buf pos len (r_maxbuf r) (r_rstack r)
         (r_ridx r) (r_reply r) (r_privdata r).
Definition with_stack r rstack ridx : redisReader B :=
  Reader (r_err r) (r_errstr r) (r_buf r) (r_pos r) (r_len r) (r_maxbuf r) rstack
         ridx (r_reply r) (r_privdata r).
Definition with_ridx r ridx : redisReader B := with_stack r (r_rstack r) ridx.
Definition with_reply r reply : redisReader B :=
  Reader (r_err r) (r_errstr r) (r_buf r) (r_pos r) (r_len r) (r_maxbuf r) (r_rstack r)
         (r_ridx r) reply (r_privdata r).
(** Assignment to the task at index [i]. *)
Definition with_task r (i : Z) (t : redisReadTask) : redisReader B :=
  with_stack r (<[Z.to_nat i := t]> (r_rstack r)) (r_ridx r).

End updates.

Definition task_type (t : redisReadTask) (ty : Z) : redisReadTask :=
  Task ty (t_elements t) (t_idx t) (t_obj t) (t_parent t) (t_privdata t).

(** ** Text of protocol errors *)

Definition chrtos (byte : byte) : bytes :=
  let q := Byte.x22 in
  let b := Byte.x5c in
  if bool_decide (byte = Byte.x5c) || bool_decide (byte = Byte.x22) then [q; b; byte; q]
  else if bool_decide (byte = Byte.x0a) then [q; b; Byte.x6e; q]
  else if bool_decide (byte = Byte.x0d) then [q; b; Byte.x72; q]
  else if bool_decide (byte = Byte.x09) then [q; b; Byte.x74; q]
  else if bool_decide (byte = Byte.x07) then [q; b; Byte.x61; q]
  else if bool_decide (byte = Byte.x08) then [q; b; Byte.x62; q]
  else if isprint byte then [q; byte; q]
  else [q; b; Byte.x78] ++ hex2 byte ++ [q].

Definition protocol_byte_text (byte : byte) : bytes :=
  bs "Protocol error, got " ++ chrtos byte ++ bs " as reply type byte".

(** ** Searching and number parsing *)

(** The inner loop of [seekNewline]:
    [while(pos < _len && s[pos] != '\r') pos++;] *)
Fixpoint seek_cr (fuel : nat) (s : bytes) (pos len : Z) : option Z :=
  match fuel with
  | O => None
  | S f => if pos <? len then
             b ← zget s pos;
             if bool_decide (b = CR) then Some pos else seek_cr f s (pos + 1) len
           else Some pos
  end.

(** The outer loop; the inner [None] is the [NULL] result. *)
Fixpoint seek_loop (fuel : nat) (s : bytes) (pos len : Z) : option (option Z) :=
  match fuel with
  | O => None
  | S f =>
      if pos <? len then
        pos ← seek_cr fuel s pos len;
        if pos =? len then Some None
        else b ← zget s (pos + 1);
             if bool_decide (b = LF) then Some (Some pos) else seek_loop f s (pos + 1) len
      else Some None
  end.

Definition seekNewline (s : bytes) (len : Z) : option (option Z) :=
  seek_loop (S (Z.to_nat len)) s 0 (s32 (u64 (len - 1))).

(** The digit loop of [string2ll]: the value and the bytes left, or [None]
    when the value does not fit. *)
Fixpoint s2ll_loop (v : Z) (p : bytes) : option (Z * bytes) :=
  match p with
  | c :: p' =>
      if isdigit c then
        if ULLONG_MAX / 10 <? v then None else
        let v := u64 (v * 10) in
        if ULLONG_MAX - digit_val c <? v then None else
        s2ll_loop (u64 (v + digit_val c)) p'
      else Some (v, p)
  | [] => Some (v, [])
  end.

(** [s] holds exactly the [slen] bytes; [None] is [REDIS_ERR]. *)
Definition string2ll (s : bytes) : option Z :=
  match s with
  | [] => None
  | c :: p' =>
      if bool_decide (s = [Byte.x30]) then Some 0 else
      let negative := bool_decide (c = Byte.x2d) in
      match (if negative then p' else s) with
      | [] => None
      | d :: p =>
          if in_range 49 57 d then
            r ← s2ll_loop (digit_val d) p;
            let '(v, rest) := r in
            if bool_decide (rest <> []) then None
            else if (negative : bool) then
              if 9223372036854775808 <? v then None else Some (s64 (u64 (- v)))
            else if LLONG_MAX <? v then None else Some v
          else if bool_decide (d = Byte.x30) && (zlen s =? 1) then Some 0
          else None
      end
  end.

Section reader.
Context {dm : DataModel} {fl : FloatLib} {B : Type} `{!ByteBuf B} {H : Type}.

(** [r->fn], fixed when the reader is created; [None] is [NULL]. *)
Variable fn : option (redisReplyObjectFunctions H).

Implicit Types r : redisReader B.

(** [r->buf]: its contents, a fault when it is not a live buffer. *)
Definition rdata r : option bytes :=
  match r_buf r with BLive b => Some (buf_val b) | _ => None end.

Definition sdsfree_ptr (p : bufptr B) : option unit :=
  match p with BFreed => None | _ => Some tt end.

(** [if (reply != NULL && r->fn && r->fn->freeObject) r->fn->freeObject(reply)]:
    the store, and whether it was called. *)
Definition free_reply (reply : option optr) (h : H) : option (bool * H) :=
  match reply, fn ≫= freeObject with
  | Some o, Some free => h ← free o h; Some (true, h)
  | _, _ => Some (false, h)
  end.

(** ** Errors *)

Definition __redisReaderSetError r (type : Z) (str : bytes) (h : H) :
    option (redisReader B * H) :=
  f ← free_reply (r_reply r) h;
  let '(freed, h) := f in
  let reply := if (freed : bool) then None else r_reply r in
  _ ← sdsfree_ptr (r_buf r);
  Some (Reader type (take 127 (cstr str)) BNull 0 0 (r_maxbuf r) (r_rstack r) (-1)
               reply (r_privdata r), h).

Definition __redisReaderSetErrorProtocolByte r (byte : byte) (h : H) :
    option (redisReader B * H) :=
  __redisReaderSetError r REDIS_ERR_PROTOCOL (protocol_byte_text byte) h.

Definition __redisReaderSetErrorOOM r (h : H) : option (redisReader B * H) :=
  __redisReaderSetError r REDIS_ERR_OOM (bs "Out of memory") h.

(** The result of a processing function: status, reader, counter, store. *)
#[local] Abbreviation presult := (option (Z * redisReader B * nat * H)).

Definition fail_with (e : option (redisReader B * H)) (a : nat) : presult :=
  e ← e; let '(r, h) := e in Some (REDIS_ERR, r, a, h).

(** ** Reading *)

(** The offset of the bytes read, if there are enough. *)
Definition readBytes r (bytes : Z) : option Z * redisReader B :=
  if bytes <=? u64 (r_len r - r_pos r)
  then (Some (r_pos r), with_pos r (u64 (r_pos r + bytes)))
  else (None, r).

(** The line without its terminator, as offset and length. *)
Definition readLine r : option (option (Z * Z) * redisReader B) :=
  d ← rdata r;
  s ← seekNewline (zdrop (r_pos r) d) (u64 (r_len r - r_pos r));
  match s with
  | Some len => Some (Some (r_pos r, s32 len), with_pos r (u64 (r_pos r + (len + 2))))
  | None => Some (None, r)
  end.

(** ** The task stack *)

Definition is_aggregate (ty : Z) : bool :=
  (ty =? REDIS_REPLY_ARRAY) || (ty =? REDIS_REPLY_MAP) || (ty =? REDIS_REPLY_SET).

Fixpoint next_task_loop (fuel : nat) r : option (redisReader B) :=
  match fuel with
  | O => None
  | S f =>
      if 0 <=? r_ridx r then
        if r_ridx r =? 0 then Some (with_ridx r (-1)) else
        cur ← zget (r_rstack r) (r_ridx r);
        prv ← zget (r_rstack r) (r_ridx r - 1);
        if negb (is_aggregate (t_type prv)) then None else
        if t_idx cur =? t_elements prv - 1 then next_task_loop f (with_ridx r (r_ridx r - 1))
        else if negb (t_idx cur <? t_elements prv) then None
        else Some (with_task r (r_ridx r)
                     (Task (-1) (-1) (t_idx cur + 1) (t_obj cur) (t_parent cur) (t_privdata cur)))
      else Some r
  end.

Definition moveToNextTask r : option (redisReader B) :=
  next_task_loop (S (S (Z.to_nat (r_ridx r)))) r.

(** The end of the line and bulk items: [obj == NULL], the root reply, the
    next task. *)
Definition item_done r (obj : option optr) (pos : Z) (a : nat) (h : H) : presult :=
  match obj with
  | None => fail_with (__redisReaderSetErrorOOM r h) a
  | Some _ =>
      let r := with_pos r pos in
      let r := if r_ridx r =? 0 then with_reply r obj else r in
      r ← moveToNextTask r;
      Some (REDIS_OK, r, a, h)
  end.

(** ** Items *)

(** The object of a line item, or the protocol error it raises. *)
Definition line_object r (cur : redisReadTask) (p : Z) (len : Z) (d : bytes) (a : nat) (h : H) :
    option ((option optr * nat * H) + bytes) :=
  let st := r_rstack r in
  let i := Z.to_nat (r_ridx r) in
  let tag (ty : Z) := Some (inl (Some (OTag ty), a, h)) in
  if t_type cur =? REDIS_REPLY_INTEGER then
    match fn ≫= createInteger with
    | Some create =>
        s ← zread d p len;
        match string2ll s with
        | None => Some (inr (bs "Bad integer value"))
        | Some v => inl <$> create st i v a h
        end
    | None => tag REDIS_REPLY_INTEGER
    end
  else if t_type cur =? REDIS_REPLY_DOUBLE then
    match fn ≫= createDouble with
    | Some create =>
        if 326 <=? u64 len then Some (inr (bs "Double value is too large")) else
        s ← zread d p len;
        if strcaseeq s (bs ",inf") then inl <$> create st i (infinity true) s a h
        else if strcaseeq s (bs ",-inf") then inl <$> create st i (infinity false) s a h
        else
          let '(v, n) := strtod (cstr s) in
          e ← zget (s ++ [NUL]) n;
          if bool_decide (cstr s = []) || negb (bool_decide (e = NUL)) || isnan v
          then Some (inr (bs "Bad double value"))
          else inl <$> create st i v s a h
    | None => tag REDIS_REPLY_DOUBLE
    end
  else if t_type cur =? REDIS_REPLY_NIL then
    match fn ≫= createNil with
    | Some create => inl <$> create st i a h
    | None => tag REDIS_REPLY_NIL
    end
  else if t_type cur =? REDIS_REPLY_BOOL then
    b ← zget d p;
    let bval := if bool_decide (b = Byte.x74) || bool_decide (b = Byte.x54) then 1 else 0 in
    match fn ≫= createBool with
    | Some create => inl <$> create st i bval a h
    | None => tag REDIS_REPLY_BOOL
    end
  else
    match fn ≫= createString with
    | Some create => s ← zread d p len; inl <$> create st i s a h
    | None => tag (t_type cur)
    end.

Definition processLineItem r (a : nat) (h : H) : presult :=
  cur ← zget (r_rstack r) (r_ridx r);
  d ← rdata r;
  l ← readLine r;
  match l with
  | (Some (p, len), r) =>
      o ← line_object r cur p len d a h;
      match o with
      | inr msg => fail_with (__redisReaderSetError r REDIS_ERR_PROTOCOL msg h) a
      | inl (obj, a, h) => item_done r obj (r_pos r) a h
      end
  | (None, r) => Some (REDIS_ERR, r, a, h)
  end.

Definition processBulkItem r (a : nat) (h : H) : presult :=
  cur ← zget (r_rstack r) (r_ridx r);
  d ← rdata r;
  let st := r_rstack r in
  let i := Z.to_nat (r_ridx r) in
  s ← seekNewline (zdrop (r_pos r) d) (u64 (r_len r - r_pos r));
  match s with
  | None => Some (REDIS_ERR, r, a, h)
  | Some n =>
      let bytelen := uw long_bits (n + 2) in
      txt ← zread d (r_pos r) (uw long_bits (bytelen - 2));
      match string2ll txt with
      | None => fail_with (__redisReaderSetError r REDIS_ERR_PROTOCOL
                             (bs "Bad bulk string length") h) a
      | Some len =>
          if len <? -1 then
            fail_with (__redisReaderSetError r REDIS_ERR_PROTOCOL
                         (bs "Bulk string length out of range") h) a
          else if len =? -1 then
            o ← match fn ≫= createNil with
                | Some create => create st i a h
                | None => Some (Some (OTag REDIS_REPLY_NIL), a, h)
                end;
            let '(obj, a, h) := o in item_done r obj (u64 (r_pos r + bytelen)) a h
          else
            let bytelen := uw long_bits (bytelen + s64 (len + 2)) in
            if u64 (r_pos r + bytelen) <=? r_len r then
              o ← match fn ≫= createString with
                  | Some create => str ← zread d (r_pos r + n + 2) len; create st i str a h
                  | None => Some (Some (OTag REDIS_REPLY_STRING), a, h)
                  end;
              let '(obj, a, h) := o in item_done r obj (u64 (r_pos r + bytelen)) a h
            else Some (REDIS_ERR, r, a, h)
      end
  end.

(** Pushing the task of the first element of a container. *)
Definition push_task r (cur : redisReadTask) (elements : Z) (obj : option optr) : redisReader B :=
  let i := Z.to_nat (r_ridx r) in
  let cur := Task (t_type cur) (s32 elements) (t_idx cur) obj (t_parent cur) (t_privdata cur) in
  let child := Task (-1) (-1) 0 None (Some i) (r_privdata r) in
  with_stack r (<[S i := child]> (<[i := cur]> (r_rstack r))) (r_ridx r + 1).

Definition processAggregateItem r (a : nat) (h : H) : presult :=
  cur ← zget (r_rstack r) (r_ridx r);
  d ← rdata r;
  if r_ridx r =? 8 then
    fail_with (__redisReaderSetError r REDIS_ERR_PROTOCOL
                 (bs "No support for nested multi bulk replies with depth > 7") h) a
  else
  l ← readLine r;
  match l with
  | (None, r) => Some (REDIS_ERR, r, a, h)
  | (Some (p, len), r) =>
      let st := r_rstack r in
      let i := Z.to_nat (r_ridx r) in
      s ← zread d p len;
      match string2ll s with
      | None => fail_with (__redisReaderSetError r REDIS_ERR_PROTOCOL
                             (bs "Bad multi-bulk length") h) a
      | Some elements =>
          let root := r_ridx r =? 0 in
          let set_root r obj := if (root : bool) then with_reply r obj else r in
          if elements <? -1 then
            fail_with (__redisReaderSetError r REDIS_ERR_PROTOCOL
                         (bs "Multi-bulk length out of range") h) a
          else if elements =? -1 then
            o ← match fn ≫= createNil with
                | Some create => create st i a h
                | None => Some (Some (OTag REDIS_REPLY_NIL), a, h)
                end;
            let '(obj, a, h) := o in
            match obj with
            | None => fail_with (__redisReaderSetErrorOOM r h) a
            | Some _ => r ← moveToNextTask r; Some (REDIS_OK, set_root r obj, a, h)
            end
          else
            let elements := if t_type cur =? REDIS_REPLY_MAP then s64 (elements * 2)
                            else elements in
            o ← match fn ≫= createArray with
                | Some create => create st i (u64 elements) a h
                | None => Some (Some (OTag (t_type cur)), a, h)
                end;
            let '(obj, a, h) := o in
            match obj with
            | None => fail_with (__redisReaderSetErrorOOM r h) a
            | Some _ =>
                r ← (if 0 <? elements then Some (push_task r cur elements obj)
                     else moveToNextTask r);
                Some (REDIS_OK, set_root r obj, a, h)
            end
      end
  end.

(** The type a reply starts with. *)
Definition reply_type (b : byte) : option Z :=
  if bool_decide (b = Byte.x2d) then Some REDIS_REPLY_ERROR
  else if bool_decide (b = Byte.x2b) then Some REDIS_REPLY_STATUS
  else if bool_decide (b = Byte.x3a) then Some REDIS_REPLY_INTEGER
  else if bool_decide (b = Byte.x2c) then Some REDIS_REPLY_DOUBLE
  else if bool_decide (b = Byte.x5f) then Some REDIS_REPLY_NIL
  else if bool_decide (b = Byte.x24) then Some REDIS_REPLY_STRING
  else if bool_decide (b = Byte.x2a) then Some REDIS_REPLY_ARRAY
  else if bool_decide (b = Byte.x25) then Some REDIS_REPLY_MAP
  else if bool_decide (b = Byte.x7e) then Some REDIS_REPLY_SET
  else if bool_decide (b = Byte.x23) then Some REDIS_REPLY_BOOL
  else None.

(** The dispatch on the type of the current task. *)
Definition process_typed r (ty : Z) (a : nat) (h : H) : presult :=
  if (ty =? REDIS_REPLY_ERROR) || (ty =? REDIS_REPLY_STATUS) || (ty =? REDIS_REPLY_INTEGER)
     || (ty =? REDIS_REPLY_DOUBLE) || (ty =? REDIS_REPLY_NIL) || (ty =? REDIS_REPLY_BOOL)
  then processLineItem r a h
  else if ty =? REDIS_REPLY_STRING then processBulkItem r a h
  else if is_aggregate ty then processAggregateItem r a h
  else None.

Definition processItem r (a : nat) (h : H) : presult :=
  cur ← zget (r_rstack r) (r_ridx r);
  if t_type cur <? 0 then
    match readBytes r 1 with
    | (None, r) => Some (REDIS_ERR, r, a, h)
    | (Some p, r) =>
        d ← rdata r;
        b ← zget d p;
        match reply_type b with
        | None => fail_with (__redisReaderSetErrorProtocolByte r b h) a
        | Some ty => process_typed (with_task r (r_ridx r) (task_type cur ty)) ty a h
        end
    end
  else process_typed r (t_type cur) a h.

(** ** The public interface *)

Definition zero_task : redisReadTask := Task 0 0 0 None None 0.

(** On an LP64 system. *)
Definition sizeof_redisReader : Z := 560.

Definition redisReaderCreateWithFunctions (a : nat) {al : Allocator} :
    option (option (redisReader B) * nat) :=
  let '(ok, a) := calloc a 1 sizeof_redisReader in
  if negb ok then Some (None, a) else
  e ← buf_empty a;
  let '(buf, a) := e in
  match buf with
  | None => Some (None, a)
  | Some b => Some (Some (Reader 0 [] (BLive b) 0 0 REDIS_READER_MAX_BUF
                                 (replicate 9 zero_task) (-1) None 0), a)
  end.

Definition redisReaderFree r (h : H) : option H :=
  f ← free_reply (r_reply r) h;
  _ ← sdsfree_ptr (r_buf r);
  Some f.2.

(** [buf == NULL] is [None]. *)
Definition redisReaderFeed r (buf : option bytes) (len : Z) (a : nat) (h : H) : presult :=
  if negb (r_err r =? 0) then Some (REDIS_ERR, r, a, h) else
  match buf with
  | Some data =>
      if 1 <=? len then
        old ← match r_buf r with BLive b => Some b | _ => None end;
        e ← (if (r_len r =? 0) && negb (r_maxbuf r =? 0) && (r_maxbuf r <? buf_avail old) then
               e ← buf_empty a;
               match e with
               | (Some b, a) => Some (with_buf r (BLive b) 0 (r_len r), b, a)
               | (None, _) => None
               end
             else Some (r, old, a));
        let '(r, b, a) := e in
        g ← buf_cat b data len a;
        match g with
        | (GNull freed, a) =>
            let r := if (freed : bool) then with_buf r BFreed (r_pos r) (r_len r) else r in
            fail_with (__redisReaderSetErrorOOM r h) a
        | (GOk b, a) => Some (REDIS_OK, with_buf r (BLive b) (r_pos r) (buf_len b), a, h)
        end
      else Some (REDIS_OK, r, a, h)
  | None => Some (REDIS_OK, r, a, h)
  end.

(** [while (r->ridx >= 0) if (processItem(r) != REDIS_OK) break;] *)
Fixpoint process_loop (fuel : nat) r (a : nat) (h : H) : option (redisReader B * nat * H) :=
  match fuel with
  | O => None
  | S f =>
      if 0 <=? r_ridx r then
        p ← processItem r a h;
        let '(status, r, a, h) := p in
        if status =? REDIS_OK then process_loop f r a h else Some (r, a, h)
      else Some (r, a, h)
  end.

(** Discarding what was consumed, at least 1k. *)
Definition discard r : option (redisReader B) :=
  if 1024 <=? r_pos r then
    b ← match r_buf r with BLive b => Some b | _ => None end;
    b ← buf_range b (s32 (r_pos r)) (-1);
    Some (with_buf r (BLive b) 0 (buf_len b))
  else Some r.

(** [reply == NULL] is [want = false].  The second component of the result
    is the value stored through [reply]. *)
Definition redisReaderGetReply r (want : bool) (a : nat) (h : H) :
    option (Z * option optr * redisReader B * nat * H) :=
  if negb (r_err r =? 0) then Some (REDIS_ERR, None, r, a, h)
  else if r_len r =? 0 then Some (REDIS_OK, None, r, a, h)
  else
    let r := if r_ridx r =? -1
             then with_stack r (<[0%nat := Task (-1) (-1) (-1) None None (r_privdata r)]>
                                  (r_rstack r)) 0
             else r in
    p ← process_loop (S (Z.to_nat (r_len r))) r a h;
    let '(r, a, h) := p in
    if negb (r_err r =? 0) then Some (REDIS_ERR, None, r, a, h) else
    r ← discard r;
    if r_ridx r =? -1 then
      if want then Some (REDIS_OK, r_reply r, with_reply r None, a, h)
      else f ← free_reply (r_reply r) h;
           Some (REDIS_OK, None, with_reply r None, a, f.2)
    else Some (REDIS_OK, None, r, a, h).

End reader.
