(* ===== verification/Parser.v ===== *)
(** * Abstract specification of the protocol reader

    A parser over the list of bytes not yet consumed: no buffer, no positions,
    no machine arithmetic, and one [outcome] per item.  ReaderRefines shows
    that the reader of read.c implements it; this file proves what holds of
    the parser itself: every item consumes input, so a fuel of one more than
    the length of the input is enough, and input may arrive in any pieces. *)

From Stdlib Require Import Strings.Byte String.
From S2P Require Import Prelude CLib Buffer Read.

(** The bytes before the first CR LF, and those after it. *)
Fixpoint split_line (s : bytes) : option (bytes * bytes) :=
  match s with
  | [] => None
  | c :: s1 =>
      match s1 with
      | d :: s2 =>
          if bool_decide (c = CR) && bool_decide (d = LF) then Some ([], s2)
          else match split_line s1 with
               | Some (l, rest) => Some (c :: l, rest)
               | None => None
               end
      | [] => None
      end
  end.

Record parser := Parser {
  p_rest : bytes;                   (* input not yet consumed *)
  p_stack : list redisReadTask;
  p_ridx : Z;
  p_reply : option optr;
  p_priv : Z
}.

Definition p_with_rest (p : parser) (rest : bytes) : parser :=
  Parser rest (p_stack p) (p_ridx p) (p_reply p) (p_priv p).

(** More input arrives. *)
Definition p_feed (p : parser) (e : bytes) : parser := p_with_rest p (p_rest p ++ e).

(** What became of an item: incomplete, a protocol or memory error with its
    code and text (and what is left in the reply field), or parsed. *)
Inductive outcome :=
  | More (p : parser)
  | Bad (code : Z) (msg : bytes) (reply : option optr)
  | Done (p : parser).

Definition feed_outcome (o : outcome) (e : bytes) : outcome :=
  match o with
  | More p => More (p_feed p e)
  | Done p => Done (p_feed p e)
  | Bad c m r => Bad c m r
  end.

(** The next task after the one at index [i]. *)
Fixpoint next_task (i : nat) (st : list redisReadTask) : option (list redisReadTask * Z) :=
  match i with
  | O => Some (st, -1)
  | S j =>
      cur ← st !! i;
      prv ← st !! j;
      if negb (is_aggregate (t_type prv)) then None
      else if t_idx cur =? t_elements prv - 1 then next_task j st
      else if negb (t_idx cur <? t_elements prv) then None
      else Some (<[i := Task (-1) (-1) (t_idx cur + 1) (t_obj cur) (t_parent cur)
                             (t_privdata cur)]> st, Z.of_nat i)
  end.

Lemma next_task_bound i st n : next_task i st = Some n -> -1 <= n.2 <= Z.of_nat i.
Proof.
  revert n. induction i as [|i IH]; intros n; simpl; [intros [= <-]; simpl; lia|].
  destruct (st !! S i) as [cur|]; [|done]. destruct (st !! i) as [prv|]; [|done]. simpl.
  destruct (negb _); [done|]. destruct (_ =? _); [intros ?%IH; lia|].
  destruct (negb _); [done|]. intros [= <-]. simpl. lia.
Qed.

Section parser.
Context {fl : FloatLib} {H : Type}.
Variable fn : option (redisReplyObjectFunctions H).
Implicit Types (p : parser) (st : list redisReadTask) (h : H).

#[local] Abbreviation created := (option (option optr * nat * H)).
#[local] Abbreviation pres := (option (outcome * nat * H)).

(** Creation of an object: the function of the reader, or the tag. *)
Definition mk_string st i (ty : Z) (s : bytes) a h : created :=
  match fn ≫= createString with
  | Some create => create st i s a h
  | None => Some (Some (OTag ty), a, h)
  end.
Definition mk_nil st i a h : created :=
  match fn ≫= createNil with
  | Some create => create st i a h
  | None => Some (Some (OTag REDIS_REPLY_NIL), a, h)
  end.
Definition mk_array st i (ty n : Z) a h : created :=
  match fn ≫= createArray with
  | Some create => create st i n a h
  | None => Some (Some (OTag ty), a, h)
  end.

Definition bad p (code : Z) (msg : bytes) (a : nat) h : pres :=
  f ← free_reply fn (p_reply p) h;
  Some (Bad code msg (if f.1 : bool then None else p_reply p), a, f.2).

Definition set_root p (obj : option optr) : option optr :=
  if p_ridx p =? 0 then obj else p_reply p.

(** The item of the current task is complete, with object [obj]. *)
Definition finish p (rest : bytes) (obj : option optr) (a : nat) h : pres :=
  match obj with
  | None => bad p REDIS_ERR_OOM (bs "Out of memory") a h
  | Some _ =>
      n ← next_task (Z.to_nat (p_ridx p)) (p_stack p);
      Some (Done (Parser rest n.1 n.2 (set_root p obj) (p_priv p)), a, h)
  end.

(** The object that a line stands for. *)
Definition line_reply st i (ty : Z) (s : bytes) (a : nat) h :
    option ((option optr * nat * H) + bytes) :=
  let tag := Some (inl (Some (OTag ty), a, h)) in
  if ty =? REDIS_REPLY_INTEGER then
    match fn ≫= createInteger with
    | Some create =>
        match string2ll s with
        | None => Some (inr (bs "Bad integer value"))
        | Some v => inl <$> create st i v a h
        end
    | None => tag
    end
  else if ty =? REDIS_REPLY_DOUBLE then
    match fn ≫= createDouble with
    | Some create =>
        if 326 <=? zlen s then Some (inr (bs "Double value is too large"))
        else if strcaseeq s (bs ",inf") then inl <$> create st i (infinity true) s a h
        else if strcaseeq s (bs ",-inf") then inl <$> create st i (infinity false) s a h
        else
          let '(v, n) := strtod (cstr s) in
          e ← zget (s ++ [NUL]) n;
          if bool_decide (cstr s = []) || negb (bool_decide (e = NUL)) || isnan v
          then Some (inr (bs "Bad double value"))
          else inl <$> create st i v s a h
    | None => tag
    end
  else if ty =? REDIS_REPLY_NIL then inl <$> mk_nil st i a h
  else if ty =? REDIS_REPLY_BOOL then
    let bval := match s with
                | b :: _ => bool_decide (b = Byte.x74) || bool_decide (b = Byte.x54)
                | [] => false
                end in
    match fn ≫= createBool with
    | Some create => inl <$> create st i (if bval then 1 else 0) a h
    | None => tag
    end
  else inl <$> mk_string st i ty s a h.

Definition line_item p (ty : Z) (a : nat) h : pres :=
  match split_line (p_rest p) with
  | None => Some (More p, a, h)
  | Some (s, rest) =>
      o ← line_reply (p_stack p) (Z.to_nat (p_ridx p)) ty s a h;
      match o with
      | inr msg => bad p REDIS_ERR_PROTOCOL msg a h
      | inl (obj, a, h) => finish p rest obj a h
      end
  end.

Definition bulk_item p (a : nat) h : pres :=
  match split_line (p_rest p) with
  | None => Some (More p, a, h)
  | Some (s, rest) =>
      match string2ll s with
      | None => bad p REDIS_ERR_PROTOCOL (bs "Bad bulk string length") a h
      | Some len =>
          if len <? -1 then bad p REDIS_ERR_PROTOCOL (bs "Bulk string length out of range") a h
          else if len =? -1 then
            o ← mk_nil (p_stack p) (Z.to_nat (p_ridx p)) a h;
            let '(obj, a, h) := o in finish p rest obj a h
          else if len + 2 <=? zlen rest then
            o ← mk_string (p_stack p) (Z.to_nat (p_ridx p)) REDIS_REPLY_STRING
                          (ztake len rest) a h;
            let '(obj, a, h) := o in finish p (zdrop (len + 2) rest) obj a h
          else Some (More p, a, h)
      end
  end.

(** The task stack after opening a container of [elements > 0] elements. *)
Definition open_task p (cur : redisReadTask) (elements : Z) (obj : option optr) :
    list redisReadTask :=
  let i := Z.to_nat (p_ridx p) in
  <[S i := Task (-1) (-1) 0 None (Some i) (p_priv p)]>
    (<[i := Task (t_type cur) (s32 elements) (t_idx cur) obj (t_parent cur) (t_privdata cur)]>
       (p_stack p)).

(** Number of tasks of a container whose header says [n]. *)
Definition container_elements (ty n : Z) : Z :=
  if ty =? REDIS_REPLY_MAP then s64 (n * 2) else n.

Definition aggregate_item p (cur : redisReadTask) (a : nat) h : pres :=
  if p_ridx p =? 8 then
    bad p REDIS_ERR_PROTOCOL (bs "No support for nested multi bulk replies with depth > 7") a h
  else
  match split_line (p_rest p) with
  | None => Some (More p, a, h)
  | Some (s, rest) =>
      match string2ll s with
      | None => bad p REDIS_ERR_PROTOCOL (bs "Bad multi-bulk length") a h
      | Some n =>
          if n <? -1 then bad p REDIS_ERR_PROTOCOL (bs "Multi-bulk length out of range") a h
          else if n =? -1 then
            o ← mk_nil (p_stack p) (Z.to_nat (p_ridx p)) a h;
            let '(obj, a, h) := o in finish p rest obj a h
          else
            let elements := container_elements (t_type cur) n in
            o ← mk_array (p_stack p) (Z.to_nat (p_ridx p)) (t_type cur) (u64 elements) a h;
            let '(obj, a, h) := o in
            if bool_decide (obj = None) || negb (0 <? elements) then finish p rest obj a h
            else Some (Done (Parser rest (open_task p cur elements obj) (p_ridx p + 1)
                                    (set_root p obj) (p_priv p)), a, h)
      end
  end.

Definition is_line (ty : Z) : bool :=
  (ty =? REDIS_REPLY_ERROR) || (ty =? REDIS_REPLY_STATUS) || (ty =? REDIS_REPLY_INTEGER)
  || (ty =? REDIS_REPLY_DOUBLE) || (ty =? REDIS_REPLY_NIL) || (ty =? REDIS_REPLY_BOOL).

Definition typed_item p (cur : redisReadTask) (a : nat) h : pres :=
  if is_line (t_type cur) then line_item p (t_type cur) a h
  else if t_type cur =? REDIS_REPLY_STRING then bulk_item p a h
  else if is_aggregate (t_type cur) then aggregate_item p cur a h
  else None.

(** The parser with the type of the current task set. *)
Definition typed p (rest : bytes) (cur : redisReadTask) : parser :=
  Parser rest (<[Z.to_nat (p_ridx p) := cur]> (p_stack p)) (p_ridx p) (p_reply p) (p_priv p).

Definition item p (a : nat) h : pres :=
  cur ← zget (p_stack p) (p_ridx p);
  if t_type cur <? 0 then
    match p_rest p with
    | [] => Some (More p, a, h)
    | b :: rest =>
        match reply_type b with
        | None => bad p REDIS_ERR_PROTOCOL (protocol_byte_text b) a h
        | Some ty => typed_item (typed p rest (task_type cur ty)) (task_type cur ty) a h
        end
    end
  else typed_item p cur a h.

(** Items until the reply is complete ([p_ridx] is -1), the input runs out,
    or an error. *)
Fixpoint run (fuel : nat) p (a : nat) h : pres :=
  match fuel with
  | O => None
  | S f =>
      if p_ridx p <? 0 then Some (Done p, a, h) else
      o ← item p a h;
      match o with
      | (Done p', a, h) => run f p' a h
      | _ => Some o
      end
  end.

(** Enough fuel: every item consumes a byte. *)
Definition parse p (a : nat) h : pres := run (S (length (p_rest p))) p a h.

(** ** Lines *)

Lemma split_line_cons c d s :
  split_line (c :: d :: s) =
  if bool_decide (c = CR) && bool_decide (d = LF) then Some ([], s)
  else match split_line (d :: s) with Some (l, rest) => Some (c :: l, rest) | None => None end.
Proof. done. Qed.

Lemma split_line_app s e l rest :
  split_line s = Some (l, rest) -> split_line (s ++ e) = Some (l, rest ++ e).
Proof.
  revert l rest. induction s as [|c s IH]; [done|]. intros l rest.
  destruct s as [|d s]; [done|]. rewrite <- !app_comm_cons, !split_line_cons.
  destruct (bool_decide (c = CR) && bool_decide (d = LF)); [naive_solver|].
  rewrite app_comm_cons. destruct (split_line (d :: s)) as [[l' r']|]; [|done].
  intros [= <- <-]. by rewrite (IH l' r').
Qed.

Lemma split_line_eq s l rest : split_line s = Some (l, rest) -> s = l ++ crlf ++ rest.
Proof.
  revert l rest. induction s as [|c s IH]; [done|]. intros l rest.
  destruct s as [|d s]; [done|]. rewrite split_line_cons.
  destruct (bool_decide (c = CR) && bool_decide (d = LF)) eqn:E.
  - intros [= <- <-]. apply andb_true_iff in E as [?%bool_decide_eq_true ?%bool_decide_eq_true].
    by subst.
  - destruct (split_line (d :: s)) as [[l' r']|]; [|done].
    intros [= <- <-]. rewrite <- app_comm_cons. f_equal. by apply IH.
Qed.

Lemma split_line_no_cr l rest : CR ∉ l -> split_line (l ++ crlf ++ rest) = Some (l, rest).
Proof.
  induction l as [|c l IH]; [done|]. intros [Hc Hl]%not_elem_of_cons.
  specialize (IH Hl). rewrite <- app_comm_cons.
  destruct (l ++ crlf ++ rest) as [|d s] eqn:E; [by destruct l|].
  rewrite split_line_cons, (bool_decide_false (c = CR)) by congruence. simpl andb. cbv iota.
  by rewrite IH.
Qed.

(** ** Results

    [final p a h x]: the result [x] of an item started in [p] either asks for
    more input and has changed nothing, or is a failure, or has consumed some. *)

Definition is_more (o : outcome) : bool := match o with More _ => true | _ => false end.

Definition final p (a : nat) h (x : outcome * nat * H) : Prop :=
  match x.1.1 with
  | More q => x = (More p, a, h)
  | Bad _ _ _ => True
  | Done q => (length (p_rest q) < length (p_rest p))%nat /\ (0 <= p_ridx p -> -1 <= p_ridx q)
  end.

(** [y] is what becomes of the result [x] of an item when [e] arrives first. *)
Definition stable (e : bytes) (x y : pres) : Prop :=
  match x with
  | None => y = None
  | Some (More _, _, _) => True
  | Some (o, a, h) => y = Some (feed_outcome o e, a, h)
  end.

Definition item_ok p (a : nat) h (e : bytes) (x y : pres) : Prop :=
  (forall r, x = Some r -> final p a h r) /\ stable e x y.

Lemma bad_inv p c m a h x : bad p c m a h = Some x -> exists r h', x = (Bad c m r, a, h').
Proof. unfold bad. intros. inv_opt. eauto. Qed.

Lemma item_ok_bad p q q' c m a h e a' h' :
  p_reply q = p_reply q' -> item_ok p a h e (bad q c m a' h') (bad q' c m a' h').
Proof.
  unfold bad, item_ok. intros <-. destruct (free_reply fn (p_reply q) h') as [f|]; simpl.
  - split; [|done]. by intros ? [= <-].
  - done.
Qed.

Lemma item_ok_finish p q e rest obj a h a' h' :
  (length rest < length (p_rest p))%nat -> p_ridx q = p_ridx p ->
  item_ok p a h e (finish q rest obj a' h') (finish (p_feed q e) (rest ++ e) obj a' h').
Proof.
  intros Hl Hi. unfold finish. destruct obj; [|by apply item_ok_bad].
  simpl. destruct (next_task _ _) as [n|] eqn:En; simpl; [|done].
  split; [|done]. intros ? [= <-]. split; [done|]. intros _.
  apply next_task_bound in En. simpl. lia.
Qed.

Lemma item_ok_bind {C} (m : option C) k k' p a h e :
  (forall x, m = Some x -> item_ok p a h e (k x) (k' x)) ->
  item_ok p a h e (m ≫= k) (m ≫= k').
Proof. intros Hk. destruct m; simpl; [by apply Hk|done]. Qed.

Lemma item_ok_more p a h e y : item_ok p a h e (Some (More p, a, h)) y.
Proof. split; [|done]. by intros ? [= <-]. Qed.

Lemma split_line_length s l rest :
  split_line s = Some (l, rest) -> (length rest < length s)%nat.
Proof. intros ->%split_line_eq. rewrite length_app. simpl. lia. Qed.

(** Splits on whether the line is complete. *)
Ltac split_item p e :=
  destruct (split_line (p_rest p)) as [[s rest]|] eqn:Es; [|apply item_ok_more];
  pose proof (split_line_length _ _ _ Es);
  change (p_rest (p_feed p e)) with (p_rest p ++ e);
  rewrite (split_line_app _ e _ _ Es).

Lemma line_item_ok p ty a h e :
  item_ok p a h e (line_item p ty a h) (line_item (p_feed p e) ty a h).
Proof.
  unfold line_item. split_item p e. apply item_ok_bind. intros [[[obj a'] h']|msg] _.
  - by apply item_ok_finish.
  - by apply item_ok_bad.
Qed.

Lemma bulk_item_ok p a h e :
  item_ok p a h e (bulk_item p a h) (bulk_item (p_feed p e) a h).
Proof.
  unfold bulk_item. split_item p e. destruct (string2ll s) as [len|]; [|by apply item_ok_bad].
  destruct (Z.ltb_spec len (-1)); [by apply item_ok_bad|]. destruct (Z.eqb_spec len (-1)).
  { apply item_ok_bind. intros [[obj a'] h'] _. by apply item_ok_finish. }
  destruct (Z.leb_spec (len + 2) (zlen rest)) as [Hl|Hl]; [|apply item_ok_more].
  replace (len + 2 <=? zlen (rest ++ e)) with true by (symmetry; apply Z.leb_le; zlia).
  rewrite (ztake_app_l len rest e), (zdrop_app_l (len + 2) rest e) by lia.
  apply item_ok_bind. intros [[obj a'] h'] _. apply item_ok_finish; [|done].
  unfold zdrop. rewrite length_drop. lia.
Qed.

Lemma aggregate_item_ok p cur a h e :
  item_ok p a h e (aggregate_item p cur a h) (aggregate_item (p_feed p e) cur a h).
Proof.
  unfold aggregate_item. change (p_ridx (p_feed p e)) with (p_ridx p).
  destruct (p_ridx p =? 8); [by apply item_ok_bad|].
  split_item p e. destruct (string2ll s) as [n|]; [|by apply item_ok_bad].
  destruct (Z.ltb_spec n (-1)); [by apply item_ok_bad|]. destruct (Z.eqb_spec n (-1)).
  { apply item_ok_bind. intros [[obj a'] h'] _. by apply item_ok_finish. }
  apply item_ok_bind. intros [[obj a'] h'] _.
  destruct (bool_decide _ || _); [by apply item_ok_finish|].
  split; [|done]. intros ? [= <-]. split; simpl; [done|lia].
Qed.

Lemma typed_item_ok p cur a h e :
  item_ok p a h e (typed_item p cur a h) (typed_item (p_feed p e) cur a h).
Proof.
  unfold typed_item. destruct (is_line _); [apply line_item_ok|].
  destruct (_ =? _); [apply bulk_item_ok|].
  destruct (is_aggregate _); [apply aggregate_item_ok|done].
Qed.

Lemma reply_type_nonneg b ty : reply_type b = Some ty -> 1 <= ty <= 10.
Proof.
  unfold reply_type. repeat case_bool_decide; try done;
    unfold REDIS_REPLY_ERROR, REDIS_REPLY_STATUS, REDIS_REPLY_INTEGER, REDIS_REPLY_DOUBLE,
      REDIS_REPLY_NIL, REDIS_REPLY_STRING, REDIS_REPLY_ARRAY, REDIS_REPLY_MAP,
      REDIS_REPLY_SET, REDIS_REPLY_BOOL; intros [= <-]; lia.
Qed.

Lemma zget_insert st i t t' :
  zget st i = Some t -> zget (<[Z.to_nat i := t']> st) i = Some t'.
Proof.
  intros Hi. pose proof (zget_Some _ _ _ Hi) as Hr. unfold zget, zlen in *.
  destruct (Z.leb_spec 0 i); [|done]. apply list_lookup_insert_eq. lia.
Qed.

(** What an item leaves, apart from the type of the current task. *)
Lemma item_final p a h o a' h' :
  item p a h = Some (o, a', h') ->
  match o with
  | More q => a' = a /\ h' = h /\ p_ridx q = p_ridx p /\ p_reply q = p_reply p
  | Bad _ _ _ => True
  | Done q => (length (p_rest q) < length (p_rest p))%nat /\ (0 <= p_ridx p -> -1 <= p_ridx q)
  end.
Proof.
  unfold item. destruct (zget _ _) as [cur|]; [|done]. simpl.
  assert (forall q cur, p_ridx q = p_ridx p -> p_reply q = p_reply p -> (length (p_rest q) <= length (p_rest p))%nat ->
    typed_item q cur a h = Some (o, a', h') ->
    match o with
    | More q => a' = a /\ h' = h /\ p_ridx q = p_ridx p /\ p_reply q = p_reply p
    | Bad _ _ _ => True
    | Done q => (length (p_rest q) < length (p_rest p))%nat /\ (0 <= p_ridx p -> -1 <= p_ridx q)
    end) as Ht.
  { intros q c Hq Hq' Hl E. apply (typed_item_ok _ _ _ _ []) in E. unfold final in E.
    destruct o; simpl in E; [naive_solver|done|]. rewrite <- Hq. destruct E as [? ?]. split; [lia|done]. }
  destruct (t_type cur <? 0); [|by apply Ht].
  destruct (p_rest p) as [|b rest] eqn:Er; [naive_solver|].
  destruct (reply_type b); [apply Ht; simpl; done || lia|].
  by intros (? & ? & [= -> -> ->])%bad_inv.
Qed.

(** An item that parses consumes at least one byte. *)
Lemma item_consumes p a h p' a' h' :
  item p a h = Some (Done p', a', h') -> (length (p_rest p') < length (p_rest p))%nat.
Proof. by intros [? _]%item_final. Qed.

Lemma item_done_ridx p a h p' a' h' :
  item p a h = Some (Done p', a', h') -> 0 <= p_ridx p -> -1 <= p_ridx p'.
Proof. intros [_ ?]%item_final. auto. Qed.

Lemma item_more_ridx p a h p' a' h' :
  item p a h = Some (More p', a', h') -> p_ridx p' = p_ridx p.
Proof. by intros (_ & _ & ? & _)%item_final. Qed.

(** Parsing an item when more input arrives: the same result, unless the item
    was incomplete, in which case it is resumed. *)
Lemma item_feed p e a h :
  item (p_feed p e) a h =
  match item p a h with
  | Some (More p', a', h') => item (p_feed p' e) a' h'
  | Some (o, a', h') => Some (feed_outcome o e, a', h')
  | None => None
  end.
Proof.
  assert (forall q cur, zget (p_stack q) (p_ridx q) = Some cur -> 0 <= t_type cur ->
    typed_item (p_feed q e) cur a h =
    match typed_item q cur a h with
    | Some (More p', a', h') => item (p_feed p' e) a' h'
    | Some (o, a', h') => Some (feed_outcome o e, a', h')
    | None => None
    end) as Ht.
  { intros q cur Hc Hty. destruct (typed_item_ok q cur a h e) as [Hf Hs].
    destruct (typed_item q cur a h) as [[[o a'] h']|]; [|done].
    specialize (Hf _ eq_refl). destruct o; [|done..].
    unfold final in Hf; simpl in Hf. injection Hf as -> -> ->.
    unfold item. simpl. rewrite Hc. simpl. by zfalse (t_type cur <? 0). }
  unfold item at 1 2. simpl. destruct (zget (p_stack p) (p_ridx p)) as [cur|] eqn:Hc; [|done].
  simpl. destruct (Z.ltb_spec (t_type cur) 0); [|by apply Ht].
  destruct (p_rest p) as [|b rest] eqn:Er.
  - simpl. unfold item. simpl. rewrite Hc, Er. simpl. by ztrue (t_type cur <? 0).
  - simpl. destruct (reply_type b) as [ty|] eqn:Eb.
    + apply (Ht (typed p rest (task_type cur ty))); [by eapply zget_insert|].
      simpl. pose proof (reply_type_nonneg _ _ Eb). lia.
    + unfold bad. simpl. destruct (free_reply _ _ _); done.
Qed.

(** ** Complete parses *)

(** Fuel beyond the length of the input makes no difference. *)
Lemma run_fuel f g p a h :
  (length (p_rest p) < f)%nat -> (length (p_rest p) < g)%nat -> run f p a h = run g p a h.
Proof.
  revert g p a h. induction f as [|f IH]; intros g p a h Hf Hg; [lia|].
  destruct g as [|g]; [lia|]. simpl. destruct (p_ridx p <? 0); [done|].
  destruct (item p a h) as [[[[q|c m r|q] a'] h']|] eqn:E; simpl; [done..| |done].
  pose proof (item_consumes _ _ _ _ _ _ E). apply IH; lia.
Qed.

Lemma parse_eq p a h :
  parse p a h =
  if p_ridx p <? 0 then Some (Done p, a, h) else
  o ← item p a h;
  match o with
  | (Done p', a, h) => parse p' a h
  | _ => Some o
  end.
Proof.
  unfold parse at 1. simpl. destruct (p_ridx p <? 0); [done|].
  destruct (item p a h) as [[[[q|c m r|q] a'] h']|] eqn:E; simpl; [done..| |done].
  pose proof (item_consumes _ _ _ _ _ _ E). apply run_fuel; lia.
Qed.

(** A parse never runs out of fuel: it fails only where some item does. *)
Lemma parse_total (P : parser -> nat -> H -> Prop) :
  (forall p a h, P p a h -> 0 <= p_ridx p -> exists x, item p a h = Some x /\
     match x with (Done p', a', h') => P p' a' h' | _ => True end) ->
  forall p a h, P p a h -> exists x, parse p a h = Some x.
Proof.
  intros HP p. remember (length (p_rest p)) as n eqn:En. revert p En.
  induction n as [n IH] using lt_wf_ind. intros p -> a h Hp.
  rewrite parse_eq. destruct (Z.ltb_spec (p_ridx p) 0); [by eexists|].
  destruct (HP _ _ _ Hp ltac:(done)) as ([[o a'] h'] & E & Hx). rewrite E. simpl.
  destruct o as [q|c m r|q]; [by eexists..|].
  pose proof (item_consumes _ _ _ _ _ _ E). by eapply IH.
Qed.

(** Input may arrive in pieces: a complete parse is not affected by the bytes
    that follow, and an incomplete one is resumed where it stopped. *)
Lemma parse_feed p e a h :
  parse (p_feed p e) a h =
  match parse p a h with
  | Some (More p', a', h') => parse (p_feed p' e) a' h'
  | Some (o, a', h') => Some (feed_outcome o e, a', h')
  | None => None
  end.
Proof.
  remember (length (p_rest p)) as n eqn:En. revert p a h En.
  induction n as [n IH] using lt_wf_ind. intros p a h ->.
  rewrite (parse_eq p), (parse_eq (p_feed p e)), item_feed. simpl.
  destruct (p_ridx p <? 0) eqn:Ep; [done|].
  destruct (item p a h) as [[[[q|c m r|q] a'] h']|] eqn:E; simpl; [|done| |done].
  - rewrite (parse_eq (p_feed q e)). simpl. rewrite (item_more_ridx _ _ _ _ _ _ E). by rewrite Ep.
  - pose proof (item_consumes _ _ _ _ _ _ E). by eapply IH.
Qed.

End parser.
