(* ===== verification/ReadLines.v ===== *)
(** * Searching and parsing in the reader: [seekNewline], [string2ll]

    [seekNewline] returns the length of the first line; [string2ll] accepts
    exactly the decimal representations of the [long long] values. *)

From Stdlib Require Import Strings.Byte.
From S2P Require Import Prelude CLib Buffer Read Parser.

(** ** [seekNewline] *)

(** Position of the first CR LF at or after [pos]. *)
Definition line_from (s : bytes) (pos : Z) : option Z :=
  match split_line (zdrop pos s) with
  | Some (l, _) => Some (pos + zlen l)
  | None => None
  end.

Lemma line_from_step s pos c d :
  zget s pos = Some c -> zget s (pos + 1) = Some d ->
  line_from s pos =
  if bool_decide (c = CR) && bool_decide (d = LF) then Some pos else line_from s (pos + 1).
Proof.
  intros Hc Hd. unfold line_from.
  rewrite (zdrop_cons s pos c Hc), (zdrop_cons s (pos + 1) d Hd), split_line_cons.
  destruct (bool_decide (c = CR) && bool_decide (d = LF)); [f_equal; zlia|].
  destruct (split_line _) as [[l r]|]; [f_equal; zlia|done].
Qed.

Lemma line_from_end s : line_from s (zlen s - 1) = None.
Proof.
  unfold line_from. destruct s as [|c s]; [done|].
  assert (length (zdrop (zlen (c :: s) - 1) (c :: s)) = 1%nat) as Hl.
  { unfold zdrop, zlen. rewrite length_drop. simpl. lia. }
  by destruct (zdrop (zlen (c :: s) - 1) (c :: s)) as [|x [|]].
Qed.

Lemma seek_cr_spec s fuel pos :
  0 <= pos <= zlen s - 1 -> (Z.to_nat (zlen s - 1 - pos) < fuel)%nat ->
  exists q, seek_cr fuel s pos (zlen s - 1) = Some q /\ pos <= q <= zlen s - 1 /\
    line_from s q = line_from s pos /\ (q < zlen s - 1 -> zget s q = Some CR).
Proof.
  revert pos. induction fuel as [|f IH]; intros pos Hp Hf; [lia|]. simpl.
  destruct (Z.ltb_spec pos (zlen s - 1)); [|exists pos; split_and!; done || lia].
  destruct (zget_is_Some s pos) as [c Hc]; [lia|]. rewrite Hc. simpl.
  case_bool_decide as Ec; [exists pos; subst; split_and!; done || lia|].
  destruct (IH (pos + 1)) as (q & Eq & Hq & El & Hcr); [lia..|].
  exists q. rewrite Eq, El. split_and!; [done|lia|lia| |done].
  destruct (zget_is_Some s (pos + 1)) as [d Hd]; [lia|].
  by rewrite (line_from_step _ _ _ _ Hc Hd), (bool_decide_false (c = CR)).
Qed.

Lemma seek_loop_spec s fuel pos :
  0 <= pos <= zlen s - 1 -> (Z.to_nat (zlen s - 1 - pos) < fuel)%nat ->
  seek_loop fuel s pos (zlen s - 1) = Some (line_from s pos).
Proof.
  revert pos. induction fuel as [|f IH]; intros pos Hp Hf; [lia|].
  cbn [seek_loop]. destruct (Z.ltb_spec pos (zlen s - 1)).
  2: { replace pos with (zlen s - 1) by lia. by rewrite line_from_end. }
  destruct (seek_cr_spec s (S f) pos) as (q & Eq & Hq & El & Hcr); [lia..|].
  rewrite Eq, <- El. cbn [mbind option_bind].
  destruct (Z.eqb_spec q (zlen s - 1)); [subst; by rewrite line_from_end|].
  destruct (zget_is_Some s (q + 1)) as [d Hd]; [lia|]. rewrite Hd. cbn [mbind option_bind].
  rewrite (line_from_step s q CR d) by (try done; apply Hcr; lia).
  rewrite (bool_decide_true (CR = CR)) by done. simpl andb.
  case_bool_decide; [done|]. apply IH; lia.
Qed.

(** On at most [INT_MAX] bytes, [seekNewline] finds the end of the first line. *)
Lemma seekNewline_spec s :
  zlen s <= INT_MAX ->
  seekNewline s (u64 (zlen s)) = Some (zlen <$> (fst <$> split_line s)).
Proof.
  intros Hs. pose proof (zlen_nonneg s). unfold seekNewline. unwrap.
  destruct s as [|c s]; [done|].
  assert (1 <= zlen (c :: s)) by zlia. unwrap. rewrite seek_loop_spec by lia.
  unfold line_from. rewrite zdrop_0. by destruct (split_line _) as [[l r]|].
Qed.

(** ** [string2ll] *)

Lemma zget_cons_succ (c : byte) s j : 0 <= j -> zget (c :: s) (j + 1) = zget s j.
Proof.
  intros Hj. unfold zget. rewrite (proj2 (Z.leb_le _ _)) by lia. rewrite (proj2 (Z.leb_le _ _)) by lia.
  by replace (Z.to_nat (j + 1)) with (S (Z.to_nat j)) by lia.
Qed.

(** [split_line] cuts at the first CRLF. *)
Definition crlf_at (s : bytes) (j : Z) : Prop := zget s j = Some CR /\ zget s (j + 1) = Some LF.

Lemma crlf_at_cons c s j : 0 <= j -> crlf_at (c :: s) (j + 1) <-> crlf_at s j.
Proof. intros Hj. unfold crlf_at. by rewrite !zget_cons_succ by lia. Qed.

Lemma crlf_at_nonneg s j : crlf_at s j -> 0 <= j.
Proof. intros [Hj%zget_Some _]. lia. Qed.

Lemma split_line_first s :
  match split_line s with
  | Some (l, _) => zget s (zlen l) = Some CR /\ zget s (zlen l + 1) = Some LF /\
                   forall j, 0 <= j < zlen l -> ~ (zget s j = Some CR /\ zget s (j + 1) = Some LF)
  | None => forall j, ~ (zget s j = Some CR /\ zget s (j + 1) = Some LF)
  end.
Proof.
  change (match split_line s with
  | Some (l, _) => zget s (zlen l) = Some CR /\ zget s (zlen l + 1) = Some LF /\
                   forall j, 0 <= j < zlen l -> ~ crlf_at s j
  | None => forall j, ~ crlf_at s j
  end).
  induction s as [|c s IH]; [by intros j [Hj _]; apply zget_Some in Hj; simpl in Hj; zlia|].
  destruct s as [|d s].
  { intros j [Hj Hj']. apply zget_Some in Hj, Hj'. zlia. }
  assert (forall j, crlf_at (c :: d :: s) j -> (j = 0 /\ c = CR /\ d = LF) \/
    (1 <= j /\ crlf_at (d :: s) (j - 1))) as Hc.
  { intros j Hj. pose proof (crlf_at_nonneg _ _ Hj). destruct (Z.eq_dec j 0) as [->|].
    - left. destruct Hj as [[= ->] [= ->]]. done.
    - right. split; [lia|]. apply (crlf_at_cons c); [lia|]. by replace (j - 1 + 1) with j by lia. }
  rewrite split_line_cons.
  destruct (bool_decide (c = CR) && bool_decide (d = LF)) eqn:E.
  { apply andb_prop in E as [->%bool_decide_eq_true ->%bool_decide_eq_true].
    split; [done|]. split; [done|]. intros j Hj. unfold zlen in Hj. simpl in Hj. lia. }
  assert (~ (c = CR /\ d = LF)) as Hne.
  { intros [-> ->]. by rewrite !bool_decide_true in E. }
  destruct (split_line (d :: s)) as [[l rest]|].
  - destruct IH as (H1 & H2 & H3). pose proof (zlen_nonneg l). rewrite zlen_cons.
    replace (1 + zlen l) with (zlen l + 1) by lia. rewrite !(zget_cons_succ c (d :: s)) by lia.
    split; [done|]. split; [done|]. intros j Hj [(_ & ?)|[? Hn]]%Hc; [done|].
    by apply (H3 (j - 1)); [lia|].
  - intros j [(_ & ?)|[? Hn]]%Hc; [done|]. by apply (IH (j - 1)).
Qed.

Lemma dec_val_app_mono l k :
  Forall (fun b => isdigit b = true) l -> Forall (fun b => isdigit b = true) k ->
  dec_val l <= dec_val (l ++ k).
Proof.
  intros Hl. induction k as [|b k IH] using rev_ind; intros Hk; [by rewrite app_nil_r|].
  apply Forall_app in Hk as [Hk Hb]. inversion Hb; subst.
  rewrite app_assoc, dec_val_snoc. pose proof (digit_val_range b ltac:(done)).
  pose proof (IH Hk). pose proof (dec_val_nonneg (l ++ k) ltac:(by apply Forall_app)). lia.
Qed.

(** On digits, the loop computes the value unless it exceeds 64 bits. *)
Lemma s2ll_loop_digits l k :
  Forall (fun b => isdigit b = true) l -> Forall (fun b => isdigit b = true) k ->
  dec_val l <= ULLONG_MAX ->
  s2ll_loop (dec_val l) k =
  if dec_val (l ++ k) <=? ULLONG_MAX then Some (dec_val (l ++ k), []) else None.
Proof.
  intros Hl Hk. revert l Hl. induction k as [|b k IH]; intros l Hl Hv.
  { rewrite app_nil_r. simpl. by ztrue (dec_val l <=? ULLONG_MAX). }
  inversion Hk as [|?? Hb Hk']; subst. simpl. rewrite Hb.
  pose proof (digit_val_range b Hb). pose proof (dec_val_nonneg l Hl).
  replace (l ++ b :: k) with ((l ++ [b]) ++ k) by (by rewrite <- app_assoc).
  assert (Forall (fun b => isdigit b = true) (l ++ [b])) as Hlb by (apply Forall_app; auto).
  pose proof (dec_val_app_mono (l ++ [b]) k Hlb Hk') as Hm.
  specialize (IH Hk' (l ++ [b]) Hlb). rewrite dec_val_snoc in Hm, IH.
  change (ULLONG_MAX / 10) with 1844674407370955161. widths.
  destruct (Z.ltb_spec 1844674407370955161 (dec_val l)).
  { by zfalse (dec_val ((l ++ [b]) ++ k) <=? 18446744073709551615). }
  rewrite (u64_small (dec_val l * 10)) by width_lia.
  destruct (Z.ltb_spec (18446744073709551615 - digit_val b) (dec_val l * 10)).
  { by zfalse (dec_val ((l ++ [b]) ++ k) <=? 18446744073709551615). }
  rewrite u64_small by width_lia. apply IH. lia.
Qed.

Lemma s2ll_loop_inv v k w :
  s2ll_loop v k = Some (w, []) -> Forall (fun b => isdigit b = true) k.
Proof.
  revert v. induction k as [|b k IH]; intros v; [constructor|]. simpl.
  destruct (isdigit b) eqn:Eb; [|done].
  destruct (_ <? v); [done|]. destruct (_ <? u64 _); [done|]. eauto.
Qed.

Lemma s2ll_loop_numeral d p :
  isdigit d = true -> Forall (fun b => isdigit b = true) p ->
  s2ll_loop (digit_val d) p =
  if dec_val (d :: p) <=? ULLONG_MAX then Some (dec_val (d :: p), []) else None.
Proof.
  intros Hd Hp. pose proof (digit_val_range d Hd).
  assert (dec_val [d] = digit_val d) as E by (unfold dec_val; simpl; lia).
  rewrite <- E. apply (s2ll_loop_digits [d] p); [by repeat constructor|done|].
  rewrite E. width_lia.
Qed.

Lemma s64_neg v : 0 < v <= 9223372036854775808 -> s64 (u64 (- v)) = - v.
Proof.
  intros Hv. unfold uw. change (2 ^ 64) with 18446744073709551616.
  rewrite (Z.mod_eq (- v)) by lia.
  assert (- v / 18446744073709551616 = -1) as -> by (symmetry; apply Z.div_unique with (18446744073709551616 - v); lia).
  unfold sw. change (2 ^ 64) with 18446744073709551616. change (2 ^ (64 - 1)) with 9223372036854775808.
  destruct (Z.eq_dec v 9223372036854775808) as [->|]; [done|].
  replace (- v - 18446744073709551616 * -1 + 9223372036854775808)
    with (9223372036854775808 - v + 1 * 18446744073709551616) by lia.
  rewrite Z.mod_add, Z.mod_small by lia. lia.
Qed.

(** The digits after an optional minus sign. *)
Definition ll_of (neg : bool) (s : bytes) : option Z :=
  match s with
  | d :: p =>
      if in_range 49 57 d then
        match s2ll_loop (digit_val d) p with
        | Some (v, []) =>
            if neg then (if 9223372036854775808 <? v then None else Some (s64 (u64 (- v))))
            else (if LLONG_MAX <? v then None else Some v)
        | _ => None
        end
      else None
  | [] => None
  end.

Lemma string2ll_eq s :
  string2ll s =
  if bool_decide (s = [Byte.x30]) then Some 0
  else match s with
       | c :: p => if bool_decide (c = Byte.x2d) then ll_of true p else ll_of false s
       | [] => None
       end.
Proof.
  unfold string2ll. destruct s as [|c p]; [done|].
  case_bool_decide as E0; [done|].
  assert (forall neg t, (t = c :: p \/ t = p /\ c = Byte.x2d) ->
    (match t with
     | [] => None
     | d :: p0 =>
         if in_range 49 57 d then
           r ← s2ll_loop (digit_val d) p0;
           let '(v, rest) := r in
           if bool_decide (rest <> []) then None
           else if (neg : bool) then
             if 9223372036854775808 <? v then None else Some (s64 (u64 (- v)))
           else if LLONG_MAX <? v then None else Some v
         else if bool_decide (d = Byte.x30) && (zlen (c :: p) =? 1) then Some 0 else None
     end) = ll_of neg t) as Hg.
  { intros neg [|d q] Ht; [done|]. unfold ll_of. destruct (in_range 49 57 d).
    - destruct (s2ll_loop _ _) as [[v rest]|]; [|done]. simpl.
      destruct rest; case_bool_decide; naive_solver.
    - case_bool_decide as Ed; [|done].
      cbv iota. unfold andb. destruct (Z.eqb_spec (zlen (c :: p)) 1) as [E1|]; [|done].
      assert (p = []) as -> by (apply zlen_0_nil; zlia).
      destruct Ht as [[= -> ->]|[? ?]]; [by subst|done]. }
  case_bool_decide as Ec; [apply (Hg true p)|apply (Hg false (c :: p))]; naive_solver.
Qed.

(** A nonzero numeral, with its sign, is accepted when it fits. *)
Lemma ll_of_spec neg s v :
  ll_of neg s = Some v <->
  exists w, 0 < w /\ s = udec w /\ v = (if neg then - w else w) /\ LLONG_MIN <= v <= LLONG_MAX.
Proof.
  destruct s as [|d p]; simpl.
  { split; [done|]. intros (w & Hw & E & _). by destruct (udec_nonnil w ltac:(lia)). }
  assert (in_range 49 57 d = true -> isdigit d = true /\ d <> digit 0 /\
          dec_val [d] = digit_val d) as Hdig.
  { intros Hd%in_range_spec. split_and!; [apply in_range_spec; lia| |unfold dec_val; simpl; lia].
    intros ->. change (bZ (digit 0)) with 48 in Hd. lia. }
  split.
  - destruct (in_range 49 57 d) eqn:Ed; [|done]. destruct (Hdig eq_refl) as (Hd & Hd0 & Edv).
    destruct (s2ll_loop (digit_val d) p) as [[w [|]]|] eqn:El; [|done..].
    pose proof (s2ll_loop_inv _ _ _ El) as Hp. destruct (udec_dec_val d p Hd Hd0 Hp) as [Hpos E].
    rewrite (s2ll_loop_numeral d p) in El by done.
    destruct (Z.leb_spec (dec_val (d :: p)) ULLONG_MAX); [|done]. injection El as <-.
    intros Hv. exists (dec_val (d :: p)). split; [done|]. split; [by rewrite E|].
    destruct neg; [destruct (Z.ltb_spec 9223372036854775808 (dec_val (d :: p)))
                  |destruct (Z.ltb_spec LLONG_MAX (dec_val (d :: p)))]; simplify_eq.
    + rewrite s64_neg by lia. width_lia.
    + width_lia.
  - intros (w & Hw & E & Ev & Hr).
    pose proof (udec_digits w ltac:(lia)) as Hdd. pose proof (dec_val_udec w ltac:(lia)) as Hdv.
    destruct (udec_head w ltac:(lia)) as (c & l & Ec & Hc & Hc0). rewrite Ec in E.
    injection E as -> ->. rewrite Ec in Hdd, Hdv. inversion Hdd; subst.
    assert (in_range 49 57 (digit c) = true) as ->.
    { apply in_range_spec. unfold digit. rewrite bZ_Zb by lia.
      destruct (Z.eq_dec c 0) as [Ez|]; [destruct (Hc0 Ez)|]; lia. }
    rewrite s2ll_loop_numeral by done.
    widths. replace (dec_val (digit c :: l) <=? 18446744073709551615) with true
      by (destruct neg; lia).
    destruct neg.
    + zfalse (9223372036854775808 <? dec_val (digit c :: l)). by rewrite s64_neg by lia.
    + by zfalse (9223372036854775807 <? dec_val (digit c :: l)).
Qed.

(** [string2ll] accepts exactly the decimal representations of the 64-bit
    signed integers, and returns the integer represented. *)
Lemma string2ll_dec s v :
  string2ll s = Some v <-> s = dec v /\ LLONG_MIN <= v <= LLONG_MAX.
Proof.
  rewrite string2ll_eq. case_bool_decide as E0.
  { subst s. split; [intros [= <-]; split; [done|width_lia]|]. intros [E Hv].
    unfold dec in E. destruct (Z.ltb_spec v 0); [done|].
    f_equal. rewrite <- (dec_val_udec v), <- E by lia. done. }
  assert (forall (neg : bool) t, s = (if neg then Byte.x2d :: t else t) ->
    (neg = false -> t <> [] /\ head t <> Some Byte.x2d) ->
    ll_of neg t = Some v <-> s = dec v /\ LLONG_MIN <= v <= LLONG_MAX) as Hg.
  { intros neg t Hs Hneg. rewrite ll_of_spec. split.
    - intros (w & Hw & -> & -> & Hr). split; [|done]. rewrite Hs. unfold dec.
      destruct neg; zcases; try lia; [|done]. by rewrite Z.opp_involutive.
    - intros [E Hr]. rewrite E in Hs, E0. unfold dec in Hs, E0.
      destruct (Z.ltb_spec v 0), neg.
      + injection Hs as <-. exists (- v). split_and!; lia || done.
      + subst t. destruct (Hneg eq_refl). done.
      + pose proof (udec_digits v ltac:(lia)) as Hdd. rewrite Hs in Hdd.
        inversion Hdd; subst. done.
      + exists v. split_and!; try done; try lia.
        destruct (Z.eq_dec v 0) as [->|]; [done|lia]. }
  destruct s as [|c p].
  { split; [done|]. intros [E _]. unfold dec in E. destruct (Z.ltb_spec v 0); [done|].
    by destruct (udec_nonnil v ltac:(lia)). }
  case_bool_decide as Ec; [subst; by apply Hg|]. apply Hg; [done|]. intros _. split; simpl; congruence.
Qed.
