(* ===== verification/ReaderRefines.v ===== *)
(** * The reader implements the abstract parser

    [shows b r p] relates a reader to the parser over the bytes of its buffer
    [b] from [r_pos] on.  Every operation of the reader, run in related states,
    gives related results. *)

From Stdlib Require Import Strings.Byte String.
From S2P Require Import Prelude CLib Buffer Read Parser ReadLines.

Lemma zread_zdrop {A} (d : list A) pos n :
  0 <= pos <= zlen d -> 0 <= n <= zlen (zdrop pos d) ->
  zread d pos n = Some (ztake n (zdrop pos d)).
Proof.
  intros Hp Hn. rewrite zlen_zdrop in Hn by lia. unfold zread.
  ztrue (0 <=? pos). ztrue (0 <=? n). by ztrue (pos + n <=? zlen d).
Qed.

Section refines.
Context {al : Allocator} {dm : DataModel} {fl : FloatLib} {B : Type}.
Context {bb : ByteBuf B} {laws : ByteBufLaws al B} {H : Type}.
Variable fn : option (redisReplyObjectFunctions H).
Implicit Types (r : redisReader B) (p : parser) (b : B).

Record shows b r p : Prop := Shows {
  sh_err : r_err r = 0;
  sh_buf : r_buf r = BLive b;
  sh_ok : buf_ok b;
  sh_len : r_len r = zlen (buf_val b);
  sh_pos : 0 <= r_pos r <= r_len r;
  sh_max : r_len r <= INT_MAX;
  sh_rest : p_rest p = zdrop (r_pos r) (buf_val b);
  sh_stack : r_rstack r = p_stack p;
  sh_ridx : r_ridx r = p_ridx p;
  sh_reply : r_reply r = p_reply p;
  sh_priv : r_privdata r = p_priv p
}.

(** A reader in its error state. *)
Record dead r (code : Z) (msg : bytes) (reply : option optr) : Prop := Dead {
  de_code : code <> 0;
  de_err : r_err r = code;
  de_str : r_errstr r = take 127 (cstr msg);
  de_buf : r_buf r = BNull;
  de_len : r_len r = 0;
  de_ridx : r_ridx r = -1;
  de_reply : r_reply r = reply
}.

Definition shows_outcome b (s : Z) r (o : outcome) : Prop :=
  match o with
  | More q => s = REDIS_ERR /\ shows b r q
  | Done q => s = REDIS_OK /\ shows b r q
  | Bad c m reply => s = REDIS_ERR /\ dead r c m reply
  end.

(** Unless the specification faults, the reader does the same. *)
Definition simulates b (x : option (outcome * nat * H)) (y : option (Z * redisReader B * nat * H)) :
    Prop :=
  match x with
  | Some (o, a, h) => exists s r, y = Some (s, r, a, h) /\ shows_outcome b s r o
  | None => True
  end.

Lemma sim_bind {C} b (m : option C) (k : C -> option (outcome * nat * H))
    (k' : C -> option (Z * redisReader B * nat * H)) :
  (forall x, m = Some x -> simulates b (k x) (k' x)) -> simulates b (m ≫= k) (m ≫= k').
Proof. intros Hk. destruct m; simpl; [by apply Hk|done]. Qed.

Lemma sim_bind_eq {C} b (m m' : option C) (k : C -> option (outcome * nat * H))
    (k' : C -> option (Z * redisReader B * nat * H)) :
  m = m' -> (forall x, m = Some x -> simulates b (k x) (k' x)) ->
  simulates b (m ≫= k) (m' ≫= k').
Proof. intros <-. apply sim_bind. Qed.

Lemma sim_bad b r p code msg a h :
  code <> 0 -> r_buf r = BLive b -> r_reply r = p_reply p ->
  simulates b (bad fn p code msg a h) (fail_with (__redisReaderSetError fn r code msg h) a).
Proof.
  intros Hc Hb Hr. unfold bad, fail_with, __redisReaderSetError. rewrite Hr.
  destruct (free_reply fn (p_reply p) h) as [[f h']|]; simpl; [|done].
  unfold sdsfree_ptr. rewrite Hb. simpl. do 2 eexists. split; [done|]. by split.
Qed.

(** ** The task stack *)

Lemma next_task_loop_spec i fuel r n :
  r_ridx r = Z.of_nat i -> (i < fuel)%nat -> next_task i (r_rstack r) = Some n ->
  next_task_loop fuel r = Some (with_stack r n.1 n.2).
Proof.
  revert r fuel. induction i as [|i IH]; intros r [|fuel] Hi Hf; try lia; simpl; rewrite Hi.
  - by intros [= <-].
  - ztrue (0 <=? Z.of_nat (S i)). zfalse (Z.of_nat (S i) =? 0).
    assert (forall j, zget (r_rstack r) (Z.of_nat j) = r_rstack r !! j) as Hz.
    { intros j. unfold zget. ztrue (0 <=? Z.of_nat j). by rewrite Nat2Z.id. }
    replace (Z.of_nat (S i) - 1) with (Z.of_nat i) by lia. rewrite !Hz.
    destruct (r_rstack r !! S i) as [cur|]; [|done].
    destruct (r_rstack r !! i) as [prv|]; [|done]. simpl.
    destruct (negb _); [done|]. destruct (_ =? _).
    + intros Hn. rewrite (IH (with_ridx r (Z.of_nat i))) by (done || lia). done.
    + destruct (negb _); [done|]. intros [= <-]. unfold with_task. rewrite Hi.
      by rewrite Nat2Z.id.
Qed.

Lemma sim_finish b r p rest obj pos a h :
  shows b (with_pos r pos) (p_with_rest p rest) -> 0 <= r_ridx r ->
  simulates b (finish fn p rest obj a h) (item_done fn r obj pos a h).
Proof.
  intros [] Hi. simpl in *. unfold finish, item_done. destruct obj as [o|].
  2: { by apply sim_bad. }
  destruct (next_task _ _) as [n|] eqn:En; simpl; [|done].
  set (r' := if r_ridx r =? 0 then _ else _).
  assert (r_ridx r' = r_ridx r /\ r_rstack r' = r_rstack r) as [Hri Hrs].
  { unfold r'. by destruct (r_ridx r =? 0). }
  unfold moveToNextTask. rewrite (next_task_loop_spec (Z.to_nat (p_ridx p)) _ _ n).
  2-4: rewrite ?Hri, ?Hrs; try lia; congruence.
  simpl. do 2 eexists. split; [done|]. split; [done|].
  unfold set_root. rewrite <- sh_ridx0.
  destruct (r_ridx r =? 0) eqn:E; subst r'; by split.
Qed.

(** The end of an aggregate without elements. *)
Definition aggregate_done r (obj : option optr) (a : nat) (h : H) :
    option (Z * redisReader B * nat * H) :=
  match obj with
  | None => fail_with (__redisReaderSetErrorOOM fn r h) a
  | Some _ =>
      r' ← moveToNextTask r;
      Some (REDIS_OK, if r_ridx r =? 0 then with_reply r' obj else r', a, h)
  end.

Lemma sim_finish_aggregate b r p rest obj a h :
  shows b r (p_with_rest p rest) -> 0 <= r_ridx r ->
  simulates b (finish fn p rest obj a h) (aggregate_done r obj a h).
Proof.
  intros [] Hi. simpl in *. unfold finish, aggregate_done. destruct obj as [o|].
  2: { by apply sim_bad. }
  destruct (next_task _ _) as [n|] eqn:En; simpl; [|done].
  unfold moveToNextTask. rewrite (next_task_loop_spec (Z.to_nat (p_ridx p)) _ _ n)
    by (lia || congruence).
  simpl. do 2 eexists. split; [done|]. split; [done|].
  unfold set_root. rewrite <- sh_ridx0. by destruct (r_ridx r =? 0); split.
Qed.

(** ** Lines *)

Lemma seek_rest b r p :
  shows b r p ->
  rdata r = Some (buf_val b) /\
  seekNewline (zdrop (r_pos r) (buf_val b)) (u64 (r_len r - r_pos r))
    = Some (zlen <$> (fst <$> split_line (p_rest p))).
Proof.
  intros []. split; [unfold rdata; by rewrite sh_buf0|].
  replace (r_len r - r_pos r) with (zlen (p_rest p)) by (rewrite sh_rest0, zlen_zdrop; lia).
  rewrite <- sh_rest0. apply seekNewline_spec. rewrite sh_rest0, zlen_zdrop; lia.
Qed.

(** A bulk length of at least [-1] is compared with the bytes in the buffer
    without error, wrap-around included. *)
Lemma bulk_bytelen pos n len max :
  0 <= pos -> 0 <= n -> 0 <= len <= LLONG_MAX -> pos + n + 2 <= max <= INT_MAX ->
  (u64 (pos + u64 (n + 2 + s64 (len + 2))) <=? max) = (pos + n + 4 + len <=? max) /\
  (pos + n + 4 + len <= max -> u64 (pos + u64 (n + 2 + s64 (len + 2))) = pos + n + 4 + len).
Proof.
  intros Hp Hn Hl Hm.
  assert (u64 (n + 2 + s64 (len + 2)) = n + 4 + len) as E.
  { unfold uw, sw. change (2 ^ 64) with 18446744073709551616.
    change (2 ^ (64 - 1)) with 9223372036854775808. widths.
    destruct (Z.le_gt_cases (len + 2) 9223372036854775807).
    - rewrite (Z.mod_small (len + 2 + _)) by lia. rewrite Z.mod_small; lia.
    - replace (len + 2 + 9223372036854775808)
        with (len + 2 - 9223372036854775808 + 1 * 18446744073709551616) by lia.
      rewrite Z.mod_add, (Z.mod_small (len + 2 - _)) by lia.
      replace (n + 2 + _) with (n + 4 + len + (-1) * 18446744073709551616) by lia.
      rewrite Z.mod_add, Z.mod_small; lia. }
  rewrite E. unwrap. split; [f_equal|]; lia.
Qed.

(** The line [s] at the position of [r], and what follows it. *)
Lemma line_in_buffer b r p s rest :
  shows b r p -> split_line (p_rest p) = Some (s, rest) ->
  r_pos r + zlen s + 2 + zlen rest = r_len r /\
  zread (buf_val b) (r_pos r) (zlen s) = Some s /\
  zget (buf_val b) (r_pos r) = Some (hd CR s) /\
  zdrop (r_pos r + zlen s + 2) (buf_val b) = rest.
Proof.
  intros [] E%split_line_eq. rewrite sh_rest0 in E.
  assert (zlen (zdrop (r_pos r) (buf_val b)) = r_len r - r_pos r) as Hl
    by (rewrite zlen_zdrop; lia).
  rewrite E in Hl. unfold crlf in *. split_and!.
  - zlia.
  - rewrite zread_zdrop; rewrite ?E; [by rewrite ztake_app_len|lia|zlia].
  - replace (r_pos r) with (r_pos r + 0) by lia. rewrite <- zget_zdrop, E by lia.
    destruct s; reflexivity.
  - rewrite <- Z.add_assoc, Z.add_comm, <- zdrop_zdrop, E by zlia.
    rewrite zdrop_app_r by zlia. by replace (zlen s + 2 - zlen s) with 2 by lia.
Qed.

(** Moving the position past a part of the rest. *)
Lemma shows_pos b r p pos rest :
  shows b r p -> r_pos r <= pos <= r_len r -> zdrop pos (buf_val b) = rest ->
  shows b (with_pos r pos) (p_with_rest p rest).
Proof. intros [] ? <-. split; simpl; try done; lia. Qed.

Lemma line_object_spec b r p s rest cur a h :
  shows b r p -> split_line (p_rest p) = Some (s, rest) ->
  line_object fn r cur (r_pos r) (zlen s) (buf_val b) a h =
  line_reply fn (p_stack p) (Z.to_nat (p_ridx p)) (t_type cur) s a h.
Proof.
  intros Hs Es. destruct (line_in_buffer _ _ _ _ _ Hs Es) as (Hl & Hr & Hg & _).
  pose proof (zlen_nonneg rest). pose proof (zlen_nonneg s). destruct Hs.
  unfold line_object, line_reply, mk_nil, mk_string. rewrite Hr, Hg, sh_stack0, sh_ridx0. simpl.
  destruct (Z.eqb_spec (t_type cur) REDIS_REPLY_INTEGER) as [->|];
    [by destruct (fn ≫= createInteger)|].
  destruct (Z.eqb_spec (t_type cur) REDIS_REPLY_DOUBLE) as [->|].
  { rewrite u64_small by width_lia. by destruct (fn ≫= createDouble). }
  destruct (t_type cur =? REDIS_REPLY_NIL); [by destruct fn as [f|]; [simpl; destruct (createNil f)|]|].
  destruct (Z.eqb_spec (t_type cur) REDIS_REPLY_BOOL) as [->|];
    [|by destruct fn as [f|]; [simpl; destruct (createString f)|]].
  destruct fn as [f|]; [|done]. simpl. destruct (createBool f); [|done].
  destruct s as [|c s]; [done|]. simpl.
  all: destruct (bool_decide (c = Byte.x74)); destruct (bool_decide (c = Byte.x54)); done.
Qed.

(** The line at the position of the reader, read. *)
Lemma readLine_spec b r p :
  shows b r p ->
  readLine r = Some (match split_line (p_rest p) with
                     | Some (s, _) => (Some (r_pos r, zlen s),
                                       with_pos r (r_pos r + (zlen s + 2)))
                     | None => (None, r)
                     end).
Proof.
  intros Hs. destruct (seek_rest _ _ _ Hs) as [Ed Es]. unfold readLine. rewrite Ed. simpl.
  rewrite Es. simpl. destruct (split_line _) as [[s rest]|] eqn:E; simpl; [|done].
  destruct (line_in_buffer _ _ _ _ _ Hs E) as (Hl & _). destruct Hs.
  pose proof (zlen_nonneg rest). pose proof (zlen_nonneg s). by unwrap.
Qed.

Lemma sim_line b r p cur a h :
  shows b r p -> zget (p_stack p) (p_ridx p) = Some cur ->
  simulates b (line_item fn p (t_type cur) a h) (processLineItem fn r a h).
Proof.
  intros Hs Hc. pose proof (zget_Some _ _ _ Hc) as Hi. unfold line_item, processLineItem.
  rewrite (sh_stack _ _ _ Hs), (sh_ridx _ _ _ Hs), Hc. simpl.
  rewrite (proj1 (seek_rest _ _ _ Hs)). simpl. rewrite (readLine_spec _ _ _ Hs). simpl.
  destruct (split_line (p_rest p)) as [[s rest]|] eqn:E; [|by do 2 eexists].
  destruct (line_in_buffer _ _ _ _ _ Hs E) as (Hl & Hr & Hg & Hd).
  pose proof (zlen_nonneg rest). pose proof (zlen_nonneg s).
  change (line_object fn (with_pos r (r_pos r + (zlen s + 2)))) with (line_object fn r).
  rewrite (line_object_spec _ _ _ _ _ _ _ _ Hs E).
  apply sim_bind. intros [[[obj a'] h']|msg] _; [|by apply sim_bad; [|apply Hs..]].
  apply sim_finish; [|simpl; rewrite (sh_ridx _ _ _ Hs); lia].
  apply (shows_pos b r p); [done|simpl; lia|]. simpl. by rewrite Z.add_assoc.
Qed.

(** The payload of a bulk item, read from the buffer. *)
Lemma read_string b pos len rest st i a h :
  0 <= pos <= zlen (buf_val b) -> zdrop pos (buf_val b) = rest -> 0 <= len <= zlen rest ->
  match fn ≫= createString with
  | Some create => str ← zread (buf_val b) pos len; create st i str a h
  | None => Some (Some (OTag REDIS_REPLY_STRING), a, h)
  end = mk_string fn st i REDIS_REPLY_STRING (ztake len rest) a h.
Proof.
  intros Hp <- Hl. rewrite zread_zdrop by lia. unfold mk_string.
  destruct fn as [f|]; [simpl; destruct (createString f)|]; done.
Qed.

Lemma sim_bulk b r p cur a h :
  LP64 -> shows b r p -> zget (p_stack p) (p_ridx p) = Some cur ->
  simulates b (bulk_item fn p a h) (processBulkItem fn r a h).
Proof.
  intros Hlp Hs Hc. pose proof (zget_Some _ _ _ Hc) as Hi. unfold bulk_item, processBulkItem.
  pose proof (sh_ridx _ _ _ Hs) as Hri. destruct (seek_rest _ _ _ Hs) as [Hd Es].
  rewrite (sh_stack _ _ _ Hs), Hri, Hc. simpl. rewrite Hd. simpl. rewrite Es. simpl.
  destruct (split_line (p_rest p)) as [[s rest]|] eqn:E; simpl; [|by do 2 eexists].
  destruct (line_in_buffer _ _ _ _ _ Hs E) as (Hl & Hr & Hg & Hrest).
  pose proof (zlen_nonneg rest). pose proof (zlen_nonneg s).
  pose proof (sh_pos _ _ _ Hs). pose proof (sh_max _ _ _ Hs) as Hmax.
  rewrite Hlp. unwrap. replace (zlen s + 2 - 2) with (zlen s) by lia.
  rewrite Hr. simpl. destruct (string2ll s) as [len|] eqn:El; [|by apply sim_bad; [|apply Hs..]].
  apply string2ll_dec in El as [_ Hlen].
  destruct (Z.ltb_spec len (-1)); [by apply sim_bad; [|apply Hs..]|].
  unfold mk_nil. destruct (Z.eqb_spec len (-1)).
  { apply sim_bind. intros [[obj a'] h'] _. apply sim_finish; [|lia].
    apply (shows_pos b r p); [done|lia|]. by rewrite Z.add_assoc. }
  destruct (bulk_bytelen (r_pos r) (zlen s) len (r_len r)) as [-> Hbl]; [lia..|].
  replace (len + 2 <=? zlen rest) with (r_pos r + zlen s + 4 + len <=? r_len r)
    by (rewrite <- Hl; zcases; lia).
  destruct (Z.leb_spec (r_pos r + zlen s + 4 + len) (r_len r)); [|by do 2 eexists].
  rewrite Hbl by lia. pose proof (sh_len _ _ _ Hs).
  apply sim_bind_eq; [symmetry; apply read_string; done || lia|].
  intros [[obj a'] h'] _. apply sim_finish; [|lia].
  apply (shows_pos b r p); [done|lia|].
  replace (r_pos r + zlen s + 4 + len) with (len + 2 + (r_pos r + zlen s + 2)) by lia.
  by rewrite <- zdrop_zdrop, Hrest by lia.
Qed.

Lemma sim_aggregate b r p cur a h :
  shows b r p -> zget (p_stack p) (p_ridx p) = Some cur ->
  simulates b (aggregate_item fn p cur a h) (processAggregateItem fn r a h).
Proof.
  intros Hs Hc. pose proof (zget_Some _ _ _ Hc) as Hi.
  unfold aggregate_item, processAggregateItem.
  pose proof (sh_ridx _ _ _ Hs) as Hri. rewrite (sh_stack _ _ _ Hs), Hri, Hc. simpl.
  rewrite (proj1 (seek_rest _ _ _ Hs)). simpl.
  destruct (p_ridx p =? 8); [by apply sim_bad; [|apply Hs..]|].
  rewrite (readLine_spec _ _ _ Hs). simpl.
  destruct (split_line (p_rest p)) as [[s rest]|] eqn:E; [|by do 2 eexists].
  destruct (line_in_buffer _ _ _ _ _ Hs E) as (Hl & Hr & Hg & Hd).
  pose proof (zlen_nonneg rest). pose proof (zlen_nonneg s).
  assert (shows b (with_pos r (r_pos r + (zlen s + 2))) (p_with_rest p rest)) as Hs'.
  { apply (shows_pos b r p); [done|lia|]. by rewrite Z.add_assoc. }
  rewrite Hr. simpl. destruct (string2ll s) as [n|] eqn:En; [|by apply sim_bad; [|apply Hs..]].
  destruct (Z.ltb_spec n (-1)); [by apply sim_bad; [|apply Hs..]|].
  rewrite Hri, (sh_stack _ _ _ Hs).
  assert (forall obj a' h', simulates b (finish fn p rest obj a' h')
            (aggregate_done (with_pos r (r_pos r + (zlen s + 2))) obj a' h')) as Hf
    by (intros; apply sim_finish_aggregate; [done|simpl; lia]).
  destruct (n =? -1).
  { unfold mk_nil. apply sim_bind_eq; [by destruct fn as [f|]; [simpl; destruct (createNil f)|]|].
    intros [[obj a'] h'] _. specialize (Hf obj a' h'). rewrite <- Hri. by destruct obj. }
  unfold mk_array, container_elements.
  apply sim_bind_eq; [by destruct fn as [f|]; [simpl; destruct (createArray f)|]|].
  intros [[obj a'] h'] _. set (elements := if _ =? REDIS_REPLY_MAP then _ else _).
  specialize (Hf obj a' h').
  destruct obj as [o|]; [|exact Hf]. rewrite bool_decide_false by done. simpl orb.
  destruct (0 <? elements) eqn:Ee; simpl negb; cbv iota.
  2: { rewrite <- Hri. exact Hf. }
  do 2 eexists. split; [done|]. split; [done|].
  unfold set_root. destruct Hs'; simpl in *.
  destruct (p_ridx p =? 0); split; try done; simpl; try lia.
  all: unfold open_task; by rewrite sh_stack0, sh_ridx0, sh_priv0.
Qed.

(** ** Items *)

Lemma sim_typed b r p cur a h :
  LP64 -> shows b r p -> zget (p_stack p) (p_ridx p) = Some cur ->
  simulates b (typed_item fn p cur a h) (process_typed fn r (t_type cur) a h).
Proof.
  intros Hlp Hs Hc. unfold typed_item, process_typed.
  fold (is_line (t_type cur)). destruct (is_line _); [by apply sim_line|].
  destruct (_ =? _); [by eapply sim_bulk|].
  destruct (is_aggregate _); [by apply sim_aggregate|done].
Qed.

Lemma sim_item b r p a h :
  LP64 -> shows b r p -> simulates b (item fn p a h) (processItem fn r a h).
Proof.
  intros Hlp Hs. unfold item, processItem.
  rewrite (sh_stack _ _ _ Hs), (sh_ridx _ _ _ Hs).
  destruct (zget (p_stack p) (p_ridx p)) as [cur|] eqn:Hc; [|done]. simpl.
  destruct (t_type cur <? 0); [|by apply sim_typed].
  pose proof Hs as Hs0. unfold readBytes. destruct Hs.
  assert (zlen (p_rest p) = r_len r - r_pos r) as Hl by (rewrite sh_rest0, zlen_zdrop; lia).
  rewrite u64_small by width_lia. rewrite <- Hl.
  destruct (p_rest p) as [|c rest] eqn:Er; [by do 2 eexists|].
  rewrite zlen_cons in Hl |- *. pose proof (zlen_nonneg rest).
  ztrue (1 <=? 1 + zlen rest). rewrite u64_small by width_lia.
  unfold rdata. simpl. rewrite sh_buf0. simpl.
  assert (zget (buf_val b) (r_pos r) = Some c /\ zdrop (r_pos r + 1) (buf_val b) = rest)
    as [Hg Hrest].
  { split.
    - replace (r_pos r) with (r_pos r + 0) by lia. by rewrite <- zget_zdrop, <- sh_rest0 by lia.
    - rewrite Z.add_comm, <- zdrop_zdrop, <- sh_rest0 by lia. done. }
  rewrite Hg. simpl. destruct (reply_type c) as [ty|] eqn:Ety; [|by apply sim_bad].
  apply (sim_typed b _ (typed p rest (task_type cur ty)) (task_type cur ty)); [done| |].
  - split; simpl; try done; try lia. by rewrite sh_stack0, sh_ridx0.
  - by eapply zget_insert.
Qed.

(** What [process_loop] returns. *)
Lemma sim_loop b fuel r p a h :
  LP64 -> shows b r p -> -1 <= p_ridx p ->
  match run fn fuel p a h with
  | None => True
  | Some (o, a', h') =>
      exists r', process_loop fn fuel r a h = Some (r', a', h') /\
        match o with
        | More q => shows b r' q /\ 0 <= p_ridx q
        | Done q => shows b r' q /\ p_ridx q = -1
        | Bad c m reply => dead r' c m reply
        end
  end.
Proof.
  intros Hlp. revert r p a h. induction fuel as [|fuel IH]; intros r p a h Hs Hi; [done|].
  simpl. rewrite (sh_ridx _ _ _ Hs). destruct (Z.ltb_spec (p_ridx p) 0).
  { zfalse (0 <=? p_ridx p). eexists. split; [done|]. split; [done|lia]. }
  ztrue (0 <=? p_ridx p). pose proof (sim_item b r p a h Hlp Hs) as Hsim.
  destruct (item fn p a h) as [[[o a'] h']|] eqn:E; [|done].
  destruct Hsim as (s & r' & Ep & Ho). rewrite Ep. simpl.
  destruct o as [q|c m reply|q]; destruct Ho as [-> Ho]; simpl.
  - eexists. split; [done|]. split; [done|]. by rewrite (item_more_ridx _ _ _ _ _ _ _ E).
  - by eexists.
  - apply IH; [done|]. eapply item_done_ridx; done || lia.
Qed.

End refines.
