(* ===== verification/Replies.v ===== *)
(** * Streams of replies, at the level of the abstract parser

    After a reply the parser starts again on what is left of the input;
    [replies] is the list of replies an input gives.  It does not depend on
    how the input is cut, nor (for object functions that do not look at the
    allocation counter) on the allocations made in between. *)

From Stdlib Require Import Strings.Byte String.
From S2P Require Import Prelude CLib Buffer Read Parser.

(** The task of a root reply. *)
Definition root_task (priv : Z) : redisReadTask := Task (-1) (-1) (-1) None None priv.

(** A parser between two replies, set to read the next one. *)
Definition start (p : parser) : parser :=
  Parser (p_rest p) (<[0%nat := root_task (p_priv p)]> (p_stack p)) 0 (p_reply p) (p_priv p).

(** The caller has taken the reply. *)
Definition p_clear (p : parser) : parser :=
  Parser (p_rest p) (p_stack p) (p_ridx p) None (p_priv p).

Section replies.
Context {fl : FloatLib} {H : Type}.
Variable fn : option (redisReplyObjectFunctions H).
Implicit Types (p q : parser) (h : H).

(** The replies of an input: each with the object found in the reply field;
    the outcome that ends the list is [More] or [Bad]. *)
Fixpoint replies_loop (fuel : nat) p a h : option (list (option optr) * outcome * nat * H) :=
  match fuel with
  | O => None
  | S f =>
      o ← parse fn p a h;
      match o with
      | (Done q, a, h) =>
          r ← replies_loop f (start (p_clear q)) a h;
          let '(l, o, a, h) := r in Some (p_reply q :: l, o, a, h)
      | (o, a, h) => Some ([], o, a, h)
      end
  end.

Definition replies p a h : option (list (option optr) * outcome * nat * H) :=
  replies_loop (S (length (p_rest p))) p a h.

(** A parser that waits for input: with none it does nothing. *)
Definition settled p : Prop :=
  forall a h x, item fn (p_with_rest p []) a h = Some x -> x = (More (p_with_rest p []), a, h).

(** The root reply is set while an inner task is read. *)
Definition rooted p : Prop := -1 <= p_ridx p /\ (p_ridx p = 0 \/ p_reply p <> None).

(** ** Settled parsers *)

Lemma typed_settled q cur a h q' a' h' :
  typed_item fn q cur a h = Some (More q', a', h') ->
  forall a h x, typed_item fn (p_with_rest q []) cur a h = Some x ->
           x = (More (p_with_rest q []), a, h).
Proof.
  unfold typed_item, line_item, bulk_item, aggregate_item. simpl.
  destruct (is_line _); [naive_solver|]. destruct (_ =? _); [naive_solver|].
  destruct (is_aggregate _); [|done]. destruct (p_ridx q =? 8); [|naive_solver].
  by intros (? & ? & ?)%bad_inv.
Qed.

Lemma item_settled p a h q a' h' :
  item fn p a h = Some (More q, a', h') -> settled q.
Proof.
  unfold item at 1. destruct (zget _ _) as [cur|] eqn:Hc; [|done]. simpl.
  assert (forall q0 c, zget (p_stack q0) (p_ridx q0) = Some c -> (0 <= t_type c) ->
    typed_item fn q0 c a h = Some (More q, a', h') -> settled q) as Ht.
  { intros q0 c Hq Hty E. pose proof (typed_item_ok fn q0 c a h []) as [Hf _].
    specialize (Hf _ E). unfold final in Hf; simpl in Hf. injection Hf as -> -> ->.
    intros a1 h1 x. unfold item. simpl. rewrite Hq. simpl. zfalse (t_type c <? 0).
    by eapply typed_settled. }
  destruct (Z.ltb_spec (t_type cur) 0); [|by apply Ht].
  destruct (p_rest p) as [|b rest] eqn:Er.
  - intros [= <- <- <-] a1 h1 x. unfold item. simpl. rewrite Hc. simpl.
    ztrue (t_type cur <? 0). naive_solver.
  - destruct (reply_type b) as [ty|] eqn:Ety; [|by intros (? & ? & ?)%bad_inv].
    pose proof (reply_type_nonneg _ _ Ety). apply Ht; [by eapply zget_insert|simpl; lia].
Qed.

Lemma start_settled p : settled (start p).
Proof.
  intros a h x. unfold item. simpl. unfold zget. simpl.
  destruct (p_stack p) as [|t st]; [done|]. simpl. naive_solver.
Qed.

Lemma run_settled fuel p a h q a' h' :
  run fn fuel p a h = Some (More q, a', h') -> settled q.
Proof.
  revert p a h. induction fuel as [|fuel IH]; intros p a h; [done|]. simpl.
  destruct (p_ridx p <? 0); [done|].
  destruct (item fn p a h) as [[[[q'|c m r|q'] a1] h1]|] eqn:E; simpl; [|done| |done].
  - intros [= -> -> ->]. by eapply item_settled.
  - apply IH.
Qed.

(** ** The root reply *)

Lemma finish_rooted p rest obj a h q a' h' :
  finish fn p rest obj a h = Some (Done q, a', h') -> 0 <= p_ridx p -> rooted p -> rooted q.
Proof.
  unfold finish. destruct obj as [o|]; [|by intros (? & ? & ?)%bad_inv].
  intros E Hi [_ Hr]. apply bind_Some in E as (n & En & [= <- <- <-]).
  apply next_task_bound in En. unfold rooted, set_root. simpl. split; [lia|]. right.
  destruct (Z.eqb_spec (p_ridx p) 0); [done|]. by destruct Hr.
Qed.

Lemma typed_rooted p cur a h q a' h' :
  typed_item fn p cur a h = Some (Done q, a', h') -> 0 <= p_ridx p -> rooted p -> rooted q.
Proof.
  intros E Hi Hr. revert E. unfold typed_item, line_item, bulk_item, aggregate_item.
  destruct (is_line _); [|destruct (_ =? _); [|destruct (is_aggregate _); [|done]]].
  - destruct (split_line _) as [[s rest]|]; [|done]. intros E.
    apply bind_Some in E as ([[[obj a1] h1]|msg] & _ & E); [by eapply finish_rooted|].
    by apply bad_inv in E as (? & ? & ?).
  - destruct (split_line _) as [[s rest]|]; [|done].
    destruct (string2ll s) as [len|]; [|by intros (? & ? & ?)%bad_inv].
    destruct (len <? -1); [by intros (? & ? & ?)%bad_inv|].
    destruct (len =? -1); [|destruct (_ <=? _); [|done]];
      intros (([obj a1] & h1) & _ & E)%bind_Some; by eapply finish_rooted.
  - destruct (p_ridx p =? 8); [by intros (? & ? & ?)%bad_inv|].
    destruct (split_line _) as [[s rest]|]; [|done].
    destruct (string2ll s) as [n|]; [|by intros (? & ? & ?)%bad_inv].
    destruct (n <? -1); [by intros (? & ? & ?)%bad_inv|].
    destruct (n =? -1).
    { intros (([obj a1] & h1) & _ & E)%bind_Some. by eapply finish_rooted. }
    intros (([obj a1] & h1) & _ & E)%bind_Some.
    destruct (bool_decide (obj = None) || _) eqn:Eo; [by eapply finish_rooted|].
    injection E as <- <- <-. apply orb_false_iff in Eo as [Eo%bool_decide_eq_false _].
    unfold rooted, set_root. simpl. split; [lia|]. right.
    destruct (Z.eqb_spec (p_ridx p) 0); [done|]. by destruct Hr as [_ []].
Qed.

Lemma item_rooted p a h q a' h' :
  item fn p a h = Some (Done q, a', h') -> 0 <= p_ridx p -> rooted p -> rooted q.
Proof.
  unfold item. destruct (zget _ _) as [cur|] eqn:Hc; [|done]. simpl.
  destruct (t_type cur <? 0); [|by apply typed_rooted].
  destruct (p_rest p) as [|b rest]; [done|].
  destruct (reply_type b); [|by intros (? & ? & ?)%bad_inv].
  intros E Hi Hr. by eapply typed_rooted.
Qed.

(** A complete parse is over and leaves an object. *)
Lemma run_rooted fuel p a h o a' h' :
  run fn fuel p a h = Some (o, a', h') -> rooted p ->
  match o with
  | Done q => p_reply q <> None /\ p_ridx q = -1
  | More q => rooted q /\ 0 <= p_ridx q
  | Bad _ _ _ => True
  end.
Proof.
  revert p a h. induction fuel as [|fuel IH]; intros p a h; [done|]. simpl.
  destruct (Z.ltb_spec (p_ridx p) 0) as [Hl|Hl].
  - intros [= <- <- <-] [Hi [Hr|Hr]]; [lia|]. split; [done|lia].
  - destruct (item fn p a h) as [[[[q'|c m r|q'] a1] h1]|] eqn:E; simpl; [| | |done].
    + intros [= <- <- <-] Hr. apply item_final in E as (_ & _ & Eq & Er).
      unfold rooted in *. rewrite Eq, Er. done.
    + by intros [= <- <- <-].
    + intros Ho Hr. eapply IH; [done|]. by eapply item_rooted.
Qed.

Lemma run_final fuel p a h o a' h' :
  run fn fuel p a h = Some (o, a', h') ->
  match o with
  | More q => 0 <= p_ridx q
  | Done q => (length (p_rest q) <= length (p_rest p))%nat /\
              (0 <= p_ridx p -> (length (p_rest q) < length (p_rest p))%nat)
  | Bad _ _ _ => True
  end.
Proof.
  revert p a h. induction fuel as [|fuel IH]; intros p a h; [done|]. simpl.
  destruct (Z.ltb_spec (p_ridx p) 0) as [Hl|Hl].
  - intros [= <- <- <-]. lia.
  - destruct (item fn p a h) as [[[[q'|c m r|q'] a1] h1]|] eqn:E; simpl; [| | |done].
    + intros [= <- <- <-]. by rewrite (item_more_ridx _ _ _ _ _ _ _ E).
    + by intros [= <- <- <-].
    + intros Ho%IH. apply item_consumes in E. destruct o; [done|done|lia].
Qed.

(** ** Lists of replies *)

Lemma replies_loop_fuel f g p a h :
  0 <= p_ridx p -> (length (p_rest p) < f)%nat -> (length (p_rest p) < g)%nat ->
  replies_loop f p a h = replies_loop g p a h.
Proof.
  revert g p a h. induction f as [|f IH]; intros g p a h Hi Hf Hg; [lia|].
  destruct g as [|g]; [lia|]. simpl.
  destruct (parse fn p a h) as [[[[q|c m r|q] a'] h']|] eqn:E; simpl; [done..| |done].
  apply run_final in E as [_ E]. specialize (E Hi). rewrite (IH g); [done|simpl; lia..].
Qed.

Lemma replies_eq p a h :
  0 <= p_ridx p ->
  replies p a h =
  (o ← parse fn p a h;
   match o with
   | (Done q, a, h) =>
       r ← replies (start (p_clear q)) a h;
       let '(l, o, a, h) := r in Some (p_reply q :: l, o, a, h)
   | (o, a, h) => Some ([], o, a, h)
   end).
Proof.
  intros Hi. unfold replies at 1. simpl.
  destruct (parse fn p a h) as [[[[q|c m r|q] a'] h']|] eqn:E; simpl; [done..| |done].
  apply run_final in E as [_ E]. specialize (E Hi).
  unfold replies. rewrite (replies_loop_fuel _ (S (length (p_rest (start (p_clear q)))))); [done|simpl; lia..].
Qed.

(** The replies of an input that arrives in two pieces. *)
Lemma replies_feed p e a h :
  0 <= p_ridx p ->
  replies (p_feed p e) a h =
  (r ← replies p a h;
   match r with
   | (l, More q, a, h) =>
       r' ← replies (p_feed q e) a h;
       let '(l', o, a, h) := r' in Some (l ++ l', o, a, h)
   | (l, o, a, h) => Some (l, o, a, h)
   end).
Proof.
  remember (length (p_rest p)) as n eqn:En. revert p a h En.
  induction n as [n IH] using lt_wf_ind. intros p a h -> Hi.
  rewrite (replies_eq p), (replies_eq (p_feed p e)), parse_feed by done.
  destruct (parse fn p a h) as [[[[q|c m r|q] a'] h']|] eqn:E; simpl; [| | |done].
  - rewrite (replies_eq (p_feed q e)) by (eapply (run_final _ _ _ _ _ _ _ E)).
    destruct (parse fn (p_feed q e) a' h') as [[[[q'|c m r|q'] a1] h1]|]; simpl; try done.
    by destruct (replies _ _ _) as [[[[l o] a2] h2]|].
  - done.
  - apply run_final in E as [_ E]. specialize (E Hi).
    change (start (p_clear (p_feed q e))) with (p_feed (start (p_clear q)) e).
    rewrite (IH (length (p_rest q))) by (done || simpl; lia).
    destruct (replies _ _ _) as [[[[l o] a2] h2]|]; [|done]. simpl.
    destruct o as [q'|c m r|q']; [|done..]. simpl.
    by destruct (replies _ _ _) as [[[[l' o'] a3] h3]|].
Qed.

(** ** The allocation counter *)

(** A result without its counter. *)
Definition erase {A} (m : option (A * nat * H)) : option (A * H) :=
  (fun '(x, _, h) => (x, h)) <$> m.

(** The object functions give the same objects whatever has been allocated. *)
Class CounterFree : Prop := {
  cf_string : forall f, fn ≫= createString = Some f ->
    forall st i s a b h, erase (f st i s a h) = erase (f st i s b h);
  cf_array : forall f, fn ≫= createArray = Some f ->
    forall st i n a b h, erase (f st i n a h) = erase (f st i n b h);
  cf_integer : forall f, fn ≫= createInteger = Some f ->
    forall st i v a b h, erase (f st i v a h) = erase (f st i v b h);
  cf_double : forall f, fn ≫= createDouble = Some f ->
    forall st i v s a b h, erase (f st i v s a h) = erase (f st i v s b h);
  cf_nil : forall f, fn ≫= createNil = Some f ->
    forall st i a b h, erase (f st i a h) = erase (f st i b h);
  cf_bool : forall f, fn ≫= createBool = Some f ->
    forall st i v a b h, erase (f st i v a h) = erase (f st i v b h)
}.

Context {cf : CounterFree}.

(** [x] and [y] differ in the counter only. *)
Definition same {A} (x y : option (A * nat * H)) : Prop := erase x = erase y.

Lemma same_bind {A C} (x y : option (A * nat * H)) (k : A * nat * H -> option (C * nat * H)) :
  same x y -> (forall v a b h, same (k (v, a, h)) (k (v, b, h))) -> same (x ≫= k) (y ≫= k).
Proof.
  unfold same, erase. intros Hxy Hk.
  destruct x as [[[v a] h]|], y as [[[w b] h']|]; simpl in *; simplify_eq; [apply Hk|done].
Qed.

Lemma same_bad p c m a b h : same (bad fn p c m a h) (bad fn p c m b h).
Proof. unfold bad. by destruct (free_reply _ _ _). Qed.

Lemma same_finish p rest obj a b h :
  same (finish fn p rest obj a h) (finish fn p rest obj b h).
Proof.
  unfold finish. destruct obj; [|apply same_bad]. by destruct (next_task _ _).
Qed.

Lemma same_nil st i a b h : same (mk_nil fn st i a h) (mk_nil fn st i b h).
Proof. unfold mk_nil. destruct (fn ≫= createNil) eqn:E; [by eapply cf_nil|done]. Qed.

Lemma same_string st i ty s a b h :
  same (mk_string fn st i ty s a h) (mk_string fn st i ty s b h).
Proof. unfold mk_string. destruct (fn ≫= createString) eqn:E; [by eapply cf_string|done]. Qed.

Lemma same_array st i ty n a b h :
  same (mk_array fn st i ty n a h) (mk_array fn st i ty n b h).
Proof. unfold mk_array. destruct (fn ≫= createArray) eqn:E; [by eapply cf_array|done]. Qed.

(** The line objects, where the result may be a protocol error. *)
Definition erase_line (m : option ((option optr * nat * H) + bytes)) :
    option ((option optr * H) + bytes) :=
  (fun o => match o with inl (x, _, h) => inl (x, h) | inr e => inr e end) <$> m.

Lemma erase_line_inl x y :
  same x y -> erase_line (inl <$> x) = erase_line (inl <$> y).
Proof.
  unfold same, erase, erase_line. destruct x as [[[v a] h]|], y as [[[w b] h']|]; simpl;
    intros; simplify_eq; done.
Qed.

Lemma same_line st i ty s a b h :
  erase_line (line_reply fn st i ty s a h) = erase_line (line_reply fn st i ty s b h).
Proof.
  unfold line_reply. destruct (ty =? REDIS_REPLY_INTEGER).
  { destruct (fn ≫= createInteger) eqn:E; [|done]. destruct (string2ll s); [|done].
    by eapply erase_line_inl, cf_integer. }
  destruct (ty =? REDIS_REPLY_DOUBLE).
  { destruct (fn ≫= createDouble) eqn:E; [|done]. destruct (326 <=? _); [done|].
    destruct (strcaseeq _ _); [by eapply erase_line_inl, cf_double|].
    destruct (strcaseeq _ _); [by eapply erase_line_inl, cf_double|].
    destruct (strtod _) as [v n]. destruct (zget _ _); [|done]. simpl.
    destruct (_ || _); [done|]. by eapply erase_line_inl, cf_double. }
  destruct (ty =? REDIS_REPLY_NIL); [apply erase_line_inl, same_nil|].
  destruct (ty =? REDIS_REPLY_BOOL); [|apply erase_line_inl, same_string].
  destruct (fn ≫= createBool) eqn:E; [|done]. by eapply erase_line_inl, cf_bool.
Qed.

Lemma same_typed p cur a b h : same (typed_item fn p cur a h) (typed_item fn p cur b h).
Proof.
  unfold typed_item, line_item, bulk_item, aggregate_item.
  destruct (is_line _); [|destruct (_ =? _); [|destruct (is_aggregate _); [|done]]].
  - destruct (split_line _) as [[s rest]|]; [|done].
    pose proof (same_line (p_stack p) (Z.to_nat (p_ridx p)) (t_type cur) s a b h) as Hl.
    destruct (line_reply _ _ _ _ _ a _) as [[[[o a1] h1]|m]|],
      (line_reply _ _ _ _ _ b _) as [[[[o' a1'] h1']|m']|]; simplify_eq/=; try done;
      [apply same_finish|apply same_bad].
  - destruct (split_line _) as [[s rest]|]; [|done].
    destruct (string2ll s) as [len|]; [|apply same_bad].
    destruct (len <? -1); [apply same_bad|].
    destruct (len =? -1); [apply same_bind; [apply same_nil|intros; apply same_finish]|].
    destruct (_ <=? _); [|done]. apply same_bind; [apply same_string|intros; apply same_finish].
  - destruct (p_ridx p =? 8); [apply same_bad|].
    destruct (split_line _) as [[s rest]|]; [|done].
    destruct (string2ll s) as [n|]; [|apply same_bad].
    destruct (n <? -1); [apply same_bad|].
    destruct (n =? -1); [apply same_bind; [apply same_nil|intros; apply same_finish]|].
    apply same_bind; [apply same_array|]. intros.
    destruct (_ || _); [apply same_finish|done].
Qed.

Lemma same_item p a b h : same (item fn p a h) (item fn p b h).
Proof.
  unfold item. destruct (zget _ _); [|done]. simpl. destruct (_ <? 0); [|apply same_typed].
  destruct (p_rest p); [done|]. destruct (reply_type _); [apply same_typed|apply same_bad].
Qed.

Lemma same_run fuel p a b h : same (run fn fuel p a h) (run fn fuel p b h).
Proof.
  revert p a b h. induction fuel as [|fuel IH]; intros; [done|]. simpl.
  destruct (_ <? 0); [done|]. apply same_bind; [apply same_item|].
  intros [] ???; [done..|apply IH].
Qed.

Lemma same_replies_loop fuel p a b h : same (replies_loop fuel p a h) (replies_loop fuel p b h).
Proof.
  revert p a b h. induction fuel as [|fuel IH]; intros; [done|]. simpl.
  apply same_bind; [apply same_run|]. intros [q|c m r|q] a1 b1 h1; [done..|].
  apply (same_bind (A := list (option optr) * outcome)); [apply IH|]. by intros [].
Qed.

Lemma same_replies p a b h : same (replies p a h) (replies p b h).
Proof. apply same_replies_loop. Qed.

End replies.
