(* ===== verification/Session.v ===== *)
(** * The public functions of the reader, and sessions

    [redisReaderFeed] and [redisReaderGetReply] implement appending to the
    input of the parser and [parse].  A session feeds pieces of input and takes
    all the replies available after each, as every user of the reader does. *)

From Stdlib Require Import Strings.Byte String.
From S2P Require Import Prelude CLib Buffer Read Parser ReadLines ReaderRefines Replies.

Section session.
Context {al : Allocator} {dm : DataModel} {fl : FloatLib} {B : Type}.
Context {bb : ByteBuf B} {laws : ByteBufLaws al B} {H : Type}.
Variable fn : option (redisReplyObjectFunctions H).
Implicit Types (r : redisReader B) (p q : parser) (b : B) (h : H).

(** [redisReaderGetReply] until there is no reply left. *)
Fixpoint drain (fuel : nat) r a h : option (list (option optr) * Z * redisReader B * nat * H) :=
  match fuel with
  | O => None
  | S f =>
      g ← redisReaderGetReply fn r true a h;
      let '(status, reply, r, a, h) := g in
      if negb (status =? REDIS_OK) then Some ([], status, r, a, h)
      else match reply with
           | None => Some ([], status, r, a, h)
           | Some _ =>
               d ← drain f r a h;
               let '(l, status, r, a, h) := d in Some (reply :: l, status, r, a, h)
           end
  end.

(** Feeding the pieces of an input, with all replies taken after each. *)
Fixpoint session (chunks : list bytes) r a h :
    option (list (option optr) * Z * redisReader B * nat * H) :=
  match chunks with
  | [] => Some ([], REDIS_OK, r, a, h)
  | c :: cs =>
      f ← redisReaderFeed fn r (Some c) (zlen c) a h;
      let '(status, r, a, h) := f in
      if negb (status =? REDIS_OK) then Some ([], status, r, a, h) else
      d ← drain (S (S (Z.to_nat (r_len r)))) r a h;
      let '(l, status, r, a, h) := d in
      if negb (status =? REDIS_OK) then Some (l, status, r, a, h) else
      s ← session cs r a h;
      let '(l', status, r, a, h) := s in Some (l ++ l', status, r, a, h)
  end.

(** ** The status and the error field *)

(** What a call leaves: a reader without error, or one that stays in error. *)
Definition agrees (status : Z) r : Prop :=
  (status = REDIS_OK /\ r_err r = 0) \/ (status = REDIS_ERR /\ r_err r <> 0).

Lemma fail_agrees r ty m h a s r' a' h' :
  ty <> 0 -> fail_with (__redisReaderSetError fn r ty m h) a = Some (s, r', a', h') -> agrees s r'.
Proof.
  intros Ht. unfold __redisReaderSetError. destruct (free_reply fn (r_reply r) h) as [[f h1]|]; [|done].
  simpl. destruct (sdsfree_ptr _); [|done]. simpl. intros [= <- <- _ _]. by right.
Qed.

Lemma feed_agrees r data len a h s r' a' h' :
  redisReaderFeed fn r data len a h = Some (s, r', a', h') -> agrees s r'.
Proof.
  unfold redisReaderFeed. destruct (Z.eqb_spec (r_err r) 0) as [E|E]; simpl.
  2: { intros [= <- <- _ _]. by right. }
  destruct data as [d|]; [|intros [= <- <- _ _]; by left].
  destruct (1 <=? len); [|intros [= <- <- _ _]; by left].
  intros (old & Eo & Hx)%bind_Some. apply bind_Some in Hx as ([[r1 b1] a1] & Ee & Hx).
  apply bind_Some in Hx as ([g a2] & _ & Hx).
  assert (r_err r1 = 0) as E1.
  { destruct ((r_len r =? 0) && _ && _); [|by injection Ee as <- _ _].
    apply bind_Some in Ee as ([[b|] a0] & _ & Ee); [|done]. by injection Ee as <- _ _. }
  destruct g as [f|b]; [|injection Hx as <- <- _ _; by left].
  by apply fail_agrees in Hx.
Qed.

Lemma getreply_agrees r want a h s x r' a' h' :
  redisReaderGetReply fn r want a h = Some (s, x, r', a', h') -> agrees s r'.
Proof.
  unfold redisReaderGetReply. destruct (Z.eqb_spec (r_err r) 0) as [E|E]; simpl.
  2: { intros [= <- _ <- _ _]. by right. }
  destruct (r_len r =? 0); [intros [= <- _ <- _ _]; by left|].
  intros ([[r1 a1] h1] & _ & Hx)%bind_Some.
  destruct (Z.eqb_spec (r_err r1) 0) as [E1|E1]; simpl in Hx.
  2: { injection Hx as <- _ <- _ _. by right. }
  apply bind_Some in Hx as (r2 & Ed & Hx).
  assert (r_err r2 = 0) as E2.
  { unfold discard in Ed. destruct (1024 <=? r_pos r1); [|by injection Ed as <-].
    apply bind_Some in Ed as (b & _ & Ed). apply bind_Some in Ed as (b' & _ & Ed).
    by injection Ed as <-. }
  destruct (r_ridx r2 =? -1); [|injection Hx as <- _ <- _ _; by left].
  destruct want; [injection Hx as <- _ <- _ _; by left|].
  apply bind_Some in Hx as (f & _ & Hx). injection Hx as <- _ <- _ _. by left.
Qed.

Lemma drain_agrees fuel r a h l s r' a' h' :
  drain fuel r a h = Some (l, s, r', a', h') -> agrees s r'.
Proof.
  revert r a h l. induction fuel as [|f IH]; intros r a h l; [done|]. simpl.
  intros ([[[[s1 x] r1] a1] h1] & E%getreply_agrees & Hx)%bind_Some.
  destruct (negb (s1 =? REDIS_OK)); [by injection Hx as _ <- <- _ _|].
  destruct x; [|by injection Hx as _ <- <- _ _].
  apply bind_Some in Hx as ([[[[l1 s2] r2] a2] h2] & E2 & Hx). injection Hx as _ -> -> -> ->.
  by eapply IH.
Qed.

Lemma agrees_ok s r : agrees s r -> negb (s =? REDIS_OK) = false -> r_err r = 0.
Proof. by intros [[-> ?]|[-> _]]. Qed.

Lemma session_agrees chunks r a h l s r' a' h' :
  r_err r = 0 -> session chunks r a h = Some (l, s, r', a', h') -> agrees s r'.
Proof.
  revert r a h l. induction chunks as [|c cs IH]; intros r a h l Hr; cbn [session].
  { intros [= _ <- <- _ _]. by left. }
  intros ([[[s1 r1] a1] h1] & E1%feed_agrees & Hx)%bind_Some.
  destruct (negb (s1 =? REDIS_OK)) eqn:N1; [by injection Hx as _ <- <- _ _|].
  apply bind_Some in Hx as ([[[[l2 s2] r2] a2] h2] & E2%drain_agrees & Hx).
  destruct (negb (s2 =? REDIS_OK)) eqn:N2; [by injection Hx as _ <- <- _ _|].
  apply bind_Some in Hx as ([[[[l3 s3] r3] a3] h3] & E3 & Hx). injection Hx as _ -> -> -> ->.
  eapply IH; [|exact E3]. by eapply agrees_ok.
Qed.

(** ** Between two calls *)

(** [r] waits for what [p] waits for: it is in the middle of a reply, or
    between two. *)
Definition awaits b r p : Prop :=
  exists q, shows b r q /\ settled fn p /\
    ((p = q /\ 0 <= p_ridx q /\ rooted q) \/ (p = start q /\ p_ridx q = -1 /\ p_reply q = None)).

Lemma awaits_len b r p : awaits b r p -> 0 <= r_len r <= INT_MAX.
Proof. intros (q & Hs & _). pose proof (sh_pos _ _ _ Hs). pose proof (sh_max _ _ _ Hs). lia. Qed.

Lemma awaits_rooted b r p : awaits b r p -> rooted p /\ 0 <= p_ridx p.
Proof.
  intros (q & Hs & _ & [(-> & ? & ?)|(-> & _ & _)]); [done|].
  unfold rooted, start. simpl. split; [split; [lia|by left]|lia].
Qed.

Lemma awaits_rest b r p : awaits b r p -> zlen (p_rest p) <= r_len r.
Proof.
  intros (q & Hs & _ & Hp). assert (p_rest p = p_rest q) as -> by (by destruct Hp as [[-> _]|[-> _]]).
  pose proof (sh_pos _ _ _ Hs). pose proof (sh_len _ _ _ Hs).
  rewrite (sh_rest _ _ _ Hs), zlen_zdrop; lia.
Qed.

Lemma shows_buf b b' r q pos len :
  shows b r q -> buf_ok b' -> len = zlen (buf_val b') -> 0 <= pos <= len -> len <= INT_MAX ->
  shows b' (with_buf r (BLive b') pos len) (p_with_rest q (zdrop pos (buf_val b'))).
Proof. intros [] Hb -> Hl Hm. split; simpl; try done; lia. Qed.

Lemma shows_discard b r q :
  shows b r q -> exists b' r', discard r = Some r' /\ shows b' r' q /\ r_len r' <= r_len r.
Proof.
  intros Hs. unfold discard. destruct (Z.leb_spec 1024 (r_pos r)); [|by exists b, r].
  pose proof (sh_pos _ _ _ Hs). pose proof (sh_max _ _ _ Hs). pose proof (sh_len _ _ _ Hs) as El.
  rewrite (sh_buf _ _ _ Hs). simpl. unwrap.
  destruct (buf_range_spec b (r_pos r)) as (b' & -> & Hok & Ev); [apply Hs|lia..|].
  simpl. pose proof (buf_len_spec b' Hok) as Eb.
  assert (zlen (buf_val b') = r_len r - r_pos r) as Hl by (rewrite Ev, zlen_zdrop; lia).
  exists b'. eexists. split; [done|]. simpl. split; [|lia]. rewrite Eb.
  replace q with (p_with_rest q (zdrop 0 (buf_val b'))).
  { apply (shows_buf b); [done|done|done|lia..]. }
  rewrite zdrop_0, Ev, <- (sh_rest _ _ _ Hs). by destruct q.
Qed.

(** ** [redisReaderGetReply] *)

#[local] Arguments process_loop : simpl never.

(** What happens to the reply object. *)
Definition taken (want : bool) q h : option (option optr * H) :=
  if want then Some (p_reply q, h) else f ← free_reply fn (p_reply q) h; Some (None, f.2).

Lemma getreply_refines b r p want a h :
  LP64 -> awaits b r p ->
  match parse fn p a h with
  | None => True
  | Some (More q, a', h') =>
      exists b' r', redisReaderGetReply fn r want a h = Some (REDIS_OK, None, r', a', h') /\
        awaits b' r' q /\ r_len r' <= r_len r
  | Some (Bad c m reply, a', h') =>
      exists r', redisReaderGetReply fn r want a h = Some (REDIS_ERR, None, r', a', h') /\
        dead r' c m reply
  | Some (Done q, a', h') =>
      match taken want q h' with
      | None => True
      | Some (x, h'') =>
          exists b' r', redisReaderGetReply fn r want a h = Some (REDIS_OK, x, r', a', h'') /\
            awaits b' r' (start (p_clear q)) /\ r_len r' <= r_len r
      end
  end.
Proof.
  intros Hlp Haw. pose proof (awaits_rooted _ _ _ Haw) as [Hroot Hi].
  pose proof (awaits_rest _ _ _ Haw) as Hrl. destruct Haw as (p0 & Hs & Hset & Hp).
  unfold redisReaderGetReply. rewrite (sh_err _ _ _ Hs). simpl.
  destruct (Z.eqb_spec (r_len r) 0) as [E0|E0].
  { assert (p_rest p = []) as Er by (apply zlen_0_nil; zlia).
    assert (p_with_rest p [] = p) as Ep by (destruct p; simpl in *; by subst).
    rewrite parse_eq. zfalse (p_ridx p <? 0). pose proof (Hset a h) as Hm. rewrite Ep in Hm.
    destruct (item fn p a h) as [x|]; [|done]. rewrite (Hm x eq_refl). simpl.
    exists b, r. split; [done|]. split; [|done]. by exists p0. }
  set (r1 := if r_ridx r =? -1 then _ else r).
  assert (shows b r1 p /\ r_len r1 = r_len r) as [Hs1 Hl1].
  { unfold r1. rewrite (sh_ridx _ _ _ Hs). destruct Hp as [(-> & ? & _)|(-> & Hi0 & Hr0)].
    - by zfalse (p_ridx p0 =? -1).
    - rewrite Hi0. simpl. split; [|done]. destruct Hs.
      split; simpl; try done. by rewrite sh_priv, sh_stack. }
  rewrite <- Hl1. clearbody r1.
  pose proof (sim_loop fn b (S (Z.to_nat (r_len r1))) r1 p a h Hlp Hs1 ltac:(lia)) as Hsim.
  unfold parse. rewrite (run_fuel _ _ (S (Z.to_nat (r_len r1)))) by (unfold zlen in *; lia).
  destruct (run fn _ p a h) as [[[o a'] h']|] eqn:E; [|done].
  pose proof (run_rooted _ _ _ _ _ _ _ _ E Hroot) as Hro.
  destruct Hsim as (r' & -> & Ho). simpl. destruct o as [q|c m reply|q].
  - destruct Ho as [Ho Hq]. rewrite (sh_err _ _ _ Ho). simpl.
    destruct (shows_discard _ _ _ Ho) as (b' & r2 & -> & Hs2 & Hl2). simpl.
    rewrite (sh_ridx _ _ _ Hs2). zfalse (p_ridx q =? -1). exists b', r2. split; [done|].
    split; [|rewrite (sh_len _ _ _ Hs1), <- (sh_len _ _ _ Ho); lia]. exists q. split; [done|]. split; [by eapply run_settled|]. left. by destruct Hro.
  - rewrite (de_err _ _ _ _ Ho). pose proof (de_code _ _ _ _ Ho).
    rewrite (proj2 (Z.eqb_neq c 0)) by done. simpl. by exists r'.
  - destruct Ho as [Ho Hq]. destruct (taken want q h') as [[x h'']|] eqn:Et; [|done].
    rewrite (sh_err _ _ _ Ho). simpl.
    destruct (shows_discard _ _ _ Ho) as (b' & r2 & -> & Hs2 & Hl2). simpl.
    rewrite (sh_ridx _ _ _ Hs2), Hq, (sh_reply _ _ _ Hs2). simpl.
    exists b', (with_reply r2 None). split.
    { unfold taken in Et. destruct want; [by injection Et as <- <-|].
      destruct (free_reply _ _ _) as [f|]; [|done]. simpl in *. by injection Et as <- <-. }
    split; [|simpl; rewrite (sh_len _ _ _ Hs1), <- (sh_len _ _ _ Ho); lia].
    exists (p_clear q). split; [by destruct Hs2; split|].
    split; [apply start_settled|]. by right.
Qed.

(** ** [redisReaderFeed] *)

Lemma shows_feed b r q b' data :
  shows b r q -> buf_ok b' -> buf_val b' = buf_val b ++ data -> zlen (buf_val b') <= INT_MAX ->
  shows b' (with_buf r (BLive b') (r_pos r) (buf_len b')) (p_feed q data).
Proof.
  intros Hs Hok Ev Hm. rewrite (buf_len_spec _ Hok).
  pose proof (sh_pos _ _ _ Hs). pose proof (sh_len _ _ _ Hs) as El.
  assert (zlen (buf_val b') = r_len r + zlen data) as Hl by (rewrite Ev, zlen_app; lia).
  pose proof (zlen_nonneg data).
  replace (p_feed q data) with (p_with_rest q (zdrop (r_pos r) (buf_val b'))).
  { by apply (shows_buf b); [..|lia|]. }
  unfold p_feed. by rewrite (sh_rest _ _ _ Hs), Ev, zdrop_app_l by lia.
Qed.

Lemma awaits_feed b r p b' r' data :
  awaits b r p -> (forall q, shows b r q -> shows b' r' (p_feed q data)) ->
  awaits b' r' (p_feed p data).
Proof.
  intros (q & Hs & Hset & Hp) Hf. exists (p_feed q data). split; [by apply Hf|].
  split; [exact Hset|]. by destruct Hp as [(-> & ? & ?)|(-> & ? & ?)]; [left|right].
Qed.

Lemma feed_refines b r p data a h :
  alloc_total al -> awaits b r p -> r_len r + zlen data <= INT_MAX ->
  exists b' r' a', redisReaderFeed fn r (Some data) (zlen data) a h = Some (REDIS_OK, r', a', h) /\
    awaits b' r' (p_feed p data) /\ r_len r' = r_len r + zlen data.
Proof.
  intros Hal Haw Hm. pose proof (awaits_len _ _ _ Haw) as Hl0. pose proof (zlen_nonneg data).
  assert (INT_MAX <= BUF_SAFE) as Hsafe by done.
  destruct (Haw) as (q0 & Hs & _). unfold redisReaderFeed. rewrite (sh_err _ _ _ Hs). simpl.
  destruct (Z.leb_spec 1 (zlen data)).
  2: { assert (data = []) as -> by (apply zlen_0_nil; lia). exists b, r, a. split; [done|].
       split; [|rewrite zlen_nil; lia]. apply (awaits_feed b r p); [done|]. intros q Hq.
       unfold p_feed. rewrite app_nil_r. by destruct q. }
  rewrite (sh_buf _ _ _ Hs). simpl. pose proof (sh_len _ _ _ Hs) as El.
  assert (forall b0 r0 a0, buf_ok b0 -> buf_val b0 = buf_val b -> r_pos r0 = r_pos r ->
    (forall x y z, with_buf r0 x y z = with_buf r x y z) ->
    exists b' r' a',
      (g ← buf_cat b0 data (zlen data) a0;
       match g with
       | (GNull freed, a) =>
           let r := if (freed : bool) then with_buf r0 BFreed (r_pos r0) (r_len r0) else r0 in
           fail_with (__redisReaderSetErrorOOM fn r h) a
       | (GOk b, a) => Some (REDIS_OK, with_buf r0 (BLive b) (r_pos r0) (buf_len b), a, h)
       end) = Some (REDIS_OK, r', a', h) /\
      awaits b' r' (p_feed p data) /\ r_len r' = r_len r + zlen data) as Hcat.
  { intros b0 r0 a0 Hok0 Ev0 Ep Hw.
    destruct (buf_cat_spec b0 data a0 Hok0) as ([f|b'] & a' & -> & Hg); [rewrite Ev0; lia|done|].
    destruct Hg as [Hok Ev]. rewrite Ev0 in Ev. simpl.
    exists b'. do 2 eexists. split; [done|]. rewrite Hw, Ep.
    assert (zlen (buf_val b') = r_len r + zlen data) as Hlv by (rewrite Ev, zlen_app; lia).
    split; [|simpl; by rewrite (buf_len_spec _ Hok)].
    apply (awaits_feed b r p); [done|]. intros q Hq. apply (shows_feed b); done || lia. }
  destruct ((r_len r =? 0) && _ && _) eqn:Ereset.
  - apply andb_true_iff in Ereset as [[E0%Z.eqb_eq _]%andb_true_iff _].
    destruct (buf_empty_spec (al := al) a) as ([b0|] & a0 & -> & He); [|done]. simpl.
    destruct He as [Hok0 Ev0]. pose proof (sh_pos _ _ _ Hs).
    apply (Hcat b0 (with_buf r (BLive b0) 0 (r_len r))); [done| |simpl; lia|done].
    rewrite Ev0. symmetry. apply zlen_0_nil. lia.
  - apply (Hcat b r a); [apply Hs|done..].
Qed.

(** ** Sessions *)

(** The last status of a session, and its reader. *)
Definition session_end b r (status : Z) (o : outcome) : Prop :=
  match o with
  | More q => status = REDIS_OK /\ awaits b r q
  | Bad c m reply => status = REDIS_ERR /\ dead r c m reply
  | Done _ => False
  end.

(** All the replies available are taken, in order. *)
Lemma drain_refines b r p a h fuel l o a' h' :
  LP64 -> awaits b r p -> zlen (p_rest p) < Z.of_nat fuel ->
  replies fn p a h = Some (l, o, a', h') ->
  exists b' status r', drain fuel r a h = Some (l, status, r', a', h') /\
    session_end b' r' status o /\ r_len r' <= r_len r.
Proof.
  intros Hlp. revert b r p a h l. induction fuel as [|fuel IH]; intros b r p a h l Haw Hf E.
  { pose proof (zlen_nonneg (p_rest p)). lia. }
  pose proof (awaits_rooted _ _ _ Haw) as [Hroot Hi].
  rewrite replies_eq in E by done. pose proof (getreply_refines b r p true a h Hlp Haw) as Hg.
  destruct (parse fn p a h) as [[[[q|c m reply|q] a1] h1]|] eqn:Ep; simplify_eq/=; try done.
  - destruct Hg as (b' & r' & -> & Haw' & Hl). by exists b', REDIS_OK, r'.
  - destruct Hg as (r' & -> & Hd). exists b, REDIS_ERR, r'. split; [done|]. split; [done|].
    rewrite (de_len _ _ _ _ Hd). by destruct (awaits_len _ _ _ Haw).
  - pose proof (run_rooted _ _ _ _ _ _ _ _ Ep Hroot) as [Hr _].
    apply run_final in Ep as [_ Ep]. specialize (Ep Hi).
    destruct Hg as (b' & r' & -> & Haw' & Hl). simpl.
    destruct (p_reply q) as [x|] eqn:Ex; [|done].
    apply bind_Some in E as ([[[l1 o1] a2] h2] & E & [= <- <- <- <-]).
    destruct (IH b' r' _ a1 h1 l1 Haw') as (b2 & status & r2 & -> & Hend & Hl2); [|done|].
    { simpl. unfold zlen in *. lia. }
    simpl. exists b2, status, r2. split; [done|]. split; [done|lia].
Qed.

(** ** Pieces of input *)

Lemma p_feed_nil p : p_feed p [] = p.
Proof. unfold p_feed. rewrite app_nil_r. by destruct p. Qed.

Lemma p_feed_app p c e : p_feed p (c ++ e) = p_feed (p_feed p c) e.
Proof. unfold p_feed. simpl. by rewrite (assoc_L (++)). Qed.

(** An incomplete parse, tried again, is still incomplete. *)
Lemma replies_more_again p a h l q a' h' :
  0 <= p_ridx p -> replies fn p a h = Some (l, More q, a', h') ->
  replies fn q a' h' = Some ([], More q, a', h').
Proof.
  intros Hi E. pose proof (replies_feed fn p [] a h Hi) as Ef.
  rewrite p_feed_nil, E in Ef. cbn [mbind option_bind] in Ef. rewrite p_feed_nil in Ef.
  destruct (replies fn q a' h') as [[[[l' o] a2] h2]|]; [|done]. simpl in Ef.
  injection Ef as El <- <- <-. apply (f_equal length) in El. rewrite length_app in El.
  destruct l'; [done|simpl in El; lia].
Qed.

Lemma same_some_inv {A} (x : option (A * nat * H)) v a h :
  same x (Some (v, a, h)) -> exists c, x = Some (v, c, h).
Proof.
  unfold same, erase. destruct x as [[[w c] h']|]; simpl; [|done]. intros [= -> ->]. eauto.
Qed.

Context {cf : CounterFree fn}.

Lemma replies_at c p a h v a' h' :
  replies fn p a h = Some (v, a', h') -> exists c', replies fn p c h = Some (v, c', h').
Proof.
  intros E. apply (same_some_inv _ v a'). rewrite <- E. by apply same_replies.
Qed.

(** [p] has been read as far as possible. *)
Definition drained p h : Prop := exists a a', replies fn p a h = Some ([], More p, a', h).

(** A session implements [replies] on all of its input, however the input is
    cut into pieces. *)
Lemma session_refines chunks b r p a h l o a' h' :
  LP64 -> alloc_total al -> awaits b r p -> drained p h ->
  r_len r + zlen (concat chunks) <= INT_MAX ->
  replies fn (p_feed p (concat chunks)) a h = Some (l, o, a', h') ->
  exists b' status r' a'', session chunks r a h = Some (l, status, r', a'', h') /\
    session_end b' r' status o.
Proof.
  intros Hlp Hal. revert b r p a h l a'.
  induction chunks as [|c cs IH]; intros b r p a h l a' Haw Hdr Hm E; cbn [concat session] in *.
  { destruct Hdr as (a1 & a2 & Ed). rewrite p_feed_nil in E.
    destruct (replies_at a _ _ _ _ _ _ Ed) as [a3 E3]. rewrite E in E3. injection E3 as -> -> <- ->.
    by exists b, REDIS_OK, r, a. }
  rewrite zlen_app in Hm. pose proof (zlen_nonneg c). pose proof (zlen_nonneg (concat cs)).
  destruct (feed_refines b r p c a h Hal Haw ltac:(lia)) as (b1 & r1 & a1 & -> & Haw1 & Hl1).
  cbn [mbind option_bind negb Z.eqb].
  pose proof (awaits_rooted _ _ _ Haw1) as [_ Hi1].
  rewrite p_feed_app, replies_feed in E by done.
  destruct (replies fn (p_feed p c) a h) as [[[[l1 o1] a2] h1]|] eqn:E1; [|done].
  destruct (replies_at a1 _ _ _ _ _ _ E1) as [a3 E3].
  pose proof (awaits_rest _ _ _ Haw1). pose proof (awaits_len _ _ _ Haw1).
  destruct (drain_refines b1 r1 _ a1 h (S (S (Z.to_nat (r_len r1)))) _ _ _ _ Hlp Haw1 ltac:(lia) E3)
    as (b2 & status & r2 & -> & Hend & Hl2).
  cbn [mbind option_bind] in E |- *. destruct o1 as [q|code msg reply|q]; [|..|done].
  - destruct Hend as [-> Haw2]. cbn [negb Z.eqb].
    destruct (replies fn (p_feed q (concat cs)) a2 h1) as [[[[l2 o2] a4] h2]|] eqn:E2; [|done].
    simpl in E. injection E as <- -> <- <-.
    destruct (replies_at a3 _ _ _ _ _ _ E2) as [a5 E5].
    destruct (IH b2 r2 q a3 h1 l2 a5 Haw2) as (b3 & status & r3 & a6 & -> & Hend); [|lia|done|].
    + exists a3, a3. by eapply replies_more_again.
    + simpl. by exists b3, status, r3, a6.
  - destruct Hend as [-> Hd]. simpl. injection E as <- <- <- <-.
    by exists b2, REDIS_ERR, r2, a3.
Qed.

End session.
