(* ===== verification/Reply.v ===== *)
(** * Reply objects (hiredis.c)

    The heap of [redisReply] objects and the default object functions.  A
    location stands for the address of an object; its string and its element
    vector belong to it.  A result [None] is a failed [assert], an access to
    memory that is not allocated, or a second [free]. *)

From Stdlib Require Import Strings.Byte.
From stdpp Require Import gmap.
From S2P Require Import Prelude CLib Buffer Read.

Section reply.
Context {al : Allocator} {fl : FloatLib}.

Record redisReply := Reply {
  rp_type : Z;
  rp_integer : Z;
  rp_dval : option double;
  rp_len : Z;
  rp_str : option bytes;                 (* the buffer, with its terminator *)
  rp_elements : Z;
  rp_element : option (list (option nat))   (* the vector of pointers *)
}.

Record heap := Heap { h_cells : gmap nat redisReply; h_next : nat }.

Implicit Types (h : heap) (c : redisReply) (l : nat) (st : list redisReadTask).

Definition sizeof_redisReply : Z := 56.
Definition sizeof_ptr : Z := 8.

Definition h_set h l c : heap := Heap (<[l := c]> (h_cells h)) (h_next h).
Definition h_free h l : option heap :=
  _ ← h_cells h !! l; Some (Heap (delete l (h_cells h)) (h_next h)).

(** The location, or [None] for [NULL]. *)
Definition createReplyObject (type : Z) (a : nat) h : option nat * nat * heap :=
  let '(ok, a) := calloc a 1 sizeof_redisReply in
  if ok then (Some (h_next h), a,
              Heap (<[h_next h := Reply type 0 None 0 None 0 None]> (h_cells h)) (S (h_next h)))
  else (None, a, h).

(** [freeReplyObject]; the recursion follows the element vectors. *)
Fixpoint free_object (fuel : nat) (reply : option nat) h : option heap :=
  match fuel with
  | O => None
  | S f =>
      match reply with
      | None => Some h
      | Some l =>
          r ← h_cells h !! l;
          h ← (if is_aggregate (rp_type r) then
                 match rp_element r with
                 | Some v =>
                     if zlen v <? rp_elements r then None
                     else foldl (fun o e => o ≫= free_object f e) (Some h)
                            (ztake (rp_elements r) v)
                 | None => Some h
                 end
               else Some h);
          h_free h l
      end
  end.

(** Deep enough: no more objects than locations ever allocated. *)
Definition freeReplyObject (reply : option nat) h : option heap :=
  free_object (S (S (h_next h))) reply h.

(** [if (task->parent) { ...; parent->element[task->idx] = r; }] *)
Definition attach st (task : redisReadTask) l h : option heap :=
  match t_parent task with
  | None => Some h
  | Some i =>
      pt ← st !! i;
      o ← t_obj pt;
      match o with
      | OTag _ => None
      | OLoc pl =>
          parent ← h_cells h !! pl;
          if negb (is_aggregate (rp_type parent)) then None else
          v ← rp_element parent;
          if (0 <=? t_idx task) && (t_idx task <? zlen v)
          then Some (h_set h pl (Reply (rp_type parent) (rp_integer parent) (rp_dval parent)
                                       (rp_len parent) (rp_str parent) (rp_elements parent)
                                       (Some (<[Z.to_nat (t_idx task) := Some l]> v))))
          else None
      end
  end.

(** The end of every creation function. *)
Definition attached st (task : redisReadTask) l (a : nat) h :
    option (option optr * nat * heap) :=
  h ← attach st task l h; Some (Some (OLoc l), a, h).

Definition is_string (ty : Z) : bool :=
  (ty =? REDIS_REPLY_ERROR) || (ty =? REDIS_REPLY_STATUS) || (ty =? REDIS_REPLY_STRING).

Definition createStringObject st (i : nat) (str : bytes) (a : nat) h :
    option (option optr * nat * heap) :=
  task ← st !! i;
  match createReplyObject (t_type task) a h with
  | (None, a, h) => Some (None, a, h)
  | (Some l, a, h) =>
      let '(ok, a) := malloc a (zlen str + 1) in
      if negb ok then h ← freeReplyObject (Some l) h; Some (None, a, h) else
      if negb (is_string (t_type task)) then None else
      r ← h_cells h !! l;
      attached st task l a
        (h_set h l (Reply (rp_type r) (rp_integer r) (rp_dval r) (zlen str)
                          (Some (str ++ [NUL])) (rp_elements r) (rp_element r)))
  end.

Definition createArrayObject st (i : nat) (elements : Z) (a : nat) h :
    option (option optr * nat * heap) :=
  task ← st !! i;
  match createReplyObject (t_type task) a h with
  | (None, a, h) => Some (None, a, h)
  | (Some l, a, h) =>
      let '(ok, a) := if 0 <? elements then calloc a elements sizeof_ptr else (true, a) in
      if negb ok then h ← freeReplyObject (Some l) h; Some (None, a, h) else
      r ← h_cells h !! l;
      attached st task l a
        (h_set h l (Reply (rp_type r) (rp_integer r) (rp_dval r) (rp_len r) (rp_str r) elements
                          (if 0 <? elements then Some (replicate (Z.to_nat elements) None)
                           else rp_element r)))
  end.

Definition createIntegerObject st (i : nat) (value : Z) (a : nat) h :
    option (option optr * nat * heap) :=
  task ← st !! i;
  match createReplyObject REDIS_REPLY_INTEGER a h with
  | (None, a, h) => Some (None, a, h)
  | (Some l, a, h) =>
      r ← h_cells h !! l;
      attached st task l a
        (h_set h l (Reply (rp_type r) value (rp_dval r) (rp_len r) (rp_str r) (rp_elements r)
                          (rp_element r)))
  end.

Definition createDoubleObject st (i : nat) (value : double) (str : bytes) (a : nat) h :
    option (option optr * nat * heap) :=
  task ← st !! i;
  match createReplyObject REDIS_REPLY_DOUBLE a h with
  | (None, a, h) => Some (None, a, h)
  | (Some l, a, h) =>
      let '(ok, a) := malloc a (zlen str + 1) in
      if negb ok then h ← freeReplyObject (Some l) h; Some (None, a, h) else
      r ← h_cells h !! l;
      attached st task l a
        (h_set h l (Reply (rp_type r) (rp_integer r) (Some value) (rp_len r)
                          (Some (str ++ [NUL])) (rp_elements r) (rp_element r)))
  end.

Definition createNilObject st (i : nat) (a : nat) h : option (option optr * nat * heap) :=
  task ← st !! i;
  match createReplyObject REDIS_REPLY_NIL a h with
  | (None, a, h) => Some (None, a, h)
  | (Some l, a, h) => attached st task l a h
  end.

Definition createBoolObject st (i : nat) (bval : Z) (a : nat) h :
    option (option optr * nat * heap) :=
  task ← st !! i;
  match createReplyObject REDIS_REPLY_BOOL a h with
  | (None, a, h) => Some (None, a, h)
  | (Some l, a, h) =>
      r ← h_cells h !! l;
      attached st task l a
        (h_set h l (Reply (rp_type r) (if bval =? 0 then 0 else 1) (rp_dval r) (rp_len r)
                          (rp_str r) (rp_elements r) (rp_element r)))
  end.

(** [freeReplyObject] as the reader calls it. *)
Definition free_reply_object (reply : optr) h : option heap :=
  match reply with
  | OLoc l => freeReplyObject (Some l) h
  | OTag _ => None
  end.

Definition defaultFunctions : redisReplyObjectFunctions heap :=
  Functions (Some createStringObject) (Some createArrayObject) (Some createIntegerObject)
    (Some createDoubleObject) (Some createNilObject) (Some createBoolObject)
    (Some free_reply_object).

(** [redisReaderCreate]. *)
Definition redisReaderCreate {B : Type} `{!ByteBuf B} (a : nat) :
    option (option (redisReader B) * nat) :=
  redisReaderCreateWithFunctions a.

End reply.
