(* ===== verification/Tree.v ===== *)
(** * Reply trees and their representation in the heap

    A reply as a mathematical object, its cells when it is built at a
    location, and the partial trees of a reply in the course of being read:
    [plug t fs] is [t] inside the containers [fs], the innermost first. *)

From Stdlib Require Import Strings.Byte.
From stdpp Require Import gmap.
From S2P Require Import Prelude CLib Buffer Read Reply.

(* [list] has no registered scheme for nested inductive types. *)
#[local] Set Warnings "-register-all".

Section tree.
Context {al : Allocator} {fl : FloatLib}.

(** An aggregate [RAgg ty n ts] has [n] elements, of which [ts] are built;
    the type [ty] of a string is that of a bulk string, a status or an error. *)
Inductive reply :=
  | RStr (ty : Z) (s : bytes)
  | RInt (v : Z)
  | RDbl (d : double) (s : bytes)
  | RNil
  | RBool (b : bool)
  | RAgg (ty n : Z) (ts : list reply).

Lemma reply_ind' (P : reply -> Prop) :
  (forall ty s, P (RStr ty s)) -> (forall v, P (RInt v)) -> (forall d s, P (RDbl d s)) ->
  P RNil -> (forall b, P (RBool b)) ->
  (forall ty n ts, Forall P ts -> P (RAgg ty n ts)) -> forall t, P t.
Proof.
  intros H1 H2 H3 H4 H5 H6. fix IH 1. intros [ty s|v|d s| |b|ty n ts]; [by auto..|].
  apply H6. induction ts; constructor; auto.
Qed.

(** Number of objects. *)
Fixpoint nodes (t : reply) : nat :=
  match t with
  | RAgg _ _ ts => S (foldr (fun t n => nodes t + n)%nat 0%nat ts)
  | _ => 1%nat
  end.

Definition nodes_list (ts : list reply) : nat := foldr (fun t n => nodes t + n)%nat 0%nat ts.

(** Locations of consecutive trees. *)
Fixpoint offsets (lo : nat) (ts : list reply) : list nat :=
  match ts with
  | [] => []
  | t :: ts => lo :: offsets (lo + nodes t) ts
  end.

(** The element vector of an aggregate. *)
Definition slots (n : Z) (offs : list nat) : list (option nat) :=
  (Some <$> offs) ++ replicate (Z.to_nat n - length offs) None.

Definition agg_cell (ty n : Z) (offs : list nat) : redisReply :=
  Reply ty 0 None 0 None n (if 0 <? n then Some (slots n offs) else None).

(** The cell of the root of a tree at location [lo]. *)
Definition root_cell (lo : nat) (t : reply) : redisReply :=
  match t with
  | RStr ty s => Reply ty 0 None (zlen s) (Some (s ++ [NUL])) 0 None
  | RInt v => Reply REDIS_REPLY_INTEGER v None 0 None 0 None
  | RDbl d s => Reply REDIS_REPLY_DOUBLE 0 (Some d) 0 (Some (s ++ [NUL])) 0 None
  | RNil => Reply REDIS_REPLY_NIL 0 None 0 None 0 None
  | RBool b => Reply REDIS_REPLY_BOOL (if b then 1 else 0) None 0 None 0 None
  | RAgg ty n ts => agg_cell ty n (offsets (S lo) ts)
  end.

(** All the cells of a tree built at [lo]. *)
Fixpoint cells (lo : nat) (t : reply) : gmap nat redisReply :=
  <[lo := root_cell lo t]>
    match t with
    | RAgg _ _ ts =>
        (fix go (lo : nat) (ts : list reply) : gmap nat redisReply :=
           match ts with
           | [] => ∅
           | t :: ts => cells lo t ∪ go (lo + nodes t)%nat ts
           end) (S lo) ts
    | _ => ∅
    end.

Fixpoint cells_list (lo : nat) (ts : list reply) : gmap nat redisReply :=
  match ts with
  | [] => ∅
  | t :: ts => cells lo t ∪ cells_list (lo + nodes t) ts
  end.

Lemma cells_agg lo ty n ts :
  cells lo (RAgg ty n ts) = <[lo := agg_cell ty n (offsets (S lo) ts)]> (cells_list (S lo) ts).
Proof. done. Qed.

(** A heap with a tree built in it. *)
Definition h_add (t : reply) (h : heap) : heap :=
  Heap (cells (h_next h) t ∪ h_cells h) (h_next h + nodes t).

(** Nothing is allocated from [h_next] on. *)
Definition heap_ok (h : heap) : Prop := forall l, (h_next h <= l)%nat -> h_cells h !! l = None.

(** ** Where cells are *)

Lemma nodes_pos t : (1 <= nodes t)%nat.
Proof. destruct t; simpl; lia. Qed.

Lemma cells_list_range ts :
  Forall (fun t => forall lo l, (l < lo \/ lo + nodes t <= l)%nat -> cells lo t !! l = None) ts ->
  forall lo l, (l < lo \/ lo + nodes_list ts <= l)%nat -> cells_list lo ts !! l = None.
Proof.
  induction 1 as [|t ts Ht _ IH]; intros lo l Hl; simpl in *; [apply lookup_empty|].
  apply lookup_union_None. split; [apply Ht|apply IH]; lia.
Qed.

Lemma cells_range t lo l : (l < lo \/ lo + nodes t <= l)%nat -> cells lo t !! l = None.
Proof.
  revert lo l. induction t as [| | | | |ty n ts IH] using reply_ind'; intros lo l Hl; simpl in Hl;
    try (simpl; rewrite lookup_insert_ne by lia; apply lookup_empty).
  rewrite cells_agg, lookup_insert_ne by lia.
  apply cells_list_range; [done|]. unfold nodes_list. lia.
Qed.

Lemma cells_list_outside ts lo l :
  (l < lo \/ lo + nodes_list ts <= l)%nat -> cells_list lo ts !! l = None.
Proof. apply cells_list_range, Forall_forall. intros. by apply cells_range. Qed.

Lemma h_add_ok t h : heap_ok h -> heap_ok (h_add t h).
Proof.
  intros Hh l Hl. simpl in *. apply lookup_union_None. split; [apply cells_range|apply Hh]; lia.
Qed.

Lemma nodes_list_app ts us : nodes_list (ts ++ us) = (nodes_list ts + nodes_list us)%nat.
Proof. unfold nodes_list. induction ts; simpl in *; lia. Qed.

Lemma offsets_app lo ts us :
  offsets lo (ts ++ us) = offsets lo ts ++ offsets (lo + nodes_list ts) us.
Proof.
  revert lo. induction ts as [|t ts IH]; intros lo; simpl; [by rewrite Nat.add_0_r|].
  rewrite IH. unfold nodes_list. simpl. by rewrite Nat.add_assoc.
Qed.

Lemma length_offsets lo ts : length (offsets lo ts) = length ts.
Proof. revert lo. induction ts; intros; simpl; auto. Qed.

Lemma cells_list_app lo ts us :
  cells_list lo (ts ++ us) = cells_list lo ts ∪ cells_list (lo + nodes_list ts) us.
Proof.
  revert lo. induction ts as [|t ts IH]; intros lo; simpl.
  - by rewrite Nat.add_0_r, (left_id_L ∅ (∪)).
  - rewrite IH, (assoc_L (∪)). unfold nodes_list. simpl. by rewrite Nat.add_assoc.
Qed.

(** ** Trees under construction *)

Record frame := Frame { f_type : Z; f_n : Z; f_done : list reply }.

Definition frame_tree (f : frame) : reply := RAgg (f_type f) (f_n f) (f_done f).

(** Another element is complete. *)
Definition f_push (f : frame) (t : reply) : frame :=
  Frame (f_type f) (f_n f) (f_done f ++ [t]).

Fixpoint plug (t : reply) (fs : list frame) : reply :=
  match fs with
  | [] => t
  | f :: fs => plug (frame_tree (f_push f t)) fs
  end.

(** Where the plugged tree is. *)
Fixpoint hole (lo : nat) (fs : list frame) : nat :=
  match fs with
  | [] => lo
  | f :: fs => S (hole lo fs) + nodes_list (f_done f)
  end.

(** The cells around it. *)
Fixpoint ctx (lo : nat) (fs : list frame) : gmap nat redisReply :=
  match fs with
  | [] => ∅
  | f :: fs' =>
      <[hole lo fs' := agg_cell (f_type f) (f_n f)
                         (offsets (S (hole lo fs')) (f_done f) ++ [hole lo fs])]>
        (cells_list (S (hole lo fs')) (f_done f) ∪ ctx lo fs')
  end.

Lemma nodes_plug t lo fs : (lo + nodes (plug t fs))%nat = (hole lo fs + nodes t)%nat.
Proof.
  revert t. induction fs as [|f fs IH]; intros t; simpl; [done|].
  rewrite IH. simpl. fold (nodes_list (f_done f ++ [t])).
  rewrite nodes_list_app. simpl. lia.
Qed.

Lemma cells_plug t lo fs m :
  cells lo (plug t fs) ∪ m = cells (hole lo fs) t ∪ (ctx lo fs ∪ m).
Proof.
  revert t. induction fs as [|f fs IH]; intros t.
  { simpl. by rewrite (left_id_L ∅ (∪)). }
  simpl plug. rewrite IH. unfold frame_tree. rewrite cells_agg. cbn [f_push f_done f_type f_n].
  rewrite offsets_app, cells_list_app. cbn [cells_list offsets ctx].
  rewrite (right_id_L ∅ (∪)).
  change (S (hole lo fs) + nodes_list (f_done f))%nat with (hole lo (f :: fs)).
  set (A := cells_list _ _). set (T := cells _ t).
  assert (A ##ₘ T) as Hd.
  { apply map_disjoint_spec. intros l x y Hx Hy.
    destruct (Nat.lt_ge_cases l (hole lo (f :: fs))) as [Hl|Hl].
    - unfold T in Hy. rewrite cells_range in Hy by lia. done.
    - unfold A in Hx. rewrite cells_list_outside in Hx by (simpl in Hl; lia). done. }
  rewrite (map_union_comm A T) by done.
  assert (T !! hole lo fs = None) as Ht by (apply cells_range; simpl; lia).
  rewrite (insert_union_r T A) by done.
  by rewrite (insert_union_l A), <- !(assoc_L (∪)).
Qed.

Lemma hole_cons lo f fs : hole lo (f :: fs) = (hole lo fs + nodes (frame_tree f))%nat.
Proof. simpl. fold (nodes_list (f_done f)). lia. Qed.

(** Filling the next slot. *)
Lemma slots_push n offs l :
  (length offs < Z.to_nat n)%nat ->
  <[length offs := Some l]> (slots n offs) = slots n (offs ++ [l]).
Proof.
  intros Hl. unfold slots. rewrite length_app, fmap_app. simpl.
  replace (length offs) with (length (Some <$> offs) + 0)%nat at 1 by (rewrite length_fmap; lia).
  rewrite insert_app_r. replace (Z.to_nat n - length offs)%nat
    with (S (Z.to_nat n - (length offs + 1)))%nat by lia.
  simpl. by rewrite <- app_assoc.
Qed.

Lemma length_slots n offs :
  (length offs <= Z.to_nat n)%nat -> length (slots n offs) = Z.to_nat n.
Proof. intros. unfold slots. rewrite length_app, length_fmap, length_replicate. lia. Qed.

Lemma cells_unit lo t : nodes t = 1%nat -> cells lo t = {[lo := root_cell lo t]}.
Proof.
  destruct t as [| | | | |ty n [|t ts]]; try done. simpl. pose proof (nodes_pos t). lia.
Qed.

#[local] Arguments hole : simpl never.

(** The heap of a tree under construction, its innermost container, and the
    heap once a new object [t] has been linked into it. *)
Lemma attach_tree st task i pt f fs h0 t :
  let h := h_add (plug (frame_tree f) fs) h0 in
  t_parent task = Some i -> st !! i = Some pt ->
  t_obj pt = Some (OLoc (hole (h_next h0) fs)) ->
  is_aggregate (f_type f) = true ->
  t_idx task = zlen (f_done f) -> zlen (f_done f) < f_n f -> nodes t = 1%nat ->
  attach st task (h_next h)
    (Heap (<[h_next h := root_cell (h_next h) t]> (h_cells h)) (S (h_next h)))
  = Some (h_add (plug t (f :: fs)) h0).
Proof.
  intros h Hp Hst Hobj Hty Hidx Hn Ht. set (lo := h_next h0) in *.
  assert (h_next h = hole lo (f :: fs)) as Hnext.
  { unfold h, h_add. simpl h_next. fold lo. by rewrite nodes_plug, hole_cons. }
  assert (h_cells h = <[hole lo fs := agg_cell (f_type f) (f_n f)
             (offsets (S (hole lo fs)) (f_done f))]>
             (cells_list (S (hole lo fs)) (f_done f) ∪ (ctx lo fs ∪ h_cells h0))) as Hcells.
  { unfold h, h_add. simpl h_cells. fold lo. rewrite cells_plug. unfold frame_tree.
    by rewrite cells_agg, <- insert_union_l. }
  rewrite Hnext, Hcells. clearbody h.
  unfold attach. rewrite Hp, Hst. cbn [mbind option_bind]. rewrite Hobj. cbn [mbind option_bind h_cells].
  rewrite lookup_insert_ne by (rewrite hole_cons; pose proof (nodes_pos (frame_tree f)); lia).
  rewrite lookup_insert_eq. simpl. rewrite Hty. simpl.
  pose proof (zlen_nonneg (f_done f)). ztrue (0 <? f_n f). simpl. rewrite Hidx.
  assert (zlen (slots (f_n f) (offsets (S (hole lo fs)) (f_done f))) = f_n f) as ->.
  { unfold zlen in *. rewrite length_slots; rewrite ?length_offsets; lia. }
  ztrue (0 <=? zlen (f_done f)). ztrue (zlen (f_done f) <? f_n f). simpl.
  replace (Z.to_nat (zlen (f_done f))) with (length (offsets (S (hole lo fs)) (f_done f)))
    by (unfold zlen; rewrite length_offsets; lia).
  rewrite slots_push by (unfold zlen in *; rewrite length_offsets; lia).
  f_equal. unfold h_set, h_add. simpl h_next. simpl h_cells. f_equal.
  - rewrite insert_insert_ne, insert_insert_eq
      by (rewrite hole_cons; pose proof (nodes_pos (frame_tree f)); lia).
    change (plug (frame_tree (f_push f t)) fs) with (plug t (f :: fs)). fold lo.
    rewrite cells_plug, cells_unit by done. rewrite <- insert_union_singleton_l.
    cbn [ctx]. rewrite <- insert_union_l, <- (assoc_L (∪)). unfold agg_cell.
    by ztrue (0 <? f_n f).
  - fold lo. change (plug (frame_tree (f_push f t)) fs) with (plug t (f :: fs)).
    rewrite nodes_plug, Ht. lia.
Qed.

(** ** Freeing *)

(** Freeing a tree removes its cells and nothing else. *)
Definition frees (t : reply) : Prop :=
  forall fuel lo C nx,
    (nodes t + 1 < fuel)%nat -> (forall l, (lo <= l < lo + nodes t)%nat -> C !! l = None) ->
    free_object fuel (Some lo) (Heap (cells lo t ∪ C) nx) = Some (Heap C nx).

Lemma free_slots ts fuel lo C nx k :
  Forall frees ts -> (nodes_list ts + 1 < fuel)%nat ->
  (forall l, (lo <= l < lo + nodes_list ts)%nat -> C !! l = None) ->
  foldl (fun o e => o ≫= free_object fuel e) (Some (Heap (cells_list lo ts ∪ C) nx))
    ((Some <$> offsets lo ts) ++ replicate k None) = Some (Heap C nx).
Proof.
  intros Hts. revert lo C. induction Hts as [|t ts Ht Hts IH]; intros lo C Hf HC.
  - simpl. rewrite (left_id_L ∅ (∪)). destruct fuel; [simpl in Hf; lia|].
    by induction k; simpl.
  - cbn [nodes_list foldr] in Hf, HC. fold (nodes_list ts) in Hf, HC.
    cbn [offsets fmap list_fmap app foldl cells_list mbind option_bind].
    rewrite <- (assoc_L (∪)), Ht; [apply IH|lia|]; [lia|intros; apply HC; lia|].
    intros l Hl. apply lookup_union_None. split; [apply cells_list_outside; lia|apply HC; lia].
Qed.

(** Only aggregates have a vector. *)
Fixpoint typed_tree (t : reply) : Prop :=
  match t with
  | RStr ty _ => is_string ty = true
  | RAgg ty n ts =>
      is_aggregate ty = true /\ zlen ts <= n /\
      (fix all (ts : list reply) : Prop :=
         match ts with [] => True | t :: ts => typed_tree t /\ all ts end) ts
  | _ => True
  end.

Lemma typed_agg ty n ts :
  typed_tree (RAgg ty n ts) <-> is_aggregate ty = true /\ zlen ts <= n /\ Forall typed_tree ts.
Proof.
  simpl. assert ((fix all (ts : list reply) : Prop :=
    match ts with [] => True | t :: ts => typed_tree t /\ all ts end) ts <-> Forall typed_tree ts)
    as ->; [|done].
  induction ts as [|t ts IH]; [by split|]. by rewrite Forall_cons, IH.
Qed.

Lemma free_typed t : typed_tree t -> frees t.
Proof.
  induction t as [ty s|v|d s| |b|ty n ts IH] using reply_ind'; intros Ht fuel lo C nx Hf HC;
    (destruct fuel as [|fuel]; [simpl in Hf; lia|]).
  1: assert (is_aggregate ty = false) as Hty by
    (simpl in Ht; unfold is_string, is_aggregate, REDIS_REPLY_ERROR, REDIS_REPLY_STATUS,
       REDIS_REPLY_STRING, REDIS_REPLY_ARRAY, REDIS_REPLY_MAP, REDIS_REPLY_SET in *; lia).
  1-5: cbn [cells free_object h_cells]; rewrite <- insert_union_l, (left_id_L ∅ (∪)), lookup_insert_eq;
    simpl; rewrite ?Hty; unfold h_free; simpl; rewrite lookup_insert_eq; simpl;
    by rewrite delete_insert_id by (apply HC; simpl; lia).
  apply typed_agg in Ht as (Hty & Hn & Hts). pose proof (zlen_nonneg ts).
  assert (Forall frees ts) as Hfr.
  { rewrite Forall_forall in *. auto. }
  rewrite cells_agg. cbn [nodes] in *. fold (nodes_list ts) in *.
  cbn [free_object h_cells]. rewrite <- insert_union_l, lookup_insert_eq.
  cbn [mbind option_bind agg_cell rp_type rp_element rp_elements]. rewrite Hty.
  rewrite insert_union_r by (apply cells_list_outside; lia).
  assert (h_free (Heap (<[lo := agg_cell ty n (offsets (S lo) ts)]> C) nx) lo = Some (Heap C nx))
    as Hlo.
  { unfold h_free. simpl. rewrite lookup_insert_eq. simpl.
    by rewrite delete_insert_id by (apply HC; lia). }
  destruct (Z.ltb_spec 0 n) as [Hn0|Hn0].
  - assert (zlen (slots n (offsets (S lo) ts)) = n) as Hl.
    { unfold zlen in *. rewrite length_slots; rewrite ?length_offsets; lia. }
    rewrite Hl, Z.ltb_irrefl, ztake_all by lia. unfold slots.
    rewrite free_slots; [exact Hlo|done|lia|].
    intros l Hl'. rewrite lookup_insert_ne by lia. apply HC. lia.
  - assert (ts = []) as -> by (apply zlen_0_nil; lia). simpl in *.
    by rewrite (left_id_L ∅ (∪)).
Qed.

(** [freeReplyObject] on the root of a tree gives back the heap before it was
    built, apart from the locations that have been used. *)
Lemma freeReplyObject_tree t h :
  typed_tree t -> heap_ok h ->
  freeReplyObject (Some (h_next h)) (h_add t h) =
  Some (Heap (h_cells h) (h_next (h_add t h))).
Proof.
  intros Ht Hh. unfold freeReplyObject, h_add. simpl h_next. apply free_typed; [done|lia|].
  intros l Hl. apply Hh. lia.
Qed.

End tree.
