(* ===== verification/Resp.v ===== *)
(** * The protocol as a recursive descent parser

    [resp d s] reads one reply, with at most [d] levels of aggregates, from
    the bytes [s].  It is the specification of the reader with the default
    object functions: ReplyRefines shows that the reader, with its task stack
    and its heap of objects, computes it; this file shows that it reads back
    what [encode] writes. *)

From Stdlib Require Import Strings.Byte String.
From stdpp Require Import gmap.
From S2P Require Import Prelude CLib Buffer Read Parser ReadLines Reply Tree.

(** A reply and what follows it; the input is incomplete; an error, with its
    code and text; a container of more elements than an [int] can count. *)
Inductive rres {A : Type} :=
  | ROk (x : A) (rest : bytes)
  | RMore
  | RBad (code : Z) (msg : bytes)
  | RHuge.
Arguments rres : clear implicits.

Definition rbind {A B} (m : rres A) (k : A -> bytes -> rres B) : rres B :=
  match m with
  | ROk x rest => k x rest
  | RMore => RMore
  | RBad c m => RBad c m
  | RHuge => RHuge
  end.

Section resp.
Context {fl : FloatLib}.

Definition double_valid (s : bytes) (v : double) (n : Z) : bool :=
  negb (bool_decide (cstr s = [])) && bool_decide (zget (s ++ [NUL]) n = Some NUL)
  && negb (isnan v).

(** The value of a line of type [ty], or an error. *)
Definition resp_line (ty : Z) (s : bytes) : reply + bytes :=
  if ty =? REDIS_REPLY_INTEGER then
    match string2ll s with
    | Some v => inl (RInt v)
    | None => inr (bs "Bad integer value")
    end
  else if ty =? REDIS_REPLY_DOUBLE then
    if 326 <=? zlen s then inr (bs "Double value is too large")
    else if strcaseeq s (bs ",inf") then inl (RDbl (infinity true) s)
    else if strcaseeq s (bs ",-inf") then inl (RDbl (infinity false) s)
    else if double_valid s (strtod (cstr s)).1 (strtod (cstr s)).2
         then inl (RDbl (strtod (cstr s)).1 s)
         else inr (bs "Bad double value")
  else if ty =? REDIS_REPLY_NIL then inl RNil
  else if ty =? REDIS_REPLY_BOOL then
    inl (RBool match s with
               | b :: _ => bool_decide (b = Byte.x74) || bool_decide (b = Byte.x54)
               | [] => false
               end)
  else inl (RStr ty s).

Definition resp_bulk (s : bytes) : rres reply :=
  match split_line s with
  | None => RMore
  | Some (l, rest) =>
      match string2ll l with
      | None => RBad REDIS_ERR_PROTOCOL (bs "Bad bulk string length")
      | Some len =>
          if len <? -1 then RBad REDIS_ERR_PROTOCOL (bs "Bulk string length out of range")
          else if len =? -1 then ROk RNil rest
          else if len + 2 <=? zlen rest
               then ROk (RStr REDIS_REPLY_STRING (ztake len rest)) (zdrop (len + 2) rest)
               else RMore
      end
  end.

(** [k] values in a row.  Each takes a byte at least: fuel beyond the length
    of the input is enough. *)
Fixpoint elems (value : bytes -> rres reply) (fuel : nat) (k : Z) (s : bytes) :
    rres (list reply) :=
  if k <=? 0 then ROk [] s else
  match fuel with
  | O => RHuge
  | S f =>
      rbind (value s) (fun t s' =>
        rbind (elems value f (k - 1) s') (fun ts rest => ROk (t :: ts) rest))
  end.

Fixpoint resp (d : nat) (s : bytes) : rres reply :=
  match s with
  | [] => RMore
  | b :: s =>
      match reply_type b with
      | None => RBad REDIS_ERR_PROTOCOL (protocol_byte_text b)
      | Some ty =>
          if is_line ty then
            match split_line s with
            | None => RMore
            | Some (l, rest) =>
                match resp_line ty l with
                | inl t => ROk t rest
                | inr msg => RBad REDIS_ERR_PROTOCOL msg
                end
            end
          else if ty =? REDIS_REPLY_STRING then resp_bulk s
          else
            match d with
            | O => RBad REDIS_ERR_PROTOCOL
                     (bs "No support for nested multi bulk replies with depth > 7")
            | S d' =>
                match split_line s with
                | None => RMore
                | Some (l, rest) =>
                    match string2ll l with
                    | None => RBad REDIS_ERR_PROTOCOL (bs "Bad multi-bulk length")
                    | Some n =>
                        if n <? -1 then
                          RBad REDIS_ERR_PROTOCOL (bs "Multi-bulk length out of range")
                        else if n =? -1 then ROk RNil rest
                        else
                          let n := if ty =? REDIS_REPLY_MAP then n * 2 else n in
                          if INT_MAX <? n then RHuge else
                          rbind (elems (resp d') (S (length rest)) n rest)
                            (fun ts rest => ROk (RAgg ty n ts) rest)
                    end
                end
            end
      end
  end.

(** ** Every reply consumes input *)

Definition consumes (value : bytes -> rres reply) : Prop :=
  forall s t rest, value s = ROk t rest -> (length rest < length s)%nat.

Lemma elems_consumes value fuel k s ts rest :
  consumes value -> elems value fuel k s = ROk ts rest -> (length rest <= length s)%nat.
Proof.
  intros Hv. revert k s ts rest. induction fuel as [|f IH]; intros k s ts rest; simpl;
    (destruct (k <=? 0); [intros [= <- <-]; lia|]); [done|].
  destruct (value s) as [t s'| | |] eqn:E; simpl; [|done..].
  destruct (elems value f (k - 1) s') as [us s''| | |] eqn:E'; simpl; [|done..].
  intros [= <- <-]. apply Hv in E. apply IH in E'. lia.
Qed.

Lemma elems_S value f k s :
  elems value (S f) k s =
  if k <=? 0 then ROk [] s else
  rbind (value s) (fun t s' =>
    rbind (elems value f (k - 1) s') (fun ts rest => ROk (t :: ts) rest)).
Proof. done. Qed.

#[local] Arguments elems : simpl never.

Lemma resp_consumes d : consumes (resp d).
Proof.
  induction d as [|d IH]; intros s t rest; (destruct s as [|b s]; [done|]); simpl;
    (destruct (reply_type b) as [ty|]; [|done]);
    (destruct (is_line ty); [|destruct (ty =? REDIS_REPLY_STRING)]);
    unfold resp_bulk; try done.
  all: destruct (split_line s) as [[l r]|] eqn:Es; [|done];
    pose proof (split_line_length _ _ _ Es).
  1, 3: destruct (resp_line ty l); [|done]; intros [= <- <-]; lia.
  all: destruct (string2ll l) as [n|]; [|done]; destruct (n <? -1); [done|];
    (destruct (n =? -1); [intros [= <- <-]; lia|]).
  1, 2: destruct (n + 2 <=? zlen r); [|done]; intros [= <- <-]; unfold zdrop;
    rewrite length_drop; lia.
  set (k := if _ =? _ then _ else n). destruct (INT_MAX <? k); [done|].
  destruct (elems (resp d) (S (length r)) k r) as [ts s'| | |] eqn:E; simpl; [|done..].
  apply elems_consumes in E; [intros [= <- <-]; lia|done].
Qed.

(** More fuel than bytes is enough fuel. *)
Lemma elems_fuel value f g k s :
  consumes value -> (length s < f)%nat -> (length s < g)%nat ->
  elems value f k s = elems value g k s.
Proof.
  intros Hv. revert g k s. induction f as [|f IH]; intros g k s Hf Hg; [lia|].
  destruct g as [|g]; [lia|]. rewrite !elems_S. destruct (k <=? 0); [done|].
  destruct (value s) as [t s'| | |] eqn:E; simpl; [|done..].
  apply Hv in E. by rewrite (IH g) by lia.
Qed.

(** The elements of a container, one at a time. *)
Definition elements (value : bytes -> rres reply) (k : Z) (s : bytes) : rres (list reply) :=
  elems value (S (length s)) k s.

Lemma elements_eq value k s :
  consumes value ->
  elements value k s =
  if k <=? 0 then ROk [] s else
  rbind (value s) (fun t s' =>
    rbind (elements value (k - 1) s') (fun ts rest => ROk (t :: ts) rest)).
Proof.
  intros Hv. unfold elements at 1. rewrite elems_S. destruct (k <=? 0); [done|].
  destruct (value s) as [t s'| | |] eqn:E; simpl; [|done..].
  unfold elements. by rewrite (elems_fuel _ (length s) (S (length s'))) by (apply Hv in E; done || lia).
Qed.

(** ** Writing replies *)

Definition type_byte (ty : Z) : byte :=
  if ty =? REDIS_REPLY_ERROR then Byte.x2d
  else if ty =? REDIS_REPLY_STATUS then Byte.x2b
  else if ty =? REDIS_REPLY_INTEGER then Byte.x3a
  else if ty =? REDIS_REPLY_DOUBLE then Byte.x2c
  else if ty =? REDIS_REPLY_NIL then Byte.x5f
  else if ty =? REDIS_REPLY_STRING then Byte.x24
  else if ty =? REDIS_REPLY_ARRAY then Byte.x2a
  else if ty =? REDIS_REPLY_MAP then Byte.x25
  else if ty =? REDIS_REPLY_SET then Byte.x7e
  else Byte.x23.

(** The bytes a server sends for a reply (RESP 3). *)
Fixpoint encode (t : reply) : bytes :=
  match t with
  | RStr ty s =>
      if ty =? REDIS_REPLY_STRING
      then type_byte ty :: dec (zlen s) ++ crlf ++ s ++ crlf
      else type_byte ty :: s ++ crlf
  | RInt v => type_byte REDIS_REPLY_INTEGER :: dec v ++ crlf
  | RDbl _ s => type_byte REDIS_REPLY_DOUBLE :: s ++ crlf
  | RNil => type_byte REDIS_REPLY_NIL :: crlf
  | RBool b => type_byte REDIS_REPLY_BOOL :: (if b then Byte.x74 else Byte.x66) :: crlf
  | RAgg ty n ts =>
      type_byte ty :: dec (if ty =? REDIS_REPLY_MAP then n / 2 else n) ++ crlf ++
        foldr (fun t l => encode t ++ l) [] ts
  end.

(** Replies with [d] levels of aggregates at most that have an encoding. *)
Fixpoint wf_reply (d : nat) (t : reply) {struct t} : Prop :=
  match t with
  | RStr ty s =>
      is_string ty = true /\
      (if ty =? REDIS_REPLY_STRING then zlen s <= LLONG_MAX else CR ∉ s)
  | RInt v => LLONG_MIN <= v <= LLONG_MAX
  | RDbl v s =>
      CR ∉ s /\ zlen s < 326 /\ strcaseeq s (bs ",inf") = false /\
      strcaseeq s (bs ",-inf") = false /\ v = (strtod (cstr s)).1 /\
      double_valid s (strtod (cstr s)).1 (strtod (cstr s)).2 = true
  | RNil | RBool _ => True
  | RAgg ty n ts =>
      match d with
      | O => False
      | S d' =>
          is_aggregate ty = true /\ n = zlen ts /\ n <= INT_MAX /\
          (ty = REDIS_REPLY_MAP -> Z.even n = true) /\
          foldr (fun t P => wf_reply d' t /\ P) True ts
      end
  end.

Lemma wf_agg d ty n ts :
  wf_reply d (RAgg ty n ts) <->
  exists d', d = S d' /\ is_aggregate ty = true /\ n = zlen ts /\ n <= INT_MAX /\
    (ty = REDIS_REPLY_MAP -> Z.even n = true) /\ Forall (wf_reply d') ts.
Proof.
  assert (forall d', foldr (fun t P => wf_reply d' t /\ P) True ts <-> Forall (wf_reply d') ts) as Hf.
  { intros d'. induction ts as [|t ts IH]; [done|]. simpl. by rewrite Forall_cons, IH. }
  destruct d as [|d]; cbn [wf_reply]; [split; [done|by intros (? & ? & _)]|]. rewrite Hf.
  split; [intros Hw; by exists d|]. by intros (d' & [= <-] & Hw).
Qed.

Lemma split_dec v rest : split_line (dec v ++ crlf ++ rest) = Some (dec v, rest).
Proof. apply split_line_no_cr, dec_no_cr. Qed.

Lemma string2ll_of v : LLONG_MIN <= v <= LLONG_MAX -> string2ll (dec v) = Some v.
Proof. intros. by apply string2ll_dec. Qed.

Lemma resp_cons d b s ty :
  reply_type b = Some ty ->
  resp d (b :: s) =
  if is_line ty then
    match split_line s with
    | None => RMore
    | Some (l, rest) =>
        match resp_line ty l with
        | inl t => ROk t rest
        | inr msg => RBad REDIS_ERR_PROTOCOL msg
        end
    end
  else if ty =? REDIS_REPLY_STRING then resp_bulk s
  else
    match d with
    | O => RBad REDIS_ERR_PROTOCOL
             (bs "No support for nested multi bulk replies with depth > 7")
    | S d' =>
        match split_line s with
        | None => RMore
        | Some (l, rest) =>
            match string2ll l with
            | None => RBad REDIS_ERR_PROTOCOL (bs "Bad multi-bulk length")
            | Some n =>
                if n <? -1 then RBad REDIS_ERR_PROTOCOL (bs "Multi-bulk length out of range")
                else if n =? -1 then ROk RNil rest
                else
                  let n := if ty =? REDIS_REPLY_MAP then n * 2 else n in
                  if INT_MAX <? n then RHuge else
                  rbind (elements (resp d') n rest) (fun ts rest => ROk (RAgg ty n ts) rest)
            end
        end
    end.
Proof. intros E. destruct d; simpl; by rewrite E. Qed.

(** A line item of type [ty]. *)
Lemma resp_line_item d ty l rest t :
  is_line ty = true -> reply_type (type_byte ty) = Some ty -> CR ∉ l ->
  resp_line ty l = inl t ->
  resp d (type_byte ty :: l ++ crlf ++ rest) = ROk t rest.
Proof.
  intros Hl Ht Hcr Hr. rewrite (resp_cons _ _ _ ty) by done.
  rewrite Hl, split_line_no_cr by done. by rewrite Hr.
Qed.

Lemma elements_encode value ts rest :
  consumes value ->
  Forall (fun t => forall rest, value (encode t ++ rest) = ROk t rest) ts ->
  elements value (zlen ts) (foldr (fun t l => encode t ++ l) [] ts ++ rest) = ROk ts rest.
Proof.
  intros Hv. induction 1 as [|t ts Ht _ IH]; rewrite elements_eq by done; [done|].
  rewrite zlen_cons. pose proof (zlen_nonneg ts). rewrite (proj2 (Z.leb_gt _ 0)) by lia.
  simpl. rewrite <- (assoc_L (++)), Ht. simpl.
  replace (1 + zlen ts - 1) with (zlen ts) by lia. by rewrite IH.
Qed.

(** Reading back what was written. *)
Lemma resp_encode t d rest : wf_reply d t -> resp d (encode t ++ rest) = ROk t rest.
Proof.
  revert d rest. induction t as [ty s|v|v s| |b|ty n ts IH] using reply_ind'; intros d rest Hw.
  - destruct Hw as [Hty Hs]. cbn [encode].
    destruct (Z.eqb_spec ty REDIS_REPLY_STRING) as [->|Hn].
    + rewrite <- app_comm_cons, <- !(assoc_L (++)).
      rewrite (resp_cons _ _ _ REDIS_REPLY_STRING) by done.
      change (is_line REDIS_REPLY_STRING) with false.
      change (REDIS_REPLY_STRING =? REDIS_REPLY_STRING) with true. cbv iota.
      pose proof (zlen_nonneg s). unfold resp_bulk. rewrite split_dec, string2ll_of by width_lia.
      rewrite (proj2 (Z.ltb_ge _ _)), (proj2 (Z.eqb_neq _ _)) by lia.
      rewrite (proj2 (Z.leb_le _ _)) by (unfold crlf; zlia).
      rewrite ztake_app_len, zdrop_app_r by lia. by replace (zlen s + 2 - zlen s) with 2 by lia.
    + assert (is_line ty = true /\ reply_type (type_byte ty) = Some ty /\ resp_line ty s = inl (RStr ty s))
        as (Hl & Ht & Hr).
      { unfold is_string in Hty. destruct (Z.eqb_spec ty REDIS_REPLY_ERROR) as [->|]; [done|].
        destruct (Z.eqb_spec ty REDIS_REPLY_STATUS) as [->|]; [done|].
        by rewrite (proj2 (Z.eqb_neq _ _) Hn) in Hty. }
      rewrite <- app_comm_cons, <- (assoc_L (++)). by apply resp_line_item.
  - cbn [encode]. rewrite <- app_comm_cons, <- (assoc_L (++)).
    apply resp_line_item; [done|done|apply dec_no_cr|]. unfold resp_line. simpl.
    by rewrite string2ll_of.
  - destruct Hw as (Hcr & Hl & H1 & H2 & -> & Hd).
    cbn [encode]. rewrite <- app_comm_cons, <- (assoc_L (++)).
    apply resp_line_item; [done..|]. unfold resp_line. simpl.
    by rewrite (proj2 (Z.leb_gt _ _)), H1, H2, Hd by lia.
  - cbn [encode]. rewrite <- app_comm_cons.
    by apply (resp_line_item d REDIS_REPLY_NIL []); [..|apply not_elem_of_nil|].
  - cbn [encode]. rewrite <- !app_comm_cons.
    destruct b; apply (resp_line_item d REDIS_REPLY_BOOL [_]); try done; set_solver.
  - apply wf_agg in Hw as (d' & -> & Hty & -> & Hn & Hmap & Hts).
    assert (Forall (fun t => forall rest, resp d' (encode t ++ rest) = ROk t rest) ts) as Hf.
    { rewrite Forall_forall in *. intros t Ht rest'. by apply IH; [|apply Hts]. }
    cbn [encode]. rewrite <- app_comm_cons, <- !(assoc_L (++)).
    assert (reply_type (type_byte ty) = Some ty /\ is_line ty = false /\
            (ty =? REDIS_REPLY_STRING) = false) as (Ht & Hl & Hns).
    { unfold is_aggregate in Hty. destruct (Z.eqb_spec ty REDIS_REPLY_ARRAY) as [->|]; [done|].
      destruct (Z.eqb_spec ty REDIS_REPLY_MAP) as [->|]; [done|].
      destruct (Z.eqb_spec ty REDIS_REPLY_SET) as [->|]; [done|]. done. }
    rewrite (resp_cons _ _ _ ty), Hl, Hns, split_dec by done.
    pose proof (zlen_nonneg ts). set (k := if ty =? REDIS_REPLY_MAP then _ else zlen ts).
    assert (0 <= k <= INT_MAX /\ (if ty =? REDIS_REPLY_MAP then k * 2 else k) = zlen ts)
      as [Hk Ek].
    { subst k. destruct (Z.eqb_spec ty REDIS_REPLY_MAP) as [E|]; [|lia].
      specialize (Hmap E). apply Zeven_bool_iff, Zeven_div2 in Hmap.
      rewrite Z.div2_div in Hmap. lia. }
    rewrite string2ll_of by width_lia.
    rewrite (proj2 (Z.ltb_ge _ (-1))), (proj2 (Z.eqb_neq _ (-1))) by lia. cbv zeta. rewrite Ek.
    rewrite (proj2 (Z.ltb_ge _ _)) by lia.
    by rewrite elements_encode by (apply resp_consumes || done).
Qed.

End resp.
