(* ===== verification/ReplyRefines.v ===== *)
(** * The default object functions compute the recursive descent parser

    [ready h0 p fs h]: the parser [p] waits for a value inside the containers
    [fs], and the heap is [h0] with the tree read so far.  From such a state
    the parser reads what [resp] reads, builds its tree, and on an error frees
    all of it. *)

From Stdlib Require Import Strings.Byte String.
From stdpp Require Import gmap.
From S2P Require Import Prelude CLib Buffer Read Parser ReadLines Replies Reply Tree Resp ReaderRefines.
From S2P Require Import Session.

(** What the reader relies on of [strtod]: the end of the number is inside
    the string. *)
Definition strtod_bounded {fl : FloatLib} : Prop := forall s, 0 <= (strtod s).2 <= zlen s.

#[local] Arguments hole : simpl never.
#[local] Arguments elems : simpl never.

Section refines.
Context {al : Allocator} {fl : FloatLib}.
Hypothesis Hal : alloc_total al.
Hypothesis Hstrtod : strtod_bounded.
Implicit Types (st : list redisReadTask) (fs : list frame) (h : heap) (p : parser) (t : reply).

(** The heap with the containers that are open. *)
Definition heap_of h0 fs : heap :=
  match fs with
  | [] => h0
  | f :: fs' => h_add (plug (frame_tree f) fs') h0
  end.

(** The index and the parent of the task of a value inside [fs]. *)
Definition task_in (cur : redisReadTask) fs : Prop :=
  match fs with
  | [] => t_parent cur = None
  | f :: fs' => t_idx cur = zlen (f_done f) /\ t_parent cur = Some (length fs')
  end.

Definition frame_ok (lo : nat) (ct : redisReadTask) (f : frame) fs : Prop :=
  t_type ct = f_type f /\ t_elements ct = f_n f /\ t_obj ct = Some (OLoc (hole lo fs)) /\
  is_aggregate (f_type f) = true /\ zlen (f_done f) < f_n f <= INT_MAX /\
  Forall typed_tree (f_done f) /\ task_in ct fs.

(** The tasks of the open containers. *)
Fixpoint frames_ok (lo : nat) st fs : Prop :=
  match fs with
  | [] => True
  | f :: fs' =>
      (exists ct, st !! length fs' = Some ct /\ frame_ok lo ct f fs') /\ frames_ok lo st fs'
  end.

Definition root_reply h0 fs : option optr :=
  match fs with [] => None | _ => Some (OLoc (h_next h0)) end.

Record ready h0 p fs h : Prop := Ready {
  rd_ridx : p_ridx p = Z.of_nat (length fs);
  rd_depth : (length fs <= 8)%nat;
  rd_stack : length (p_stack p) = 9%nat;
  rd_frames : frames_ok (h_next h0) (p_stack p) fs;
  rd_heap : h = heap_of h0 fs;
  rd_reply : p_reply p = root_reply h0 fs;
  rd_task : exists cur, p_stack p !! length fs = Some cur /\ t_type cur = -1 /\ task_in cur fs
}.

(** ** Creating an object *)

Lemma heap_of_next h0 fs : h_next (heap_of h0 fs) = hole (h_next h0) fs.
Proof.
  destruct fs as [|f fs]; [done|]. simpl. rewrite nodes_plug, hole_cons. done.
Qed.

(** A new object [t], linked into the innermost container. *)
Lemma attach_in st task fs h0 t :
  frames_ok (h_next h0) st fs -> task_in task fs -> nodes t = 1%nat ->
  let h := heap_of h0 fs in
  attach st task (h_next h)
    (Heap (<[h_next h := root_cell (h_next h) t]> (h_cells h)) (S (h_next h)))
  = Some (h_add (plug t fs) h0).
Proof.
  intros Hfs Htask Ht. destruct fs as [|f fs].
  - simpl. unfold attach. rewrite Htask. unfold h_add. rewrite cells_unit, Ht by done.
    rewrite <- insert_union_singleton_l. do 2 f_equal. lia.
  - destruct Hfs as [(ct & Hct & _ & _ & Hobj & Hty & Hn & _) _]. destruct Htask as [Hidx Hpar].
    by apply (attach_tree st task (length fs) ct); try done; lia.
Qed.

Definition created (fs : list frame) h0 t (m : option (option optr * nat * heap)) : Prop :=
  exists a', m = Some (Some (OLoc (hole (h_next h0) fs)), a', h_add (plug t fs) h0).

Lemma create_reply_ok ty a h :
  createReplyObject ty a h =
  (Some (h_next h), S a, Heap (<[h_next h := Reply ty 0 None 0 None 0 None]> (h_cells h)) (S (h_next h))).
Proof.
  unfold createReplyObject, calloc. change (SIZE_MAX <? 1 * sizeof_redisReply) with false.
  cbv iota. by rewrite (malloc_ok Hal).
Qed.

Section create.
Variables (st : list redisReadTask) (task : redisReadTask) (fs : list frame) (h0 : heap).
Variables (i a : nat).
Hypothesis Hst : st !! i = Some task.
Hypothesis Hfs : frames_ok (h_next h0) st fs.
Hypothesis Htask : task_in task fs.

(** The common end of the creation functions. *)
Lemma created_attached t a' h :
  nodes t = 1%nat ->
  h = Heap (<[hole (h_next h0) fs := root_cell (hole (h_next h0) fs) t]> (h_cells (heap_of h0 fs)))
           (S (hole (h_next h0) fs)) ->
  created fs h0 t (attached st task (hole (h_next h0) fs) a' h).
Proof.
  intros Ht ->. exists a'. unfold attached.
  pose proof (attach_in st task fs h0 t Hfs Htask Ht) as Ha. simpl in Ha.
  rewrite heap_of_next in Ha. by rewrite Ha.
Qed.

Ltac create_start :=
  rewrite Hst; cbn [mbind option_bind]; rewrite create_reply_ok, ?(malloc_ok Hal), heap_of_next;
  cbn [negb mbind option_bind h_cells]; rewrite ?lookup_insert_eq;
  cbn [mbind option_bind rp_type rp_integer rp_dval rp_len rp_str rp_elements rp_element].

Lemma create_string_in s :
  is_string (t_type task) = true ->
  created fs h0 (RStr (t_type task) s) (createStringObject st i s a (heap_of h0 fs)).
Proof.
  intros Hty. unfold createStringObject. create_start. rewrite Hty.
  apply created_attached; [done|]. unfold h_set. simpl. by rewrite insert_insert_eq.
Qed.

Lemma create_array_in n :
  0 <= n <= INT_MAX ->
  created fs h0 (RAgg (t_type task) n []) (createArrayObject st i n a (heap_of h0 fs)).
Proof.
  intros Hn. unfold createArrayObject. create_start.
  assert ((if 0 <? n then calloc (S a) n sizeof_ptr else (true, S a)).1 = true) as Hok.
  { destruct (0 <? n); [|done]. unfold calloc, sizeof_ptr.
    rewrite (proj2 (Z.ltb_ge SIZE_MAX (n * 8))) by width_lia. by rewrite (malloc_ok Hal). }
  destruct (if 0 <? n then _ else _) as [ok a1]. simpl in Hok. subst ok.
  cbn [negb mbind option_bind rp_type rp_integer rp_dval rp_len rp_str rp_element].
  apply created_attached; [done|]. unfold h_set. simpl. rewrite insert_insert_eq.
  unfold agg_cell, slots. simpl. by rewrite Nat.sub_0_r.
Qed.

Lemma create_integer_in v : created fs h0 (RInt v) (createIntegerObject st i v a (heap_of h0 fs)).
Proof.
  unfold createIntegerObject. create_start. apply created_attached; [done|].
  unfold h_set. simpl. by rewrite insert_insert_eq.
Qed.

Lemma create_double_in v s :
  created fs h0 (RDbl v s) (createDoubleObject st i v s a (heap_of h0 fs)).
Proof.
  unfold createDoubleObject. create_start. apply created_attached; [done|].
  unfold h_set. simpl. by rewrite insert_insert_eq.
Qed.

Lemma create_nil_in : created fs h0 RNil (createNilObject st i a (heap_of h0 fs)).
Proof. unfold createNilObject. create_start. by apply created_attached. Qed.

Lemma create_bool_in (v : bool) :
  created fs h0 (RBool v) (createBoolObject st i (if v then 1 else 0) a (heap_of h0 fs)).
Proof.
  unfold createBoolObject. create_start. apply created_attached; [done|].
  unfold h_set. simpl. rewrite insert_insert_eq. by destruct v.
Qed.

End create.

(** ** Frames and stacks *)

Lemma frames_insert lo st fs i x :
  (length fs <= i)%nat -> frames_ok lo st fs -> frames_ok lo (<[i := x]> st) fs.
Proof.
  induction fs as [|f fs IH]; [done|]. simpl. intros Hi [(ct & Hct & Hf) Hfs]. split.
  - exists ct. by rewrite list_lookup_insert_ne by lia.
  - apply IH; [lia|done].
Qed.

Lemma plug_typed lo st fs t :
  frames_ok lo st fs -> typed_tree t -> typed_tree (plug t fs).
Proof.
  revert t. induction fs as [|f fs IH]; intros t; [done|].
  intros [(ct & _ & _ & _ & _ & Hty & Hn & Hts & _) Hfs] Ht. simpl. apply IH; [done|].
  apply typed_agg. split_and!; [done|simpl; autorewrite with zlen; lia|].
  apply Forall_app. auto.
Qed.

(** What the reply field of a parser owns. *)
Definition owned h0 (reply : option optr) h : Prop :=
  match reply with
  | None => h = h0
  | Some o => o = OLoc (h_next h0) /\ exists t, typed_tree t /\ h = h_add t h0
  end.

Lemma heap_of_owned h0 st fs :
  frames_ok (h_next h0) st fs -> owned h0 (root_reply h0 fs) (heap_of h0 fs).
Proof.
  destruct fs as [|f fs]; [done|]. intros [(ct & _ & _ & _ & _ & Hty & Hn & Hts & _) Hfs].
  split; [done|]. exists (plug (frame_tree f) fs). split; [|done].
  eapply plug_typed; [done|]. apply typed_agg. split_and!; done || lia.
Qed.

Abbreviation fnd := (Some defaultFunctions).

(** [h] has the cells of [h0]; locations may have been used since. *)
Definition gives_back h0 h : Prop := h_cells h = h_cells h0 /\ (h_next h0 <= h_next h)%nat.

(** Freeing what the reply field owns gives the heap back. *)
Lemma free_owned h0 reply h :
  heap_ok h0 -> owned h0 reply h ->
  exists b h', free_reply fnd reply h = Some (b, h') /\ gives_back h0 h' /\
    (if b then None else reply) = None.
Proof.
  intros Hh. unfold free_reply. destruct reply as [o|].
  - intros [-> (t & Ht & ->)]. cbn [mbind option_bind defaultFunctions freeObject free_reply_object].
    rewrite freeReplyObject_tree by done. simpl. do 2 eexists. split; [done|].
    split; [|done]. split; [done|]. simpl. lia.
  - intros ->. exists false, h0. by split; [|split; [split|]].
Qed.

Lemma bad_in h0 p c m a h :
  heap_ok h0 -> owned h0 (p_reply p) h ->
  exists h', bad fnd p c m a h = Some (Bad c m None, a, h') /\ gives_back h0 h'.
Proof.
  intros Hh Ho. destruct (free_owned h0 _ _ Hh Ho) as (b & h' & E & Hc & Hr).
  exists h'. unfold bad. rewrite E. simpl. by rewrite Hr.
Qed.

(** ** Reading a value *)

(** The state once the value [t] is complete, and the parse from there. *)
Definition cont (priv : Z) h0 fs st (rest : bytes) t (a : nat) : option (outcome * nat * heap) :=
  n ← next_task (length fs) st;
  parse fnd (Parser rest n.1 n.2 (Some (OLoc (h_next h0))) priv) a (h_add (plug t fs) h0).

Definition reads h0 fs p a h (m : rres reply) : Prop :=
  match m with
  | ROk t rest =>
      typed_tree t /\ exists st a', parse fnd p a h = cont (p_priv p) h0 fs st rest t a' /\
        length st = 9%nat /\ frames_ok (h_next h0) st fs /\
        exists cur, st !! length fs = Some cur /\ task_in cur fs
  | RMore => exists q a' h', parse fnd p a h = Some (More q, a', h') /\ owned h0 (p_reply q) h'
  | RBad c m => exists a' h', parse fnd p a h = Some (Bad c m None, a', h') /\
                         gives_back h0 h'
  | RHuge => True
  end.

(** The parser after the type byte. *)
Record typed_in h0 p (p1 : parser) (cur1 : redisReadTask) fs (a : nat) h : Prop := Typed {
  ty_parse : parse fnd p a h =
    (o ← typed_item fnd p1 cur1 a h;
     match o with (Done q, a, h) => parse fnd q a h | _ => Some o end);
  ty_stack : length (p_stack p1) = 9%nat;
  ty_ridx : p_ridx p1 = Z.of_nat (length fs);
  ty_priv : p_priv p1 = p_priv p;
  ty_frames : frames_ok (h_next h0) (p_stack p1) fs;
  ty_cur : p_stack p1 !! length fs = Some cur1;
  ty_task : task_in cur1 fs;
  ty_heap : h = heap_of h0 fs;
  ty_owned : owned h0 (p_reply p1) h;
  ty_reply : p_reply p1 = root_reply h0 fs
}.

Lemma ready_typed h0 p fs h a b s ty :
  ready h0 p fs h -> p_rest p = b :: s -> reply_type b = Some ty ->
  exists p1 cur1, p_rest p1 = s /\ t_type cur1 = ty /\ typed_in h0 p p1 cur1 fs a h.
Proof.
  intros [] Er Ety. destruct rd_task0 as (cur & Hc & Hty & Ht).
  assert (zget (p_stack p) (p_ridx p) = Some cur) as Hz.
  { unfold zget. rewrite rd_ridx0. rewrite (proj2 (Z.leb_le 0 _)) by lia. by rewrite Nat2Z.id. }
  exists (typed p s (task_type cur ty)), (task_type cur ty). split; [done|]. split; [done|].
  unfold typed. rewrite rd_ridx0, Nat2Z.id. split; simpl; try done.
  - rewrite parse_eq. rewrite rd_ridx0 at 1. rewrite (proj2 (Z.ltb_ge _ 0)) by lia.
    unfold item. rewrite Hz. simpl. rewrite Hty. simpl. rewrite Er, Ety.
    unfold typed. by rewrite rd_ridx0, Nat2Z.id.
  - by rewrite length_insert.
  - by apply frames_insert.
  - apply list_lookup_insert_eq. lia.
  - rewrite rd_reply0, rd_heap0. by eapply heap_of_owned.
Qed.

(** The item is finished. *)
Lemma reads_finish h0 p p1 cur1 fs a h a' t rest :
  typed_in h0 p p1 cur1 fs a h -> typed_tree t ->
  typed_item fnd p1 cur1 a h =
    finish fnd p1 rest (Some (OLoc (hole (h_next h0) fs))) a' (h_add (plug t fs) h0) ->
  reads h0 fs p a h (ROk t rest).
Proof.
  intros [] Ht E. split; [done|]. exists (p_stack p1), a'. split; [|by eauto].
  rewrite ty_parse0, E. unfold finish, cont, set_root. rewrite ty_ridx0, Nat2Z.id, ty_priv0.
  destruct (next_task _ _) as [n|]; [|done]. simpl. rewrite ty_reply0.
  destruct fs as [|f fs]; [done|].
  by rewrite (proj2 (Z.eqb_neq (Z.of_nat (length (f :: fs))) 0)) by (simpl; lia).
Qed.

Lemma reads_bad h0 p p1 cur1 fs a h c m :
  heap_ok h0 -> typed_in h0 p p1 cur1 fs a h ->
  typed_item fnd p1 cur1 a h = bad fnd p1 c m a h -> reads h0 fs p a h (RBad c m).
Proof.
  intros Hh [] E. destruct (bad_in h0 p1 c m a h Hh ty_owned0) as (h' & Eb & Hc).
  exists a, h'. by rewrite ty_parse0, E, Eb.
Qed.

Lemma reads_more h0 p p1 cur1 fs a h :
  typed_in h0 p p1 cur1 fs a h -> typed_item fnd p1 cur1 a h = Some (More p1, a, h) ->
  reads h0 fs p a h RMore.
Proof. intros [] E. exists p1, a, h. by rewrite ty_parse0, E. Qed.

(** ** Line and bulk items *)

Lemma is_line_string ty :
  is_line ty = true -> ty <> REDIS_REPLY_INTEGER -> ty <> REDIS_REPLY_DOUBLE ->
  ty <> REDIS_REPLY_NIL -> ty <> REDIS_REPLY_BOOL -> is_string ty = true.
Proof. unfold is_line, is_string. lia. Qed.

(** The object of a line: the tree that the line stands for. *)
Lemma line_reply_in st task fs h0 a s :
  st !! length fs = Some task -> frames_ok (h_next h0) st fs -> task_in task fs ->
  is_line (t_type task) = true ->
  match resp_line (t_type task) s with
  | inl t => typed_tree t /\ exists a', line_reply fnd st (length fs) (t_type task) s a (heap_of h0 fs) =
      Some (inl (Some (OLoc (hole (h_next h0) fs)), a', h_add (plug t fs) h0))
  | inr msg => line_reply fnd st (length fs) (t_type task) s a (heap_of h0 fs) = Some (inr msg)
  end.
Proof.
  intros Hst Hfs Ht Hline.
  assert (forall t m, created fs h0 t m -> typed_tree t -> typed_tree t /\ exists a',
    inl (B := bytes) <$> m = Some (inl (Some (OLoc (hole (h_next h0) fs)), a', h_add (plug t fs) h0)))
    as Hc by (intros t m [a' ->] ?; eauto).
  unfold resp_line, line_reply.
  destruct (Z.eqb_spec (t_type task) REDIS_REPLY_INTEGER).
  { simpl. destruct (string2ll s); [|done]. apply Hc; [by eapply create_integer_in|done]. }
  destruct (Z.eqb_spec (t_type task) REDIS_REPLY_DOUBLE).
  { simpl. destruct (326 <=? zlen s); [done|].
    destruct (strcaseeq s (bs ",inf")); [apply Hc; [by eapply create_double_in|done]|].
    destruct (strcaseeq s (bs ",-inf")); [apply Hc; [by eapply create_double_in|done]|].
    unfold double_valid. pose proof (Hstrtod (cstr s)) as Hb. pose proof (cstr_length s).
    destruct (strtod (cstr s)) as [v k]. cbn [fst snd] in *.
    destruct (zget_is_Some (s ++ [NUL]) k) as [c He]; [zlia|]. rewrite He. simpl.
    destruct (bool_decide (cstr s = [])); [done|]. simpl.
    assert (bool_decide (Some c = Some NUL) = bool_decide (c = NUL)) as ->
      by (apply bool_decide_ext; split; congruence).
    destruct (bool_decide (c = NUL)); [|done]. simpl. destruct (isnan v); [done|]. simpl.
    apply (Hc (RDbl v s)); [by eapply create_double_in|done]. }
  destruct (Z.eqb_spec (t_type task) REDIS_REPLY_NIL).
  { apply Hc; [by eapply create_nil_in|done]. }
  destruct (Z.eqb_spec (t_type task) REDIS_REPLY_BOOL).
  { simpl. eapply (Hc (RBool _)); [by eapply create_bool_in|done]. }
  pose proof (is_line_string _ Hline) as Hs. apply Hc; [|by apply Hs].
  eapply create_string_in; [done..|]. by apply Hs.
Qed.

(** An aggregate [RAgg] from a state inside it: the value it completes. *)
Definition close_agg (f : frame) (m : rres (list reply)) : rres reply :=
  rbind m (fun ts rest => ROk (RAgg (f_type f) (f_n f) (f_done f ++ ts)) rest).

Section value.
Variable h0 : heap.
Hypothesis Hh0 : heap_ok h0.

Lemma line_in p p1 cur1 fs a h :
  typed_in h0 p p1 cur1 fs a h -> is_line (t_type cur1) = true ->
  reads h0 fs p a h
    match split_line (p_rest p1) with
    | None => RMore
    | Some (l, rest) =>
        match resp_line (t_type cur1) l with
        | inl t => ROk t rest
        | inr msg => RBad REDIS_ERR_PROTOCOL msg
        end
    end.
Proof.
  intros Hty Hline. assert (typed_item fnd p1 cur1 a h = line_item fnd p1 (t_type cur1) a h) as E.
  { unfold typed_item. by rewrite Hline. }
  unfold line_item in E. destruct (split_line (p_rest p1)) as [[l rest]|].
  2: { by eapply reads_more. }
  pose proof (line_reply_in (p_stack p1) cur1 fs h0 a l (ty_cur _ _ _ _ _ _ _ Hty)
    (ty_frames _ _ _ _ _ _ _ Hty) (ty_task _ _ _ _ _ _ _ Hty) Hline) as Hl.
  rewrite (ty_ridx _ _ _ _ _ _ _ Hty), Nat2Z.id in E.
  rewrite <- (ty_heap _ _ _ _ _ _ _ Hty) in Hl.
  destruct (resp_line (t_type cur1) l) as [t|msg].
  - destruct Hl as (Ht & a' & El). rewrite El in E. by eapply reads_finish.
  - rewrite Hl in E. by eapply reads_bad.
Qed.

Lemma bulk_in p p1 cur1 fs a h :
  typed_in h0 p p1 cur1 fs a h -> t_type cur1 = REDIS_REPLY_STRING ->
  reads h0 fs p a h (resp_bulk (p_rest p1)).
Proof.
  intros Hty Hs. assert (typed_item fnd p1 cur1 a h = bulk_item fnd p1 a h) as E.
  { unfold typed_item. by rewrite Hs. }
  unfold bulk_item in E. unfold resp_bulk.
  destruct (split_line (p_rest p1)) as [[l rest]|]; [|by eapply reads_more].
  destruct (string2ll l) as [len|]; [|by eapply reads_bad].
  destruct (len <? -1); [by eapply reads_bad|].
  rewrite (ty_ridx _ _ _ _ _ _ _ Hty), Nat2Z.id, (ty_heap _ _ _ _ _ _ _ Hty) in E.
  pose proof (ty_cur _ _ _ _ _ _ _ Hty) as Hc. pose proof (ty_frames _ _ _ _ _ _ _ Hty) as Hf.
  pose proof (ty_task _ _ _ _ _ _ _ Hty) as Ht.
  rewrite <- (ty_heap _ _ _ _ _ _ _ Hty) in E at 1.
  destruct (len =? -1).
  { destruct (create_nil_in (p_stack p1) cur1 fs h0 (length fs) a Hc Hf Ht) as [a' Ec].
    unfold mk_nil in E. simpl in E. rewrite Ec in E. by eapply reads_finish. }
  destruct (len + 2 <=? zlen rest).
  - assert (is_string (t_type cur1) = true) as Hstr by (by rewrite Hs).
    destruct (create_string_in (p_stack p1) cur1 fs h0 (length fs) a Hc Hf Ht (ztake len rest) Hstr)
      as [a' Ec].
    unfold mk_string in E. simpl in E. rewrite Ec, Hs in E. by eapply reads_finish.
  - rewrite <- (ty_heap _ _ _ _ _ _ _ Hty) in E. by eapply reads_more.
Qed.

(** ** Aggregates *)

(** The state inside a container that has just been opened. *)
Lemma open_ready p p1 cur1 fs a h n rest :
  typed_in h0 p p1 cur1 fs a h -> (length fs < 8)%nat -> is_aggregate (t_type cur1) = true ->
  0 < n <= INT_MAX ->
  ready h0 (Parser rest (open_task p1 cur1 n (Some (OLoc (hole (h_next h0) fs)))) (p_ridx p1 + 1)
              (set_root p1 (Some (OLoc (hole (h_next h0) fs)))) (p_priv p1))
    (Frame (t_type cur1) n [] :: fs) (h_add (plug (RAgg (t_type cur1) n []) fs) h0).
Proof.
  intros [] Hd Hty Hn. unfold open_task. rewrite ty_ridx0, Nat2Z.id, s32_small by width_lia.
  split; simpl.
  - lia.
  - lia.
  - by rewrite !length_insert.
  - split; [|by apply frames_insert; [lia|]; apply frames_insert].
    eexists. rewrite list_lookup_insert_ne, list_lookup_insert_eq by lia. split; [done|].
    unfold frame_ok. simpl. split_and!; try done; rewrite ?zlen_nil; lia.
  - done.
  - unfold set_root. rewrite ty_reply0, ty_ridx0. destruct fs as [|f fs]; [done|].
    by rewrite (proj2 (Z.eqb_neq (Z.of_nat (length (f :: fs))) 0)) by (simpl; lia).
  - eexists. rewrite list_lookup_insert_eq by (rewrite length_insert; lia). split; [done|].
    by split.
Qed.

(** A complete element: the next task is its sibling, or its container is
    complete in turn. *)
Lemma cont_element priv f fs st rest t a :
  length st = 9%nat -> (length (f :: fs) <= 8)%nat -> typed_tree t ->
  frames_ok (h_next h0) st (f :: fs) ->
  (exists cur, st !! length (f :: fs) = Some cur /\ task_in cur (f :: fs)) ->
  (zlen (f_done f) + 1 = f_n f /\
     cont priv h0 (f :: fs) st rest t a = cont priv h0 fs st rest (frame_tree (f_push f t)) a) \/
  (zlen (f_done f) + 1 < f_n f /\ exists st',
     cont priv h0 (f :: fs) st rest t a =
       parse fnd (Parser rest st' (Z.of_nat (length (f :: fs))) (Some (OLoc (h_next h0))) priv) a
         (h_add (plug t (f :: fs)) h0) /\
     ready h0 (Parser rest st' (Z.of_nat (length (f :: fs))) (Some (OLoc (h_next h0))) priv)
       (f_push f t :: fs) (h_add (plug t (f :: fs)) h0)).
Proof.
  intros Hst Hd Ht [(ct & Hct & Hf) Hfs] (cur & Hcur & Hidx & Hpar).
  destruct Hf as (Hty & Hel & Hobj & Hagg & Hn & Hts & Htask).
  unfold cont. cbn [length] in *. cbn [next_task]. rewrite Hcur, Hct. cbn [mbind option_bind].
  rewrite Hty, Hagg. cbn [negb]. rewrite Hidx, Hel.
  destruct (Z.eqb_spec (zlen (f_done f)) (f_n f - 1)) as [Hlast|Hlast].
  { left. split; [lia|]. done. }
  right. split; [lia|]. ztrue (zlen (f_done f) <? f_n f). cbn [negb mbind option_bind fst snd].
  eexists. split; [done|]. split; cbn [p_ridx p_stack p_reply p_rest p_priv length]; try done.
  - by rewrite length_insert.
  - apply frames_insert; [simpl; lia|]. simpl. split; [|done]. exists ct. split; [done|].
    unfold frame_ok. cbn [f_push f_type f_n f_done]. split_and!; try done.
    + autorewrite with zlen. lia.
    + autorewrite with zlen. lia.
    + apply Forall_app. auto.
  - eexists. rewrite list_lookup_insert_eq by lia. split; [done|]. split; [done|].
    simpl. split; [|done]. autorewrite with zlen. lia.
Qed.

Lemma reads_parse_eq fs p q a h a' h' m :
  parse fnd p a h = parse fnd q a' h' -> p_priv p = p_priv q ->
  reads h0 fs q a' h' m -> reads h0 fs p a h m.
Proof. unfold reads. intros -> ->. done. Qed.

(** The value of an element, given that the elements are read correctly. *)
Definition value_ok (d : nat) : Prop :=
  forall p fs a h, ready h0 p fs h -> (length fs + d = 8)%nat -> reads h0 fs p a h (resp d (p_rest p)).

Lemma elements_in d p f fs a h :
  value_ok d -> ready h0 p (f :: fs) h -> (length (f :: fs) + d = 8)%nat ->
  zlen (f_done f) < f_n f ->
  reads h0 fs p a h (close_agg f (elements (resp d) (f_n f - zlen (f_done f)) (p_rest p))).
Proof.
  intros Hv. remember (length (p_rest p)) as len eqn:El. revert p f a h El.
  induction len as [len IH] using lt_wf_ind. intros p f a h -> Hr Hd Hn.
  rewrite elements_eq by apply resp_consumes. rewrite (proj2 (Z.leb_gt _ 0)) by lia.
  pose proof (Hv p (f :: fs) a h Hr Hd) as Hp. unfold close_agg.
  destruct (resp d (p_rest p)) as [t s| |c m|] eqn:Es; [|done..].
  destruct Hp as (Ht & st & a' & Ep & Hst & Hfs & Hcur).
  pose proof (rd_depth _ _ _ _ Hr) as Hdep. cbn [rbind].
  destruct (cont_element (p_priv p) f fs st s t a' Hst Hdep Ht Hfs Hcur)
    as [[Hlast Hc]|[Hmore (st' & Hc & Hready)]]; rewrite Hc in Ep.
  - rewrite elements_eq by apply resp_consumes. rewrite (proj2 (Z.leb_le _ 0)) by lia.
    cbn [rbind]. pose proof Hfs as [(ct & Hct & Hf) Hfs'].
    destruct Hf as (_ & _ & _ & Hagg & _ & Hts & Htask). split.
    + apply typed_agg. split_and!; [done|autorewrite with zlen; lia|]. apply Forall_app. auto.
    + exists st, a'. split; [exact Ep|]. split; [done|]. split; [done|]. eauto.
  - apply resp_consumes in Es.
    specialize (IH (length s) Es
      (Parser s st' (Z.of_nat (length (f :: fs))) (Some (OLoc (h_next h0))) (p_priv p))
      (f_push f t) a' _ eq_refl Hready Hd).
    cbn [f_push f_done f_n f_type p_rest] in IH. autorewrite with zlen in IH.
    specialize (IH ltac:(lia)). rewrite Z.add_0_r, Z.sub_add_distr in IH.
    unfold close_agg in IH. cbn [f_push f_done f_n f_type] in IH.
    eapply reads_parse_eq; [exact Ep|done|].
    destruct (elements (resp d) _ s) as [ts rest| |c m|]; cbn [rbind] in *; try done.
    by rewrite <- (assoc_L (++)) in IH.
Qed.

Lemma aggregate_in d p p1 cur1 fs a h :
  value_ok d -> typed_in h0 p p1 cur1 fs a h -> (length fs + S d = 8)%nat ->
  is_line (t_type cur1) = false -> t_type cur1 <> REDIS_REPLY_STRING ->
  is_aggregate (t_type cur1) = true ->
  reads h0 fs p a h
    match split_line (p_rest p1) with
    | None => RMore
    | Some (l, rest) =>
        match string2ll l with
        | None => RBad REDIS_ERR_PROTOCOL (bs "Bad multi-bulk length")
        | Some n =>
            if n <? -1 then RBad REDIS_ERR_PROTOCOL (bs "Multi-bulk length out of range")
            else if n =? -1 then ROk RNil rest
            else
              let n := if t_type cur1 =? REDIS_REPLY_MAP then n * 2 else n in
              if INT_MAX <? n then RHuge else
              rbind (elems (resp d) (S (length rest)) n rest)
                (fun ts rest => ROk (RAgg (t_type cur1) n ts) rest)
        end
    end.
Proof.
  intros Hv Hty Hd Hnl Hns Hagg.
  assert (typed_item fnd p1 cur1 a h = aggregate_item fnd p1 cur1 a h) as E.
  { unfold typed_item. rewrite Hnl, Hagg. by rewrite (proj2 (Z.eqb_neq _ _) Hns). }
  pose proof (ty_ridx _ _ _ _ _ _ _ Hty) as Hri. pose proof (ty_heap _ _ _ _ _ _ _ Hty) as Hheap.
  unfold aggregate_item in E. rewrite Hri, Nat2Z.id in E.
  rewrite (proj2 (Z.eqb_neq (Z.of_nat (length fs)) 8)) in E by lia.
  destruct (split_line (p_rest p1)) as [[l rest]|]; [|by eapply reads_more].
  destruct (string2ll l) as [n|] eqn:El; [|by eapply reads_bad].
  destruct (Z.ltb_spec n (-1)); [by eapply reads_bad|].
  rewrite Hheap in E. rewrite <- Hheap in E at 1.
  pose proof (ty_cur _ _ _ _ _ _ _ Hty) as Hc. pose proof (ty_frames _ _ _ _ _ _ _ Hty) as Hf.
  pose proof (ty_task _ _ _ _ _ _ _ Hty) as Ht.
  destruct (Z.eqb_spec n (-1)).
  { destruct (create_nil_in (p_stack p1) cur1 fs h0 (length fs) a Hc Hf Ht) as [a' Ec].
    unfold mk_nil in E. simpl in E. rewrite Ec in E.
    by eapply reads_finish. }
  apply string2ll_dec in El as [_ Hll]. cbv zeta.
  set (k := if t_type cur1 =? REDIS_REPLY_MAP then n * 2 else n).
  destruct (Z.ltb_spec INT_MAX k) as [|Hk]; [done|].
  assert (0 <= k) as Hk0 by (unfold k; destruct (_ =? _); lia).
  assert (container_elements (t_type cur1) n = k) as Ek.
  { unfold container_elements, k in *. destruct (_ =? _); [|done]. apply s64_small. width_lia. }
  rewrite Ek, u64_small in E by width_lia.
  destruct (create_array_in (p_stack p1) cur1 fs h0 (length fs) a Hc Hf Ht k) as [a' Ec]; [lia|].
  unfold mk_array in E. simpl in E. rewrite Ec in E. simpl in E.
  fold (elements (resp d) k rest).
  destruct (Z.ltb_spec 0 k) as [Hpos|Hpos]; simpl in E.
  - pose proof (open_ready p p1 cur1 fs a h k rest Hty ltac:(lia) Hagg ltac:(lia)) as Hr.
    pose proof (elements_in d _ _ fs a' _ Hv Hr ltac:(simpl; lia) ltac:(simpl; rewrite zlen_nil; lia)) as He.
    unfold close_agg in He. cbn [f_done f_n f_type p_rest app] in He.
    rewrite zlen_nil, Z.sub_0_r in He.
    refine (reads_parse_eq _ _ _ _ _ _ _ _ _ _ He); [|by symmetry; apply Hty].
    rewrite (ty_parse _ _ _ _ _ _ _ Hty), E. simpl. by rewrite Hri.
  - assert (k = 0) as -> by lia. rewrite elements_eq by apply resp_consumes. cbn [rbind Z.leb Z.compare].
    eapply reads_finish; [done| |exact E]. by apply typed_agg.
Qed.

Lemma ready_bad p fs a h b s :
  ready h0 p fs h -> p_rest p = b :: s -> reply_type b = None ->
  reads h0 fs p a h (RBad REDIS_ERR_PROTOCOL (protocol_byte_text b)).
Proof.
  intros [] Er Ety. destruct rd_task0 as (cur & Hc & Hty & _).
  destruct (bad_in h0 p REDIS_ERR_PROTOCOL (protocol_byte_text b) a h Hh0) as (h' & Eb & Hcells).
  { rewrite rd_reply0, rd_heap0. by eapply heap_of_owned. }
  exists a, h'. split; [|done]. rewrite parse_eq, (proj2 (Z.ltb_ge _ 0)) by lia.
  unfold item, zget. rewrite rd_ridx0, (proj2 (Z.leb_le 0 _)), Nat2Z.id, Hc by lia.
  simpl. by rewrite Hty, Er, Ety, Eb.
Qed.

Lemma aggregate_type b ty :
  reply_type b = Some ty -> is_line ty = false -> ty <> REDIS_REPLY_STRING ->
  is_aggregate ty = true.
Proof.
  unfold reply_type. intros Hb. repeat (case_bool_decide; [injection Hb as <-; done|]). done.
Qed.

Lemma value_in d : value_ok d.
Proof.
  induction d as [|d IH]; intros p fs a h Hr Hd; (destruct (p_rest p) as [|b s] eqn:Er).
  1, 3: destruct Hr as []; destruct rd_task0 as (cur & Hc & Hty & _);
    exists p, a, h; split; [|rewrite rd_reply0, rd_heap0; by eapply heap_of_owned];
    rewrite parse_eq, (proj2 (Z.ltb_ge _ 0)) by lia; unfold item, zget;
    rewrite rd_ridx0, (proj2 (Z.leb_le 0 _)), Nat2Z.id, Hc by lia; simpl; by rewrite Hty, Er.
  all: simpl; destruct (reply_type b) as [ty|] eqn:Ety; [|by eapply ready_bad].
  all: destruct (ready_typed _ _ _ _ a _ _ _ Hr Er Ety) as (p1 & cur1 & <- & <- & Hty).
  all: destruct (is_line (t_type cur1)) eqn:Hl; [by eapply line_in|].
  all: destruct (Z.eqb_spec (t_type cur1) REDIS_REPLY_STRING) as [Hs|Hs]; [by eapply bulk_in|].
  all: pose proof (aggregate_type _ _ Ety Hl Hs) as Hagg.
  - eapply reads_bad; [done|done|]. unfold typed_item. rewrite Hl, Hagg.
    rewrite (proj2 (Z.eqb_neq _ _) Hs). unfold aggregate_item.
    rewrite (ty_ridx _ _ _ _ _ _ _ Hty). by rewrite (proj2 (Z.eqb_eq _ 8)) by lia.
  - by eapply aggregate_in.
Qed.

End value.

End refines.

(** ** The reader with the default object functions

    A reader made by [redisReaderCreate], fed any bytes in any pieces, returns
    the replies that the recursive descent parser finds in them, as objects
    whose cells are exactly those of the reply trees; on a protocol error all
    the objects of the unfinished reply have been freed. *)

(** ** Streams of replies *)

Section stream.
Context {fl : FloatLib}.

(** The replies of an input, and what ends them. *)
Fixpoint stream_loop (fuel : nat) (s : bytes) : list reply * rres reply :=
  match fuel with
  | O => ([], RHuge)
  | S f =>
      match resp 8 s with
      | ROk t rest => let '(ts, e) := stream_loop f rest in (t :: ts, e)
      | e => ([], e)
      end
  end.

Definition stream (s : bytes) : list reply * rres reply := stream_loop (S (length s)) s.

Lemma stream_loop_fuel f g s :
  (length s < f)%nat -> (length s < g)%nat -> stream_loop f s = stream_loop g s.
Proof.
  revert g s. induction f as [|f IH]; intros g s Hf Hg; [lia|]. destruct g as [|g]; [lia|].
  cbn [stream_loop]. destruct (resp 8 s) as [t rest| | |] eqn:E; [|done..].
  apply resp_consumes in E. by rewrite (IH g) by lia.
Qed.

Lemma stream_eq s :
  stream s =
  match resp 8 s with
  | ROk t rest => let '(ts, e) := stream rest in (t :: ts, e)
  | e => ([], e)
  end.
Proof.
  unfold stream at 1. cbn [stream_loop]. destruct (resp 8 s) as [t rest| | |] eqn:E; [|done..].
  apply resp_consumes in E. unfold stream. by rewrite (stream_loop_fuel _ (S (length rest))) by lia.
Qed.

(** The heap with the objects of a list of replies, and their addresses. *)
Definition heap_with (ts : list reply) (h : heap) : heap := foldl (fun h t => h_add t h) h ts.

Fixpoint reply_locs (ts : list reply) (h : heap) : list (option optr) :=
  match ts with
  | [] => []
  | t :: ts => Some (OLoc (h_next h)) :: reply_locs ts (h_add t h)
  end.

End stream.

Section default.
Context {al : Allocator} {fl : FloatLib}.
Hypothesis Hal : alloc_total al.
Hypothesis Hstrtod : strtod_bounded.

(** ** The counter *)

Lemma same_attached st task l a b h :
  erase (attached st task l a h) = erase (attached st task l b h).
Proof. unfold attached. by destruct (attach st task l h). Qed.

(** With an allocator that never fails the objects do not depend on the number
    of allocations. *)
#[export] Instance default_counter_free : CounterFree (Some defaultFunctions).
Proof.
  split; intros f [= <-]; intros.
  - unfold createStringObject. destruct (st !! i) as [task|]; [|done]. cbn [mbind option_bind].
    rewrite !(create_reply_ok Hal), !(malloc_ok Hal). cbn [negb].
    destruct (negb _); [done|]. destruct (_ !! _); [|done]. apply same_attached.
  - unfold createArrayObject. destruct (st !! i) as [task|]; [|done]. cbn [mbind option_bind].
    rewrite !(create_reply_ok Hal). destruct (0 <? n).
    + unfold calloc. rewrite !(malloc_ok Hal). destruct (SIZE_MAX <? n * sizeof_ptr); cbn [negb].
      * by destruct (freeReplyObject _ _).
      * destruct (_ !! _); [|done]. apply same_attached.
    + cbn [negb]. destruct (_ !! _); [|done]. apply same_attached.
  - unfold createIntegerObject. destruct (st !! i) as [task|]; [|done]. cbn [mbind option_bind].
    rewrite !(create_reply_ok Hal). destruct (_ !! _); [|done]. apply same_attached.
  - unfold createDoubleObject. destruct (st !! i) as [task|]; [|done]. cbn [mbind option_bind].
    rewrite !(create_reply_ok Hal), !(malloc_ok Hal). cbn [negb].
    destruct (_ !! _); [|done]. apply same_attached.
  - unfold createNilObject. destruct (st !! i) as [task|]; [|done]. cbn [mbind option_bind].
    rewrite !(create_reply_ok Hal). apply same_attached.
  - unfold createBoolObject. destruct (st !! i) as [task|]; [|done]. cbn [mbind option_bind].
    rewrite !(create_reply_ok Hal). destruct (_ !! _); [|done]. apply same_attached.
Qed.

(** ** Replies *)

Abbreviation fnd := (Some defaultFunctions).

(** Between replies: the parser is ready for a root value. *)
Lemma parse_default p h0 a :
  heap_ok h0 -> ready h0 p [] h0 ->
  match resp 8 (p_rest p) with
  | ROk t rest => exists st a', length st = 9%nat /\ typed_tree t /\
      parse fnd p a h0 = Some (Done (Parser rest st (-1) (Some (OLoc (h_next h0))) (p_priv p)),
                               a', h_add t h0)
  | RMore => exists q a' h', parse fnd p a h0 = Some (More q, a', h') /\ owned h0 (p_reply q) h'
  | RBad c m => exists a' h', parse fnd p a h0 = Some (Bad c m None, a', h') /\
                         gives_back h0 h'
  | RHuge => True
  end.
Proof.
  intros Hh Hr. pose proof (value_in Hal Hstrtod h0 Hh 8 p [] a h0 Hr eq_refl) as Hv.
  destruct (resp 8 (p_rest p)) as [t rest| |c m|]; try exact Hv.
  destruct Hv as (Ht & st & a' & Ep & Hst & _). exists st, a'. split; [done|]. split; [done|].
  rewrite Ep. unfold cont. simpl. by rewrite parse_eq.
Qed.

Lemma start_ready h0 rest st reply priv :
  length st = 9%nat ->
  ready h0 (start (p_clear (Parser rest st (-1) reply priv))) [] h0.
Proof.
  intros Hst. split; simpl; try done; [lia|by rewrite length_insert|].
  destruct st; [done|]. by eexists.
Qed.

(** What is left when a list of replies ends. *)
Definition ends (h0 h' : heap) (e : rres reply) (o : outcome) : Prop :=
  match e with
  | RMore => exists q, o = More q /\ owned h0 (p_reply q) h'
  | RBad c m => o = Bad c m None /\ gives_back h0 h'
  | _ => False
  end.

Lemma replies_default p h0 a ts e :
  heap_ok h0 -> ready h0 p [] h0 -> stream (p_rest p) = (ts, e) -> e <> RHuge ->
  exists o a' h', replies fnd p a h0 = Some (reply_locs ts h0, o, a', h') /\
    ends (heap_with ts h0) h' e o /\ Forall typed_tree ts.
Proof.
  remember (length (p_rest p)) as len eqn:El. revert p h0 a ts El.
  induction len as [len IH] using lt_wf_ind. intros p h0 a ts -> Hh Hr Es He.
  rewrite stream_eq in Es. pose proof (parse_default p h0 a Hh Hr) as Hp.
  rewrite replies_eq by (destruct Hr; simpl in *; lia).
  destruct (resp 8 (p_rest p)) as [t rest| |c m|] eqn:Er.
  - destruct Hp as (st & a' & Hst & Ht & ->). cbn [mbind option_bind].
    destruct (stream rest) as [us e'] eqn:Eus. injection Es as <- <-.
    apply resp_consumes in Er.
    pose proof (start_ready (h_add t h0) rest st (Some (OLoc (h_next h0))) (p_priv p) Hst) as Hr'.
    destruct (IH (length rest) Er
      (start (p_clear (Parser rest st (-1) (Some (OLoc (h_next h0))) (p_priv p)))) (h_add t h0) a' us eq_refl (h_add_ok t h0 Hh) Hr' Eus He)
      as (o & a1 & h1 & -> & Hend & Hus).
    exists o, a1, h1. split; [done|]. split; [done|]. by constructor.
  - destruct Hp as (q & a' & h' & -> & Ho). injection Es as <- <-.
    exists (More q), a', h'. split; [done|]. split; [|constructor]. by exists q.
  - destruct Hp as (a' & h' & -> & Hc). injection Es as <- <-.
    exists (Bad c m None), a', h'. by split.
  - by injection Es as <- <-.
Qed.

(** ** A new reader *)

Context {dm : DataModel} {B : Type} {bb : ByteBuf B} {laws : ByteBufLaws al B}.

(** The parser of a new reader. *)
Definition new_parser : parser :=
  start (Parser [] (replicate 9 zero_task) (-1) None 0).

Lemma new_parser_ready h0 : ready h0 new_parser [] h0.
Proof. exact (start_ready h0 [] (replicate 9 zero_task) None 0 eq_refl). Qed.

Lemma new_reader_created a :
  exists r a1, redisReaderCreate (B := B) a = Some (Some r, a1).
Proof.
  unfold redisReaderCreate, redisReaderCreateWithFunctions. rewrite (calloc_ok Hal) by done. simpl.
  destruct (buf_empty_spec (al := al) (S a)) as ([b|] & a1 & -> & Hb); [|done]. eauto.
Qed.

Lemma new_reader_awaits a r a' :
  redisReaderCreate (B := B) a = Some (Some r, a') ->
  exists b, awaits fnd b r new_parser /\ r_len r = 0.
Proof.
  unfold redisReaderCreate, redisReaderCreateWithFunctions. rewrite (calloc_ok Hal) by done. simpl.
  destruct (buf_empty_spec (al := al) (S a)) as ([b|] & a1 & -> & He); [|done]. simpl.
  intros [= <- _]. destruct He as [Hok Ev]. exists b. split; [|done].
  exists (Parser [] (replicate 9 zero_task) (-1) None 0). split.
  { split; try done; simpl; rewrite ?Ev; done. }
  split; [apply start_settled|]. by right.
Qed.

Lemma new_parser_drained h0 : drained fnd new_parser h0.
Proof. exists 0%nat, 0%nat. reflexivity. Qed.

(** How a session ends. *)
Definition session_ends (h0 h' : heap) (e : rres reply) (status : Z) (r' : redisReader B) : Prop :=
  match e with
  | RMore => status = REDIS_OK /\ r_err r' = 0 /\ (exists b, r_buf r' = BLive b) /\
             owned h0 (r_reply r') h'
  | RBad c m => status = REDIS_ERR /\ r_err r' = c /\ r_errstr r' = take 127 (cstr m) /\
                r_buf r' = BNull /\ r_reply r' = None /\ gives_back h0 h'
  | _ => False
  end.

Lemma default_session chunks a h0 ts e :
  LP64 -> heap_ok h0 -> zlen (concat chunks) <= INT_MAX ->
  stream (concat chunks) = (ts, e) -> e <> RHuge ->
  exists r a1 status r' a2 h',
    redisReaderCreate (B := B) a = Some (Some r, a1) /\
    session fnd chunks r a1 h0 = Some (reply_locs ts h0, status, r', a2, h') /\
    Forall typed_tree ts /\ session_ends (heap_with ts h0) h' e status r'.
Proof.
  intros Hlp Hh Hm Es He.
  destruct (new_reader_created a) as (r & a1 & Ec).
  destruct (new_reader_awaits _ _ _ Ec) as (b & Haw & Hl).
  destruct (replies_default (p_feed new_parser (concat chunks)) h0 a1 ts e)
    as (o & a' & h' & Er & Hend & Hty); [done| |done..|].
  { destruct (new_parser_ready h0). by split. }
  destruct (session_refines fnd chunks b r new_parser a1 h0 _ _ _ _ Hlp Hal Haw
    (new_parser_drained h0) ltac:(lia) Er) as (b' & status & r' & a'' & Eses & Hse).
  exists r, a1, status, r', a'', h'. split_and!; [done..|].
  destruct e as [| |c m|]; try done; simpl in Hend |- *.
  - destruct Hend as (q & -> & Ho). destruct Hse as [-> (q0 & Hs & _ & Hq)].
    split; [done|]. split; [apply Hs|]. split; [exists b'; apply Hs|]. rewrite (sh_reply _ _ _ Hs).
    by destruct Hq as [[-> _]|[-> _]].
  - destruct Hend as [-> Hc]. destruct Hse as [-> Hd].
    split; [done|]. by destruct Hd.
Qed.

End default.
