(* ===== verification/Printf.v ===== *)
(** * One conversion of [printf]

    The integer conversions of [printf] (d i o u x X with flags, width,
    precision and size), which [redisvFormatCommand] passes on to
    [vsnprintf].  The text of a floating-point conversion is a parameter. *)

From Stdlib Require Import Strings.Byte String List.
From S2P Require Import Prelude CLib Buffer Read Sds SdsFmt.

(** The text of a double under a conversion specification. *)
Class PrintfDouble := fmt_double : bytes -> bytes -> bytes.

(** [strchr(set, b) != NULL] for [b] other than NUL. *)
Definition strchr (set : bytes) (b : byte) : bool := bool_decide (b ∈ set).

Definition flags : bytes := bs "#0-+ ".
Definition intfmts : bytes := bs "diouxX".
Definition doublefmts : bytes := bs "eEfFgGaA".

(** Size modifier of an integer conversion. *)
Inductive isize := SzChar | SzShort | SzInt | SzLong | SzLLong.

#[global] Instance isize_eq_dec : EqDecision isize.
Proof. solve_decision. Defined.

Record printf_spec := Spec {
  sp_flags : bytes;
  sp_width : bytes;
  sp_prec : option bytes;
  sp_size : isize;
  sp_conv : byte
}.

Definition parse_size (l : bytes) : isize * bytes :=
  match l with
  | Byte.x68 :: Byte.x68 :: l => (SzChar, l)
  | Byte.x68 :: l => (SzShort, l)
  | Byte.x6c :: Byte.x6c :: l => (SzLLong, l)
  | Byte.x6c :: l => (SzLong, l)
  | _ => (SzInt, l)
  end.

(** A complete specification, from its percent sign on. *)
Definition parse_spec (l : bytes) : option printf_spec :=
  match l with
  | Byte.x25 :: l =>
      let '(fl, l) := span (strchr flags) l in
      let '(wd, l) := span isdigit l in
      let '(pr, l) := match l with
                      | Byte.x2e :: l => let '(p, l) := span isdigit l in (Some p, l)
                      | _ => (None, l)
                      end in
      let '(sz, l) := parse_size l in
      match l with
      | [c] => Some (Spec fl wd pr sz c)
      | _ => None
      end
  | _ => None
  end.

(** Digits of [v] in base [b], least significant first. *)
Fixpoint base_digits (fuel : nat) (b v : Z) : bytes :=
  match fuel with
  | O => []
  | S f => hex_digit (v mod b) :: (if v / b =? 0 then [] else base_digits f b (v / b))
  end.

(** A 64-bit value has at most 22 octal digits. *)
Definition base_text (b v : Z) : bytes := rev (base_digits 22 b v).

Section printf.
Context {dm : DataModel} {pd : PrintfDouble}.

Definition size_bits (sz : isize) : Z :=
  match sz with
  | SzChar => 8 | SzShort => 16 | SzInt => 32 | SzLong => long_bits | SzLLong => 64
  end.

Definition pad (n : Z) (b : byte) : bytes := replicate (Z.to_nat n) b.

Definition is_signed (sp : printf_spec) : bool := strchr (bs "di") (sp_conv sp).

(** The argument at the type of the conversion. *)
Definition conv_value (sp : printf_spec) (z : Z) : Z :=
  if is_signed sp then sw (size_bits (sp_size sp)) z else uw (size_bits (sp_size sp)) z.

(** The digits of the value [v], with the precision and the octal prefix. *)
Definition conv_digits (sp : printf_spec) (v : Z) : bytes :=
  let c := sp_conv sp in
  let digits :=
    if (v =? 0) && bool_decide (dec_val <$> sp_prec sp = Some 0) then []
    else if strchr (bs "o") c then base_text 8 (Z.abs v)
    else if strchr (bs "x") c then base_text 16 (Z.abs v)
    else if strchr (bs "X") c then toupper <$> base_text 16 (Z.abs v)
    else udec (Z.abs v) in
  let digits := pad (default 1 (dec_val <$> sp_prec sp) - zlen digits) Byte.x30 ++ digits in
  if strchr (bs "o") c && strchr (sp_flags sp) Byte.x23
     && negb (bool_decide (head digits = Some Byte.x30))
  then Byte.x30 :: digits else digits.

(** Sign, or the prefix of a hexadecimal number. *)
Definition conv_prefix (sp : printf_spec) (v : Z) : bytes :=
  let has c := strchr (sp_flags sp) c in
  if is_signed sp then
    if v <? 0 then [Byte.x2d] else if has Byte.x2b then [Byte.x2b]
    else if has Byte.x20 then [Byte.x20] else []
  else if has Byte.x23 && negb (v =? 0) && strchr (bs "xX") (sp_conv sp)
  then [Byte.x30; sp_conv sp]
  else [].

Definition int_text (sp : printf_spec) (z : Z) : bytes :=
  let has c := strchr (sp_flags sp) c in
  let prefix := conv_prefix sp (conv_value sp z) in
  let digits := conv_digits sp (conv_value sp z) in
  let n := dec_val (sp_width sp) - zlen prefix - zlen digits in
  if has Byte.x2d then prefix ++ digits ++ pad n Byte.x20
  else if has Byte.x30 && bool_decide (sp_prec sp = None)
       then prefix ++ pad n Byte.x30 ++ digits
       else pad n Byte.x20 ++ prefix ++ digits.

(** The text of the conversion [l] of the argument [arg]. *)
Definition printf_conv (l : bytes) (arg : vaarg) : option bytes :=
  sp ← parse_spec l;
  if strchr intfmts (sp_conv sp) then
    match arg with VaInt z => Some (int_text sp z) | _ => None end
  else if strchr doublefmts (sp_conv sp) && bool_decide (sp_size sp = SzInt) then
    match arg with VaDouble d => Some (fmt_double l d) | _ => None end
  else None.

End printf.


(** ** Text without terminators *)

Section no_nul.
Context {dm : DataModel} {pd : PrintfDouble}.

Lemma hex_digit_not_nul d : 0 <= d < 16 -> hex_digit d <> NUL.
Proof.
  intros Hd E. apply (f_equal bZ) in E. unfold hex_digit in E.
  destruct (d <? 10); rewrite bZ_Zb in E by lia; change (bZ NUL) with 0 in E; lia.
Qed.

Lemma base_digits_no_nul fuel b v : 0 < b <= 16 -> 0 <= v -> NUL ∉ base_digits fuel b v.
Proof.
  intros Hb. revert v. induction fuel as [|f IH]; intros v Hv; simpl; [apply not_elem_of_nil|].
  pose proof (Z.mod_pos_bound v b ltac:(lia)).
  apply not_elem_of_cons. split; [apply not_eq_sym, hex_digit_not_nul; lia|].
  destruct (_ =? 0); [apply not_elem_of_nil|]. apply IH, Z.div_pos; lia.
Qed.

Lemma udec_no_nul v : 0 <= v -> NUL ∉ udec v.
Proof.
  intros Hv Hin. pose proof (udec_digits v Hv) as Hd. rewrite Forall_forall in Hd.
  by specialize (Hd _ Hin).
Qed.

Lemma pad_no_nul n b : b <> NUL -> NUL ∉ pad n b.
Proof. intros Hb [E _]%elem_of_replicate. congruence. Qed.

Lemma toupper_no_nul (l : bytes) : NUL ∉ l -> NUL ∉ (toupper <$> l).
Proof.
  intros Hl (b & E & Hb)%list_elem_of_fmap. apply Hl. replace NUL with b; [done|].
  unfold toupper in E. destruct (islower b) eqn:Eb; [|done].
  apply in_range_spec in Eb. apply (f_equal bZ) in E. rewrite bZ_Zb in E by lia.
  change (bZ NUL) with 0 in E. lia.
Qed.

Lemma base_text_no_nul b v : 0 < b <= 16 -> 0 <= v -> NUL ∉ base_text b v.
Proof.
  intros Hb Hv Hin. unfold base_text in Hin.
  apply list_elem_of_In, in_rev, list_elem_of_In in Hin. by apply base_digits_no_nul in Hin.
Qed.

Lemma conv_digits_no_nul sp v : NUL ∉ conv_digits sp v.
Proof.
  unfold conv_digits. cbv zeta.
  set (ds := if _ && bool_decide (dec_val <$> _ = Some 0) then _ else _).
  assert (NUL ∉ ds) as Hds.
  { unfold ds. pose proof (Z.abs_nonneg v).
    destruct (_ && _); [apply not_elem_of_nil|].
    destruct (strchr (bs "o") _); [apply base_text_no_nul; lia|].
    destruct (strchr (bs "x") _); [apply base_text_no_nul; lia|].
    destruct (strchr (bs "X") _); [apply toupper_no_nul, base_text_no_nul; lia|].
    by apply udec_no_nul. }
  assert (forall n, NUL ∉ pad n Byte.x30) as Hp by (intros; by apply pad_no_nul).
  destruct (_ && _ && _); [apply not_elem_of_cons; split; [done|]|];
    apply not_elem_of_app; auto.
Qed.

Lemma no_nul_1 (b : byte) : b <> NUL -> NUL ∉ [b].
Proof. set_solver. Qed.

Lemma conv_prefix_no_nul sp v : NUL ∉ conv_prefix sp v.
Proof.
  unfold conv_prefix. destruct (is_signed sp).
  - destruct (v <? 0); [by apply no_nul_1|]. destruct (strchr _ _); [by apply no_nul_1|].
    destruct (strchr _ _); [by apply no_nul_1|apply not_elem_of_nil].
  - destruct (_ && strchr (bs "xX") (sp_conv sp)) eqn:E; [|apply not_elem_of_nil].
    apply andb_true_iff in E as [_ E].
    apply not_elem_of_cons. split; [done|]. apply not_elem_of_cons. split; [|apply not_elem_of_nil].
    intros Hn. rewrite <- Hn in E. discriminate E.
Qed.

Lemma int_text_no_nul sp z : NUL ∉ int_text sp z.
Proof.
  unfold int_text. pose proof (conv_digits_no_nul sp (conv_value sp z)) as Hd.
  pose proof (conv_prefix_no_nul sp (conv_value sp z)) as Hp.
  assert (forall n b, b <> NUL -> NUL ∉ pad n b) as Hpad by (intros; by apply pad_no_nul).
  destruct (strchr _ _); [|destruct (_ && _)]; repeat (apply not_elem_of_app; split); auto.
Qed.

(** A conversion never produces a NUL. *)
Lemma printf_conv_no_nul l arg t :
  (forall l d, NUL ∉ fmt_double l d) -> printf_conv l arg = Some t -> NUL ∉ t.
Proof.
  intros Hd. unfold printf_conv. destruct (parse_spec l) as [sp|]; [|done]. simpl.
  destruct (strchr intfmts _).
  - destruct arg; try done. intros [= <-]. apply int_text_no_nul.
  - destruct (_ && _); [|done]. destruct arg; try done. intros [= <-]. apply Hd.
Qed.

End no_nul.
