(* ===== verification/Concrete.v ===== *)
(** * Concrete parameters

    The development is generic in the data model, the allocator and the
    floating-point functions of the C library; these are concrete ones, with
    which its hypotheses hold. *)

From Stdlib Require Import Strings.Byte String.
From S2P Require Import Prelude CLib Buffer Sds SdsEdit Read Parser ReaderRefines Reply Tree Resp.
From S2P Require Import ReplyRefines Printf.

(** [long] has 64 bits. *)
Definition lp64 : DataModel := 64.

(** A [strtod] that reads the decimal digits at the start of its argument. *)
Definition digits_strtod (s : bytes) : Z * Z :=
  let d := (span isdigit s).1 in (dec_val d, zlen d).

Definition digits_lib : FloatLib := {|
  double := Z;
  infinity neg := if neg then - 2 ^ 1024 else 2 ^ 1024;
  isnan _ := false;
  strtod := digits_strtod
|}.

(** A [printf] that writes any floating-point number as the bytes it is given as. *)
Definition plain_double : PrintfDouble := fun _ d => filter (fun b => b <> NUL) d.

Lemma always_total : alloc_total always_alloc.
Proof. done. Qed.

Lemma digits_bounded : @strtod_bounded digits_lib.
Proof.
  intros s. simpl. pose proof (zlen_nonneg (span isdigit s).1). split; [done|].
  clear. induction s as [|b s IH]; simpl; [done|]. destruct (isdigit b); [|simpl; zlia].
  destruct (span isdigit s) as [u v]. simpl in *. zlia.
Qed.

Lemma plain_no_nul l d : NUL ∉ (plain_double l d).
Proof. unfold plain_double. by intros [? _]%list_elem_of_filter. Qed.

Lemma empty_heap_ok {fl : FloatLib} : heap_ok (Heap ∅ 0).
Proof. done. Qed.

(** A dynamic string with the given contents. *)
Definition made (v : bytes) : sds :=
  match sdsnewlen (al := always_alloc) (Some v) (zlen v) 0 with
  | Some (Some s, _) => s
  | _ => Sds 0 0 0 []
  end.

Lemma made_repr v : zlen v <= 1000 -> sds_repr (made v) v.
Proof.
  intros Hv. pose proof (zlen_nonneg v). unfold made.
  destruct (sdsnewlen_repr (al := always_alloc) (Some v) (zlen v) 0) as ([s|] & a & -> & Hs).
  - unfold BUF_SAFE, SIZE_MAX. lia.
  - intros q [= ->]. lia.
  - simpl in Hs. by rewrite ztake_all in Hs by lia.
  - by destruct Hs.
Qed.
