(* ===== verification/SdsTheorems.v ===== *)
(** * The theorems about the dynamic strings

    [sds_repr s v] says that the block [s] is a well-formed dynamic string with
    contents [v]: header of its type, length, allocation and terminator. *)

From Stdlib Require Import Strings.Byte String.
From S2P Require Import Prelude CLib Buffer Sds SdsFmt SdsEdit SdsText Concrete.

(** Writing arguments as one line: each quoted, with blanks between. *)
Fixpoint write_args {al : Allocator} (args : list bytes) (s : sds) (a : nat) : option (sds * nat) :=
  match args with
  | [] => Some (s, a)
  | t :: args =>
      g ← sdscatrepr s t (zlen t) a;
      r ← must g;
      match args with
      | [] => Some r
      | _ => g ← sdscatlen r.1 [Byte.x20] 1 r.2; r ← must g; write_args args r.1 r.2
      end
  end.

Lemma write_args_spec {al : Allocator} (Hal : alloc_total al) args s v a :
  sds_repr s v -> zlen v + zlen (quoted_line args) <= INT_MAX ->
  returns (write_args args s a) (fun s' => sds_repr s' (v ++ quoted_line args)).
Proof.
  revert s v a. induction args as [|t args IH]; intros s v a Hr Hl; cbn [write_args].
  { exists s, a. unfold quoted_line. simpl. by rewrite app_nil_r. }
  assert (quoted_line (t :: args) = repr_text t ++ match args with [] => [] | _ => Byte.x20 :: quoted_line args end)
    as El.
  { unfold quoted_line. destruct args; [by rewrite app_nil_r|]. by rewrite fmap_cons, join_cons. }
  rewrite El in Hl |- *. rewrite zlen_app in Hl.
  set (more := match args with [] => [] | _ => _ end) in *. pose proof (zlen_nonneg more).
  destruct (returns_must _ _ Hal (sdscatrepr_spec Hal s v t a Hr ltac:(lia))) as (s1 & a1 & E1 & Hs1).
  destruct (sdscatrepr s t (zlen t) a) as [g|]; [|done]. cbn [mbind option_bind] in E1 |- *. rewrite E1.
  cbn [mbind option_bind fst snd]. destruct args as [|u args].
  { exists s1, a1. unfold more. by rewrite app_nil_r. }
  pose proof (zlen_nonneg (repr_text t)). unfold more in Hl |- *. rewrite zlen_cons in Hl.
  pose proof (zlen_nonneg (quoted_line (u :: args))). pose proof (zlen_nonneg v).
  destruct (returns_must _ _ Hal (sdscatlen_all s1 _ [Byte.x20] a1 Hs1
    ltac:(rewrite zlen_app; change (zlen [Byte.x20]) with 1; unfold BUF_SAFE; width_lia)))
    as (s2 & a2 & E2 & Hs2).
  change (zlen [Byte.x20]) with 1 in E2.
  destruct (sdscatlen s1 [Byte.x20] 1 a1) as [g'|]; [|done]. cbn [mbind option_bind] in E2 |- *.
  rewrite E2. cbn [mbind option_bind fst snd].
  destruct (IH s2 _ a2 Hs2) as (s3 & a3 & -> & Hs3).
  { rewrite !zlen_app. change (zlen [Byte.x20]) with 1. lia. }
  exists s3, a3. split; [done|]. by rewrite <- !(assoc_L (++)) in Hs3.
Qed.

(** [sdscatlen] appends the given bytes, whatever they are, growing the
    block and changing the header type when it must; it returns [NULL] only if
    an allocation fails. *)
Theorem sdscatlen_appends (al : Allocator) s v t n a :
  sds_repr s v -> 0 <= n <= zlen t -> zlen v + n <= BUF_SAFE ->
  exists g a', sdscatlen s t n a = Some (g, a') /\
    match g with GOk s' => sds_repr s' (v ++ ztake n t) | GNull _ => ~ alloc_total al end.
Proof.
  intros Hr Hn Hb. destruct (sdscatlen_spec s v t n a Hr Hn Hb) as (g & a' & E & Hg).
  exists g, a'. by split; [|destruct g].
Qed.

Lemma sdscatlen_appends_witness :
  exists g a', sdscatlen (al := always_alloc) (made (bs "ab")) (replicate 40 NUL) 40 0 = Some (g, a') /\
    match g with
    | GOk s' => sds_repr s' (bs "ab" ++ ztake 40 (replicate 40 NUL))
    | GNull _ => ~ alloc_total always_alloc
    end.
Proof.
  apply (sdscatlen_appends always_alloc (made (bs "ab")) (bs "ab")).
  - apply made_repr. vm_compute. discriminate.
  - vm_compute. split; discriminate.
  - vm_compute. discriminate.
Defined.

(** [sdsMakeRoomFor] keeps the contents and leaves at least the requested
    room, and no less room than before. *)
Theorem sdsMakeRoomFor_room (al : Allocator) s v n a :
  sds_repr s v -> 0 <= n -> zlen v + n <= BUF_SAFE ->
  exists g a', sdsMakeRoomFor s n a = Some (g, a') /\
    match g with
    | GOk s' => sds_repr s' v /\ n <= sdsavail s' /\ sdsavail s <= sdsavail s'
    | GNull _ => ~ alloc_total al
    end.
Proof.
  intros Hr Hn Hb. destruct (sdsMakeRoomFor_repr s v n a Hr Hn Hb) as (g & a' & E & Hg).
  exists g, a'. by split; [|destruct g].
Qed.

Lemma sdsMakeRoomFor_room_witness :
  exists g a', sdsMakeRoomFor (al := always_alloc) (made (bs "ab")) 300 0 = Some (g, a') /\
    match g with
    | GOk s' => sds_repr s' (bs "ab") /\ 300 <= sdsavail s' /\ sdsavail (made (bs "ab")) <= sdsavail s'
    | GNull _ => ~ alloc_total always_alloc
    end.
Proof.
  apply (sdsMakeRoomFor_room always_alloc).
  - apply made_repr. vm_compute. discriminate.
  - vm_compute. discriminate.
  - vm_compute. discriminate.
Defined.

(** [sdsrange] keeps the bytes from [start] to [last], both counted from
    the end when negative, and clipped to the string. *)
Theorem sdsrange_slice s v start last :
  sds_repr s v -> zlen v <= INT_MAX ->
  - INT_MAX - 1 <= start <= INT_MAX -> - INT_MAX - 1 <= last <= INT_MAX ->
  exists s', sdsrange s start last = Some s' /\ sds_repr s' (slice v start last).
Proof. apply sdsrange_spec. Qed.

Lemma sdsrange_slice_witness :
  exists s', sdsrange (made (bs "hello")) (-3) 10 = Some s' /\ sds_repr s' (bs "llo").
Proof.
  apply (sdsrange_slice (made (bs "hello")) (bs "hello") (-3) 10).
  - apply made_repr. vm_compute. discriminate.
  - vm_compute. discriminate.
  - vm_compute. split; discriminate.
  - vm_compute. split; discriminate.
Defined.

(** [sdstrim] removes the bytes of the set (and NUL) from both ends, and
    only there. *)
Theorem sdstrim_ends s v cset :
  sds_repr s v ->
  exists s' pre mid post, sdstrim s cset = Some s' /\ sds_repr s' mid /\ v = pre ++ mid ++ post /\
    Forall (fun b => in_cset cset b = true) pre /\ Forall (fun b => in_cset cset b = true) post /\
    (forall b, head mid = Some b \/ last mid = Some b -> in_cset cset b = false).
Proof.
  intros Hr. destruct (sdstrim_spec s v cset Hr) as (s' & E & Hs').
  destruct (trim_bytes_split (in_cset cset) v) as (pre & post & Ev & Hpre & Hpost & Hmid).
  by exists s', pre, (trim_bytes (in_cset cset) v), post.
Qed.

Lemma sdstrim_ends_witness :
  exists s' pre mid post, sdstrim (made (bs "xxayx")) (bs "xy") = Some s' /\ sds_repr s' mid /\
    bs "xxayx" = pre ++ mid ++ post /\
    Forall (fun b => in_cset (bs "xy") b = true) pre /\
    Forall (fun b => in_cset (bs "xy") b = true) post /\
    (forall b, head mid = Some b \/ last mid = Some b -> in_cset (bs "xy") b = false).
Proof. apply sdstrim_ends. apply made_repr. vm_compute. discriminate. Defined.

(** [sdscmp] is the lexicographic order of the contents. *)
Theorem sdscmp_order s1 s2 v1 v2 :
  sds_repr s1 v1 -> sds_repr s2 v2 -> zlen v1 <= INT_MAX -> zlen v2 <= INT_MAX ->
  exists c, sdscmp s1 s2 = Some c /\ (c < 0 <-> bytes_lt v1 v2) /\ (c = 0 <-> v1 = v2).
Proof. apply sdscmp_spec. Qed.

Lemma sdscmp_order_witness :
  exists c, sdscmp (made (bs "ab")) (made (bs "abc")) = Some c /\
    (c < 0 <-> bytes_lt (bs "ab") (bs "abc")) /\ (c = 0 <-> bs "ab" = bs "abc").
Proof.
  apply sdscmp_order; [apply made_repr..| |]; vm_compute; discriminate.
Defined.

(** [sdssplitlen] cuts at every occurrence of the separator: the tokens,
    joined with the separator by [sdsjoinsds], give the string back, and no
    token contains the separator. *)
Theorem split_join (al : Allocator) s sep a :
  alloc_total al -> 1 <= zlen sep -> zlen s <= INT_MAX -> s <> [] ->
  exists toks cnt a' vs j a'', sdssplitlen s (zlen s) sep (zlen sep) a = Some (Some toks, Some cnt, a') /\
    cnt = zlen toks /\ Forall2 sds_repr toks vs /\ Forall (fun t => ~ occurs sep t) vs /\
    sdsjoinsds toks sep (zlen sep) a' = Some (j, a'') /\ sds_repr j s.
Proof.
  intros Hal Hsep Hs Hne.
  destruct (sdssplitlen_spec s sep a Hsep Hs Hne) as ([toks|] & cnt & a' & E & H); [|by destruct H].
  destruct H as [Ht ->]. assert (join_bytes sep (split_on sep s) = s) as Ej by apply join_split_bytes.
  destruct (sdsjoinsds_spec toks _ sep a' Hal Ht) as (j & a'' & Ejoin & Hj).
  { rewrite Ej. unfold BUF_SAFE. width_lia. }
  rewrite Ej in Hj. exists toks, (zlen toks), a', (split_on sep s), j, a''.
  split; [done|]. split; [done|]. split; [done|]. split; [|done].
  apply split_bytes_tokens; [by intros ->|done|]. simpl. lia.
Qed.

Lemma split_join_witness :
  exists toks cnt a' vs j a'', sdssplitlen (al := always_alloc) (bs "a--b--") 6 (bs "--") 2 0
      = Some (Some toks, Some cnt, a') /\
    cnt = zlen toks /\ Forall2 sds_repr toks vs /\ Forall (fun t => ~ occurs (bs "--") t) vs /\
    sdsjoinsds (al := always_alloc) toks (bs "--") 2 a' = Some (j, a'') /\ sds_repr j (bs "a--b--").
Proof.
  apply (split_join always_alloc (bs "a--b--") (bs "--")).
  - exact always_total.
  - vm_compute. discriminate.
  - vm_compute. discriminate.
  - discriminate.
Defined.

(** [sdscatfmt] appends the text of the format. *)
Theorem sdscatfmt_text (al : Allocator) s v fmt ap w a :
  sds_repr s v -> fmt_text (cstr fmt) ap = Some w -> zlen v + zlen w <= INT_MAX ->
  exists g a', sdscatfmt s fmt ap a = Some (g, a') /\
    match g with GOk s' => sds_repr s' (v ++ w) | GNull _ => ~ alloc_total al end.
Proof.
  intros Hr Hw Hb. destruct (sdscatfmt_spec s v fmt ap w a Hr Hw Hb) as (g & a' & E & Hg).
  exists g, a'. by split; [|destruct g].
Qed.

Lemma sdscatfmt_text_witness :
  exists g a', sdscatfmt (al := always_alloc) (made (bs "n=")) (bs "%i,%U%%") [VaInt (-5); VaInt 7] 0
      = Some (g, a') /\
    match g with
    | GOk s' => sds_repr s' (bs "n=" ++ bs "-5,7%")
    | GNull _ => ~ alloc_total always_alloc
    end.
Proof.
  apply (sdscatfmt_text always_alloc).
  - apply made_repr. vm_compute. discriminate.
  - vm_compute. reflexivity.
  - vm_compute. discriminate.
Defined.

(** [sdsll2str] and [sdsull2str] write the decimal numeral, for every
    64-bit value, the most negative one included, within their buffer. *)
Theorem ll2str_decimal v :
  (LLONG_MIN <= v <= LLONG_MAX -> sdsll2str v = Some (dec v)) /\
  (0 <= v <= ULLONG_MAX -> sdsull2str v = Some (udec v)).
Proof. split; [apply sdsll2str_dec|apply sdsull2str_spec]. Qed.

(** [sdsmapchars] replaces each byte by its image, for substitutions given
    by two sets of the same length. *)
Theorem sdsmapchars_subst s v from to n :
  sds_repr s v -> zlen from = n -> zlen to = n ->
  exists s', sdsmapchars s from to n = Some s' /\ sds_repr s' (subst_byte from to <$> v).
Proof. apply sdsmapchars_spec. Qed.

Lemma sdsmapchars_subst_witness :
  exists s', sdsmapchars (made (bs "hello")) (bs "ho") (bs "01") 2 = Some s' /\
    sds_repr s' (bs "0ell1").
Proof.
  apply (sdsmapchars_subst (made (bs "hello")) (bs "hello") (bs "ho") (bs "01") 2).
  - apply made_repr. vm_compute. discriminate.
  - reflexivity.
  - reflexivity.
Defined.

(** Any arguments, written with [sdscatrepr] on one line with blanks
    between them, are read back by [sdssplitargs], whatever bytes they hold. *)
Theorem quote_roundtrip (al : Allocator) args s a :
  alloc_total al -> sds_repr s [] -> zlen args <= INT_MAX -> zlen (quoted_line args) <= INT_MAX ->
  exists s' a' line toks a'', write_args args s a = Some (s', a') /\ sds_repr s' line /\
    sdssplitargs line a' = Some ((Some (Some <$> toks), zlen args), a'') /\
    Forall2 sds_repr toks args.
Proof.
  intros Hal Hs Ha Hl.
  destruct (write_args_spec Hal args s [] a Hs) as (s' & a' & E & Hs'); [rewrite zlen_nil; lia|].
  destruct (sdssplitargs_quoted Hal args a' Hl Ha) as (toks & a'' & Et & Ht).
  by exists s', a', (quoted_line args), toks, a''.
Qed.

Lemma quote_roundtrip_witness :
  exists s' a' line toks a'',
    write_args (al := always_alloc) [bs "a b"; [NUL; QUOTE; LF]; []] (made []) 0 = Some (s', a') /\
    sds_repr s' line /\
    sdssplitargs (al := always_alloc) line a' = Some ((Some (Some <$> toks), 3), a'') /\
    Forall2 sds_repr toks [bs "a b"; [NUL; QUOTE; LF]; []].
Proof.
  apply (quote_roundtrip always_alloc).
  - exact always_total.
  - apply made_repr. vm_compute. discriminate.
  - vm_compute. discriminate.
  - vm_compute. discriminate.
Defined.
