(* ===== verification/Streams.v ===== *)
(** * Whole streams: encoded replies, their release, and nesting

    What a stream of well-formed replies is read as, how the replies of a
    session are released, and that nesting too deep is refused.  Also the state
    of a reader after an error. *)

From Stdlib Require Import Strings.Byte String.
From stdpp Require Import gmap.
From S2P Require Import Prelude CLib Buffer Read Parser ReadLines ReaderRefines Replies Session Reply.
From S2P Require Import Tree Resp ReplyRefines Sds.

Section streams.
Context {fl : FloatLib}.
Implicit Types (ts : list reply) (h : heap).

(** The text of a list of replies. *)
Definition encodes ts : bytes := concat (encode <$> ts).

Lemma stream_encodes ts : Forall (wf_reply 8) ts -> stream (encodes ts) = (ts, RMore).
Proof.
  unfold encodes. induction 1 as [|t ts Ht _ IH]; [done|]. rewrite stream_eq. cbn [fmap list_fmap concat].
  rewrite resp_encode by done. by rewrite IH.
Qed.

(** ** Nesting *)

(** Arrays of one element, one in the other. *)
Fixpoint nested (n : nat) : bytes :=
  match n with
  | O => []
  | S n => Byte.x2a :: dec 1 ++ crlf ++ nested n
  end.

Lemma resp_nested d rest :
  resp d (nested (S d) ++ rest) =
  RBad REDIS_ERR_PROTOCOL (bs "No support for nested multi bulk replies with depth > 7").
Proof.
  revert rest. induction d as [|d IH]; intros rest; cbn [nested]; rewrite <- app_comm_cons.
  { by rewrite (resp_cons _ _ _ REDIS_REPLY_ARRAY). }
  rewrite <- !(assoc_L (++)), (resp_cons _ _ _ REDIS_REPLY_ARRAY) by done.
  change (is_line REDIS_REPLY_ARRAY) with false.
  change (REDIS_REPLY_ARRAY =? REDIS_REPLY_STRING) with false. cbv iota.
  rewrite split_dec, string2ll_of by width_lia. cbn [Z.ltb Z.eqb Z.compare]. cbv iota zeta.
  change (REDIS_REPLY_ARRAY =? REDIS_REPLY_MAP) with false. cbv iota.
  change (INT_MAX <? 1) with false. cbv iota.
  rewrite elements_eq by apply resp_consumes. cbn [Z.leb Z.compare].
  change (Byte.x2a :: dec 1 ++ crlf ++ nested d) with (nested (S d)) in IH |- *.
  by rewrite IH.
Qed.

(** ** The objects of a list of replies *)

Lemma heap_with_eq ts h :
  heap_with ts h = Heap (cells_list (h_next h) ts ∪ h_cells h) (h_next h + nodes_list ts).
Proof.
  revert h. induction ts as [|t ts IH]; intros h; unfold heap_with; simpl.
  { rewrite (left_id_L ∅ (∪)), Nat.add_0_r. by destruct h. }
  fold (heap_with ts (h_add t h)). rewrite IH. unfold h_add. simpl. f_equal; [|lia].
  rewrite (assoc_L (∪)). f_equal. apply map_union_comm. apply map_disjoint_spec.
  intros l x y Hx Hy. destruct (decide (l < h_next h + nodes t)%nat).
  - rewrite cells_list_outside in Hx by lia. done.
  - rewrite cells_range in Hy by lia. done.
Qed.

Lemma heap_with_ok ts h : heap_ok h -> heap_ok (heap_with ts h).
Proof.
  revert h. induction ts as [|t ts IH]; intros h Hh; [done|]. apply IH. by apply h_add_ok.
Qed.

(** Freeing replies one after the other, with the [freeObject] of the reader. *)
Definition free_replies (os : list (option optr)) (h : heap) : option heap :=
  foldl (fun m o => h ← m; o ← o; free_reply_object o h) (Some h) os.

Lemma reply_locs_offsets ts h :
  reply_locs ts h = (fun l => Some (OLoc l)) <$> offsets (h_next h) ts.
Proof.
  revert h. induction ts as [|t ts IH]; intros h; [done|]. simpl. f_equal. apply IH.
Qed.

Lemma free_replies_from ts lo C nx :
  Forall typed_tree ts -> (lo + nodes_list ts <= nx)%nat ->
  (forall l, (lo <= l < lo + nodes_list ts)%nat -> C !! l = None) ->
  free_replies ((fun l => Some (OLoc l)) <$> offsets lo ts) (Heap (cells_list lo ts ∪ C) nx)
  = Some (Heap C nx).
Proof.
  intros Hts. revert lo. induction Hts as [|t ts Ht Hts IH]; intros lo Hn HC.
  { unfold free_replies. simpl. by rewrite (left_id_L ∅ (∪)). }
  change (nodes_list (t :: ts)) with (nodes t + nodes_list ts)%nat in *.
  unfold free_replies. cbn [offsets fmap list_fmap foldl mbind option_bind free_reply_object cells_list].
  unfold freeReplyObject. cbn [h_next]. rewrite <- (assoc_L (∪)).
  rewrite (free_typed t Ht); [apply IH; [lia|]|lia|].
  - intros l Hl. apply HC. lia.
  - intros l Hl. apply lookup_union_None. split; [apply cells_list_outside; lia|apply HC; lia].
Qed.

(** Freeing all the replies of a session gives the heap back. *)
Lemma free_replies_all ts h0 h :
  Forall typed_tree ts -> heap_ok h0 -> gives_back (heap_with ts h0) h ->
  exists h', free_replies (reply_locs ts h0) h = Some h' /\ gives_back h0 h'.
Proof.
  intros Hts Hh [Hc Hn]. destruct h as [C nx]. simpl in *. subst C. rewrite heap_with_eq in Hn |- *.
  simpl in *. rewrite reply_locs_offsets. eexists. split; [apply free_replies_from; [done|lia|]|].
  - intros l Hl. apply Hh. lia.
  - split; [done|]. simpl. lia.
Qed.

Lemma wf_typed d t : wf_reply d t -> typed_tree t.
Proof.
  revert d. induction t as [| | | | |ty n ts IH] using reply_ind'; intros dep Hw; try done.
  - by destruct Hw.
  - apply wf_agg in Hw as (d' & _ & Hty & -> & _ & _ & Hts). apply typed_agg.
    split; [done|]. split; [done|]. rewrite Forall_forall in *. eauto.
Qed.

Context {al : Allocator} {dm : DataModel} {B : Type} {bb : ByteBuf B} {laws : ByteBufLaws al B}.
#[local] Abbreviation fnd := (Some defaultFunctions).
Hypothesis Hal : alloc_total al.
Hypothesis Hstrtod : strtod_bounded.
#[local] Instance counter_free : CounterFree fnd := default_counter_free Hal.

(** An encoded stream is read to its end, and nothing else stays in the heap. *)
Lemma replies_encodes ts p a h0 :
  heap_ok h0 -> ready h0 (start p) [] h0 -> p_reply p = None -> p_rest p = encodes ts ->
  Forall (wf_reply 8) ts ->
  exists q a', replies fnd (start p) a h0 = Some (reply_locs ts h0, More q, a', heap_with ts h0) /\
    p_reply q = None.
Proof.
  intros Hh Hr Hp He Hts. revert p a h0 Hh Hr Hp He.
  induction Hts as [|t ts Ht Hts IH]; intros p a h0 Hh Hr Hp He;
    rewrite replies_eq by done.
  - exists (start p), a. split; [|done]. rewrite parse_eq. simpl.
    pose proof (rd_task _ _ _ _ Hr) as (cur & Hc & Hty & _).
    assert (zget (p_stack (start p)) (p_ridx (start p)) = Some cur) as E by exact Hc.
    unfold item. rewrite E. cbn [mbind option_bind]. rewrite Hty. simpl. by rewrite He.
  - pose proof (parse_default Hal Hstrtod (start p) h0 a Hh Hr) as Hpd.
    change (p_rest (start p)) with (p_rest p) in Hpd.
    rewrite He in Hpd. unfold encodes in Hpd. cbn [fmap list_fmap concat] in Hpd.
    rewrite resp_encode in Hpd by done. destruct Hpd as (st & a1 & Hst & _ & ->).
    cbn [mbind option_bind]. set (p1 := Parser _ _ _ _ _).
    destruct (IH (p_clear p1) a1 (h_add t h0)) as (q & a' & -> & Hq).
    + by apply h_add_ok.
    + by apply start_ready.
    + done.
    + done.
    + exists q, a'. done.
Qed.

(** The session of a new reader on encoded replies. *)
Lemma session_encodes chunks a h0 ts :
  LP64 -> heap_ok h0 -> zlen (concat chunks) <= INT_MAX -> concat chunks = encodes ts ->
  Forall (wf_reply 8) ts ->
  exists r a1 r' a2,
    redisReaderCreate (B := B) a = Some (Some r, a1) /\
    session fnd chunks r a1 h0 = Some (reply_locs ts h0, REDIS_OK, r', a2, heap_with ts h0) /\
    r_err r' = 0 /\ r_reply r' = None.
Proof.
  intros Hlp Hh Hm Ec Hts.
  destruct (new_reader_created (B := B) Hal a) as (r & a1 & Er).
  destruct (new_reader_awaits Hal _ _ _ Er) as (b & Haw & Hl).
  destruct (replies_encodes ts (Parser (encodes ts) (replicate 9 zero_task) (-1) None 0) a1 h0)
    as (q & a' & Erep & Hq); [done|exact (start_ready h0 _ (replicate 9 zero_task) None 0 eq_refl)|done..|].
  rewrite <- Ec in Erep. change (start _) with (p_feed new_parser (concat chunks)) in Erep.
  destruct (session_refines fnd chunks b r new_parser a1 h0 _ _ _ _ Hlp Hal Haw
    (new_parser_drained h0) ltac:(lia) Erep) as (b' & status & r' & a2 & Es & -> & Haw').
  exists r, a1, r', a2. split; [done|]. split; [done|].
  destruct Haw' as (q0 & Hs & _ & Hq0). split; [apply Hs|]. rewrite (sh_reply _ _ _ Hs).
  by destruct Hq0 as [(-> & _)|(-> & _)].
Qed.

(** [redisReaderFree] frees what the reader still owns. *)
Lemma session_ends_free h0 h e status (r : redisReader B) :
  heap_ok h0 -> session_ends h0 h e status r ->
  exists h', redisReaderFree fnd r h = Some h' /\ gives_back h0 h'.
Proof.
  intros Hh He. unfold redisReaderFree. destruct e as [| |c m|]; try done; simpl in He.
  - destruct He as (_ & _ & [b Hb] & Ho).
    destruct (free_owned h0 _ _ Hh Ho) as (f & h' & -> & Hg & _). rewrite Hb. by exists h'.
  - destruct He as (_ & _ & _ & -> & -> & Hg). by exists h.
Qed.

(** ** Sessions do not depend on how the input is cut *)

Lemma session_chunking c1 c2 r a a1 h0 :
  LP64 -> heap_ok h0 -> redisReaderCreate (B := B) a = Some (Some r, a1) ->
  zlen (concat c1) <= INT_MAX -> concat c1 = concat c2 -> (stream (concat c1)).2 <> RHuge ->
  exists l status r1 n1 r2 n2 h',
    session fnd c1 r a1 h0 = Some (l, status, r1, n1, h') /\
    session fnd c2 r a1 h0 = Some (l, status, r2, n2, h') /\
    r_err r1 = r_err r2 /\ r_reply r1 = r_reply r2 /\
    (status = REDIS_ERR -> r_errstr r1 = r_errstr r2).
Proof.
  intros Hlp Hh Er Hm Ec He. destruct (new_reader_awaits Hal _ _ _ Er) as (b & Haw & Hl).
  destruct (stream (concat c1)) as [ts e] eqn:Es.
  destruct (replies_default Hal Hstrtod (p_feed new_parser (concat c1)) h0 a1 ts e)
    as (o & a' & h' & Erep & _ & _); [done| |done..|].
  { destruct (new_parser_ready h0). by split. }
  pose proof Erep as Erep2. rewrite Ec in Erep2.
  pose proof (fun c => session_refines fnd c b r new_parser a1 h0 (reply_locs ts h0) o a' h' Hlp Hal
    Haw (new_parser_drained h0)) as Href.
  destruct (Href c1 ltac:(lia) Erep) as (b1 & s1 & r1 & n1 & -> & H1).
  destruct (Href c2 ltac:(rewrite <- Ec; lia) Erep2) as (b2 & s2 & r2 & n2 & -> & H2).
  exists (reply_locs ts h0), s1, r1, n1, r2, n2, h'.
  destruct o as [q|c m rep|]; [| |done].
  - destruct H1 as [-> (q1 & S1 & _ & Q1)], H2 as [-> (q2 & S2 & _ & Q2)]. split; [done|].
    split; [done|]. rewrite (sh_err _ _ _ S1), (sh_err _ _ _ S2), (sh_reply _ _ _ S1),
      (sh_reply _ _ _ S2). split; [done|]. split; [|done].
    transitivity (p_reply q); [symmetry|].
    + by destruct Q1 as [(-> & _)|(-> & _)].
    + by destruct Q2 as [(-> & _)|(-> & _)].
  - destruct H1 as [-> []], H2 as [-> []]. split; [done|]. split; [done|].
    split; [congruence|]. split; [congruence|]. intros _. congruence.
Qed.

End streams.

(** ** Prefixes of a stream of replies

    A reply that was read stays the same when more input arrives; [takes ts s
    rest]: the bytes [s] hold the replies [ts] and then [rest].  [behaves]: a
    parser in the middle of a reply acts as one between replies that has the
    bytes of this reply still before it. *)

Section prefixes.
Context {fl : FloatLib}.

Lemma elems_more value f g k s ts rest x :
  (forall s t rest, value s = ROk t rest -> value (s ++ x) = ROk t (rest ++ x)) ->
  (f <= g)%nat -> elems value f k s = ROk ts rest -> elems value g k (s ++ x) = ROk ts (rest ++ x).
Proof.
  intros Hv. revert g k s ts. induction f as [|f IH]; intros g k s ts Hg.
  { simpl. destruct (k <=? 0) eqn:Ek; [|done]. intros [= <- <-]. destruct g; simpl; by rewrite Ek. }
  destruct g as [|g]; [lia|]. rewrite !elems_S. destruct (k <=? 0); [by intros [= <- <-]|].
  destruct (value s) as [t s'| | |] eqn:E; simpl; [|done..]. rewrite (Hv _ _ _ E). simpl.
  destruct (elems value f (k - 1) s') as [us s''| | |] eqn:E'; simpl; [|done..].
  intros [= <- <-]. by rewrite (IH g _ _ _ ltac:(lia) E').
Qed.

Lemma resp_bulk_more s t rest x :
  resp_bulk s = ROk t rest -> resp_bulk (s ++ x) = ROk t (rest ++ x).
Proof.
  unfold resp_bulk. destruct (split_line s) as [[l r]|] eqn:E; [|done].
  rewrite (split_line_app _ x _ _ E). destruct (string2ll l) as [len|]; [|done].
  destruct (Z.ltb_spec len (-1)); [done|]. destruct (Z.eqb_spec len (-1)); [by intros [= <- <-]|].
  destruct (Z.leb_spec (len + 2) (zlen r)); [|done]. intros [= <- <-]. pose proof (zlen_nonneg x).
  rewrite (proj2 (Z.leb_le _ _)) by (rewrite zlen_app; lia).
  by rewrite ztake_app_l, zdrop_app_l by lia.
Qed.

Lemma resp_more d s t rest x : resp d s = ROk t rest -> resp d (s ++ x) = ROk t (rest ++ x).
Proof.
  revert s t rest. induction d as [|d IH]; intros [|b s] t rest; try done; rewrite <- app_comm_cons;
    cbn [resp]; (destruct (reply_type b) as [ty|]; [|done]);
    (destruct (is_line ty); [|destruct (ty =? REDIS_REPLY_STRING); [apply resp_bulk_more|]]); try done.
  all: destruct (split_line s) as [[l r]|] eqn:E; [|done]; rewrite (split_line_app _ x _ _ E).
  1, 2: by destruct (resp_line ty l); [intros [= <- <-]|].
  destruct (string2ll l) as [n|]; [|done]. destruct (n <? -1); [done|].
  destruct (n =? -1); [by intros [= <- <-]|]. set (k := if _ =? _ then _ else n).
  destruct (INT_MAX <? k); [done|].
  destruct (elems (resp d) (S (length r)) k r) as [us s'| | |] eqn:Ee; simpl; [|done..].
  intros [= <- <-].
  assert (S (length r) <= S (length (r ++ x)))%nat as Hle by (rewrite length_app; lia).
  pose proof (elems_more (resp d) _ _ k r us s' x IH Hle Ee) as E'. cbn [elems] in E'. by rewrite E'.
Qed.

#[local] Arguments resp : simpl never.

(** ** The replies at the front *)

Fixpoint takes (ts : list reply) (s rest : bytes) : Prop :=
  match ts with
  | [] => s = rest
  | t :: ts => exists s', resp 8 s = ROk t s' /\ takes ts s' rest
  end.

Lemma takes_more ts s rest x : takes ts s rest -> takes ts (s ++ x) (rest ++ x).
Proof.
  revert s. induction ts as [|t ts IH]; intros s; simpl; [by intros ->|].
  intros (s' & E & H). exists (s' ++ x). split; [by apply resp_more|auto].
Qed.

Lemma takes_snoc ts s rest t rest' :
  takes ts s rest -> resp 8 rest = ROk t rest' -> takes (ts ++ [t]) s rest'.
Proof.
  revert s. induction ts as [|u ts IH]; intros s; simpl; [by intros -> ?; exists rest'|].
  intros (s' & E & H) Er. exists s'. auto.
Qed.

Lemma takes_stream ts s rest :
  takes ts s rest -> stream s = (ts ++ (stream rest).1, (stream rest).2).
Proof.
  revert s. induction ts as [|t ts IH]; intros s; simpl; [intros ->; by destruct (stream rest)|].
  intros (s' & E & H). rewrite stream_eq, E. by rewrite (IH _ H).
Qed.

Lemma stream_more s : resp 8 s = RMore -> stream s = ([], RMore).
Proof. intros E. by rewrite stream_eq, E. Qed.

Lemma stream_huge s : resp 8 s = RHuge -> (stream s).2 = RHuge.
Proof. intros E. by rewrite stream_eq, E. Qed.

Lemma stream_ok s t rest : resp 8 s = ROk t rest -> (stream s).1 = t :: (stream rest).1.
Proof. intros E. rewrite stream_eq, E. by destruct (stream rest). Qed.

(** More input never has fewer replies. *)
Lemma stream_mono s x : (length (stream s).1 <= length (stream (s ++ x)).1)%nat.
Proof.
  induction s as [s IH] using (induction_ltof1 _ length). unfold ltof in IH.
  rewrite (stream_eq s). destruct (resp 8 s) as [t rest| | |] eqn:E; [|simpl; lia..].
  rewrite (stream_ok (s ++ x) _ _ (resp_more _ _ _ _ x E)).
  pose proof (IH rest (resp_consumes _ _ _ _ E)). destruct (stream rest). simpl in *. lia.
Qed.

(** ** A parser in the middle of a reply *)

Context {al : Allocator}.
Hypothesis Hal : alloc_total al.
Hypothesis Hstrtod : strtod_bounded.
#[local] Abbreviation fnd := (Some defaultFunctions).
#[local] Instance counter_free_p : CounterFree fnd := default_counter_free Hal.
Implicit Types (p q : parser) (h : heap).

Definition behaves q hq (pre : bytes) h : Prop :=
  exists p, ready h p [] h /\ p_rest p = pre /\
    forall d a b, same (parse fnd (p_feed q d) a hq) (parse fnd (p_feed p d) b h).

Lemma behaves_ready q h : ready h q [] h -> behaves q h (p_rest q) h.
Proof. intros Hr. exists q. split; [done|]. split; [done|]. intros d a b. exact (same_run fnd _ _ a b h). Qed.

Lemma behaves_feed q hq pre h d : behaves q hq pre h -> behaves (p_feed q d) hq (pre ++ d) h.
Proof.
  intros (p & Hr & <- & H). exists (p_feed p d). split; [by destruct Hr|]. split; [done|].
  intros e a b. rewrite <- !p_feed_app. apply H.
Qed.

(** One attempt at a reply. *)
Lemma behaves_step q hq pre h a :
  heap_ok h -> behaves q hq pre h ->
  match resp 8 pre with
  | ROk t rest => exists st priv a', length st = 9%nat /\ typed_tree t /\
      parse fnd q a hq = Some (Done (Parser rest st (-1) (Some (OLoc (h_next h))) priv), a', h_add t h)
  | RMore => exists q' a' h', parse fnd q a hq = Some (More q', a', h') /\
      behaves q' h' pre h /\ owned h (p_reply q') h'
  | RBad c m => exists a' h', parse fnd q a hq = Some (Bad c m None, a', h') /\ gives_back h h'
  | RHuge => True
  end.
Proof.
  intros Hh (p & Hr & <- & H). pose proof (parse_default Hal Hstrtod p h 0 Hh Hr) as Hp.
  pose proof (H [] a 0%nat) as Hs. rewrite !p_feed_nil in Hs.
  destruct (resp 8 (p_rest p)) as [t rest| |c m|]; [..|done].
  - destruct Hp as (st & a' & Hst & Ht & Ep). rewrite Ep in Hs.
    destruct (same_some_inv _ _ _ _ Hs) as (a2 & E). exists st, (p_priv p), a2. done.
  - destruct Hp as (q' & a' & h' & Ep & Ho). rewrite Ep in Hs.
    destruct (same_some_inv _ _ _ _ Hs) as (a2 & E). exists q', a2, h'. split; [done|]. split; [|done].
    exists p. split; [done|]. split; [done|]. intros d x y.
    pose proof (H d a y) as Hd. rewrite parse_feed, E in Hd.
    etransitivity; [exact (same_run fnd _ _ x a2 h')|]. exact Hd.
  - destruct Hp as (a' & h' & Ep & Hg). rewrite Ep in Hs.
    destruct (same_some_inv _ _ _ _ Hs) as (a2 & E). exists a2, h'. done.
Qed.

End prefixes.
