(* ===== verification/ReaderTheorems.v ===== *)
(** * The theorems about the reader

    Each is stated for the reader on dynamic strings, with the default object
    functions unless it says otherwise, and comes with a concrete instance. *)

From Stdlib Require Import Strings.Byte String.
From stdpp Require Import gmap.
From S2P Require Import Prelude CLib Buffer Sds SdsEdit Read Parser ReadLines ReaderRefines.
From S2P Require Import Replies Session Reply Tree Resp ReplyRefines Concrete.
From S2P Require Import Streams.

#[local] Abbreviation fnd := (Some defaultFunctions).

(** The input of the examples: an array in two pieces, then a status. *)
Definition example_chunks : list bytes :=
  [bs "*2" ++ crlf ++ bs ":1" ++ [CR]; [LF] ++ bs "$3" ++ crlf ++ bs "foo" ++ crlf ++ bs "+OK" ++ crlf].

Definition example_replies {fl : FloatLib} : list reply :=
  [RAgg REDIS_REPLY_ARRAY 2 [RInt 1; RStr REDIS_REPLY_STRING (bs "foo")];
   RStr REDIS_REPLY_STATUS (bs "OK")].

(** C3: A new reader, fed any bytes in any pieces, with all available replies
    taken after each piece: it returns exactly the replies that the recursive
    descent parser finds in the whole input, as objects whose cells are exactly
    those of the reply trees; when the input is malformed it reports the
    protocol error and has freed all the objects of the unfinished reply. *)
Theorem reader_session (al : Allocator) (dm : DataModel) (fl : FloatLib) chunks a h0 ts e :
  alloc_total al -> strtod_bounded -> LP64 -> heap_ok h0 -> zlen (concat chunks) <= INT_MAX ->
  stream (concat chunks) = (ts, e) -> e <> RHuge ->
  exists r a1 status r' a2 h',
    redisReaderCreate (B := sds) a = Some (Some r, a1) /\
    session fnd chunks r a1 h0 = Some (reply_locs ts h0, status, r', a2, h') /\
    Forall typed_tree ts /\ session_ends (heap_with ts h0) h' e status r'.
Proof. intros Hal Hs. exact (default_session Hal Hs chunks a h0 ts e). Qed.

Lemma reader_session_witness :
  let al := always_alloc in let dm := lp64 in let fl := digits_lib in
  exists r a1 status r' a2 h',
    redisReaderCreate (B := sds) 0 = Some (Some r, a1) /\
    session fnd example_chunks r a1 (Heap ∅ 0)
      = Some (reply_locs example_replies (Heap ∅ 0), status, r', a2, h') /\
    Forall typed_tree example_replies /\
    session_ends (heap_with example_replies (Heap ∅ 0)) h' RMore status r'.
Proof.
  intros al dm fl. apply (reader_session al dm fl).
  - exact always_total.
  - exact digits_bounded.
  - reflexivity.
  - exact empty_heap_ok.
  - vm_compute. discriminate.
  - vm_compute. reflexivity.
  - discriminate.
Defined.

(** C5: The bytes of well-formed replies, in any pieces, are read back as those
    replies, in order; nothing else is left in the heap, the reader is without
    error and holds no reply. *)
Theorem reader_roundtrip (al : Allocator) (dm : DataModel) (fl : FloatLib) chunks a h0 ts :
  alloc_total al -> strtod_bounded -> LP64 -> heap_ok h0 -> zlen (concat chunks) <= INT_MAX ->
  concat chunks = encodes ts -> Forall (wf_reply 8) ts ->
  exists r a1 r' a2,
    redisReaderCreate (B := sds) a = Some (Some r, a1) /\
    session fnd chunks r a1 h0 = Some (reply_locs ts h0, REDIS_OK, r', a2, heap_with ts h0) /\
    r_err r' = 0 /\ r_reply r' = None.
Proof. intros Hal Hs. exact (session_encodes Hal Hs chunks a h0 ts). Qed.

Lemma reader_roundtrip_witness :
  let al := always_alloc in let dm := lp64 in let fl := digits_lib in
  exists r a1 r' a2,
    redisReaderCreate (B := sds) 0 = Some (Some r, a1) /\
    session fnd example_chunks r a1 (Heap ∅ 0)
      = Some (reply_locs example_replies (Heap ∅ 0), REDIS_OK, r', a2,
              heap_with example_replies (Heap ∅ 0)) /\
    r_err r' = 0 /\ r_reply r' = None.
Proof.
  intros al dm fl. apply (reader_roundtrip al dm fl).
  - exact always_total.
  - exact digits_bounded.
  - reflexivity.
  - exact empty_heap_ok.
  - vm_compute. discriminate.
  - vm_compute. reflexivity.
  - repeat constructor; simpl; try (vm_compute; discriminate); try (vm_compute; set_solver).
Defined.

(** C33: How the input is cut does not matter: two sessions of a new reader on
    the same bytes return the same replies and status, leave the same objects
    in the heap, and the same error. *)
Theorem reader_chunking (al : Allocator) (dm : DataModel) (fl : FloatLib) c1 c2 r a a1 h0 :
  alloc_total al -> strtod_bounded -> LP64 -> heap_ok h0 ->
  redisReaderCreate (B := sds) a = Some (Some r, a1) ->
  zlen (concat c1) <= INT_MAX -> concat c1 = concat c2 -> (stream (concat c1)).2 <> RHuge ->
  exists l status r1 n1 r2 n2 h',
    session fnd c1 r a1 h0 = Some (l, status, r1, n1, h') /\
    session fnd c2 r a1 h0 = Some (l, status, r2, n2, h') /\
    r_err r1 = r_err r2 /\ r_reply r1 = r_reply r2 /\
    (status = REDIS_ERR -> r_errstr r1 = r_errstr r2).
Proof. intros Hal Hs. exact (session_chunking Hal Hs c1 c2 r a a1 h0). Qed.

Lemma reader_chunking_witness :
  let al := always_alloc in let dm := lp64 in let fl := digits_lib in
  exists r a1 l status r1 n1 r2 n2 h',
    redisReaderCreate (B := sds) 0 = Some (Some r, a1) /\
    session fnd example_chunks r a1 (Heap ∅ 0) = Some (l, status, r1, n1, h') /\
    session fnd [concat example_chunks] r a1 (Heap ∅ 0) = Some (l, status, r2, n2, h') /\
    r_err r1 = r_err r2 /\ r_reply r1 = r_reply r2 /\
    (status = REDIS_ERR -> r_errstr r1 = r_errstr r2).
Proof.
  intros al dm fl. destruct (new_reader_created (B := sds) always_total 0) as (r & a1 & E).
  destruct (reader_chunking al dm fl example_chunks [concat example_chunks] r 0 a1 (Heap ∅ 0))
    as (l & status & r1 & n1 & r2 & n2 & h' & H).
  - exact always_total.
  - exact digits_bounded.
  - reflexivity.
  - exact empty_heap_ok.
  - exact E.
  - vm_compute. discriminate.
  - reflexivity.
  - vm_compute. discriminate.
  - exists r, a1, l, status, r1, n1, r2, n2, h'. split; [exact E|exact H].
Defined.

(** C34: No object is leaked or freed twice: after any session of a new reader,
    freeing the reader and then the replies it returned, in the order it
    returned them, gives back the heap of before the session. *)
Theorem reader_no_leak (al : Allocator) (dm : DataModel) (fl : FloatLib) chunks a h0 ts e :
  alloc_total al -> strtod_bounded -> LP64 -> heap_ok h0 -> zlen (concat chunks) <= INT_MAX ->
  stream (concat chunks) = (ts, e) -> e <> RHuge ->
  exists r a1 l status r' a2 h' h1 h2,
    redisReaderCreate (B := sds) a = Some (Some r, a1) /\
    session fnd chunks r a1 h0 = Some (l, status, r', a2, h') /\ length l = length ts /\
    redisReaderFree fnd r' h' = Some h1 /\ free_replies l h1 = Some h2 /\
    h_cells h2 = h_cells h0.
Proof.
  intros Hal Hs Hlp Hh Hm Es He.
  destruct (default_session (B := sds) Hal Hs chunks a h0 ts e Hlp Hh Hm Es He)
    as (r & a1 & status & r' & a2 & h' & Er & Ese & Hts & Hend).
  destruct (session_ends_free _ _ _ _ _ (heap_with_ok ts h0 Hh) Hend) as (h1 & E1 & Hg).
  destruct (free_replies_all ts h0 h1 Hts Hh Hg) as (h2 & E2 & Hc & _).
  exists r, a1, (reply_locs ts h0), status, r', a2, h', h1, h2.
  split_and!; try done. by rewrite reply_locs_offsets, length_fmap, length_offsets.
Qed.

Lemma reader_no_leak_witness :
  let al := always_alloc in let dm := lp64 in let fl := digits_lib in
  exists r a1 l status r' a2 h' h1 h2,
    redisReaderCreate (B := sds) 0 = Some (Some r, a1) /\
    session fnd (example_chunks ++ [bs "*2" ++ crlf ++ bs ":1" ++ crlf]) r a1 (Heap ∅ 0)
      = Some (l, status, r', a2, h') /\
    length l = length example_replies /\
    redisReaderFree fnd r' h' = Some h1 /\ free_replies l h1 = Some h2 /\
    h_cells h2 = h_cells (Heap ∅ 0).
Proof.
  intros al dm fl. apply (reader_no_leak al dm fl _ _ _ _ RMore).
  - exact always_total.
  - exact digits_bounded.
  - reflexivity.
  - exact empty_heap_ok.
  - vm_compute. discriminate.
  - vm_compute. reflexivity.
  - discriminate.
Defined.

(** C37: The status of a session agrees with the error field, and an error is
    final: for any object functions, any allocator and any buffer, once a
    session has ended in error every later one fails at once and changes
    nothing. *)
Theorem reader_error_final (al : Allocator) (dm : DataModel) (fl : FloatLib) B (bb : ByteBuf B) H
    (fn : option (redisReplyObjectFunctions H)) chunks r a h l s r' a' h' :
  r_err r = 0 -> session fn chunks r a h = Some (l, s, r', a', h') ->
  (s = REDIS_OK /\ r_err r' = 0) \/
  (s = REDIS_ERR /\ r_err r' <> 0 /\
   forall cs a h, cs <> [] -> session fn cs r' a h = Some ([], REDIS_ERR, r', a, h)).
Proof.
  intros Hr [[-> ?]|[-> Hn]]%session_agrees; [by left|right|done]. split; [done|]. split; [done|].
  intros [|c cs] a1 h1 Hc; [done|]. simpl. unfold redisReaderFeed.
  by rewrite (proj2 (Z.eqb_neq _ _) Hn).
Qed.

Lemma reader_error_final_witness :
  let al := always_alloc in let dm := lp64 in let fl := digits_lib in
  exists r l s r' a' h', r_err (B := sds) r = 0 /\
    session fnd [bs "!"] r 0 (Heap ∅ 0) = Some (l, s, r', a', h') /\
    ((s = REDIS_OK /\ r_err r' = 0) \/
     (s = REDIS_ERR /\ r_err r' <> 0 /\
      forall cs a h, cs <> [] -> session fnd cs r' a h = Some ([], REDIS_ERR, r', a, h))).
Proof.
  intros al dm fl. do 6 eexists.
  match goal with |- ?A /\ _ => assert A as Hr end.
  2: match goal with |- _ /\ ?A /\ _ => assert A as Hs end.
  3: split; [exact Hr|]; split; [exact Hs|].
  3: exact (reader_error_final _ _ _ _ _ _ _ _ _ _ _ _ _ _ _ _ Hr Hs).
  - instantiate (1 := match redisReaderCreate 0 with Some (Some r, _) => r | _ => Reader 0 [] BNull 0 0 0 [] 0 None 0 end).
    reflexivity.
  - vm_compute. reflexivity.
Defined.

(** Nesting is bounded: a ninth level of arrays is refused with a protocol
    error, whatever follows it and however the input is cut, before anything is
    written past the end of the task stack. *)
Theorem reader_nesting (al : Allocator) (dm : DataModel) (fl : FloatLib) chunks rest a h0 :
  alloc_total al -> strtod_bounded -> LP64 -> heap_ok h0 -> zlen (concat chunks) <= INT_MAX ->
  concat chunks = nested 9 ++ rest ->
  exists r a1 r' a2 h',
    redisReaderCreate (B := sds) a = Some (Some r, a1) /\
    session fnd chunks r a1 h0 = Some ([], REDIS_ERR, r', a2, h') /\
    r_err r' = REDIS_ERR_PROTOCOL /\
    r_errstr r' = bs "No support for nested multi bulk replies with depth > 7" /\
    h_cells h' = h_cells h0.
Proof.
  intros Hal Hs Hlp Hh Hm Ec.
  assert (stream (concat chunks) = ([], RBad REDIS_ERR_PROTOCOL
    (bs "No support for nested multi bulk replies with depth > 7"))) as Es.
  { by rewrite Ec, stream_eq, resp_nested. }
  destruct (default_session (B := sds) Hal Hs chunks a h0 _ _ Hlp Hh Hm Es)
    as (r & a1 & status & r' & a2 & h' & Er & Ese & _ & -> & Hc & Ht & _ & _ & Hg & _); [done|].
  exists r, a1, r', a2, h'. rewrite Ht. by split_and!.
Qed.

Lemma reader_nesting_witness :
  let al := always_alloc in let dm := lp64 in let fl := digits_lib in
  exists r a1 r' a2 h',
    redisReaderCreate (B := sds) 0 = Some (Some r, a1) /\
    session fnd [nested 5; nested 5] r a1 (Heap ∅ 0) = Some ([], REDIS_ERR, r', a2, h') /\
    r_err r' = REDIS_ERR_PROTOCOL /\
    r_errstr r' = bs "No support for nested multi bulk replies with depth > 7" /\
    h_cells h' = h_cells (Heap ∅ 0).
Proof.
  intros al dm fl. apply (reader_nesting al dm fl _ (nested 1)).
  - exact always_total.
  - exact digits_bounded.
  - reflexivity.
  - exact empty_heap_ok.
  - vm_compute. discriminate.
  - reflexivity.
Defined.

(** [redisReaderGetReply] implements the abstract parser, for any buffer,
    allocator and object functions: from a reader that waits for what the
    parser [p] waits for, it returns no reply when the parser needs more input,
    the complete reply when there is one (or frees it when the caller does not
    want it), and the parser's error otherwise; and the reader again waits for
    what the parser then waits for. *)
Theorem getreply_implements_parse (al : Allocator) (dm : DataModel) (fl : FloatLib) B
    (bb : ByteBuf B) (laws : ByteBufLaws al B) H (fn : option (redisReplyObjectFunctions H))
    b r p want a h :
  LP64 -> awaits fn b r p ->
  match parse fn p a h with
  | None => True
  | Some (More q, a', h') =>
      exists b' r', redisReaderGetReply fn r want a h = Some (REDIS_OK, None, r', a', h') /\
        awaits fn b' r' q /\ r_len r' <= r_len r
  | Some (Bad c m reply, a', h') =>
      exists r', redisReaderGetReply fn r want a h = Some (REDIS_ERR, None, r', a', h') /\
        dead r' c m reply
  | Some (Done q, a', h') =>
      match taken fn want q h' with
      | None => True
      | Some (x, h'') =>
          exists b' r', redisReaderGetReply fn r want a h = Some (REDIS_OK, x, r', a', h'') /\
            awaits fn b' r' (start (p_clear q)) /\ r_len r' <= r_len r
      end
  end.
Proof. exact (getreply_refines fn b r p want a h). Qed.

Lemma getreply_implements_parse_witness :
  let al := always_alloc in let dm := lp64 in let fl := digits_lib in
  exists (b : sds) r a q a' h' b' r',
    redisReaderGetReply fnd r true a (Heap ∅ 0) = Some (REDIS_OK, p_reply q, r', a', h') /\
    parse fnd (p_feed new_parser (bs ":7" ++ crlf)) a (Heap ∅ 0) = Some (Done q, a', h') /\
    awaits fnd b' r' (start (p_clear q)) /\ awaits fnd b r (p_feed new_parser (bs ":7" ++ crlf)).
Proof.
  intros al dm fl. destruct (new_reader_created (B := sds) always_total 0) as (r & a1 & E).
  destruct (new_reader_awaits always_total _ _ _ E) as (b & Haw & Hl).
  destruct (feed_refines fnd b r new_parser (bs ":7" ++ crlf) a1 (Heap ∅ 0) always_total Haw)
    as (b1 & r1 & a2 & _ & Haw1 & _); [rewrite Hl; vm_compute; discriminate|].
  pose proof (getreply_implements_parse al dm fl sds _ _ _ fnd b1 r1 _ true a2 (Heap ∅ 0) eq_refl Haw1)
    as H.
  destruct (parse_default (al := always_alloc) (fl := fl) always_total digits_bounded (p_feed new_parser (bs ":7" ++ crlf)) (Heap ∅ 0) a2)
    as (st & a' & _ & _ & Ep); [done|by destruct (new_parser_ready (Heap ∅ 0)); split|].
  rewrite Ep in H. cbn [taken] in H. destruct H as (b' & r' & E' & Haw' & _).
  eexists b1, r1, a2, _, _, _, b', r'.
  split; [exact E'|]. split; [exact Ep|]. split; [exact Haw'|exact Haw1].
Defined.

(** [redisReaderFeed] appends to the input: when no allocation fails it
    returns [REDIS_OK] and the reader waits for what the parser waits for with
    the new bytes at the end of its input. *)
Theorem feed_implements_append (al : Allocator) (dm : DataModel) (fl : FloatLib) B
    (bb : ByteBuf B) (laws : ByteBufLaws al B) H (fn : option (redisReplyObjectFunctions H))
    b r p data a h :
  alloc_total al -> awaits fn b r p -> r_len r + zlen data <= INT_MAX ->
  exists b' r' a', redisReaderFeed fn r (Some data) (zlen data) a h = Some (REDIS_OK, r', a', h) /\
    awaits fn b' r' (p_feed p data) /\ r_len r' = r_len r + zlen data.
Proof. exact (feed_refines fn b r p data a h). Qed.

Lemma feed_implements_append_witness :
  let al := always_alloc in let dm := lp64 in let fl := digits_lib in
  exists (b' : sds) r a1 r' a',
    redisReaderFeed fnd r (Some (bs ":7")) 2 a1 (Heap ∅ 0) = Some (REDIS_OK, r', a', Heap ∅ 0) /\
    awaits fnd b' r' (p_feed new_parser (bs ":7")) /\ r_len r' = 2.
Proof.
  intros al dm fl. destruct (new_reader_created (B := sds) always_total 0) as (r & a1 & E).
  destruct (new_reader_awaits always_total _ _ _ E) as (b & Haw & Hl).
  destruct (feed_implements_append al dm fl sds _ _ _ fnd b r new_parser (bs ":7") a1 (Heap ∅ 0))
    as (b' & r' & a' & E1 & Haw' & Hr'); [exact always_total|exact Haw|rewrite Hl; vm_compute; discriminate|].
  exists b', r, a1, r', a'. rewrite Hl in Hr'. split; [exact E1|]. split; [exact Haw'|exact Hr'].
Defined.

(** [string2ll] accepts exactly the canonical decimal numerals of the
    integers of [long long], and returns their values: no sign but a minus, no
    leading zero, no overflow. *)
Theorem string2ll_canonical s v :
  string2ll s = Some v <-> s = dec v /\ LLONG_MIN <= v <= LLONG_MAX.
Proof. apply string2ll_dec. Qed.

(** [seekNewline] finds the first CRLF of its input, and reports when
    there is none. *)
Theorem seekNewline_first s :
  zlen s <= INT_MAX ->
  exists r, seekNewline s (u64 (zlen s)) = Some r /\
    match r with
    | Some k => zget s k = Some CR /\ zget s (k + 1) = Some LF /\
                forall j, 0 <= j < k -> ~ (zget s j = Some CR /\ zget s (j + 1) = Some LF)
    | None => forall j, ~ (zget s j = Some CR /\ zget s (j + 1) = Some LF)
    end.
Proof.
  intros Hs. rewrite seekNewline_spec by done. eexists. split; [done|].
  pose proof (split_line_first s) as Hf. by destruct (split_line s) as [[l rest]|].
Qed.

Lemma seekNewline_first_witness :
  exists r, seekNewline (bs "a" ++ [CR; CR; LF]) (u64 4) = Some r /\
    match r with
    | Some k => zget (bs "a" ++ [CR; CR; LF]) k = Some CR /\
        zget (bs "a" ++ [CR; CR; LF]) (k + 1) = Some LF /\
        forall j, 0 <= j < k -> ~ (zget (bs "a" ++ [CR; CR; LF]) j = Some CR /\
                                   zget (bs "a" ++ [CR; CR; LF]) (j + 1) = Some LF)
    | None => forall j, ~ (zget (bs "a" ++ [CR; CR; LF]) j = Some CR /\
                           zget (bs "a" ++ [CR; CR; LF]) (j + 1) = Some LF)
    end.
Proof. apply (seekNewline_first (bs "a" ++ [CR; CR; LF])). vm_compute. discriminate. Defined.

(** [freeReplyObject] on the root of a reply frees every object of the
    reply once, and no other. *)
Theorem freeReplyObject_exact (fl : FloatLib) t h :
  typed_tree t -> heap_ok h ->
  freeReplyObject (Some (h_next h)) (h_add t h) = Some (Heap (h_cells h) (h_next (h_add t h))).
Proof. apply freeReplyObject_tree. Qed.

Lemma freeReplyObject_exact_witness :
  let fl := digits_lib in
  let t := RAgg REDIS_REPLY_ARRAY 2 [RInt 1; RAgg REDIS_REPLY_SET 1 [RNil]] in
  freeReplyObject (Some 0%nat) (h_add t (Heap ∅ 0)) = Some (Heap ∅ 4).
Proof.
  intros fl t. apply (freeReplyObject_exact fl t (Heap ∅ 0)).
  - repeat constructor; vm_compute; discriminate.
  - exact empty_heap_ok.
Defined.
