(* ===== verification/Format.v ===== *)
(** * Formatting of commands (hiredis.c)

    [redisvFormatCommand], [redisFormatCommand], [redisFormatCommandArgv] and
    [redisFormatSdsCommandArgv].  All of them write the arguments as an array
    of bulk strings, which the reader of read.c would read back. *)

From Stdlib Require Import Strings.Byte String.
From S2P Require Import Prelude CLib Buffer Read Sds SdsFmt SdsEdit Printf.

(** [for (;;) {...}]: four digits at a time. *)
Fixpoint count_digits_loop (fuel : nat) (v result : Z) : option Z :=
  match fuel with
  | O => None
  | S f =>
      if v <? 10 then Some result
      else if v <? 100 then Some (u32 (result + 1))
      else if v <? 1000 then Some (u32 (result + 2))
      else if v <? 10000 then Some (u32 (result + 3))
      else count_digits_loop f (v / 10000) (u32 (result + 4))
  end.

Definition countDigits (v : Z) : option Z := count_digits_loop 6 v 1.

Definition bulklen (len : Z) : option Z :=
  d ← countDigits len; Some (u64 (1 + d + 2 + len + 2)).

(** ** The format *)

(** How the current argument grows. *)
Inductive append :=
  | ANone
  | ACatLen (t : bytes) (n : Z)         (* sdscatlen *)
  | ACat (t : bytes)                    (* sdscat *)
  | APrintf (fmt out : bytes).          (* sdscatvprintf, and the text *)

(** One round of the loop on the format. *)
Inductive piece :=
  | PSpace (rest : bytes)
  | PAppend (x : append) (rest : bytes) (ap : list vaarg)
  | PInvalid.

Section format.
Context {al : Allocator} {dm : DataModel} {pd : PrintfDouble}.

(** [*_p], after flags, width and precision. *)
Definition skip_spec (l : bytes) : bytes :=
  let l := (span isdigit (span (strchr flags) l).2).2 in
  match l with
  | Byte.x2e :: l => (span isdigit l).2
  | _ => l
  end.

(** [fmt_valid]: [p] is [*_p]; the conversion of [arg] is printed unless it is
    too long for [_format], in which case only two bytes are skipped. *)
Definition fmt_valid (c p : bytes) (arg : vaarg) (ap : list vaarg) : option piece :=
  let l := zlen c - zlen p + 1 in
  if l <? 14 then
    match p with
    | [] => None
    | _ :: rest => out ← printf_conv (ztake l c) arg; Some (PAppend (APrintf (ztake l c) out) rest ap)
    end
  else Some (PAppend ANone (zdrop 2 c) ap).

Definition arg_int (ap : list vaarg) : option (vaarg * list vaarg) :=
  match ap with VaInt z :: ap => Some (VaInt z, ap) | _ => None end.
Definition arg_double (ap : list vaarg) : option (vaarg * list vaarg) :=
  match ap with VaDouble d :: ap => Some (VaDouble d, ap) | _ => None end.

(** After a size modifier: an integer conversion must follow. *)
Definition sized (c p : bytes) (ap : list vaarg) : option piece :=
  match p with
  | b :: _ => if strchr intfmts b then r ← arg_int ap; fmt_valid c p r.1 r.2 else Some PInvalid
  | [] => Some PInvalid
  end.

(** The [default] case.  [strchr] also finds the terminator. *)
Definition conversion (c : bytes) (ap : list vaarg) : option piece :=
  let p := skip_spec (tail c) in
  match p with
  | [] => r ← arg_int ap; fmt_valid c p r.1 r.2
  | b :: p1 =>
      if strchr intfmts b then r ← arg_int ap; fmt_valid c p r.1 r.2
      else if strchr doublefmts b then r ← arg_double ap; fmt_valid c p r.1 r.2
      else if bool_decide (b = Byte.x68) then
        sized c (match p1 with Byte.x68 :: p2 => p2 | _ => p1 end) ap
      else if bool_decide (b = Byte.x6c) then
        sized c (match p1 with Byte.x6c :: p2 => p2 | _ => p1 end) ap
      else Some PInvalid
  end.

(** The format from [c] on, not at its terminator. *)
Definition next_piece (c : bytes) (ap : list vaarg) : option piece :=
  match c with
  | [] => None
  | b :: c1 =>
      if negb (bool_decide (b = Byte.x25)) || bool_decide (c1 = []) then
        if bool_decide (b = Byte.x20) then Some (PSpace c1) else Some (PAppend (ACatLen c 1) c1 ap)
      else
        match c1 with
        | Byte.x73 :: rest =>
            r ← va_ptr ap;
            let size := strlen r.1 in
            Some (PAppend (if 0 <? size then ACatLen r.1 size else ANone) rest r.2)
        | Byte.x62 :: rest =>
            r ← va_ptr ap;
            n ← va_int u64 r.2;
            if 0 <? n.1 then _ ← zread r.1 0 n.1; Some (PAppend (ACatLen r.1 n.1) rest n.2)
            else Some (PAppend ANone rest n.2)
        | Byte.x25 :: rest => Some (PAppend (ACat (bs "%")) rest ap)
        | _ => conversion c ap
        end
  end.

Definition do_append (s : sds) (x : append) (a : nat) : option (grow sds * nat) :=
  match x with
  | ANone => Some (GOk s, a)
  | ACatLen t n => sdscatlen s t n a
  | ACat t => sdscat s t a
  | APrintf fmt out => sdscatvprintf s fmt out a
  end.

(** ** Building the arguments *)

(** [realloc(curargv, sizeof(char* )*(argc+1))]. *)
Definition push_arg (argv : list sds) (s : sds) (totlen : Z) (a : nat) :
    option (option (list sds * Z) * nat) :=
  let '(ok, a) := malloc a (8 * (zlen argv + 1)) in
  if negb ok then Some (None, a) else
  n ← bulklen (sdslen s);
  Some (Some (argv ++ [s], s32 (totlen + n)), a).

(** Where the loop ends: the state, or the error code that is returned after
    [cleanup].  Cleaning up frees the current argument: when the failed
    function has freed it already this is a fault. *)
Definition fmt_state : Type := sds * bool * list sds * Z.

Fixpoint vformat_loop (fuel : nat) (c : bytes) (ap : list vaarg) (st : fmt_state) (a : nat) :
    option ((fmt_state + Z) * nat) :=
  match fuel with
  | O => None
  | S f =>
      if bool_decide (c = []) then Some (inl st, a) else
      let '(curarg, touched, argv, totlen) := st in
      p ← next_piece c ap;
      match p with
      | PInvalid => Some (inr (-2), a)
      | PSpace rest =>
          if touched : bool then
            q ← push_arg argv curarg totlen a;
            match q with
            | (None, a) => Some (inr (-1), a)
            | (Some (argv, totlen), a) =>
                e ← sdsempty a;
                match e with
                | (None, a) => Some (inr (-1), a)
                | (Some s, a) => vformat_loop f rest ap (s, false, argv, totlen) a
                end
            end
          else vformat_loop f rest ap st a
      | PAppend x rest ap =>
          g ← do_append curarg x a;
          match g with
          | (GNull freed, a) => if (freed : bool) then None else Some (inr (-1), a)
          | (GOk s, a) => vformat_loop f rest ap (s, true, argv, totlen) a
          end
      end
  end.

(** ** Printing *)

(** A write of [text] at [pos] in the command buffer. *)
Definition put (buf : list (option byte)) (pos : Z) (text : bytes) : option (list (option byte) * Z) :=
  b ← zwrite buf pos (Some <$> text); Some (b, s32 (pos + zlen text)).

(** [sprintf] also writes a terminator. *)
Definition sprintf (buf : list (option byte)) (pos : Z) (text : bytes) :
    option (list (option byte) * Z) :=
  b ← zwrite buf pos (Some <$> (text ++ [NUL])); Some (b, s32 (pos + zlen text)).

Fixpoint put_args (args : list bytes) (buf : list (option byte)) (pos : Z) :
    option (list (option byte) * Z) :=
  match args with
  | [] => Some (buf, pos)
  | arg :: args =>
      r ← sprintf buf pos (Byte.x24 :: udec (zlen arg) ++ crlf);
      r ← put r.1 r.2 arg;
      r ← put r.1 r.2 [CR];
      r ← put r.1 r.2 [LF];
      put_args args r.1 r.2
  end.

(** The result: an error code, or the command, in a buffer of [len+1] bytes. *)
Inductive fmt_result :=
  | FmtErr (code : Z)
  | FmtCmd (cmd : list (option byte)) (len : Z).

Definition print_command (totlen argc : Z) (args : list bytes) (a : nat) :
    option (fmt_result * nat) :=
  let '(ok, a) := malloc a (u64 (s32 (totlen + 1))) in
  if negb ok then Some (FmtErr (-1), a) else
  let cmd := replicate (Z.to_nat (u64 (s32 (totlen + 1)))) None in
  r ← sprintf cmd 0 (Byte.x2a :: dec argc ++ crlf);
  r ← put_args args r.1 r.2;
  if negb (r.2 =? totlen) then None else
  r ← put r.1 r.2 [NUL];
  Some (FmtCmd r.1 totlen, a).

(** ** The functions *)

(** [target == NULL] is [target = false]; [format] is the string. *)
Definition redisvFormatCommand (target : bool) (format : bytes) (ap : list vaarg) (a : nat) :
    option (fmt_result * nat) :=
  if negb target then Some (FmtErr (-1), a) else
  e ← sdsempty a;
  match e with
  | (None, a) => Some (FmtErr (-1), a)
  | (Some s, a) =>
      let c := cstr format in
      l ← vformat_loop (S (length c)) c ap (s, false, [], 0) a;
      match l with
      | (inr code, a) => Some (FmtErr code, a)
      | (inl (curarg, touched, argv, totlen), a) =>
          q ← (if (touched : bool) then push_arg argv curarg totlen a
               else Some (Some (argv, totlen), a));
          match q with
          | (None, a) => Some (FmtErr (-1), a)
          | (Some (argv, totlen), a) =>
              d ← countDigits (u64 (zlen argv));
              print_command (s32 (totlen + u32 (1 + d + 2))) (zlen argv) (sdsval <$> argv) a
          end
      end
  end.

Definition redisFormatCommand (target : bool) (format : bytes) (ap : list vaarg) (a : nat) :
    option (fmt_result * nat) :=
  r ← redisvFormatCommand target format ap a;
  match r with
  | (FmtErr code, a) => Some (FmtErr (if code <? 0 then -1 else code), a)
  | (FmtCmd cmd len, a) => Some (FmtCmd cmd (if len <? 0 then -1 else len), a)
  end.

(** The bytes of argument [j]: [argvlen[j]] of them, or up to the terminator. *)
Definition arg_text (argv : list bytes) (argvlen : option (list Z)) (j : Z) : option bytes :=
  p ← zget argv j;
  match argvlen with
  | None => Some (cstr p)
  | Some lens => n ← zget lens j; zread p 0 n
  end.

Fixpoint args_loop (fuel : nat) (j argc : Z) (argv : list bytes) (argvlen : option (list Z)) :
    option (list bytes) :=
  match fuel with
  | O => None
  | S f => if j <? argc then
             t ← arg_text argv argvlen j;
             ts ← args_loop f (j + 1) argc argv argvlen;
             Some (t :: ts)
           else Some []
  end.

(** The arguments [for (j = 0; j < argc; j++)]. *)
Definition arg_texts (argc : Z) (argv : list bytes) (argvlen : option (list Z)) :
    option (list bytes) :=
  args_loop (S (Z.to_nat argc)) 0 argc argv argvlen.

(** [totlen] after the loop, reduced by [conv] at each step. *)
Definition total_length (conv : Z -> Z) (argc : Z) (args : list bytes) : option Z :=
  d ← countDigits (u64 argc);
  foldl (fun t arg => t ← t; n ← bulklen (zlen arg); Some (conv (t + n)))
        (Some (conv (u32 (1 + d + 2)))) args.

Definition redisFormatCommandArgv (target : bool) (argc : Z) (argv : list bytes)
    (argvlen : option (list Z)) (a : nat) : option (fmt_result * nat) :=
  if negb target then Some (FmtErr (-1), a) else
  args ← arg_texts argc argv argvlen;
  totlen ← total_length s32 argc args;
  print_command totlen argc args a.

(** The result of the variant with a dynamic string. *)
Inductive sds_result :=
  | SdsErr (code : Z)
  | SdsCmd (cmd : sds) (len : Z).

Fixpoint sds_args (args : list bytes) (cmd : sds) (a : nat) : option (sds * nat) :=
  match args with
  | [] => Some (cmd, a)
  | arg :: args =>
      r ← sdscatfmt cmd (bs "$%u" ++ crlf) [VaInt (zlen arg)] a;
      r ← must r;
      r ← sdscatlen r.1 arg (zlen arg) r.2;
      r ← must r;
      r ← sdscatlen r.1 (crlf ++ [NUL]) 2 r.2;
      r ← must r;
      sds_args args r.1 r.2
  end.

Definition redisFormatSdsCommandArgv (target : bool) (argc : Z) (argv : list bytes)
    (argvlen : option (list Z)) (a : nat) : option (sds_result * nat) :=
  if negb target then Some (SdsErr (-1), a) else
  args ← arg_texts argc argv argvlen;
  totlen ← total_length u64 argc args;
  e ← sdsempty a;
  match e with
  | (None, a) => Some (SdsErr (-1), a)
  | (Some cmd, a) =>
      g ← sdsMakeRoomFor cmd totlen a;
      match g with
      | (GNull _, a) => Some (SdsErr (-1), a)
      | (GOk cmd, a) =>
          r ← sdscatfmt cmd (bs "*%i" ++ crlf) [VaInt argc] a;
          r ← must r;
          r ← sds_args args r.1 r.2;
          if negb (sdslen r.1 =? totlen) then None else
          Some (SdsCmd r.1 (s32 totlen), r.2)
      end
  end.

(** ** Specification *)

(** A bulk string, and a command as an array of bulk strings. *)
Definition bulk (arg : bytes) : bytes := Byte.x24 :: udec (zlen arg) ++ crlf ++ arg ++ crlf.
Definition resp_command (args : list bytes) : bytes :=
  Byte.x2a :: udec (zlen args) ++ crlf ++ concat (bulk <$> args).

(** The text an append adds. *)
Definition append_text (x : append) : bytes :=
  match x with
  | ANone => []
  | ACatLen t n => ztake n t
  | ACat t => t
  | APrintf _ out => out
  end.

(** The arguments of a format, and whether all of it is valid: when not, the
    arguments before the error.  [None] is undefined behaviour: a missing
    argument, an unfinished conversion. *)
Fixpoint format_args (fuel : nat) (c : bytes) (ap : list vaarg) (cur : option bytes) :
    option (list bytes * bool) :=
  match fuel with
  | O => None
  | S f =>
      if bool_decide (c = []) then Some (option_list cur, true) else
      p ← next_piece c ap;
      match p with
      | PInvalid => Some (option_list cur, false)
      | PSpace rest => r ← format_args f rest ap None; Some (option_list cur ++ r.1, r.2)
      | PAppend x rest ap => format_args f rest ap (Some (default [] cur ++ append_text x))
      end
  end.

Definition command_args (format : bytes) (ap : list vaarg) : option (list bytes * bool) :=
  format_args (S (length (cstr format))) (cstr format) ap None.

End format.
