(* ===== verification/FormatFacts.v ===== *)
(** * The formatted command is the array of its arguments

    All four formatting functions produce [resp_command] of the arguments, in
    a buffer of exactly the computed length; [redisvFormatCommand] of the
    arguments that [format_args] reads off the format. *)

From Stdlib Require Import Strings.Byte String.
From S2P Require Import Prelude CLib Buffer Read Sds SdsFmt SdsEdit Printf Format ReadLines Reply Tree.
From S2P Require Import Resp Streams.

(** ** Lengths *)

Lemma zlen_udec_step v : 10 <= v -> zlen (udec v) = zlen (udec (v / 10)) + 1.
Proof. intros. rewrite udec_step by done. zlia. Qed.

Lemma count_digits_loop_spec fuel v r :
  0 <= v < 10000 ^ Z.of_nat fuel -> (1 <= fuel)%nat -> 0 <= r -> r + 4 * Z.of_nat fuel <= 1000 ->
  count_digits_loop fuel v r = Some (r + zlen (udec v) - 1).
Proof.
  revert v r. induction fuel as [|f IH]; intros v r Hv Hf Hr Hb; [lia|]. cbn [count_digits_loop].
  assert (forall w, 0 <= w < 10 -> zlen (udec w) = 1) as H1 by (intros; by rewrite udec_small).
  destruct (Z.ltb_spec v 10); [f_equal; rewrite H1; lia|].
  rewrite zlen_udec_step by lia.
  assert (forall w k, 0 < k -> 10 * k <= w -> k <= w / 10) as Hlo
    by (intros; apply Z.div_le_lower_bound; lia).
  assert (forall w k, 0 < k -> w < 10 * k -> w / 10 < k) as Hhi
    by (intros; apply Z.div_lt_upper_bound; lia).
  destruct (Z.ltb_spec v 100).
  { rewrite H1 by (split; [apply Z.div_pos; lia|apply Hhi; lia]). unwrap. f_equal. lia. }
  rewrite zlen_udec_step by (apply Hlo; lia).
  destruct (Z.ltb_spec v 1000).
  { rewrite H1 by (split; [repeat apply Z.div_pos; lia|repeat (apply Hhi; [lia|]); lia]).
    unwrap. f_equal. lia. }
  rewrite zlen_udec_step by (repeat (apply Hlo; [lia|]); lia).
  destruct (Z.ltb_spec v 10000).
  { rewrite H1 by (split; [repeat apply Z.div_pos; lia|repeat (apply Hhi; [lia|]); lia]).
    unwrap. f_equal. lia. }
  rewrite zlen_udec_step by (repeat (apply Hlo; [lia|]); lia).
  rewrite !Z.div_div by lia. change (10 * (10 * (10 * 10))) with 10000.
  destruct f as [|f]; [simpl in Hv; lia|].
  rewrite Nat2Z.inj_succ, Z.pow_succ_r in Hv by lia.
  rewrite u32_small by lia. rewrite IH; [f_equal; lia| |lia..].
  split; [apply Z.div_pos; lia|apply Z.div_lt_upper_bound; lia].
Qed.

(** [countDigits] is the length of the decimal representation. *)
Lemma countDigits_udec v : 0 <= v <= ULLONG_MAX -> countDigits v = Some (zlen (udec v)).
Proof.
  intros Hv. unfold countDigits. rewrite count_digits_loop_spec by (simpl; width_lia).
  f_equal. lia.
Qed.

Lemma zlen_bulk arg : zlen (bulk arg) = 1 + zlen (udec (zlen arg)) + 2 + zlen arg + 2.
Proof. unfold bulk, crlf. zlia. Qed.

Lemma bulklen_bulk arg : zlen arg <= INT_MAX -> bulklen (zlen arg) = Some (zlen (bulk arg)).
Proof.
  intros Ha. pose proof (zlen_nonneg arg). unfold bulklen.
  rewrite countDigits_udec by width_lia. simpl. rewrite zlen_bulk.
  pose proof (zlen_udec_bound (zlen arg) ltac:(lia) 20 ltac:(lia) ltac:(width_lia)).
  pose proof (zlen_nonneg (udec (zlen arg))). by unwrap.
Qed.

Definition bulks (args : list bytes) : bytes := concat (bulk <$> args).

Lemma zlen_bulks_cons arg args : zlen (bulks (arg :: args)) = zlen (bulk arg) + zlen (bulks args).
Proof. unfold bulks. by rewrite <- zlen_app. Qed.

Lemma zlen_bulks_app args args' :
  zlen (bulks (args ++ args')) = zlen (bulks args) + zlen (bulks args').
Proof. unfold bulks. by rewrite fmap_app, concat_app, zlen_app. Qed.

Lemma zlen_bulks_1 arg : zlen (bulks [arg]) = zlen (bulk arg).
Proof. unfold bulks. simpl. by rewrite app_nil_r. Qed.

Lemma zlen_arg_bulk arg : zlen arg + 5 <= zlen (bulk arg).
Proof. rewrite zlen_bulk. pose proof (zlen_udec_pos (zlen arg) (zlen_nonneg arg)). lia. Qed.

Lemma zlen_args_bulks args : 5 * zlen args <= zlen (bulks args).
Proof.
  induction args as [|arg args IH]; [done|]. rewrite zlen_bulks_cons, zlen_cons.
  pose proof (zlen_arg_bulk arg). pose proof (zlen_nonneg arg). lia.
Qed.

Lemma zlen_command args :
  zlen (resp_command args) = 1 + zlen (udec (zlen args)) + 2 + zlen (bulks args).
Proof. unfold resp_command, crlf, bulks. zlia. Qed.

(** ** Printing *)

(** A buffer that holds [d], and [n] more bytes. *)
Definition filled (d : bytes) (n : Z) (buf : list (option byte)) : Prop :=
  exists junk, buf = (Some <$> d) ++ junk /\ zlen junk = n.

Lemma zwrite_filled d n buf text :
  filled d n buf -> zlen text <= n ->
  exists buf', zwrite buf (zlen d) (Some <$> text) = Some buf' /\ filled (d ++ text) (n - zlen text) buf'.
Proof.
  intros (junk & -> & <-) Hn. pose proof (zlen_nonneg text).
  exists ((Some <$> (d ++ text)) ++ zdrop (zlen text) junk). split.
  - rewrite <- (ztake_zdrop (zlen text) junk) at 1.
    replace (zlen d) with (zlen (Some <$> d)) by apply zlen_fmap.
    rewrite (zwrite_mid (Some <$> d) (ztake (zlen text) junk)).
    + by rewrite fmap_app, <- (assoc_L (++)).
    + assert (zlen (ztake (zlen text) junk) = zlen (Some <$> text)) as E
        by (rewrite zlen_ztake, zlen_fmap; lia). by apply Nat2Z.inj.
  - exists (zdrop (zlen text) junk). split; [done|]. rewrite zlen_zdrop; lia.
Qed.

Lemma put_filled d n buf text :
  filled d n buf -> zlen text <= n -> zlen d + n <= INT_MAX ->
  exists buf', put buf (zlen d) text = Some (buf', zlen (d ++ text)) /\
    filled (d ++ text) (n - zlen text) buf'.
Proof.
  intros Hf Hn Hm. destruct (zwrite_filled _ _ _ _ Hf Hn) as (buf' & E & Hf').
  exists buf'. split; [|done]. unfold put. rewrite E. simpl. rewrite zlen_app.
  pose proof (zlen_nonneg d). pose proof (zlen_nonneg text). by unwrap.
Qed.

Lemma sprintf_filled d n buf text :
  filled d n buf -> zlen text < n -> zlen d + n <= INT_MAX ->
  exists buf', sprintf buf (zlen d) text = Some (buf', zlen (d ++ text)) /\
    filled (d ++ text) (n - zlen text) buf'.
Proof.
  intros Hf Hn Hm.
  destruct (zwrite_filled d n buf (text ++ [NUL]) Hf) as (buf' & E & (junk & -> & Hj)); [zlia|].
  exists ((Some <$> (d ++ text ++ [NUL])) ++ junk). split.
  - unfold sprintf. rewrite E. simpl. rewrite zlen_app.
    pose proof (zlen_nonneg d). pose proof (zlen_nonneg text). by unwrap.
  - exists (Some NUL :: junk). split.
    + rewrite !fmap_app. simpl. by rewrite <- !(assoc_L (++)).
    + autorewrite with zlen in *. lia.
Qed.

Lemma put_args_filled args : forall d n buf,
  filled d n buf -> zlen (bulks args) < n -> zlen d + n <= INT_MAX ->
  exists buf', put_args args buf (zlen d) = Some (buf', zlen (d ++ bulks args)) /\
    filled (d ++ bulks args) (n - zlen (bulks args)) buf'.
Proof.
  induction args as [|arg args IH]; intros d n buf Hf Hn Hm.
  { exists buf. simpl. unfold bulks. simpl. rewrite app_nil_r, zlen_nil, Z.sub_0_r. done. }
  rewrite zlen_bulks_cons, zlen_bulk in Hn. cbn [put_args].
  pose proof (zlen_nonneg (bulks args)). pose proof (zlen_nonneg arg).
  set (h := Byte.x24 :: udec (zlen arg) ++ crlf).
  assert (zlen h = 1 + zlen (udec (zlen arg)) + 2) as Hh by (unfold h, crlf; zlia).
  pose proof (zlen_nonneg (udec (zlen arg))).
  destruct (sprintf_filled d n buf h Hf ltac:(lia) Hm) as (b1 & -> & Hb1).
  cbn [mbind option_bind fst snd].
  destruct (put_filled _ _ b1 arg Hb1 ltac:(lia)) as (b2 & -> & Hb2); [rewrite zlen_app; lia|].
  cbn [mbind option_bind fst snd].
  destruct (put_filled _ _ b2 [CR] Hb2) as (b3 & -> & Hb3); [change (zlen [CR]) with 1; lia|zlia|].
  cbn [mbind option_bind fst snd].
  destruct (put_filled _ _ b3 [LF] Hb3) as (b4 & -> & Hb4); [change (zlen [LF]) with 1; zlia|zlia|].
  cbn [mbind option_bind fst snd].
  destruct (IH _ _ b4 Hb4) as (b5 & -> & Hb5); [zlia|zlia|].
  assert (bulk arg = h ++ arg ++ crlf) as Eb
    by (unfold h, bulk; simpl; by rewrite <- !(assoc_L (++))).
  assert ((((d ++ h) ++ arg) ++ [CR]) ++ [LF] = d ++ bulk arg) as E
    by (rewrite Eb; by rewrite <- !(assoc_L (++))).
  exists b5. change (bulks (arg :: args)) with (bulk arg ++ bulks args).
  rewrite E, <- (assoc_L (++)) in *. split; [done|].
  replace (n - zlen (bulk arg ++ bulks args))
    with (n - zlen h - zlen arg - zlen [CR] - zlen [LF] - zlen (bulks args)); [exact Hb5|].
  rewrite zlen_app, zlen_bulk, Hh. change (zlen [CR]) with 1. change (zlen [LF]) with 1. lia.
Qed.

Section format.
Context {al : Allocator} {dm : DataModel} {pd : PrintfDouble}.
Hypothesis Hal : alloc_total al.

(** The bytes of a command and its terminator. *)
Definition command_cells (args : list bytes) : list (option byte) :=
  Some <$> (resp_command args ++ [NUL]).

Lemma print_command_spec args a :
  zlen (resp_command args) < INT_MAX ->
  print_command (zlen (resp_command args)) (zlen args) args a
  = Some (FmtCmd (command_cells args) (zlen (resp_command args)), S a).
Proof.
  intros Hm. pose proof (zlen_nonneg (resp_command args)). pose proof (zlen_nonneg args).
  unfold print_command. unwrap. rewrite (malloc_ok Hal). cbn [negb].
  set (buf := replicate _ None). rewrite dec_nonneg by done.
  pose proof (zlen_command args) as Hc. pose proof (zlen_nonneg (bulks args)).
  set (h := Byte.x2a :: udec (zlen args) ++ crlf).
  assert (zlen h = 1 + zlen (udec (zlen args)) + 2) as Hh by (unfold h, crlf; zlia).
  assert (filled [] (zlen (resp_command args) + 1) buf) as Hf.
  { exists buf. split; [done|]. unfold buf. rewrite zlen_replicate. lia. }
  change 0 with (zlen (@nil byte)) at 1.
  destruct (sprintf_filled [] _ buf h Hf) as (b1 & -> & Hb1); [lia|rewrite zlen_nil; lia|].
  cbn [mbind option_bind fst snd].
  destruct (put_args_filled args _ _ b1 Hb1) as (b2 & -> & Hb2); [lia|change ([] ++ h) with h; lia|].
  cbn [mbind option_bind fst snd]. change ([] ++ h) with h in *.
  assert (h ++ bulks args = resp_command args) as E
    by (unfold h, resp_command, bulks; simpl; by rewrite <- (assoc_L (++))).
  rewrite E in Hb2 |- *. rewrite Z.eqb_refl. cbn [negb].
  assert (zlen (resp_command args) + 1 - zlen h - zlen (bulks args) = 1) as E1 by lia.
  rewrite E1 in Hb2.
  destruct (put_filled _ _ b2 [NUL] Hb2) as (b3 & -> & (junk & -> & Hj)); [done|lia|].
  cbn [mbind option_bind fst snd]. apply zlen_0_nil in Hj as ->. by rewrite app_nil_r.
Qed.

(** ** The loop over the format *)

(** The appends of the loop read memory they may read. *)
Definition append_ok (x : append) : Prop :=
  match x with
  | ANone => True
  | ACatLen t n => 0 <= n <= zlen t
  | ACat t => NUL ∉ t
  | APrintf fmt out => NUL ∉ out /\ strlen fmt <= INT_MAX
  end.

Hypothesis Hdouble : forall l d, NUL ∉ fmt_double l d.

Lemma fmt_valid_ok c p arg ap x rest ap' :
  (length p < length c)%nat -> (2 <= length c)%nat ->
  fmt_valid c p arg ap = Some (PAppend x rest ap') ->
  append_ok x /\ (length rest < length c)%nat.
Proof.
  unfold fmt_valid. intros Hp Hc. destruct (Z.ltb_spec (zlen c - zlen p + 1) 14) as [Hl|Hl].
  - destruct p as [|b p]; [done|]. intros E.
    apply bind_Some in E as (out & Eo & [= <- <- <-]). split; [|simpl in *; lia]. split.
    + by eapply printf_conv_no_nul.
    + pose proof (cstr_length (ztake (zlen c - zlen (b :: p) + 1) c)). unfold strlen.
      rewrite zlen_ztake in *; unfold INT_MAX, zlen in *; simpl in *; lia.
  - intros [= <- <- <-]. split; [done|]. unfold zdrop. rewrite length_drop. simpl. lia.
Qed.

Lemma span_length f l : (length (span f l).2 <= length l)%nat.
Proof.
  induction l as [|b l IH]; [done|]. simpl. destruct (f b); [|simpl; lia].
  destruct (span f l); simpl in *; lia.
Qed.

Lemma skip_spec_length l : (length (skip_spec l) <= length l)%nat.
Proof.
  unfold skip_spec. set (l1 := (span (strchr flags) l).2). set (l2 := (span isdigit l1).2).
  assert (length l2 <= length l)%nat as H.
  { etransitivity; [apply span_length|apply span_length]. }
  assert (forall m, length (span isdigit m).2 <= length m)%nat as Hd by (intros; apply span_length).
  destruct l2 as [|b l3]; [done|]. destruct b; try done. simpl in *. specialize (Hd l3). lia.
Qed.

Lemma sized_ok c p ap x rest ap' :
  (length p < length c)%nat -> (2 <= length c)%nat -> sized c p ap = Some (PAppend x rest ap') ->
  append_ok x /\ (length rest < length c)%nat.
Proof.
  intros Hp Hc. unfold sized. destruct p as [|b p]; [done|]. destruct (strchr _ _); [|done].
  intros E. apply bind_Some in E as (r & _ & E). by eapply fmt_valid_ok.
Qed.

Lemma conversion_ok c ap x rest ap' :
  (2 <= length c)%nat -> conversion c ap = Some (PAppend x rest ap') ->
  append_ok x /\ (length rest < length c)%nat.
Proof.
  intros Hc. unfold conversion. pose proof (skip_spec_length (tail c)) as Hs.
  assert (length (skip_spec (tail c)) < length c)%nat as Hl by (destruct c; simpl in *; lia).
  clear Hs. destruct (skip_spec (tail c)) as [|b p1].
  { intros E. apply bind_Some in E as (r & _ & E). by eapply fmt_valid_ok. }
  destruct (strchr intfmts b).
  { intros E. apply bind_Some in E as (r & _ & E). by eapply fmt_valid_ok. }
  destruct (strchr doublefmts b).
  { intros E. apply bind_Some in E as (r & _ & E). by eapply fmt_valid_ok. }
  assert (forall y, length (match p1 with y' :: p2 => if bool_decide (y' = y) then p2 else p1
                                     | [] => p1 end) <= length p1)%nat as Hm.
  { intros y. destruct p1; [done|]. case_bool_decide; simpl; lia. }
  simpl in Hl. case_bool_decide; [|case_bool_decide; [|done]]; apply sized_ok; try done.
  - destruct p1 as [|y p2]; [simpl; lia|]. destruct y; simpl in *; lia.
  - destruct p1 as [|y p2]; [simpl; lia|]. destruct y; simpl in *; lia.
Qed.

Lemma next_piece_ok c ap x rest ap' :
  next_piece c ap = Some (PAppend x rest ap') -> append_ok x /\ (length rest < length c)%nat.
Proof.
  unfold next_piece. destruct c as [|b c1]; [done|].
  destruct (negb _ || bool_decide (c1 = [])) eqn:E0.
  - destruct (bool_decide (b = Byte.x20)); [done|]. intros [= <- <- <-]. split; [|simpl; lia].
    simpl. rewrite zlen_cons. pose proof (zlen_nonneg c1). lia.
  - apply orb_false_iff in E0 as [_ E0%bool_decide_eq_false].
    destruct c1 as [|e rest1]; [done|].
    assert (forall r, conversion (b :: e :: rest1) ap = Some r ->
      r = PAppend x rest ap' -> append_ok x /\ (length rest < length (b :: e :: rest1))%nat) as Hconv.
    { intros r Er ->. apply (conversion_ok _ ap _ _ ap'); [simpl; lia|done]. }
    destruct e; try (intros E; by eapply Hconv).
    + intros [= <- <- <-]. split; [set_solver|simpl; lia].
    + intros E. apply bind_Some in E as (r & _ & E). apply bind_Some in E as (n & _ & E).
      destruct (0 <? n.1).
      * apply bind_Some in E as (t & Et & [= <- <- <-]). split; [|simpl; lia].
        unfold zread in Et. simpl. destruct (_ && _ && _) eqn:Eb; [|done]. lia.
      * injection E as <- <- <-. split; [done|simpl; lia].
    + intros E. apply bind_Some in E as (r & _ & [= <- <- <-]). split; [|simpl; lia].
      destruct (Z.ltb_spec 0 (strlen r.1)); [|done]. simpl. unfold strlen in *.
      pose proof (cstr_length r.1). lia.
Qed.

Lemma next_piece_space c ap rest : next_piece c ap = Some (PSpace rest) -> (length rest < length c)%nat.
Proof.
  unfold next_piece. destruct c as [|b c1]; [done|].
  destruct (negb _ || _); [case_bool_decide; [|done]; intros [= <-]; simpl; lia|].
  assert (forall c p arg ap, fmt_valid c p arg ap <> Some (PSpace rest)) as Hv.
  { intros c p arg ap0. unfold fmt_valid. destruct (_ <? _); [|done]. destruct p; [done|].
    by destruct (printf_conv _ _). }
  assert (forall c p ap, sized c p ap <> Some (PSpace rest)) as Hs.
  { intros c p ap0. unfold sized. destruct p; [done|]. destruct (strchr _ _); [|done].
    destruct (arg_int ap0); [apply Hv|done]. }
  assert (forall c ap, conversion c ap <> Some (PSpace rest)) as Hc.
  { intros c ap0. unfold conversion. destruct (skip_spec _) as [|b0 p].
    - destruct (arg_int ap0); [apply Hv|done].
    - destruct (strchr intfmts b0); [destruct (arg_int ap0); [apply Hv|done]|].
      destruct (strchr doublefmts b0); [destruct (arg_double ap0); [apply Hv|done]|].
      repeat (case_bool_decide; [apply Hs|]). done. }
  destruct c1 as [|e c2]; [by intros ?%Hc|].
  destruct e; try (by intros ?%Hc); try done.
  - destruct (va_ptr ap) as [r|]; [|done]. simpl. destruct (va_int u64 r.2) as [n|]; [|done]. simpl.
    destruct (0 <? n.1); [|done]. by destruct (zread _ _ _).
  - destruct (va_ptr ap) as [r|]; [|done]. simpl. by destruct (0 <? _).
Qed.

(** The fuel of the two loops is enough: every round consumes the format. *)
Lemma format_args_fuel f g c ap cur :
  (length c < f)%nat -> (length c < g)%nat -> format_args f c ap cur = format_args g c ap cur.
Proof.
  revert g c ap cur. induction f as [|f IH]; intros g c ap cur Hf Hg; [lia|].
  destruct g as [|g]; [lia|]. simpl. case_bool_decide; [done|].
  destruct (next_piece c ap) as [[rest|x rest ap'|]|] eqn:E; simpl; [| |done..].
  - apply next_piece_space in E. rewrite (IH g) by lia. done.
  - apply next_piece_ok in E as [_ E]. apply IH; lia.
Qed.

(** The current argument is a prefix of the next one produced. *)
Lemma format_args_cur f c ap v l ok :
  format_args f c ap (Some v) = Some (l, ok) -> exists w l', l = (v ++ w) :: l'.
Proof.
  revert c ap v l ok. induction f as [|f IH]; intros c ap v l ok; [done|]. simpl.
  case_bool_decide; [intros [= <- <-]; exists [], []; by rewrite app_nil_r|].
  destruct (next_piece c ap) as [[rest|x rest ap'|]|]; simpl; [| | |done].
  - intros E. apply bind_Some in E as (r & _ & [= <- <-]). exists [], r.1. by rewrite app_nil_r.
  - intros (w & l' & ->)%IH. exists (append_text x ++ w), l'. by rewrite (assoc_L (++)).
  - intros [= <- <-]. exists [], []. by rewrite app_nil_r.
Qed.

Lemma do_append_spec s v x a :
  sds_repr s v -> append_ok x -> zlen v + zlen (append_text x) <= INT_MAX ->
  exists s' a', do_append s x a = Some (GOk s', a') /\ sds_repr s' (v ++ append_text x).
Proof.
  intros Hr Hx Hb. assert (INT_MAX <= BUF_SAFE) by done.
  assert (returns (do_append s x a) (grow_post al (fun s' => sds_repr s' (v ++ append_text x))))
    as ([f|s'] & a' & E & Hp); [|by destruct Hp|by exists s', a'].
  destruct x as [|t n|t|fmt out]; simpl in *.
  - rewrite app_nil_r. by apply returns_ok.
  - rewrite zlen_ztake in Hb by done. apply sdscatlen_spec; [done|done|lia].
  - apply sdscat_no_nul; [done|done|lia].
  - destruct Hx. by apply sdscatvprintf_spec.
Qed.

(** The current argument of the loop, and the bytes it stands for. *)
Definition cur_ok (s : sds) (touched : bool) (cur : option bytes) : Prop :=
  touched = bool_decide (cur <> None) /\ sds_repr s (default [] cur).

Lemma push_arg_spec argv s v dn a :
  sds_repr s v -> Forall2 sds_repr argv dn -> zlen (bulks (dn ++ [v])) <= INT_MAX ->
  exists a', push_arg argv s (zlen (bulks dn)) a
    = Some (Some (argv ++ [s], zlen (bulks (dn ++ [v]))), a').
Proof.
  intros Hr Hd Hb. unfold push_arg. rewrite (malloc_ok Hal). cbn [negb].
  rewrite (repr_len _ _ Hr).
  rewrite zlen_bulks_app, zlen_bulks_1 in Hb |- *. pose proof (zlen_arg_bulk v).
  pose proof (zlen_nonneg (bulks dn)). pose proof (zlen_nonneg v).
  rewrite bulklen_bulk by lia. simpl. unwrap. eauto.
Qed.

Lemma bulks_room (dn : list bytes) v w l :
  zlen (bulks (dn ++ (v ++ w) :: l)) <= INT_MAX ->
  zlen v <= INT_MAX /\ zlen (bulks (dn ++ [v ++ w])) <= INT_MAX.
Proof.
  rewrite !zlen_bulks_app, zlen_bulks_cons. pose proof (zlen_arg_bulk (v ++ w)).
  pose proof (zlen_nonneg (bulks dn)). pose proof (zlen_nonneg (bulks l)). pose proof (zlen_nonneg w).
  rewrite zlen_bulks_1. rewrite zlen_app in *. lia.
Qed.

Lemma vformat_loop_spec f c ap cur l ok s touched argv dn a :
  format_args f c ap cur = Some (l, ok) ->
  cur_ok s touched cur -> Forall2 sds_repr argv dn -> zlen (bulks (dn ++ l)) <= INT_MAX ->
  if ok then
    exists s' touched' argv' dn' cur' a',
      vformat_loop f c ap (s, touched, argv, zlen (bulks dn)) a
        = Some (inl (s', touched', argv', zlen (bulks dn')), a') /\
      cur_ok s' touched' cur' /\ Forall2 sds_repr argv' dn' /\
      dn' ++ option_list cur' = dn ++ l
  else exists a', vformat_loop f c ap (s, touched, argv, zlen (bulks dn)) a = Some (inr (-2), a').
Proof.
  revert c ap cur l s touched argv dn a.
  induction f as [|f IH]; intros c ap cur l s touched argv dn a; [done|]. simpl.
  case_bool_decide as Hc.
  { intros [= <- <-] Hcur Hd Hb. exists s, touched, argv, dn, cur, a. done. }
  destruct (next_piece c ap) as [[rest|x rest ap'|]|] eqn:En; simpl; [| | |done].
  - intros E. apply bind_Some in E as ([l' ok'] & E & [= <- <-]). intros [-> Hr] Hd Hb. simpl in Hb.
    destruct cur as [v|]; simpl in *.
    + assert (zlen (bulks (dn ++ [v])) <= INT_MAX) as Hb'.
      { rewrite <- (app_nil_r v) in Hb. apply bulks_room in Hb as [_ Hb].
        by rewrite app_nil_r in Hb. }
      destruct (push_arg_spec argv s v dn a Hr Hd Hb') as (a1 & ->). simpl.
      destruct (sdsempty_spec (al := al) a1) as ([s1|] & a2 & -> & He); [|done]. simpl in He |- *.
      replace (dn ++ v :: l') with ((dn ++ [v]) ++ l') in * by (by rewrite <- (assoc_L (++))).
      apply (IH rest ap None l' s1 false (argv ++ [s]) _ a2 E); [done| |done].
      by apply Forall2_app; [|constructor].
    + by apply (IH rest ap None l' s false argv dn a E).
  - intros E [-> Hr] Hd Hb. pose proof E as Epre.
    apply next_piece_ok in En as [Hx _].
    destruct (format_args_cur _ _ _ _ _ _ Epre) as (w & l' & ->).
    destruct (bulks_room _ _ _ _ Hb) as [Hv _]. rewrite zlen_app in Hv.
    destruct (do_append_spec s (default [] cur) x a Hr Hx Hv) as (s' & a1 & -> & Hr'). simpl.
    by apply (IH rest ap' _ _ s' true argv dn a1 E).
  - intros [= <- <-] _ _ _. eauto.
Qed.

(** ** The functions *)

Lemma redisvFormatCommand_spec format ap args a :
  command_args format ap = Some (args, true) -> zlen (resp_command args) < INT_MAX ->
  exists a', redisvFormatCommand true format ap a
    = Some (FmtCmd (command_cells args) (zlen (resp_command args)), a').
Proof.
  intros E Hm. pose proof (zlen_command args) as Hc. pose proof (zlen_nonneg (bulks args)).
  pose proof (zlen_udec_pos (zlen args) (zlen_nonneg args)).
  unfold redisvFormatCommand. cbn [negb].
  destruct (sdsempty_spec (al := al) a) as ([s|] & a1 & -> & He); [|done]. simpl in He.
  cbn [mbind option_bind].
  destruct (vformat_loop_spec _ _ _ None args true s false [] [] a1 E)
    as (s' & touched & argv & dn & cur & a2 & El & [-> Hr] & Hd & Hargs);
    [done|constructor|simpl; lia|].
  change (zlen (bulks [])) with 0 in El. rewrite El. cbn [mbind option_bind]. simpl in Hargs.
  assert (exists argv' a3,
    (if bool_decide (cur <> None) then push_arg argv s' (zlen (bulks dn)) a2
     else Some (Some (argv, zlen (bulks dn)), a2)) = Some (Some (argv', zlen (bulks args)), a3) /\
    Forall2 sds_repr argv' args) as (argv' & a3 & -> & Hd').
  { destruct cur as [v|]; simpl in *.
    - destruct (push_arg_spec argv s' v dn a2 Hr Hd) as (a3 & ->); [subst; lia|].
      exists (argv ++ [s']), a3. rewrite Hargs. split; [done|]. rewrite <- Hargs.
      by apply Forall2_app; [|constructor].
    - rewrite app_nil_r in Hargs. subst. by exists argv, a2. }
  cbn [mbind option_bind].
  assert (sdsval <$> argv' = args) as ->.
  { clear - Hd'. induction Hd' as [|x v l k Hx _ IH]; [done|].
    by rewrite fmap_cons, IH, (repr_val _ _ Hx). }
  assert (zlen argv' = zlen args) as -> by (unfold zlen; by rewrite (Forall2_length _ _ _ Hd')).
  pose proof (zlen_args_bulks args). pose proof (zlen_nonneg args).
  rewrite u64_small, countDigits_udec by width_lia. cbn [mbind option_bind]. unwrap.
  replace (zlen (bulks args) + (1 + zlen (udec (zlen args)) + 2)) with (zlen (resp_command args)) by lia.
  exists (S a3). by apply print_command_spec.
Qed.

Lemma redisvFormatCommand_invalid format ap args a :
  command_args format ap = Some (args, false) -> zlen (bulks args) <= INT_MAX ->
  exists a', redisvFormatCommand true format ap a = Some (FmtErr (-2), a').
Proof.
  intros E Hm. unfold redisvFormatCommand. cbn [negb].
  destruct (sdsempty_spec (al := al) a) as ([s|] & a1 & -> & He); [|done]. simpl in He.
  cbn [mbind option_bind].
  destruct (vformat_loop_spec _ _ _ None args false s false [] [] a1 E) as (a2 & El);
    [done|constructor|done|].
  change (zlen (bulks [])) with 0 in El. rewrite El. cbn [mbind option_bind]. eauto.
Qed.

(** Both sums over the arguments give the length of the command. *)
Lemma total_length_spec conv args :
  (forall z, 0 <= z <= INT_MAX -> conv z = z) -> zlen (resp_command args) <= INT_MAX ->
  total_length conv (zlen args) args = Some (zlen (resp_command args)).
Proof.
  intros Hconv Hm. pose proof (zlen_command args) as Hc. unfold total_length.
  pose proof (zlen_args_bulks args). pose proof (zlen_nonneg args).
  pose proof (zlen_udec_pos (zlen args) ltac:(lia)).
  rewrite u64_small, countDigits_udec by width_lia. cbn [mbind option_bind].
  pose proof (zlen_nonneg (bulks args)). unwrap. rewrite Hconv by lia.
  assert (forall l t, 0 <= t -> t + zlen (bulks l) <= INT_MAX ->
    foldl (fun t arg => t ← t; n ← bulklen (zlen arg); Some (conv (t + n))) (Some t) l
    = Some (t + zlen (bulks l))) as Hl.
  { induction l as [|arg l IH]; intros t Ht Hb; [simpl; by rewrite Z.add_0_r|].
    rewrite zlen_bulks_cons in Hb |- *. pose proof (zlen_arg_bulk arg).
    pose proof (zlen_nonneg arg). pose proof (zlen_nonneg (bulks l)).
    simpl. rewrite bulklen_bulk by lia. simpl. rewrite Hconv, IH by lia. f_equal. lia. }
  rewrite Hl by lia. f_equal. lia.
Qed.

Lemma redisFormatCommandArgv_spec argv lens args a :
  arg_texts (zlen args) argv lens = Some args -> zlen (resp_command args) < INT_MAX ->
  redisFormatCommandArgv true (zlen args) argv lens a
  = Some (FmtCmd (command_cells args) (zlen (resp_command args)), S a).
Proof.
  intros E Hm. unfold redisFormatCommandArgv. cbn [negb]. rewrite E. cbn [mbind option_bind].
  rewrite total_length_spec; [|intros; apply s32_small; lia|lia].
  cbn [mbind option_bind]. by apply print_command_spec.
Qed.

(** Appends that cannot fail. *)
Lemma sds_args_spec args : forall cmd v a,
  sds_repr cmd v -> zlen v + zlen (bulks args) <= INT_MAX ->
  exists s a', sds_args args cmd a = Some (s, a') /\ sds_repr s (v ++ bulks args).
Proof.
  assert (INT_MAX + 2 <= BUF_SAFE) as Hsafe by done.
  induction args as [|arg args IH]; intros cmd v a Hr Hb.
  { exists cmd, a. unfold bulks. simpl. by rewrite app_nil_r. }
  rewrite zlen_bulks_cons, zlen_bulk in Hb. cbn [sds_args].
  pose proof (zlen_nonneg arg). pose proof (zlen_nonneg (bulks args)). pose proof (zlen_nonneg v).
  pose proof (zlen_nonneg (udec (zlen arg))).
  set (h := Byte.x24 :: udec (zlen arg) ++ crlf).
  assert (zlen h = 1 + zlen (udec (zlen arg)) + 2) as Hh by (unfold h, crlf; zlia).
  assert (fmt_text (cstr (bs "$%u" ++ crlf)) [VaInt (zlen arg)] = Some h) as Ef.
  { transitivity (Some (Byte.x24 :: udec (u32 (zlen arg)) ++ crlf)); [reflexivity|]. by unwrap. }
  destruct (returns_must _ _ Hal (sdscatfmt_spec cmd v _ _ h a Hr Ef ltac:(lia))) as (s1 & a1 & E1 & Hs1).
  destruct (sdscatfmt cmd _ _ a) as [g1|]; [|done]. cbn [mbind option_bind] in E1 |- *. rewrite E1.
  cbn [mbind option_bind fst snd].
  destruct (returns_must _ _ Hal (sdscatlen_spec s1 _ arg (zlen arg) a1 Hs1 ltac:(lia)
    ltac:(rewrite zlen_app; lia))) as (s2 & a2 & E2 & Hs2).
  destruct (sdscatlen s1 _ _ a1) as [g2|]; [|done]. cbn [mbind option_bind] in E2 |- *. rewrite E2.
  cbn [mbind option_bind fst snd]. rewrite ztake_all in Hs2 by lia.
  destruct (returns_must _ _ Hal (sdscatlen_spec s2 _ (crlf ++ [NUL]) 2 a2 Hs2 ltac:(done)
    ltac:(rewrite !zlen_app; lia))) as (s3 & a3 & E3 & Hs3).
  destruct (sdscatlen s2 _ _ a2) as [g3|]; [|done]. cbn [mbind option_bind] in E3 |- *. rewrite E3.
  cbn [mbind option_bind fst snd].
  assert (((v ++ h) ++ arg) ++ ztake 2 (crlf ++ [NUL]) = v ++ bulk arg) as E.
  { unfold h, bulk. change (ztake 2 (crlf ++ [NUL])) with crlf. rewrite <- !(assoc_L (++)).
    simpl. by rewrite <- !(assoc_L (++)). }
  rewrite E in Hs3. destruct (IH s3 _ a3 Hs3) as (s & a' & -> & Hs).
  { rewrite zlen_app, zlen_bulk. lia. }
  exists s, a'. split; [done|]. by rewrite <- (assoc_L (++)) in Hs.
Qed.

Lemma redisFormatSdsCommandArgv_spec argv lens args a :
  arg_texts (zlen args) argv lens = Some args -> zlen (resp_command args) < INT_MAX ->
  exists s a', redisFormatSdsCommandArgv true (zlen args) argv lens a
    = Some (SdsCmd s (zlen (resp_command args)), a') /\ sds_repr s (resp_command args).
Proof.
  intros E Hm. assert (INT_MAX + 2 <= BUF_SAFE) as Hsafe by done.
  pose proof (zlen_command args) as Hc. pose proof (zlen_nonneg (bulks args)).
  pose proof (zlen_nonneg args). pose proof (zlen_args_bulks args).
  pose proof (zlen_nonneg (udec (zlen args))).
  unfold redisFormatSdsCommandArgv. cbn [negb]. rewrite E. cbn [mbind option_bind].
  rewrite total_length_spec; [|intros; apply u64_small; width_lia|lia].
  cbn [mbind option_bind].
  destruct (sdsempty_spec (al := al) a) as ([s0|] & a0 & -> & Hs0); [|done].
  cbn [mbind option_bind opt_post] in *.
  destruct (sdsMakeRoomFor_repr s0 [] (zlen (resp_command args)) a0 Hs0)
    as ([f|s1] & a1 & -> & Hs1); [lia|rewrite zlen_nil; lia|done|].
  cbn [mbind option_bind grow_post] in *. destruct Hs1 as [Hs1 _].
  set (h := Byte.x2a :: udec (zlen args) ++ crlf).
  assert (zlen h = 1 + zlen (udec (zlen args)) + 2) as Hh by (unfold h, crlf; zlia).
  assert (fmt_text (cstr (bs "*%i" ++ crlf)) [VaInt (zlen args)] = Some h) as Ef.
  { transitivity (Some (Byte.x2a :: dec (s32 (zlen args)) ++ crlf)); [reflexivity|].
    unwrap. by rewrite dec_nonneg. }
  destruct (returns_must _ _ Hal (sdscatfmt_spec s1 [] _ _ h a1 Hs1 Ef ltac:(rewrite zlen_nil; lia)))
    as (s2 & a2 & E2 & Hs2).
  destruct (sdscatfmt s1 _ _ a1) as [g2|]; [|done]. cbn [mbind option_bind] in E2 |- *. rewrite E2.
  cbn [mbind option_bind fst snd].
  destruct (sds_args_spec args s2 _ a2 Hs2 ltac:(simpl app; lia)) as (s3 & a3 & -> & Hs3).
  cbn [mbind option_bind fst snd].
  assert (([] ++ h) ++ bulks args = resp_command args) as Eh
    by (unfold h, resp_command, bulks; simpl; by rewrite <- (assoc_L (++))).
  rewrite Eh in Hs3. rewrite (repr_len _ _ Hs3), Z.eqb_refl. cbn [negb].
  pose proof (zlen_nonneg (resp_command args)). unwrap. by exists s3, a3.
Qed.

End format.

(** ** Formats made of words

    A template is a list of words, each a sequence of literal bytes and of the
    conversions %s, %b, %d and %%.  Its format string stands for the command whose
    arguments are the texts of the words; and the bytes of a command are those
    of an array of bulk strings. *)

Inductive segment :=
  | Lit (b : byte)
  | ArgS (s : bytes)        (* %s: a C string *)
  | ArgB (s : bytes)        (* %b: a buffer and its length *)
  | ArgD (z : Z)            (* %d *)
  | Percent.

#[local] Abbreviation word := (list segment).

Definition seg_format (g : segment) : bytes :=
  match g with Lit b => [b] | ArgS _ => bs "%s" | ArgB _ => bs "%b" | ArgD _ => bs "%d" | Percent => bs "%%" end.

Definition seg_args (g : segment) : list vaarg :=
  match g with ArgS s => [VaPtr s] | ArgB s => [VaPtr s; VaInt (zlen s)] | ArgD z => [VaInt z] | _ => [] end.

Definition seg_text (g : segment) : bytes :=
  match g with Lit b => [b] | ArgS s => s | ArgB s => s | ArgD z => dec (s32 z) | Percent => bs "%" end.

(** Literals are not blanks, percents or NUL; the argument of %s has no NUL. *)
Definition seg_ok (g : segment) : Prop :=
  match g with
  | Lit b => b <> Byte.x25 /\ b <> Byte.x20 /\ b <> NUL
  | ArgS s => NUL ∉ s
  | ArgB s => zlen s <= SIZE_MAX
  | ArgD _ | Percent => True
  end.

Definition word_format (w : word) : bytes := concat (seg_format <$> w).
Definition word_args (w : word) : list vaarg := concat (seg_args <$> w).
Definition word_text (w : word) : bytes := concat (seg_text <$> w).

(** The words, separated by blanks. *)
Fixpoint template_format (ws : list word) : bytes :=
  match ws with
  | [] => []
  | [w] => word_format w
  | w :: ws => word_format w ++ Byte.x20 :: template_format ws
  end.

Definition template_args (ws : list word) : list vaarg := concat (word_args <$> ws).

Definition word_ok (w : word) : Prop := w <> [] /\ Forall seg_ok w.

Section templates.
Context {al : Allocator} {dm : DataModel} {pd : PrintfDouble}.
Hypothesis Hal : alloc_total al.
Hypothesis Hdouble : forall l d, NUL ∉ fmt_double l d.

#[local] Abbreviation fa := (fun c => format_args (S (length c)) c).

Lemma format_args_step f c ap cur :
  (length c < f)%nat ->
  format_args f c ap cur =
  if bool_decide (c = []) then Some (option_list cur, true) else
  p ← next_piece c ap;
  match p with
  | PInvalid => Some (option_list cur, false)
  | PSpace rest => r ← fa rest ap None; Some (option_list cur ++ r.1, r.2)
  | PAppend x rest ap => fa rest ap (Some (default [] cur ++ append_text x))
  end.
Proof.
  intros Hf. destruct f as [|f]; [lia|]. cbn [format_args]. case_bool_decide; [done|].
  destruct (next_piece c ap) as [[rest|x rest ap'|]|] eqn:E; [..|done]; cbn [mbind option_bind]; try done.
  - apply next_piece_space in E. by rewrite (format_args_fuel Hal Hdouble f (S (length rest))) by lia.
  - apply (next_piece_ok Hal Hdouble) in E as [_ E]. by rewrite (format_args_fuel Hal Hdouble f (S (length rest))) by lia.
Qed.

(** The conversion of an [int] without flags, width and precision. *)
Lemma int_text_plain z : int_text (Spec [] [] None SzInt Byte.x64) z = dec (s32 z).
Proof.
  assert (forall n b, n <= 0 -> pad n b = []) as Hpad by (intros n b H; unfold pad; by rewrite (Z2Nat.nonpos n)).
  set (v := s32 z). set (sp := Spec _ _ _ _ _).
  assert (conv_prefix sp v = if v <? 0 then [Byte.x2d] else []) as Ep by (unfold conv_prefix; by destruct (v <? 0)).
  assert (conv_digits sp v = udec (Z.abs v)) as Ed.
  { transitivity (pad (1 - zlen (udec (Z.abs v))) Byte.x30 ++ udec (Z.abs v)); [unfold conv_digits; by destruct (v =? 0)|].
    by rewrite Hpad by (pose proof (zlen_udec_pos (Z.abs v)); lia). }
  transitivity (pad (0 - zlen (conv_prefix sp v) - zlen (conv_digits sp v)) Byte.x20 ++ conv_prefix sp v ++ conv_digits sp v);
    [done|].
  pose proof (zlen_nonneg (conv_prefix sp v)). pose proof (zlen_nonneg (conv_digits sp v)). rewrite Hpad by lia.
  rewrite Ep, Ed. unfold dec. destruct (Z.ltb_spec v 0); simpl; do 2 f_equal; lia.
Qed.

Lemma next_piece_d z c ap :
  next_piece (bs "%d" ++ c) (VaInt z :: ap) = Some (PAppend (APrintf (bs "%d") (dec (s32 z))) c ap).
Proof.
  change (conversion (Byte.x25 :: Byte.x64 :: c) (VaInt z :: ap) = Some (PAppend (APrintf (bs "%d") (dec (s32 z))) c ap)).
  unfold conversion. change (skip_spec (tail _)) with (Byte.x64 :: c). cbv iota. change (strchr intfmts Byte.x64) with true. cbv iota.
  cbn [arg_int mbind option_bind fst snd]. unfold fmt_valid. rewrite !zlen_cons.
  replace (1 + (1 + zlen c) - (1 + zlen c) + 1) with 2 by lia. change (2 <? 14) with true. cbv iota.
  change (ztake 2 _) with (bs "%d"). unfold printf_conv.
  change (parse_spec (bs "%d")) with (Some (Spec [] [] None SzInt Byte.x64)). cbn [mbind option_bind].
  change (strchr intfmts (sp_conv _)) with true. cbv iota. cbn [mbind option_bind]. by rewrite int_text_plain.
Qed.

(** One segment. *)
Lemma next_piece_seg g c ap :
  seg_ok g ->
  exists x, next_piece (seg_format g ++ c) (seg_args g ++ ap) = Some (PAppend x c ap) /\
    append_text x = seg_text g.
Proof.
  destruct g as [b|s|s|z|]; intros Hg.
  4: eexists; split; [apply next_piece_d|done].
  all: simpl in Hg |- *.
  - destruct Hg as (H1 & H2 & _). rewrite bool_decide_false by done. simpl.
    rewrite bool_decide_false by done. eexists. split; [done|]. done.
  - eexists. split; [done|]. unfold strlen. rewrite cstr_id by done.
    destruct (Z.ltb_spec 0 (zlen s)); simpl; [by apply ztake_all|].
    symmetry. apply zlen_0_nil. pose proof (zlen_nonneg s). lia.
  - pose proof (zlen_nonneg s). rewrite u64_small by width_lia.
    destruct (Z.ltb_spec 0 (zlen s)); simpl.
    + unfold zread. rewrite Z.add_0_l, (proj2 (Z.leb_le 0 (zlen s))) by lia. simpl. rewrite Z.leb_refl.
      eexists. split; [done|]. simpl. by apply ztake_all.
    + eexists. split; [done|]. symmetry. apply zlen_0_nil. lia.
  - eexists. by split.
Qed.

Lemma seg_format_nonnil g c : seg_format g ++ c <> [].
Proof. by destruct g. Qed.

Lemma format_word w c ap cur :
  Forall seg_ok w -> w <> [] ->
  fa (word_format w ++ c) (word_args w ++ ap) cur = fa c ap (Some (default [] cur ++ word_text w)).
Proof.
  unfold word_format, word_args, word_text. intros Hw. revert cur.
  induction Hw as [|g w Hg Hw IH]; intros cur Hne; [done|]. cbn [fmap list_fmap concat].
  rewrite <- !(assoc_L (++)), format_args_step by lia.
  rewrite bool_decide_false by apply seg_format_nonnil.
  destruct (next_piece_seg g (concat (seg_format <$> w) ++ c) (concat (seg_args <$> w) ++ ap) Hg)
    as (x & -> & Hx). cbn [mbind option_bind]. rewrite Hx.
  destruct w as [|g' w]; [simpl; by rewrite app_nil_r|].
  rewrite IH by done. simpl. by rewrite <- (assoc_L (++)).
Qed.

Lemma format_template ws ap :
  Forall word_ok ws ->
  fa (template_format ws) (template_args ws ++ ap) None = Some (word_text <$> ws, true).
Proof.
  unfold template_args. induction 1 as [|w ws [Hne Hw] Hws IH]; [done|].
  destruct ws as [|w' ws].
  - cbn [template_format fmap list_fmap concat].
    rewrite <- (app_nil_r (word_format w)), <- (assoc_L (++)), format_word by done. by rewrite format_args_step by lia.
  - change (template_format (w :: w' :: ws))
      with (word_format w ++ Byte.x20 :: template_format (w' :: ws)).
    cbn [fmap list_fmap concat]. rewrite <- (assoc_L (++)), format_word, format_args_step by (done || lia).
    rewrite bool_decide_false by done. cbn [next_piece]. simpl bool_decide. cbn [negb orb].
    change (concat (word_args <$> w' :: ws)) with (word_args w' ++ concat (word_args <$> ws)) in IH.
    cbn [mbind option_bind]. rewrite IH. done.
Qed.

Lemma template_no_nul ws : Forall word_ok ws -> NUL ∉ template_format ws.
Proof.
  assert (forall w, Forall seg_ok w -> NUL ∉ word_format w) as Hw.
  { unfold word_format. induction 1 as [|g w Hg _ IH]; simpl; [set_solver|].
    rewrite elem_of_app. intros [Hn|Hn]; [|done]. destruct g; simpl in *; set_solver. }
  induction 1 as [|w ws [_ Ho] _ IH]; [apply not_elem_of_nil|].
  destruct ws; [by apply Hw|]. cbn [template_format]. rewrite elem_of_app, elem_of_cons.
  intros [?|[?|?]]; [by eapply Hw|done|done].
Qed.

(** The arguments of a template, with others after those it needs. *)
Lemma command_args_rest ws ap :
  Forall word_ok ws ->
  command_args (template_format ws) (template_args ws ++ ap) = Some (word_text <$> ws, true).
Proof.
  intros Hw. unfold command_args. rewrite cstr_id by by apply template_no_nul.
  by apply format_template.
Qed.

Lemma command_args_template ws :
  Forall word_ok ws ->
  command_args (template_format ws) (template_args ws) = Some (word_text <$> ws, true).
Proof. intros Hw. rewrite <- (app_nil_r (template_args ws)). by apply command_args_rest. Qed.

End templates.

Section readback.
Context {fl : FloatLib}.

(** The reply a command is read as. *)
Definition command_reply (args : list bytes) : reply :=
  RAgg REDIS_REPLY_ARRAY (zlen args) (RStr REDIS_REPLY_STRING <$> args).

Lemma dec_udec v : 0 <= v -> dec v = udec v.
Proof. intros. unfold dec. by rewrite (proj2 (Z.ltb_ge _ _)) by lia. Qed.

Lemma encode_command args : encode (command_reply args) = resp_command args.
Proof.
  unfold command_reply, resp_command. cbn [encode].
  change (REDIS_REPLY_ARRAY =? REDIS_REPLY_MAP) with false. cbv iota.
  rewrite dec_udec by apply zlen_nonneg. do 3 f_equal.
  induction args as [|s args IH]; [done|]. cbn [fmap list_fmap foldr concat]. rewrite IH. f_equal.
  cbn [encode]. change (REDIS_REPLY_STRING =? REDIS_REPLY_STRING) with true. cbv iota.
  unfold bulk. by rewrite dec_udec by apply zlen_nonneg.
Qed.

Lemma wf_command args : zlen (resp_command args) <= INT_MAX -> wf_reply 8 (command_reply args).
Proof.
  intros Hl. rewrite zlen_command in Hl. pose proof (zlen_args_bulks args).
  pose proof (zlen_nonneg (udec (zlen args))). pose proof (zlen_nonneg args).
  apply wf_agg. exists 7%nat. split; [done|]. split; [done|].
  split; [by rewrite zlen_fmap|]. split; [lia|]. split; [done|].
  apply Forall_forall. intros t (s & -> & Hs)%list_elem_of_fmap. split; [done|].
  change (REDIS_REPLY_STRING =? REDIS_REPLY_STRING) with true. cbv iota.
  enough (zlen s <= zlen (bulks args)) by width_lia. clear -Hs.
  induction args as [|x args IH]; [by apply not_elem_of_nil in Hs|].
  rewrite zlen_bulks_cons. pose proof (zlen_arg_bulk x). pose proof (zlen_nonneg (bulks args)).
  apply elem_of_cons in Hs as [->|Hs]; [lia|]. specialize (IH Hs). pose proof (zlen_nonneg x). lia.
Qed.

End readback.
