(* ===== verification/FormatTheorems.v ===== *)
(** * The theorems about the command formatters *)

From Stdlib Require Import Strings.Byte String.
From stdpp Require Import gmap.
From S2P Require Import Prelude CLib Buffer Sds SdsFmt SdsEdit Read Parser ReadLines.
From S2P Require Import ReaderRefines Replies Session Reply Tree Resp ReplyRefines.
From S2P Require Import Printf Concrete Streams Format FormatFacts.

#[local] Abbreviation fnd := (Some defaultFunctions).

(** C31: [redisFormatCommand] on a template: the command has the texts of its
    words as arguments, whatever bytes are passed for %b, and the result is the
    RESP array of bulk strings with those arguments, of the length returned. *)
Theorem format_template_command (al : Allocator) (dm : DataModel) (pd : PrintfDouble) ws a :
  alloc_total al -> (forall l d, NUL ∉ fmt_double l d) -> Forall word_ok ws ->
  zlen (resp_command (word_text <$> ws)) < INT_MAX ->
  exists a', redisFormatCommand true (template_format ws) (template_args ws) a =
    Some (FmtCmd (Some <$> resp_command (word_text <$> ws) ++ [NUL])
                 (zlen (resp_command (word_text <$> ws))), a').
Proof.
  intros Hal Hd Hw Hl. unfold redisFormatCommand.
  destruct (redisvFormatCommand_spec Hal Hd (template_format ws) (template_args ws)
    (word_text <$> ws) a) as (a' & ->); [by apply (command_args_template Hal Hd)|done|].
  by exists a'.
Qed.

Definition example_template : list (list segment) :=
  [[Lit Byte.x53; Lit Byte.x45; Lit Byte.x54]; [ArgS (bs "key"); Percent];
   [ArgB [Byte.x20; NUL; Byte.x0d; Byte.x0a]]].

Lemma format_template_command_witness :
  let al := always_alloc in let dm := lp64 in let pd := plain_double in
  exists a', redisFormatCommand true (bs "SET %s%% %b")
      [VaPtr (bs "key"); VaPtr [Byte.x20; NUL; Byte.x0d; Byte.x0a]; VaInt 4] 0 =
    Some (FmtCmd (Some <$> resp_command [bs "SET"; bs "key%"; [Byte.x20; NUL; Byte.x0d; Byte.x0a]]
                             ++ [NUL]) 33, a').
Proof.
  intros al dm pd. apply (format_template_command al dm pd example_template).
  - exact always_total.
  - exact plain_no_nul.
  - repeat constructor; simpl; try discriminate; try (vm_compute; discriminate); set_solver.
  - vm_compute. reflexivity.
Defined.

(** [redisvFormatCommand] on any valid format, with any integer and
    floating-point conversions: the arguments are those the format stands for. *)
Theorem format_valid (al : Allocator) (dm : DataModel) (pd : PrintfDouble) format ap args a :
  alloc_total al -> (forall l d, NUL ∉ fmt_double l d) ->
  command_args format ap = Some (args, true) -> zlen (resp_command args) < INT_MAX ->
  exists a', redisvFormatCommand true format ap a =
    Some (FmtCmd (Some <$> resp_command args ++ [NUL]) (zlen (resp_command args)), a').
Proof. intros Hal Hd. exact (redisvFormatCommand_spec Hal Hd format ap args a). Qed.

Lemma format_valid_witness :
  let al := always_alloc in let dm := lp64 in let pd := plain_double in
  exists a', redisvFormatCommand true (bs "EXPIRE k-%05d %lld") [VaInt (-42); VaInt 4294967296] 0 =
    Some (FmtCmd (Some <$> resp_command [bs "EXPIRE"; bs "k--0042"; bs "4294967296"] ++ [NUL]) 46, a').
Proof.
  intros al dm pd. apply (format_valid al dm pd (bs "EXPIRE k-%05d %lld") _
    [bs "EXPIRE"; bs "k--0042"; bs "4294967296"]).
  - exact always_total.
  - exact plain_no_nul.
  - vm_compute. reflexivity.
  - vm_compute. reflexivity.
Defined.

(** [redisvFormatCommand] on a format with an invalid conversion returns
    -2, however many arguments were built before it; no buffer is freed twice. *)
Theorem format_invalid (al : Allocator) (dm : DataModel) (pd : PrintfDouble) format ap args a :
  alloc_total al -> (forall l d, NUL ∉ fmt_double l d) ->
  command_args format ap = Some (args, false) -> zlen (bulks args) <= INT_MAX ->
  exists a', redisvFormatCommand true format ap a = Some (FmtErr (-2), a').
Proof. intros Hal Hd. exact (redisvFormatCommand_invalid Hal Hd format ap args a). Qed.

Lemma format_invalid_witness :
  let al := always_alloc in let dm := lp64 in let pd := plain_double in
  exists a', redisvFormatCommand true (bs "GET %s %hq") [VaPtr (bs "key"); VaInt 1] 0
    = Some (FmtErr (-2), a').
Proof.
  intros al dm pd. apply (format_invalid al dm pd _ _ [bs "GET"; bs "key"]).
  - exact always_total.
  - exact plain_no_nul.
  - vm_compute. reflexivity.
  - vm_compute. discriminate.
Defined.

(** C36: [redisFormatCommandArgv] and [redisFormatSdsCommandArgv] write the
    same command, the RESP array of the arguments, in a malloc'ed block and in
    a dynamic string, and return its length; with lengths given the arguments
    may hold any bytes. *)
Theorem format_argv (al : Allocator) (dm : DataModel) (pd : PrintfDouble) argv lens args a :
  alloc_total al -> arg_texts (zlen args) argv lens = Some args ->
  zlen (resp_command args) < INT_MAX ->
  redisFormatCommandArgv true (zlen args) argv lens a
    = Some (FmtCmd (Some <$> resp_command args ++ [NUL]) (zlen (resp_command args)), S a) /\
  exists s a', redisFormatSdsCommandArgv true (zlen args) argv lens a
    = Some (SdsCmd s (zlen (resp_command args)), a') /\ sds_repr s (resp_command args).
Proof.
  intros Hal Ha Hl. split; [by apply (redisFormatCommandArgv_spec Hal)|].
  by apply (redisFormatSdsCommandArgv_spec Hal).
Qed.

Lemma format_argv_witness :
  let al := always_alloc in let dm := lp64 in let pd := plain_double in
  redisFormatCommandArgv true 2 [bs "GET"; [NUL; LF]] (Some [3; 2]) 0
    = Some (FmtCmd (Some <$> resp_command [bs "GET"; [NUL; LF]] ++ [NUL]) 21, 1%nat) /\
  exists s a', redisFormatSdsCommandArgv true 2 [bs "GET"; [NUL; LF]] (Some [3; 2]) 0
    = Some (SdsCmd s 21, a') /\ sds_repr s (resp_command [bs "GET"; [NUL; LF]]).
Proof.
  intros al dm pd. apply (format_argv al dm pd _ _ [bs "GET"; [NUL; LF]]).
  - exact always_total.
  - vm_compute. reflexivity.
  - vm_compute. reflexivity.
Defined.

(** C35: A formatted command, sent in any pieces to a reader, is read back as
    one array of strings, the arguments, and nothing is left over: arguments
    cannot inject protocol. *)
Theorem command_read_back (al : Allocator) (dm : DataModel) (fl : FloatLib) (pd : PrintfDouble)
    argv lens args a :
  alloc_total al -> strtod_bounded -> LP64 ->
  arg_texts (zlen args) argv lens = Some args -> zlen (resp_command args) < INT_MAX ->
  exists text,
    redisFormatCommandArgv true (zlen args) argv lens a
      = Some (FmtCmd (Some <$> text ++ [NUL]) (zlen text), S a) /\
    forall chunks b h0, concat chunks = text -> heap_ok h0 ->
      exists r a1 r' a2,
        redisReaderCreate (B := sds) b = Some (Some r, a1) /\
        session fnd chunks r a1 h0 = Some ([Some (OLoc (h_next h0))], REDIS_OK, r', a2,
          h_add (RAgg REDIS_REPLY_ARRAY (zlen args) (RStr REDIS_REPLY_STRING <$> args)) h0) /\
        r_err r' = 0 /\ r_reply r' = None.
Proof.
  intros Hal Hs Hlp Ha Hl. exists (resp_command args).
  split; [by apply (redisFormatCommandArgv_spec Hal)|]. intros chunks b h0 Ec Hh.
  assert (Forall (wf_reply 8) [command_reply args]) as Hw.
  { constructor; [|constructor]. apply wf_command. lia. }
  apply (session_encodes (B := sds) Hal Hs chunks b h0 [command_reply args] Hlp Hh); [| |done].
  - rewrite Ec. lia.
  - unfold encodes. cbn [fmap list_fmap concat]. by rewrite app_nil_r, encode_command.
Qed.

Lemma command_read_back_witness :
  let al := always_alloc in let dm := lp64 in let fl := digits_lib in let pd := plain_double in
  exists text,
    redisFormatCommandArgv true 2 [bs "GET"; crlf ++ bs "*1"] None 0
      = Some (FmtCmd (Some <$> text ++ [NUL]) (zlen text), 1%nat) /\
    forall chunks b h0, concat chunks = text -> heap_ok h0 ->
      exists r a1 r' a2,
        redisReaderCreate (B := sds) b = Some (Some r, a1) /\
        session fnd chunks r a1 h0 = Some ([Some (OLoc (h_next h0))], REDIS_OK, r', a2,
          h_add (RAgg REDIS_REPLY_ARRAY 2 (RStr REDIS_REPLY_STRING <$> [bs "GET"; crlf ++ bs "*1"])) h0) /\
        r_err r' = 0 /\ r_reply r' = None.
Proof.
  intros al dm fl pd. apply (command_read_back al dm fl pd _ _ [bs "GET"; crlf ++ bs "*1"]).
  - exact always_total.
  - exact digits_bounded.
  - reflexivity.
  - vm_compute. reflexivity.
  - vm_compute. reflexivity.
Defined.

(** [countDigits] is the number of digits [printf] writes, for every
    64-bit number: the lengths computed before the command is written are the
    lengths written. *)
Theorem countDigits_exact v :
  0 <= v <= ULLONG_MAX -> countDigits v = Some (zlen (udec v)).
Proof. apply countDigits_udec. Qed.

Lemma countDigits_exact_witness : countDigits 18446744073709551615 = Some 20.
Proof. apply (countDigits_exact 18446744073709551615). vm_compute. split; discriminate. Defined.
