(* ===== verification/Dict.v ===== *)
(** * The chained hash table (dict.h, dict.c)

    A chain of entries is the list of its keys and values, the table an array
    of chains.  The callbacks of the [dictType] are parameters; the calls of
    the destructors are recorded, in order, as events.  A result [None] is an
    access outside the table (or to a table that was not allocated) or a
    failed [assert]. *)

From Stdlib Require Import Strings.Byte.
From stdpp Require Import gmap.
From S2P Require Import Prelude CLib Buffer Read.

Definition DICT_OK : Z := 0.
Definition DICT_ERR : Z := 1.
Definition DICT_HT_INITIAL_SIZE : Z := 4.

(** [while (len--) hash = ((hash << 5) + hash) + *buf++;] *)
Fixpoint hash_loop (buf : bytes) (hash : Z) : Z :=
  match buf with
  | [] => hash
  | c :: buf => hash_loop buf (u32 (u32 (u32 (Z.shiftl hash 5) + hash) + bZ c))
  end.

Definition dictGenHashFunction (buf : bytes) : Z := hash_loop buf 5381.

Section dict.
Context {al : Allocator} {dm : DataModel} {K V : Type} `{!EqDecision K}.

(** [dictType]; an absent comparison is the comparison of pointers. *)
Record dictType := DictType {
  hashFunction : K -> Z;
  keyDup : option (K -> K);
  valDup : option (V -> V);
  keyCompare : option (K -> K -> bool);
  keyDestructor : bool;
  valDestructor : bool
}.

Variable ty : dictType.

Record dict := Dict {
  d_table : option (list (list (K * V)));      (* None is NULL *)
  d_size : Z;
  d_sizemask : Z;
  d_used : Z
}.

(** Calls of the destructors. *)
Inductive event :=
  | FreedKey (k : K)
  | FreedVal (v : V).

Definition free_key (k : K) : list event := if keyDestructor ty then [FreedKey k] else [].
Definition free_val (v : V) : list event := if valDestructor ty then [FreedVal v] else [].

Definition dictCompareHashKeys (k1 k2 : K) : bool :=
  match keyCompare ty with
  | Some cmp => cmp k1 k2
  | None => bool_decide (k1 = k2)
  end.

Definition dup_key (k : K) : K := match keyDup ty with Some f => f k | None => k end.
Definition dup_val (v : V) : V := match valDup ty with Some f => f v | None => v end.

(** [dictHashKey(ht,key) & mask] as an [unsigned int]. *)
Definition key_slot (k : K) (mask : Z) : Z := u32 (Z.land (u32 (hashFunction ty k)) mask).

(** [table[i]]. *)
Definition slot (t : option (list (list (K * V)))) (i : Z) : option (list (K * V)) :=
  t ← t; zget t i.
Definition set_slot (t : option (list (list (K * V)))) (i : Z) (c : list (K * V)) :
    option (option (list (list (K * V)))) :=
  t ← t; _ ← zget t i; Some (Some (<[Z.to_nat i := c]> t)).

(** ** Creation *)

Definition _dictReset : dict := Dict None 0 0 0.
Definition _dictInit : dict := _dictReset.
(** [hi_malloc] does not return when it fails. *)
Definition dictCreate : dict := _dictInit.

(** ** Growth *)


Fixpoint next_power_loop (fuel : nat) (i size : Z) : option Z :=
  match fuel with
  | O => None
  | S f => if size <=? i then Some i else next_power_loop f (uw long_bits (i * 2)) size
  end.

Definition _dictNextPower (size : Z) : option Z :=
  if LONG_MAX <=? size then Some LONG_MAX else next_power_loop 64 DICT_HT_INITIAL_SIZE size.

(** The entries of a chain, moved to the new table, each in front. *)
Fixpoint rehash_chain (he : list (K * V)) (t : option (list (list (K * V)))) (mask used : Z) :
    option (option (list (list (K * V))) * Z) :=
  match he with
  | [] => Some (t, used)
  | e :: he =>
      let h := key_slot e.1 mask in
      c ← slot t h;
      t ← set_slot t h (e :: c);
      rehash_chain he t mask (uw long_bits (used - 1))
  end.

(** [for (i = 0; i < ht->size && ht->used > 0; i++)] *)
Fixpoint rehash_loop (fuel : nat) (i : Z) (ht : dict) (t : option (list (list (K * V))))
    (mask used : Z) : option (option (list (list (K * V))) * Z) :=
  match fuel with
  | O => None
  | S f =>
      if (i <? d_size ht) && (0 <? used) then
        he ← slot (d_table ht) i;
        r ← rehash_chain he t mask used;
        rehash_loop f (i + 1) ht r.1 mask r.2
      else Some (t, used)
  end.

Definition dictExpand (ht : dict) (size : Z) (a : nat) : option (Z * dict * nat) :=
  realsize ← _dictNextPower size;
  if size <? d_used ht then Some (DICT_ERR, ht, a) else
  let mask := uw long_bits (realsize - 1) in
  let '(ok, a) := calloc a realsize 8 in
  let t := if (ok : bool) then Some (replicate (Z.to_nat realsize) []) else None in
  r ← rehash_loop (S (Z.to_nat (d_size ht))) 0 ht t mask (d_used ht);
  if negb (r.2 =? 0) then None else
  Some (DICT_OK, Dict r.1 realsize mask (d_used ht), a).

Definition _dictExpandIfNeeded (ht : dict) (a : nat) : option (Z * dict * nat) :=
  if d_size ht =? 0 then dictExpand ht DICT_HT_INITIAL_SIZE a
  else if d_used ht =? d_size ht then dictExpand ht (uw long_bits (d_size ht * 2)) a
  else Some (DICT_OK, ht, a).

(** ** Lookup *)

(** [while (he) { if (equal) return he; he = he->next; }] *)
Fixpoint chain_find (key : K) (he : list (K * V)) : option (K * V) :=
  match he with
  | [] => None
  | e :: he => if dictCompareHashKeys key e.1 then Some e else chain_find key he
  end.

(** The index of a free slot for the key, or -1. *)
Definition _dictKeyIndex (ht : dict) (key : K) (a : nat) : option (Z * dict * nat) :=
  r ← _dictExpandIfNeeded ht a;
  let '(status, ht, a) := r in
  if status =? DICT_ERR then Some (-1, ht, a) else
  let h := key_slot key (d_sizemask ht) in
  he ← slot (d_table ht) h;
  match chain_find key he with
  | Some _ => Some (-1, ht, a)
  | None => Some (s32 h, ht, a)
  end.

Definition dictFind (ht : dict) (key : K) : option (option (K * V)) :=
  if d_size ht =? 0 then Some None else
  he ← slot (d_table ht) (key_slot key (d_sizemask ht));
  Some (chain_find key he).

(** ** Updates *)

Definition dictAdd (ht : dict) (key : K) (val : V) (a : nat) : option (Z * dict * nat) :=
  r ← _dictKeyIndex ht key a;
  let '(index, ht, a) := r in
  if index =? -1 then Some (DICT_ERR, ht, a) else
  c ← slot (d_table ht) index;
  t ← set_slot (d_table ht) index ((dup_key key, dup_val val) :: c);
  Some (DICT_OK, Dict t (d_size ht) (d_sizemask ht) (uw long_bits (d_used ht + 1)), a).

(** The entry found gets the value; the old value. *)
Fixpoint chain_set (key : K) (val : V) (he : list (K * V)) : option (list (K * V) * V) :=
  match he with
  | [] => None
  | e :: he =>
      if dictCompareHashKeys key e.1 then Some ((e.1, val) :: he, e.2)
      else r ← chain_set key val he; Some (e :: r.1, r.2)
  end.

Definition dictReplace (ht : dict) (key : K) (val : V) (a : nat) :
    option (Z * dict * list event * nat) :=
  r ← dictAdd ht key val a;
  let '(status, ht, a) := r in
  if status =? DICT_OK then Some (1, ht, [], a) else
  let h := key_slot key (d_sizemask ht) in
  c ← (if d_size ht =? 0 then None else slot (d_table ht) h);
  u ← chain_set key (dup_val val) c;
  t ← set_slot (d_table ht) h u.1;
  Some (0, Dict t (d_size ht) (d_sizemask ht) (d_used ht), free_val u.2, a).

(** The entry found is unlinked. *)
Fixpoint chain_delete (key : K) (he : list (K * V)) : option (list (K * V) * (K * V)) :=
  match he with
  | [] => None
  | e :: he =>
      if dictCompareHashKeys key e.1 then Some (he, e)
      else r ← chain_delete key he; Some (e :: r.1, r.2)
  end.

Definition dictDelete (ht : dict) (key : K) : option (Z * dict * list event) :=
  if d_size ht =? 0 then Some (DICT_ERR, ht, []) else
  let h := key_slot key (d_sizemask ht) in
  c ← slot (d_table ht) h;
  match chain_delete key c with
  | None => Some (DICT_ERR, ht, [])
  | Some (c, e) =>
      t ← set_slot (d_table ht) h c;
      Some (DICT_OK, Dict t (d_size ht) (d_sizemask ht) (uw long_bits (d_used ht - 1)),
            free_key e.1 ++ free_val e.2)
  end.

(** ** Release *)

Fixpoint clear_chain (he : list (K * V)) (used : Z) : list event * Z :=
  match he with
  | [] => ([], used)
  | e :: he =>
      let r := clear_chain he (uw long_bits (used - 1)) in
      (free_key e.1 ++ free_val e.2 ++ r.1, r.2)
  end.

Fixpoint clear_loop (fuel : nat) (i : Z) (ht : dict) (used : Z) : option (list event) :=
  match fuel with
  | O => None
  | S f =>
      if (i <? d_size ht) && (0 <? used) then
        he ← slot (d_table ht) i;
        let r := clear_chain he used in
        evs ← clear_loop f (i + 1) ht r.2;
        Some (r.1 ++ evs)
      else Some []
  end.

Definition _dictClear (ht : dict) : option (Z * dict * list event) :=
  evs ← clear_loop (S (Z.to_nat (d_size ht))) 0 ht (d_used ht);
  Some (DICT_OK, _dictReset, evs).

Definition dictRelease (ht : dict) : option (list event) :=
  r ← _dictClear ht; Some r.2.

(** ** Iteration

    A pointer to an entry is the chain from that entry on. *)

Record dictIterator := Iterator {
  it_index : Z;                     (* int *)
  it_entry : list (K * V);          (* [] is NULL *)
  it_next : list (K * V)
}.

Definition dictGetIterator : dictIterator := Iterator (-1) [] [].

Fixpoint next_loop (fuel : nat) (ht : dict) (iter : dictIterator) :
    option (option (K * V) * dictIterator) :=
  match fuel with
  | O => None
  | S f =>
      let continue (iter : dictIterator) :=
        match it_entry iter with
        | e :: next => Some (Some e, Iterator (it_index iter) (e :: next) next)
        | [] => next_loop f ht iter
        end in
      match it_entry iter with
      | [] =>
          let index := s32 (it_index iter + 1) in
          if s32 (d_size ht) <=? index then Some (None, Iterator index [] (it_next iter))
          else c ← slot (d_table ht) index; continue (Iterator index c (it_next iter))
      | _ => continue (Iterator (it_index iter) (it_next iter) (it_next iter))
      end
  end.

Definition dictNext (ht : dict) (iter : dictIterator) : option (option (K * V) * dictIterator) :=
  next_loop (S (S (S (Z.to_nat (d_size ht))))) ht iter.

(** [while ((de = dictNext(it)) != NULL)] *)
Fixpoint iterate (fuel : nat) (ht : dict) (iter : dictIterator) : option (list (K * V)) :=
  match fuel with
  | O => None
  | S f =>
      r ← dictNext ht iter;
      match r.1 with
      | None => Some []
      | Some e => es ← iterate f ht r.2; Some (e :: es)
      end
  end.

End dict.
