(* ===== verification/DictFacts.v ===== *)
(** * The hash table is a finite map

    [dict_wf] is the invariant of the table; under it every operation acts on
    [dict_map], the finite map of the entries, as its name says, and iteration
    meets every entry once. *)

From Stdlib Require Import Strings.Byte.
From stdpp Require Import gmap sorting.
From S2P Require Import Prelude CLib Buffer Read Dict.

#[local] Arguments slot : simpl never.
#[local] Arguments set_slot : simpl never.
#[local] Arguments key_slot : simpl never.
#[local] Arguments Z.mul : simpl never.
#[local] Arguments Z.pow : simpl never.

(** ** Slots of a table *)

Section slots.
Context {A : Type}.
Implicit Types (t : list (list A)) (c : list A).

Lemma concat_slot t i c c' :
  t !! i = Some c -> concat (<[i := c']> t) ≡ₚ c' ++ concat (delete i t).
Proof.
  revert i. induction t as [|d t IH]; intros [|i]; simpl; [done..| |].
  - by intros [= <-].
  - intros Hi. rewrite (IH i Hi). rewrite !(assoc_L (++)). by rewrite (comm (++) d c').
Qed.

Lemma concat_slot_same t i c : t !! i = Some c -> concat t ≡ₚ c ++ concat (delete i t).
Proof. intros Hi. rewrite <- (concat_slot t i c c Hi). by rewrite list_insert_id. Qed.

Lemma concat_replicate_nil n : concat (replicate n (@nil A)) = [].
Proof. by induction n. Qed.

Lemma zget_lookup {C} (l : list C) i x : zget l i = Some x <-> 0 <= i /\ l !! Z.to_nat i = Some x.
Proof.
  unfold zget. destruct (Z.leb_spec 0 i); [tauto|]. split; [done|lia].
Qed.

End slots.

Section dict.
Context {al : Allocator} {dm : DataModel} {K V : Type} `{!EqDecision K, !Countable K}.
Variable ty : dictType (K := K) (V := V).

Abbreviation dict := (dict (K := K) (V := V)).
Implicit Types (ht : dict) (k key : K) (v : V) (t : list (list (K * V))).

(** The contract of the callbacks: keys are compared by contents, and copies
    have the contents of the originals. *)
Hypothesis Hcmp : forall k1 k2, dictCompareHashKeys ty k1 k2 = bool_decide (k1 = k2).
Hypothesis Hdup_key : forall k, dup_key ty k = k.
Hypothesis Hdup_val : forall v, dup_val ty v = v.
Hypothesis Hal : alloc_total al.
Hypothesis Hlong : long_bits = 32 \/ long_bits = 64.

Definition entries ht : list (K * V) :=
  match d_table ht with Some t => concat t | None => [] end.

(** Every entry is in the chain of its key. *)
Definition placed t (mask : Z) : Prop :=
  forall i c, zget t i = Some c -> Forall (fun e => key_slot ty e.1 mask = i) c.

Definition table_ok t (n : Z) : Prop := zlen t = 2 ^ n /\ placed t (2 ^ n - 1).

Definition dict_wf ht : Prop :=
  ht = _dictReset \/
  exists n t, 2 <= n <= 30 /\ ht = Dict (Some t) (2 ^ n) (2 ^ n - 1) (zlen (concat t)) /\
    table_ok t n /\ NoDup (concat t).*1 /\ zlen (concat t) <= 2 ^ n.

Definition dict_map ht : gmap K V := list_to_map (entries ht).

(** ** Arithmetic *)

Lemma long_small z : 0 <= z < 2147483648 -> uw long_bits z = z.
Proof. intros. destruct Hlong as [-> | ->]; apply uw_small; lia. Qed.

Lemma pow2_bounds n : 2 <= n <= 30 -> 4 <= 2 ^ n <= 1073741824.
Proof.
  intros Hn. split.
  - change 4 with (2 ^ 2). by apply Z.pow_le_mono_r; lia.
  - change 1073741824 with (2 ^ 30). by apply Z.pow_le_mono_r; lia.
Qed.

Lemma key_slot_range key n : 2 <= n <= 30 -> 0 <= key_slot ty key (2 ^ n - 1) < 2 ^ n.
Proof.
  intros Hn. pose proof (pow2_bounds n Hn). unfold key_slot.
  replace (2 ^ n - 1) with (Z.ones n) by (rewrite Z.ones_equiv; lia).
  rewrite Z.land_ones by lia. pose proof (Z.mod_pos_bound (u32 (hashFunction ty key)) (2 ^ n) ltac:(lia)).
  rewrite u32_small; lia.
Qed.

Lemma next_power_spec n m : forall fuel,
  2 <= m <= n -> n <= 30 -> (Z.to_nat (n - m) < fuel)%nat ->
  next_power_loop fuel (2 ^ m) (2 ^ n) = Some (2 ^ n).
Proof.
  intros fuel. revert m. induction fuel as [|f IH]; intros m Hm Hn Hf; [lia|]. simpl.
  destruct (Z.leb_spec (2 ^ n) (2 ^ m)) as [Hle|Hlt].
  - apply Z.pow_le_mono_r_iff in Hle; [|lia..]. by replace m with n by lia.
  - assert (m < n) by (apply Z.pow_lt_mono_r_iff in Hlt; lia).
    replace (2 ^ m * 2) with (2 ^ (m + 1)) by (rewrite Z.pow_add_r; lia).
    pose proof (pow2_bounds (m + 1) ltac:(lia)). rewrite long_small by lia. apply IH; lia.
Qed.

Lemma dictNextPower_pow2 n : 2 <= n <= 30 -> _dictNextPower (2 ^ n) = Some (2 ^ n).
Proof.
  intros Hn. pose proof (pow2_bounds n Hn). unfold _dictNextPower.
  assert (2147483647 <= LONG_MAX) by (unfold LONG_MAX; destruct Hlong as [-> | ->]; lia).
  rewrite (proj2 (Z.leb_gt _ _)) by lia.
  change DICT_HT_INITIAL_SIZE with (2 ^ 2). apply next_power_spec; lia.
Qed.

(** ** Moving the entries *)

Lemma placed_insert t mask i c :
  placed t mask -> Forall (fun e => key_slot ty e.1 mask = i) c -> 0 <= i ->
  placed (<[Z.to_nat i := c]> t) mask.
Proof.
  intros Hp Hc Hi j d [Hj Hd]%zget_lookup.
  destruct (decide (Z.to_nat i = Z.to_nat j)) as [E|E].
  - replace j with i by lia. rewrite E in Hd.
    destruct (decide (Z.to_nat j < length t)%nat).
    + rewrite list_lookup_insert_eq in Hd by done. by injection Hd as <-.
    + rewrite list_insert_ge in Hd by lia. apply lookup_lt_Some in Hd. lia.
  - rewrite list_lookup_insert_ne in Hd by done. apply Hp. by apply zget_lookup.
Qed.

Lemma slot_exists t n i : zlen t = 2 ^ n -> 0 <= i < 2 ^ n -> is_Some (zget t i).
Proof. intros Hl Hi. apply zget_is_Some. lia. Qed.

(** An entry put in front of its chain. *)
Lemma push_entry t n e :
  2 <= n <= 30 -> table_ok t n ->
  exists c t', slot (Some t) (key_slot ty e.1 (2 ^ n - 1)) = Some c /\
    set_slot (Some t) (key_slot ty e.1 (2 ^ n - 1)) (e :: c) = Some (Some t') /\
    table_ok t' n /\ concat t' ≡ₚ e :: concat t.
Proof.
  intros Hn [Hl Hp]. pose proof (key_slot_range e.1 n Hn) as Hi.
  destruct (slot_exists t n _ Hl Hi) as [c Hc]. pose proof (Hp _ _ Hc) as Hcs.
  pose proof Hc as [_ Hc']%zget_lookup.
  exists c, (<[Z.to_nat (key_slot ty e.1 (2 ^ n - 1)) := e :: c]> t).
  unfold slot, set_slot. simpl. rewrite Hc. split; [done|]. split; [done|]. split.
  - split; [unfold zlen in *; by rewrite length_insert|].
    apply placed_insert; [done| |lia]. by constructor.
  - rewrite (concat_slot _ _ c) by done. by rewrite (concat_slot_same t _ c Hc').
Qed.

Lemma rehash_chain_spec he t n used :
  2 <= n <= 30 -> table_ok t n -> zlen he <= used < 2147483648 ->
  exists t', rehash_chain ty he (Some t) (2 ^ n - 1) used = Some (Some t', used - zlen he) /\
    table_ok t' n /\ concat t' ≡ₚ he ++ concat t.
Proof.
  intros Hn. revert t used. induction he as [|e he IH]; intros t used Ht Hu; simpl.
  { exists t. rewrite zlen_nil, Z.sub_0_r. done. }
  rewrite zlen_cons in Hu. pose proof (zlen_nonneg he).
  destruct (push_entry t n e Hn Ht) as (c & t' & E1 & E2 & Ht' & Hc).
  rewrite E1; simpl. rewrite E2; simpl. rewrite long_small by lia. destruct (IH t' (used - 1) Ht') as (t2 & -> & Ht2 & Hc2); [lia|].
  exists t2. rewrite zlen_cons. split; [do 2 f_equal; lia|]. split; [done|].
  rewrite Hc2, Hc. by rewrite Permutation_middle.
Qed.

Lemma rehash_loop_spec old fuel i used size mask0 u0 t n :
  2 <= n <= 30 -> table_ok t n -> zlen old = size -> 0 <= i <= size ->
  (Z.to_nat (size - i) < fuel)%nat -> used = zlen (concat (zdrop i old)) -> used < 2147483648 ->
  exists t', rehash_loop ty fuel i (Dict (Some old) size mask0 u0) (Some t) (2 ^ n - 1) used
      = Some (Some t', 0) /\
    table_ok t' n /\ concat t' ≡ₚ concat (zdrop i old) ++ concat t.
Proof.
  intros Hn. revert i used t. induction fuel as [|f IH]; intros i used t Ht Hl Hi Hf Hu Hb; [lia|].
  simpl. destruct (Z.ltb_spec i size); simpl.
  2: { rewrite zdrop_all in Hu |- * by lia. subst used. exists t. done. }
  destruct (Z.ltb_spec 0 used).
  - destruct (zget_is_Some old i) as [he Hhe]; [lia|]. unfold slot at 1. simpl. rewrite Hhe. simpl.
    rewrite (zdrop_cons _ _ _ Hhe) in Hu |- *. simpl in Hu |- *. rewrite zlen_app in Hu.
    pose proof (zlen_nonneg he). pose proof (zlen_nonneg (concat (zdrop (i + 1) old))).
    destruct (rehash_chain_spec he t n used Hn Ht) as (t' & -> & Ht' & Hc); [lia|]. simpl.
    destruct (IH (i + 1) (used - zlen he) t' Ht') as (t2 & -> & Ht2 & Hc2); [done|lia..|].
    exists t2. split; [done|]. split; [done|]. rewrite Hc2, Hc, !(assoc_L (++)).
    by rewrite (comm (++) (concat _) he).
  - pose proof (zlen_nonneg (concat (zdrop i old))).
    assert (concat (zdrop i old) = []) as -> by (apply zlen_0_nil; lia).
    assert (used = 0) as -> by lia. exists t. done.
Qed.

Lemma empty_table_ok n : 2 <= n <= 30 -> table_ok (replicate (Z.to_nat (2 ^ n)) []) n.
Proof.
  intros Hn. pose proof (pow2_bounds n Hn). split; [rewrite zlen_replicate; lia|].
  intros i c [_ Hc]%zget_lookup. apply lookup_replicate in Hc as [-> _]. constructor.
Qed.

Lemma wf_used ht : dict_wf ht -> d_used ht = zlen (entries ht).
Proof. by intros [-> | (m & t & _ & -> & _)]. Qed.

(** Growing keeps the entries. *)
Lemma dictExpand_spec ht n a :
  dict_wf ht -> 2 <= n <= 30 -> zlen (entries ht) <= 2 ^ n ->
  exists t a', dictExpand ty ht (2 ^ n) a
      = Some (DICT_OK, Dict (Some t) (2 ^ n) (2 ^ n - 1) (zlen (concat t)), a') /\
    table_ok t n /\ concat t ≡ₚ entries ht.
Proof.
  intros Hw Hn Hu. pose proof (pow2_bounds n Hn).
  pose proof (zlen_nonneg (entries ht)).
  pose proof (wf_used ht Hw) as Hused.
  unfold dictExpand. rewrite dictNextPower_pow2 by done. cbn [mbind option_bind].
  rewrite (proj2 (Z.ltb_ge _ _)) by lia. rewrite (calloc_ok Hal) by width_lia.
  rewrite long_small by lia.
  assert (exists t, rehash_loop ty (S (Z.to_nat (d_size ht))) 0 ht
            (Some (replicate (Z.to_nat (2 ^ n)) [])) (2 ^ n - 1) (d_used ht) = Some (Some t, 0) /\
          table_ok t n /\ concat t ≡ₚ entries ht) as (t & -> & Ht & Hc).
  { destruct Hw as [-> | (m & t & Hm & -> & [Hl _] & _ & _)].
    - exists (replicate (Z.to_nat (2 ^ n)) []). split; [done|]. split; [by apply empty_table_ok|].
      by rewrite concat_replicate_nil.
    - pose proof (pow2_bounds m Hm).
      destruct (rehash_loop_spec t (S (Z.to_nat (2 ^ m))) 0 (zlen (concat t)) (2 ^ m) (2 ^ m - 1)
        (zlen (concat t)) (replicate (Z.to_nat (2 ^ n)) []) n Hn (empty_table_ok n Hn))
        as (t' & E & Ht' & Hc'); [done|lia|lia|done|unfold entries in Hu; simpl in Hu; lia|].
      exists t'. split; [exact E|]. split; [done|].
      by rewrite Hc', concat_replicate_nil, app_nil_r. }
  cbn [mbind option_bind fst snd Z.eqb negb].
  exists t, (S a). split; [|done]. rewrite Hused. do 3 f_equal. f_equal.
  unfold zlen. by rewrite Hc.
Qed.

(** ** Tables in use *)

(** A table that has been allocated: the exponent of its size and its chains. *)
Definition in_use ht (n : Z) t : Prop :=
  2 <= n <= 30 /\ ht = Dict (Some t) (2 ^ n) (2 ^ n - 1) (zlen (concat t)) /\
  table_ok t n /\ NoDup (concat t).*1 /\ zlen (concat t) <= 2 ^ n.

Lemma in_use_wf ht n t : in_use ht n t -> dict_wf ht.
Proof. intros (? & ? & ? & ? & ?). right. by exists n, t. Qed.

Lemma wf_cases ht : dict_wf ht -> ht = _dictReset \/ exists n t, in_use ht n t.
Proof. intros [->|(n & t & ?)]; [by left|right]. by exists n, t. Qed.

Lemma wf_nodup ht : dict_wf ht -> NoDup (entries ht).*1.
Proof. intros [->|(n & t & _ & -> & _ & Hnd & _)]; [constructor|done]. Qed.

Lemma perm_keys (l l' : list (K * V)) : l ≡ₚ l' -> NoDup l'.*1 -> NoDup l.*1.
Proof. by intros ->. Qed.

(** The map only depends on the entries up to their order. *)
Lemma dict_map_perm ht (l : list (K * V)) :
  entries ht ≡ₚ l -> NoDup l.*1 -> dict_map ht = list_to_map l.
Proof. intros Hp Hnd. unfold dict_map. apply list_to_map_proper; [by apply (perm_keys _ l)|done]. Qed.

Lemma expandIfNeeded_spec ht a :
  dict_wf ht -> zlen (entries ht) < 2 ^ 30 ->
  exists ht' a' n t, _dictExpandIfNeeded ty ht a = Some (DICT_OK, ht', a') /\ in_use ht' n t /\
    zlen (concat t) < 2 ^ n /\ concat t ≡ₚ entries ht.
Proof.
  intros Hw Hs. pose proof Hw as Hw'.
  assert (forall n, 2 <= n <= 30 -> zlen (entries ht) < 2 ^ n -> exists ht' a' m t,
    dictExpand ty ht (2 ^ n) a = Some (DICT_OK, ht', a') /\ in_use ht' m t /\
    zlen (concat t) < 2 ^ m /\ concat t ≡ₚ entries ht) as Hexp.
  { intros n Hn Hle. destruct (dictExpand_spec ht n a Hw Hn) as (t & a' & -> & Ht & Hc); [lia|].
    assert (zlen (concat t) < 2 ^ n) by (unfold zlen in *; by rewrite Hc).
    do 2 eexists. exists n, t. split; [done|]. split; [|done].
    split; [done|]. split; [done|]. split; [done|]. split; [|lia].
    by apply (perm_keys _ _ Hc), wf_nodup. }
  unfold _dictExpandIfNeeded. destruct (wf_cases _ Hw') as [E|(n & t & Hu)].
  - rewrite E in Hexp |- *. apply (Hexp 2); [lia|]. unfold entries. simpl. by rewrite zlen_nil.
  - pose proof Hu as (Hn & E & (Hl & _) & _ & Hle). pose proof (pow2_bounds n Hn).
    rewrite E in Hexp, Hs |- *. unfold entries in Hexp, Hs |- *. cbn [d_size d_used d_table] in *.
    rewrite (proj2 (Z.eqb_neq _ _)) by lia.
    destruct (Z.eqb_spec (zlen (concat t)) (2 ^ n)) as [Eq|].
    + assert (n < 30).
      { destruct (Z.le_gt_cases 30 n); [|lia]. assert (n = 30) as -> by lia. lia. }
      replace (2 ^ n * 2) with (2 ^ (n + 1)) in * by (rewrite Z.pow_add_r; lia).
      pose proof (pow2_bounds (n + 1) ltac:(lia)). rewrite long_small by lia. apply Hexp; [lia|].
      rewrite Eq. apply Z.pow_lt_mono_r; lia.
    + do 2 eexists. exists n, t. split; [done|]. split; [|split; [lia|done]]. rewrite <- E. exact Hu.
Qed.

(** ** The chain of a key *)

Lemma in_chain t mask e :
  placed t mask -> e ∈ concat t -> exists c, zget t (key_slot ty e.1 mask) = Some c /\ e ∈ c.
Proof.
  intros Hp He. apply list_elem_of_In, in_concat in He as (c & Hc & He).
  apply list_elem_of_In in Hc, He. apply list_elem_of_lookup in Hc as [j Hj].
  assert (zget t (Z.of_nat j) = Some c) as Hz.
  { apply zget_lookup. rewrite Nat2Z.id. split; [lia|done]. }
  pose proof (Hp _ _ Hz) as Hk. rewrite Forall_forall in Hk. rewrite (Hk e He). by exists c.
Qed.

Lemma key_chain t n key :
  2 <= n <= 30 -> table_ok t n ->
  let i := key_slot ty key (2 ^ n - 1) in
  exists c rest, slot (Some t) i = Some c /\ (concat t ≡ₚ c ++ rest) /\ (key ∉ rest.*1) /\
    Forall (fun e => key_slot ty e.1 (2 ^ n - 1) = i) c /\
    forall c', Forall (fun e => key_slot ty e.1 (2 ^ n - 1) = i) c' ->
      exists t', set_slot (Some t) i c' = Some (Some t') /\ table_ok t' n /\
        concat t' ≡ₚ c' ++ rest.
Proof.
  intros Hn [Hl Hp] i. pose proof (key_slot_range key n Hn) as Hi. fold i in Hi.
  destruct (slot_exists t n i Hl Hi) as [c Hc]. pose proof Hc as [_ Hc']%zget_lookup.
  set (t0 := <[Z.to_nat i := []]> t). exists c, (concat t0).
  assert (forall c', concat (<[Z.to_nat i := c']> t) ≡ₚ c' ++ concat t0) as Hrep.
  { intros c'. unfold t0. rewrite (concat_slot _ _ c c') by done.
    by rewrite (concat_slot _ _ c []) by done. }
  split; [done|]. split. { by rewrite <- (Hrep c), list_insert_id. }
  split; [|split; [by apply Hp|]].
  - intros (e & -> & He)%list_elem_of_fmap.
    destruct (in_chain t0 (2 ^ n - 1) e) as (c0 & Hc0 & He0); [|done|].
    + apply placed_insert; [done|constructor|lia].
    + fold i in Hc0. apply zget_lookup in Hc0 as [_ Hc0]. unfold t0 in Hc0.
      rewrite list_lookup_insert_eq in Hc0 by (by eapply lookup_lt_Some).
      injection Hc0 as <-. by apply not_elem_of_nil in He0.
  - intros c' Hf. exists (<[Z.to_nat i := c']> t). unfold set_slot. simpl. rewrite Hc.
    split; [done|]. split; [|apply Hrep].
    split; [unfold zlen in *; by rewrite length_insert|]. apply placed_insert; [done..|lia].
Qed.

Lemma chain_find_spec key c :
  match chain_find ty key c with
  | Some e => exists c0, c ≡ₚ e :: c0 /\ e.1 = key
  | None => key ∉ c.*1
  end.
Proof.
  induction c as [|[k v] c IH]; simpl; [apply not_elem_of_nil|].
  rewrite Hcmp. case_bool_decide as E; [exists c; split; [done|by rewrite E]|].
  destruct (chain_find ty key c) as [e|].
  - destruct IH as (c0 & Hc & He). exists ((k, v) :: c0). split; [|done].
    rewrite Hc. apply Permutation_swap.
  - rewrite not_elem_of_cons. by split.
Qed.

Lemma chain_set_spec key v c :
  match chain_set ty key v c with
  | Some (c', old) => exists c0, c ≡ₚ (key, old) :: c0 /\ c' ≡ₚ (key, v) :: c0
  | None => key ∉ c.*1
  end.
Proof.
  induction c as [|[k w] c IH]; simpl; [apply not_elem_of_nil|].
  rewrite Hcmp. case_bool_decide as E; [subst k; by exists c|].
  destruct (chain_set ty key v c) as [[c' old]|]; simpl.
  - destruct IH as (c0 & Hc & Hc'). exists ((k, w) :: c0). rewrite Hc, Hc'.
    split; apply Permutation_swap.
  - rewrite not_elem_of_cons. by split.
Qed.

Lemma chain_delete_spec key c :
  match chain_delete ty key c with
  | Some (c', e) => c ≡ₚ e :: c' /\ e.1 = key
  | None => key ∉ c.*1
  end.
Proof.
  induction c as [|[k w] c IH]; simpl; [apply not_elem_of_nil|].
  rewrite Hcmp. case_bool_decide as E; [by subst k|].
  destruct (chain_delete ty key c) as [[c' e]|]; simpl.
  - destruct IH as (Hc & He). split; [|done]. rewrite Hc. apply Permutation_swap.
  - rewrite not_elem_of_cons. by split.
Qed.

Lemma same_slot_perm (f : K -> Z) i c c' :
  Forall (fun e : K * V => f e.1 = i) c -> c ≡ₚ c' -> Forall (fun e => f e.1 = i) c'.
Proof. intros Hf Hp. by rewrite <- Hp. Qed.

(** ** Lookup *)

(** [dictFind] is the lookup of the map. *)
Lemma dictFind_spec ht key :
  dict_wf ht -> exists r, dictFind ty ht key = Some r /\
    dict_map ht !! key = snd <$> r /\ forall e, r = Some e -> e.1 = key.
Proof.
  intros Hw. unfold dictFind. destruct (wf_cases _ Hw) as [->|(n & t & Hn & E & Ht & Hnd & _)].
  { exists None. done. }
  rewrite E. simpl. pose proof (pow2_bounds n Hn). rewrite (proj2 (Z.eqb_neq _ _)) by lia.
  destruct (key_chain t n key Hn Ht) as (c & rest & -> & Hc & Hr & _).
  exists (chain_find ty key c). split; [done|].
  rewrite Hc in Hnd. rewrite (dict_map_perm _ (c ++ rest)) by done.
  pose proof (chain_find_spec key c) as Hf. destruct (chain_find ty key c) as [e|].
  - destruct Hf as (c0 & Hc0 & He). split; [|by intros ? [= <-]]. simpl.
    apply elem_of_list_to_map_1; [done|]. rewrite Hc0, <- He. destruct e. simpl. left.
  - split; [|done]. apply not_elem_of_list_to_map_1. rewrite fmap_app, elem_of_app. tauto.
Qed.

(** ** Updates *)

Lemma dictAdd_spec ht key v a :
  dict_wf ht -> zlen (entries ht) < 2 ^ 30 ->
  exists ht' a', dict_wf ht' /\ match dict_map ht !! key with
  | Some _ => dictAdd ty ht key v a = Some (DICT_ERR, ht', a') /\ (entries ht' ≡ₚ entries ht) /\
      exists n t, in_use ht' n t
  | None => dictAdd ty ht key v a = Some (DICT_OK, ht', a') /\ entries ht' ≡ₚ (key, v) :: entries ht
  end.
Proof.
  intros Hw Hs. pose proof (wf_nodup _ Hw) as Hnd0.
  destruct (expandIfNeeded_spec ht a Hw Hs) as (ht1 & a1 & n & t & E1 & Hu & Hlt & Hc1).
  pose proof Hu as (Hn & E & Ht & Hnd & _). pose proof (pow2_bounds n Hn).
  pose proof (key_slot_range key n Hn) as Hi.
  destruct (key_chain t n key Hn Ht) as (c & rest & Hslot & Hc & Hr & Hcs & Hset).
  assert (dict_map ht = list_to_map (c ++ rest)) as ->.
  { apply dict_map_perm; [by rewrite <- Hc1|]. by rewrite Hc in Hnd. }
  unfold dictAdd, _dictKeyIndex. rewrite E1. cbn [mbind option_bind]. rewrite E.
  change (DICT_OK =? DICT_ERR) with false. cbn [d_table d_sizemask d_size d_used].
  rewrite Hslot.
  cbn [mbind option_bind]. rewrite Hc in Hnd.
  pose proof (chain_find_spec key c) as Hf. destruct (chain_find ty key c) as [e|].
  - exists ht1, a1. split; [by eapply in_use_wf|]. destruct Hf as (c0 & Hc0 & He).
    rewrite (elem_of_list_to_map_1 _ key e.2); [|done|rewrite Hc0, <- He; destruct e; simpl; left].
    rewrite <- E. split; [done|]. split; [|by exists n, t]. by rewrite E.
  - rewrite not_elem_of_list_to_map_1 by (rewrite fmap_app, elem_of_app; tauto).
    rewrite s32_small by width_lia. cbn [mbind option_bind d_table d_size d_sizemask d_used].
    rewrite (proj2 (Z.eqb_neq _ _)) by lia. rewrite Hslot. cbn [mbind option_bind].
    rewrite Hdup_key, Hdup_val. destruct (Hset ((key, v) :: c)) as (t' & -> & Ht' & Hc').
    { by constructor. }
    cbn [mbind option_bind]. eexists _, a1. split; [|split; [done|]].
    + assert (zlen (concat t') = zlen (concat t) + 1) as Hlen.
      { unfold zlen. rewrite Hc', Hc. simpl. lia. }
      pose proof (zlen_nonneg (concat t)).
      right. exists n, t'. split; [done|]. rewrite Hlen, long_small by lia.
      split; [done|]. split; [done|]. split; [|lia].
      rewrite Hc'. simpl. constructor; [|done]. rewrite fmap_app, elem_of_app. tauto.
    + unfold entries at 1. simpl. rewrite Hc', <- Hc1, Hc. done.
Qed.

Lemma dict_map_cons ht ht' key v :
  entries ht' ≡ₚ (key, v) :: entries ht -> dict_wf ht' ->
  dict_map ht' = <[key := v]> (dict_map ht) /\ dict_map ht !! key = None.
Proof.
  intros Hp Hw. pose proof (wf_nodup _ Hw) as Hnd. rewrite Hp in Hnd.
  rewrite (dict_map_perm ht' ((key, v) :: entries ht)) by done. split; [done|].
  apply not_elem_of_list_to_map_1. simpl in Hnd. by apply NoDup_cons in Hnd as [? _].
Qed.

(** The value of an entry that is there. *)
Lemma update_spec ht key v old :
  dict_wf ht -> dict_map ht !! key = Some old ->
  exists c c' tb, (d_size ht =? 0) = false /\
    slot (d_table ht) (key_slot ty key (d_sizemask ht)) = Some c /\ chain_set ty key v c = Some (c', old) /\
    set_slot (d_table ht) (key_slot ty key (d_sizemask ht)) c' = Some tb /\
    dict_wf (Dict tb (d_size ht) (d_sizemask ht) (d_used ht)) /\
    dict_map (Dict tb (d_size ht) (d_sizemask ht) (d_used ht)) = <[key := v]> (dict_map ht).
Proof.
  intros Hw Hm. destruct (wf_cases _ Hw) as [->|(n & t & Hn & E & Ht & Hnd & Hle)]; [done|].
  pose proof (pow2_bounds n Hn). rewrite E in Hm |- *. cbn [d_size d_sizemask d_table d_used].
  destruct (key_chain t n key Hn Ht) as (c & rest & Hs & Hc & Hr & Hcs & Hset).
  pose proof Hnd as Hnd'. rewrite Hc in Hnd'. rewrite (dict_map_perm _ (c ++ rest)) in Hm |- * by done.
  pose proof (chain_set_spec key v c) as Hcset. destruct (chain_set ty key v c) as [[c' o]|] eqn:Ec.
  2: { rewrite not_elem_of_list_to_map_1 in Hm; [done|]. rewrite fmap_app, elem_of_app. tauto. }
  destruct Hcset as (c0 & Hc0 & Hc0'). destruct (Hset c') as (t' & Est & Ht' & Hc').
  { rewrite Hc0'. rewrite Hc0 in Hcs. inversion Hcs. by constructor. }
  rewrite Hc0 in Hnd'. simpl in Hnd'.
  assert (list_to_map (M := gmap K V) (c ++ rest) = list_to_map ((key, o) :: c0 ++ rest)) as Hl0.
  { apply list_to_map_proper; [|by rewrite Hc0]. by rewrite Hc0. }
  rewrite Hl0 in Hm |- *. simpl in Hm |- *. rewrite lookup_insert_eq in Hm. injection Hm as ->.
  assert (concat t' ≡ₚ (key, v) :: c0 ++ rest) as Hct by by rewrite Hc', Hc0'.
  assert (zlen (concat t') = zlen (concat t)) as Hlen.
  { unfold zlen. rewrite Hct, Hc, Hc0. done. }
  exists c, c', (Some t'). split; [lia|]. split; [done|]. split; [done|]. split; [done|]. split.
  - right. exists n, t'. rewrite Hlen. split; [done|]. split; [done|]. split; [done|].
    split; [by rewrite Hct|lia].
  - rewrite (dict_map_perm _ ((key, v) :: c0 ++ rest)) by done. simpl. by rewrite insert_insert_eq.
Qed.

Lemma dictReplace_spec ht key v a :
  dict_wf ht -> zlen (entries ht) < 2 ^ 30 ->
  exists ht' a', dict_wf ht' /\ dict_map ht' = <[key := v]> (dict_map ht) /\
    dictReplace ty ht key v a = Some (match dict_map ht !! key with
      | Some old => (0, ht', free_val ty old, a')
      | None => (1, ht', [], a')
      end).
Proof.
  intros Hw Hs. destruct (dictAdd_spec ht key v a Hw Hs) as (ht1 & a1 & Hw1 & Hadd).
  unfold dictReplace. destruct (dict_map ht !! key) as [old|] eqn:Hm.
  - destruct Hadd as (-> & Hp & _). cbn [mbind option_bind]. change (DICT_ERR =? DICT_OK) with false.
    assert (dict_map ht1 = dict_map ht) as Hsame by (apply dict_map_perm; [done|by apply wf_nodup]).
    rewrite <- Hsame in Hm |- *. rewrite Hdup_val.
    destruct (update_spec ht1 key v old Hw1 Hm) as (c & c' & tb & -> & -> & E1 & E2 & Hw' & Hm').
    cbn [mbind option_bind]. rewrite E1. cbn [mbind option_bind fst snd]. rewrite E2.
    cbn [mbind option_bind]. by eexists _, a1.
  - destruct Hadd as [-> Hp]. exists ht1, a1. split; [done|]. split; [|done].
    by apply dict_map_cons.
Qed.

Lemma dictDelete_spec ht key :
  dict_wf ht ->
  match dict_map ht !! key with
  | None => dictDelete ty ht key = Some (DICT_ERR, ht, [])
  | Some v => exists ht',
      dictDelete ty ht key = Some (DICT_OK, ht', free_key ty key ++ free_val ty v) /\
      dict_wf ht' /\ dict_map ht' = delete key (dict_map ht)
  end.
Proof.
  intros Hw. unfold dictDelete. destruct (wf_cases _ Hw) as [->|(n & t & Hn & E & Ht & Hnd & Hle)].
  { done. }
  rewrite E. cbn [d_size d_sizemask d_table d_used]. pose proof (pow2_bounds n Hn).
  rewrite (proj2 (Z.eqb_neq _ _)) by lia.
  destruct (key_chain t n key Hn Ht) as (c & rest & -> & Hc & Hr & Hcs & Hset).
  cbn [mbind option_bind]. pose proof Hnd as Hnd'. rewrite Hc in Hnd'.
  rewrite (dict_map_perm _ (c ++ rest)) by done.
  pose proof (chain_delete_spec key c) as Hdel. destruct (chain_delete ty key c) as [[c' [k v]]|].
  2: { rewrite not_elem_of_list_to_map_1; [done|]. rewrite fmap_app, elem_of_app. tauto. }
  destruct Hdel as [Hc0 [= ->]]. rewrite Hc0 in Hnd'. simpl in Hnd'.
  rewrite (list_to_map_proper (c ++ rest) ((key, v) :: c' ++ rest)) by by rewrite Hc0.
  cbn [list_to_map fst snd]. simpl. rewrite lookup_insert_eq.
  apply NoDup_cons in Hnd' as [Hnk Hnd'].
  destruct (Hset c') as (t' & -> & Ht' & Hc').
  { rewrite Hc0 in Hcs. by inversion Hcs. }
  simpl. assert (zlen (concat t) = zlen (concat t') + 1) as Hlen.
  { unfold zlen. rewrite Hc', Hc, Hc0. simpl. lia. }
  pose proof (zlen_nonneg (concat t')).
  eexists. split; [done|]. rewrite long_small by lia. split.
  - right. exists n, t'. rewrite Hlen. split; [done|]. split; [f_equal; lia|]. split; [done|].
    split; [by rewrite Hc'|lia].
  - rewrite (dict_map_perm _ (c' ++ rest)) by done.
    by rewrite delete_insert_id by by apply not_elem_of_list_to_map_1.
Qed.

(** ** Release *)

Definition entry_events (e : K * V) : list event := free_key ty e.1 ++ free_val ty e.2.

Lemma clear_chain_spec he used :
  zlen he <= used < 2147483648 ->
  clear_chain ty he used = (he ≫= entry_events, used - zlen he).
Proof.
  revert used. induction he as [|e he IH]; intros used Hu; simpl.
  { by rewrite zlen_nil, Z.sub_0_r. }
  rewrite zlen_cons in *. pose proof (zlen_nonneg he). rewrite long_small, IH by lia. simpl.
  unfold entry_events. rewrite <- (assoc_L (++)). f_equal. lia.
Qed.

Lemma clear_loop_spec t size mask u fuel i used :
  zlen t = size -> 0 <= i <= size -> (Z.to_nat (size - i) < fuel)%nat ->
  used = zlen (concat (zdrop i t)) -> used < 2147483648 ->
  clear_loop ty fuel i (Dict (Some t) size mask u) used = Some (concat (zdrop i t) ≫= entry_events).
Proof.
  intros Hl. revert i used. induction fuel as [|f IH]; intros i used Hi Hf Hu Hb; [lia|].
  simpl. destruct (Z.ltb_spec i size); simpl.
  2: { by rewrite zdrop_all by lia. }
  destruct (Z.ltb_spec 0 used).
  - destruct (zget_is_Some t i) as [he Hhe]; [lia|]. unfold slot. simpl. rewrite Hhe. simpl.
    rewrite (zdrop_cons _ _ _ Hhe) in Hu |- *. simpl in Hu |- *. rewrite zlen_app in Hu.
    pose proof (zlen_nonneg he). pose proof (zlen_nonneg (concat (zdrop (i + 1) t))).
    rewrite clear_chain_spec by lia. simpl. rewrite IH by lia. simpl. by rewrite bind_app.
  - pose proof (zlen_nonneg (concat (zdrop i t))).
    assert (concat (zdrop i t) = []) as -> by (apply zlen_0_nil; lia). done.
Qed.

(** Clearing destroys every key and value once, and empties the table. *)
Lemma dictClear_spec ht :
  dict_wf ht -> _dictClear ty ht = Some (DICT_OK, _dictReset, entries ht ≫= entry_events).
Proof.
  intros Hw. unfold _dictClear. destruct (wf_cases _ Hw) as [->|(n & t & Hn & E & [Hl _] & _ & Hle)].
  { done. }
  rewrite E. pose proof (pow2_bounds n Hn). cbn [d_size d_used].
  rewrite clear_loop_spec; [done|lia|lia|lia|done|lia].
Qed.

(** ** Iteration *)

Definition remaining t (iter : dictIterator) : list (K * V) :=
  match it_entry iter with
  | [] => concat (zdrop (it_index iter + 1) t)
  | _ => it_next iter ++ concat (zdrop (it_index iter + 1) t)
  end.

Lemma next_loop_spec t n used fuel iter :
  2 <= n <= 30 -> zlen t = 2 ^ n -> -1 <= it_index iter < 2 ^ n ->
  (Z.to_nat (2 ^ n - it_index iter) + (if it_entry iter is [] then 0 else 1) < fuel)%nat ->
  exists r iter', next_loop fuel (Dict (Some t) (2 ^ n) (2 ^ n - 1) used) iter = Some (r, iter') /\
    match remaining t iter with
    | [] => r = None
    | e :: es => r = Some e /\ remaining t iter' = es /\ -1 <= it_index iter' < 2 ^ n
    end.
Proof.
  intros Hn Hl. pose proof (pow2_bounds n Hn) as Hb.
  revert iter. induction fuel as [|f IH]; intros [i en nx] Hi Hf; simpl in Hi, Hf; [lia|].
  unfold remaining at 1. simpl. destruct en as [|e0 en].
  - rewrite !s32_small by width_lia. destruct (Z.leb_spec (2 ^ n) (i + 1)).
    { rewrite zdrop_all by lia. do 2 eexists. split; done. }
    destruct (zget_is_Some t (i + 1)) as [c Hc]; [lia|]. unfold slot. simpl. rewrite Hc. simpl.
    rewrite (zdrop_cons _ _ _ Hc). simpl. destruct c as [|e c]; simpl.
    + apply (IH (Iterator (i + 1) [] nx)); simpl; lia.
    + do 2 eexists. split; [done|]. split; [done|]. split; [done|]. simpl. lia.
  - destruct nx as [|e nx]; simpl.
    + apply (IH (Iterator i [] [])); simpl; lia.
    + do 2 eexists. split; [done|]. split; [done|]. split; [done|]. simpl. lia.
Qed.

Lemma iterate_from t n used fuel iter :
  2 <= n <= 30 -> zlen t = 2 ^ n -> -1 <= it_index iter < 2 ^ n ->
  (length (remaining t iter) < fuel)%nat ->
  iterate fuel (Dict (Some t) (2 ^ n) (2 ^ n - 1) used) iter = Some (remaining t iter).
Proof.
  intros Hn Hl. revert iter. induction fuel as [|f IH]; intros iter Hi Hf; [lia|]. simpl.
  unfold dictNext. destruct (next_loop_spec t n used
    (S (S (S (Z.to_nat (2 ^ n))))) iter Hn Hl Hi) as (r & it' & E & Hr).
  { destruct (it_entry iter); lia. }
  cbn [d_size]. rewrite E. cbn [mbind option_bind fst snd].
  destruct (remaining t iter) as [|e es]; [by subst r|].
  destruct Hr as (-> & Hes & Hi'). simpl in Hf. rewrite IH by (rewrite ?Hes; try done; lia).
  by rewrite Hes.
Qed.

(** Iterating meets every entry once. *)
Lemma iterate_spec ht fuel :
  dict_wf ht -> (length (entries ht) < fuel)%nat ->
  iterate fuel ht dictGetIterator = Some (entries ht).
Proof.
  intros Hw Hf. destruct (wf_cases _ Hw) as [->|(n & t & Hn & E & [Hl _] & _ & _)].
  { by destruct fuel; [lia|]. }
  rewrite E in Hf |- *. pose proof (pow2_bounds n Hn). unfold entries in *.
  apply (iterate_from t n (zlen (concat t)) fuel dictGetIterator); simpl; [done..|lia|done].
Qed.

End dict.
