(* ===== verification/DictTheorems.v ===== *)
(** * The theorems about the hash table

    Any sequence of operations on a new table is the same sequence on a finite
    map; what iteration and release meet; and the table of the asynchronous
    client's kind, with byte strings as keys. *)

From Stdlib Require Import Strings.Byte String.
From stdpp Require Import gmap.
From S2P Require Import Prelude CLib Buffer Read Concrete Dict DictFacts.

(** ** Sequences of operations *)

Section ops.
Context {al : Allocator} {dm : DataModel} {K V : Type} `{!EqDecision K, !Countable K}.
Variable ty : dictType (K := K) (V := V).

Inductive dict_op :=
  | OpAdd (k : K) (v : V)
  | OpReplace (k : K) (v : V)
  | OpDelete (k : K)
  | OpFind (k : K).

Inductive op_result :=
  | Status (s : Z)
  | Found (v : option V).

#[local] Abbreviation table := (dict (K := K) (V := V)).
#[local] Abbreviation events := (list (event (K := K) (V := V))).

Definition run_op (ht : table) (o : dict_op) (a : nat) : option (op_result * events * table * nat) :=
  match o with
  | OpAdd k v => r ← dictAdd ty ht k v a; let '(s, ht, a) := r in Some (Status s, [], ht, a)
  | OpReplace k v =>
      r ← dictReplace ty ht k v a; let '(s, ht, evs, a) := r in Some (Status s, evs, ht, a)
  | OpDelete k => r ← dictDelete ty ht k; let '(s, ht, evs) := r in Some (Status s, evs, ht, a)
  | OpFind k => r ← dictFind ty ht k; Some (Found (snd <$> r), [], ht, a)
  end.

Fixpoint run_ops (ht : table) (os : list dict_op) (a : nat) :
    option (list op_result * events * table * nat) :=
  match os with
  | [] => Some ([], [], ht, a)
  | o :: os =>
      x ← run_op ht o a; let '(r, evs, ht, a) := x in
      y ← run_ops ht os a; let '(rs, evs', ht, a) := y in
      Some (r :: rs, evs ++ evs', ht, a)
  end.

(** The same on a finite map. *)
Definition map_op (m : gmap K V) (o : dict_op) : op_result * events * gmap K V :=
  match o with
  | OpAdd k v => match m !! k with
                 | None => (Status DICT_OK, [], <[k := v]> m)
                 | Some _ => (Status DICT_ERR, [], m)
                 end
  | OpReplace k v => match m !! k with
                     | None => (Status 1, [], <[k := v]> m)
                     | Some old => (Status 0, free_val ty old, <[k := v]> m)
                     end
  | OpDelete k => match m !! k with
                  | None => (Status DICT_ERR, [], m)
                  | Some old => (Status DICT_OK, free_key ty k ++ free_val ty old, delete k m)
                  end
  | OpFind k => (Found (m !! k), [], m)
  end.

Fixpoint map_ops (m : gmap K V) (os : list dict_op) : list op_result * events * gmap K V :=
  match os with
  | [] => ([], [], m)
  | o :: os =>
      let '(r, evs, m) := map_op m o in
      let '(rs, evs', m) := map_ops m os in (r :: rs, evs ++ evs', m)
  end.

Hypothesis Hcmp : forall k1 k2, dictCompareHashKeys ty k1 k2 = bool_decide (k1 = k2).
Hypothesis Hdup_key : forall k, dup_key ty k = k.
Hypothesis Hdup_val : forall v, dup_val ty v = v.
Hypothesis Hal : alloc_total al.
Hypothesis Hlong : long_bits = 32 \/ long_bits = 64.

Lemma entries_size ht : dict_wf ty ht -> zlen (entries ht) = Z.of_nat (size (dict_map ht)).
Proof.
  intros Hw. unfold dict_map, zlen. f_equal. symmetry. by apply map_size_list_to_map, (wf_nodup ty).
Qed.

Lemma map_op_size m o : (size (map_op m o).2 <= S (size m))%nat.
Proof.
  destruct o as [k v|k v|k|k]; simpl; try (destruct (m !! k) eqn:E; simpl); try lia.
  - rewrite map_size_insert, E. simpl. lia.
  - rewrite map_size_insert, E. simpl. lia.
  - rewrite map_size_insert, E. simpl. lia.
  - rewrite map_size_delete, E. simpl. lia.
Qed.

Lemma run_op_refines ht o a :
  dict_wf ty ht -> Z.of_nat (size (dict_map ht)) < 2 ^ 30 ->
  exists ht' a', run_op ht o a = Some ((map_op (dict_map ht) o).1.1, (map_op (dict_map ht) o).1.2, ht', a') /\
    dict_wf ty ht' /\ dict_map ht' = (map_op (dict_map ht) o).2.
Proof.
  intros Hw Hs. rewrite <- entries_size in Hs by done. destruct o as [k v|k v|k|k]; simpl.
  - destruct (dictAdd_spec ty Hcmp Hdup_key Hdup_val Hal Hlong ht k v a Hw Hs) as (ht' & a' & Hw' & H).
    destruct (dict_map ht !! k) as [old|].
    + destruct H as (-> & Hp & _). exists ht', a'. split; [done|]. split; [done|].
      simpl. by apply (dict_map_perm ht'), (wf_nodup ty).
    + destruct H as (-> & Hp). exists ht', a'. split; [done|]. split; [done|].
      by apply (dict_map_cons ty).
  - destruct (dictReplace_spec ty Hcmp Hdup_key Hdup_val Hal Hlong ht k v a Hw Hs)
      as (ht' & a' & Hw' & Hm & ->). exists ht', a'. rewrite Hm. by destruct (dict_map ht !! k).
  - pose proof (dictDelete_spec ty Hcmp Hlong ht k Hw) as H.
    destruct (dict_map ht !! k) as [old|]; [|rewrite H; by exists ht, a].
    destruct H as (ht' & -> & Hw' & Hm). by exists ht', a.
  - destruct (dictFind_spec ty Hcmp Hlong ht k Hw) as (r & -> & Hm & _). exists ht, a. by rewrite Hm.
Qed.

Lemma run_ops_refines ht os a :
  dict_wf ty ht -> Z.of_nat (size (dict_map ht)) + zlen os <= 2 ^ 30 ->
  exists ht' a', run_ops ht os a = Some ((map_ops (dict_map ht) os).1.1, (map_ops (dict_map ht) os).1.2, ht', a') /\
    dict_wf ty ht' /\ dict_map ht' = (map_ops (dict_map ht) os).2.
Proof.
  revert ht a. induction os as [|o os IH]; intros ht a Hw Hs; cbn [run_ops map_ops].
  { by exists ht, a. }
  rewrite zlen_cons in Hs. pose proof (zlen_nonneg os).
  destruct (run_op_refines ht o a Hw) as (ht1 & a1 & -> & Hw1 & Hm1); [lia|].
  pose proof (map_op_size (dict_map ht) o) as Hsz. cbn [mbind option_bind].
  destruct (map_op (dict_map ht) o) as [[r evs] m]. simpl in *. subst m.
  destruct (IH ht1 a1 Hw1) as (ht2 & a2 & -> & Hw2 & Hm2); [lia|].
  destruct (map_ops (dict_map ht1) os) as [[rs evs'] m2]. simpl in *. by exists ht2, a2.
Qed.

Lemma release_spec ht :
  dict_wf ty ht -> dictRelease ty ht = Some (entries ht ≫= entry_events ty).
Proof. intros Hw. unfold dictRelease. by rewrite (dictClear_spec ty Hlong). Qed.

End ops.
Arguments dict_op : clear implicits.
Arguments op_result : clear implicits.

(** A table of byte strings, with copies and destructors. *)
Definition string_dict : dictType (K := bytes) (V := Z) := {|
  hashFunction := dictGenHashFunction;
  keyDup := Some id;
  valDup := None;
  keyCompare := Some (fun a b => bool_decide (a = b));
  keyDestructor := true;
  valDestructor := true
|}.

Definition example_ops : list (dict_op bytes Z) :=
  [OpAdd (bs "a") 1; OpAdd (bs "b") 2; OpAdd (bs "a") 3; OpReplace (bs "a") 4; OpAdd (bs "c") 5;
   OpAdd (bs "d") 6; OpAdd (bs "e") 7; OpDelete (bs "b"); OpFind (bs "a"); OpFind (bs "b")].

(** C32: Any sequence of additions, replacements, deletions and lookups on a
    new table gives the results it gives on a finite map, destroys the same
    keys and values, and leaves a well-formed table that holds that map, across
    all growths of the table. *)
Theorem dict_is_map (al : Allocator) (dm : DataModel) K V `{!EqDecision K, !Countable K}
    (ty : dictType (K := K) (V := V)) os a :
  (forall k1 k2, dictCompareHashKeys ty k1 k2 = bool_decide (k1 = k2)) ->
  (forall k, dup_key ty k = k) -> (forall v, dup_val ty v = v) ->
  alloc_total al -> long_bits = 32 \/ long_bits = 64 -> zlen os <= 2 ^ 30 ->
  exists results events ht a', run_ops ty dictCreate os a = Some (results, events, ht, a') /\
    map_ops ty ∅ os = (results, events, dict_map ht) /\ dict_wf ty ht.
Proof.
  intros Hcmp Hk Hv Hal Hlong Hn.
  destruct (run_ops_refines ty Hcmp Hk Hv Hal Hlong dictCreate os a) as (ht & a' & E & Hw & Hm).
  { by left. } { change (dict_map dictCreate) with (∅ : gmap K V). rewrite map_size_empty. lia. }
  change (dict_map dictCreate) with (∅ : gmap K V) in *. exists (map_ops ty ∅ os).1.1, (map_ops ty ∅ os).1.2, ht, a'.
  rewrite Hm. split; [done|]. split; [|done]. by destruct (map_ops ty ∅ os) as [[? ?] ?].
Qed.

Lemma dict_is_map_witness :
  exists results events ht a',
    run_ops (al := always_alloc) (dm := lp64) string_dict dictCreate example_ops 0
      = Some (results, events, ht, a') /\
    map_ops string_dict ∅ example_ops = (results, events, dict_map ht) /\ dict_wf string_dict ht.
Proof.
  apply (dict_is_map always_alloc lp64).
  - reflexivity.
  - reflexivity.
  - reflexivity.
  - exact always_total.
  - right. reflexivity.
  - vm_compute. discriminate.
Defined.

(** Iterating over a well-formed table returns every entry of its map,
    once, and then [NULL]. *)
Theorem dict_iteration (dm : DataModel) K V `{!EqDecision K, !Countable K}
    (ty : dictType (K := K) (V := V)) ht fuel :
  dict_wf ty ht -> (size (dict_map ht) < fuel)%nat ->
  exists es, iterate fuel ht dictGetIterator = Some es /\ es ≡ₚ map_to_list (dict_map ht).
Proof.
  intros Hw Hf. exists (entries ht). split.
  - apply (iterate_spec ty); [done|]. pose proof (entries_size ty ht Hw). unfold zlen in *. lia.
  - symmetry. by apply map_to_list_to_map, (wf_nodup ty).
Qed.

Lemma dict_iteration_witness :
  let ht := Dict (Some [[]; [(bs "a", 1); (bs "b", 2)]; []; []]) 4 3 2 in
  exists es, iterate 10 ht dictGetIterator = Some es /\ es ≡ₚ map_to_list (dict_map ht).
Proof.
  intros ht.
  apply (dict_iteration lp64 bytes Z (DictType (fun _ => 1) None None None false false)).
  - right. exists 2, [[]; [(bs "a", 1); (bs "b", 2)]; []; []].
    split; [lia|]. split; [reflexivity|]. split; [|split].
    + split; [reflexivity|]. intros i c Hc.
      assert (i = 0 \/ i = 1 \/ i = 2 \/ i = 3) as Hi by (apply zget_Some in Hc; change (zlen _) with 4 in Hc; lia).
      destruct Hi as [->|[->|[->| ->]]]; vm_compute in Hc; injection Hc as <-;
        repeat constructor; reflexivity.
    + vm_compute. repeat constructor; set_solver.
    + vm_compute. discriminate.
  - vm_compute. lia.
Defined.

(** Releasing a well-formed table destroys every key and every value in it
    once. *)
Theorem dict_release (dm : DataModel) K V `{!EqDecision K, !Countable K}
    (ty : dictType (K := K) (V := V)) ht :
  long_bits = 32 \/ long_bits = 64 -> dict_wf ty ht ->
  exists evs, dictRelease ty ht = Some evs /\
    evs ≡ₚ map_to_list (dict_map ht) ≫= entry_events ty.
Proof.
  intros Hlong Hw. exists (entries ht ≫= entry_events ty). split; [by apply release_spec|].
  apply bind_Permutation. symmetry. by apply map_to_list_to_map, (wf_nodup ty).
Qed.

Lemma dict_release_witness :
  exists evs, dictRelease (dm := lp64) string_dict _dictReset = Some evs /\
    evs ≡ₚ map_to_list (dict_map (_dictReset : dict)) ≫= entry_events string_dict.
Proof. apply (dict_release lp64); [right; reflexivity|left; reflexivity]. Defined.

(** [dictExpand] to a power of two that holds the entries succeeds, with
    every entry moved to the chain of its key in the new table. *)
Theorem dict_growth (al : Allocator) (dm : DataModel) K V `{!EqDecision K, !Countable K}
    (ty : dictType (K := K) (V := V)) ht n a :
  alloc_total al -> long_bits = 32 \/ long_bits = 64 ->
  dict_wf ty ht -> 2 <= n <= 30 -> zlen (entries ht) <= 2 ^ n ->
  exists t a', dictExpand ty ht (2 ^ n) a
      = Some (DICT_OK, Dict (Some t) (2 ^ n) (2 ^ n - 1) (d_used ht), a') /\
    zlen t = 2 ^ n /\ concat t ≡ₚ entries ht /\
    forall i c, zget t i = Some c -> Forall (fun e => key_slot ty e.1 (2 ^ n - 1) = i) c.
Proof.
  intros Hal Hlong Hw Hn Hl.
  destruct (dictExpand_spec ty Hal Hlong ht n a Hw Hn Hl) as (t & a' & -> & [Ht Hp] & Hc).
  exists t, a'. split; [|done]. rewrite (wf_used ty ht Hw). unfold zlen. by rewrite Hc.
Qed.

Lemma dict_growth_witness :
  exists t a', dictExpand (al := always_alloc) (dm := lp64) string_dict _dictReset (2 ^ 3) 0
      = Some (DICT_OK, Dict (Some t) (2 ^ 3) (2 ^ 3 - 1) 0, a') /\
    zlen t = 2 ^ 3 /\ concat t ≡ₚ entries _dictReset /\
    forall i c, zget t i = Some c -> Forall (fun e => key_slot string_dict e.1 (2 ^ 3 - 1) = i) c.
Proof.
  apply (dict_growth always_alloc lp64 bytes Z string_dict _dictReset 3).
  - exact always_total.
  - right. reflexivity.
  - left. reflexivity.
  - lia.
  - vm_compute. discriminate.
Defined.
