(* ===== verification/Network.v ===== *)
(** * The environment of a connection

    The system calls net.c makes, as an interface: a state [N] of the network
    and of the calling thread's [errno], and one function per call.  The record
    of a connection ([redisContext]), and the monad of the code that reads and
    changes it: a computation takes the context and the environment (the
    allocation counter, the reply objects, the network) and returns [None] for
    undefined behaviour or a call of [abort]. *)

From Stdlib Require Import Strings.Byte String.
From S2P Require Import Prelude CLib Buffer Sds SdsEdit Read Reply.

(** ** System calls *)

(** Error numbers and flags, as on Linux. *)
Definition EINTR : Z := 4.
Definition EWOULDBLOCK : Z := 11.
Definition EADDRNOTAVAIL : Z := 99.
Definition EISCONN : Z := 106.
Definition ETIMEDOUT : Z := 110.
Definition EHOSTUNREACH : Z := 113.
Definition EALREADY : Z := 114.
Definition EINPROGRESS : Z := 115.
Definition AF_UNIX : Z := 1.
Definition AF_INET : Z := 2.
Definition AF_INET6 : Z := 10.
Definition SOCK_STREAM : Z := 1.
Definition O_NONBLOCK : Z := 2048.

Record timeval := Timeval { tv_sec : Z; tv_usec : Z }.   (* both long *)

Record addrinfo := Addrinfo {
  ai_family : Z;
  ai_socktype : Z;
  ai_protocol : Z;
  ai_addr : bytes             (* ai_addrlen is its length *)
}.

(** The option a [setsockopt] sets, with its value. *)
Inductive sockopt :=
  | SO_REUSEADDR (on : Z)
  | SO_KEEPALIVE (on : Z)
  | TCP_KEEPIDLE (seconds : Z)
  | TCP_KEEPINTVL (seconds : Z)
  | TCP_KEEPCNT (count : Z)
  | TCP_NODELAY (on : Z)
  | SO_RCVTIMEO (tv : timeval)
  | SO_SNDTIMEO (tv : timeval).

(** A call returns what the function returns, with the data it fills in. *)
Class Network (N : Type) := {
  errno : N -> Z;
  set_errno : Z -> N -> N;
  sys_socket : Z -> Z -> Z -> N -> Z * N;
  sys_close : Z -> N -> N;
  sys_connect : Z -> bytes -> N -> Z * N;
  sys_bind : Z -> bytes -> N -> Z * N;
  sys_send : Z -> bytes -> N -> Z * N;
  sys_recv : Z -> Z -> N -> Z * bytes * N;
  sys_poll_out : Z -> Z -> N -> Z * N;
  sys_getfl : Z -> N -> Z * N;
  sys_setfl : Z -> Z -> N -> Z * N;
  sys_setsockopt : Z -> sockopt -> N -> Z * N;
  sys_so_error : Z -> N -> Z * Z * N;
  sys_getaddrinfo : option bytes -> option bytes -> Z -> N -> Z * list addrinfo * N;
  strerror : Z -> bytes;
  gai_strerror : Z -> bytes
}.

(** ** The connection *)

Definition REDIS_BLOCK : Z := 0x1.
Definition REDIS_CONNECTED : Z := 0x2.
Definition REDIS_REUSEADDR : Z := 0x80.
Definition REDIS_NO_AUTO_FREE : Z := 0x200.
Definition REDIS_KEEPALIVE_INTERVAL : Z := 15.
Definition REDIS_CONNECT_RETRIES : Z := 10.
Definition REDIS_INVALID_FD : Z := -1.

Inductive redisConnectionType := REDIS_CONN_TCP | REDIS_CONN_UNIX | REDIS_CONN_USERFD.

#[global] Instance connection_type_eq_dec : EqDecision redisConnectionType.
Proof. solve_decision. Defined.

(** A connection with the default function table; the table and [privdata] are
    for TLS.  Pointers that may be [NULL] are options. *)
Record redisContext := Context_ {
  c_err : Z;
  c_errstr : bytes;
  c_fd : Z;
  c_flags : Z;
  c_obuf : bufptr sds;
  c_reader : option (redisReader sds);
  c_connection_type : redisConnectionType;
  c_timeout : option timeval;
  c_host : option bytes;
  c_source_addr : option bytes;
  c_port : Z;
  c_path : option bytes;
  c_saddr : option bytes
}.

Definition with_fd fd c := Context_ (c_err c) (c_errstr c) fd (c_flags c) (c_obuf c) (c_reader c)
  (c_connection_type c) (c_timeout c) (c_host c) (c_source_addr c) (c_port c) (c_path c) (c_saddr c).
Definition with_flags f c := Context_ (c_err c) (c_errstr c) (c_fd c) f (c_obuf c) (c_reader c)
  (c_connection_type c) (c_timeout c) (c_host c) (c_source_addr c) (c_port c) (c_path c) (c_saddr c).
Definition with_obuf o c := Context_ (c_err c) (c_errstr c) (c_fd c) (c_flags c) o (c_reader c)
  (c_connection_type c) (c_timeout c) (c_host c) (c_source_addr c) (c_port c) (c_path c) (c_saddr c).
Definition with_reader r c := Context_ (c_err c) (c_errstr c) (c_fd c) (c_flags c) (c_obuf c) r
  (c_connection_type c) (c_timeout c) (c_host c) (c_source_addr c) (c_port c) (c_path c) (c_saddr c).
Definition with_error e s c := Context_ e s (c_fd c) (c_flags c) (c_obuf c) (c_reader c)
  (c_connection_type c) (c_timeout c) (c_host c) (c_source_addr c) (c_port c) (c_path c) (c_saddr c).
Definition with_timeout t c := Context_ (c_err c) (c_errstr c) (c_fd c) (c_flags c) (c_obuf c)
  (c_reader c) (c_connection_type c) t (c_host c) (c_source_addr c) (c_port c) (c_path c) (c_saddr c).
Definition with_tcp host src port c := Context_ (c_err c) (c_errstr c) (c_fd c) (c_flags c) (c_obuf c)
  (c_reader c) (c_connection_type c) (c_timeout c) host src port (c_path c) (c_saddr c).
Definition with_path p c := Context_ (c_err c) (c_errstr c) (c_fd c) (c_flags c) (c_obuf c)
  (c_reader c) (c_connection_type c) (c_timeout c) (c_host c) (c_source_addr c) (c_port c) p (c_saddr c).
Definition with_type t c := Context_ (c_err c) (c_errstr c) (c_fd c) (c_flags c) (c_obuf c)
  (c_reader c) t (c_timeout c) (c_host c) (c_source_addr c) (c_port c) (c_path c) (c_saddr c).
Definition with_saddr a c := Context_ (c_err c) (c_errstr c) (c_fd c) (c_flags c) (c_obuf c)
  (c_reader c) (c_connection_type c) (c_timeout c) (c_host c) (c_source_addr c) (c_port c) (c_path c) a.

Definition has_flag (f : Z) (c : redisContext) : bool := negb (Z.land (c_flags c) f =? 0).

(** ** Computations *)

Record env {fl : FloatLib} (N : Type) := Env { e_cnt : nat; e_heap : heap; e_net : N }.
Arguments Env {fl N}. Arguments e_cnt {fl N}. Arguments e_heap {fl N}. Arguments e_net {fl N}.

Definition state {fl : FloatLib} (N : Type) : Type := redisContext * env N.

Definition IO {fl : FloatLib} (N : Type) (A : Type) : Type := state N -> option (A * state N).

#[global] Instance io_ret {fl : FloatLib} N : MRet (IO N) := fun A x s => Some (x, s).
#[global] Instance io_bind {fl : FloatLib} N : MBind (IO N) :=
  fun A B k m s => match m s with Some (x, s) => k x s | None => None end.

Section io.
Context {al : Allocator} {fl : FloatLib} {N : Type} {nw : Network N}.
Implicit Types (s : state N).

(** Undefined behaviour, or a value. *)
Definition must_be {A} (m : option A) : IO N A := fun s => x ← m; Some (x, s).
Definition get_ctx : IO N redisContext := fun s => Some (s.1, s).
Definition upd_ctx (f : redisContext -> redisContext) : IO N unit := fun s => Some (tt, (f s.1, s.2)).

(** The value of a field. *)
Definition field {A} (f : redisContext -> A) : IO N A := fun s => Some (f s.1, s).

(** A call of the system, which leaves everything but the network as it is. *)
Definition sys {A} (f : N -> A * N) : IO N A := fun s =>
  let '(x, n) := f (e_net s.2) in Some (x, (s.1, Env (e_cnt s.2) (e_heap s.2) n)).

Definition get_errno : IO N Z := fun s => Some (errno (e_net s.2), s).

(** A computation on the allocation counter. *)
Definition with_cnt {A} (f : nat -> option (A * nat)) : IO N A := fun s =>
  r ← f (e_cnt s.2); Some (r.1, (s.1, Env r.2 (e_heap s.2) (e_net s.2))).

(** [hi_malloc], [hi_strdup]: they abort when there is no memory. *)
Definition hi_malloc (sz : Z) : IO N unit := fun s =>
  let '(ok, a) := malloc (e_cnt s.2) sz in
  if (ok : bool) then Some (tt, (s.1, Env a (e_heap s.2) (e_net s.2))) else None.
Definition hi_strdup (p : bytes) : IO N bytes :=
  hi_malloc (strlen p + 1) ≫= fun _ => mret (cstr p).

(** ** Reasoning *)

(** [m] runs without fault from [s], and [P] holds of its result. *)
Definition ends {A} (m : IO N A) s (P : A -> state N -> Prop) : Prop :=
  exists x s', m s = Some (x, s') /\ P x s'.

Lemma ends_ret {A} (x : A) s (P : A -> state N -> Prop) : P x s -> ends (mret x) s P.
Proof. intros. by exists x, s. Qed.

Lemma ends_bind {A B} (m : IO N A) (k : A -> IO N B) s P :
  ends m s (fun x s' => ends (k x) s' P) -> ends (m ≫= k) s P.
Proof.
  intros (x & s' & E & y & s2 & E2 & HP). exists y, s2. split; [|done].
  unfold mbind, io_bind. by rewrite E.
Qed.

Lemma ends_mono {A} (m : IO N A) s (P Q : A -> state N -> Prop) :
  ends m s P -> (forall x s', P x s' -> Q x s') -> ends m s Q.
Proof. intros (x & s' & E & HP) H. exists x, s'. auto. Qed.

Lemma ends_field {A} (f : redisContext -> A) s P : P (f s.1) s -> ends (field f) s P.
Proof. intros. by exists (f s.1), s. Qed.

Lemma ends_ctx s (P : redisContext -> state N -> Prop) : P s.1 s -> ends get_ctx s P.
Proof. intros. by eexists _, s. Qed.

Lemma ends_upd f s (P : unit -> state N -> Prop) : P tt (f s.1, s.2) -> ends (upd_ctx f) s P.
Proof. intros. by eexists tt, _. Qed.

Lemma ends_errno s (P : Z -> state N -> Prop) : P (errno (e_net s.2)) s -> ends get_errno s P.
Proof. intros. by eexists _, s. Qed.

Lemma ends_sys {A} (f : N -> A * N) s P :
  P (f (e_net s.2)).1 (s.1, Env (e_cnt s.2) (e_heap s.2) (f (e_net s.2)).2) -> ends (sys f) s P.
Proof. intros. unfold ends, sys. destruct (f (e_net s.2)) as [x n]. eauto. Qed.

Lemma ends_must {A} (m : option A) x s P : m = Some x -> P x s -> ends (must_be m) s P.
Proof. intros -> ?. by exists x, s. Qed.

Lemma ends_cnt {A} (f : nat -> option (A * nat)) x a s P :
  f (e_cnt s.2) = Some (x, a) -> P x (s.1, Env a (e_heap s.2) (e_net s.2)) -> ends (with_cnt f) s P.
Proof. intros E ?. eexists x, _. split; [|done]. unfold with_cnt. by rewrite E. Qed.

Lemma ends_malloc sz s (P : unit -> state N -> Prop) :
  alloc_total al -> P tt (s.1, Env (S (e_cnt s.2)) (e_heap s.2) (e_net s.2)) ->
  ends (hi_malloc sz) s P.
Proof. intros Hal HP. unfold ends, hi_malloc. rewrite (malloc_ok Hal). eauto. Qed.

Lemma ends_strdup p s P :
  alloc_total al -> P (cstr p) (s.1, Env (S (e_cnt s.2)) (e_heap s.2) (e_net s.2)) ->
  ends (hi_strdup p) s P.
Proof. intros. apply ends_bind, ends_malloc; [done|]. by apply ends_ret. Qed.

End io.

