(* ===== verification/Net.v ===== *)
(** * Sockets (net.c)

    Reading, writing, connecting and the socket options, in the variant that is
    compiled on Linux.  A status is [REDIS_OK] or [REDIS_ERR]. *)

From Stdlib Require Import Strings.Byte String.
From S2P Require Import Prelude CLib Buffer Sds SdsEdit Read Reply Network.

(** A pointer argument that may be the one the context already owns. *)
Inductive ptr (A : Type) := Own | Given (x : A).
Arguments Own {A}. Arguments Given {A}.

Section net.
Context {al : Allocator} {dm : DataModel} {fl : FloatLib} {N : Type} {nw : Network N}.

(** ** Errors *)

(** [__redisSetError] of hiredis.c; [str] may be [NULL] for I/O errors only. *)
Definition __redisSetError (type : Z) (str : option bytes) : IO N unit :=
  match str with
  | Some s => upd_ctx (with_error type (ztake 127 (cstr s)))
  | None =>
      if negb (type =? REDIS_ERR_IO) then must_be None else
      e ← get_errno;
      upd_ctx (with_error type (ztake 127 (cstr (strerror e))))
  end.

Definition __redisSetErrorFromErrno (type : Z) (prefix : option bytes) : IO N unit :=
  e ← get_errno;
  let p := match prefix with Some p => ztake 127 (p ++ bs ": ") | None => [] end in
  __redisSetError type (Some (p ++ ztake (128 - zlen p - 1) (cstr (strerror e)))).

(** An error from a text in a buffer of 128 bytes. *)
Definition set_error_text (prefix text : bytes) : IO N unit :=
  __redisSetError REDIS_ERR_OTHER (Some (ztake 127 (prefix ++ cstr text))).

(** ** Closing, reading, writing *)

Definition redisNetClose : IO N unit :=
  fd ← field c_fd;
  if fd =? REDIS_INVALID_FD then mret tt else
  _ ← sys (fun n => (tt, sys_close fd n));
  upd_ctx (with_fd REDIS_INVALID_FD).

(** The number of bytes read, or -1, and the bytes. *)
Definition redisNetRead (bufcap : Z) : IO N (Z * bytes) :=
  c ← get_ctx;
  r ← sys (sys_recv (c_fd c) bufcap);
  let nread := s32 r.1 in
  if nread =? -1 then
    e ← get_errno;
    if ((e =? EWOULDBLOCK) && negb (has_flag REDIS_BLOCK c)) || (e =? EINTR) then mret (0, [])
    else if (e =? ETIMEDOUT) && has_flag REDIS_BLOCK c then
      _ ← __redisSetError REDIS_ERR_TIMEOUT (Some (bs "recv timeout")); mret (-1, [])
    else _ ← __redisSetError REDIS_ERR_IO None; mret (-1, [])
  else if nread =? 0 then
    _ ← __redisSetError REDIS_ERR_EOF (Some (bs "Server closed the connection")); mret (-1, [])
  else mret (nread, r.2).

(** The output buffer must be a live string. *)
Definition live_obuf : IO N sds :=
  o ← field c_obuf; must_be (match o with BLive s => Some s | _ => None end).

Definition redisNetWrite : IO N Z :=
  c ← get_ctx;
  s ← live_obuf;
  r ← sys (sys_send (c_fd c) (sdsval s));
  let nwritten := s32 r in
  if nwritten <? 0 then
    e ← get_errno;
    if ((e =? EWOULDBLOCK) && negb (has_flag REDIS_BLOCK c)) || (e =? EINTR) then mret nwritten
    else _ ← __redisSetError REDIS_ERR_IO None; mret (-1)
  else mret nwritten.

(** ** Options of the socket *)

Definition setsockopt (o : sockopt) : IO N Z := fd ← field c_fd; sys (sys_setsockopt fd o).

(** An error of the system closes the socket. *)
Definition fail_close (prefix : option bytes) : IO N Z :=
  _ ← __redisSetErrorFromErrno REDIS_ERR_IO prefix;
  _ ← redisNetClose;
  mret REDIS_ERR.

Definition redisSetReuseAddr : IO N Z :=
  r ← setsockopt (SO_REUSEADDR 1);
  if r =? -1 then fail_close None else mret REDIS_OK.

Definition redisCreateSocket (type : Z) : IO N Z :=
  s ← sys (sys_socket type SOCK_STREAM 0);
  if s =? REDIS_INVALID_FD then _ ← __redisSetErrorFromErrno REDIS_ERR_IO None; mret REDIS_ERR else
  _ ← upd_ctx (with_fd s);
  if type =? AF_INET then
    r ← redisSetReuseAddr;
    if r =? REDIS_ERR then mret REDIS_ERR else mret REDIS_OK
  else mret REDIS_OK.

Definition redisSetBlocking (blocking : bool) : IO N Z :=
  fd ← field c_fd;
  flags ← sys (sys_getfl fd);
  if flags =? -1 then fail_close (Some (bs "fcntl(F_GETFL)")) else
  let flags := if blocking then Z.land flags (Z.lnot O_NONBLOCK) else Z.lor flags O_NONBLOCK in
  r ← sys (sys_setfl fd flags);
  if r =? -1 then fail_close (Some (bs "fcntl(F_SETFL)")) else mret REDIS_OK.

(** The text of [errno] as the error. *)
Definition fail_errno : IO N Z :=
  e ← get_errno; _ ← __redisSetError REDIS_ERR_OTHER (Some (strerror e)); mret REDIS_ERR.

Definition redisKeepAlive (interval : Z) : IO N Z :=
  r ← setsockopt (SO_KEEPALIVE 1);
  if r =? -1 then fail_errno else
  r ← setsockopt (TCP_KEEPIDLE interval);
  if r <? 0 then fail_errno else
  let val := Z.quot interval 3 in
  let val := if val =? 0 then 1 else val in
  r ← setsockopt (TCP_KEEPINTVL val);
  if r <? 0 then fail_errno else
  r ← setsockopt (TCP_KEEPCNT 3);
  if r <? 0 then fail_errno else mret REDIS_OK.

Definition redisSetTcpNoDelay : IO N Z :=
  r ← setsockopt (TCP_NODELAY 1);
  if r =? -1 then fail_close (Some (bs "setsockopt(TCP_NODELAY)")) else mret REDIS_OK.

(** ** Time limits *)

Definition MAX_MSEC : Z := (LONG_MAX - 999) / 1000.

(** Signed overflow is undefined. *)
Definition in_long (z : Z) : option Z :=
  if (LONG_MIN <=? z) && (z <=? LONG_MAX) then Some z else None.

(** The status and [*result]. *)
Definition timeout_msec (timeout : option timeval) : option (Z * Z) :=
  match timeout with
  | None => Some (REDIS_OK, -1)
  | Some tv =>
      if (1000000 <? tv_usec tv) || (MAX_MSEC <? tv_sec tv) then Some (REDIS_ERR, -1) else
      ms ← in_long (tv_sec tv * 1000);
      us ← in_long (tv_usec tv + 999);
      msec ← in_long (ms + Z.quot us 1000);
      Some (REDIS_OK, if (msec <? 0) || (INT_MAX <? msec) then INT_MAX else msec)
  end.

Definition redisContextTimeoutMsec : IO N (Z * Z) :=
  t ← field c_timeout; must_be (timeout_msec t).

Definition redisContextSetTimeout (tv : timeval) : IO N Z :=
  r ← setsockopt (SO_RCVTIMEO tv);
  if r =? -1 then
    _ ← __redisSetErrorFromErrno REDIS_ERR_IO (Some (bs "setsockopt(SO_RCVTIMEO)")); mret REDIS_ERR
  else
  r ← setsockopt (SO_SNDTIMEO tv);
  if r =? -1 then
    _ ← __redisSetErrorFromErrno REDIS_ERR_IO (Some (bs "setsockopt(SO_SNDTIMEO)")); mret REDIS_ERR
  else mret REDIS_OK.

(** ** Waiting for a connection *)

(** The status, and [*completed] when it is set. *)
Definition redisCheckConnectDone : IO N (Z * option Z) :=
  c ← get_ctx;
  rc ← sys (sys_connect (c_fd c) (default [] (c_saddr c)));
  if rc =? 0 then mret (REDIS_OK, Some 1) else
  e ← get_errno;
  if e =? EISCONN then mret (REDIS_OK, Some 1)
  else if (e =? EALREADY) || (e =? EINPROGRESS) || (e =? EWOULDBLOCK) then mret (REDIS_OK, Some 0)
  else mret (REDIS_ERR, None).

Definition redisCheckSocketError : IO N Z :=
  errno_saved ← get_errno;
  fd ← field c_fd;
  r ← sys (sys_so_error fd);
  if r.1 =? -1 then
    _ ← __redisSetErrorFromErrno REDIS_ERR_IO (Some (bs "getsockopt(SO_ERROR)")); mret REDIS_ERR
  else
  let err := if r.2 =? 0 then errno_saved else r.2 in
  if negb (err =? 0) then
    _ ← sys (fun n => (tt, set_errno err n));
    _ ← __redisSetErrorFromErrno REDIS_ERR_IO None; mret REDIS_ERR
  else mret REDIS_OK.

Definition redisContextWaitReady (msec : Z) : IO N Z :=
  fd ← field c_fd;
  e ← get_errno;
  if e =? EINPROGRESS then
    res ← sys (sys_poll_out fd (s32 msec));
    if res =? -1 then fail_close (Some (bs "poll(2)"))
    else if res =? 0 then
      _ ← sys (fun n => (tt, set_errno ETIMEDOUT n));
      fail_close None
    else
      r ← redisCheckConnectDone;
      if negb (r.1 =? REDIS_OK) || bool_decide (r.2 = Some 0) then
        _ ← redisCheckSocketError; mret REDIS_ERR
      else mret REDIS_OK
  else fail_close None.

(** ** Connecting *)

(** What becomes of [c->timeout]. *)
Definition take_timeout (timeout : option (ptr timeval)) : IO N unit :=
  match timeout with
  | Some Own => mret tt
  | Some (Given tv) =>
      t ← field c_timeout;
      _ ← (if bool_decide (is_Some t) then mret tt else hi_malloc 16);
      upd_ctx (with_timeout (Some tv))
  | None => upd_ctx (with_timeout None)
  end.

Fixpoint bind_loop (fd : Z) (addrs : list addrinfo) : IO N bool :=
  match addrs with
  | [] => mret false
  | b :: addrs =>
      r ← sys (sys_bind fd (ai_addr b));
      if r =? -1 then bind_loop fd addrs else mret true
  end.

(** Binding to the source address, if there is one. *)
Definition bind_source (family : Z) (reuseaddr : bool) (fd : Z) : IO N bool :=
  src ← field c_source_addr;
  match src with
  | None => mret true
  | Some a =>
      r ← sys (sys_getaddrinfo (Some a) None family);
      if negb (r.1 =? 0) then
        _ ← set_error_text (bs "Can't get addr: ") (gai_strerror r.1); mret false
      else
      ok ← (if (reuseaddr : bool) then o ← sys (sys_setsockopt fd (SO_REUSEADDR 1)); mret (0 <=? o)
            else mret true);
      if negb ok then mret false else
      bound ← bind_loop fd r.2;
      if (bound : bool) then mret true else
      e ← get_errno;
      _ ← set_error_text (bs "Can't bind socket: ") (strerror e); mret false
  end.

(** How the attempt on an address ends: on with the next one, the same one
    again, an error, or a connection. *)
Inductive attempt := Next | Retry | Failed | Connected.

(** After [connect] has returned -1: [None] goes on with the socket. *)
Definition connect_failed (blocking reuseaddr : bool) (msec reuses : Z) : IO N (option attempt) :=
  e ← get_errno;
  let wait_for_ready :=
    r ← redisContextWaitReady msec;
    mret (if negb (r =? REDIS_OK) then Some Failed else None) in
  if e =? EHOSTUNREACH then _ ← redisNetClose; mret (Some Next)
  else if e =? EINPROGRESS then
    if (blocking : bool) then wait_for_ready else mret None
  else if (e =? EADDRNOTAVAIL) && reuseaddr then
    if REDIS_CONNECT_RETRIES <=? reuses + 1 then mret (Some Failed)
    else _ ← redisNetClose; mret (Some Retry)
  else wait_for_ready.

(** The last steps of a connection. *)
Definition connect_done (blocking : bool) : IO N attempt :=
  r ← (if (blocking : bool) then redisSetBlocking true else mret REDIS_OK);
  if negb (r =? REDIS_OK) then mret Failed else
  r ← redisSetTcpNoDelay;
  if negb (r =? REDIS_OK) then mret Failed else
  c ← get_ctx;
  _ ← upd_ctx (with_flags (Z.lor (c_flags c) REDIS_CONNECTED));
  mret Connected.

(** Connecting the socket [s] of the context to an address. *)
Definition connect_socket (family : Z) (blocking reuseaddr : bool) (msec : Z) (p : addrinfo)
    (reuses s : Z) : IO N attempt :=
  r ← redisSetBlocking false;
  if negb (r =? REDIS_OK) then mret Failed else
  b ← bind_source family reuseaddr s;
  if negb b then mret Failed else
  _ ← hi_malloc (zlen (ai_addr p));
  _ ← upd_ctx (with_saddr (Some (ai_addr p)));
  rc ← sys (sys_connect s (ai_addr p));
  w ← (if rc =? -1 then connect_failed blocking reuseaddr msec reuses else mret None);
  match w with
  | Some a => mret a
  | None => connect_done blocking
  end.

(** The body of the loop over the addresses. *)
Definition connect_addr (family : Z) (blocking reuseaddr : bool) (msec : Z) (p : addrinfo)
    (reuses : Z) : IO N attempt :=
  s ← sys (sys_socket (ai_family p) (ai_socktype p) (ai_protocol p));
  if s =? REDIS_INVALID_FD then mret Next else
  _ ← upd_ctx (with_fd s);
  connect_socket family blocking reuseaddr msec p reuses s.

Fixpoint addr_loop (fuel : nat) (family : Z) (blocking reuseaddr : bool) (msec : Z)
    (servinfo : list addrinfo) (reuses : Z) : IO N Z :=
  match fuel with
  | O => must_be None
  | S f =>
      match servinfo with
      | [] =>
          e ← get_errno;
          _ ← set_error_text (bs "Can't create socket: ") (strerror e);
          mret REDIS_ERR
      | p :: ps =>
          a ← connect_addr family blocking reuseaddr msec p reuses;
          match a with
          | Next => addr_loop f family blocking reuseaddr msec ps reuses
          | Retry => addr_loop f family blocking reuseaddr msec (p :: ps) (reuses + 1)
          | Failed => mret REDIS_ERR
          | Connected => mret REDIS_OK
          end
      end
  end.

(** Enough for every address and every retry. *)
Definition addr_fuel (servinfo : list addrinfo) : nat := S (length servinfo + 10).

Definition _redisContextConnectTcp (addr : ptr bytes) (port : Z) (timeout : option (ptr timeval))
    (source_addr : option (ptr bytes)) : IO N Z :=
  c0 ← get_ctx;
  let blocking := has_flag REDIS_BLOCK c0 in
  let reuseaddr := has_flag REDIS_REUSEADDR c0 in
  _ ← upd_ctx (with_type REDIS_CONN_TCP);
  host ← (match addr with
          | Own => mret (c_host c0)
          | Given a => h ← hi_strdup a; mret (Some h)
          end);
  _ ← upd_ctx (with_tcp host (c_source_addr c0) port);
  _ ← take_timeout timeout;
  t ← redisContextTimeoutMsec;
  if negb (t.1 =? REDIS_OK) then
    _ ← __redisSetError REDIS_ERR_IO (Some (bs "Invalid timeout specified")); mret REDIS_ERR
  else
  src ← (match source_addr with
         | None => mret None
         | Some Own => mret (c_source_addr c0)
         | Some (Given a) => h ← hi_strdup a; mret (Some h)
         end);
  _ ← upd_ctx (with_tcp host src port);
  let service := ztake 5 (dec port) in
  r ← sys (sys_getaddrinfo host (Some service) AF_INET);
  if r.1 =? 0 then addr_loop (addr_fuel r.2) AF_INET blocking reuseaddr t.2 r.2 0
  else
    let name := match addr with Own => host | Given a => Some (cstr a) end in
    r ← sys (sys_getaddrinfo name (Some service) AF_INET6);
    if r.1 =? 0 then addr_loop (addr_fuel r.2) AF_INET6 blocking reuseaddr t.2 r.2 0
    else _ ← __redisSetError REDIS_ERR_OTHER (Some (gai_strerror r.1)); mret REDIS_ERR.

Definition redisContextConnectTcp (addr : ptr bytes) (port : Z) (timeout : option (ptr timeval)) :
    IO N Z :=
  _redisContextConnectTcp addr port timeout None.

Definition redisContextConnectBindTcp (addr : ptr bytes) (port : Z)
    (timeout : option (ptr timeval)) (source_addr : option (ptr bytes)) : IO N Z :=
  _redisContextConnectTcp addr port timeout source_addr.

(** [struct sockaddr_un], up to its last byte, which is not initialised. *)
Definition sockaddr_un (path : bytes) : bytes :=
  let p := ztake 107 (cstr path) in
  [Zb AF_UNIX; NUL] ++ p ++ replicate (Z.to_nat (107 - zlen p)) NUL.

(** The connection of a Unix socket, from its [connect] on. *)
Definition unix_connect (blocking : bool) (msec : Z) (sa : bytes) : IO N Z :=
  fd ← field c_fd;
  rc ← sys (sys_connect fd sa);
  ok ← (if rc =? -1 then
          e ← get_errno;
          if (e =? EINPROGRESS) && negb blocking then mret true
          else w ← redisContextWaitReady msec; mret (w =? REDIS_OK)
        else mret true);
  if negb ok then mret REDIS_ERR else
  r ← (if (blocking : bool) then redisSetBlocking true else mret REDIS_OK);
  if negb (r =? REDIS_OK) then mret REDIS_ERR else
  c ← get_ctx;
  _ ← upd_ctx (with_flags (Z.lor (c_flags c) REDIS_CONNECTED));
  mret REDIS_OK.

Definition redisContextConnectUnix (path : ptr bytes) (timeout : option (ptr timeval)) : IO N Z :=
  c0 ← get_ctx;
  let blocking := has_flag REDIS_BLOCK c0 in
  r ← redisCreateSocket AF_UNIX;
  if r <? 0 then mret REDIS_ERR else
  r ← redisSetBlocking false;
  if negb (r =? REDIS_OK) then mret REDIS_ERR else
  _ ← upd_ctx (with_type REDIS_CONN_UNIX);
  name ← (match path with
          | Own => must_be (c_path c0)
          | Given p => h ← hi_strdup p; _ ← upd_ctx (with_path (Some h)); mret p
          end);
  _ ← take_timeout timeout;
  t ← redisContextTimeoutMsec;
  if negb (t.1 =? REDIS_OK) then mret REDIS_ERR else
  _ ← hi_malloc 110;
  let sa := sockaddr_un name in
  _ ← upd_ctx (with_saddr (Some sa));
  unix_connect blocking t.2 sa.

End net.
