(* ===== verification/NetFacts.v ===== *)
(** * Sockets and errors of net.c

    [Ledger]: what the system promises about descriptors, with the set of those
    that are open and the number of sockets ever made.  Every function of net.c
    keeps the set of open descriptors equal to the descriptor of the context
    and those of others, and reports an error when it fails. *)

From Stdlib Require Import Strings.Byte String.
From stdpp Require Import gmap.
From S2P Require Import Prelude CLib Buffer Sds SdsEdit Read Reply Network Net.

(** The calls that neither open nor close a descriptor. *)
Inductive quiet {N} {nw : Network N} : N -> N -> Prop :=
  | q_errno e n : quiet n (set_errno e n)
  | q_connect fd a n : quiet n (sys_connect fd a n).2
  | q_bind fd a n : quiet n (sys_bind fd a n).2
  | q_send fd d n : quiet n (sys_send fd d n).2
  | q_recv fd k n : quiet n (sys_recv fd k n).2
  | q_poll fd t n : quiet n (sys_poll_out fd t n).2
  | q_getfl fd n : quiet n (sys_getfl fd n).2
  | q_setfl fd f n : quiet n (sys_setfl fd f n).2
  | q_setsockopt fd o n : quiet n (sys_setsockopt fd o n).2
  | q_so_error fd n : quiet n (sys_so_error fd n).2
  | q_getaddrinfo h p f n : quiet n (sys_getaddrinfo h p f n).2.

Class Ledger (N : Type) {nw : Network N} := {
  opened : N -> gset Z;
  sockets_made : N -> nat;
  opened_valid n : -1 ∉ opened n;
  socket_law d t p n :
    let '(s, n') := sys_socket d t p n in
    (s = -1 /\ opened n' = opened n /\ sockets_made n' = sockets_made n) \/
    (s <> -1 /\ s ∉ opened n /\ opened n' = {[s]} ∪ opened n /\ sockets_made n' = S (sockets_made n));
  close_law fd n :
    fd ∈ opened n -> opened (sys_close fd n) = opened n ∖ {[fd]} /\ sockets_made (sys_close fd n) = sockets_made n;
  quiet_law n n' : quiet n n' -> opened n' = opened n /\ sockets_made n' = sockets_made n;
  connect_errno fd a n : (sys_connect fd a n).1 <> 0 -> errno (sys_connect fd a n).2 <> 0
}.

Create HintDb quiet.
#[export] Hint Constructors quiet : quiet.

Section facts.
Context {al : Allocator} {dm : DataModel} {fl : FloatLib} {N : Type} {nw : Network N}.
Context {ld : Ledger N}.
Hypothesis Hal : alloc_total al.
Variable O : gset Z.             (* the descriptors of others *)
Implicit Types (s : state N).

(** The descriptors a context holds. *)
Definition held (fd : Z) : gset Z := if fd =? -1 then ∅ else {[fd]}.

Definition linked s : Prop :=
  opened (e_net s.2) = held (c_fd s.1) ∪ O /\ c_fd s.1 ∉ O.

(** From [s] to [s']: descriptors are accounted for, and only the error, the
    descriptor and the addresses of the context have changed. *)
Record moves s s' : Prop := Moves {
  mv_linked : linked s';
  mv_flags : c_flags s'.1 = c_flags s.1;
  mv_obuf : c_obuf s'.1 = c_obuf s.1;
  mv_reader : c_reader s'.1 = c_reader s.1;
  mv_heap : e_heap s'.2 = e_heap s.2;
  mv_made : sockets_made (e_net s'.2) = sockets_made (e_net s.2)
}.

Lemma moves_refl s : linked s -> moves s s.
Proof. by split. Qed.

Lemma moves_trans s s1 s2 : moves s s1 -> moves s1 s2 -> moves s s2.
Proof. intros [] []. split; congruence. Qed.

Lemma linked_valid s : linked s -> -1 ∉ O.
Proof. clear Hal. intros [E _] H. apply (opened_valid (e_net s.2)). rewrite E. set_solver. Qed.

(** The same, with the context untouched but for the error; [e] tells what the
    error is. *)
Definition stays s (e : Z) s' : Prop := moves s s' /\ c_fd s'.1 = c_fd s.1 /\ c_err s'.1 = e.

Lemma ends_quiet {A} (f : N -> A * N) s P :
  linked s -> quiet (e_net s.2) (f (e_net s.2)).2 ->
  (forall s', stays s (c_err s.1) s' -> s'.1 = s.1 -> e_net s'.2 = (f (e_net s.2)).2 ->
     P (f (e_net s.2)).1 s') ->
  ends (sys f) s P.
Proof.
  intros [Hl Hf] Hq HP. apply ends_sys. destruct (quiet_law _ _ Hq) as [Eo Em].
  apply HP; [|done..]. split; [|done]. split; simpl; try done. split; simpl; [by rewrite Eo|done].
Qed.

Lemma ends_set_error type str s P :
  linked s -> (forall s', stays s type s' -> P tt s') -> ends (__redisSetError type (Some str)) s P.
Proof. intros Hl HP. apply ends_upd, HP. split; [|done]. by split. Qed.

Lemma ends_from_errno type prefix s P :
  linked s -> (forall s', stays s type s' -> P tt s') ->
  ends (__redisSetErrorFromErrno type prefix) s P.
Proof. intros Hl HP. apply ends_bind, ends_errno. by apply ends_set_error. Qed.

Lemma ends_error_text pre txt s P :
  linked s -> (forall s', stays s REDIS_ERR_OTHER s' -> P tt s') ->
  ends (set_error_text pre txt) s P.
Proof. apply ends_set_error. Qed.

Lemma stays_trans s e1 e2 s1 s2 : stays s e1 s1 -> stays s1 e2 s2 -> stays s e2 s2.
Proof. intros (M1 & F1 & E1) (M2 & F2 & E2). split; [by eapply moves_trans|]. split; congruence. Qed.

Lemma still_trans s s1 s2 :
  stays s (c_err s.1) s1 -> stays s1 (c_err s1.1) s2 -> stays s (c_err s.1) s2.
Proof. intros H1 H2. eapply stays_trans; [exact H1|]. by destruct H1 as (_ & _ & <-). Qed.

Lemma stays_linked s e s' : stays s e s' -> linked s'.
Proof. intros [[] _]. done. Qed.

(** ** Closing *)

Lemma ends_close_ctx s P :
  linked s -> (forall s', moves s s' -> s'.1 = with_fd (-1) s.1 -> P tt s') ->
  ends redisNetClose s P.
Proof.
  clear Hal. intros Hl HP. pose proof (linked_valid s Hl) as Hv. destruct (Hl) as [Ho Hf].
  apply ends_bind, ends_field. destruct (Z.eqb_spec (c_fd s.1) REDIS_INVALID_FD) as [E|E].
  { apply ends_ret, HP; [by apply moves_refl|]. destruct s as [[] v]. simpl in E. by subst. }
  apply ends_bind, ends_sys, ends_upd. simpl.
  assert (held (c_fd s.1) = {[c_fd s.1]}) as Eh.
  { unfold held. by rewrite (proj2 (Z.eqb_neq (c_fd s.1) (-1)) E). }
  destruct (close_law (c_fd s.1) (e_net s.2)) as [Eo Em]; [rewrite Ho, Eh; set_solver|].
  apply HP; [|done..]. split; simpl; try done. split; simpl; [|done].
  rewrite Eo, Ho, Eh. unfold held. simpl. set_solver.
Qed.

Lemma ends_close s P :
  linked s ->
  (forall s', moves s s' -> c_fd s'.1 = -1 -> c_err s'.1 = c_err s.1 -> P tt s') ->
  ends redisNetClose s P.
Proof. intros Hl HP. apply ends_close_ctx; [done|]. intros s' M E. apply HP; by rewrite ?E. Qed.

(** ** Status functions *)

(** [REDIS_OK] and nothing changed, or [REDIS_ERR] and an error is set. *)
Definition status_post s (r : Z) s' : Prop :=
  moves s s' /\
  ((r = REDIS_OK /\ c_fd s'.1 = c_fd s.1 /\ c_err s'.1 = c_err s.1) \/
   (r = REDIS_ERR /\ c_err s'.1 <> 0)).

Lemma status_ok s e s' : stays s e s' -> e = c_err s.1 -> status_post s REDIS_OK s'.
Proof. intros (M & F & E) ->. split; [done|]. by left. Qed.

Lemma status_err s e s' : stays s e s' -> e <> 0 -> status_post s REDIS_ERR s'.
Proof. intros (M & F & <-) H. split; [done|]. by right. Qed.

Lemma status_after s s1 r s' : stays s (c_err s.1) s1 -> status_post s1 r s' -> status_post s r s'.
Proof.
  intros (M & F & E) [M2 H]. split; [by eapply moves_trans|].
  destruct H as [(-> & ? & ?)|(-> & ?)]; [left|by right]. split; [done|]. split; congruence.
Qed.

Lemma ends_fail_close prefix s P :
  linked s -> (forall s', status_post s REDIS_ERR s' -> P REDIS_ERR s') -> ends (fail_close prefix) s P.
Proof.
  intros Hl HP. apply ends_bind, ends_from_errno; [done|]. intros s1 (M1 & F1 & E1).
  apply ends_bind, ends_close; [apply M1|]. intros s2 M2 F2 E2. apply ends_ret, HP.
  split; [by eapply moves_trans|]. right. split; [done|]. by rewrite E2, E1.
Qed.

Lemma ends_setsockopt o s P :
  linked s -> (forall r s', stays s (c_err s.1) s' -> s'.1 = s.1 -> P r s') ->
  ends (setsockopt o) s P.
Proof.
  intros Hl HP. apply ends_bind, ends_field, ends_quiet; [done|constructor|]. intros s' Hs Ec _.
  by apply HP.
Qed.

Lemma ends_set_blocking b s P :
  linked s -> (forall r s', status_post s r s' -> (r = REDIS_OK -> s'.1 = s.1) -> P r s') ->
  ends (redisSetBlocking b) s P.
Proof.
  intros Hl HP. apply ends_bind, ends_field, ends_bind, ends_quiet; [done|constructor|].
  intros s1 H1 C1 _. pose proof (stays_linked _ _ _ H1) as L1. destruct (_ =? -1).
  { apply ends_fail_close; [done|]. intros s' Hs. apply HP; [by eapply status_after|done]. }
  apply ends_bind, ends_quiet; [done|constructor|]. intros s2 H2%(still_trans _ _ _ H1) C2 _.
  destruct (_ =? -1).
  - apply ends_fail_close; [by eapply stays_linked|]. intros s' Hs.
    apply HP; [by eapply status_after|done].
  - apply ends_ret, HP; [by eapply status_ok|congruence].
Qed.

Lemma ends_nodelay s P :
  linked s -> (forall r s', status_post s r s' -> P r s') -> ends redisSetTcpNoDelay s P.
Proof.
  intros Hl HP. apply ends_bind, ends_setsockopt; [done|]. intros r s1 H1 _. destruct (r =? -1).
  - apply ends_fail_close; [by eapply stays_linked|]. intros s' Hs. apply HP. by eapply status_after.
  - apply ends_ret, HP. by eapply status_ok.
Qed.

(** ** Waiting for a connection *)

Lemma ends_check_done s P :
  linked s ->
  (forall r s', stays s (c_err s.1) s' ->
     r = (REDIS_OK, Some 1) \/ ((r = (REDIS_OK, Some 0) \/ r = (REDIS_ERR, None)) /\
                                errno (e_net s'.2) <> 0) -> P r s') ->
  ends redisCheckConnectDone s P.
Proof.
  intros Hl HP. apply ends_bind. exists s.1, s. split; [done|].
  apply ends_bind, ends_quiet; [done|constructor|]. intros s1 H1 _ En.
  pose proof (connect_errno (c_fd s.1) (default [] (c_saddr s.1)) (e_net s.2)) as Hc.
  rewrite <- En in Hc. destruct (Z.eqb_spec (sys_connect (c_fd s.1) (default [] (c_saddr s.1)) (e_net s.2)).1 0).
  { apply ends_ret, HP; [done|by left]. }
  specialize (Hc n). apply ends_bind, ends_errno. destruct (_ =? EISCONN).
  { apply ends_ret, HP; [done|by left]. }
  destruct (_ || _); apply ends_ret, HP; try done; right; split; auto.
Qed.

Lemma ends_socket_error s P :
  linked s -> errno (e_net s.2) <> 0 ->
  (forall s', stays s REDIS_ERR_IO s' -> P REDIS_ERR s') -> ends redisCheckSocketError s P.
Proof.
  intros Hl He HP. apply ends_bind, ends_errno, ends_bind, ends_field, ends_bind.
  apply ends_quiet; [done|constructor|]. intros s1 H1 _ _. pose proof (stays_linked _ _ _ H1) as L1.
  destruct (_ =? -1).
  { apply ends_bind, ends_from_errno; [done|]. intros s2 H2. apply ends_ret, HP. by eapply stays_trans. }
  set (err := if _ =? 0 then errno (e_net s.2) else _).
  assert (err <> 0) as Herr by (unfold err; destruct (Z.eqb_spec (sys_so_error (c_fd s.1) (e_net s.2)).1.2 0); done).
  cbv zeta. rewrite (proj2 (Z.eqb_neq _ _) Herr). apply ends_bind, ends_quiet; [done|constructor|].
  intros s2 H2 _ _. apply ends_bind, ends_from_errno; [by eapply stays_linked|]. intros s3 H3.
  apply ends_ret, HP. do 2 (eapply stays_trans; [done|]). done.
Qed.

Lemma ends_wait_ready msec s P :
  linked s -> (forall r s', status_post s r s' -> P r s') -> ends (redisContextWaitReady msec) s P.
Proof.
  intros Hl HP. apply ends_bind, ends_field, ends_bind, ends_errno.
  destruct (_ =? EINPROGRESS); [|apply ends_fail_close; auto].
  apply ends_bind, ends_quiet; [done|constructor|]. intros s1 H1 _ _.
  pose proof (stays_linked _ _ _ H1) as L1.
  assert (forall r s', status_post s1 r s' -> P r s') as HP1.
  { intros r s' Hs. apply HP. by eapply status_after. }
  destruct (_ =? -1); [apply ends_fail_close; auto|].
  destruct (_ =? 0).
  { apply ends_bind, ends_quiet; [done|constructor|]. intros s2 H2 _ _.
    apply ends_fail_close; [by eapply stays_linked|]. intros s' Hs. apply HP1.
    by eapply status_after. }
  apply ends_bind, ends_check_done; [done|]. intros r s2 H2 Hr.
  destruct Hr as [->|[Hr He]]; [apply ends_ret, HP1; by eapply status_ok|].
  assert (negb (r.1 =? REDIS_OK) || bool_decide (r.2 = Some 0) = true) as ->.
  { by destruct Hr as [-> | ->]. }
  apply ends_bind, ends_socket_error; [by eapply stays_linked|done|]. intros s3 H3.
  apply ends_ret, HP1. eapply status_err; [by eapply stays_trans|done].
Qed.

(** ** The attempts on the addresses *)

(** As [moves], with at most [k] sockets made; the flags may have changed. *)
Record tried (k : nat) s s' : Prop := Tried {
  tr_linked : linked s';
  tr_obuf : c_obuf s'.1 = c_obuf s.1;
  tr_reader : c_reader s'.1 = c_reader s.1;
  tr_heap : e_heap s'.2 = e_heap s.2;
  tr_made : (sockets_made (e_net s'.2) <= sockets_made (e_net s.2) + k)%nat
}.

Lemma tried_moves s s' : moves s s' -> tried 0 s s'.
Proof. intros []. split; try done. lia. Qed.

Lemma tried_trans j k s s1 s2 : tried j s s1 -> tried k s1 s2 -> tried (j + k) s s2.
Proof. intros [] []. split; (done || congruence || lia). Qed.

Lemma tried_le j k s s' : tried j s s' -> (j <= k)%nat -> tried k s s'.
Proof. intros [] ?. split; try done. lia. Qed.

(** How an attempt may end. *)
Definition ended_as (reuse : bool) (reuses : Z) (s : state N) (a : attempt) (s' : state N) : Prop :=
  match a with
  | Next | Retry => c_fd s'.1 = -1 /\ c_err s'.1 = c_err s.1 /\ c_flags s'.1 = c_flags s.1 /\
                    (a = Retry -> reuses + 1 < REDIS_CONNECT_RETRIES)
  | Failed => c_flags s'.1 = c_flags s.1 /\ (reuse = true \/ c_err s'.1 <> 0)
  | Connected => c_fd s'.1 <> -1 /\ c_err s'.1 = c_err s.1 /\
                 c_flags s'.1 = Z.lor (c_flags s.1) REDIS_CONNECTED
  end.

Lemma status_failed reuse reuses s s' : status_post s REDIS_ERR s' -> ended_as reuse reuses s Failed s'.
Proof. intros [M [(? & _)|(_ & He)]]; [done|]. split; [apply M|by right]. Qed.

Lemma ends_connect_failed blocking reuse msec reuses s P :
  linked s ->
  (forall s', stays s (c_err s.1) s' -> P None s') ->
  (forall a s', moves s s' -> a <> Connected -> ended_as reuse reuses s a s' -> P (Some a) s') ->
  ends (connect_failed blocking reuse msec reuses) s P.
Proof.
  intros Hl HN HA. apply ends_bind, ends_errno.
  assert (ends (r ← redisContextWaitReady msec;
      mret (if negb (r =? REDIS_OK) then Some Failed else None)) s P) as Hw.
  { apply ends_bind, ends_wait_ready; [done|]. intros r s' Hs. apply ends_ret.
    pose proof Hs as [M [(-> & F & E)|(-> & He)]]; [by apply HN|].
    by apply HA, status_failed. }
  destruct (_ =? EHOSTUNREACH).
  { apply ends_bind, ends_close; [done|]. intros s' M F E. apply ends_ret, HA; [done|done|].
    split_and!; try done. apply M. }
  destruct (_ =? EINPROGRESS); [destruct blocking; [done|]|].
  { apply ends_ret, HN. split; [by apply moves_refl|done]. }
  destruct (_ =? EADDRNOTAVAIL); [|done]. destruct reuse; [|done]. cbn [andb].
  destruct (Z.leb_spec REDIS_CONNECT_RETRIES (reuses + 1)).
  - apply ends_ret, HA; [by apply moves_refl|done|]. split; [done|by left].
  - apply ends_bind, ends_close; [done|]. intros s' M F E. apply ends_ret, HA; [done|done|].
    split_and!; try done. apply M.
Qed.

Lemma ends_bind_loop fd addrs s P :
  linked s -> (forall b s', stays s (c_err s.1) s' -> P b s') -> ends (bind_loop fd addrs) s P.
Proof.
  revert s. induction addrs as [|b addrs IH]; intros s Hl HP.
  { apply ends_ret, HP. split; [by apply moves_refl|done]. }
  apply ends_bind, ends_quiet; [done|constructor|]. intros s1 H1 _ _. destruct (_ =? -1).
  - apply IH; [by eapply stays_linked|]. intros x s' Hs. apply HP. eapply stays_trans; [exact H1|].
    by destruct H1 as (_ & _ & <-).
  - by apply ends_ret, HP.
Qed.

(** The socket is bound, or there is an error. *)
Lemma ends_bind_source family reuse fd s P :
  linked s ->
  (forall s', stays s (c_err s.1) s' -> P true s') ->
  (forall s', moves s s' -> (reuse = true \/ c_err s'.1 <> 0) -> P false s') ->
  ends (bind_source family reuse fd) s P.
Proof.
  intros Hl HT HF. apply ends_bind, ends_field.
  destruct (c_source_addr s.1) as [a|].
  2: { apply ends_ret, HT. split; [by apply moves_refl|done]. }
  apply ends_bind, ends_quiet; [done|constructor|]. intros s1 H1 _ _.
  pose proof (stays_linked _ _ _ H1) as L1. destruct (negb _).
  { apply ends_bind, ends_error_text; [done|]. intros s2 H2.
    destruct (stays_trans _ _ _ _ _ H1 H2) as (M & _ & E). apply ends_ret, HF; [done|]. right.
    by rewrite E. }
  assert (forall s2, stays s (c_err s.1) s2 -> ends
    (bound ← bind_loop fd (sys_getaddrinfo (Some a) None family (e_net s.2)).1.2;
     if (bound : bool) then mret true else
     e ← get_errno; _ ← set_error_text (bs "Can't bind socket: ") (strerror e); mret false) s2 P) as Hb.
  { intros s2 H2. apply ends_bind, ends_bind_loop; [by eapply stays_linked|]. intros b s3 H3.
    destruct H2 as (M2 & F2 & E2). rewrite E2 in H3.
    pose proof (stays_trans _ _ _ _ _ (conj M2 (conj F2 E2)) H3) as H23. destruct b.
    - by apply ends_ret, HT.
    - apply ends_bind, ends_errno, ends_bind, ends_error_text; [by eapply stays_linked|].
      intros s4 H4. destruct (stays_trans _ _ _ _ _ H23 H4) as (M & _ & E). apply ends_ret, HF; [done|].
      right. by rewrite E. }
  destruct reuse; apply ends_bind; [|apply ends_ret; by apply Hb].
  apply ends_bind, ends_quiet; [done|constructor|]. intros s2 H2 _ _. apply ends_ret.
  destruct H1 as (M1 & F1 & E1). rewrite E1 in H2.
  pose proof (stays_trans _ _ _ _ _ (conj M1 (conj F1 E1)) H2) as H12.
  destruct (0 <=? _); [by apply Hb|]. apply ends_ret, HF; [apply H12|by left].
Qed.

Lemma ends_connect_done blocking reuse reuses s P :
  linked s -> c_fd s.1 <> -1 ->
  (forall a s', tried 0 s s' -> (a = Failed \/ a = Connected) -> ended_as reuse reuses s a s' -> P a s') ->
  ends (connect_done blocking) s P.
Proof.
  intros Hl Hfd HP.
  assert (ends (if blocking then redisSetBlocking true else mret REDIS_OK) s
    (fun r s' => status_post s r s')) as Hb.
  { destruct blocking; [apply ends_set_blocking; auto|]. apply ends_ret. split; [by apply moves_refl|by left]. }
  apply ends_bind. eapply ends_mono; [exact Hb|]. intros r s1 Hs1.
  pose proof Hs1 as [M1 [(-> & F1 & E1)|(-> & He)]].
  2: { apply ends_ret, HP; [by apply tried_moves|by left|]. by apply status_failed. }
  apply ends_bind, ends_nodelay; [apply M1|]. intros r s2 Hs2.
  pose proof (status_after _ _ _ _ (conj M1 (conj F1 E1)) Hs2) as H2.
  pose proof H2 as [M2 [(-> & F2 & E2)|(-> & He)]].
  2: { apply ends_ret, HP; [by apply tried_moves|by left|]. by apply status_failed. }
  apply ends_bind, ends_ctx, ends_bind, ends_upd, ends_ret, HP; [|by right|].
  - destruct M2. split; simpl; try done. lia.
  - simpl. rewrite F2, E2. by destruct M2 as [_ -> _ _ _ _].
Qed.

(** A change of the addresses, the timeout and the counter only. *)
Definition conn_fields (c : redisContext) := (c_fd c, c_err c, c_flags c, c_obuf c, c_reader c).

Lemma stays_ctx s e s' c v :
  stays s e s' -> conn_fields c = conn_fields s'.1 ->
  (e_heap v, e_net v) = (e_heap s'.2, e_net s'.2) -> stays s e (c, v).
Proof.
  intros ([[Ho Hf] ? ? ? ? ?] & F & E) [= Ec ? ? ? ?] [= Eh En].
  split; [split; simpl; try congruence; split; simpl; by rewrite ?En, Ec|]. simpl. split; congruence.
Qed.

Lemma stays_refl s : linked s -> stays s (c_err s.1) s.
Proof. intros. split; [by apply moves_refl|done]. Qed.

Lemma ended_stays reuse reuses s s1 a s' :
  stays s (c_err s.1) s1 -> ended_as reuse reuses s1 a s' -> ended_as reuse reuses s a s'.
Proof. intros ([_ Ef _ _ _ _] & _ & Ee). destruct a; simpl; rewrite ?Ef, ?Ee; done. Qed.

Lemma ends_connect_socket family blocking reuse msec p reuses fd s P :
  linked s -> c_fd s.1 <> -1 ->
  (forall a s', tried 0 s s' -> ended_as reuse reuses s a s' -> P a s') ->
  ends (connect_socket family blocking reuse msec p reuses fd) s P.
Proof.
  intros Hl Hfd HP.
  assert (forall s', moves s s' -> reuse = true \/ c_err s'.1 <> 0 -> P Failed s') as HF.
  { intros s' M H. apply HP; [by apply tried_moves|]. split; [apply M|done]. }
  apply ends_bind, ends_set_blocking; [done|]. intros r s2 [M2 [(-> & F2 & E2)|(-> & He)]] _.
  2: { apply ends_ret, HF; [done|by right]. }
  apply ends_bind, ends_bind_source; [apply M2| |].
  2: { intros s3 M3 H3. apply ends_ret, HF; [by eapply moves_trans|done]. }
  intros s3 H3. rewrite E2 in H3. pose proof (stays_trans _ _ _ _ _ (conj M2 (conj F2 E2)) H3) as H13.
  apply ends_bind, ends_malloc; [done|]. apply ends_bind, ends_upd. cbn [fst snd e_cnt e_heap e_net].
  pose proof (stays_ctx _ _ _ (with_saddr (Some (ai_addr p)) s3.1) 
    (Env (S (e_cnt s3.2)) (e_heap s3.2) (e_net s3.2)) H13 eq_refl eq_refl) as H4.
  revert H4. generalize (with_saddr (Some (ai_addr p)) s3.1, Env (S (e_cnt s3.2)) (e_heap s3.2) (e_net s3.2)).
  intros s4 H4.
  assert (forall s5, stays s (c_err s.1) s5 -> ends (connect_done blocking) s5 P) as Hd.
  { intros s5 H5. pose proof H5 as (M5 & F5 & E5).
    apply (ends_connect_done blocking reuse reuses); [apply M5|by rewrite F5|].
    intros a s6 T6 _ E6. apply HP; [by apply (tried_trans 0 0 _ s5); [apply tried_moves|]|].
    by eapply ended_stays. }
  apply ends_bind, ends_quiet; [by eapply stays_linked|constructor|]. intros s5 H5 _ _.
  pose proof (stays_trans _ _ _ _ _ H4 H5) as H15.
  assert (c_err s4.1 = c_err s.1) as E4 by apply H4. rewrite E4 in H15.
  apply ends_bind. destruct (_ =? -1); [|by apply ends_ret, Hd].
  apply (ends_connect_failed blocking reuse); [by eapply stays_linked| |].
  - intros s6 H6. apply Hd. eapply stays_trans; [exact H15|]. by destruct H15 as (_ & _ & <-).
  - intros a s6 M6 _ H6. apply ends_ret, HP; [|by eapply ended_stays].
    apply tried_moves. eapply moves_trans; [apply H15|done].
Qed.

Lemma ends_connect_addr family blocking reuse msec p reuses s P :
  linked s -> c_fd s.1 = -1 ->
  (forall a s', tried 1 s s' -> ended_as reuse reuses s a s' -> P a s') ->
  ends (connect_addr family blocking reuse msec p reuses) s P.
Proof.
  intros Hl Hfd HP. pose proof (linked_valid s Hl) as Hv. destruct (Hl) as [Ho HfO].
  apply ends_bind, ends_sys.
  pose proof (socket_law (ai_family p) (ai_socktype p) (ai_protocol p) (e_net s.2)) as Hs.
  destruct (sys_socket _ _ _ _) as [fd n1]. rewrite Ho, Hfd in Hs. cbn [fst snd held Z.eqb] in Hs |- *.
  destruct Hs as [(-> & Eo & Em)|(Hn & Hnin & Eo & Em)].
  { apply ends_ret, HP.
    - split; simpl; try done; [|lia]. split; simpl; [by rewrite Hfd|done].
    - split_and!; done. }
  rewrite (proj2 (Z.eqb_neq fd REDIS_INVALID_FD)) by done.
  apply ends_bind, ends_upd, (ends_connect_socket family blocking reuse); [|done|].
  - split; simpl; [|set_solver]. rewrite Eo. unfold held at 2.
    rewrite (proj2 (Z.eqb_neq fd (-1))) by done. set_solver.
  - intros a s' [? ? ? ? Hm] E. apply HP; [|exact E]. split; try done. simpl in Hm. lia.
Qed.

(** The result of connecting: [k] sockets at most are made. *)
Definition connect_post (excuse : Prop) (k : nat) s (r : Z) s' : Prop :=
  tried k s s' /\
  ((r = REDIS_OK /\ c_fd s'.1 <> -1 /\ c_err s'.1 = c_err s.1 /\
      c_flags s'.1 = Z.lor (c_flags s.1) REDIS_CONNECTED) \/
   (r = REDIS_ERR /\ c_flags s'.1 = c_flags s.1 /\ (excuse \/ c_err s'.1 <> 0))).

Lemma connect_post_after excuse j k s s1 r s' :
  tried j s s1 -> c_err s1.1 = c_err s.1 -> c_flags s1.1 = c_flags s.1 ->
  connect_post excuse k s1 r s' -> connect_post excuse (j + k) s r s'.
Proof.
  intros T Ee Ef [T' H]. split; [by eapply tried_trans|]. by rewrite Ee, Ef in H.
Qed.

(** Every address and every retry costs one socket; the loop ends. *)
Lemma ends_addr_loop fuel family blocking reuse msec ps reuses s :
  linked s -> c_fd s.1 = -1 -> reuses < REDIS_CONNECT_RETRIES ->
  (Z.of_nat (length ps) + (REDIS_CONNECT_RETRIES - reuses) <= Z.of_nat fuel) ->
  ends (addr_loop fuel family blocking reuse msec ps reuses) s
    (fun r s' => connect_post (reuse = true) (length ps + Z.to_nat (REDIS_CONNECT_RETRIES - 1 - reuses)) s r s').
Proof.
  revert ps reuses s. induction fuel as [|f IH]; intros ps reuses s Hl Hfd Hr Hf; [lia|].
  cbn [addr_loop]. destruct ps as [|p ps].
  { apply ends_bind, ends_errno, ends_bind, ends_error_text; [done|]. intros s' (M & _ & E).
    apply ends_ret. split; [eapply tried_le; [by apply tried_moves|lia]|]. right. split; [done|].
    split; [apply M|]. right. by rewrite E. }
  apply ends_bind, (ends_connect_addr family blocking reuse); [done..|]. cbn [length] in *.
  intros a s1 T1 Ea. destruct a; simpl in Ea.
  - destruct Ea as (F1 & E1 & Fl1 & _). eapply ends_mono; [apply IH; [apply T1|done|done|lia]|].
    intros r s' H. exact (connect_post_after _ 1 _ _ _ _ _ T1 E1 Fl1 H).
  - destruct Ea as (F1 & E1 & Fl1 & Hre). specialize (Hre eq_refl).
    eapply ends_mono; [apply IH; [apply T1|done|done|cbn [length]; lia]|].
    intros r s' H. pose proof (connect_post_after _ 1 _ _ _ _ _ T1 E1 Fl1 H) as [T H'].
    split; [|exact H']. eapply tried_le; [exact T|]. cbn [length]. lia.
  - apply ends_ret. split; [eapply tried_le; [exact T1|lia]|]. by right.
  - apply ends_ret. split; [eapply tried_le; [exact T1|lia]|]. by left.
Qed.

(** ** Time limits *)

Definition data_model_ok : Prop := long_bits = 64 \/ long_bits = 32.
Definition tv_ok (tv : timeval) : Prop := 0 <= tv_sec tv <= LONG_MAX /\ 0 <= tv_usec tv <= LONG_MAX.

Lemma timeout_msec_spec tv :
  data_model_ok -> tv_ok tv ->
  timeout_msec (Some tv) =
  Some (if (1000000 <? tv_usec tv) || (MAX_MSEC <? tv_sec tv) then (REDIS_ERR, -1)
        else (REDIS_OK, Z.min INT_MAX (tv_sec tv * 1000 + (tv_usec tv + 999) / 1000))).
Proof.
  intros Hd [Hs Hu]. unfold timeout_msec. destruct (_ || _) eqn:E; [done|].
  apply orb_false_iff in E as [Eu%Z.ltb_ge Es%Z.ltb_ge].
  assert (tv_sec tv * 1000 <= LONG_MAX - 999) as Hms.
  { unfold MAX_MSEC in Es. pose proof (Z.mul_div_le (LONG_MAX - 999) 1000 ltac:(lia)). lia. }
  assert (1000999 <= LONG_MAX /\ LONG_MIN <= 0) as [Hl Hm].
  { unfold LONG_MAX, LONG_MIN. destruct Hd as [-> | ->]; lia. }
  assert (0 <= (tv_usec tv + 999) / 1000 <= 1000) as Hq.
  { split; [apply Z.div_pos; lia|]. assert ((tv_usec tv + 999) / 1000 < 1001); [|lia].
    apply Z.div_lt_upper_bound; lia. }
  assert (tv_sec tv * 1000 + 1000 <= LONG_MAX) as Hsum.
  { unfold MAX_MSEC in Es. unfold LONG_MAX in *. destruct Hd as [E|E]; rewrite E in *;
      [change ((2 ^ (64 - 1) - 1 - 999) / 1000) with 9223372036854774 in Es
      |change ((2 ^ (32 - 1) - 1 - 999) / 1000) with 2147482 in Es]; lia. }
  assert (forall z, LONG_MIN <= z <= LONG_MAX -> in_long z = Some z) as Hin.
  { intros z [H1 H2]. unfold in_long. by rewrite (proj2 (Z.leb_le _ _) H1), (proj2 (Z.leb_le _ _) H2). }
  rewrite !Hin by lia. cbn [mbind option_bind]. rewrite Hin by (rewrite Z.quot_div_nonneg by lia; lia).
  cbn [mbind option_bind]. rewrite Z.quot_div_nonneg by lia. do 2 f_equal.
  rewrite (proj2 (Z.ltb_ge _ 0)) by lia. cbn [orb].
  destruct (Z.ltb_spec INT_MAX (tv_sec tv * 1000 + (tv_usec tv + 999) / 1000)); lia.
Qed.

(** The timeout in effect after a connect call. *)
Definition effective (timeout : option (ptr timeval)) (c : redisContext) : option timeval :=
  match timeout with
  | None => None
  | Some Own => c_timeout c
  | Some (Given tv) => Some tv
  end.

Definition timeout_ok (timeout : option timeval) : Prop :=
  match timeout with Some tv => tv_ok tv | None => True end.

Definition timeout_valid (timeout : option timeval) : Prop :=
  match timeout with Some tv => tv_usec tv <= 1000000 /\ tv_sec tv <= MAX_MSEC | None => True end.

Lemma ends_take_timeout timeout s P :
  linked s ->
  (forall s', stays s (c_err s.1) s' -> c_timeout s'.1 = effective timeout s.1 -> P tt s') ->
  ends (take_timeout timeout) s P.
Proof.
  intros Hl HP. pose proof (stays_refl s Hl) as Hr. destruct timeout as [[|tv]|]; simpl.
  - apply ends_ret. by apply HP.
  - apply ends_bind, ends_field, ends_bind.
    destruct (bool_decide (is_Some (c_timeout s.1))); [apply ends_ret|apply ends_malloc; [done|]];
      apply ends_upd, HP; try done; by eapply stays_ctx.
  - apply ends_upd, HP; [|done]. by eapply stays_ctx.
Qed.

Lemma ends_timeout s P :
  data_model_ok -> timeout_ok (c_timeout s.1) ->
  (forall r, (r.1 = REDIS_OK \/ r.1 = REDIS_ERR /\ ~ timeout_valid (c_timeout s.1)) -> P r s) ->
  ends redisContextTimeoutMsec s P.
Proof.
  intros Hd Ht HP. apply ends_bind, ends_field. destruct (c_timeout s.1) as [tv|].
  - eapply ends_must; [by apply timeout_msec_spec|]. destruct (_ || _) eqn:E; apply HP; [|by left].
    right. split; [done|]. simpl. lia.
  - eapply ends_must; [done|]. apply HP. by left.
Qed.

(** ** Connecting *)

Lemma ends_opt_strdup (x : option (ptr bytes)) (own : option bytes) s P :
  linked s -> (forall h s', stays s (c_err s.1) s' -> s'.1 = s.1 -> P h s') ->
  ends (match x with
        | None => mret None
        | Some Own => mret own
        | Some (Given a) => h ← hi_strdup a; mret (Some h)
        end) s P.
Proof.
  intros Hl HP. pose proof (stays_refl s Hl) as Hr. destruct x as [[|a]|]; try (apply ends_ret; by apply HP).
  apply ends_bind, ends_strdup; [done|]. apply ends_ret, HP; [|done]. by eapply stays_ctx.
Qed.

Lemma ends_ptr_strdup (x : ptr bytes) (own : option bytes) s P :
  linked s -> (forall h s', stays s (c_err s.1) s' -> s'.1 = s.1 -> P h s') ->
  ends (match x with Own => mret own | Given a => h ← hi_strdup a; mret (Some h) end) s P.
Proof. intros Hl HP. destruct x; [apply (ends_opt_strdup (Some Own))|apply (ends_opt_strdup (Some (Given x)))]; done. Qed.

Definition connects (excuse : Prop) s (m : IO N Z) : Prop :=
  ends m s (fun r s' => exists k, connect_post excuse k s r s').

(** An error that was reported, or an error of the reused address. *)
Lemma connects_error excuse s s1 e :
  stays s e s1 -> e <> 0 ->
  ends (mret REDIS_ERR) s1 (fun r s' => exists k, connect_post excuse k s r s').
Proof.
  intros (M & F & E) He. apply ends_ret. exists 0%nat. split; [by apply tried_moves|]. right.
  split; [done|]. split; [apply M|]. right. by rewrite E.
Qed.

Lemma ends_connect_tcp addr port timeout src s :
  data_model_ok -> timeout_ok (effective timeout s.1) -> linked s -> c_fd s.1 = -1 ->
  connects (has_flag REDIS_REUSEADDR s.1 = true) s (_redisContextConnectTcp addr port timeout src).
Proof.
  intros Hd Ht Hl Hfd. set (reuse := has_flag _ _). pose proof (stays_refl s Hl) as H0.
  assert (forall s1 f msec ps, stays s (c_err s.1) s1 ->
    ends (addr_loop (addr_fuel ps) f (has_flag REDIS_BLOCK s.1) reuse msec ps 0) s1
      (fun r s' => exists k, connect_post (reuse = true) k s r s')) as Hloop.
  { intros s1 f msec ps H1. pose proof H1 as (M1 & F1 & E1). eapply ends_mono.
    - apply ends_addr_loop; [apply M1|by rewrite F1|done|]. unfold addr_fuel, REDIS_CONNECT_RETRIES. lia.
    - intros r s' Hp. eexists. eapply (connect_post_after _ 0); [by apply tried_moves|done|apply M1|exact Hp]. }
  apply ends_bind, ends_ctx, ends_bind, ends_upd, ends_bind. fold reuse.
  pose proof (stays_ctx _ _ _ (with_type REDIS_CONN_TCP s.1) s.2 H0 eq_refl eq_refl) as H1.
  apply ends_ptr_strdup; [by eapply stays_linked|]. intros host s2 H2 E2.
  pose proof (still_trans _ _ _ H1 H2) as H12.
  apply ends_bind, ends_upd, ends_bind.
  pose proof (stays_ctx _ _ _ (with_tcp host (c_source_addr s.1) port s2.1) s2.2 H12 eq_refl eq_refl) as H3.
  apply ends_take_timeout; [by eapply stays_linked|]. intros s4 H4%(still_trans _ _ _ H3) Et.
  apply ends_bind, ends_timeout; [done| |].
  { rewrite Et. destruct timeout as [[|tv]|]; simpl; try done. rewrite E2. done. }
  intros t Ht4. destruct (negb _).
  { apply ends_bind, ends_set_error; [by eapply stays_linked|]. intros s5 H5.
    eapply connects_error; [by eapply stays_trans|done]. }
  apply ends_bind, ends_opt_strdup; [by eapply stays_linked|]. intros srca s5 H5%(still_trans _ _ _ H4) _.
  apply ends_bind, ends_upd, ends_bind.
  pose proof (stays_ctx _ _ _ (with_tcp host srca port s5.1) s5.2 H5 eq_refl eq_refl) as H7.
  apply ends_quiet; [by eapply stays_linked|constructor|]. intros s8 H8%(still_trans _ _ _ H7) _ _.
  destruct (_ =? 0); [by apply Hloop|].
  apply ends_bind, ends_quiet; [by eapply stays_linked|constructor|].
  intros s10 H10%(still_trans _ _ _ H8) _ _. destruct (_ =? 0); [by apply Hloop|].
  apply ends_bind, ends_set_error; [by eapply stays_linked|]. intros s12 H12'.
  eapply connects_error; [by eapply stays_trans|done].
Qed.

Lemma ends_socket_unix s P :
  linked s -> c_fd s.1 = -1 ->
  (forall s', stays s REDIS_ERR_IO s' -> P REDIS_ERR s') ->
  (forall s', tried 1 s s' -> c_fd s'.1 <> -1 -> c_err s'.1 = c_err s.1 ->
     c_flags s'.1 = c_flags s.1 -> c_timeout s'.1 = c_timeout s.1 -> c_path s'.1 = c_path s.1 ->
     P REDIS_OK s') ->
  ends (redisCreateSocket AF_UNIX) s P.
Proof.
  intros Hl Hfd HE HO. destruct (Hl) as [Ho HfO]. apply ends_bind, ends_sys.
  pose proof (socket_law AF_UNIX SOCK_STREAM 0 (e_net s.2)) as Hs.
  destruct (sys_socket _ _ _ _) as [fd n1]. rewrite Ho, Hfd in Hs. cbn [fst snd held Z.eqb] in Hs |- *.
  destruct Hs as [(-> & Eo & Em)|(Hn & Hnin & Eo & Em)].
  { apply ends_bind, ends_from_errno; [split; simpl; [by rewrite Hfd|done]|]. intros s2 ([] & F & E).
    apply ends_ret, HE. split; [|done]. simpl in *. split; (done || congruence). }
  rewrite (proj2 (Z.eqb_neq fd REDIS_INVALID_FD)) by done.
  apply ends_bind, ends_upd, ends_ret, HO; try done. split; simpl; try done; [|lia].
  split; simpl; [|set_solver]. rewrite Eo. unfold held at 2.
  rewrite (proj2 (Z.eqb_neq fd (-1))) by done. set_solver.
Qed.

Lemma connect_error_post excuse s s' r :
  status_post s r s' -> r = REDIS_ERR -> connect_post excuse 0 s r s'.
Proof.
  intros [M [(-> & _)|(-> & He)]] ?; [done|]. split; [by apply tried_moves|]. right.
  split; [done|]. split; [apply M|by right].
Qed.

Lemma ends_unix_connect excuse blocking msec sa s :
  linked s -> c_fd s.1 <> -1 ->
  ends (unix_connect blocking msec sa) s (connect_post excuse 0 s).
Proof.
  intros Hl Hfd. apply ends_bind, ends_field, ends_bind, ends_quiet; [done|constructor|].
  intros s1 H1 _ _.
  assert (forall s2, stays s (c_err s.1) s2 -> ends
    (r ← (if (blocking : bool) then redisSetBlocking true else mret REDIS_OK);
     if negb (r =? REDIS_OK) then mret REDIS_ERR else
     c ← get_ctx;
     _ ← upd_ctx (with_flags (Z.lor (c_flags c) REDIS_CONNECTED));
     mret REDIS_OK) s2 (connect_post excuse 0 s)) as Hd.
  { intros s2 H2. assert (ends (if blocking then redisSetBlocking true else mret REDIS_OK) s2
      (fun r s' => status_post s2 r s')) as Hb.
    { destruct blocking; [apply ends_set_blocking; [by eapply stays_linked|auto]|].
      apply ends_ret. eapply status_ok; [by apply stays_refl; eapply stays_linked|done]. }
    apply ends_bind. eapply ends_mono; [exact Hb|]. intros r s3 Hs3%(status_after _ _ _ _ H2).
    pose proof Hs3 as [M3 [(-> & F3 & E3)|(-> & He)]].
    2: { apply ends_ret. by apply connect_error_post. }
    apply ends_bind, ends_ctx, ends_bind, ends_upd, ends_ret.
    split; [destruct M3; split; simpl; try done; lia|]. left. simpl. rewrite F3, E3. destruct M3.
    split_and!; congruence. }
  apply ends_bind. destruct (_ =? -1); [|by apply ends_ret, Hd].
  apply ends_bind, ends_errno. destruct (_ && _); [by apply ends_ret, Hd|].
  apply ends_bind, ends_wait_ready; [by eapply stays_linked|]. intros r s2 Hs%(status_after _ _ _ _ H1).
  apply ends_ret. pose proof Hs as [M [(-> & F & E)|(-> & He)]]; [by apply Hd|].
  apply ends_ret. by apply connect_error_post.
Qed.

Lemma ends_connect_unix path timeout s :
  data_model_ok -> timeout_ok (effective timeout s.1) -> linked s -> c_fd s.1 = -1 ->
  (path = Own -> is_Some (c_path s.1)) ->
  connects (~ timeout_valid (effective timeout s.1)) s (redisContextConnectUnix path timeout).
Proof.
  intros Hd Ht Hl Hfd Hp. set (excuse := ~ _).
  apply ends_bind, ends_ctx, ends_bind, ends_socket_unix; [done..| |].
  { intros s1 H1. eapply connects_error; [exact H1|done]. }
  intros s1 T1 F1 E1 Fl1 Et1 Ep1. change (REDIS_OK <? 0) with false. cbv iota.
  assert (forall r s', connect_post excuse 0 s1 r s' ->
    exists k, connect_post excuse k s r s') as Hpost.
  { intros r s' H. exists 1%nat. by apply (connect_post_after _ 1 0 _ s1). }
  assert (linked s1) as L1 by apply T1.
  apply ends_bind, ends_set_blocking; [done|]. intros r s2 Hs2 Ec.
  pose proof Hs2 as [M2 [(-> & F2 & E2)|(-> & He)]].
  2: { apply ends_ret, Hpost. by apply connect_error_post. }
  specialize (Ec eq_refl). apply ends_bind, ends_upd, ends_bind.
  pose proof (stays_ctx _ _ _ (with_type REDIS_CONN_UNIX s2.1) s2.2 (conj M2 (conj F2 E2)) eq_refl eq_refl) as H3.
  apply (ends_mono _ _ (fun n s' => stays s1 (c_err s1.1) s' /\ c_timeout s'.1 = c_timeout s2.1)).
  { destruct path as [|q].
    - destruct (Hp eq_refl) as [h Eh]. eapply ends_must; [simpl; by rewrite Eh|]. by split.
    - apply ends_bind, ends_strdup; [done|]. apply ends_bind, ends_upd, ends_ret. split; [|done].
      by eapply stays_ctx. }
  intros name s4 [H4 Et4]. apply ends_bind, ends_take_timeout; [by eapply stays_linked|].
  intros s5 H5%(still_trans _ _ _ H4) Et5.
  assert (c_timeout s5.1 = effective timeout s.1) as Et.
  { rewrite Et5. destruct timeout as [[|tv]|]; simpl; try done. rewrite Et4, Ec. done. }
  apply ends_bind, ends_timeout; [done|by rewrite Et|]. intros t Ht'. rewrite Et in Ht'.
  destruct (Z.eqb_spec t.1 REDIS_OK) as [Eok|Eok]; cbn [negb].
  2: { apply ends_ret, Hpost. split; [by apply tried_moves, H5|]. right. split; [done|].
       split; [apply H5|]. left. by destruct Ht' as [?|[? ?]]. }
  apply ends_bind, ends_malloc; [done|]. apply ends_bind, ends_upd.
  pose proof (stays_ctx _ _ _ (with_saddr (Some (sockaddr_un name)) s5.1)
    (Env (S (e_cnt s5.2)) (e_heap s5.2) (e_net s5.2)) H5 eq_refl eq_refl) as (M6 & F6 & E6).
  eapply ends_mono; [apply (ends_unix_connect excuse); [apply M6|rewrite <- F6 in F1; exact F1]|].
  intros r s7 H7. apply Hpost. apply (connect_post_after _ 0 0 _ _ _ _ (tried_moves _ _ M6)); [done|apply M6|done].
Qed.

End facts.
