(* ===== verification/Context.v ===== *)
(** * The blocking connection (hiredis.c)

    Creating, connecting and freeing a [redisContext], its output buffer, and
    the commands.  The loops of [redisGetReply] end when the server does what
    they wait for, so they take fuel: see ContextFacts for how much is enough. *)

From Stdlib Require Import Strings.Byte String.
From S2P Require Import Prelude CLib Buffer Sds SdsFmt SdsEdit Read Reply Printf Format.
From S2P Require Import Network Net.

Section context.
Context {al : Allocator} {dm : DataModel} {fl : FloatLib} {pd : PrintfDouble}.
Context {N : Type} {nw : Network N}.

#[local] Abbreviation fnd := (Some defaultFunctions).

(** ** Creation and destruction *)

(** A computation on the reader of the context, which must not be [NULL]. *)
Definition on_reader {A}
    (f : redisReader sds -> nat -> heap -> option (A * redisReader sds * nat * heap)) : IO N A :=
  fun s =>
    r ← c_reader s.1;
    x ← f r (e_cnt s.2) (e_heap s.2);
    let '(v, r, a, h) := x in Some (v, (with_reader (Some r) s.1, Env a h (e_net s.2))).

Definition on_heap (f : heap -> option heap) : IO N unit := fun s =>
  h ← f (e_heap s.2); Some (tt, (s.1, Env (e_cnt s.2) h (e_net s.2))).

(** Freeing the buffer and the reader; either may be [NULL]. *)
Definition free_buffers : IO N unit :=
  c ← get_ctx;
  _ ← must_be (sdsfree_ptr (c_obuf c));
  match c_reader c with
  | None => mret tt
  | Some r => on_heap (redisReaderFree fnd r)
  end.

(** What is left of the context must not be used. *)
Definition redisFree : IO N unit := _ ← redisNetClose; free_buffers.

Definition redisFreeKeepFd : IO N Z :=
  fd ← field c_fd;
  _ ← upd_ctx (with_fd REDIS_INVALID_FD);
  _ ← redisFree;
  mret fd.

Definition obuf_of (o : option sds) : bufptr sds :=
  match o with Some s => BLive s | None => BNull end.

Definition sizeof_redisContext : Z := 240.

(** After [calloc]. *)
Definition zero_context : redisContext :=
  Context_ 0 [] 0 0 BNull None REDIS_CONN_TCP None None None 0 None None.

Definition new_buffers : IO N unit :=
  o ← with_cnt sdsempty;
  r ← with_cnt redisReaderCreate;
  upd_ctx (fun c => with_reader r (with_obuf (obuf_of o) c)).

Definition redisContextInit (e : env N) : option (option redisContext * env N) :=
  let '(ok, a) := calloc (e_cnt e) 1 sizeof_redisContext in
  let e := Env a (e_heap e) (e_net e) in
  if negb ok then Some (None, e) else
  s ← new_buffers (zero_context, e);
  let '(c, e) := s.2 in
  let c := with_fd REDIS_INVALID_FD c in
  match c_obuf c, c_reader c with
  | BLive _, Some _ => Some (Some c, e)
  | _, _ => f ← redisFree (c, e); Some (None, f.2.2)
  end.

(** ** Connecting *)

(** The type and the end point; [EpOther] is any other type. *)
Inductive endpoint :=
  | EpTcp (source_addr : option bytes) (ip : bytes) (port : Z)
  | EpUnix (path : bytes)
  | EpFd (fd : Z)
  | EpOther.

Definition REDIS_OPT_NONBLOCK : Z := 0x01.
Definition REDIS_OPT_REUSEADDR : Z := 0x02.
Definition REDIS_OPT_NOAUTOFREE : Z := 0x04.

Record redisOptions := Options {
  o_endpoint : endpoint;
  o_options : Z;
  o_timeout : option timeval
}.

Definition option_flags (options : Z) : Z :=
  let f := if Z.land options REDIS_OPT_NONBLOCK =? 0 then REDIS_BLOCK else 0 in
  let f := if Z.land options REDIS_OPT_REUSEADDR =? 0 then f else Z.lor f REDIS_REUSEADDR in
  if Z.land options REDIS_OPT_NOAUTOFREE =? 0 then f else Z.lor f REDIS_NO_AUTO_FREE.

(** The connection to the end point; [false] when there is no such type. *)
Definition connect_endpoint (o : redisOptions) : IO N bool :=
  let tv := Given <$> o_timeout o in
  match o_endpoint o with
  | EpTcp src ip port => _ ← redisContextConnectBindTcp (Given ip) port tv (Given <$> src); mret true
  | EpUnix path => _ ← redisContextConnectUnix (Given path) tv; mret true
  | EpFd fd =>
      _ ← upd_ctx (fun c => with_flags (Z.lor (c_flags c) REDIS_CONNECTED) (with_fd fd c)); mret true
  | EpOther => mret false
  end.

(** The timeout of a blocking connection. *)
Definition connect_timeout (o : redisOptions) : IO N unit :=
  c ← get_ctx;
  match o_timeout o with
  | Some tv =>
      if has_flag REDIS_BLOCK c && negb (c_fd c =? REDIS_INVALID_FD)
      then _ ← redisContextSetTimeout tv; mret tt else mret tt
  | None => mret tt
  end.

Definition redisConnectWithOptions (o : redisOptions) (e : env N) :
    option (option redisContext * env N) :=
  i ← redisContextInit e;
  match i with
  | (None, e) => Some (None, e)
  | (Some c, e) =>
      let c := with_flags (Z.lor (c_flags c) (option_flags (o_options o))) c in
      r ← (ok ← connect_endpoint o;
           if negb ok then mret false else _ ← connect_timeout o; mret true) (c, e);
      let '(ok, (c, e)) := r in Some (if (ok : bool) then Some c else None, e)
  end.

Definition redisConnect (ip : bytes) (port : Z) :=
  redisConnectWithOptions (Options (EpTcp None ip port) 0 None).
Definition redisConnectWithTimeout (ip : bytes) (port : Z) (tv : timeval) :=
  redisConnectWithOptions (Options (EpTcp None ip port) 0 (Some tv)).
Definition redisConnectNonBlock (ip : bytes) (port : Z) :=
  redisConnectWithOptions (Options (EpTcp None ip port) REDIS_OPT_NONBLOCK None).
Definition redisConnectBindNonBlock (ip : bytes) (port : Z) (source_addr : option bytes) :=
  redisConnectWithOptions (Options (EpTcp source_addr ip port) REDIS_OPT_NONBLOCK None).
Definition redisConnectBindNonBlockWithReuse (ip : bytes) (port : Z) (source_addr : option bytes) :=
  redisConnectWithOptions
    (Options (EpTcp source_addr ip port) (Z.lor REDIS_OPT_NONBLOCK REDIS_OPT_REUSEADDR) None).
Definition redisConnectUnix (path : bytes) :=
  redisConnectWithOptions (Options (EpUnix path) 0 None).
Definition redisConnectUnixWithTimeout (path : bytes) (tv : timeval) :=
  redisConnectWithOptions (Options (EpUnix path) 0 (Some tv)).
Definition redisConnectUnixNonBlock (path : bytes) :=
  redisConnectWithOptions (Options (EpUnix path) REDIS_OPT_NONBLOCK None).
Definition redisConnectFd (fd : Z) :=
  redisConnectWithOptions (Options (EpFd fd) 0 None).

Definition redisReconnect : IO N Z :=
  _ ← upd_ctx (with_error 0 []);
  _ ← redisNetClose;
  _ ← free_buffers;
  _ ← new_buffers;
  c ← get_ctx;
  let own {A} (x : option A) : option (ptr A) := (fun _ => Own) <$> x in
  match c_connection_type c with
  | REDIS_CONN_TCP =>
      redisContextConnectBindTcp Own (c_port c) (own (c_timeout c)) (own (c_source_addr c))
  | REDIS_CONN_UNIX => redisContextConnectUnix Own (own (c_timeout c))
  | REDIS_CONN_USERFD =>
      _ ← __redisSetError REDIS_ERR_OTHER (Some (bs "Not enough information to reconnect"));
      mret REDIS_ERR
  end.

Definition redisSetTimeout (tv : timeval) : IO N Z :=
  c ← get_ctx;
  if has_flag REDIS_BLOCK c then redisContextSetTimeout tv else mret REDIS_ERR.

Definition redisEnableKeepAlive : IO N Z :=
  r ← redisKeepAlive REDIS_KEEPALIVE_INTERVAL;
  mret (if negb (r =? REDIS_OK) then REDIS_ERR else REDIS_OK).

(** ** Input and output *)

(** The error of the reader becomes that of the context. *)
Definition reader_error : IO N unit :=
  c ← get_ctx;
  r ← must_be (c_reader c);
  __redisSetError (r_err r) (Some (r_errstr r)).

Definition redisBufferRead : IO N Z :=
  err ← field c_err;
  if negb (err =? 0) then mret REDIS_ERR else
  d ← redisNetRead (1024 * 16);
  if 0 <? d.1 then
    r ← on_reader (fun r => redisReaderFeed fnd r (Some d.2) d.1);
    if negb (r =? REDIS_OK) then _ ← reader_error; mret REDIS_ERR else mret REDIS_OK
  else if d.1 <? 0 then mret REDIS_ERR
  else mret REDIS_OK.

(** Writes what it can of the output buffer; [false] on an error. *)
Definition write_obuf : IO N bool :=
  nwritten ← redisNetWrite;
  if nwritten <? 0 then mret false
  else if 0 <? nwritten then
    s ← live_obuf;
    if nwritten =? s32 (sdslen s) then
      o ← with_cnt sdsempty;
      _ ← upd_ctx (with_obuf (obuf_of o)); mret true
    else
      s ← must_be (sdsrange s nwritten (-1));
      _ ← upd_ctx (with_obuf (BLive s)); mret true
  else mret true.

(** The status, and on success the value stored through [done]. *)
Definition redisBufferWrite : IO N (Z * bool) :=
  err ← field c_err;
  if negb (err =? 0) then mret (REDIS_ERR, false) else
  s ← live_obuf;
  ok ← (if 0 <? sdslen s then write_obuf else mret true);
  if negb ok then mret (REDIS_ERR, false) else
  s ← live_obuf;
  mret (REDIS_OK, sdslen s =? 0).

Definition redisGetReplyFromReader : IO N (Z * option optr) :=
  g ← on_reader (fun r => redisReaderGetReply fnd r true);
  if g.1 =? REDIS_ERR then _ ← reader_error; mret (REDIS_ERR, None) else mret (REDIS_OK, g.2).

(** [do ... while (!wdone)]. *)
Fixpoint write_loop (fuel : nat) : IO N Z :=
  match fuel with
  | O => must_be None
  | S f =>
      w ← redisBufferWrite;
      if w.1 =? REDIS_ERR then mret REDIS_ERR
      else if (w.2 : bool) then mret REDIS_OK else write_loop f
  end.

(** [do ... while (aux == NULL)]. *)
Fixpoint read_loop (fuel : nat) : IO N (Z * option optr) :=
  match fuel with
  | O => must_be None
  | S f =>
      r ← redisBufferRead;
      if r =? REDIS_ERR then mret (REDIS_ERR, None) else
      g ← redisGetReplyFromReader;
      if g.1 =? REDIS_ERR then mret (REDIS_ERR, None)
      else match g.2 with
           | None => read_loop f
           | Some aux => mret (REDIS_OK, Some aux)
           end
  end.

(** Flushing the output buffer and waiting for a reply. *)
Definition flush_and_wait (fuel : nat) : IO N (Z * option optr) :=
  w ← write_loop fuel;
  if w =? REDIS_ERR then mret (REDIS_ERR, None) else read_loop fuel.

(** [reply == NULL] is [want = false]; the reply is stored on success. *)
Definition redisGetReply (fuel : nat) (want : bool) : IO N (Z * option optr) :=
  g ← redisGetReplyFromReader;
  if g.1 =? REDIS_ERR then mret (REDIS_ERR, None) else
  c ← get_ctx;
  g ← (match g.2 with
       | None => if has_flag REDIS_BLOCK c then flush_and_wait fuel else mret g
       | Some _ => mret g
       end);
  if g.1 =? REDIS_ERR then mret (REDIS_ERR, None)
  else if (want : bool) then mret (REDIS_OK, g.2)
  else
    _ ← (match g.2 with
         | None => mret tt
         | Some aux => on_heap (free_reply_object aux)
         end);
    mret (REDIS_OK, None).

(** ** Commands *)

Definition __redisAppendCommand (cmd : bytes) (len : Z) : IO N Z :=
  s ← live_obuf;
  g ← with_cnt (sdscatlen s cmd len);
  match g with
  | GNull freed =>
      _ ← (if (freed : bool) then upd_ctx (with_obuf BFreed) else mret tt);
      _ ← __redisSetError REDIS_ERR_OOM (Some (bs "Out of memory"));
      mret REDIS_ERR
  | GOk s => _ ← upd_ctx (with_obuf (BLive s)); mret REDIS_OK
  end.

Definition redisAppendFormattedCommand (cmd : bytes) (len : Z) : IO N Z :=
  r ← __redisAppendCommand cmd len;
  mret (if negb (r =? REDIS_OK) then REDIS_ERR else REDIS_OK).

Definition oom_error : IO N Z :=
  _ ← __redisSetError REDIS_ERR_OOM (Some (bs "Out of memory")); mret REDIS_ERR.

Definition redisvAppendCommand (format : bytes) (ap : list vaarg) : IO N Z :=
  r ← with_cnt (redisvFormatCommand true format ap);
  let len := match r with FmtErr code => code | FmtCmd _ len => len end in
  if len =? -1 then oom_error
  else if len =? -2 then
    _ ← __redisSetError REDIS_ERR_OTHER (Some (bs "Invalid format string")); mret REDIS_ERR
  else
    cells ← must_be (match r with FmtErr _ => None | FmtCmd cells _ => Some cells end);
    cmd ← must_be (mapM id cells);
    r ← __redisAppendCommand cmd (u64 len);
    mret (if negb (r =? REDIS_OK) then REDIS_ERR else REDIS_OK).

Definition redisAppendCommand (format : bytes) (ap : list vaarg) : IO N Z :=
  redisvAppendCommand format ap.

Definition redisAppendCommandArgv (argc : Z) (argv : list bytes) (argvlen : option (list Z)) :
    IO N Z :=
  r ← with_cnt (redisFormatSdsCommandArgv true argc argv argvlen);
  let len := match r with SdsErr code => code | SdsCmd _ len => len end in
  if len =? -1 then oom_error
  else
    cmd ← must_be (match r with SdsErr _ => None | SdsCmd s _ => Some (sdsval s) end);
    r ← __redisAppendCommand cmd (u64 len);
    mret (if negb (r =? REDIS_OK) then REDIS_ERR else REDIS_OK).

Definition __redisBlockForReply (fuel : nat) : IO N (option optr) :=
  c ← get_ctx;
  if has_flag REDIS_BLOCK c then
    g ← redisGetReply fuel true;
    mret (if negb (g.1 =? REDIS_OK) then None else g.2)
  else mret None.

Definition redisvCommand (fuel : nat) (format : bytes) (ap : list vaarg) : IO N (option optr) :=
  r ← redisvAppendCommand format ap;
  if negb (r =? REDIS_OK) then mret None else __redisBlockForReply fuel.

Definition redisCommand (fuel : nat) (format : bytes) (ap : list vaarg) : IO N (option optr) :=
  redisvCommand fuel format ap.

Definition redisCommandArgv (fuel : nat) (argc : Z) (argv : list bytes)
    (argvlen : option (list Z)) : IO N (option optr) :=
  r ← redisAppendCommandArgv argc argv argvlen;
  if negb (r =? REDIS_OK) then mret None else __redisBlockForReply fuel.

End context.
