(* ===== verification/ContextFacts.v ===== *)
(** * Creating, connecting and freeing a context

    The laws of [redisContextInit], [redisConnectWithOptions], [redisReconnect]
    and [redisFree] over a system that keeps a ledger of its descriptors. *)

From Stdlib Require Import Strings.Byte String.
From stdpp Require Import gmap.
From S2P Require Import Prelude CLib Buffer Sds SdsFmt SdsEdit Read Reply Printf Format.
From S2P Require Import Network Net NetFacts Context.

Section facts.
Context {al : Allocator} {dm : DataModel} {fl : FloatLib} {N : Type} {nw : Network N}.
Context {ld : Ledger N}.
Hypothesis Hal : alloc_total al.
Variable O : gset Z.
Implicit Types (s : state N) (e : env N).

#[local] Abbreviation fnd := (Some defaultFunctions).

(** ** Buffers *)

(** A reader that has read nothing. *)
Definition fresh_reader (r : redisReader sds) : Prop := exists a a', redisReaderCreate a = Some (Some r, a').

(** Nothing to write, nothing read. *)
Definition blank (c : redisContext) : Prop :=
  (exists b, c_obuf c = BLive b /\ sds_repr b []) /\ exists r, c_reader c = Some r /\ fresh_reader r.

Lemma reader_created a : exists r a', redisReaderCreate (B := sds) a = Some (Some r, a').
Proof.
  unfold redisReaderCreate, redisReaderCreateWithFunctions. rewrite (calloc_ok Hal) by done. simpl.
  destruct (sdsempty_spec (al := al) (S a)) as ([b|] & a1 & -> & Hb); [|done]. eauto.
Qed.

Lemma fresh_free r h : fresh_reader r -> redisReaderFree fnd r h = Some h.
Proof.
  intros (a & a' & E). unfold redisReaderCreate, redisReaderCreateWithFunctions in E.
  rewrite (calloc_ok Hal) in E by done. cbn [negb] in E.
  apply bind_Some in E as ([[b|] a1] & _ & E); [|done]. by injection E as <- _.
Qed.

(** The buffers of [s] are replaced. *)
Lemma ends_new_buffers s P :
  (forall b r a, sds_repr b [] -> fresh_reader r ->
     P tt (with_reader (Some r) (with_obuf (BLive b) s.1), Env a (e_heap s.2) (e_net s.2))) ->
  ends new_buffers s P.
Proof.
  intros HP. destruct (sdsempty_spec (al := al) (e_cnt s.2)) as ([b|] & a1 & E & Hb); [|done].
  destruct (reader_created a1) as (r & a2 & Er).
  apply ends_bind. eapply ends_cnt; [exact E|]. apply ends_bind. eapply ends_cnt; [exact Er|].
  apply ends_upd, HP; [done|]. by exists a1, a2.
Qed.

Lemma init_spec e :
  exists c a, redisContextInit e = Some (Some c, Env a (e_heap e) (e_net e)) /\ blank c /\
    conn_fields c = (-1, 0, 0, c_obuf c, c_reader c) /\ c_timeout c = None /\
    c_connection_type c = c_connection_type zero_context /\ c_host c = None.
Proof.
  unfold redisContextInit. rewrite (calloc_ok Hal) by done. cbn [negb].
  edestruct (ends_new_buffers (zero_context, Env (S (e_cnt e)) (e_heap e) (e_net e))
    (fun _ s => exists b r a, sds_repr b [] /\ fresh_reader r /\
       s = (with_reader (Some r) (with_obuf (BLive b) zero_context), Env a (e_heap e) (e_net e))))
    as ([] & s & -> & b & r & a & Hb & Hr & ->); [by eauto 10|].
  cbn [mbind option_bind fst snd]. do 2 eexists. split; [done|].
  split; [|done]. split; [by exists b|by exists r].
Qed.

Lemma blank_fields c c' :
  c_obuf c' = c_obuf c -> c_reader c' = c_reader c -> blank c -> blank c'.
Proof. unfold blank. by intros -> ->. Qed.

(** ** [redisFree] *)

Lemma ends_free_buffers s b P :
  c_obuf s.1 = b -> b <> BFreed ->
  (forall r, c_reader s.1 = Some r -> exists h, redisReaderFree fnd r (e_heap s.2) = Some h /\
     P tt (s.1, Env (e_cnt s.2) h (e_net s.2))) ->
  (c_reader s.1 = None -> P tt s) ->
  ends free_buffers s P.
Proof.
  intros Eb Hb HP HN. apply ends_bind, ends_ctx, ends_bind. eapply ends_must with (x := tt).
  { rewrite Eb. by destruct b. }
  destruct (c_reader s.1) as [r|]; [|apply ends_ret; auto].
  destruct (HP r eq_refl) as (h & Eh & H). exists tt, (s.1, Env (e_cnt s.2) h (e_net s.2)).
  split; [|done]. unfold on_heap. by rewrite Eh.
Qed.

Lemma free_blank s :
  linked O s -> blank s.1 ->
  ends redisFree s (fun _ s' => opened (e_net s'.2) = O /\ e_heap s'.2 = e_heap s.2).
Proof.
  intros Hl Hb. apply ends_bind, (ends_close O); [done|]. intros s1 M1 F1 _.
  assert (blank s1.1) as [(b & Eb & _) (r & Er & Hr)].
  { eapply blank_fields; [apply M1..|done]. }
  destruct M1 as [[Ho _] _ _ _ Eh _]. rewrite F1 in Ho. cbn in Ho.
  assert (opened (e_net s1.2) = O) as HO by set_solver.
  apply (ends_free_buffers _ _ _ Eb); [done| |by rewrite Er].
  intros r' Er'. rewrite Er in Er'. injection Er' as <-. rewrite (fresh_free _ _ Hr). eauto.
Qed.

(** ** Flags *)

Lemma has_flag_connected c f : c_flags c = Z.lor f REDIS_CONNECTED -> has_flag REDIS_CONNECTED c = true.
Proof.
  intros E. unfold has_flag. rewrite E. apply negb_true_iff, Z.eqb_neq. intros H.
  apply (f_equal (fun z => Z.testbit z 1)) in H. rewrite Z.land_spec, Z.lor_spec in H.
  change (Z.testbit REDIS_CONNECTED 1) with true in H. rewrite orb_true_r in H. done.
Qed.

Lemma option_flags_cases (P : Z -> Prop) o :
  P 0 -> P 1 -> P 128 -> P 129 -> P 512 -> P 513 -> P 640 -> P 641 -> P (option_flags o).
Proof. intros. unfold option_flags. by repeat case_match. Qed.

Lemma option_not_connected o : Z.land (option_flags o) REDIS_CONNECTED = 0.
Proof. apply (option_flags_cases (fun f => Z.land f REDIS_CONNECTED = 0)); done. Qed.

Lemma option_reuse o :
  (Z.land (option_flags o) REDIS_REUSEADDR =? 0) = (Z.land o REDIS_OPT_REUSEADDR =? 0).
Proof. unfold option_flags. by repeat case_match. Qed.

(** ** Connecting *)

(** An end point hiredis opens itself. *)
Definition opens (p : endpoint) : Prop :=
  match p with EpTcp _ _ _ | EpUnix _ => True | _ => False end.

(** What [REDIS_ERR] without an error needs. *)
Definition excused (o : redisOptions) : Prop :=
  Z.land (o_options o) REDIS_OPT_REUSEADDR <> 0 \/ ~ timeout_valid (o_timeout o).

Lemma ends_set_timeout tv s P :
  linked O s -> (forall r s', moves O s s' -> c_fd s'.1 = c_fd s.1 -> (c_err s.1 <> 0 -> c_err s'.1 <> 0) ->
    ((r = REDIS_OK /\ c_err s'.1 = c_err s.1) \/ (r = REDIS_ERR /\ c_err s'.1 = REDIS_ERR_IO)) -> P r s') ->
  ends (redisContextSetTimeout tv) s P.
Proof.
  intros Hl HP. apply ends_bind, (ends_setsockopt O); [done|]. intros r s1 H1 _.
  assert (forall s' (x : Z), stays O s x s' -> x = REDIS_ERR_IO -> ends (mret REDIS_ERR) s' P) as He.
  { intros s' e (M & F & E) ->. apply ends_ret, HP; [done..|by rewrite E|auto]. }
  destruct (r =? -1).
  { apply ends_bind, (ends_from_errno O); [by eapply stays_linked|]. intros s2 H2.
    eapply He; [by eapply stays_trans|done]. }
  apply ends_bind, (ends_setsockopt O); [by eapply stays_linked|].
  intros r2 s2 H2%(still_trans O _ _ _ H1) _. destruct (r2 =? -1).
  { apply ends_bind, (ends_from_errno O); [by eapply stays_linked|]. intros s3 H3.
    eapply He; [by eapply stays_trans|done]. }
  destruct H2 as (M & F & E). apply ends_ret, HP; [done..|by rewrite E|auto].
Qed.

(** The context a connect function returns. *)
Definition made_context (o : redisOptions) (h : heap) s : Prop :=
  linked O s /\ blank s.1 /\ e_heap s.2 = h /\
  (has_flag REDIS_CONNECTED s.1 = true -> c_fd s.1 <> -1) /\
  (has_flag REDIS_CONNECTED s.1 = false -> excused o \/ c_err s.1 <> 0).

Lemma connect_post_made o excuse k s r s' :
  blank s.1 -> c_err s.1 = 0 -> c_flags s.1 = option_flags (o_options o) -> (excuse -> excused o) ->
  connect_post O excuse k s r s' -> made_context o (e_heap s.2) s'.
Proof.
  intros Hb He Hf Hex [[] H]. split; [done|]. split; [by eapply blank_fields|]. split; [done|].
  destruct H as [(-> & ? & Ee & Ef)|(-> & Ef & Hx)].
  - rewrite (has_flag_connected _ _ Ef). done.
  - assert (has_flag REDIS_CONNECTED s'.1 = false) as ->.
    { unfold has_flag. by rewrite Ef, Hf, option_not_connected. }
    split; [done|]. intros _. naive_solver.
Qed.

Lemma ends_connect_endpoint o c e :
  data_model_ok -> timeout_ok (o_timeout o) -> opens (o_endpoint o) ->
  linked O (c, e) -> c_fd c = -1 -> blank c -> c_err c = 0 ->
  c_flags c = option_flags (o_options o) ->
  ends (connect_endpoint o) (c, e) (fun ok s => ok = true /\ made_context o (e_heap e) s).
Proof.
  intros Hd Ht Hp Hl Hfd Hb He Hf.
  assert (effective (Given <$> o_timeout o) c = o_timeout o) as Heff by (by destruct (o_timeout o)).
  unfold connect_endpoint. destruct (o_endpoint o) as [src ip port|path| |]; try done; apply ends_bind.
  - eapply ends_mono; [apply (ends_connect_tcp Hal O); cbn [fst]; rewrite ?Heff; done|].
    intros r s' [k Hk]. apply ends_ret. split; [done|].
    eapply (connect_post_made o _ k (c, e)); [done..| |exact Hk].
    intros Hr. left. unfold has_flag in Hr. cbn [fst] in Hr. rewrite Hf, option_reuse in Hr.
    by apply negb_true_iff, Z.eqb_neq in Hr.
  - eapply ends_mono; [apply (ends_connect_unix Hal O); cbn [fst]; rewrite ?Heff; done|].
    intros r s' [k Hk]. apply ends_ret. split; [done|].
    eapply (connect_post_made o _ k (c, e)); [done..| |exact Hk]. cbn [fst]. rewrite Heff. by right.
Qed.

Lemma made_moves o h s s' :
  made_context o h s -> moves O s s' -> c_fd s'.1 = c_fd s.1 ->
  (c_err s.1 <> 0 -> c_err s'.1 <> 0) -> made_context o h s'.
Proof.
  intros (_ & Hb & Eh & H1 & H2) [] F E. unfold made_context, has_flag in *.
  rewrite mv_flags, mv_heap, F. split; [done|]. split; [by eapply blank_fields|].
  split; [done|]. split; [done|]. intros H. destruct (H2 H); auto.
Qed.

Lemma ends_connect_timeout o h s :
  made_context o h s -> ends (connect_timeout o) s (fun _ s' => made_context o h s').
Proof.
  intros Hm. apply ends_bind, ends_ctx. destruct (o_timeout o) as [tv|]; [|by apply ends_ret].
  destruct (_ && _); [|by apply ends_ret].
  apply ends_bind, ends_set_timeout; [apply Hm|]. intros r s' M F E _. apply ends_ret.
  by eapply made_moves.
Qed.

Lemma connect_made o e :
  data_model_ok -> timeout_ok (o_timeout o) -> opens (o_endpoint o) -> opened (e_net e) = O ->
  exists c e', redisConnectWithOptions o e = Some (Some c, e') /\ made_context o (e_heap e) (c, e').
Proof.
  intros Hd Ht Hp HO. destruct (init_spec e) as (c0 & a & Ei & Hb & [= Efd Eerr Efl] & Eto & _).
  unfold redisConnectWithOptions. rewrite Ei. cbn [mbind option_bind].
  set (c := with_flags _ c0). set (e0 := Env a (e_heap e) (e_net e)).
  assert (linked O (c, e0)) as Hl.
  { pose proof (opened_valid (e_net e)) as Hv. rewrite HO in Hv.
    split; simpl; rewrite Efd; [|done]. cbn. set_solver. }
  match goal with |- context [?f (c, e0)] => assert (ends f (c, e0)
    (fun ok s => ok = true /\ made_context o (e_heap e) s)) as (ok & [c' e'] & -> & -> & Hm) end.
  { apply ends_bind. eapply ends_mono; [apply (ends_connect_endpoint o c e0); try done|].
    - unfold c. simpl. by rewrite Efl, Z.lor_0_l.
    - intros ok s [-> Hm]. cbn [negb]. apply ends_bind.
      eapply ends_mono; [by eapply ends_connect_timeout|]. intros ? s' Hm'. by apply ends_ret. }
  by exists c', e'.
Qed.

(** ** [redisReconnect] *)

Definition reconnected (excuse : Prop) (f : Z) (h : heap) (r : Z) s : Prop :=
  linked O s /\ blank s.1 /\ e_heap s.2 = h /\
  ((r = REDIS_OK /\ c_fd s.1 <> -1 /\ c_err s.1 = 0 /\ c_flags s.1 = Z.lor f REDIS_CONNECTED) \/
   (r = REDIS_ERR /\ c_flags s.1 = f /\ (excuse \/ c_err s.1 <> 0))).

Lemma connect_post_reconnected excuse excuse' k s r s' :
  blank s.1 -> c_err s.1 = 0 -> (excuse -> excuse') -> connect_post O excuse k s r s' ->
  reconnected excuse' (c_flags s.1) (e_heap s.2) r s'.
Proof.
  intros Hb He Hx [[] H]. split; [done|]. split; [by eapply blank_fields|]. split; [done|].
  rewrite He in H. destruct H as [H|(? & ? & ?)]; [by left|right]. naive_solver.
Qed.

(** The reader of a context can be freed; this leaves the heap [h]. *)
Definition freeable s (h : heap) : Prop :=
  c_obuf s.1 <> BFreed /\
  match c_reader s.1 with
  | Some r => redisReaderFree fnd r (e_heap s.2) = Some h
  | None => h = e_heap s.2
  end.

Lemma ends_free_freeable s h P :
  freeable s h -> P tt (s.1, Env (e_cnt s.2) h (e_net s.2)) -> ends free_buffers s P.
Proof.
  intros [Hb Hr] HP. apply (ends_free_buffers _ _ _ eq_refl Hb).
  - intros r Er. rewrite Er in Hr. eauto.
  - intros Er. rewrite Er in Hr. subst h. by destruct s as [c []].
Qed.

(** Whatever the context was doing: its socket is closed, what it had not sent
    and what it had not returned is dropped, and it connects again. *)
Lemma ends_reconnect s h :
  data_model_ok -> timeout_ok (c_timeout s.1) -> linked O s -> freeable s h ->
  (c_connection_type s.1 = REDIS_CONN_UNIX -> is_Some (c_path s.1)) ->
  ends redisReconnect s
    (reconnected (has_flag REDIS_REUSEADDR s.1 = true \/ ~ timeout_valid (c_timeout s.1)) (c_flags s.1) h).
Proof.
  intros Hd Ht Hl Hf Hp. set (excuse := _ \/ _). apply ends_bind, ends_upd, ends_bind.
  apply (ends_close_ctx O); [done|]. intros s2 M2 E2. apply ends_bind, (ends_free_freeable _ h).
  { destruct M2 as [_ _ _ _ Eh _]. unfold freeable in *. by rewrite E2, Eh. }
  apply ends_bind, ends_new_buffers. intros b r a Hb Hr. cbn [fst snd e_heap e_net]. rewrite E2.
  cbn [fst]. apply ends_bind, ends_ctx. cbn [fst snd].
  set (c := with_reader _ _). set (v := Env a h (e_net s2.2)).
  assert (linked O (c, v)) as Hl3.
  { destruct M2 as [[Ho Hn] _ _ _ _ _]. rewrite E2 in Ho, Hn. done. }
  assert (blank c) as Hb3 by (split; [by exists b|by exists r]).
  assert (effective ((fun _ => Own) <$> c_timeout s.1) c = c_timeout s.1) as Heff.
  { change (c_timeout s.1) with (c_timeout c). by destruct (c_timeout c) eqn:E; simpl. }
  change (c_connection_type c) with (c_connection_type s.1).
  change (c_timeout c) with (c_timeout s.1).
  destruct (c_connection_type s.1).
  - eapply ends_mono; [apply (ends_connect_tcp Hal O); cbn [fst]; rewrite ?Heff; done|].
    intros x s' [k Hk]. eapply (connect_post_reconnected _ excuse k (c, v)); [done..| |exact Hk].
    intros H. by left.
  - eapply ends_mono; [apply (ends_connect_unix Hal O); cbn [fst]; rewrite ?Heff; auto|].
    intros x s' [k Hk]. eapply (connect_post_reconnected _ excuse k (c, v)); [done..| |exact Hk].
    cbn [fst]. rewrite Heff. intros H. by right.
  - apply ends_bind, (ends_set_error O); [done|]. intros s' (M & F & E). apply ends_ret.
    destruct M. split; [done|]. split; [by eapply blank_fields|]. split; [done|]. right.
    split; [done|]. split; [done|]. right. by rewrite E.
Qed.

(** ** A descriptor of the user *)

Lemma connect_fd_spec fd e :
  exists c a, redisConnectFd fd e = Some (Some c, Env a (e_heap e) (e_net e)) /\ blank c /\
    c_err c = 0 /\ c_fd c = fd /\ c_flags c = Z.lor REDIS_BLOCK REDIS_CONNECTED /\
    c_connection_type c = c_connection_type zero_context /\ c_host c = None.
Proof.
  destruct (init_spec e) as (c0 & a & Ei & Hb & [= Efd Eerr Efl] & Eto & Ety & Eh).
  unfold redisConnectFd, redisConnectWithOptions. rewrite Ei. cbn -[Z.lor]. rewrite Efl.
  do 2 eexists. split; [done|]. split; [by eapply blank_fields|]. simpl. by split_and!.
Qed.

End facts.
