(* ===== verification/Transport.v ===== *)
(** * Reading and writing of a connection, branch by branch

    What [redisBufferWrite], [redisBufferRead] and [__redisAppendCommand] do
    for every result of the system calls, on a context whose buffers are in
    order.  A state is written out as the context and the environment. *)

From Stdlib Require Import Strings.Byte String.
From stdpp Require Import gmap.
From S2P Require Import Prelude CLib Buffer Sds SdsFmt SdsEdit Read Parser ReaderRefines Replies.
From S2P Require Import Session Reply Tree Resp ReplyRefines Printf Format FormatFacts.
From S2P Require Import Network Net Context.

Section transport.
Context {al : Allocator} {dm : DataModel} {fl : FloatLib} {pd : PrintfDouble}.
Context {N : Type} {nw : Network N}.
Implicit Types (c : redisContext) (n : N) (h : heap) (e : env N).

#[local] Abbreviation fnd := (Some defaultFunctions).

(** An error number after which the operation may be tried again. *)
Definition again c (err : Z) : bool :=
  ((err =? EWOULDBLOCK) && negb (has_flag REDIS_BLOCK c)) || (err =? EINTR).

(** ** Writing *)

Lemma live_obuf_run c e b : c_obuf c = BLive b -> live_obuf (N := N) (c, e) = Some (b, (c, e)).
Proof. intros E. unfold live_obuf, field, must_be, mbind, io_bind. simpl. by rewrite E. Qed.

Lemma ret_run {A B} (x : A) (k : A -> IO N B) (s : state N) : (mret x ≫= k) s = k x s.
Proof. done. Qed.

Lemma bind_run {A B} (m : IO N A) (k : A -> IO N B) (s : state N) x s' :
  m s = Some (x, s') -> (m ≫= k) s = k x s'.
Proof. intros E. unfold mbind, io_bind. by rewrite E. Qed.

Lemma on_reader_run {A}
    (f : redisReader sds -> nat -> heap -> option (A * redisReader sds * nat * heap))
    c a h n r v r' a' h' :
  c_reader c = Some r -> f r a h = Some (v, r', a', h') ->
  on_reader f (c, Env a h n) = Some (v, (with_reader (Some r') c, Env a' h' n)).
Proof. intros Er Ef. unfold on_reader. cbn [fst snd e_cnt e_heap]. rewrite Er. simpl. by rewrite Ef. Qed.

(** [io_step] runs the next primitive of a computation. *)
Ltac io_step := unfold mbind at 1, io_bind at 1; cbv beta iota; cbn [fst snd].

Definition io_error c (err : Z) : redisContext :=
  with_error REDIS_ERR_IO (ztake 127 (cstr (strerror err))) c.

Lemma netwrite_run c a h n b v k n' :
  c_obuf c = BLive b -> sds_repr b v -> sys_send (c_fd c) v n = (k, n') ->
  -1 <= k <= INT_MAX ->
  redisNetWrite (c, Env a h n) =
    Some (if k <? 0 then if again c (errno n') then (k, (c, Env a h n'))
                         else (-1, (io_error c (errno n'), Env a h n'))
          else (k, (c, Env a h n'))).
Proof.
  intros Eb Hb Es Hk. unfold redisNetWrite. io_step. unfold get_ctx. io_step.
  rewrite (live_obuf_run c _ b Eb). io_step. unfold sys at 1. cbn [fst snd e_net e_cnt e_heap].
  rewrite (repr_val _ _ Hb), Es, s32_small by width_lia.
  destruct (k <? 0); [|done]. io_step. unfold get_errno. cbn [e_net snd]. fold (again c (errno n')).
  by destruct (again c (errno n')).
Qed.

Hypothesis Hal : alloc_total al.

(** The outcome of [redisBufferWrite] when [send] returns [k]. *)
Definition written c a h (v : bytes) (k : Z) n' (r : Z * bool) (s : state N) : Prop :=
  if 0 <? k then
    r = (REDIS_OK, bool_decide (k = zlen v)) /\
    exists b a', s = (with_obuf (BLive b) c, Env a' h n') /\ sds_repr b (zdrop k v)
  else if k =? 0 then r = (REDIS_OK, false) /\ s = (c, Env a h n')
  else r = (REDIS_ERR, false) /\
       s = (if again c (errno n') then c else io_error c (errno n'), Env a h n').

Lemma write_obuf_run c a h n b v k n' :
  c_obuf c = BLive b -> sds_repr b v -> sys_send (c_fd c) v n = (k, n') ->
  -1 <= k <= zlen v -> zlen v <= INT_MAX ->
  exists s, write_obuf (c, Env a h n) = Some (0 <=? k, s) /\
    if 0 <? k then exists b' a', s = (with_obuf (BLive b') c, Env a' h n') /\ sds_repr b' (zdrop k v)
    else s = (if (k =? -1) && negb (again c (errno n')) then io_error c (errno n') else c, Env a h n').
Proof.
  intros Eb Hb Es Hk Hv. unfold write_obuf. io_step.
  rewrite (netwrite_run c a h n b v k n') by (done || lia).
  destruct (Z.ltb_spec k 0) as [Hn|Hn].
  { assert (k = -1) as -> by lia. cbn [Z.ltb Z.leb Z.compare Z.eqb andb].
    destruct (again c (errno n')); cbn [negb Z.ltb Z.compare]; eauto. }
  rewrite (proj2 (Z.leb_le 0 k)) by lia. rewrite (proj2 (Z.ltb_ge k 0)) by lia.
  destruct (Z.ltb_spec 0 k) as [Hp|Hp].
  2: { rewrite (proj2 (Z.eqb_neq k (-1))) by lia. eauto. }
  io_step. rewrite (live_obuf_run c _ b Eb), (repr_len _ _ Hb), s32_small by width_lia.
  destruct (Z.eqb_spec k (zlen v)) as [->|Hne].
  - destruct (sdsempty_spec (al := al) a) as ([b'|] & a' & Ee & He); [|done].
    io_step. unfold with_cnt. cbn [fst snd e_cnt e_heap e_net]. rewrite Ee. cbn.
    eexists. split; [done|]. do 2 eexists. split; [done|]. by rewrite zdrop_all by lia.
  - destruct (sdsrange_drop b v k) as (b' & Ed & Hb'); [by rewrite ?(repr_val _ _ Hb)|lia..|].
    io_step. unfold must_be. rewrite Ed. cbn. eexists. split; [done|]. by exists b', a.
Qed.

Lemma bufferwrite_run c a h n b v k n' :
  c_err c = 0 -> c_obuf c = BLive b -> sds_repr b v -> v <> [] -> zlen v <= INT_MAX ->
  sys_send (c_fd c) v n = (k, n') -> -1 <= k <= zlen v ->
  exists r s, redisBufferWrite (c, Env a h n) = Some (r, s) /\ written c a h v k n' r s.
Proof.
  intros He Eb Hb Hne Hv Es Hk. unfold redisBufferWrite, field. io_step. rewrite He. cbn [Z.eqb negb].
  io_step. rewrite (live_obuf_run c _ b Eb), (repr_len _ _ Hb).
  assert (0 < zlen v) by (destruct v; [done|zlia]). rewrite (proj2 (Z.ltb_lt 0 _)) by done.
  destruct (write_obuf_run c a h n b v k n') as (s & Ew & Hs); [done..|].
  io_step. rewrite Ew. unfold written. destruct (Z.ltb_spec 0 k) as [Hp|Hp].
  - rewrite (proj2 (Z.leb_le 0 k)) by lia. cbn [negb]. destruct Hs as (b' & a' & -> & Hb').
    io_step. rewrite (live_obuf_run _ _ b') by done. rewrite (repr_len _ _ Hb').
    do 2 eexists. split; [done|]. split; [|by exists b', a']. f_equal. rewrite zlen_zdrop by lia.
    destruct (Z.eqb_spec (zlen v - k) 0); [rewrite bool_decide_true|rewrite bool_decide_false]; done || lia.
  - destruct (Z.eqb_spec k 0) as [->|].
    + cbn in Hs |- *. subst s. io_step. rewrite (live_obuf_run c _ b Eb), (repr_len _ _ Hb).
      do 2 eexists. split; [done|]. split; [|done]. f_equal. lia.
    + assert (k = -1) as -> by lia. cbn in Hs |- *. subst s. do 2 eexists. split; [done|].
      split; [done|]. by destruct (again c (errno n')).
Qed.

Lemma bufferwrite_empty c a h n b :
  c_err c = 0 -> c_obuf c = BLive b -> sds_repr b [] ->
  redisBufferWrite (c, Env a h n) = Some ((REDIS_OK, true), (c, Env a h n)).
Proof.
  intros He Eb Hb. unfold redisBufferWrite, field. io_step. rewrite He. cbn [Z.eqb negb].
  io_step. rewrite (live_obuf_run c _ b Eb), (repr_len _ _ Hb).
  change (0 <? zlen []) with false. cbv iota. rewrite ret_run. cbn [negb]. io_step. rewrite (live_obuf_run c _ b Eb), (repr_len _ _ Hb). done.
Qed.

(** ** Appending *)

Lemma append_run c a h n b v cmd r :
  c_obuf c = BLive b -> sds_repr b v -> zlen v + zlen cmd <= BUF_SAFE ->
  exists b' a', __redisAppendCommand (N := N) (cmd ++ r) (zlen cmd) (c, Env a h n)
    = Some (REDIS_OK, (with_obuf (BLive b') c, Env a' h n)) /\ sds_repr b' (v ++ cmd).
Proof.
  intros Eb Hb Hl. pose proof (zlen_nonneg cmd). pose proof (zlen_nonneg r).
  destruct (sdscatlen_spec b v (cmd ++ r) (zlen cmd) a Hb) as ([f|b'] & a' & Ec & Hg); [zlia|done|done|].
  rewrite ztake_app_len in Hg.
  exists b', a'. split; [|done]. unfold __redisAppendCommand. io_step. rewrite (live_obuf_run c _ b Eb).
  io_step. unfold with_cnt. cbn [fst snd e_cnt e_heap e_net]. by rewrite Ec.
Qed.

(** ** Reading *)

(** The error after a failed [recv], if it is one. *)
Definition recv_error c (err : Z) : redisContext :=
  if again c err then c
  else if (err =? ETIMEDOUT) && has_flag REDIS_BLOCK c
       then with_error REDIS_ERR_TIMEOUT (bs "recv timeout") c
       else io_error c err.

(** The outcome of [redisBufferRead] when [recv] returns [k] and the bytes [d]. *)
Definition was_read c (r : redisReader sds) p a h (k : Z) (d : bytes) n' (status : Z) (s : state N) : Prop :=
  if 0 <? k then
    status = REDIS_OK /\ exists b' r' a', s = (with_reader (Some r') c, Env a' h n') /\
      awaits fnd b' r' (p_feed p d) /\ r_len r' = r_len r + k
  else if k =? 0 then
    status = REDIS_ERR /\
    s = (with_error REDIS_ERR_EOF (bs "Server closed the connection") c, Env a h n')
  else status = (if again c (errno n') then REDIS_OK else REDIS_ERR) /\
       s = (recv_error c (errno n'), Env a h n').

Lemma bufferread_run c a h n b r p k d n' :
  c_err c = 0 -> c_reader c = Some r -> awaits fnd b r p ->
  sys_recv (c_fd c) (1024 * 16) n = (k, d, n') ->
  -1 <= k <= 1024 * 16 -> (0 < k -> zlen d = k) -> r_len r + k <= INT_MAX ->
  exists status s, redisBufferRead (c, Env a h n) = Some (status, s) /\ was_read c r p a h k d n' status s.
Proof.
  intros He Er Haw Es Hk Hd Hl. unfold redisBufferRead, field. io_step. rewrite He. cbn [Z.eqb negb].
  io_step. unfold redisNetRead. io_step. unfold get_ctx. io_step. unfold sys at 1.
  cbn [fst snd e_net e_cnt e_heap]. rewrite Es. cbn [fst snd]. rewrite s32_small by width_lia. unfold was_read.
  destruct (Z.eqb_spec k (-1)) as [->|Hn].
  { cbn [Z.ltb Z.eqb Z.compare]. io_step. unfold get_errno. cbn [snd e_net].
    unfold recv_error. fold (again c (errno n')). destruct (again c (errno n')); [cbn; eauto|].
    destruct (_ && _); do 2 eexists; (split; [|done]); done. }
  destruct (Z.eqb_spec k 0) as [->|H0]; [cbn; eauto|].
  assert (0 < k) as Hp by lia. rewrite (proj2 (Z.ltb_lt 0 k)) by done. specialize (Hd Hp).
  unfold mret at 1, io_ret. cbn [fst snd]. rewrite (proj2 (Z.ltb_lt 0 k)) by done.
  destruct (feed_refines fnd b r p d a h Hal Haw ltac:(lia)) as (b' & r' & a' & Ef & Haw' & Hl').
  io_step. unfold on_reader. cbn [fst snd e_cnt e_heap e_net]. rewrite Er. cbn [mbind option_bind].
  rewrite <- Hd, Ef. cbn. do 2 eexists. split; [done|]. split; [done|].
  exists b', r', a'. done.
Qed.

(** The outcome of [redisGetReplyFromReader], by what the parser does. *)
Lemma fromreader_run c a h n b r p :
  LP64 -> c_reader c = Some r -> awaits fnd b r p ->
  match parse fnd p a h with
  | None => True
  | Some (More q, a', h') => exists b' r',
      redisGetReplyFromReader (N := N) (c, Env a h n)
        = Some ((REDIS_OK, None), (with_reader (Some r') c, Env a' h' n)) /\
      awaits fnd b' r' q /\ r_len r' <= r_len r
  | Some (Done q, a', h') => exists b' r',
      redisGetReplyFromReader (N := N) (c, Env a h n)
        = Some ((REDIS_OK, p_reply q), (with_reader (Some r') c, Env a' h' n)) /\
      awaits fnd b' r' (start (p_clear q)) /\ r_len r' <= r_len r
  | Some (Bad code msg reply, a', h') => exists r',
      redisGetReplyFromReader (N := N) (c, Env a h n)
        = Some ((REDIS_ERR, None),
                (with_error code (ztake 127 (cstr (r_errstr r'))) (with_reader (Some r') c), Env a' h' n)) /\
      dead r' code msg reply
  end.
Proof.
  intros Hlp Er Haw. pose proof (getreply_refines fnd b r p true a h Hlp Haw) as Hg.
  destruct (parse fnd p a h) as [[[[q|code msg reply|q] a'] h']|]; [..|done]; unfold redisGetReplyFromReader.
  - destruct Hg as (b' & r' & Eg & Haw' & Hl). rewrite (bind_run _ _ _ _ _ (on_reader_run _ _ _ _ _ _ _ _ _ _ Er Eg)).
    cbn. eauto.
  - destruct Hg as (r' & Eg & Hd). rewrite (bind_run _ _ _ _ _ (on_reader_run _ _ _ _ _ _ _ _ _ _ Er Eg)).
    exists r'. split; [|done]. rewrite <- (de_err _ _ _ _ Hd). reflexivity.
  - cbn [taken] in Hg. destruct Hg as (b' & r' & Eg & Haw' & Hl).
    rewrite (bind_run _ _ _ _ _ (on_reader_run _ _ _ _ _ _ _ _ _ _ Er Eg)). cbn. eauto.
Qed.

End transport.
