(* ===== verification/Pipeline.v ===== *)
(** * A connection to a server

    [Peer]: what a stream socket in blocking mode promises, with the bytes the
    server has been sent and those the client has read, and a server given by
    the bytes it answers to the bytes it has been sent.  Over such a peer
    [redisGetReply] ends, and returns the next reply. *)

From Stdlib Require Import Strings.Byte String.
From stdpp Require Import gmap.
From S2P Require Import Prelude CLib Buffer Sds SdsFmt SdsEdit Read Parser ReaderRefines Replies.
From S2P Require Import Session Reply Tree Resp ReplyRefines Streams Printf Format.
From S2P Require Import FormatFacts Network Net Context Transport.

(** [send] accepts a part of its data, at least one byte; [recv] waits for
    data when the server has more to say, and returns some of it, unless it is
    interrupted. *)
Class Peer (N : Type) {nw : Network N} (answer : bytes -> bytes) (fd : Z) := {
  delivered : N -> bytes;
  received : N -> bytes;
  delays : N -> nat;
  send_law n d :
    d <> [] ->
    let '(k, n') := sys_send fd d n in
    0 < k <= zlen d /\ delivered n' = delivered n ++ ztake k d /\ received n' = received n /\
    (delays n' <= delays n)%nat;
  recv_law n cap rem :
    0 < cap -> rem <> [] -> received n ++ rem = answer (delivered n) ->
    let '(k, d, n') := sys_recv fd cap n in
    delivered n' = delivered n /\
    ((k = -1 /\ errno n' = EINTR /\ received n' = received n /\ (delays n' < delays n)%nat) \/
     (0 < k <= cap /\ zlen d = k /\ received n' = received n ++ d /\
      (exists rem', rem = d ++ rem') /\ (delays n' <= delays n)%nat))
}.

Section pipeline.
Context {al : Allocator} {dm : DataModel} {fl : FloatLib} {pd : PrintfDouble}.
Context {N : Type} {nw : Network N} {answer : bytes -> bytes} {fd : Z} {peer : Peer N answer fd}.
Hypothesis Hal : alloc_total al.
Hypothesis Hstrtod : strtod_bounded.
Hypothesis Hlp : LP64.
Implicit Types (c : redisContext) (n : N) (h : heap) (p q : parser) (t : reply).

#[local] Abbreviation fnd := (Some defaultFunctions).
#[local] Instance counter_free_ : CounterFree fnd := default_counter_free Hal.

(** ** The reply the reader is working on *)

(** With the bytes [rem] the parser [q] completes the reply [t], whose objects
    come after those of [h], and leaves [later]. *)
Definition aims q (rem : bytes) (hq : heap) t h (later : bytes) : Prop :=
  exists a a' st priv, length st = 9%nat /\
    parse fnd (p_feed q rem) a hq =
      Some (Done (Parser later st (-1) (Some (OLoc (h_next h))) priv), a', h_add t h).

Lemma same_parse p a b h : same (parse fnd p a h) (parse fnd p b h).
Proof. exact (same_run fnd _ p a b h). Qed.

Lemma aims_at q rem hq t h later a :
  aims q rem hq t h later -> exists a' st priv, length st = 9%nat /\
    parse fnd (p_feed q rem) a hq =
      Some (Done (Parser later st (-1) (Some (OLoc (h_next h))) priv), a', h_add t h).
Proof.
  intros (a0 & a' & st & priv & Hst & E).
  destruct (same_some_inv (parse fnd (p_feed q rem) a hq) _ a' _
    (eq_trans (same_parse _ a a0 _) (f_equal erase E))) as (c & Ec).
  by exists c, st, priv.
Qed.

(** Between two replies. *)
Lemma aims_start p rem t h later :
  heap_ok h -> ready h p [] h -> wf_reply 8 t -> p_rest p ++ rem = encode t ++ later ->
  aims p rem h t h later.
Proof.
  intros Hh Hr Hw E. pose proof (parse_default Hal Hstrtod (p_feed p rem) h 0 Hh) as Hp.
  change (p_rest (p_feed p rem)) with (p_rest p ++ rem) in Hp. rewrite E, resp_encode in Hp by done.
  destruct Hp as (st & a' & Hst & _ & Ep); [by destruct Hr; split|]. by exists 0%nat, a', st, (p_priv p).
Qed.

(** The reader makes a step: it needs more, or has the reply. *)
Lemma aims_step q rem hq t h later a :
  aims q rem hq t h later ->
  (exists q' a' h', parse fnd q a hq = Some (More q', a', h') /\ aims q' rem h' t h later /\ rem <> []) \/
  (exists rest st priv a', parse fnd q a hq =
      Some (Done (Parser rest st (-1) (Some (OLoc (h_next h))) priv), a', h_add t h) /\
    length st = 9%nat /\ rest ++ rem = later).
Proof.
  intros Ha. destruct (aims_at _ _ _ _ _ _ a Ha) as (a' & st & priv & Hst & E).
  rewrite parse_feed in E. destruct (parse fnd q a hq) as [[[[q'|c m r|q'] a1] h1]|] eqn:Ep; [|done| |done].
  - left. exists q', a1, h1. split; [done|]. split; [by exists a1, a', st, priv|].
    intros ->. assert (p_feed q [] = q) as Eq by apply p_feed_nil.
    pose proof (parse_feed fnd q [] a hq) as E2. rewrite Eq, Ep, E in E2. done.
  - right. destruct q'. unfold p_feed in E. simpl in E. simplify_eq. do 4 eexists. done.
Qed.

Lemma aims_more q rem hq t h later (e : bytes) :
  aims q rem hq t h later -> aims q (rem ++ e) hq t h (later ++ e).
Proof.
  intros (a & a' & st & priv & Hst & E). exists a, a', st, priv. split; [done|].
  by rewrite p_feed_app, parse_feed, E.
Qed.

Lemma aims_feed q d rem hq t h later :
  aims q (d ++ rem) hq t h later -> aims (p_feed q d) rem hq t h later.
Proof. intros (a & a' & st & priv & H). exists a, a', st, priv. by rewrite <- p_feed_app. Qed.

(** ** Between two calls *)

(** The reader [r] is between two replies with [rest] unread, after the objects of [h]. *)
Definition idle (r : redisReader sds) (rest : bytes) h : Prop :=
  exists b p, awaits fnd b r p /\ ready h p [] h /\ p_rest p = rest.

(** One attempt at a reply. *)
Lemma try_reply c a hq n b r q rem t h later :
  c_reader c = Some r -> awaits fnd b r q -> aims q rem hq t h later ->
  (exists b' r' q' a' h', redisGetReplyFromReader (c, Env a hq n)
      = Some ((REDIS_OK, None), (with_reader (Some r') c, Env a' h' n)) /\
     awaits fnd b' r' q' /\ aims q' rem h' t h later /\ rem <> [] /\ r_len r' <= r_len r) \/
  (exists r' a' rest, redisGetReplyFromReader (c, Env a hq n)
      = Some ((REDIS_OK, Some (OLoc (h_next h))), (with_reader (Some r') c, Env a' (h_add t h) n)) /\
     idle r' rest (h_add t h) /\ rest ++ rem = later /\ r_len r' <= r_len r).
Proof.
  intros Er Haw Ha. pose proof (fromreader_run c a hq n b r q Hlp Er Haw) as Hf.
  destruct (aims_step _ _ _ _ _ _ a Ha) as [(q' & a' & h' & Ep & Ha' & Hrem)|(rest & st & priv & a' & Ep & Hst & El)];
    rewrite Ep in Hf; destruct Hf as (b' & r' & Eg & Haw' & Hl).
  - left. exists b', r', q', a', h'. done.
  - right. exists r', a', rest. split; [done|]. split; [|done]. exists b'. eexists. split; [exact Haw'|].
    split; [by apply start_ready|done].
Qed.

(** ** Waiting for a reply *)

(** One call of [redisBufferRead] while the server has more to say: the bytes
    arrive, or the call was interrupted. *)
Lemma peer_read c a h n b r p rem :
  c_err c = 0 -> c_fd c = fd -> c_reader c = Some r -> awaits fnd b r p ->
  rem <> [] -> received n ++ rem = answer (delivered n) -> r_len r + zlen rem <= INT_MAX ->
  exists b' r' a' n' d rem',
    redisBufferRead (c, Env a h n) = Some (REDIS_OK, (with_reader (Some r') c, Env a' h n')) /\
    awaits fnd b' r' (p_feed p d) /\ rem = d ++ rem' /\ r_len r' = r_len r + zlen d /\
    delivered n' = delivered n /\ received n' = received n ++ d /\
    (length rem' + delays n' < length rem + delays n)%nat /\ (delays n' <= delays n)%nat.
Proof.
  intros He Hfd Er Haw Hrem Hrec Hlen. pose proof (recv_law (fd := fd) n (1024 * 16) rem ltac:(lia) Hrem Hrec) as Hl.
  destruct (sys_recv fd (1024 * 16) n) as [[k d] n'] eqn:Es. destruct Hl as (Hdel & Hl).
  rewrite <- Hfd in Es.
  assert (-1 <= k <= 1024 * 16 /\ (0 < k -> zlen d = k) /\ r_len r + k <= INT_MAX) as (Hk & Hd & Hm).
  { destruct Hl as [(-> & _)|(Hk & Hd & _ & (rem' & ->) & _)].
    - pose proof (awaits_len _ _ _ _ Haw). split; [lia|]. split; lia.
    - rewrite zlen_app in Hlen. pose proof (zlen_nonneg rem'). split; [lia|]. split; [done|lia]. }
  destruct (bufferread_run Hal c a h n b r p k d n' He Er Haw Es Hk Hd Hm) as (st & s & E & Hw).
  rewrite E. unfold was_read in Hw.
  destruct Hl as [(-> & Herr & Hr & Hdelay)|(Hp & Hz & Hr & (rem' & ->) & Hdelay)].
  - cbn in Hw. unfold recv_error, again in Hw. rewrite Herr, Z.eqb_refl, orb_true_r in Hw.
    destruct Hw as [-> ->]. exists b, r, a, n', [], rem.
    rewrite p_feed_nil, app_nil_r, (zlen_nil (A := byte)). split_and!; try done; [|lia..]. destruct c. simpl in Er. by subst.
  - rewrite (proj2 (Z.ltb_lt 0 k)) in Hw by lia. destruct Hw as (-> & b' & r' & a' & -> & Haw' & Hl').
    exists b', r', a', n', d, rem'. split_and!; try done; [lia|]. rewrite length_app.
    unfold zlen in Hz. lia.
Qed.

(** [read_loop] ends, with the reply. *)
Lemma read_loop_run fuel c a hq n b r q rem t h later :
  c_err c = 0 -> c_fd c = fd -> c_reader c = Some r -> awaits fnd b r q ->
  aims q rem hq t h later -> rem <> [] -> received n ++ rem = answer (delivered n) ->
  r_len r + zlen rem <= INT_MAX -> (length rem + delays n < fuel)%nat ->
  exists r' a' n' rest rem',
    read_loop fuel (c, Env a hq n) = Some ((REDIS_OK, Some (OLoc (h_next h))),
      (with_reader (Some r') c, Env a' (h_add t h) n')) /\
    idle r' rest (h_add t h) /\ rest ++ rem' = later /\
    delivered n' = delivered n /\ received n' ++ rem' = answer (delivered n) /\
    r_len r' + zlen rem' <= r_len r + zlen rem /\ (delays n' <= delays n)%nat.
Proof.
  intros He Hfd. revert c a hq n b r q rem He Hfd.
  induction fuel as [|fuel IH]; intros c a hq n b r q rem He Hfd Er Haw Ha Hrem Hrec Hlen Hf; [lia|].
  cbn [read_loop].
  destruct (peer_read c a hq n b r q rem He Hfd Er Haw Hrem Hrec Hlen)
    as (b1 & r1 & a1 & n1 & d & rem1 & E1 & Haw1 & -> & Hl1 & Hd1 & Hr1 & Hm1 & Hdl1).
  rewrite (bind_run _ _ _ _ _ E1). change (REDIS_OK =? REDIS_ERR) with false. cbv iota.
  apply aims_feed in Ha. set (c1 := with_reader (Some r1) c).
  rewrite zlen_app in Hlen.
  assert (received n1 ++ rem1 = answer (delivered n1)) as Hrec1.
  { by rewrite Hr1, Hd1, <- (assoc_L (++)). }
  destruct (try_reply c1 a1 hq n1 b1 r1 _ rem1 t h later eq_refl Haw1 Ha)
    as [(b2 & r2 & q2 & a2 & h2 & E2 & Haw2 & Ha2 & Hrem2 & Hl2)|(r2 & a2 & rest & E2 & Hi & El & Hl2)];
    rewrite (bind_run _ _ _ _ _ E2); cbn [fst snd]; change (REDIS_OK =? REDIS_ERR) with false; cbv iota.
  - destruct (IH (with_reader (Some r2) c1) a2 h2 n1 b2 r2 q2 rem1)
      as (r3 & a3 & n3 & rest & rem3 & E3 & Hi3 & Hlater & Hd3 & Hr3 & Hl3 & Hm3); try done; [lia..|].
    exists r3, a3, n3, rest, rem3. split_and!; try done; [by rewrite Hd3|by rewrite Hr3, Hd1|rewrite zlen_app; lia|lia].
  - exists r2, a2, n1, rest, rem1. split_and!; try done; [by rewrite Hrec1, Hd1|rewrite zlen_app; lia].
Qed.

(** ** Flushing the output *)

(** [write_loop] ends, with everything sent. *)
Lemma write_loop_run fuel c a h n b v :
  c_err c = 0 -> c_fd c = fd -> c_obuf c = BLive b -> sds_repr b v -> zlen v <= INT_MAX ->
  (length v < fuel)%nat ->
  exists b' a' n', write_loop fuel (c, Env a h n) =
      Some (REDIS_OK, (with_obuf (BLive b') c, Env a' h n')) /\ sds_repr b' [] /\
    delivered n' = delivered n ++ v /\ received n' = received n /\ (delays n' <= delays n)%nat.
Proof.
  intros He Hfd. revert c a n b v He Hfd.
  induction fuel as [|fuel IH]; intros c a n b v He Hfd Eb Hb Hv Hf; [lia|]. cbn [write_loop].
  destruct (decide (v = [])) as [->|Hne].
  { rewrite (bind_run _ _ _ _ _ (bufferwrite_empty c a h n b He Eb Hb)). cbn.
    exists b, a, n. rewrite app_nil_r. split_and!; try done. destruct c. simpl in Eb. by subst. }
  pose proof (send_law (fd := fd) n v Hne) as Hl. destruct (sys_send fd v n) as [k n1] eqn:Es.
  destruct Hl as (Hk & Hd1 & Hr1 & Hm1). rewrite <- Hfd in Es.
  destruct (bufferwrite_run Hal c a h n b v k n1) as (r & s & E & Hw); [done..|lia|].
  rewrite (bind_run _ _ _ _ _ E). unfold written in Hw. rewrite (proj2 (Z.ltb_lt 0 k)) in Hw by lia.
  destruct Hw as (-> & b1 & a1 & -> & Hb1). cbn [fst snd].
  change (REDIS_OK =? REDIS_ERR) with false. cbv iota.
  destruct (bool_decide_reflect (k = zlen v)) as [->|Hkn].
  - exists b1, a1, n1. rewrite zdrop_all in Hb1 by lia. rewrite ztake_all in Hd1 by lia. done.
  - assert (length (zdrop k v) < length v)%nat as Hlt.
    { unfold zdrop. rewrite length_drop. unfold zlen in *. lia. }
    assert (zlen (zdrop k v) = zlen v - k) by (apply zlen_zdrop; lia).
    destruct (IH (with_obuf (BLive b1) c) a1 n1 b1 (zdrop k v))
      as (b2 & a2 & n2 & E2 & Hb2 & Hd2 & Hr2 & Hm2); try done; [lia..|].
    exists b2, a2, n2. split_and!; try done; [|by rewrite Hr2, Hr1|lia].
    rewrite Hd2, Hd1, <- (assoc_L (++)), ztake_zdrop. done.
Qed.

(** ** [redisGetReply] *)

(** The context is between two calls: the replies [infl] are on their way, the
    bytes [pend] wait to be sent, the objects are those of [h]; there is place
    for [room] more bytes in the reader. *)
Record serving (infl : list reply) (pend : bytes) h (room : Z) (s : state N) : Prop := Serving {
  sv_err : c_err s.1 = 0;
  sv_block : has_flag REDIS_BLOCK s.1 = true;
  sv_fd : c_fd s.1 = fd;
  sv_heap : e_heap s.2 = h;
  sv_ok : heap_ok h;
  sv_obuf : exists b, c_obuf s.1 = BLive b /\ sds_repr b pend;
  sv_reader : exists r rest rem, c_reader s.1 = Some r /\ idle r rest h /\
    rest ++ rem = encodes infl /\ received (e_net s.2) ++ rem = answer (delivered (e_net s.2)) /\
    r_len r + zlen rem + room <= INT_MAX
}.

Lemma encode_nonempty t d : wf_reply d t -> encode t <> [].
Proof.
  intros Hw E. pose proof (resp_encode t d [] Hw) as Hr. apply resp_consumes in Hr.
  rewrite app_nil_r, E in Hr. simpl in Hr. lia.
Qed.

Lemma encodes_app l k : encodes (l ++ k) = encodes l ++ encodes k.
Proof. unfold encodes. by rewrite fmap_app, concat_app. Qed.

Lemma encodes_cons t l : encodes (t :: l) = encode t ++ encodes l.
Proof. done. Qed.

(** The fields that reading and writing without an error leave as they are. *)
Definition conn_same c c' : Prop :=
  (c_err c', c_fd c', c_flags c') = (c_err c, c_fd c, c_flags c).

(** A reply that has to be waited for: what is pending is sent first. *)
Lemma flush_run fuel c a hq n b b' v r q rem t h later :
  c_err c = 0 -> c_fd c = fd -> c_obuf c = BLive b -> sds_repr b v -> zlen v <= INT_MAX ->
  c_reader c = Some r -> awaits fnd b' r q -> aims q rem hq t h later -> rem <> [] ->
  received n ++ rem = answer (delivered n ++ v) -> r_len r + zlen rem <= INT_MAX ->
  (length v + length rem + delays n < fuel)%nat ->
  exists c' a' n' r' rest rem',
    flush_and_wait fuel (c, Env a hq n)
      = Some ((REDIS_OK, Some (OLoc (h_next h))), (c', Env a' (h_add t h) n')) /\
    conn_same c c' /\ (exists b, c_obuf c' = BLive b /\ sds_repr b []) /\
    c_reader c' = Some r' /\ idle r' rest (h_add t h) /\ rest ++ rem' = later /\
    delivered n' = delivered n ++ v /\ received n' ++ rem' = answer (delivered n') /\
    r_len r' + zlen rem' <= r_len r + zlen rem /\ (delays n' <= delays n)%nat.
Proof.
  intros He Hfd Eb Hb Hv Er Haw Ha Hrem Hrec Hlen Hf.
  destruct (write_loop_run fuel c a hq n b v) as (b1 & a1 & n1 & E1 & Hb1 & Hd1 & Hr1 & Hm1); try done; [lia|].
  destruct (read_loop_run fuel (with_obuf (BLive b1) c) a1 hq n1 b' r q rem t h later)
    as (r2 & a2 & n2 & rest & rem2 & E2 & Hi & Hl & Hd2 & Hr2 & Hlen2 & Hm2); try done; [by rewrite Hr1, Hd1|lia|].
  unfold flush_and_wait. rewrite (bind_run _ _ _ _ _ E1). change (REDIS_OK =? REDIS_ERR) with false.
  cbv iota. rewrite E2. do 6 eexists. split; [done|]. split; [done|]. split; [by exists b1|].
  split; [done|]. split; [exact Hi|]. split; [exact Hl|]. rewrite Hd2. split; [done|]. split; [done|].
  split; [done|lia].
Qed.

Lemma get_run fuel infl pend tp h room t ts s :
  serving infl pend h room s -> infl ++ tp = t :: ts -> wf_reply 8 t ->
  answer (delivered (e_net s.2) ++ pend) = answer (delivered (e_net s.2)) ++ encodes tp ->
  zlen (encodes tp) <= room -> zlen pend <= INT_MAX ->
  (length pend + length (encodes (t :: ts)) + delays (e_net s.2) < fuel)%nat ->
  exists s', redisGetReply fuel true s = Some ((REDIS_OK, Some (OLoc (h_next h))), s') /\
    (delays (e_net s'.2) <= delays (e_net s.2))%nat /\
    ((exists infl', infl = t :: infl' /\ serving infl' pend (h_add t h) room s' /\
        delivered (e_net s'.2) = delivered (e_net s.2)) \/
     (serving ts [] (h_add t h) (room - zlen (encodes tp)) s' /\
        delivered (e_net s'.2) = delivered (e_net s.2) ++ pend)).
Proof.
  intros Hs Et Hw Hans Hroom Hpend Hf. destruct s as [c [a h' n]].
  destruct Hs as [He Hblk Hfd <- Hok (b & Eb & Hb) (r & rest & rem & Er & (br & p & Haw & Hrd & Hp) & Erem & Hrec & Hlen)].
  cbn [fst snd e_net e_heap e_cnt] in *. subst rest.
  assert (aims p (rem ++ encodes tp) h' t h' (encodes ts)) as Ha.
  { apply aims_start; [done..|]. by rewrite (assoc_L (++)), Erem, <- encodes_app, Et. }
  unfold redisGetReply.
  destruct (try_reply c a h' n br r p _ t h' _ Er Haw Ha)
    as [(b1 & r1 & q & a1 & h1 & E1 & Haw1 & Ha1 & Hrem1 & Hl1)|(r1 & a1 & rest1 & E1 & Hi1 & El & Hl1)];
    rewrite (bind_run _ _ _ _ _ E1); cbn [fst snd]; change (REDIS_OK =? REDIS_ERR) with false; cbv iota.
  - assert (zlen (rem ++ encodes tp) + r_len r1 <= INT_MAX) as Hm1 by (rewrite zlen_app; lia).
    assert (length (rem ++ encodes tp) <= length (encodes (t :: ts)))%nat as Hle.
    { apply (f_equal length) in Erem. rewrite <- Et, encodes_app, !length_app in *. lia. }
    destruct (flush_run fuel (with_reader (Some r1) c) a1 h1 n b b1 pend r1 q (rem ++ encodes tp) t h' (encodes ts))
      as (c' & a2 & n2 & r2 & rest2 & rem2 & E2 & Ec & Hb2 & Er2 & Hi2 & El2 & Hd2 & Hr2 & Hlen2 & Hdl2);
      try done; [by rewrite (assoc_L (++)), Hrec, <- Hans|lia..|].
    unfold get_ctx. rewrite (bind_run _ _ _ _ _ eq_refl). cbn [fst]. 
    replace (has_flag REDIS_BLOCK (with_reader (Some r1) c)) with true by done. cbv iota.
    rewrite (bind_run _ _ _ _ _ E2). cbn [fst snd]. change (REDIS_OK =? REDIS_ERR) with false. cbv iota.
    eexists. split; [done|]. cbn [fst snd e_net]. split; [lia|]. right. split; [|done].
    injection Ec as Ee Ef Eg. split; cbn [fst snd e_net e_heap]; try done.
    + by rewrite Ee.
    + unfold has_flag. by rewrite Eg.
    + by rewrite Ef.
    + by apply h_add_ok.
    + exists r2, rest2, rem2. split_and!; try done. rewrite zlen_app in Hlen2. lia.
  - cbn [mbind io_bind fst snd]. unfold get_ctx. rewrite (bind_run _ _ _ _ _ eq_refl). cbn [fst].
    rewrite ret_run. cbn [fst snd]. change (REDIS_OK =? REDIS_ERR) with false. cbv iota.
    eexists. split; [done|]. cbn [fst snd e_net]. split; [lia|]. left.
    destruct infl as [|x infl']; simplify_eq/=.
    + apply (f_equal length) in El. change (encodes (t :: ts)) with (encode t ++ encodes ts) in El.
      rewrite !length_app in El. pose proof (encode_nonempty _ _ Hw). destruct (encode t); [done|].
      simpl in El. lia.
    + exists infl'. split; [done|]. split; [|done]. split; try done; [by apply h_add_ok|by exists b|].
      exists r1, rest1, rem. split_and!; try done; [|cbn [fst]; lia].
      rewrite (assoc_L (++)), encodes_app in El. by apply app_inv_tail in El.
Qed.

(** ** Clients *)

Lemma zread_all (x : bytes) : zread x 0 (zlen x) = Some x.
Proof. pose proof (zread_mid [] x []) as H. by rewrite app_nil_r in H. Qed.

Lemma exact_args_loop f j (args : list bytes) :
  (length args - j < f)%nat ->
  args_loop f (Z.of_nat j) (zlen args) args (Some (zlen <$> args)) = Some (drop j args).
Proof.
  revert j. induction f as [|f IH]; intros j Hf; [lia|]. cbn [args_loop].
  destruct (Z.ltb_spec (Z.of_nat j) (zlen args)) as [Hj|Hj].
  2: { rewrite drop_ge; [done|]. unfold zlen in Hj. lia. }
  destruct (lookup_lt_is_Some_2 args j) as [x Hx]; [unfold zlen in Hj; lia|].
  assert (forall A (l : list A) y, l !! j = Some y -> zget l (Z.of_nat j) = Some y) as Hz.
  { intros A l y Hy. unfold zget. rewrite (proj2 (Z.leb_le 0 _)), Nat2Z.id by lia. done. }
  unfold arg_text. rewrite (Hz _ _ _ Hx). cbn [mbind option_bind].
  rewrite (Hz _ _ (zlen x)) by (by rewrite list_lookup_fmap, Hx). cbn [mbind option_bind].
  rewrite zread_all. cbn [mbind option_bind].
  replace (Z.of_nat j + 1) with (Z.of_nat (S j)) by lia. rewrite IH by (apply lookup_lt_Some in Hx; lia).
  simpl. by rewrite (drop_S _ _ _ Hx).
Qed.

Lemma exact_args args : arg_texts (zlen args) args (Some (zlen <$> args)) = Some args.
Proof. apply (exact_args_loop _ 0). unfold zlen. lia. Qed.

(** A program that sends commands and takes replies in any order. *)
Inductive op := Append (args : list bytes) | Get.

Definition client_op (fuel : nat) (o : op) : IO N (Z * option optr) :=
  match o with
  | Append args =>
      r ← redisAppendCommandArgv (zlen args) args (Some (zlen <$> args)); mret (r, None)
  | Get => redisGetReply fuel true
  end.

Fixpoint client (fuel : nat) (ops : list op) : IO N (list (Z * option optr)) :=
  match ops with
  | [] => mret []
  | o :: ops => x ← client_op fuel o; xs ← client fuel ops; mret (x :: xs)
  end.

(** No more replies are taken than commands were appended ([k] so far). *)
Fixpoint gets_ok (k : nat) (ops : list op) : Prop :=
  match ops with
  | [] => True
  | Append _ :: ops => gets_ok (S k) ops
  | Get :: ops => match k with O => False | S k => gets_ok k ops end
  end.

Definition commands (ops : list op) : list bytes :=
  ops ≫= fun o => match o with Append args => [resp_command args] | Get => [] end.

Fixpoint gets (ops : list op) : nat :=
  match ops with
  | [] => O
  | Append _ :: ops => gets ops
  | Get :: ops => S (gets ops)
  end.

(** What the calls return: the replies in order. *)
Fixpoint results (ops : list op) (ts : list reply) h : list (Z * option optr) :=
  match ops with
  | [] => []
  | Append _ :: ops => (REDIS_OK, None) :: results ops ts h
  | Get :: ops =>
      match ts with
      | [] => []
      | t :: ts => (REDIS_OK, Some (OLoc (h_next h))) :: results ops ts (h_add t h)
      end
  end.

(** Having been sent [d] and answered [r], the server answers each command [c]
    of [cs] with the reply of [ts] at its place. *)
Fixpoint serves (d r : bytes) (cs : list bytes) (ts : list reply) : Prop :=
  answer d = r /\
  match cs, ts with
  | [], [] => True
  | c :: cs, t :: ts => serves (d ++ c) (r ++ encode t) cs ts
  | _, _ => False
  end.

(** What was formatted is put at the end of the output buffer. *)
Lemma formatted_serving infl pend h room (cmd rest : bytes) c a a1 h' n :
  serving infl pend h room (c, Env a h' n) -> zlen pend + zlen cmd < INT_MAX ->
  exists s', (r ← __redisAppendCommand (cmd ++ rest) (zlen cmd); mret (if negb (r =? REDIS_OK) then REDIS_ERR else REDIS_OK))
      (c, Env a1 h' n) = Some (REDIS_OK, s') /\
    serving infl (pend ++ cmd) h room s' /\ e_net s'.2 = n.
Proof.
  intros Hs Hl. destruct Hs as [He Hblk Hfd <- Hok (b & Eb & Hb) Hr]. cbn [fst snd e_net e_heap] in *.
  pose proof (zlen_nonneg pend). pose proof (zlen_nonneg cmd).
  destruct (append_run Hal c a1 h' n b pend cmd rest Eb Hb) as (b2 & a2 & E2 & Hb2).
  { assert (INT_MAX <= BUF_SAFE) by done. lia. }
  exists (with_obuf (BLive b2) c, Env a2 h' n). split; [|split; [|done]].
  - by rewrite (bind_run _ _ _ _ _ E2).
  - split; try done. by exists b2.
Qed.

Lemma append_argv_serving infl pend h room argv lens args s :
  serving infl pend h room s -> arg_texts (zlen args) argv lens = Some args ->
  zlen pend + zlen (resp_command args) < INT_MAX ->
  exists s', redisAppendCommandArgv (zlen args) argv lens s = Some (REDIS_OK, s') /\
    serving infl (pend ++ resp_command args) h room s' /\ e_net s'.2 = e_net s.2.
Proof.
  intros Hs Hargs Hl. destruct s as [c [a h' n]]. pose proof (zlen_nonneg pend). pose proof (zlen_nonneg (resp_command args)).
  destruct (redisFormatSdsCommandArgv_spec Hal argv lens args a Hargs) as (s1 & a1 & E1 & Hs1); [lia|].
  destruct (formatted_serving infl pend h room (resp_command args) [] c a a1 h' n Hs Hl) as (s' & E2 & H2).
  exists s'. split; [|exact H2]. unfold redisAppendCommandArgv. rewrite app_nil_r in E2.
  assert (with_cnt (redisFormatSdsCommandArgv true (zlen args) argv lens) (c, Env a h' n)
    = Some (SdsCmd s1 (zlen (resp_command args)), (c, Env a1 h' n))) as Ec.
  { unfold with_cnt. cbn [fst snd e_cnt]. by rewrite E1. }
  rewrite (bind_run _ _ _ _ _ Ec). cbv iota zeta.
  rewrite (proj2 (Z.eqb_neq (zlen (resp_command args)) (-1))) by lia. rewrite (repr_val _ _ Hs1).
  erewrite bind_run by reflexivity. rewrite u64_small by width_lia. exact E2.
Qed.

Lemma append_format_serving infl pend h room format ap args s :
  (forall l d, NUL ∉ fmt_double l d) ->
  serving infl pend h room s -> command_args format ap = Some (args, true) ->
  zlen pend + zlen (resp_command args) < INT_MAX ->
  exists s', redisvAppendCommand format ap s = Some (REDIS_OK, s') /\
    serving infl (pend ++ resp_command args) h room s' /\ e_net s'.2 = e_net s.2.
Proof.
  intros Hd Hs Hargs Hl. destruct s as [c [a h' n]]. pose proof (zlen_nonneg pend). pose proof (zlen_nonneg (resp_command args)).
  destruct (redisvFormatCommand_spec Hal Hd format ap args a Hargs) as (a1 & E1); [lia|].
  destruct (formatted_serving infl pend h room (resp_command args) [NUL] c a a1 h' n Hs Hl) as (s' & E2 & H2).
  exists s'. split; [|exact H2]. unfold redisvAppendCommand.
  assert (with_cnt (redisvFormatCommand true format ap) (c, Env a h' n)
    = Some (FmtCmd (command_cells args) (zlen (resp_command args)), (c, Env a1 h' n))) as Ec.
  { unfold with_cnt. cbn [fst snd e_cnt]. by rewrite E1. }
  rewrite (bind_run _ _ _ _ _ Ec). cbv iota zeta.
  rewrite (proj2 (Z.eqb_neq (zlen (resp_command args)) (-1))), (proj2 (Z.eqb_neq (zlen (resp_command args)) (-2))) by lia.
  erewrite bind_run by reflexivity. unfold command_cells at 1.
  assert (mapM id (Some <$> (resp_command args ++ [NUL])) = Some (resp_command args ++ [NUL])) as Em.
  { generalize (resp_command args ++ [NUL]) as l. intros l. induction l as [|x l IH]; [done|]. cbn in *. by rewrite IH. }
  rewrite Em. erewrite bind_run by reflexivity. rewrite u64_small by width_lia. exact E2.
Qed.

Lemma append_serving infl pend h room args s :
  serving infl pend h room s -> zlen pend + zlen (resp_command args) < INT_MAX ->
  exists s', client_op 0 (Append args) s = Some ((REDIS_OK, None), s') /\
    serving infl (pend ++ resp_command args) h room s' /\ e_net s'.2 = e_net s.2.
Proof.
  intros Hs Hl. destruct (append_argv_serving _ _ _ _ _ _ _ _ Hs (exact_args args) Hl) as (s' & E & H).
  exists s'. split; [|exact H]. unfold client_op. by rewrite (bind_run _ _ _ _ _ E).
Qed.

(** What is left after a program: everything that was appended has been sent,
    or waits to be sent, in order. *)
Definition client_end (sent : bytes) h (s : state N) : Prop :=
  c_err s.1 = 0 /\ e_heap s.2 = h /\
  exists b v, c_obuf s.1 = BLive b /\ sds_repr b v /\ delivered (e_net s.2) ++ v = sent.

Lemma serves_length d r cs ts : serves d r cs ts -> length cs = length ts.
Proof. revert d r ts. induction cs as [|c cs IH]; intros d r [|t ts] [_ H]; simpl; try done. f_equal. eauto. Qed.

Lemma client_append fuel args s s' ops xs s2 :
  client_op 0 (Append args) s = Some ((REDIS_OK, None), s') ->
  client fuel ops s' = Some (xs, s2) ->
  client fuel (Append args :: ops) s = Some ((REDIS_OK, None) :: xs, s2).
Proof.
  intros E1 E2. cbn [client]. change (client_op fuel (Append args)) with (client_op 0 (Append args)).
  rewrite (bind_run _ _ _ _ _ E1). by rewrite (bind_run _ _ _ _ _ E2).
Qed.

Lemma client_get fuel s x s' ops xs s2 :
  redisGetReply fuel true s = Some (x, s') -> client fuel ops s' = Some (xs, s2) ->
  client fuel (Get :: ops) s = Some (x :: xs, s2).
Proof.
  intros E1 E2. cbn [client client_op]. rewrite (bind_run _ _ _ _ _ E1).
  by rewrite (bind_run _ _ _ _ _ E2).
Qed.

Lemma serves_answer d r cs ts : serves d r cs ts -> answer d = r.
Proof. destruct cs; by intros [? _]. Qed.

Lemma client_run fuel ops : forall infl pend tp ts h room s,
  serving infl pend h room s ->
  gets_ok (length (infl ++ tp)) ops ->
  serves (delivered (e_net s.2) ++ pend) (answer (delivered (e_net s.2)) ++ encodes tp) (commands ops) ts ->
  Forall (wf_reply 8) (infl ++ tp ++ ts) ->
  zlen pend + zlen (concat (commands ops)) < INT_MAX ->
  zlen (encodes tp) + zlen (encodes ts) <= room ->
  (length pend + length (concat (commands ops)) + length (encodes (infl ++ tp ++ ts)) +
     delays (e_net s.2) < fuel)%nat ->
  exists s', client fuel ops s = Some (results ops (infl ++ tp ++ ts) h, s') /\
    client_end (delivered (e_net s.2) ++ pend ++ concat (commands ops))
      (heap_with (take (gets ops) (infl ++ tp ++ ts)) h) s'.
Proof.
  induction ops as [|[args|] ops IH]; intros infl pend tp ts h room s Hs Hg Hsrv Hw Hc Hroom Hf.
  - exists s. split; [done|]. destruct Hs. split; [done|]. split; [done|].
    destruct sv_obuf0 as (b & Eb & Hb). exists b, pend. by rewrite app_nil_r.
  - change (commands (Append args :: ops)) with (resp_command args :: commands ops) in *.
    cbn [concat] in *. destruct ts as [|t ts]; [by destruct Hsrv|]. destruct Hsrv as [Ha Hsrv].
    rewrite zlen_app in Hc. rewrite encodes_cons, zlen_app in Hroom.
    pose proof (zlen_nonneg (concat (commands ops))).
    destruct (append_serving infl pend h room args s Hs ltac:(lia)) as (s1 & E1 & Hs1 & En).
    rewrite <- En in *.
    assert (infl ++ (tp ++ [t]) ++ ts = infl ++ tp ++ t :: ts) as Ets by (by rewrite <- app_assoc).
    assert ((pend ++ resp_command args) ++ concat (commands ops)
      = pend ++ resp_command args ++ concat (commands ops)) as Epd by (by rewrite <- app_assoc).
    assert (encodes (tp ++ [t]) = encodes tp ++ encode t) as Ee.
    { rewrite encodes_app. unfold encodes at 2. simpl. by rewrite app_nil_r. }
    destruct (IH infl (pend ++ resp_command args) (tp ++ [t]) ts h room s1) as (s2 & E2 & H2); try done.
    + by rewrite app_assoc, length_app, Nat.add_comm.
    + by rewrite Ee, !app_assoc.
    + by rewrite Ets.
    + rewrite zlen_app. lia.
    + rewrite Ee, zlen_app. lia.
    + rewrite Ets. rewrite !length_app in *. lia.
    + exists s2. rewrite Ets, Epd in H2. rewrite Ets in E2. split; [by eapply client_append|exact H2].
  - destruct (infl ++ tp) as [|t ts'] eqn:Et; [done|]. cbn [length gets_ok] in Hg.
    change (commands (Get :: ops)) with (commands ops) in *.
    assert (forall l, infl ++ tp ++ l = t :: ts' ++ l) as Eall by (intros l; by rewrite app_assoc, Et).
    rewrite Eall in *. apply Forall_cons in Hw as [Hwt Hw].
    assert (answer (delivered (e_net s.2) ++ pend) = answer (delivered (e_net s.2)) ++ encodes tp) as Hans
      by (by eapply serves_answer).
    pose proof (zlen_nonneg (encodes ts)). pose proof (zlen_nonneg (concat (commands ops))).
    pose proof (zlen_nonneg pend).
    rewrite encodes_cons, encodes_app, !length_app in Hf.
    destruct (get_run fuel infl pend tp h room t ts' s) as (s1 & E1 & Hd1 & Hcase); try done; [lia..| |].
    { rewrite encodes_cons, length_app. lia. }
    cbn [results gets take]. change (heap_with (t :: ?l) h) with (heap_with l (h_add t h)).
    destruct Hcase as [(infl' & -> & Hs1 & Ed)|[Hs1 Ed]].
    + injection Et as <-. rewrite <- app_assoc in *.
      destruct (IH infl' pend tp ts (h_add t h) room s1) as (s2 & E2 & H2); rewrite ?Ed; try done.
      { rewrite !encodes_app, !length_app in *. lia. }
      exists s2. rewrite Ed in H2. split; [by eapply client_get|exact H2].
    + destruct (IH ts' [] [] ts (h_add t h) (room - zlen (encodes tp)) s1) as (s2 & E2 & H2);
        rewrite ?Ed, ?app_nil_r, ?(zlen_nil (A := byte)); try done; cbn [app].
      * by rewrite Hans.
      * lia.
      * change (zlen (encodes [])) with 0. lia.
      * rewrite encodes_app, length_app. simpl. lia.
      * exists s2. rewrite Ed, <- app_assoc in H2. split; [by eapply client_get|exact H2].
Qed.

End pipeline.
