(* ===== verification/Simulation.v ===== *)
(** * A simulated network

    A network with which the hypotheses on the system hold: descriptors in a
    set, a script of connection results, and a server given by a function.
    [send] accepts seven bytes at a time, [recv] returns five, after a number
    of interruptions. *)

From Stdlib Require Import Strings.Byte String.
From stdpp Require Import gmap infinite.
From S2P Require Import Prelude CLib Buffer Sds SdsFmt SdsEdit Read Parser ReaderRefines Replies.
From S2P Require Import Session Reply Tree Resp ReplyRefines Streams Printf Format.
From S2P Require Import FormatFacts Network Net NetFacts Context Transport Pipeline.

Record sim := Sim {
  m_errno : Z;
  m_open : gset Z;
  m_made : nat;
  m_connects : list Z;          (* the error of each [connect] to come; 0 is success *)
  m_sent : bytes;
  m_read : bytes;
  m_delays : nat
}.

Definition m_with_errno e n := Sim e (m_open n) (m_made n) (m_connects n) (m_sent n) (m_read n) (m_delays n).
Definition m_with_open s k n := Sim (m_errno n) s k (m_connects n) (m_sent n) (m_read n) (m_delays n).
Definition m_with_data s r d n := Sim (m_errno n) (m_open n) (m_made n) (m_connects n) s r d.

Definition sim_socket (n : sim) : Z * sim :=
  let s := infinite_fresh (base.elements ({[-1]} ∪ m_open n)) in (s, m_with_open ({[s]} ∪ m_open n) (S (m_made n)) n).

Definition sim_connect (n : sim) : Z * sim :=
  match m_connects n with
  | [] => (0, n)
  | e :: es =>
      let n' := Sim e (m_open n) (m_made n) es (m_sent n) (m_read n) (m_delays n) in
      (if e =? 0 then 0 else -1, n')
  end.

Definition sim_send (d : bytes) (n : sim) : Z * sim :=
  let k := Z.min 7 (zlen d) in (k, m_with_data (m_sent n ++ ztake k d) (m_read n) (m_delays n) n).

Definition sim_recv (answer : bytes -> bytes) (cap : Z) (n : sim) : Z * bytes * sim :=
  match m_delays n with
  | S k => (-1, [], m_with_errno EINTR (m_with_data (m_sent n) (m_read n) k n))
  | O =>
      let rem := zdrop (zlen (m_read n)) (answer (m_sent n)) in
      let d := ztake (Z.min (Z.min cap 5) (zlen rem)) rem in
      (zlen d, d, m_with_data (m_sent n) (m_read n ++ d) O n)
  end.

(** Two addresses for every name, none for no name. *)
Definition sim_lookup (node : option bytes) (n : sim) : Z * list addrinfo * sim :=
  match node with
  | None => (-2, [], n)
  | Some h => (0, [Addrinfo AF_INET SOCK_STREAM 6 h; Addrinfo AF_INET SOCK_STREAM 6 (h ++ h)], n)
  end.

#[export] Instance sim_net (answer : bytes -> bytes) : Network sim := {|
  errno := m_errno;
  set_errno := m_with_errno;
  sys_socket _ _ _ := sim_socket;
  sys_close fd n := m_with_open (m_open n ∖ {[fd]}) (m_made n) n;
  sys_connect _ _ := sim_connect;
  sys_bind _ _ n := (0, n);
  sys_send _ d := sim_send d;
  sys_recv _ cap := sim_recv answer cap;
  sys_poll_out _ _ n := (1, n);
  sys_getfl _ n := (2, n);
  sys_setfl _ _ n := (0, n);
  sys_setsockopt _ _ n := (0, n);
  sys_so_error _ n := (0, m_errno n, n);
  sys_getaddrinfo node _ _ := sim_lookup node;
  strerror _ := bs "error";
  gai_strerror _ := bs "no address"
|}.

Lemma sim_quiet answer n n' :
  quiet (nw := sim_net answer) n n' -> m_open n' = m_open n /\ m_made n' = m_made n.
Proof.
  intros []; simpl; try done; unfold sim_connect, sim_recv, sim_lookup; by case_match.
Qed.

#[export] Program Instance sim_ledger (answer : bytes -> bytes) : Ledger (nw := sim_net answer) sim := {|
  opened n := m_open n ∖ {[-1]};
  sockets_made := m_made
|}.
Next Obligation. set_solver. Qed.
Next Obligation.
  intros answer d t p n. simpl. pose proof (infinite_is_fresh (base.elements ({[-1]} ∪ m_open n))) as Hf.
  rewrite elem_of_elements in Hf. right.
  split; [set_solver|]. split; [set_solver|]. split; [|done]. simpl. set_solver.
Qed.
Next Obligation. intros answer fd n _. simpl. split; [set_solver|done]. Qed.
Next Obligation. intros answer n n' [-> ->]%sim_quiet. done. Qed.
Next Obligation.
  intros answer fd a n. simpl. unfold sim_connect. destruct (m_connects n) as [|e es]; [done|].
  simpl. by destruct (Z.eqb_spec e 0).
Qed.

#[export] Program Instance sim_peer (answer : bytes -> bytes) fd :
    Peer (nw := sim_net answer) sim answer fd := {|
  delivered := m_sent;
  received := m_read;
  delays := m_delays
|}.
Next Obligation.
  intros answer fd n d Hd. simpl. assert (0 < zlen d) by (destruct d; [done|zlia]).
  split; [lia|]. done.
Qed.
Next Obligation.
  intros answer fd n cap rem Hcap Hrem Hr. simpl. unfold sim_recv. destruct (m_delays n) as [|k].
  2: { split; [done|]. left. split_and!; try done. simpl. lia. }
  rewrite <- Hr, zdrop_app_len. split; [done|]. right.
  assert (0 < zlen rem) by (destruct rem; [done|zlia]).
  rewrite zlen_ztake by lia. split_and!; try done; [lia..|].
  exists (zdrop (Z.min (Z.min cap 5) (zlen rem)) rem). by rewrite ztake_zdrop.
Qed.
