(* ===== verification/ContextTheorems.v ===== *)
(** * The theorems about connections *)

From Stdlib Require Import Strings.Byte String.
From stdpp Require Import gmap.
From S2P Require Import Prelude CLib Buffer Sds SdsFmt SdsEdit Read Parser ReaderRefines Replies.
From S2P Require Import Session Reply Tree Resp ReplyRefines Streams Printf Concrete.
From S2P Require Import Format FormatFacts Network Net NetFacts Context ContextFacts Transport.
From S2P Require Import Pipeline Simulation.

#[local] Abbreviation fnd := (Some defaultFunctions).

(** ** Pipelines *)

(** A blank connected context, as the connect functions return it, over a peer
    that has nothing more to say. *)
Definition connected_to {al : Allocator} {fl : FloatLib} {N} {nw : Network N} {answer fd}
    (peer : Peer N answer fd) (s : state N) : Prop :=
  c_err s.1 = 0 /\ has_flag REDIS_BLOCK s.1 = true /\ c_fd s.1 = fd /\ blank s.1 /\
  heap_ok (e_heap s.2) /\ received (e_net s.2) = answer (delivered (e_net s.2)).

Lemma connected_serving {al : Allocator} {fl : FloatLib} {N} {nw : Network N} {answer fd}
    (peer : Peer N answer fd) s room :
  alloc_total al -> connected_to peer s -> 0 <= room <= INT_MAX ->
  serving (fd := fd) (answer := answer) [] [] (e_heap s.2) room s.
Proof.
  intros Hal (He & Hb & Hf & [Ho (r & Er & a & a' & Ec)] & Hh & Hr) Hroom. split; try done.
  destruct (new_reader_awaits (B := sds) Hal _ _ _ Ec) as (b & Haw & Hl).
  exists r, [], []. split_and!; try done; [|by rewrite app_nil_r|rewrite zlen_nil; lia].
  exists b, new_parser. split; [done|]. split; [apply new_parser_ready|done].
Qed.

(** C9: Pipelining: a program that appends commands and takes replies in any
    order, never more replies than commands, gets the replies of the server to
    its commands, in order, however the writes are split, the input arrives and
    the reads are interrupted.  At the end all commands, in order and once each,
    have been sent or wait in the output buffer, and the heap holds the objects
    of the replies taken and no other. *)
Theorem pipeline_in_order (al : Allocator) (dm : DataModel) (fl : FloatLib) N (nw : Network N)
    answer fd (peer : Peer N answer fd) fuel ops ts s :
  alloc_total al -> strtod_bounded -> LP64 -> connected_to peer s -> gets_ok 0 ops ->
  serves (answer := answer) (delivered (e_net s.2)) (received (e_net s.2)) (commands ops) ts ->
  Forall (wf_reply 8) ts -> zlen (concat (commands ops)) < INT_MAX -> zlen (encodes ts) <= INT_MAX ->
  (length (concat (commands ops)) + length (encodes ts) + delays (e_net s.2) < fuel)%nat ->
  exists s', client fuel ops s = Some (results ops ts (e_heap s.2), s') /\
    client_end (answer := answer) (fd := fd) (delivered (e_net s.2) ++ concat (commands ops))
      (heap_with (take (gets ops) ts) (e_heap s.2)) s'.
Proof.
  intros Hal Hst Hlp Hc Hg Hsrv Hw Hcm Ht Hf. pose proof (zlen_nonneg (encodes ts)).
  pose proof (connected_serving peer s (zlen (encodes ts)) Hal Hc ltac:(lia)) as Hs.
  destruct Hc as (_ & _ & _ & _ & _ & Hr).
  apply (client_run Hal Hst Hlp fuel ops [] [] [] ts _ (zlen (encodes ts)) s); try done; [|lia..].
  rewrite !app_nil_r. by rewrite <- Hr.
Qed.

(** A server that answers a GET and then a PING. *)
Definition example_get : list bytes := [bs "GET"; bs "key"].
Definition example_ping : list bytes := [bs "PING"].
Definition example_answers {fl : FloatLib} : list reply :=
  [RStr REDIS_REPLY_STRING (bs "the value"); RStr REDIS_REPLY_STATUS (bs "PONG")].

Definition example_server {fl : FloatLib} (d : bytes) : bytes :=
  if bool_decide (d = resp_command example_get) then encodes (take 1 example_answers)
  else if bool_decide (d = resp_command example_get ++ resp_command example_ping)
       then encodes example_answers
  else [].

Definition example_net : sim := Sim 0 ∅ 0 [] [] [] 2.

Lemma example_connected {fl : FloatLib} (al := always_alloc) (nw := sim_net example_server) :
  exists c a, redisConnectFd (dm := lp64) 7 (Env 0 (Heap ∅ 0) example_net)
      = Some (Some c, Env a (Heap ∅ 0) example_net) /\
    connected_to (sim_peer example_server 7) (c, Env a (Heap ∅ 0) example_net).
Proof.
  destruct (connect_fd_spec (dm := lp64) (nw := nw) always_total 7 (Env 0 (Heap ∅ 0) example_net))
    as (c & a & E & Hb & He & Hf & Hfl & _).
  exists c, a. split; [exact E|]. split_and!; try done. unfold has_flag. cbn [fst]. by rewrite Hfl.
Qed.

Lemma pipeline_in_order_witness :
  let al := always_alloc in let dm := lp64 in let fl := digits_lib in
  let nw := sim_net example_server in
  let ops := [Append example_get; Append example_ping; Get; Get] in
  exists s s', connected_to (sim_peer example_server 7) s /\
    client 200 ops s = Some (results ops example_answers (Heap ∅ 0), s') /\
    client_end (fd := 7) (answer := example_server) (concat (commands ops))
      (heap_with example_answers (Heap ∅ 0)) s'.
Proof.
  intros al dm fl nw ops. destruct (example_connected (fl := fl)) as (c & a & _ & Hc).
  destruct (pipeline_in_order al dm fl sim nw example_server 7 (sim_peer example_server 7) 200 ops
    example_answers (c, Env a (Heap ∅ 0) example_net)) as (s' & E & H).
  - exact always_total.
  - exact digits_bounded.
  - reflexivity.
  - exact Hc.
  - vm_compute. exact I.
  - vm_compute. repeat split.
  - repeat constructor; simpl; try (vm_compute; discriminate); try (vm_compute; set_solver).
  - vm_compute. reflexivity.
  - vm_compute. discriminate.
  - vm_compute. lia.
  - exists (c, Env a (Heap ∅ 0) example_net), s'. split; [exact Hc|]. split; [exact E|exact H].
Defined.

Section answered.
Context {al : Allocator} {dm : DataModel} {fl : FloatLib} {pd : PrintfDouble} {N : Type} {nw : Network N}.
Context {answer : bytes -> bytes} {fd : Z} (peer : Peer N answer fd).
Hypothesis Hal : alloc_total al.
Hypothesis Hstrtod : strtod_bounded.
Hypothesis Hlp : LP64.

(** The server answers the command [cmd] with [t]. *)
Definition replies_to cmd t (fuel : nat) (s : state N) : Prop :=
  answer (delivered (e_net s.2) ++ cmd) = answer (delivered (e_net s.2)) ++ encode t /\
  wf_reply 8 t /\ zlen (encode t) <= INT_MAX /\
  (length cmd + length (encode t) + delays (e_net s.2) < fuel)%nat.

(** The reply is returned, and the command has reached the server. *)
Definition answered_by (m : IO N (option optr)) cmd t s : Prop :=
  exists s', m s = Some (Some (OLoc (h_next (e_heap s.2))), s') /\
    c_err s'.1 = 0 /\ e_heap s'.2 = h_add t (e_heap s.2) /\
    delivered (e_net s'.2) = delivered (e_net s.2) ++ cmd /\
    received (e_net s'.2) = answer (delivered (e_net s'.2)).

(** A command that was put into an empty output buffer. *)
Lemma block_answered fuel (append : IO N Z) cmd t s s1 :
  replies_to cmd t fuel s -> zlen cmd <= INT_MAX -> append s = Some (REDIS_OK, s1) ->
  serving (fd := fd) (answer := answer) [] cmd (e_heap s.2) (zlen (encode t)) s1 -> e_net s1.2 = e_net s.2 ->
  answered_by (r ← append; if negb (r =? REDIS_OK) then mret None else __redisBlockForReply fuel) cmd t s.
Proof.
  intros (Hans & Hw & Ht & Hf) Hl E1 Hs1 En.
  assert (encodes [t] = encode t) as Ee by (unfold encodes; simpl; by rewrite app_nil_r).
  destruct (get_run Hal Hstrtod Hlp fuel [] cmd [t] _ _ t [] s1 Hs1) as (s2 & E2 & _ & Hcase);
    rewrite ?Ee, ?En; try done; [lia..|].
  destruct Hcase as [(? & ? & _)|[Hs2 Ed]]; [done|]. rewrite En in Ed.
  exists s2. split; [|split; [apply Hs2|split; [apply Hs2|split; [done|]]]].
  - rewrite (bind_run _ _ _ _ _ E1). change (negb (REDIS_OK =? REDIS_OK)) with false. cbv iota.
    unfold __redisBlockForReply, get_ctx. rewrite (bind_run _ _ _ _ _ eq_refl). cbn [fst].
    rewrite (sv_block _ _ _ _ _ Hs1), (bind_run _ _ _ _ _ E2). done.
  - destruct (sv_reader _ _ _ _ _ Hs2) as (r & rest & rem & _ & _ & Erem & Hrec & _).
    apply app_eq_nil in Erem as [_ ->]. by rewrite app_nil_r in Hrec.
Qed.

(** [redisCommandArgv] and [redisvCommand] on a connected context. *)
Lemma command_answered_spec fuel argv lens args t s :
  connected_to peer s -> arg_texts (zlen args) argv lens = Some args -> zlen (resp_command args) < INT_MAX ->
  replies_to (resp_command args) t fuel s ->
  answered_by (redisCommandArgv fuel (zlen args) argv lens) (resp_command args) t s.
Proof.
  intros Hc Ha Hl Hr. pose proof (zlen_nonneg (encode t)).
  pose proof (connected_serving peer s (zlen (encode t)) Hal Hc) as Hs.
  destruct (append_argv_serving Hal [] [] _ _ argv lens args s (Hs ltac:(split; [lia|apply Hr])) Ha Hl) as (s1 & E1 & Hs1 & En).
  by apply (block_answered fuel _ _ t s s1); [|lia|..].
Qed.

Lemma vcommand_answered fuel format ap args t s :
  (forall l d, NUL ∉ fmt_double l d) ->
  connected_to peer s -> command_args format ap = Some (args, true) -> zlen (resp_command args) < INT_MAX ->
  replies_to (resp_command args) t fuel s ->
  answered_by (redisvCommand fuel format ap) (resp_command args) t s.
Proof.
  intros Hd Hc Ha Hl Hr. pose proof (zlen_nonneg (encode t)).
  pose proof (connected_serving peer s (zlen (encode t)) Hal Hc) as Hs.
  destruct (append_format_serving Hal [] [] _ _ format ap args s Hd (Hs ltac:(split; [lia|apply Hr])) Ha Hl)
    as (s1 & E1 & Hs1 & En).
  by apply (block_answered fuel _ _ t s s1); [|lia|..].
Qed.

End answered.

(** C12: A command is answered: [redisCommandArgv] on a connected context ends
    and returns the reply of the server to the command, whatever bytes its
    arguments hold. *)
Theorem command_answered (al : Allocator) (dm : DataModel) (fl : FloatLib) N (nw : Network N)
    answer fd (peer : Peer N answer fd) fuel argv lens args t s :
  alloc_total al -> strtod_bounded -> LP64 -> connected_to peer s ->
  arg_texts (zlen args) argv lens = Some args -> zlen (resp_command args) < INT_MAX ->
  answer (delivered (e_net s.2) ++ resp_command args)
    = answer (delivered (e_net s.2)) ++ encode t ->
  wf_reply 8 t -> zlen (encode t) <= INT_MAX ->
  (length (resp_command args) + length (encode t) + delays (e_net s.2) < fuel)%nat ->
  exists s', redisCommandArgv fuel (zlen args) argv lens s
      = Some (Some (OLoc (h_next (e_heap s.2))), s') /\
    c_err s'.1 = 0 /\ e_heap s'.2 = h_add t (e_heap s.2) /\
    delivered (e_net s'.2) = delivered (e_net s.2) ++ resp_command args /\
    received (e_net s'.2) = answer (delivered (e_net s'.2)).
Proof. intros. by apply (command_answered_spec peer). Qed.

Lemma command_answered_witness :
  let al := always_alloc in let dm := lp64 in let fl := digits_lib in
  let nw := sim_net example_server in
  exists s s', connected_to (sim_peer example_server 7) s /\
    redisCommandArgv 100 2 example_get None s = Some (Some (OLoc 0), s') /\
    c_err s'.1 = 0 /\ e_heap s'.2 = h_add (RStr REDIS_REPLY_STRING (bs "the value")) (Heap ∅ 0) /\
    m_sent (e_net s'.2) = resp_command example_get /\
    m_read (e_net s'.2) = example_server (m_sent (e_net s'.2)).
Proof.
  intros al dm fl nw. destruct (example_connected (fl := fl)) as (c & a & _ & Hc).
  destruct (command_answered al dm fl sim nw example_server 7 (sim_peer example_server 7) 100
    example_get None example_get (RStr REDIS_REPLY_STRING (bs "the value"))
    (c, Env a (Heap ∅ 0) example_net)) as (s' & E & H).
  - exact always_total.
  - exact digits_bounded.
  - reflexivity.
  - exact Hc.
  - vm_compute. reflexivity.
  - vm_compute. reflexivity.
  - vm_compute. reflexivity.
  - repeat constructor; simpl; try (vm_compute; discriminate); try (vm_compute; set_solver).
  - vm_compute. discriminate.
  - vm_compute. lia.
  - exists (c, Env a (Heap ∅ 0) example_net), s'. split; [exact Hc|]. split; [exact E|exact H].
Defined.

(** ** Connecting *)

(** C23: No socket is leaked: whatever the system answers while connecting to a
    TCP or a Unix end point, a context is returned, the descriptors that are
    open are those of before and the one of the context, and [redisFree] on the
    context closes it: what was open before, and nothing else, is open. *)
Theorem connect_no_leak (al : Allocator) (dm : DataModel) (fl : FloatLib) N (nw : Network N)
    (ld : Ledger N) o e :
  alloc_total al -> data_model_ok -> timeout_ok (o_timeout o) -> opens (o_endpoint o) ->
  exists c e', redisConnectWithOptions o e = Some (Some c, e') /\
    opened (e_net e') = held (c_fd c) ∪ opened (e_net e) /\ c_fd c ∉ opened (e_net e) /\
    exists s, redisFree (c, e') = Some (tt, s) /\
      opened (e_net s.2) = opened (e_net e) /\ e_heap s.2 = e_heap e.
Proof.
  intros Hal Hd Ht Hp.
  destruct (connect_made Hal (opened (e_net e)) o e Hd Ht Hp eq_refl) as (c & e' & E & Hl & Hb & Hh & _).
  exists c, e'. split; [done|]. split; [apply Hl|]. split; [apply Hl|].
  destruct (free_blank Hal _ (c, e') Hl Hb) as ([] & s & Ef & Ho & Eh).
  exists s. split; [done|]. split; [done|]. by rewrite Eh.
Qed.

(** Options and a network where the first address is unreachable. *)
Definition example_options : redisOptions :=
  Options (EpTcp None (bs "redis.local") 6379) 0 (Some (Timeval 1 500000)).
Definition example_unreachable : sim := Sim 0 {[3; 4]} 0 [EHOSTUNREACH; EINPROGRESS] [] [] 0.

Lemma connect_no_leak_witness :
  let al := always_alloc in let dm := lp64 in let fl := digits_lib in
  let nw := sim_net (fun _ => []) in
  let e := Env 0 (Heap ∅ 0) example_unreachable in
  exists c e', redisConnectWithOptions example_options e = Some (Some c, e') /\
    opened (e_net e') = held (c_fd c) ∪ opened example_unreachable /\
    c_fd c ∉ opened example_unreachable /\
    exists s, redisFree (c, e') = Some (tt, s) /\
      opened (e_net s.2) = opened example_unreachable /\ e_heap s.2 = Heap ∅ 0.
Proof.
  intros al dm fl nw e. apply (connect_no_leak al dm fl sim nw _ example_options e).
  - exact always_total.
  - by left.
  - vm_compute. repeat split; discriminate.
  - exact I.
Defined.

(** Failures are reported: unless SO_REUSEADDR is asked for or the timeout
    is invalid, the context a connect function returns is connected (flag and
    descriptor), or its error field is set. *)
Theorem connect_reports (al : Allocator) (dm : DataModel) (fl : FloatLib) N (nw : Network N)
    (ld : Ledger N) o e :
  alloc_total al -> data_model_ok -> timeout_ok (o_timeout o) -> opens (o_endpoint o) ->
  Z.land (o_options o) REDIS_OPT_REUSEADDR = 0 -> timeout_valid (o_timeout o) ->
  exists c e', redisConnectWithOptions o e = Some (Some c, e') /\
    ((has_flag REDIS_CONNECTED c = true /\ c_fd c <> -1) \/
     (has_flag REDIS_CONNECTED c = false /\ c_err c <> 0)).
Proof.
  intros Hal Hd Ht Hp Hr Hv.
  destruct (connect_made Hal (opened (e_net e)) o e Hd Ht Hp eq_refl)
    as (c & e' & E & _ & _ & _ & H1 & H2).
  exists c, e'. split; [done|]. cbn [fst] in H1, H2.
  destruct (has_flag REDIS_CONNECTED c); [left; auto|right]. split; [done|].
  destruct (H2 eq_refl) as [[?|?]|?]; done.
Qed.

Lemma connect_reports_witness :
  let al := always_alloc in let dm := lp64 in let fl := digits_lib in
  let nw := sim_net (fun _ => []) in
  exists c e', redisConnectWithOptions example_options (Env 0 (Heap ∅ 0) example_unreachable)
      = Some (Some c, e') /\
    ((has_flag REDIS_CONNECTED c = true /\ c_fd c <> -1) \/
     (has_flag REDIS_CONNECTED c = false /\ c_err c <> 0)).
Proof.
  intros al dm fl nw. apply (connect_reports al dm fl sim nw _ example_options).
  - exact always_total.
  - by left.
  - vm_compute. repeat split; discriminate.
  - exact I.
  - reflexivity.
  - vm_compute. split; discriminate.
Defined.

(** [redisReconnect] starts afresh from any state of the context: the old
    socket is closed, what was not sent and the reply being read are dropped
    and freed, and either the context is connected without error, or the call
    fails; it fails without an error only for the reasons of [excused]. *)
Theorem reconnect_restarts (al : Allocator) (dm : DataModel) (fl : FloatLib) N (nw : Network N)
    (ld : Ledger N) O s h :
  alloc_total al -> data_model_ok -> timeout_ok (c_timeout s.1) -> linked O s -> freeable s h ->
  (c_connection_type s.1 = REDIS_CONN_UNIX -> is_Some (c_path s.1)) ->
  exists r s', redisReconnect s = Some (r, s') /\
    opened (e_net s'.2) = held (c_fd s'.1) ∪ O /\ blank s'.1 /\ e_heap s'.2 = h /\
    ((r = REDIS_OK /\ c_fd s'.1 <> -1 /\ c_err s'.1 = 0 /\ has_flag REDIS_CONNECTED s'.1 = true) \/
     (r = REDIS_ERR /\ ((has_flag REDIS_REUSEADDR s.1 = true \/ ~ timeout_valid (c_timeout s.1)) \/
                        c_err s'.1 <> 0))).
Proof.
  intros Hal Hd Ht Hl Hf Hp.
  destruct (ends_reconnect Hal O s h Hd Ht Hl Hf Hp) as (r & s' & E & Hl' & Hb & Hh & H).
  exists r, s'. split; [done|]. split; [apply Hl'|]. split; [done|]. split; [done|].
  destruct H as [(-> & Hfd & He & Hfl)|(-> & _ & H)]; [left|by right].
  split_and!; try done. by eapply has_flag_connected.
Qed.

Lemma reconnect_restarts_witness :
  let al := always_alloc in let dm := lp64 in let fl := digits_lib in
  let nw := sim_net (fun _ => []) in
  let n := Sim 0 {[3; 7]} 0 [EINPROGRESS] [] [] 0 in
  let c := with_obuf BNull (with_tcp (Some (bs "h")) None 6379 (with_fd 7 zero_context)) in
  exists r s', redisReconnect (c, Env 0 (Heap ∅ 0) n) = Some (r, s') /\
    opened (e_net s'.2) = held (c_fd s'.1) ∪ {[3]} /\ blank s'.1 /\ e_heap s'.2 = Heap ∅ 0 /\
    ((r = REDIS_OK /\ c_fd s'.1 <> -1 /\ c_err s'.1 = 0 /\ has_flag REDIS_CONNECTED s'.1 = true) \/
     (r = REDIS_ERR /\ ((has_flag REDIS_REUSEADDR c = true \/ ~ timeout_valid (c_timeout c)) \/
                        c_err s'.1 <> 0))).
Proof.
  intros al dm fl nw n c.
  apply (reconnect_restarts al dm fl sim nw _ {[3]} (c, Env 0 (Heap ∅ 0) n) (Heap ∅ 0)).
  - exact always_total.
  - by left.
  - exact I.
  - split; [vm_compute; reflexivity|]. cbn. set_solver.
  - split; [discriminate|reflexivity].
  - discriminate.
Defined.

(** Connecting ends: the loop over the addresses stops after at most one
    attempt for each address and nine retries, and so makes at most that many
    sockets, however often the system answers EADDRNOTAVAIL. *)
Theorem addr_loop_bounded (al : Allocator) (fl : FloatLib) N (nw : Network N) (ld : Ledger N)
    O family blocking reuse msec servinfo s :
  alloc_total al -> linked O s -> c_fd s.1 = -1 ->
  exists r s', addr_loop (addr_fuel servinfo) family blocking reuse msec servinfo 0 s = Some (r, s') /\
    (sockets_made (e_net s'.2) <= sockets_made (e_net s.2) + (length servinfo + 9))%nat /\
    opened (e_net s'.2) = held (c_fd s'.1) ∪ O.
Proof.
  intros Hal Hl Hfd.
  destruct (ends_addr_loop Hal O (addr_fuel servinfo) family blocking reuse msec servinfo 0 s)
    as (r & s' & E & [[Hl' _] _ _ _ Hm] & _); [done..| |].
  { unfold addr_fuel, REDIS_CONNECT_RETRIES. lia. }
  by exists r, s'.
Qed.

Definition two_addresses : list addrinfo :=
  [Addrinfo AF_INET SOCK_STREAM 6 (bs "a"); Addrinfo AF_INET SOCK_STREAM 6 (bs "b")].

Lemma addr_loop_bounded_witness :
  let al := always_alloc in let fl := digits_lib in let nw := sim_net (fun _ => []) in
  let s := (with_fd (-1) zero_context,
            Env 0 (Heap ∅ 0) (Sim 0 {[3]} 0 (replicate 20 EADDRNOTAVAIL) [] [] 0)) in
  exists r s', addr_loop (addr_fuel two_addresses) AF_INET true true 0 two_addresses 0 s = Some (r, s') /\
    (sockets_made (e_net s'.2) <= sockets_made (e_net s.2) + (length two_addresses + 9))%nat /\
    opened (e_net s'.2) = held (c_fd s'.1) ∪ {[3]}.
Proof.
  intros al fl nw s.
  refine (addr_loop_bounded al fl sim nw _ {[3]} AF_INET true true 0 two_addresses s _ _ _).
  - exact always_total.
  - split; [vm_compute; reflexivity|]. cbn. set_solver.
  - reflexivity.
Defined.

(** [redisBufferWrite], for every result of [send]: what was accepted is
    removed from the output buffer, the rest stays in order, and [done] tells
    whether the buffer is empty; a failed [send] is an I/O error of the
    context, except after an interruption (or a full socket in non-blocking
    mode), when the call fails and leaves everything as it is. *)
Theorem buffer_write (al : Allocator) (dm : DataModel) (fl : FloatLib) N (nw : Network N)
    c a h n b v k n' :
  alloc_total al -> c_err c = 0 -> c_obuf c = BLive b -> sds_repr b v -> v <> [] ->
  zlen v <= INT_MAX -> sys_send (c_fd c) v n = (k, n') -> -1 <= k <= zlen v ->
  exists r s, redisBufferWrite (c, Env a h n) = Some (r, s) /\ written c a h v k n' r s.
Proof. intros Hal. exact (bufferwrite_run Hal c a h n b v k n'). Qed.

Lemma buffer_write_witness :
  let al := always_alloc in let dm := lp64 in let fl := digits_lib in
  let nw := sim_net (fun _ => []) in
  let c := with_obuf (BLive (made (bs "0123456789"))) zero_context in
  exists r s, redisBufferWrite (c, Env 0 (Heap ∅ 0) example_net) = Some (r, s) /\
    written c 0 (Heap ∅ 0) (bs "0123456789") 7
      (m_with_data (bs "0123456") [] 2 example_net) r s.
Proof.
  intros al dm fl nw c.
  refine (buffer_write al dm fl sim nw c 0 (Heap ∅ 0) example_net (made (bs "0123456789"))
    (bs "0123456789") 7 _ _ _ _ _ _ _ _ _).
  - exact always_total.
  - reflexivity.
  - reflexivity.
  - apply made_repr. vm_compute. discriminate.
  - discriminate.
  - vm_compute. discriminate.
  - vm_compute. reflexivity.
  - vm_compute. split; discriminate.
Defined.


