(* ===== verification/Async.v ===== *)
(** * The asynchronous client (async.c, async.h, async_private.h)

    The callbacks of the program are a parameter: computations on the state of
    the client, which may call the functions of this file again.  The state
    holds the context ([None] once it has been freed), the environment, and the
    calls made of the program's functions, in order, newest last.  A result
    [None] is undefined behaviour, a use after [free] or a failed [assert].
    Loops take fuel, which the callbacks may make any amount of use of. *)

From Stdlib Require Import Strings.Byte String.
From stdpp Require Import gmap.
From S2P Require Import Prelude CLib Buffer Sds SdsFmt SdsEdit Read Reply Printf Format Dict.
From S2P Require Import Network Net Context.

Definition REDIS_DISCONNECTING : Z := 0x4.
Definition REDIS_FREEING : Z := 0x8.
Definition REDIS_IN_CALLBACK : Z := 0x10.
Definition REDIS_SUBSCRIBED : Z := 0x20.
Definition REDIS_MONITORING : Z := 0x40.

Definition set_flag (f : Z) (c : redisContext) : redisContext := with_flags (Z.lor (c_flags c) f) c.
Definition clear_flag (f : Z) (c : redisContext) : redisContext :=
  with_flags (Z.land (c_flags c) (Z.lnot f)) c.

(** ** Data *)

(** A function pointer is a number; [None] is [NULL]. *)
Record redisCallback := Callback {
  cb_fn : option nat;
  cb_pending_subs : Z;
  cb_privdata : Z
}.

Definition null_callback : redisCallback := Callback None 0 0.

(** The hooks of the event library that are set. *)
Record hooks := Hooks {
  ev_addRead : bool;
  ev_delRead : bool;
  ev_addWrite : bool;
  ev_delWrite : bool;
  ev_cleanup : bool;
  ev_scheduleTimer : bool
}.

Definition callback_table : Type := dict (K := bytes) (V := redisCallback).

(** [errstr] is [NULL] or points to the text in the context; a table is [None]
    once it has been released. *)
Record redisAsyncContext := Async_ {
  ac_c : redisContext;
  ac_err : Z;
  ac_errstr : bool;
  ac_ev : hooks;
  ac_onDisconnect : option nat;
  ac_onConnect : option nat;
  ac_replies : list redisCallback;
  ac_invalid : list redisCallback;
  ac_channels : option callback_table;
  ac_patterns : option callback_table
}.

Definition with_c c a := Async_ c (ac_err a) (ac_errstr a) (ac_ev a) (ac_onDisconnect a)
  (ac_onConnect a) (ac_replies a) (ac_invalid a) (ac_channels a) (ac_patterns a).
Definition with_aerr e a := Async_ (ac_c a) e true (ac_ev a) (ac_onDisconnect a)
  (ac_onConnect a) (ac_replies a) (ac_invalid a) (ac_channels a) (ac_patterns a).
Definition with_ev ev a := Async_ (ac_c a) (ac_err a) (ac_errstr a) ev (ac_onDisconnect a)
  (ac_onConnect a) (ac_replies a) (ac_invalid a) (ac_channels a) (ac_patterns a).
Definition with_onDisconnect fn a := Async_ (ac_c a) (ac_err a) (ac_errstr a) (ac_ev a) fn
  (ac_onConnect a) (ac_replies a) (ac_invalid a) (ac_channels a) (ac_patterns a).
Definition with_onConnect fn a := Async_ (ac_c a) (ac_err a) (ac_errstr a) (ac_ev a)
  (ac_onDisconnect a) fn (ac_replies a) (ac_invalid a) (ac_channels a) (ac_patterns a).

(** The two lists of callbacks, and the two tables. *)
Inductive cblist := Replies | Invalid.

Definition list_of (l : cblist) (a : redisAsyncContext) : list redisCallback :=
  match l with Replies => ac_replies a | Invalid => ac_invalid a end.
Definition with_list (l : cblist) cbs a := match l with
  | Replies => Async_ (ac_c a) (ac_err a) (ac_errstr a) (ac_ev a) (ac_onDisconnect a)
      (ac_onConnect a) cbs (ac_invalid a) (ac_channels a) (ac_patterns a)
  | Invalid => Async_ (ac_c a) (ac_err a) (ac_errstr a) (ac_ev a) (ac_onDisconnect a)
      (ac_onConnect a) (ac_replies a) cbs (ac_channels a) (ac_patterns a)
  end.

(** [pvariant] selects the table of patterns. *)
Definition table_of (pvariant : bool) (a : redisAsyncContext) : option callback_table :=
  if pvariant then ac_patterns a else ac_channels a.
Definition with_table (pvariant : bool) t a :=
  if pvariant then Async_ (ac_c a) (ac_err a) (ac_errstr a) (ac_ev a) (ac_onDisconnect a)
      (ac_onConnect a) (ac_replies a) (ac_invalid a) (ac_channels a) t
  else Async_ (ac_c a) (ac_err a) (ac_errstr a) (ac_ev a) (ac_onDisconnect a)
      (ac_onConnect a) (ac_replies a) (ac_invalid a) t (ac_patterns a).

(** A call of a function of the program or of the event library.  A reply
    callback gets a pointer to an object of the heap, or [NULL]. *)
Inductive call {fl : FloatLib} :=
  | Called (cb : redisCallback) (reply : option optr) (h : heap)
  | Connected_ (fn : nat) (status : Z)
  | Disconnected (fn : nat) (status : Z)
  | AddRead | DelRead | AddWrite | DelWrite | Cleanup
  | Timer (tv : timeval)
  | Issued (cb : redisCallback) (args : list bytes) (status : Z).   (* by the program: see AsyncRun *)

Record astate {fl : FloatLib} (N : Type) := AState {
  a_ctx : option redisAsyncContext;
  a_env : env N;
  a_log : list call
}.
Arguments AState {fl N}. Arguments a_ctx {fl N}. Arguments a_env {fl N}. Arguments a_log {fl N}.

Definition AIO {fl : FloatLib} (N : Type) (A : Type) : Type := astate N -> option (A * astate N).

#[global] Instance aio_ret {fl : FloatLib} N : MRet (AIO N) := fun A x s => Some (x, s).
#[global] Instance aio_bind {fl : FloatLib} N : MBind (AIO N) :=
  fun A B k m s => match m s with Some (x, s) => k x s | None => None end.

(** The functions of the program. *)
Class Program {fl : FloatLib} (N : Type) := {
  call_reply : nat -> Z -> option optr -> AIO N unit;     (* fn, privdata, reply *)
  call_connect : nat -> Z -> AIO N unit;                  (* fn, status *)
  call_disconnect : nat -> Z -> AIO N unit
}.

(** ** Keys of the tables of subscriptions *)

Definition callbackHash (key : bytes) : Z := dictGenHashFunction key.

(** The lengths are taken as [int]: keys of 2 GB and more are out of its reach. *)
Definition callbackKeyCompare (key1 key2 : bytes) : bool :=
  let l1 := s32 (zlen key1) in
  let l2 := s32 (zlen key2) in
  if negb (l1 =? l2) then false else memcmp (ztake l1 key1) (ztake l1 key2) =? 0.

(** The copy of a value is a new block with the same contents. *)
Definition callbackValDup (src : redisCallback) : redisCallback := src.

Definition callbackDict : dictType (K := bytes) (V := redisCallback) :=
  DictType callbackHash None (Some callbackValDup) (Some callbackKeyCompare) true true.

(** ** The text of a command *)

(** [strchr(m + p, ch)], in a buffer that holds more than the string. *)
Fixpoint strchr_from (l : bytes) (p : Z) (ch : byte) : option (option Z) :=
  match l with
  | [] => None
  | b :: l => if bool_decide (b = ch) then Some (Some p)
              else if bool_decide (b = NUL) then Some None
              else strchr_from l (p + 1) ch
  end.

Definition strchr_at (m : bytes) (p : Z) (ch : byte) : option (option Z) :=
  if p <? 0 then None else strchr_from (zdrop p m) p ch.

(** The position after the argument, and the position and the length of its
    text; [None] inside for [NULL]. *)
Definition nextArgument {dm : DataModel} (m : bytes) (start : Z) : option (option (Z * Z * Z)) :=
  b ← zget m start;
  p ← (if negb (bool_decide (b = Byte.x24)) then strchr_at m start Byte.x24 else Some (Some start));
  match p with
  | None => Some None
  | Some p =>
      let len := s32 (strtol (zdrop (p + 1) m)) in
      q ← strchr_at m p CR;
      q ← q;                                     (* assert(p) *)
      Some (Some (q + 2 + len + 2, q + 2, u64 len))
  end.

Section async.
Context {al : Allocator} {dm : DataModel} {fl : FloatLib} {pd : PrintfDouble}.
Context {N : Type} {nw : Network N}.

(** ** Computations *)

Definition must {A} (m : option A) : AIO N A := fun s => x ← m; Some (x, s).

(** The context, which must not have been freed. *)
Definition get_ac : AIO N redisAsyncContext := fun s => a ← a_ctx s; Some (a, s).
Definition upd_ac (f : redisAsyncContext -> redisAsyncContext) : AIO N unit := fun s =>
  a ← a_ctx s; Some (tt, AState (Some (f a)) (a_env s) (a_log s)).
Definition upd_c (f : redisContext -> redisContext) : AIO N unit :=
  upd_ac (fun a => with_c (f (ac_c a)) a).
Definition log (e : call) : AIO N unit := fun s =>
  Some (tt, AState (a_ctx s) (a_env s) (a_log s ++ [e])).

(** A function of the connection, on [&ac->c]. *)
Definition on_c {A} (m : IO N A) : AIO N A := fun s =>
  a ← a_ctx s;
  r ← m (ac_c a, a_env s);
  Some (r.1, AState (Some (with_c r.2.1 a)) r.2.2 (a_log s)).

Definition flag (f : Z) : AIO N bool := a ← get_ac; mret (has_flag f (ac_c a)).

(** ** Hooks of the event library *)

Definition hook (set : hooks -> bool) (e : call) : AIO N unit :=
  a ← get_ac; if set (ac_ev a) then log e else mret tt.

Definition refreshTimeout : AIO N unit :=
  a ← get_ac;
  match c_timeout (ac_c a) with
  | Some tv =>
      if ev_scheduleTimer (ac_ev a) && (negb (tv_sec tv =? 0) || negb (tv_usec tv =? 0))
      then log (Timer tv) else mret tt
  | None => mret tt
  end.

Definition _EL_ADD_READ : AIO N unit := _ ← refreshTimeout; hook ev_addRead AddRead.
Definition _EL_ADD_WRITE : AIO N unit := _ ← refreshTimeout; hook ev_addWrite AddWrite.
Definition _EL_DEL_WRITE : AIO N unit := hook ev_delWrite DelWrite.
Definition _EL_CLEANUP : AIO N unit :=
  _ ← hook ev_cleanup Cleanup;
  upd_ac (fun a => let e := ac_ev a in
    with_ev (Hooks (ev_addRead e) (ev_delRead e) (ev_addWrite e) (ev_delWrite e) false
                   (ev_scheduleTimer e)) a).

(** ** Creation *)

Definition sizeof_redisAsyncContext : Z := 416.

(** [c] is reallocated; the tables are made by [hi_malloc], which aborts. *)
Definition redisAsyncInitialize (c : redisContext) (e : env N) :
    option (option redisAsyncContext * env N) :=
  let '(ok, a) := malloc (e_cnt e) sizeof_redisAsyncContext in
  if negb ok then Some (None, Env a (e_heap e) (e_net e)) else
  let c := clear_flag REDIS_CONNECTED c in
  let '(ok, a) := malloc a 40 in
  if negb ok then None else
  let '(ok, a) := malloc a 40 in
  if negb ok then None else
  Some (Some (Async_ c 0 false (Hooks false false false false false false) None None [] []
                     (Some dictCreate) (Some dictCreate)),
        Env a (e_heap e) (e_net e)).

Definition copy_error (a : redisAsyncContext) : redisAsyncContext := with_aerr (c_err (ac_c a)) a.
Definition __redisAsyncCopyError : AIO N unit := upd_ac copy_error.

Definition redisAsyncConnectWithOptions (o : redisOptions) (e : env N) :
    option (option redisAsyncContext * env N) :=
  let my := Options (o_endpoint o) (Z.lor (o_options o) REDIS_OPT_NONBLOCK) (o_timeout o) in
  r ← redisConnectWithOptions my e;
  match r with
  | (None, e) => Some (None, e)
  | (Some c, e) =>
      i ← redisAsyncInitialize c e;
      match i with
      | (None, e) => f ← redisFree (c, e); Some (None, f.2.2)
      | (Some ac, e) => Some (Some (copy_error ac), e)
      end
  end.

Definition redisAsyncConnect (ip : bytes) (port : Z) :=
  redisAsyncConnectWithOptions (Options (EpTcp None ip port) 0 None).
Definition redisAsyncConnectBind (ip : bytes) (port : Z) (source_addr : option bytes) :=
  redisAsyncConnectWithOptions (Options (EpTcp source_addr ip port) 0 None).
Definition redisAsyncConnectBindWithReuse (ip : bytes) (port : Z) (source_addr : option bytes) :=
  redisAsyncConnectWithOptions (Options (EpTcp source_addr ip port) REDIS_OPT_REUSEADDR None).
Definition redisAsyncConnectUnix (path : bytes) :=
  redisAsyncConnectWithOptions (Options (EpUnix path) 0 None).

Definition redisAsyncSetConnectCallback (fn : option nat) : AIO N Z :=
  a ← get_ac;
  match ac_onConnect a with
  | None => _ ← upd_ac (with_onConnect fn); _ ← _EL_ADD_WRITE; mret REDIS_OK
  | Some _ => mret REDIS_ERR
  end.

Definition redisAsyncSetDisconnectCallback (fn : option nat) : AIO N Z :=
  a ← get_ac;
  match ac_onDisconnect a with
  | None => _ ← upd_ac (with_onDisconnect fn); mret REDIS_OK
  | Some _ => mret REDIS_ERR
  end.

(** ** Lists of callbacks *)

Definition a_malloc (sz : Z) : AIO N bool := fun s =>
  let '(ok, a) := malloc (e_cnt (a_env s)) sz in
  Some (ok, AState (a_ctx s) (Env a (e_heap (a_env s)) (e_net (a_env s))) (a_log s)).

Definition __redisPushCallback (l : cblist) (source : redisCallback) : AIO N Z :=
  ok ← a_malloc 32;
  if negb ok then mret REDIS_ERR_OOM else
  _ ← upd_ac (fun a => with_list l (list_of l a ++ [source]) a);
  mret REDIS_OK.

(** [None] is [REDIS_ERR]. *)
Definition __redisShiftCallback (l : cblist) : AIO N (option redisCallback) :=
  a ← get_ac;
  match list_of l a with
  | [] => mret None
  | cb :: cbs => _ ← upd_ac (with_list l cbs); mret (Some cb)
  end.

(** ** Sending commands *)

Definition with_cnt_a {A} (f : nat -> option (A * nat)) : AIO N A := fun s =>
  r ← f (e_cnt (a_env s));
  Some (r.1, AState (a_ctx s) (Env r.2 (e_heap (a_env s)) (e_net (a_env s))) (a_log s)).

Definition get_table (pvariant : bool) : AIO N callback_table :=
  a ← get_ac; must (table_of pvariant a).

(** [while ((p = nextArgument(p,&astr,&alen)) != NULL)] *)
Fixpoint subscribe_loop (fuel : nat) (m : bytes) (p : Z) (pvariant : bool) (cb : redisCallback) :
    AIO N unit :=
  match fuel with
  | O => must None
  | S f =>
      r ← must (nextArgument m p);
      match r with
      | None => mret tt
      | Some (p, astr, alen) =>
          text ← must (zread m astr alen);
          s ← with_cnt_a (sdsnewlen (Some text) alen);
          sname ← must s;
          cbdict ← get_table pvariant;
          de ← must (dictFind callbackDict cbdict (sdsval sname));
          let cb := match de with
                    | Some e => Callback (cb_fn cb) (s32 (cb_pending_subs e.2 + 1)) (cb_privdata cb)
                    | None => cb
                    end in
          t ← with_cnt_a (fun a => r ← dictReplace callbackDict cbdict (sdsval sname) cb a;
                                   let '(_, t, _, a) := r in Some (t, a));
          _ ← upd_ac (with_table pvariant (Some t));
          subscribe_loop f m p pvariant cb
      end
  end.

(** [cmd] is the memory from the command on, of which [len] bytes are sent. *)
Definition __redisAsyncCommand (fuel : nat) (fn : option nat) (privdata : Z) (cmd : bytes) (len : Z) :
    AIO N Z :=
  a ← get_ac;
  if negb (Z.land (c_flags (ac_c a)) (Z.lor REDIS_DISCONNECTING REDIS_FREEING) =? 0)
  then mret REDIS_ERR else
  let cb := Callback fn 1 privdata in
  r ← must (nextArgument cmd 0);
  r ← must r;                                    (* assert(p != NULL) *)
  let '(p, cstr, clen) := r in
  b ← must (zget cmd p);
  let hasnext := bool_decide (b = Byte.x24) in
  b ← must (zget cmd cstr);
  let pvariant := bool_decide (tolower b = Byte.x70) in
  let cstr := if pvariant then cstr + 1 else cstr in
  let name := zdrop cstr cmd in
  let send : AIO N Z :=
    _ ← on_c (__redisAppendCommand cmd len);
    _ ← _EL_ADD_WRITE;
    mret REDIS_OK in
  if hasnext && strncaseeq 11 name (bs "subscribe" ++ crlf) then
    _ ← upd_c (set_flag REDIS_SUBSCRIBED);
    _ ← subscribe_loop fuel cmd p pvariant cb;
    send
  else if strncaseeq 13 name (bs "unsubscribe" ++ crlf) then
    subscribed ← flag REDIS_SUBSCRIBED;
    if negb subscribed then mret REDIS_ERR else send
  else if strncaseeq 9 name (bs "monitor" ++ crlf) then
    _ ← upd_c (set_flag REDIS_MONITORING);
    _ ← __redisPushCallback Replies cb;
    send
  else
    subscribed ← flag REDIS_SUBSCRIBED;
    _ ← __redisPushCallback (if (subscribed : bool) then Invalid else Replies) cb;
    send.

Definition redisvAsyncCommand (fuel : nat) (fn : option nat) (privdata : Z) (format : bytes)
    (ap : list vaarg) : AIO N Z :=
  r ← with_cnt_a (redisvFormatCommand true format ap);
  match r with
  | FmtErr _ => mret REDIS_ERR
  | FmtCmd cells len =>
      if len <? 0 then mret REDIS_ERR else
      cmd ← must (mapM id cells);
      __redisAsyncCommand fuel fn privdata cmd len
  end.

Definition redisAsyncCommand (fuel : nat) (fn : option nat) (privdata : Z) (format : bytes)
    (ap : list vaarg) : AIO N Z :=
  redisvAsyncCommand fuel fn privdata format ap.

Definition redisAsyncCommandArgv (fuel : nat) (fn : option nat) (privdata : Z) (argc : Z)
    (argv : list bytes) (argvlen : option (list Z)) : AIO N Z :=
  r ← with_cnt_a (redisFormatSdsCommandArgv true argc argv argvlen);
  match r with
  | SdsErr _ => mret REDIS_ERR
  | SdsCmd cmd len =>
      if len <? 0 then mret REDIS_ERR else
      __redisAsyncCommand fuel fn privdata (sdsval cmd ++ [NUL]) len
  end.

Definition redisAsyncFormattedCommand (fuel : nat) (fn : option nat) (privdata : Z) (cmd : bytes)
    (len : Z) : AIO N Z :=
  __redisAsyncCommand fuel fn privdata cmd len.

(** [hi_calloc] aborts when there is no memory. *)
Definition redisAsyncSetTimeout (tv : timeval) : AIO N unit :=
  a ← get_ac;
  tv0 ← (match c_timeout (ac_c a) with
         | Some t => mret t
         | None =>
             ok ← with_cnt_a (fun n => Some (calloc n 1 16));
             if (ok : bool) then mret (Timeval 0 0) else must None
         end);
  upd_c (with_timeout (Some
    (if (tv_sec tv =? tv_sec tv0) && (tv_usec tv =? tv_usec tv0) then tv0 else tv))).

(** ** Running callbacks, and the end of the context *)

Context {prog : Program N}.

Definition log_called (cb : redisCallback) (reply : option optr) : AIO N unit := fun s =>
  log (Called cb reply (e_heap (a_env s))) s.

Definition __redisRunCallback (cb : redisCallback) (reply : option optr) : AIO N unit :=
  match cb_fn cb with
  | None => mret tt
  | Some fn =>
      _ ← upd_c (set_flag REDIS_IN_CALLBACK);
      _ ← log_called cb reply;
      _ ← call_reply fn (cb_privdata cb) reply;
      upd_c (clear_flag REDIS_IN_CALLBACK)
  end.

(** [while (__redisShiftCallback(list,&cb) == REDIS_OK)] *)
Fixpoint drain (fuel : nat) (l : cblist) : AIO N unit :=
  match fuel with
  | O => must None
  | S f =>
      r ← __redisShiftCallback l;
      match r with
      | None => mret tt
      | Some cb => _ ← __redisRunCallback cb None; drain f l
      end
  end.

(** [while ((de = dictNext(it)) != NULL)] *)
Fixpoint drain_table (fuel : nat) (pvariant : bool) (it : dictIterator (K := bytes) (V := redisCallback)) :
    AIO N unit :=
  match fuel with
  | O => must None
  | S f =>
      t ← get_table pvariant;
      r ← must (dictNext t it);
      match r.1 with
      | None => mret tt
      | Some de => _ ← __redisRunCallback de.2 None; drain_table f pvariant r.2
      end
  end.

Definition release_table (pvariant : bool) : AIO N unit :=
  t ← get_table pvariant;
  _ ← must (dictRelease callbackDict t);
  upd_ac (with_table pvariant None).

(** The callbacks of a table, and its release.  The iterator is a block. *)
Definition end_table (fuel : nat) (pvariant : bool) : AIO N unit :=
  ok ← a_malloc 24;
  if negb ok then must None else
  _ ← drain_table fuel pvariant dictGetIterator;
  release_table pvariant.

(** The context is freed: nothing may use it any more. *)
Definition gone : AIO N unit := fun s => Some (tt, AState None (a_env s) (a_log s)).
Definition free_context : AIO N unit := _ ← on_c redisFree; gone.

Definition run_onDisconnect : AIO N unit :=
  a ← get_ac;
  match ac_onDisconnect a with
  | Some fn =>
      if has_flag REDIS_CONNECTED (ac_c a) then
        let status := if has_flag REDIS_FREEING (ac_c a) then REDIS_OK
                      else if ac_err a =? 0 then REDIS_OK else REDIS_ERR in
        _ ← log (Disconnected fn status);
        call_disconnect fn status
      else mret tt
  | None => mret tt
  end.

Definition __redisAsyncFree (fuel : nat) : AIO N unit :=
  _ ← drain fuel Replies;
  _ ← drain fuel Invalid;
  _ ← end_table fuel false;
  _ ← end_table fuel true;
  _ ← _EL_CLEANUP;
  _ ← run_onDisconnect;
  free_context.

Definition redisAsyncFree (fuel : nat) : AIO N unit :=
  _ ← upd_c (set_flag REDIS_FREEING);
  in_callback ← flag REDIS_IN_CALLBACK;
  if (in_callback : bool) then mret tt else __redisAsyncFree fuel.

Definition __redisAsyncDisconnect (fuel : nat) : AIO N unit :=
  _ ← __redisAsyncCopyError;
  a ← get_ac;
  _ ← (if ac_err a =? 0 then
         ret ← __redisShiftCallback Replies;
         must (if ret is None then Some tt else None)      (* assert(ret == REDIS_ERR) *)
       else upd_c (set_flag REDIS_DISCONNECTING));
  _ ← _EL_CLEANUP;
  keep ← flag REDIS_NO_AUTO_FREE;
  if (keep : bool) then mret tt else __redisAsyncFree fuel.

Definition redisAsyncDisconnect (fuel : nat) : AIO N unit :=
  _ ← upd_c (set_flag REDIS_DISCONNECTING);
  _ ← upd_c (clear_flag REDIS_NO_AUTO_FREE);
  in_callback ← flag REDIS_IN_CALLBACK;
  a ← get_ac;
  if negb in_callback && bool_decide (ac_replies a = []) then __redisAsyncDisconnect fuel else mret tt.

(** ** Replies *)

(** A reply object, and an element of it. *)
Definition cell (o : optr) : AIO N redisReply := fun s =>
  match o with
  | OLoc l => r ← h_cells (e_heap (a_env s)) !! l; Some (r, s)
  | OTag _ => None
  end.
Definition element (r : redisReply) (i : Z) : AIO N redisReply :=
  v ← must (rp_element r);
  e ← must (zget v i);
  l ← must e;
  cell (OLoc l).

(** [*de->val] is changed in place. *)
Definition set_val (t : callback_table) (key : bytes) (cb : redisCallback) : option callback_table :=
  let h := key_slot callbackDict key (d_sizemask t) in
  c ← slot (d_table t) h;
  u ← chain_set callbackDict key cb c;
  tb ← set_slot (d_table t) h u.1;
  Some (Dict tb (d_size t) (d_sizemask t) (d_used t)).

(** The subscription of a message: [stype] without its [p] is [kind]. *)
Definition found_callback (r : redisReply) (pvariant : bool) (kind : bytes) (t : callback_table)
    (sname : bytes) (cb : redisCallback) : AIO N redisCallback :=
  let cb := if strcaseeq kind (bs "subscribe")
            then Callback (cb_fn cb) (s32 (cb_pending_subs cb - 1)) (cb_privdata cb) else cb in
  t ← must (set_val t sname cb);
  _ ← upd_ac (with_table pvariant (Some t));
  if negb (strcaseeq kind (bs "unsubscribe")) then mret cb else
  _ ← (if cb_pending_subs cb =? 0 then
         d ← must (dictDelete callbackDict t sname);
         upd_ac (with_table pvariant (Some d.1.2))
       else mret tt);
  count ← element r 2;
  _ ← must (if rp_type count =? REDIS_REPLY_INTEGER then Some tt else None);
  channels ← get_table false;
  patterns ← get_table true;
  _ ← (if (rp_integer count =? 0) && (d_used channels =? 0) && (d_used patterns =? 0)
       then upd_c (clear_flag REDIS_SUBSCRIBED) else mret tt);
  mret cb.

(** The new contents of [*dstcb]. *)
Definition __redisGetSubscribeCallback (reply : optr) (dstcb : redisCallback) : AIO N redisCallback :=
  r ← cell reply;
  if rp_type r =? REDIS_REPLY_ARRAY then
    _ ← must (if 2 <=? rp_elements r then Some tt else None);
    e0 ← element r 0;
    _ ← must (if rp_type e0 =? REDIS_REPLY_STRING then Some tt else None);
    stype ← must (rp_str e0);
    b ← must (zget stype 0);
    let pvariant := bool_decide (tolower b = Byte.x70) in
    let kind := if pvariant then zdrop 1 stype else stype in
    callbacks ← get_table pvariant;
    e1 ← element r 1;
    _ ← must (if rp_type e1 =? REDIS_REPLY_STRING then Some tt else None);
    str ← must (rp_str e1);
    text ← must (zread str 0 (rp_len e1));
    s ← with_cnt_a (sdsnewlen (Some text) (rp_len e1));
    sname ← must s;
    de ← must (dictFind callbackDict callbacks (sdsval sname));
    match de with
    | Some e => found_callback r pvariant kind callbacks (sdsval sname) e.2
    | None => mret dstcb
    end
  else
    cb ← __redisShiftCallback Invalid;
    mret (default dstcb cb).

Definition free_reply_ (reply : optr) : AIO N unit :=
  a ← get_ac;
  _ ← must (c_reader (ac_c a));
  on_c (on_heap (free_reply_object reply)).

(** A reply in a context without subscriptions or pending callbacks. *)
Definition spontaneous (reply : optr) (cb : redisCallback) : AIO N redisCallback :=
  subscribed ← flag REDIS_SUBSCRIBED;
  monitoring ← flag REDIS_MONITORING;
  _ ← must (if subscribed || monitoring then Some tt else None);
  if (subscribed : bool) then __redisGetSubscribeCallback reply cb else mret cb.

(** [while((status = redisGetReply(c,&reply)) == REDIS_OK)] *)
Fixpoint process_loop (n fuel : nat) (cb : redisCallback) : AIO N unit :=
  match fuel with
  | O => must None
  | S f =>
      g ← on_c (redisGetReply n true);
      if negb (g.1 =? REDIS_OK) then __redisAsyncDisconnect n else
      match g.2 with
      | None =>
          a ← get_ac;
          disconnecting ← flag REDIS_DISCONNECTING;
          obuf ← on_c live_obuf;
          if disconnecting && (sdslen obuf =? 0) && bool_decide (ac_replies a = [])
          then __redisAsyncDisconnect n else
          monitoring ← flag REDIS_MONITORING;
          if (monitoring : bool) then _ ← __redisPushCallback Replies cb; mret tt else mret tt
      | Some reply =>
          let run (cb : redisCallback) : AIO N unit :=
            match cb_fn cb with
            | Some _ =>
                _ ← __redisRunCallback cb (Some reply);
                _ ← free_reply_ reply;
                freeing ← flag REDIS_FREEING;
                if (freeing : bool) then __redisAsyncFree n else process_loop n f cb
            | None => _ ← free_reply_ reply; process_loop n f cb
            end in
          next ← __redisShiftCallback Replies;
          match next with
          | Some cb => run cb
          | None =>
              r ← cell reply;
              if rp_type r =? REDIS_REPLY_ERROR then
                str ← must (rp_str r);
                _ ← upd_c (with_error REDIS_ERR_OTHER (ztake 127 (cstr str)));
                _ ← free_reply_ reply;
                __redisAsyncDisconnect n
              else
                cb ← spontaneous reply cb;
                run cb
          end
      end
  end.

Definition redisProcessCallbacks (fuel : nat) : AIO N unit := process_loop fuel fuel null_callback.

(** ** Events *)

Definition run_onConnect (status : Z) : AIO N unit :=
  a ← get_ac;
  match ac_onConnect a with
  | Some fn => _ ← log (Connected_ fn status); call_connect fn status
  | None => mret tt
  end.

Definition __redisAsyncHandleConnect (fuel : nat) : AIO N Z :=
  r ← on_c redisCheckConnectDone;
  let completed := default 0 r.2 in
  if r.1 =? REDIS_ERR then
    _ ← on_c redisCheckSocketError;
    _ ← run_onConnect REDIS_ERR;
    _ ← __redisAsyncDisconnect fuel;
    mret REDIS_ERR
  else if completed =? 1 then
    _ ← run_onConnect REDIS_OK;
    _ ← upd_c (set_flag REDIS_CONNECTED);
    mret REDIS_OK
  else mret REDIS_OK.

Definition redisAsyncRead (fuel : nat) : AIO N unit :=
  r ← on_c redisBufferRead;
  if r =? REDIS_ERR then __redisAsyncDisconnect fuel
  else _ ← _EL_ADD_READ; redisProcessCallbacks fuel.

Definition redisAsyncWrite (fuel : nat) : AIO N unit :=
  r ← on_c redisBufferWrite;
  if r.1 =? REDIS_ERR then __redisAsyncDisconnect fuel else
  _ ← (if (r.2 : bool) then _EL_DEL_WRITE else _EL_ADD_WRITE);
  _EL_ADD_READ.

(** [k] is the handler of the function table, once the context is connected. *)
Definition when_connected (fuel : nat) (k : AIO N unit) : AIO N unit :=
  connected ← flag REDIS_CONNECTED;
  if (connected : bool) then k else
  r ← __redisAsyncHandleConnect fuel;
  if negb (r =? REDIS_OK) then mret tt else
  connected ← flag REDIS_CONNECTED;
  if (connected : bool) then k else mret tt.

Definition redisAsyncHandleRead (fuel : nat) : AIO N unit :=
  when_connected fuel (redisAsyncRead fuel).
Definition redisAsyncHandleWrite (fuel : nat) : AIO N unit :=
  when_connected fuel (redisAsyncWrite fuel).

Definition redisAsyncHandleTimeout (fuel : nat) : AIO N unit :=
  a ← get_ac;
  let connected := has_flag REDIS_CONNECTED (ac_c a) in
  if connected && bool_decide (ac_replies a = []) then mret tt else
  _ ← (if c_err (ac_c a) =? 0
       then on_c (__redisSetError REDIS_ERR_TIMEOUT (Some (bs "Timeout"))) else mret tt);
  _ ← (if negb connected then run_onConnect REDIS_ERR else mret tt);
  _ ← drain fuel Replies;
  __redisAsyncDisconnect fuel.

End async.
