(* ===== verification/AsyncText.v ===== *)
(** * The arguments of a command, as the asynchronous client finds them

    [nextArgument] walks over the bulk strings of a formatted command: from
    [resp_command args] it finds the texts [args], in order and no more. *)

From Stdlib Require Import Strings.Byte String.
From stdpp Require Import gmap.
From S2P Require Import Prelude CLib Buffer Sds SdsFmt SdsEdit Read Reply Printf Format FormatFacts.
From S2P Require Import Parser ReaderRefines Dict Network Net Context Async.

Section text.
Context {dm : DataModel}.
Implicit Types (m l : bytes) (args : list bytes).

(** The texts of the arguments from position [p] on. *)
Fixpoint arguments (fuel : nat) m (p : Z) : option (list bytes) :=
  match fuel with
  | O => None
  | S f =>
      r ← nextArgument m p;
      match r with
      | None => Some []
      | Some (p, str, len) => t ← zread m str len; ts ← arguments f m p; Some (t :: ts)
      end
  end.

(** ** Searching and numbers *)

Lemma strchr_from_found l ch r p :
  Forall (fun b => b <> ch /\ b <> NUL) l -> strchr_from (l ++ ch :: r) p ch = Some (Some (p + zlen l)).
Proof.
  intros Hl. revert p. induction Hl as [|b l [Hc Hn] _ IH]; intros p; simpl.
  - rewrite bool_decide_true by done. by rewrite Z.add_0_r.
  - rewrite !bool_decide_false by done. rewrite IH. do 2 f_equal. zlia.
Qed.

Lemma strchr_at_found c l ch r :
  Forall (fun b => b <> ch /\ b <> NUL) l ->
  strchr_at (c ++ l ++ ch :: r) (zlen c) ch = Some (Some (zlen c + zlen l)).
Proof.
  intros Hl. unfold strchr_at. pose proof (zlen_nonneg c). rewrite (proj2 (Z.ltb_ge _ _)) by lia.
  rewrite zdrop_app_len. by apply strchr_from_found.
Qed.

Lemma digits_not l ch :
  Forall (fun b => isdigit b = true) l -> isdigit ch = false ->
  Forall (fun b => b <> ch /\ b <> NUL) l.
Proof.
  intros Hl Hch. eapply Forall_impl; [exact Hl|]. intros b Hb. simpl in Hb.
  split; intros ->; [by rewrite Hb in Hch|done].
Qed.

Hypothesis Hlp : LP64.

(** ** Bulk strings *)

(** Where the text of a bulk string starts. *)
Definition bulk_head (arg : bytes) : Z := 1 + zlen (udec (zlen arg)) + 2.

Lemma bulk_parts arg : bulk arg = (Byte.x24 :: udec (zlen arg) ++ crlf) ++ arg ++ crlf.
Proof. unfold bulk. by rewrite <- app_comm_cons, <- app_assoc. Qed.

Lemma zlen_head arg : zlen (Byte.x24 :: udec (zlen arg) ++ crlf) = bulk_head arg.
Proof. unfold bulk_head. rewrite zlen_cons, zlen_app. change (zlen crlf) with 2. lia. Qed.

Lemma zlen_bulk_string arg : zlen (bulk arg) = bulk_head arg + zlen arg + 2.
Proof. unfold bulk_head. rewrite zlen_bulk. lia. Qed.

Lemma next_from (c l : bytes) arg rest :
  Forall (fun b => b <> Byte.x24 /\ b <> NUL) l -> zlen arg <= INT_MAX ->
  nextArgument (c ++ l ++ bulk arg ++ rest) (zlen c) =
  Some (Some (zlen (c ++ l ++ bulk arg), zlen (c ++ l) + bulk_head arg, zlen arg)).
Proof.
  intros Hl Ha. pose proof (zlen_nonneg arg). pose proof (zlen_nonneg c). pose proof (zlen_nonneg l).
  set (m := c ++ l ++ bulk arg ++ rest).
  assert (m = (c ++ l) ++ Byte.x24 :: udec (zlen arg) ++ CR :: LF :: arg ++ crlf ++ rest) as Em.
  { unfold m, bulk, crlf. by rewrite <- !app_assoc, <- app_comm_cons, <- !app_assoc. }
  assert (exists b, zget m (zlen c) = Some b /\ (b = Byte.x24 \/ b <> Byte.x24) /\
    (b = Byte.x24 -> l = [])) as (b & Eb & _ & Hb).
  { rewrite Em, <- app_assoc. destruct l as [|x l].
    - simpl. rewrite zget_mid. eexists. split; [done|]. split; [by left|done].
    - rewrite <- app_comm_cons, zget_mid. inversion Hl as [|? ? [Hx _] _]; subst. eexists.
      split; [done|]. split; [by right|done]. }
  unfold nextArgument. rewrite Eb. cbn [mbind option_bind].
  assert ((if negb (bool_decide (b = Byte.x24)) then strchr_at m (zlen c) Byte.x24
           else Some (Some (zlen c))) = Some (Some (zlen (c ++ l)))) as ->.
  { destruct (bool_decide_reflect (b = Byte.x24)) as [->|_]; cbn [negb].
    - by rewrite (Hb eq_refl), app_nil_r.
    - rewrite Em, <- app_assoc, strchr_at_found by done. by rewrite zlen_app. }
  cbn [mbind option_bind].
  assert (zdrop (zlen (c ++ l) + 1) m = udec (zlen arg) ++ CR :: LF :: arg ++ crlf ++ rest) as Ed.
  { rewrite Em. change (Byte.x24 :: ?x) with ([Byte.x24] ++ x). rewrite app_assoc.
    replace (zlen (c ++ l) + 1) with (zlen ((c ++ l) ++ [Byte.x24])) by (rewrite zlen_app; done).
    by rewrite zdrop_app_len. }
  rewrite Ed, strtol_udec, s32_small by (width_lia || done || by intros ? ? [= <- _]).
  assert (strchr_at m (zlen (c ++ l)) CR = Some (Some (zlen (c ++ l) + (1 + zlen (udec (zlen arg)))))) as ->.
  { rewrite Em. rewrite (app_comm_cons (udec (zlen arg)) _ Byte.x24).
    rewrite strchr_at_found; [by rewrite zlen_cons|]. constructor; [done|].
    apply digits_not; [apply udec_digits; lia|done]. }
  cbn [mbind option_bind]. rewrite u64_small by width_lia.
  assert (zlen (c ++ l ++ bulk arg) = zlen (c ++ l) + bulk_head arg + zlen arg + 2) as ->.
  { rewrite app_assoc, (zlen_app (c ++ l)), zlen_bulk_string. lia. }
  assert (zlen (c ++ l) + (1 + zlen (udec (zlen arg))) + 2 = zlen (c ++ l) + bulk_head arg) as ->; [|done].
  unfold bulk_head. lia.
Qed.

Lemma next_text (c l : bytes) arg rest :
  zread (c ++ l ++ bulk arg ++ rest) (zlen (c ++ l) + bulk_head arg) (zlen arg) = Some arg.
Proof.
  rewrite <- zlen_head, <- zlen_app, bulk_parts. set (hd := Byte.x24 :: udec (zlen arg) ++ crlf).
  replace (c ++ l ++ (hd ++ arg ++ crlf) ++ rest) with (((c ++ l) ++ hd) ++ arg ++ crlf ++ rest)
    by (by rewrite <- !app_assoc). apply zread_mid.
Qed.

(** The last argument is followed by the terminator. *)
Lemma next_end c : nextArgument (c ++ [NUL]) (zlen c) = Some None.
Proof.
  unfold nextArgument. rewrite zget_mid. cbn [mbind option_bind].
  rewrite bool_decide_false by done. cbn [negb]. unfold strchr_at. pose proof (zlen_nonneg c).
  rewrite (proj2 (Z.ltb_ge _ _)) by lia. by rewrite zdrop_app_len.
Qed.

(** ** Commands *)

Definition header args : bytes := Byte.x2a :: udec (zlen args) ++ crlf.

Lemma resp_command_header args : resp_command args = header args ++ concat (bulk <$> args).
Proof. unfold resp_command, header. by rewrite <- app_comm_cons, <- app_assoc. Qed.

Lemma header_no_dollar args : Forall (fun b => b <> Byte.x24 /\ b <> NUL) (header args).
Proof.
  constructor; [done|]. apply Forall_app. split.
  - apply digits_not; [|done]. apply udec_digits. apply zlen_nonneg.
  - by repeat constructor.
Qed.

Lemma arguments_from c args fuel :
  Forall (fun a => zlen a <= INT_MAX) args -> (length args < fuel)%nat ->
  arguments fuel (c ++ concat (bulk <$> args) ++ [NUL]) (zlen c) = Some args.
Proof.
  intros Ha. revert c fuel. induction Ha as [|a args Ha _ IH]; intros c [|fuel] Hf; simpl in Hf; try lia.
  - cbn [fmap list_fmap concat arguments]. rewrite app_nil_l, next_end. done.
  - cbn [fmap list_fmap concat arguments]. rewrite <- app_assoc.
    pose proof (next_from c [] a (concat (bulk <$> args) ++ [NUL]) (Forall_nil_2 _) Ha) as En.
    rewrite app_nil_l in En. rewrite En. cbn [mbind option_bind].
    pose proof (next_text c [] a (concat (bulk <$> args) ++ [NUL])) as Et.
    rewrite app_nil_l in Et. rewrite Et. cbn [mbind option_bind].
    rewrite app_nil_l, app_assoc, IH by lia. done.
Qed.

(** All the arguments of a command, in order. *)
Lemma arguments_command args fuel :
  Forall (fun a => zlen a <= INT_MAX) args -> (length args < fuel)%nat ->
  arguments fuel (resp_command args ++ [NUL]) 0 = Some args.
Proof.
  intros Ha Hf. rewrite resp_command_header, <- app_assoc.
  destruct args as [|a args].
  { destruct fuel as [|fuel]; [simpl in Hf; lia|]. done. }
  apply Forall_cons in Ha as [Ha Hr]. destruct fuel as [|fuel]; [simpl in Hf; lia|]. simpl in Hf.
  cbn [fmap list_fmap concat arguments]. rewrite <- app_assoc.
  pose proof (next_from [] (header (a :: args)) a (concat (bulk <$> args) ++ [NUL])
    (header_no_dollar _) Ha) as En.
  rewrite app_nil_l, zlen_nil in En. rewrite En. cbn [mbind option_bind].
  pose proof (next_text [] (header (a :: args)) a (concat (bulk <$> args) ++ [NUL])) as Et.
  rewrite app_nil_l in Et. rewrite Et. cbn [mbind option_bind].
  rewrite (app_assoc (header _)), arguments_from by (done || lia). done.
Qed.

(** The first argument, with what the client looks at: the byte after it and
    the bytes from its text on. *)
Lemma first_argument name args :
  zlen name <= INT_MAX ->
  let m := resp_command (name :: args) ++ [NUL] in
  let rest := concat (bulk <$> args) ++ [NUL] in
  exists p q, nextArgument m 0 = Some (Some (p, q, zlen name)) /\
    zget m p = Some (match args with [] => NUL | _ => Byte.x24 end) /\
    zdrop q m = name ++ crlf ++ rest /\ 0 <= q /\ zdrop p m = rest.
Proof.
  intros Hn m rest.
  assert (m = header (name :: args) ++ bulk name ++ rest) as Em.
  { unfold m, rest. rewrite resp_command_header. cbn [fmap list_fmap concat]. by rewrite <- !app_assoc. }
  pose proof (next_from [] (header (name :: args)) name rest (header_no_dollar _) Hn) as En.
  rewrite app_nil_l, zlen_nil, <- Em in En. do 2 eexists. split; [exact En|].
  rewrite !app_nil_l.
  assert (zdrop (zlen (header (name :: args) ++ bulk name)) m = rest) as Ed.
  { by rewrite Em, app_assoc, zdrop_app_len. }
  split; [|split; [|split; [|exact Ed]]].
  - rewrite Em, app_assoc. unfold rest. destruct args as [|a args]; [apply zget_mid|].
    assert (exists r, concat (bulk <$> a :: args) = Byte.x24 :: r) as [r ->] by (by eexists).
    rewrite <- app_comm_cons. apply zget_mid.
  - rewrite Em, bulk_parts, <- (zlen_head name), <- zlen_app. 
    replace (header (name :: args) ++ ((Byte.x24 :: udec (zlen name) ++ crlf) ++ name ++ crlf) ++ rest)
      with ((header (name :: args) ++ (Byte.x24 :: udec (zlen name) ++ crlf)) ++ name ++ crlf ++ rest)
      by (by rewrite <- !app_assoc). apply zdrop_app_len.
  - pose proof (zlen_nonneg (header (name :: args))). pose proof (zlen_nonneg (udec (zlen name))).
    unfold bulk_head. lia.
Qed.

End text.
