(* ===== verification/AsyncRun.v ===== *)
(** * A program over the asynchronous client

    What a program does with the client, as data: the actions its callbacks and
    its main part take, and the events the event loop delivers; the history of
    a run, read off the log; and what is assumed of the program ([Scripted]) and
    of the connection ([Stream]). *)

From Stdlib Require Import Strings.Byte String.
From stdpp Require Import gmap.
From S2P Require Import Prelude CLib Buffer Sds SdsFmt SdsEdit Read Parser ReaderRefines Replies.
From S2P Require Import Session Reply Tree Resp ReplyRefines Streams Printf Format.
From S2P Require Import Dict Network Net Context Async.

(** ** The history of a run *)

Section history.
Context {fl : FloatLib}.
Implicit Types (l : list call).

(** The commands that were accepted, with their callbacks, in order. *)
Definition issued l : list (redisCallback * list bytes) :=
  omap (fun e => match e with
                 | Issued cb args status => if status =? REDIS_OK then Some (cb, args) else None
                 | _ => None
                 end) l.

(** The calls of reply callbacks, in order. *)
Definition calls l : list (redisCallback * option optr * heap) :=
  omap (fun e => match e with Called cb reply h => Some (cb, reply, h) | _ => None end) l.

(** The bytes of commands. *)
Definition sends (cs : list (redisCallback * list bytes)) : bytes :=
  concat ((fun c => resp_command c.2) <$> cs).

(** A call gets a pointer to the object of the reply, or [NULL]. *)
Definition answers (x : redisCallback * option optr * heap) (e : redisCallback * option reply) : Prop :=
  x.1.1 = e.1 /\
  match e.2 with
  | None => x.1.2 = None
  | Some t => exists h, heap_ok h /\ x.1.2 = Some (OLoc (h_next h)) /\ x.2 = h_add t h
  end.

(** The callbacks that are not [NULL] are called, each with its reply. *)
Definition wanted (cs : list redisCallback) (rs : list (option reply)) :
    list (redisCallback * option reply) :=
  filter (fun e => is_Some (cb_fn e.1)) (zip cs rs).

(** The calls in [l] are those for the first replies [ts], and [NULL] for the
    [n] commands after. *)
Definition answered l (ts : list reply) (n : nat) : Prop :=
  Forall2 answers (calls l)
    (wanted (take (length ts + n) (issued l).*1) ((Some <$> ts) ++ replicate n None)).

End history.

Section run.
Context {al : Allocator} {dm : DataModel} {fl : FloatLib} {pd : PrintfDouble}.
Context {N : Type} {nw : Network N} {prog : Program N}.

(** ** Actions and events *)

Inductive action :=
  | Send (fn : option nat) (privdata : Z) (args : list bytes)
  | Disconnect
  | Free.

Definition run_action (fuel : nat) (a : action) : AIO N unit :=
  match a with
  | Send fn privdata args =>
      status ← redisAsyncCommandArgv fuel fn privdata (zlen args) args (Some (zlen <$> args));
      log (Issued (Callback fn 1 privdata) args status)
  | Disconnect => redisAsyncDisconnect fuel
  | Free => redisAsyncFree fuel
  end.

Fixpoint run_actions (fuel : nat) (acts : list action) : AIO N unit :=
  match acts with
  | [] => mret tt
  | a :: acts => _ ← run_action fuel a; run_actions fuel acts
  end.

Inductive event := Readable | Writable | Act (a : action).

Definition handle (fuel : nat) (e : event) : AIO N unit :=
  match e with
  | Readable => redisAsyncHandleRead fuel
  | Writable => redisAsyncHandleWrite fuel
  | Act a => run_action fuel a
  end.

(** Nothing is done with a context that has been freed. *)
Definition on_event (fuel : nat) (e : event) : AIO N unit := fun s =>
  match a_ctx s with
  | None => Some (tt, s)
  | Some _ => handle fuel e s
  end.

Fixpoint run_events (fuel : nat) (es : list event) : AIO N unit :=
  match es with
  | [] => mret tt
  | e :: es => _ ← on_event fuel e; run_events fuel es
  end.

(** ** What is assumed *)

(** A name of a command, without a [p] in front. *)
Definition stripped (name : bytes) : bytes :=
  match name with
  | b :: l => if bool_decide (tolower b = Byte.x70) then l else name
  | [] => []
  end.

(** A command that does not subscribe, unsubscribe or monitor. *)
Definition plain (args : list bytes) : Prop :=
  match args with
  | [] => False
  | name :: _ =>
      CR ∉ name /\ NUL ∉ name /\
      Forall (fun k => tolower <$> stripped name <> k) [bs "subscribe"; bs "unsubscribe"; bs "monitor"]
  end /\ zlen (resp_command args) < INT_MAX.

Definition plain_action (a : action) : Prop :=
  match a with Send _ _ args => plain args | _ => True end.

Definition plain_event (e : event) : Prop :=
  match e with Act a => plain_action a | _ => True end.

(** The commands of a run take at most [L] bytes. *)
Definition in_limits (L : Z) (s : astate N) : Prop := zlen (sends (issued (a_log s))) <= L.

(** Whatever part of [xs] has been run from [s], the limit holds. *)
Definition keeps {X} (L : Z) (run : list X -> AIO N unit) (xs : list X) (s : astate N) : Prop :=
  forall xs1 xs2 s', xs = xs1 ++ xs2 -> run xs1 s = Some (tt, s') -> in_limits L s'.

(** A callback is running. *)
Definition in_callback (s : astate N) : Prop :=
  exists a, a_ctx s = Some a /\ has_flag REDIS_IN_CALLBACK (ac_c a) = true.

(** A reply callback takes actions, which it may choose by the state; the
    disconnect callback leaves the context alone. *)
Class Scripted (fuel : nat) (L : Z) : Prop := {
  reply_law fn privdata reply s : in_callback s -> in_limits L s ->
    exists acts, call_reply fn privdata reply s = run_actions fuel acts s /\
      Forall plain_action acts /\ keeps L (run_actions fuel) acts s;
  disconnect_law fn status s : call_disconnect fn status s = Some (tt, s)
}.

End run.

(** The other end has not answered more commands than it was sent, however what
    it was sent is completed. *)
Definition solicited {fl : FloatLib} (sent got : bytes) : Prop :=
  forall cs rest, sent ++ rest = sends cs -> Forall (fun c => plain c.2) cs ->
    (length (stream got).1 <= length cs)%nat.

(** What is assumed of a connection in states that satisfy [served]: [send] is
    not interrupted; [recv] may fail in any way; the server answers commands
    only, and its replies have no container of 2^31 elements. *)
Class Stream {fl : FloatLib} (N : Type) {nw : Network N} (fd : Z) := {
  sent : N -> bytes;
  got : N -> bytes;
  served : N -> Prop;
  served_solicited n : served n -> solicited (sent n) (got n);
  served_sane n : served n -> (stream (got n)).2 <> RHuge;
  served_small n : served n -> zlen (got n) <= INT_MAX;
  stream_send n d k n' :
    served n -> d <> [] -> sys_send fd d n = (k, n') ->
    served n' /\ got n' = got n /\
    ((0 <= k <= zlen d /\ sent n' = sent n ++ ztake k d) \/
     (k = -1 /\ sent n' = sent n /\ errno n' <> EINTR /\ errno n' <> EWOULDBLOCK));
  stream_recv n cap k d n' :
    served n -> 0 < cap -> sys_recv fd cap n = (k, d, n') ->
    served n' /\ sent n' = sent n /\
    ((0 < k <= cap /\ zlen d = k /\ got n' = got n ++ d) \/ (-1 <= k <= 0 /\ got n' = got n));
  stream_close s n : got (sys_close s n) = got n
}.
