(* ===== verification/AsyncFacts.v ===== *)
(** * The operations of the asynchronous client, one by one

    What each operation does to a context without subscriptions: sending a
    command, running a callback, the calls with [NULL] when the context ends,
    freeing and disconnecting.  A state is written out. *)

From Stdlib Require Import Strings.Byte String.
From stdpp Require Import gmap.
From S2P Require Import Prelude CLib Buffer Sds SdsFmt SdsEdit Read Parser ReaderRefines Replies.
From S2P Require Import Session Reply Tree Resp ReplyRefines Streams Printf.
From S2P Require Import Format FormatFacts Dict Network Net Context Transport Pipeline.
From S2P Require Import Async AsyncText AsyncRun.

(** ** Flags *)

Class Single (f : Z) := single : exists i, 0 <= i /\ f = 2 ^ i.
Ltac single_tac := match goal with |- Single ?f => exists (Z.log2 f); split; vm_compute; congruence end.
#[export] Instance block_single : Single REDIS_BLOCK. Proof. single_tac. Qed.
#[export] Instance connected_single : Single REDIS_CONNECTED. Proof. single_tac. Qed.
#[export] Instance disconnecting_single : Single REDIS_DISCONNECTING. Proof. single_tac. Qed.
#[export] Instance freeing_single : Single REDIS_FREEING. Proof. single_tac. Qed.
#[export] Instance in_callback_single : Single REDIS_IN_CALLBACK. Proof. single_tac. Qed.
#[export] Instance subscribed_single : Single REDIS_SUBSCRIBED. Proof. single_tac. Qed.
#[export] Instance monitoring_single : Single REDIS_MONITORING. Proof. single_tac. Qed.
#[export] Instance no_auto_free_single : Single REDIS_NO_AUTO_FREE. Proof. single_tac. Qed.

Lemma has_flag_bit i c : 0 <= i -> has_flag (2 ^ i) c = Z.testbit (c_flags c) i.
Proof.
  intros Hi. unfold has_flag. rewrite <- (Z.shiftl_1_l i), Z.land_comm.
  destruct (Z.testbit (c_flags c) i) eqn:E.
  - destruct (Z.eqb_spec (Z.land (Z.shiftl 1 i) (c_flags c)) 0) as [E0|]; [|done].
    apply (f_equal (fun z => Z.testbit z i)) in E0.
    rewrite Z.land_spec, Z.shiftl_spec, Z.sub_diag, E, Z.bits_0 in E0 by lia. done.
  - destruct (Z.eqb_spec (Z.land (Z.shiftl 1 i) (c_flags c)) 0) as [|Hn]; [done|]. destruct Hn.
    apply Z.bits_inj'. intros j Hj. rewrite Z.land_spec, Z.shiftl_spec, Z.bits_0 by lia.
    destruct (Z.eq_dec i j) as [->|]; [by rewrite E, andb_false_r|].
    destruct (Z.lt_trichotomy j i) as [?|[?|?]]; [|lia|].
    + by rewrite Z.testbit_neg_r by lia.
    + rewrite Z.bits_above_log2; [done|done|]. simpl. lia.
Qed.

Lemma has_set f g c `{!Single f, !Single g} :
  has_flag f (set_flag g c) = bool_decide (f = g) || has_flag f c.
Proof.
  destruct Single0 as (i & Hi & ->), Single1 as (j & Hj & ->).
  rewrite !has_flag_bit by done. unfold set_flag. cbn [c_flags with_flags].
  rewrite Z.lor_spec, orb_comm. f_equal. rewrite Z.pow2_bits_eqb by done.
  destruct (Z.eqb_spec j i) as [->|]; [by rewrite bool_decide_true|].
  rewrite bool_decide_false; [done|]. intros E%Z.pow_inj_r; lia.
Qed.

Lemma has_clear f g c `{!Single f, !Single g} :
  has_flag f (clear_flag g c) = negb (bool_decide (f = g)) && has_flag f c.
Proof.
  destruct Single0 as (i & Hi & ->), Single1 as (j & Hj & ->).
  rewrite !has_flag_bit by done. unfold clear_flag. cbn [c_flags with_flags].
  rewrite Z.land_spec, Z.lnot_spec, andb_comm by done. f_equal. f_equal. rewrite Z.pow2_bits_eqb by done.
  destruct (Z.eqb_spec j i) as [->|]; [by rewrite bool_decide_true|].
  rewrite bool_decide_false; [done|]. intros E%Z.pow_inj_r; lia.
Qed.

(** The flags of a context after setting and clearing some. *)
Ltac flags := cbn [with_c ac_c];
  repeat first [rewrite has_set by (apply _)|rewrite has_clear by (apply _)];
  repeat match goal with
  | |- context [bool_decide (?f = ?g)] =>
      (rewrite (bool_decide_true (f = g)) by reflexivity) ||
      (rewrite (bool_decide_false (f = g)) by (intros E; discriminate E))
  end; cbn [negb andb orb].

(** A list of flags, one by one. *)
Ltac flag_cases := intros f Hf;
  repeat (apply elem_of_cons in Hf as [->|Hf]; [by flags|]); by apply not_elem_of_nil in Hf.

(** The context is about to be closed. *)
Definition closing (c : redisContext) : bool :=
  has_flag REDIS_DISCONNECTING c || has_flag REDIS_FREEING c.

Lemma closing_mask c :
  (Z.land (c_flags c) (Z.lor REDIS_DISCONNECTING REDIS_FREEING) =? 0) = negb (closing c).
Proof.
  unfold closing, has_flag. rewrite Z.land_lor_distr_r.
  destruct (Z.eqb_spec (Z.land (c_flags c) REDIS_DISCONNECTING) 0) as [->|H1].
  - rewrite Z.lor_0_l. simpl. by rewrite negb_involutive.
  - simpl. apply Z.eqb_neq. intros [? _]%Z.lor_eq_0_iff. done.
Qed.

(** ** The log *)

Section log.
Context {fl : FloatLib}.
Implicit Types (l : list call).

Lemma issued_app l1 l2 : issued (l1 ++ l2) = issued l1 ++ issued l2.
Proof. unfold issued. by rewrite omap_app. Qed.

Lemma calls_app l1 l2 : calls (l1 ++ l2) = calls l1 ++ calls l2.
Proof. unfold calls. by rewrite omap_app. Qed.

(** Entries that are neither commands nor calls of reply callbacks. *)
Definition noise l : Prop := issued l = [] /\ calls l = [].

Lemma noise_nil : noise [].
Proof. done. Qed.

Lemma noise_app l1 l2 : noise l1 -> noise l2 -> noise (l1 ++ l2).
Proof. intros [I1 C1] [I2 C2]. split; [by rewrite issued_app, I1, I2|by rewrite calls_app, C1, C2]. Qed.

Lemma sends_app (cs ds : list (redisCallback * list bytes)) : sends (cs ++ ds) = sends cs ++ sends ds.
Proof. unfold sends. by rewrite fmap_app, concat_app. Qed.

Lemma sends_length (cs : list (redisCallback * list bytes)) : (length cs <= length (sends cs))%nat.
Proof.
  induction cs as [|c cs IH]; [done|]. unfold sends in *. cbn [fmap list_fmap concat]. rewrite length_app.
  assert (1 <= length (resp_command c.2))%nat by (unfold resp_command; simpl; lia). simpl length at 1. lia.
Qed.

End log.

(** ** Computations *)

Section aio.
Context {al : Allocator} {dm : DataModel} {fl : FloatLib} {pd : PrintfDouble}.
Context {N : Type} {nw : Network N}.
Implicit Types (a : redisAsyncContext) (e : env N) (l : list call).

Lemma a_bind {A B} (m : AIO N A) (k : A -> AIO N B) s x s' :
  m s = Some (x, s') -> (m ≫= k) s = k x s'.
Proof. intros E. unfold mbind, aio_bind. by rewrite E. Qed.

Lemma on_c_run {A} (m : IO N A) a e l x c' e' :
  m (ac_c a, e) = Some (x, (c', e')) ->
  on_c m (AState (Some a) e l) = Some (x, AState (Some (with_c c' a)) e' l).
Proof. intros E. unfold on_c. cbn [a_ctx a_env mbind option_bind]. by rewrite E. Qed.

Lemma get_ac_run a e l : get_ac (AState (Some a) e l) = Some (a, AState (Some a) e l).
Proof. done. Qed.
Lemma flag_run f a e l : flag f (AState (Some a) e l) = Some (has_flag f (ac_c a), AState (Some a) e l).
Proof. done. Qed.
Lemma upd_ac_run f a e l : upd_ac f (AState (Some a) e l) = Some (tt, AState (Some (f a)) e l).
Proof. done. Qed.
Lemma upd_c_run f a e l :
  upd_c f (AState (Some a) e l) = Some (tt, AState (Some (with_c (f (ac_c a)) a)) e l).
Proof. done. Qed.
Lemma must_run {A} (x : A) (s : astate N) : must (Some x) s = Some (x, s).
Proof. done. Qed.
Lemma a_ret {A B} (x : A) (k : A -> AIO N B) s : (mret x ≫= k) s = k x s.
Proof. done. Qed.

(** Only the log changes, by noise. *)
Definition chatty (m : AIO N unit) : Prop := forall a e l,
  exists l', m (AState (Some a) e l) = Some (tt, AState (Some a) e (l ++ l')) /\ noise l'.

Lemma chatty_ret : chatty (mret tt).
Proof. intros a e l. exists []. by rewrite app_nil_r. Qed.

Lemma chatty_log x : noise [x] -> chatty (log x).
Proof. intros Hx a e l. by exists [x]. Qed.

Lemma chatty_bind (m1 m2 : AIO N unit) : chatty m1 -> chatty m2 -> chatty (_ ← m1; m2).
Proof.
  intros H1 H2 a e l. destruct (H1 a e l) as (l1 & E1 & N1). destruct (H2 a e (l ++ l1)) as (l2 & E2 & N2).
  exists (l1 ++ l2). rewrite (a_bind _ _ _ _ _ E1), E2, app_assoc. split; [done|by apply noise_app].
Qed.

Lemma chatty_hook set x : noise [x] -> chatty (hook set x).
Proof.
  intros Hx a e l. unfold hook. rewrite (a_bind _ _ _ _ _ (get_ac_run _ _ _)).
  destruct (set (ac_ev a)); [by apply chatty_log|apply chatty_ret].
Qed.

Lemma chatty_refresh : chatty refreshTimeout.
Proof.
  intros a e l. unfold refreshTimeout. rewrite (a_bind _ _ _ _ _ (get_ac_run _ _ _)).
  destruct (c_timeout (ac_c a)); [|apply chatty_ret]. destruct (_ && _); [by apply chatty_log|apply chatty_ret].
Qed.

Lemma chatty_add_read : chatty _EL_ADD_READ.
Proof. apply chatty_bind; [apply chatty_refresh|by apply chatty_hook]. Qed.
Lemma chatty_add_write : chatty _EL_ADD_WRITE.
Proof. apply chatty_bind; [apply chatty_refresh|by apply chatty_hook]. Qed.
Lemma chatty_del_write : chatty _EL_DEL_WRITE.
Proof. by apply chatty_hook. Qed.

End aio.

(** [step H] runs the first computation of a sequence, by [H] or by one of the
    equations above. *)
Tactic Notation "step" uconstr(H) := rewrite (a_bind _ _ _ _ _ H).
Ltac steps := repeat first [step (get_ac_run _ _ _)|step (flag_run _ _ _ _)|step (upd_ac_run _ _ _ _)
  |step (upd_c_run _ _ _ _)|step (must_run _ _)|rewrite a_ret].

(** ** Names of commands *)

Lemma tolower_cr b : tolower b = CR -> b = CR.
Proof.
  unfold tolower. destruct (isupper b) eqn:E; [|done]. unfold isupper in E. apply in_range_spec in E.
  intros Hb. apply (f_equal bZ) in Hb. rewrite bZ_Zb in Hb by lia. change (bZ CR) with 13 in Hb. lia.
Qed.

(** A name that is not [k] does not compare equal to [k]. *)
Lemma name_differs (k x r : bytes) :
  CR ∉ x -> NUL ∉ x -> CR ∉ k -> NUL ∉ k -> tolower <$> k = k -> tolower <$> x <> k ->
  strncaseeq (length k + 2) (x ++ crlf ++ r) (k ++ crlf) = false.
Proof.
  intros Hx Hxn Hk Hkn Hlow Hne. unfold strncaseeq. apply bool_decide_false.
  rewrite (cstr_id (k ++ crlf)), (take_ge (k ++ crlf)) by
    (rewrite ?length_app; simpl; lia || (rewrite elem_of_app; intros [?|?]; [done|set_solver])).
  assert (exists y, cstr (x ++ crlf ++ r) = x ++ CR :: y) as [y ->].
  { exists (LF :: cstr r). clear -Hxn. induction x as [|b x IH]; [done|].
    apply not_elem_of_cons in Hxn as [Hb Hx]. rewrite <- !app_comm_cons. cbn [cstr].
    rewrite bool_decide_false by done. by rewrite (IH Hx). }
  intros E. rewrite fmap_app, Hlow in E. change (tolower <$> crlf) with crlf in E.
  assert (forall i, (i < length k + 2)%nat ->
    tolower <$> (x ++ CR :: y) !! i = (k ++ crlf) !! i) as Hi.
  { intros i Hi. apply (f_equal (fun l => l !! i)) in E. rewrite list_lookup_fmap, lookup_take_lt in E by done. done. }
  destruct (lt_eq_lt_dec (length x) (length k)) as [[Hl|Hl]|Hl].
  - specialize (Hi (length x) ltac:(lia)). rewrite list_lookup_middle in Hi by done.
    rewrite lookup_app_l in Hi by lia. symmetry in Hi. apply list_elem_of_lookup_2 in Hi. done.
  - apply Hne. apply list_eq. intros i. destruct (decide (i < length k)%nat) as [Hik|Hik].
    + specialize (Hi i ltac:(lia)). rewrite !lookup_app_l in Hi by lia. by rewrite list_lookup_fmap.
    + rewrite !lookup_ge_None_2; rewrite ?length_fmap; [done|lia..].
  - specialize (Hi (length k) ltac:(lia)). rewrite lookup_app_l in Hi by lia.
    unfold crlf in Hi. rewrite list_lookup_middle in Hi by done.
    destruct (x !! length k) as [b|] eqn:Eb; [|done]. simpl in Hi. injection Hi as Hi.
    apply tolower_cr in Hi. subst b. apply list_elem_of_lookup_2 in Eb. done.
Qed.

Lemma stripped_elem b name : b ∉ name -> b ∉ stripped name.
Proof. destruct name as [|x l]; [done|]. simpl. destruct (bool_decide _); [|done]. set_solver. Qed.

(** What [__redisAsyncCommand] sees of a command: the byte after the name, the
    first byte of the name, and the text from the name without its [p] on. *)
Lemma dispatch_name {dm : DataModel} name args :
  LP64 -> zlen name <= INT_MAX ->
  let m := resp_command (name :: args) ++ [NUL] in
  let rest := concat (bulk <$> args) ++ [NUL] in
  exists p q, nextArgument m 0 = Some (Some (p, q, zlen name)) /\
    zget m p = Some (match args with [] => NUL | _ => Byte.x24 end) /\ zget m q = Some (hd CR name) /\
    zdrop (if bool_decide (tolower (hd CR name) = Byte.x70) then q + 1 else q) m = stripped name ++ crlf ++ rest /\
    zdrop p m = rest.
Proof.
  intros Hlp Hn m rest. destruct (first_argument Hlp name args Hn) as (p & q & En & Eb & Ed & Hq & Ep).
  fold m rest in En, Eb, Ed, Ep. exists p, q. split; [done|]. split; [done|].
  split; [|split; [|done]].
  - assert (zget m q = zget (zdrop q m) 0) as ->.
    { rewrite (zget_zdrop m q 0) by lia. by rewrite Z.add_0_r. }
    rewrite Ed. by destruct name.
  - destruct name as [|b name]; [exact Ed|]. cbn [hd stripped].
    destruct (bool_decide (tolower b = Byte.x70)); [|exact Ed].
    rewrite Z.add_comm, <- zdrop_zdrop by lia. by rewrite Ed.
Qed.

(** The name of a command whose text is short is short. *)
Lemma name_short {dm : DataModel} name args : zlen (resp_command (name :: args)) < INT_MAX ->
  Forall (fun x => zlen x <= INT_MAX) (name :: args).
Proof.
  intros Hm. assert (forall x l, x ∈ l -> zlen x <= zlen (concat (bulk <$> l))) as Hin.
  { intros x l. induction l as [|y l IH]; [by intros ?%not_elem_of_nil|]. cbn [fmap list_fmap concat].
    rewrite zlen_app, zlen_bulk. pose proof (zlen_nonneg (concat (bulk <$> l))).
    pose proof (zlen_nonneg (udec (zlen y))). pose proof (zlen_nonneg y).
    intros [->|Hx]%elem_of_cons; [lia|]. specialize (IH Hx). lia. }
  apply Forall_forall. intros x Hx. rewrite resp_command_header, zlen_app in Hm.
  pose proof (Hin x _ Hx). pose proof (zlen_nonneg (header (name :: args))). lia.
Qed.

(** A plain command is none of those with a meaning to the client. *)
Lemma plain_dispatch {dm : DataModel} args :
  LP64 -> plain args ->
  exists p q clen b b', nextArgument (resp_command args ++ [NUL]) 0 = Some (Some (p, q, clen)) /\
    zget (resp_command args ++ [NUL]) p = Some b /\ zget (resp_command args ++ [NUL]) q = Some b' /\
    let q' := if bool_decide (tolower b' = Byte.x70) then q + 1 else q in
    let name := zdrop q' (resp_command args ++ [NUL]) in
    strncaseeq 11 name (bs "subscribe" ++ crlf) = false /\
    strncaseeq 13 name (bs "unsubscribe" ++ crlf) = false /\
    strncaseeq 9 name (bs "monitor" ++ crlf) = false.
Proof.
  intros Hlp [Hp Hm]. destruct args as [|name args]; [done|]. destruct Hp as (Hcr & Hnul & Hk).
  pose proof (name_short _ _ Hm) as Hn. apply Forall_cons in Hn as [Hn _].
  destruct (dispatch_name name args Hlp Hn) as (p & q & En & Eb & Eb' & Ed & _).
  exists p, q, (zlen name). do 2 eexists. split; [done|]. split; [done|]. split; [done|].
  cbv zeta. rewrite Ed.
  apply Forall_cons in Hk as [H1 Hk]. apply Forall_cons in Hk as [H2 Hk]. apply Forall_cons in Hk as [H3 _].
  pose proof (stripped_elem _ _ Hcr). pose proof (stripped_elem _ _ Hnul).
  split; [|split].
  - apply (name_differs (bs "subscribe")); try done; set_solver.
  - apply (name_differs (bs "unsubscribe")); try done; set_solver.
  - apply (name_differs (bs "monitor")); try done; set_solver.
Qed.

Section client.
Context {al : Allocator} {dm : DataModel} {fl : FloatLib} {pd : PrintfDouble}.
Context {N : Type} {nw : Network N} {fd : Z} {stm : Stream N fd}.
Hypothesis Hal : alloc_total al.
Hypothesis Hlp : LP64.
Implicit Types (a : redisAsyncContext) (c : redisContext) (n : N) (l : list call) (h : heap) (e : env N).
Implicit Types (cs : list (redisCallback * list bytes)).

(** The context of a client without subscriptions: the commands [cs] have been
    accepted, the callbacks of the first [k] are done with, what was not sent
    waits in the output buffer. *)
Record wire cs (k : nat) a n : Prop := Wire {
  w_fd : c_fd (ac_c a) = fd;
  w_block : has_flag REDIS_BLOCK (ac_c a) = false;
  w_connected : has_flag REDIS_CONNECTED (ac_c a) = true;
  w_subscribed : has_flag REDIS_SUBSCRIBED (ac_c a) = false;
  w_monitoring : has_flag REDIS_MONITORING (ac_c a) = false;
  w_keep : has_flag REDIS_NO_AUTO_FREE (ac_c a) = false;
  w_obuf : exists b v, c_obuf (ac_c a) = BLive b /\ sds_repr b v /\ sent n ++ v = sends cs;
  w_done : (k <= length cs)%nat;
  w_replies : ac_replies a = drop k cs.*1;
  w_invalid : ac_invalid a = [];
  w_tables : ac_channels a = Some dictCreate /\ ac_patterns a = Some dictCreate;
  w_plain : Forall (fun x => plain x.2) cs
}.

(** The connection under another context of the same kind. *)
Lemma wire_c cs k a n c :
  wire cs k a n -> c_fd c = c_fd (ac_c a) -> c_obuf c = c_obuf (ac_c a) ->
  (forall f, f ∈ [REDIS_BLOCK; REDIS_CONNECTED; REDIS_SUBSCRIBED; REDIS_MONITORING] ->
     has_flag f c = has_flag f (ac_c a)) ->
  has_flag REDIS_NO_AUTO_FREE c = false -> wire cs k (with_c c a) n.
Proof.
  intros [] Hf Ho Hfl Hk. split; cbn [with_c ac_c ac_replies ac_invalid ac_channels ac_patterns]; try done.
  - by rewrite Hf.
  - rewrite Hfl; [done|set_solver].
  - rewrite Hfl; [done|set_solver].
  - rewrite Hfl; [done|set_solver].
  - rewrite Hfl; [done|set_solver].
  - by rewrite Ho.
Qed.

Lemma malloc_run sz a cnt h n l :
  a_malloc sz (AState (Some a) (Env cnt h n) l) = Some (true, AState (Some a) (Env (S cnt) h n) l).
Proof. unfold a_malloc. cbn [a_env e_cnt]. by rewrite (malloc_ok Hal). Qed.

Lemma push_run cbl cb a cnt h n l :
  __redisPushCallback cbl cb (AState (Some a) (Env cnt h n) l) =
  Some (REDIS_OK, AState (Some (with_list cbl (list_of cbl a ++ [cb]) a)) (Env (S cnt) h n) l).
Proof. unfold __redisPushCallback. by rewrite (a_bind _ _ _ _ _ (malloc_run _ _ _ _ _ _)). Qed.

(** A command in the output buffer. *)
Lemma queue_run c (a0 : nat) h n b v cmd :
  c_obuf c = BLive b -> sds_repr b v -> zlen v + zlen cmd <= BUF_SAFE ->
  exists b' (a' : nat), __redisAppendCommand (N := N) (cmd ++ [NUL]) (zlen cmd) (c, Env a0 h n)
    = Some (REDIS_OK, (with_obuf (BLive b') c, Env a' h n)) /\ sds_repr b' (v ++ cmd).
Proof.
  intros Eb Hb Hl. pose proof (zlen_nonneg cmd).
  assert (0 <= zlen cmd <= zlen (cmd ++ [NUL])) as Hz by (rewrite zlen_app; pose proof (zlen_nonneg [NUL]); lia).
  destruct (sdscatlen_spec b v (cmd ++ [NUL]) (zlen cmd) a0 Hb Hz Hl) as ([f|b'] & a' & Ec & Hg); [done|].
  rewrite ztake_app_len in Hg. exists b', a'. split; [|done]. unfold __redisAppendCommand.
  rewrite (bind_run _ _ _ _ _ (live_obuf_run c _ b Eb)).
  assert (with_cnt (sdscatlen b (cmd ++ [NUL]) (zlen cmd)) (c, Env a0 h n) = Some (GOk b', (c, Env a' h n))) as E2.
  { unfold with_cnt. cbn [fst snd e_cnt e_heap e_net]. by rewrite Ec. }
  by rewrite (bind_run _ _ _ _ _ E2).
Qed.

Context {prog : Program N}.

Lemma send_refused fuel fn privdata args a cnt h n l :
  plain args -> closing (ac_c a) = true ->
  exists cnt', run_action fuel (Send fn privdata args) (AState (Some a) (Env cnt h n) l) =
    Some (tt, AState (Some a) (Env cnt' h n) (l ++ [Issued (Callback fn 1 privdata) args REDIS_ERR])).
Proof.
  intros Hp Hc. destruct Hp as [_ Hm]. pose proof (zlen_nonneg (resp_command args)).
  destruct (redisFormatSdsCommandArgv_spec Hal args (Some (zlen <$> args)) args cnt (exact_args args) Hm)
    as (s & cnt' & Ef & Hs).
  exists cnt'.
  assert (with_cnt_a (redisFormatSdsCommandArgv true (zlen args) args (Some (zlen <$> args)))
    (AState (Some a) (Env cnt h n) l) = Some (SdsCmd s (zlen (resp_command args)),
      AState (Some a) (Env cnt' h n) l)) as E1.
  { unfold with_cnt_a. cbn [a_env e_cnt]. by rewrite Ef. }
  assert (redisAsyncCommandArgv fuel fn privdata (zlen args) args (Some (zlen <$> args))
    (AState (Some a) (Env cnt h n) l) = Some (REDIS_ERR, AState (Some a) (Env cnt' h n) l)) as E.
  { unfold redisAsyncCommandArgv. step E1. rewrite (proj2 (Z.ltb_ge _ _)) by lia.
    unfold __redisAsyncCommand. steps.
    by rewrite closing_mask, Hc. }
  unfold run_action. by step E.
Qed.

Lemma send_accepted fuel fn privdata args cs k a cnt h n l :
  plain args -> closing (ac_c a) = false -> wire cs k a n -> zlen (sends cs) <= INT_MAX ->
  exists a' cnt' l', run_action fuel (Send fn privdata args) (AState (Some a) (Env cnt h n) l) =
    Some (tt, AState (Some a') (Env cnt' h n) (l ++ l' ++ [Issued (Callback fn 1 privdata) args REDIS_OK])) /\
    noise l' /\ wire (cs ++ [(Callback fn 1 privdata, args)]) k a' n /\
    (c_flags (ac_c a'), c_reader (ac_c a'), c_err (ac_c a')) =
    (c_flags (ac_c a), c_reader (ac_c a), c_err (ac_c a)).
Proof.
  intros Hp Hc Hw Hm. pose proof Hp as [_ Hl]. pose proof (zlen_nonneg (resp_command args)).
  destruct (redisFormatSdsCommandArgv_spec Hal args (Some (zlen <$> args)) args cnt (exact_args args) Hl)
    as (s & cnt' & Ef & Hs).
  assert (with_cnt_a (redisFormatSdsCommandArgv true (zlen args) args (Some (zlen <$> args)))
    (AState (Some a) (Env cnt h n) l) = Some (SdsCmd s (zlen (resp_command args)),
      AState (Some a) (Env cnt' h n) l)) as E1.
  { unfold with_cnt_a. cbn [a_env e_cnt]. by rewrite Ef. }
  destruct (plain_dispatch args Hlp Hp) as (p & q & clen & b & b' & En & Ep & Eq & Hn).
  destruct (w_obuf _ _ _ _ Hw) as (o & v & Eo & Ho & Ev).
  set (cb := Callback fn 1 privdata). set (a1 := with_list Replies (ac_replies a ++ [cb]) a).
  destruct (queue_run (ac_c a1) (S cnt') h n o v (resp_command args) Eo Ho) as (o' & cnt2 & Ea & Ho').
  { assert (INT_MAX + INT_MAX <= BUF_SAFE) by done.
    apply (f_equal zlen) in Ev. rewrite zlen_app in Ev. pose proof (zlen_nonneg (sent n)). lia. }
  set (a2 := with_c (with_obuf (BLive o') (ac_c a1)) a1).
  destruct (chatty_add_write a2 (Env cnt2 h n) l) as (l' & Ew & Hl').
  exists a2, cnt2, l'. split; [|split; [done|split; [|done]]].
  - assert (redisAsyncCommandArgv fuel fn privdata (zlen args) args (Some (zlen <$> args))
      (AState (Some a) (Env cnt h n) l) = Some (REDIS_OK, AState (Some a2) (Env cnt2 h n) (l ++ l'))) as E;
      [|unfold run_action; step E; by rewrite app_assoc].
    unfold redisAsyncCommandArgv.
    step E1. rewrite (proj2 (Z.ltb_ge _ _)) by lia. rewrite (repr_val _ _ Hs).
    unfold __redisAsyncCommand. steps. rewrite closing_mask, Hc. cbn [negb].
    rewrite En. steps. rewrite Ep. steps. rewrite Eq. steps.
    cbv zeta in Hn |- *. destruct Hn as (-> & -> & ->). rewrite andb_false_r.
    steps. rewrite (w_subscribed _ _ _ _ Hw). cbn iota. step (push_run _ _ _ _ _ _ _). cbn [list_of]. fold cb a1.
    rewrite (a_bind _ _ _ _ _ (on_c_run _ _ _ _ _ _ _ Ea)). fold a2. by step Ew.
  - destruct Hw. split; try done.
    + exists o', (v ++ resp_command args). split; [done|]. split; [done|].
      rewrite app_assoc, Ev, sends_app. f_equal. unfold sends. simpl. by rewrite app_nil_r.
    + rewrite length_app. lia.
    + unfold a2, a1. cbn [with_c with_list ac_replies]. rewrite w_replies0, fmap_app, drop_app_le; [done|].
      by rewrite length_fmap.
    + apply Forall_app. split; [done|]. by constructor.
Qed.

(** ** Callbacks *)

Context {fuel : nat} {L : Z} {scr : Scripted fuel L}.
Hypothesis HL : 0 <= L <= INT_MAX.

(** What a computation of the program has done by the end: the context is still
    there, [l'] was logged, the reader is the same. *)
Record advanced k a n l a' l' : Prop := Advanced {
  ad_wire : wire (issued (l ++ l')) k a' n;
  ad_limit : zlen (sends (issued (l ++ l'))) <= L;
  ad_reader : c_reader (ac_c a') = c_reader (ac_c a);
  ad_err : c_err (ac_c a') = c_err (ac_c a);
  ad_closing : closing (ac_c a) = true -> closing (ac_c a') = true /\ issued l' = []
}.

Lemma advanced_trans k a n l a1 l1 a2 l2 :
  advanced k a n l a1 l1 -> advanced k a1 n (l ++ l1) a2 l2 -> advanced k a n l a2 (l1 ++ l2).
Proof.
  intros [W1 L1 R1 E1 C1] [W2 L2 R2 E2 C2]. rewrite <- app_assoc in *.
  split; try done; [congruence..|]. intros [H1 N1]%C1. apply C2 in H1 as [H2 N2].
  split; [done|]. by rewrite issued_app, N1, N2.
Qed.

(** The flags that a callback changes. *)
Lemma advanced_flags k a n l c l' :
  wire (issued l) k a n -> zlen (sends (issued l)) <= L -> issued l' = [] ->
  c_fd c = c_fd (ac_c a) -> c_obuf c = c_obuf (ac_c a) ->
  (forall f, f ∈ [REDIS_BLOCK; REDIS_CONNECTED; REDIS_SUBSCRIBED; REDIS_MONITORING] ->
     has_flag f c = has_flag f (ac_c a)) ->
  has_flag REDIS_NO_AUTO_FREE c = false ->
  c_reader c = c_reader (ac_c a) -> c_err c = c_err (ac_c a) ->
  (closing (ac_c a) = true -> closing c = true) -> advanced k a n l (with_c c a) l'.
Proof.
  intros Hw Hl Hi Hf Ho Hfl Hk Hr He Hc. split; rewrite ?issued_app, ?Hi, ?app_nil_r; auto.
  by apply wire_c.
Qed.

Lemma action_run act k a cnt h n l :
  wire (issued l) k a n -> has_flag REDIS_IN_CALLBACK (ac_c a) = true ->
  zlen (sends (issued l)) <= L -> plain_action act ->
  keeps L (run_actions fuel) [act] (AState (Some a) (Env cnt h n) l) ->
  exists a' cnt' l', run_action fuel act (AState (Some a) (Env cnt h n) l) =
    Some (tt, AState (Some a') (Env cnt' h n) (l ++ l')) /\ calls l' = [] /\
    has_flag REDIS_IN_CALLBACK (ac_c a') = true /\ advanced k a n l a' l'.
Proof.
  intros Hw Hin Hl Hp Hk. destruct act as [fn priv args| |].
  - destruct (closing (ac_c a)) eqn:Ec.
    + destruct (send_refused fuel fn priv args a cnt h n l Hp Ec) as (cnt' & E).
      do 3 eexists. split; [exact E|]. split; [done|]. split; [done|].
      split; rewrite ?issued_app, ?app_nil_r; done.
    + destruct (send_accepted fuel fn priv args (issued l) k a cnt h n l Hp Ec Hw ltac:(lia))
        as (a' & cnt' & l' & E & [N1 N2] & Hw' & Es).
      injection Es as Ef Er Ee. do 3 eexists. split; [exact E|].
      split; [by rewrite calls_app, N2|]. split; [unfold has_flag in *; by rewrite Ef|].
      assert (issued (l ++ l' ++ [Issued (Callback fn 1 priv) args REDIS_OK])
        = issued l ++ [(Callback fn 1 priv, args)]) as Ei by (by rewrite !issued_app, N1).
      split; try done; [by rewrite Ei| |].
      * refine (Hk [Send fn priv args] [] (AState (Some a') (Env cnt' h n) _) eq_refl _).
        cbn [run_actions]. step E. done.
      * congruence.
  - exists (with_c (clear_flag REDIS_NO_AUTO_FREE (set_flag REDIS_DISCONNECTING (ac_c a))) a), cnt, [].
    rewrite app_nil_r. split.
    { unfold run_action, redisAsyncDisconnect. steps. flags. rewrite Hin. reflexivity. }
    split; [done|]. split; [flags; by rewrite Hin|].
    apply advanced_flags; try done; [flag_cases|by flags|].
    intros Hc. unfold closing in *. by flags.
  - exists (with_c (set_flag REDIS_FREEING (ac_c a)) a), cnt, []. rewrite app_nil_r. split.
    { unfold run_action, redisAsyncFree. steps. flags. rewrite Hin. reflexivity. }
    split; [done|]. split; [flags; by rewrite Hin|].
    apply advanced_flags; try done; [flag_cases|flags; apply Hw|].
    intros Hc. unfold closing in *. flags. by rewrite orb_true_r.
Qed.

Lemma keeps_tail act acts s s' :
  run_action fuel act s = Some (tt, s') -> keeps L (run_actions fuel) (act :: acts) s ->
  keeps L (run_actions fuel) acts s'.
Proof.
  intros E Hk xs1 xs2 s2 -> E2. apply (Hk (act :: xs1) xs2 s2); [done|]. cbn [run_actions]. by step E.
Qed.

Lemma keeps_head act acts s :
  keeps L (run_actions fuel) (act :: acts) s -> keeps L (run_actions fuel) [act] s.
Proof. intros Hk xs1 xs2 s2 E. apply (Hk xs1 (xs2 ++ acts)). rewrite (assoc_L (++)), <- E. done. Qed.

Lemma actions_run acts k a cnt h n l :
  wire (issued l) k a n -> has_flag REDIS_IN_CALLBACK (ac_c a) = true -> Forall plain_action acts ->
  keeps L (run_actions fuel) acts (AState (Some a) (Env cnt h n) l) ->
  exists a' cnt' l', run_actions fuel acts (AState (Some a) (Env cnt h n) l) =
    Some (tt, AState (Some a') (Env cnt' h n) (l ++ l')) /\ calls l' = [] /\
    has_flag REDIS_IN_CALLBACK (ac_c a') = true /\ advanced k a n l a' l'.
Proof.
  intros Hw Hin Hp. revert a cnt l Hw Hin.
  induction Hp as [|act acts Hact _ IH]; intros a cnt l Hw Hin Hk;
    assert (zlen (sends (issued l)) <= L) as Hl by exact (Hk [] _ _ eq_refl eq_refl).
  - exists a, cnt, []. rewrite app_nil_r. split; [done|]. split; [done|]. split; [done|].
    split; rewrite ?app_nil_r; done.
  - destruct (action_run act k a cnt h n l Hw Hin Hl Hact (keeps_head _ _ _ Hk))
      as (a1 & cnt1 & l1 & E1 & C1 & Hin1 & Ad1).
    destruct (IH a1 cnt1 (l ++ l1) (ad_wire _ _ _ _ _ _ Ad1) Hin1 (keeps_tail _ _ _ _ E1 Hk))
      as (a2 & cnt2 & l2 & E2 & C2 & Hin2 & Ad2).
    exists a2, cnt2, (l1 ++ l2). cbn [run_actions]. step E1. rewrite E2, app_assoc.
    split; [done|]. split; [by rewrite calls_app, C1, C2|]. split; [done|].
    by eapply advanced_trans.
Qed.

(** The entry of a call, if there is a function to call. *)
Definition entry (cb : redisCallback) (reply : option optr) h : list (redisCallback * option optr * heap) :=
  match cb_fn cb with Some _ => [(cb, reply, h)] | None => [] end.

Lemma callback_run cb reply k a cnt h n l :
  wire (issued l) k a n -> has_flag REDIS_IN_CALLBACK (ac_c a) = false ->
  zlen (sends (issued l)) <= L ->
  exists a' cnt' l', __redisRunCallback cb reply (AState (Some a) (Env cnt h n) l) =
    Some (tt, AState (Some a') (Env cnt' h n) (l ++ l')) /\ calls l' = entry cb reply h /\
    has_flag REDIS_IN_CALLBACK (ac_c a') = false /\ advanced k a n l a' l'.
Proof.
  intros Hw Hin Hl. unfold __redisRunCallback, entry. destruct (cb_fn cb) as [fn|].
  2: { exists a, cnt, []. rewrite app_nil_r. split; [done|]. split; [done|]. split; [done|].
       split; rewrite ?app_nil_r; done. }
  set (a1 := with_c (set_flag REDIS_IN_CALLBACK (ac_c a)) a). set (l1 := [Called cb reply h]).
  assert (advanced k a n l a1 l1) as Ad1.
  { apply advanced_flags; try done; [flag_cases|flags; apply Hw|]. unfold closing. by flags. }
  assert (log_called cb reply (AState (Some a1) (Env cnt h n) l)
    = Some (tt, AState (Some a1) (Env cnt h n) (l ++ l1))) as El by done.
  assert (has_flag REDIS_IN_CALLBACK (ac_c a1) = true) as Hin1 by (unfold a1; by flags).
  destruct (reply_law (fuel := fuel) (L := L) fn (cb_privdata cb) reply
    (AState (Some a1) (Env cnt h n) (l ++ l1))) as (acts & E2 & Hp & Hk).
  { by exists a1. }
  { apply Ad1. }
  destruct (actions_run acts k a1 cnt h n (l ++ l1) (ad_wire _ _ _ _ _ _ Ad1) Hin1 Hp Hk)
    as (a2 & cnt2 & l2 & E3 & C2 & _ & Ad2).
  exists (with_c (clear_flag REDIS_IN_CALLBACK (ac_c a2)) a2), cnt2, (l1 ++ l2).
  split; [|split; [by rewrite calls_app, C2|split; [by flags|]]].
  - steps. fold a1. step El. step (eq_trans E2 E3). rewrite app_assoc. apply upd_c_run.
  - rewrite <- (app_nil_r (l1 ++ l2)). eapply advanced_trans; [by eapply advanced_trans|].
    pose proof (ad_wire _ _ _ _ _ _ Ad2) as Hw2. pose proof (ad_limit _ _ _ _ _ _ Ad2) as Hl2.
    rewrite <- app_assoc in Hw2, Hl2.
    apply advanced_flags; try done; [flag_cases|flags; apply Hw2|]. unfold closing. by flags.
Qed.

(** ** The end of a context *)

(** The calls with [NULL]. *)
Definition null_calls (cbs : list redisCallback) h := cbs ≫= fun cb => entry cb None h.

Lemma wire_shift cs k a n cb cbs :
  wire cs k a n -> ac_replies a = cb :: cbs -> wire cs (S k) (with_list Replies cbs a) n.
Proof.
  intros [] E. rewrite w_replies0 in E. split; try done.
  - apply (f_equal length) in E. rewrite length_drop, length_fmap in E. simpl in E. lia.
  - cbn [with_list ac_replies]. by rewrite <- Nat.add_1_r, <- drop_drop, E.
Qed.

Lemma shift_run cb cbs a e l :
  ac_replies a = cb :: cbs -> __redisShiftCallback Replies (AState (Some a) e l) =
    Some (Some cb, AState (Some (with_list Replies cbs a)) e l).
Proof. intros E. unfold __redisShiftCallback. steps. cbn [list_of]. rewrite E. by steps. Qed.

Lemma shift_none a e l :
  ac_replies a = [] -> __redisShiftCallback Replies (AState (Some a) e l) = Some (None, AState (Some a) e l).
Proof. intros E. unfold __redisShiftCallback. steps. cbn [list_of]. by rewrite E. Qed.

Lemma drain_run f k a cnt h n l :
  wire (issued l) k a n -> has_flag REDIS_IN_CALLBACK (ac_c a) = false -> closing (ac_c a) = true ->
  zlen (sends (issued l)) <= L -> (length (issued l) - k < f)%nat ->
  exists a' cnt' l', drain f Replies (AState (Some a) (Env cnt h n) l) =
    Some (tt, AState (Some a') (Env cnt' h n) (l ++ l')) /\
    calls l' = null_calls (drop k (issued l).*1) h /\ ac_replies a' = [] /\
    has_flag REDIS_IN_CALLBACK (ac_c a') = false /\ advanced (length (issued l)) a n l a' l'.
Proof.
  revert k a cnt l. induction f as [|f IH]; intros k a cnt l Hw Hin Hc Hl Hf; [lia|].
  cbn [drain]. pose proof (w_replies _ _ _ _ Hw) as Er. pose proof (w_done _ _ _ _ Hw) as Hk.
  destruct (ac_replies a) as [|cb cbs] eqn:Ea.
  - step (shift_none _ _ _ Ea). exists a, cnt, []. rewrite app_nil_r, <- Er.
    assert (k = length (issued l)) as ->.
    { apply (f_equal length) in Er. rewrite length_drop, length_fmap in Er. simpl in Er. lia. }
    split; [done|]. split; [done|]. split; [done|]. split; [done|]. split; rewrite ?app_nil_r; done.
  - step (shift_run _ _ _ _ _ Ea). pose proof (wire_shift _ _ _ _ _ _ Hw Ea) as Hw1.
    set (a1 := with_list Replies cbs a) in *.
    destruct (callback_run cb None (S k) a1 cnt h n l Hw1 Hin Hl) as (a2 & cnt2 & l2 & E2 & C2 & Hin2 & Ad2).
    step E2. destruct (ad_closing _ _ _ _ _ _ Ad2 Hc) as [Hc2 I2].
    assert (issued (l ++ l2) = issued l) as Ei by (by rewrite issued_app, I2, app_nil_r).
    destruct (IH (S k) a2 cnt2 (l ++ l2) (ad_wire _ _ _ _ _ _ Ad2) Hin2 Hc2 (ad_limit _ _ _ _ _ _ Ad2))
      as (a3 & cnt3 & l3 & E3 & C3 & Er3 & Hin3 & Ad3).
    { pose proof (w_done _ _ _ _ Hw1). rewrite Ei. lia. }
    exists a3, cnt3, (l2 ++ l3). rewrite E3, app_assoc. rewrite Ei in *.
    split; [done|]. split; [|split; [done|split; [done|]]].
    + rewrite calls_app, C2, C3, <- Er. unfold null_calls. cbn [mbind list_bind].
      by rewrite <- Nat.add_1_r, <- drop_drop, <- Er.
    + destruct Ad3 as [W3 L3 R3 E3' C3']. rewrite <- app_assoc in *. destruct Ad2 as [_ _ R2 E2' _].
      split; try done; [by rewrite R3, R2|by rewrite E3', E2'|]. intros _. destruct (C3' Hc2) as [? I3].
      split; [done|]. by rewrite issued_app, I2, I3.
Qed.

(** The tables and the other list are empty. *)
Lemma drain_invalid f a e l :
  ac_invalid a = [] -> drain (S f) Invalid (AState (Some a) e l) = Some (tt, AState (Some a) e l).
Proof.
  intros E. cbn [drain]. unfold __redisShiftCallback at 1. rewrite (a_bind _ _ _ None (AState (Some a) e l)); [done|].
  steps. cbn [list_of]. by rewrite E.
Qed.

Lemma end_table_run f pv a cnt h n l :
  table_of pv a = Some dictCreate ->
  end_table (S f) pv (AState (Some a) (Env cnt h n) l) =
  Some (tt, AState (Some (with_table pv None a)) (Env (S cnt) h n) l).
Proof.
  intros E. unfold end_table. step (malloc_run _ _ _ _ _ _). cbn [negb drain_table].
  assert (forall e, get_table pv (AState (Some a) e l) = Some (dictCreate, AState (Some a) e l)) as Et.
  { intros e. unfold get_table. steps. by rewrite E. }
  assert (drain_table (S f) pv dictGetIterator (AState (Some a) (Env (S cnt) h n) l)
    = Some (tt, AState (Some a) (Env (S cnt) h n) l)) as Ed.
  { cbn [drain_table]. step (Et _). done. }
  step Ed. unfold release_table. step (Et _). done.
Qed.

Lemma cleanup_run a e l :
  exists ev l', _EL_CLEANUP (AState (Some a) e l) = Some (tt, AState (Some (with_ev ev a)) e (l ++ l')) /\
    noise l'.
Proof.
  destruct (chatty_hook (N := N) ev_cleanup Cleanup noise_nil a e l) as (l' & E & Hn).
  eexists _, l'. split; [|done]. unfold _EL_CLEANUP. step E. done.
Qed.

Lemma onDisconnect_run a e l :
  exists l', run_onDisconnect (AState (Some a) e l) = Some (tt, AState (Some a) e (l ++ l')) /\ noise l'.
Proof.
  unfold run_onDisconnect. steps. destruct (ac_onDisconnect a) as [fn|]; [|exists []; by rewrite app_nil_r].
  destruct (has_flag REDIS_CONNECTED (ac_c a)); [|exists []; by rewrite app_nil_r].
  set (st := if has_flag _ _ then _ else _).
  exists [Disconnected fn st]. split; [|done].
  assert (log (Disconnected fn st) (AState (Some a) e l)
    = Some (tt, AState (Some a) e (l ++ [Disconnected fn st]))) as E by done.
  step E. apply (disconnect_law (fuel := fuel) (L := L)).
Qed.

Lemma free_ctx_run a cnt h n l b r h' :
  c_obuf (ac_c a) = BLive b -> c_reader (ac_c a) = Some r ->
  redisReaderFree (Some defaultFunctions) r h = Some h' ->
  exists n', free_context (AState (Some a) (Env cnt h n) l) = Some (tt, AState None (Env cnt h' n') l) /\
    got n' = got n.
Proof.
  intros Eb Er Ef. unfold free_context.
  assert (exists c' n', redisNetClose (ac_c a, Env cnt h n) = Some (tt, (c', Env cnt h n')) /\
    c_obuf c' = c_obuf (ac_c a) /\ c_reader c' = c_reader (ac_c a) /\ got n' = got n) as (c' & n' & E & Eo & Er' & Eg).
  { unfold redisNetClose, field. rewrite (bind_run _ _ _ (c_fd (ac_c a)) (ac_c a, Env cnt h n)) by done.
    destruct (c_fd (ac_c a) =? REDIS_INVALID_FD); [by eexists _, _|].
    eexists _, _. split; [reflexivity|]. split; [done|]. split; [done|]. apply stream_close. }
  exists n'. split; [|done].
  assert (redisFree (ac_c a, Env cnt h n) = Some (tt, (c', Env cnt h' n'))) as E2.
  { unfold redisFree. rewrite (bind_run _ _ _ _ _ E). unfold free_buffers.
    rewrite (bind_run _ _ _ c' (c', Env cnt h n')) by done. rewrite Eo, Eb, Er', Er.
    rewrite (bind_run _ _ _ tt (c', Env cnt h n')) by done. unfold on_heap. cbn [snd e_heap].
    rewrite Ef. done. }
  by step (on_c_run _ _ _ _ _ _ _ E2).
Qed.

(** The context is gone, and every callback that was left has been called. *)
Definition ended k h h' n l (s : astate N) : Prop :=
  exists cnt n' l', s = AState None (Env cnt h' n') (l ++ l') /\ issued l' = [] /\
    calls l' = null_calls (drop k (issued l).*1) h /\ got n' = got n.

Hypothesis Hfuel : (Z.to_nat L < fuel)%nat.

Lemma free_run k a cnt h n l r h' :
  wire (issued l) k a n -> has_flag REDIS_IN_CALLBACK (ac_c a) = false -> closing (ac_c a) = true ->
  zlen (sends (issued l)) <= L -> c_reader (ac_c a) = Some r ->
  redisReaderFree (Some defaultFunctions) r h = Some h' ->
  exists s, __redisAsyncFree fuel (AState (Some a) (Env cnt h n) l) = Some (tt, s) /\ ended k h h' n l s.
Proof.
  intros Hw Hin Hc Hl Er Ef. pose proof (sends_length (issued l)).
  destruct (drain_run fuel k a cnt h n l Hw Hin Hc Hl) as (a1 & cnt1 & l1 & E1 & C1 & _ & _ & [W1 _ R1 _ I1]).
  { unfold zlen in Hl. lia. }
  destruct (I1 Hc) as [_ I1'].
  assert (exists f, fuel = S f) as [f Efu] by (destruct fuel; [lia|eauto]).
  destruct (w_tables _ _ _ _ W1) as [T1 T2].
  set (a2 := with_table true None (with_table false None a1)).
  destruct (cleanup_run a2 (Env (S (S cnt1)) h n) (l ++ l1)) as (ev & l2 & E2 & [I2 C2]).
  destruct (onDisconnect_run (with_ev ev a2) (Env (S (S cnt1)) h n) ((l ++ l1) ++ l2)) as (l3 & E3 & [I3 C3]).
  destruct (w_obuf _ _ _ _ W1) as (b & v & Eb & _).
  destruct (free_ctx_run (with_ev ev a2) (S (S cnt1)) h n (((l ++ l1) ++ l2) ++ l3) b r h')
    as (n' & E4 & Hg); [done|cbn; by rewrite R1|done|].
  eexists. split; [|exists (S (S cnt1)), n', (l1 ++ l2 ++ l3); split; [reflexivity|]].
  - unfold __redisAsyncFree. step E1. rewrite Efu at 1. step (drain_invalid _ _ _ _ (w_invalid _ _ _ _ W1)).
    rewrite Efu at 1. step (end_table_run _ false _ _ _ _ _ T1).
    rewrite Efu at 1. step (end_table_run _ true (with_table false None a1) _ _ _ _ T2). fold a2.
    step E2. step E3. rewrite E4. by rewrite !app_assoc.
  - split; [by rewrite !issued_app, I1', I2, I3|]. split; [|done].
    by rewrite !calls_app, C1, C2, C3, !app_nil_r.
Qed.

Lemma disconnect_run k a cnt h n l r h' :
  wire (issued l) k a n -> has_flag REDIS_IN_CALLBACK (ac_c a) = false ->
  c_err (ac_c a) <> 0 \/ (c_err (ac_c a) = 0 /\ ac_replies a = [] /\ closing (ac_c a) = true) ->
  zlen (sends (issued l)) <= L -> c_reader (ac_c a) = Some r ->
  redisReaderFree (Some defaultFunctions) r h = Some h' ->
  exists s, __redisAsyncDisconnect fuel (AState (Some a) (Env cnt h n) l) = Some (tt, s) /\ ended k h h' n l s.
Proof.
  intros Hw Hin Hcase Hl Er Ef. unfold __redisAsyncDisconnect, __redisAsyncCopyError. steps.
  set (a1 := copy_error a). change (ac_err a1) with (c_err (ac_c a)).
  assert (exists c2, (if c_err (ac_c a) =? 0
      then ret ← __redisShiftCallback Replies; must (if ret is None then Some tt else None)
      else upd_c (set_flag REDIS_DISCONNECTING)) (AState (Some a1) (Env cnt h n) l)
    = Some (tt, AState (Some (with_c c2 a1)) (Env cnt h n) l) /\ closing c2 = true /\
      c_fd c2 = c_fd (ac_c a) /\ c_obuf c2 = c_obuf (ac_c a) /\ c_reader c2 = c_reader (ac_c a) /\
      has_flag REDIS_IN_CALLBACK c2 = false /\ forall f, f ∈ [REDIS_BLOCK; REDIS_CONNECTED;
        REDIS_SUBSCRIBED; REDIS_MONITORING; REDIS_NO_AUTO_FREE] -> has_flag f c2 = has_flag f (ac_c a))
    as (c2 & E2 & Hc2 & F2 & O2 & R2 & In2 & Fl2).
  { destruct Hcase as [He|(He & Hr & Hc)].
    - rewrite (proj2 (Z.eqb_neq _ _)) by done. exists (set_flag REDIS_DISCONNECTING (ac_c a)).
      split; [done|]. split; [unfold closing; by flags|]. split_and!; try done; [by flags|flag_cases].
    - rewrite He. cbn [Z.eqb]. exists (ac_c a). step (shift_none a1 _ _ Hr).
      split; [by destruct a|]. done. }
  step E2. destruct (cleanup_run (with_c c2 a1) (Env cnt h n) l) as (ev & l1 & E3 & [I3 C3]). step E3.
  steps. change (ac_c (with_ev ev (with_c c2 a1))) with c2.
  rewrite (Fl2 REDIS_NO_AUTO_FREE) by set_solver. rewrite (w_keep _ _ _ _ Hw).
  assert (issued (l ++ l1) = issued l) as Ei by (by rewrite issued_app, I3, app_nil_r).
  destruct (free_run k (with_ev ev (with_c c2 a1)) cnt h n (l ++ l1) r h') as (s & E4 & H4);
    try done; rewrite ?Ei; try done; [|cbn; by rewrite R2|].
  - pose proof (wire_c _ _ _ _ c2 Hw F2 O2 ltac:(intros f Hf; apply Fl2; set_solver)
      ltac:(rewrite Fl2 by set_solver; apply Hw)) as Hw2.
    destruct Hw2. split; done.
  - exists s. split; [exact E4|]. destruct H4 as (cnt' & n' & l' & -> & I4 & C4 & G4).
    exists cnt', n', (l1 ++ l'). rewrite app_assoc, issued_app, calls_app, I3, I4, C3, C4, Ei. done.
Qed.

End client.
