(* ===== verification/AsyncSubs.v ===== *)
(** * Subscriptions

    The tables of subscriptions as finite maps from channels to callbacks: what
    (P)SUBSCRIBE registers, and what the messages of the server do.  The
    comparison of keys is exact on keys below 2 GB ([short]), and so are the
    operations on tables of such keys. *)

From Stdlib Require Import Strings.Byte String.
From stdpp Require Import gmap.
From S2P Require Import Prelude CLib Buffer Sds SdsFmt SdsEdit Read Parser ReaderRefines Replies.
From S2P Require Import Session Reply Tree Resp ReplyRefines Streams Printf.
From S2P Require Import Format FormatFacts Dict DictFacts Network Net Context Transport Pipeline.
From S2P Require Import Async AsyncText AsyncRun AsyncFacts.

(** Channels and their callbacks. *)
Abbreviation subs :=
  (@gmap bytes (@list_eq_dec byte byte_eq_decision) (@list_countable byte byte_eq_decision byte_countable)
     redisCallback).

Definition short (k : bytes) : Prop := zlen k <= INT_MAX.

Lemma compare_short k1 k2 : short k1 -> short k2 -> callbackKeyCompare k1 k2 = bool_decide (k1 = k2).
Proof.
  unfold short. intros H1 H2. pose proof (zlen_nonneg k1). pose proof (zlen_nonneg k2).
  unfold callbackKeyCompare. rewrite !s32_small by width_lia.
  destruct (Z.eqb_spec (zlen k1) (zlen k2)) as [E|E]; cbn [negb].
  - rewrite !ztake_all by lia.
    assert (length k1 = length k2) as El by (unfold zlen in E; lia).
    destruct (Z.eqb_spec (memcmp k1 k2) 0) as [Em|Em]; rewrite (memcmp_eq _ _ El) in Em;
      [by rewrite bool_decide_true|by rewrite bool_decide_false].
  - rewrite bool_decide_false; [done|]. by intros ->.
Qed.

(** The table with an exact comparison. *)
Definition exactDict : dictType (K := bytes) (V := redisCallback) :=
  DictType callbackHash None (Some callbackValDup) (Some (fun k1 k2 => bool_decide (k1 = k2))) true true.

Section tables.
Context {al : Allocator} {dm : DataModel}.
Hypothesis Hal : alloc_total al.
Hypothesis Hlong : long_bits = 32 \/ long_bits = 64.
Implicit Types (t : callback_table) (m : subs) (key : bytes) (cb v : redisCallback).

Lemma exact_cmp k1 k2 : dictCompareHashKeys exactDict k1 k2 = bool_decide (k1 = k2).
Proof. done. Qed.

Lemma chain_agrees key (c : list (bytes * redisCallback)) :
  short key -> Forall (fun e => short e.1) c ->
  chain_find callbackDict key c = chain_find exactDict key c /\
  (forall v, chain_set callbackDict key v c = chain_set exactDict key v c) /\
  chain_delete callbackDict key c = chain_delete exactDict key c.
Proof.
  intros Hk. induction 1 as [|e c He _ (IH1 & IH2 & IH3)]; [done|]. simpl.
  unfold dictCompareHashKeys. cbn [keyCompare callbackDict exactDict]. rewrite compare_short by done.
  rewrite IH1, IH3. split; [done|]. split; [|done]. intros v. by rewrite IH2.
Qed.

Definition short_keys t : Prop := Forall (fun e => short e.1) (entries t).

Lemma slot_short t i c : short_keys t -> slot (d_table t) i = Some c -> Forall (fun e => short e.1) c.
Proof.
  unfold short_keys, entries, slot. destruct (d_table t) as [tb|]; [|done]. cbn [mbind option_bind].
  intros Hs [_ Hi]%zget_lookup. rewrite Forall_forall in Hs. apply Forall_forall. intros e He.
  apply Hs. apply list_elem_of_In, in_concat. exists c.
  split; [by eapply list_elem_of_In, list_elem_of_lookup_2|by apply list_elem_of_In].
Qed.

Lemma find_agrees t key : short key -> short_keys t -> dictFind callbackDict t key = dictFind exactDict t key.
Proof.
  intros Hk Hs. unfold dictFind. destruct (d_size t =? 0); [done|].
  change (key_slot callbackDict) with (key_slot exactDict).
  destruct (slot (d_table t) _) as [c|] eqn:E; [|done]. cbn [mbind option_bind].
  by rewrite (proj1 (chain_agrees key c Hk (slot_short _ _ _ Hs E))).
Qed.

Lemma delete_agrees t key :
  short key -> short_keys t -> dictDelete callbackDict t key = dictDelete exactDict t key.
Proof.
  intros Hk Hs. unfold dictDelete. destruct (d_size t =? 0); [done|].
  change (key_slot callbackDict) with (key_slot exactDict).
  destruct (slot (d_table t) _) as [c|] eqn:E; [|done]. cbn [mbind option_bind].
  by destruct (chain_agrees key c Hk (slot_short _ _ _ Hs E)) as (_ & _ & ->).
Qed.

Lemma replace_agrees t key v a :
  dict_wf exactDict t -> zlen (entries t) < 2 ^ 30 -> short key -> short_keys t ->
  dictReplace callbackDict t key v a = dictReplace exactDict t key v a.
Proof.
  intros Hw Hl Hk Hs.
  destruct (expandIfNeeded_spec exactDict Hal Hlong t a Hw Hl) as (t1 & a1 & n & tb & E1 & Hu & _ & Hp).
  assert (short_keys t1) as Hs1.
  { unfold short_keys in *. destruct Hu as (_ & -> & _). unfold entries at 1. cbn [d_table]. by rewrite Hp. }
  assert (_dictExpandIfNeeded callbackDict t a = _dictExpandIfNeeded exactDict t a) as Ee by done.
  unfold dictReplace, dictAdd, _dictKeyIndex. rewrite Ee, E1. cbn [mbind option_bind].
  change (DICT_OK =? DICT_ERR) with false. cbv iota. change (key_slot callbackDict) with (key_slot exactDict).
  destruct (slot (d_table t1) _) as [c|] eqn:Ec; [|done]. cbn [mbind option_bind].
  destruct (chain_agrees key c Hk (slot_short _ _ _ Hs1 Ec)) as (-> & Hset & _).
  change (dup_key callbackDict) with (dup_key exactDict). change (dup_val callbackDict) with (dup_val exactDict).
  destruct (chain_find exactDict key c); cbn [mbind option_bind].
  - change (-1 =? -1) with true. cbv iota. cbn [mbind option_bind]. rewrite Ec.
    destruct (d_size t1 =? 0); [done|]. cbn [mbind option_bind]. by rewrite Hset.
  - destruct (s32 _ =? -1); cbn [mbind option_bind].
    + rewrite Ec. destruct (d_size t1 =? 0); [done|]. cbn [mbind option_bind]. by rewrite Hset.
    + destruct (slot (d_table t1) (s32 _)) as [d|]; [|done]. cbn [mbind option_bind].
      by destruct (set_slot _ _ _).
Qed.

(** ** Tables as maps *)

(** The table [t] holds the map [m]. *)
Record represents t m : Prop := Represents {
  rp_wf : dict_wf exactDict t;
  rp_map : dict_map t = m;
  rp_short : map_Forall (fun k _ => short k) m
}.

Lemma represents_short t m : represents t m -> short_keys t.
Proof.
  intros [Hw <- Hs]. apply Forall_forall. intros [k v] He. apply (Hs k v).
  by apply elem_of_list_to_map_1; [apply (wf_nodup exactDict)|].
Qed.

Lemma represents_size t m : represents t m -> zlen (entries t) = Z.of_nat (size m).
Proof.
  intros [Hw <- _]. unfold dict_map, zlen. f_equal. symmetry.
  by apply map_size_list_to_map, (wf_nodup exactDict).
Qed.

Lemma table_new : represents dictCreate ∅.
Proof. split; [by left|done|apply map_Forall_empty]. Qed.

Lemma table_find t m key :
  represents t m -> short key ->
  exists r, dictFind callbackDict t key = Some r /\ m !! key = snd <$> r.
Proof.
  intros Ht Hk. rewrite find_agrees by (done || by eapply represents_short). destruct Ht as [Hw <- _].
  destruct (dictFind_spec exactDict exact_cmp Hlong t key Hw) as (r & E & Hm & _). by exists r.
Qed.

Lemma table_replace t m key v a :
  represents t m -> short key -> Z.of_nat (size m) < 2 ^ 30 ->
  exists s t' evs (a' : nat), dictReplace callbackDict t key v a = Some (s, t', evs, a') /\
    represents t' (<[key := v]> m).
Proof.
  intros Ht Hk Hs. pose proof (represents_short _ _ Ht). pose proof (represents_size _ _ Ht) as Hz.
  destruct Ht as [Hw Hm Hsh]. rewrite replace_agrees by (done || lia).
  destruct (dictReplace_spec exactDict exact_cmp (fun _ => eq_refl) (fun _ => eq_refl) Hal Hlong t key v a Hw)
    as (t' & a' & Hw' & Hm' & ->); [lia|].
  assert (represents t' (<[key := v]> m)) as Hr.
  { split; [done|by rewrite Hm', Hm|]. by apply map_Forall_insert_2. }
  destruct (dict_map t !! key); by do 4 eexists.
Qed.

Lemma table_set t m key v old :
  represents t m -> m !! key = Some old ->
  exists t', set_val t key v = Some t' /\ represents t' (<[key := v]> m).
Proof.
  intros Ht Ho. pose proof (represents_short _ _ Ht) as Hks. destruct Ht as [Hw <- Hsh].
  pose proof (Hsh _ _ Ho) as Hk. simpl in Hk.
  destruct (update_spec exactDict exact_cmp Hlong t key v old Hw Ho)
    as (c & c' & tb & _ & Es & Ec & Eset & Hw' & Hm').
  exists (Dict tb (d_size t) (d_sizemask t) (d_used t)). split.
  - unfold set_val. change (key_slot callbackDict) with (key_slot exactDict). rewrite Es. cbn [mbind option_bind].
    destruct (chain_agrees key c Hk (slot_short _ _ _ Hks Es)) as (_ & -> & _).
    rewrite Ec. cbn [mbind option_bind fst]. by rewrite Eset.
  - split; [done|done|]. by apply map_Forall_insert_2.
Qed.

Lemma table_delete t m key :
  represents t m -> short key ->
  exists s t' evs, dictDelete callbackDict t key = Some (s, t', evs) /\ represents t' (delete key m).
Proof.
  intros Ht Hk. rewrite delete_agrees by (done || by eapply represents_short). destruct Ht as [Hw <- Hsh].
  pose proof (dictDelete_spec exactDict exact_cmp Hlong t key Hw) as Hd.
  destruct (dict_map t !! key) as [v|] eqn:E.
  - destruct Hd as (t' & Ed & Hw' & Hm'). do 3 eexists. split; [exact Ed|]. split; [done|done|].
    by apply map_Forall_delete.
  - do 3 eexists. split; [exact Hd|]. rewrite delete_id by done. by split.
Qed.

Lemma table_used t m : represents t m -> (d_used t =? 0) = bool_decide (m = ∅).
Proof.
  intros Ht. rewrite (wf_used exactDict) by apply Ht. rewrite (represents_size _ _ Ht).
  destruct (bool_decide_reflect (m = ∅)) as [->|Hne]; [by rewrite map_size_empty|].
  apply Z.eqb_neq. intros E. apply Hne, map_size_empty_inv. lia.
Qed.

End tables.

(** ** What (P)SUBSCRIBE registers *)

(** The callback [cb] for the channels [chans]: each counts one confirmation
    more than the callback that was there; the count is carried over to the
    channels that have no callback yet. *)
Fixpoint register (cb : redisCallback) (chans : list bytes) (m : subs) : subs :=
  match chans with
  | [] => m
  | ch :: chans =>
      let cb := match m !! ch with
                | Some old => Callback (cb_fn cb) (s32 (cb_pending_subs old + 1)) (cb_privdata cb)
                | None => cb
                end in
      register cb chans (<[ch := cb]> m)
  end.

(** Channels for which no confirmation is outstanding wait for one afterwards. *)
Lemma register_one fn priv chans m :
  NoDup chans -> (forall ch old, ch ∈ chans -> m !! ch = Some old -> cb_pending_subs old = 0) ->
  forall ch, register (Callback fn 1 priv) chans m !! ch =
    if bool_decide (ch ∈ chans) then Some (Callback fn 1 priv) else m !! ch.
Proof.
  intros Hnd. revert m. induction Hnd as [|ch chans Hch _ IH]; intros m Hm k; [done|].
  cbn [register cb_fn cb_privdata].
  set (cb := match m !! ch with Some old => _ | None => _ end).
  assert (cb = Callback fn 1 priv) as ->.
  { unfold cb. destruct (m !! ch) as [old|] eqn:E; [|done]. by rewrite (Hm ch old ltac:(left) E). }
  rewrite IH.
  - destruct (decide (k = ch)) as [->|Hk].
    + rewrite (bool_decide_false (ch ∈ chans)) by done. rewrite bool_decide_true by left.
      by rewrite lookup_insert_eq.
    + rewrite lookup_insert_ne by done.
      by rewrite (bool_decide_ext (k ∈ ch :: chans) (k ∈ chans)) by set_solver.
  - intros k' old Hk'. rewrite lookup_insert_ne by (by intros ->). apply Hm. by right.
Qed.

Section subscribe.
Context {al : Allocator} {dm : DataModel} {fl : FloatLib} {pd : PrintfDouble}.
Context {N : Type} {nw : Network N}.
Hypothesis Hal : alloc_total al.
Hypothesis Hlp : LP64.
Implicit Types (a : redisAsyncContext) (h : heap) (n : N) (l : list call) (m : subs) (t : callback_table).

Lemma long_64 : long_bits = 32 \/ long_bits = 64.
Proof. right. exact Hlp. Qed.

Lemma get_table_run pv t a (e : env N) l :
  table_of pv a = Some t -> get_table pv (AState (Some a) e l) = Some (t, AState (Some a) e l).
Proof. intros E. unfold get_table. steps. by rewrite E. Qed.

(** The string of a name. *)
Lemma name_run (p : bytes) k (cnt : nat) a h n l :
  0 <= k <= zlen p -> k <= BUF_SAFE ->
  exists s (cnt' : nat), with_cnt_a (sdsnewlen (Some p) k) (AState (Some a) (Env cnt h n) l) =
    Some (Some s, AState (Some a) (Env cnt' h n) l) /\ sdsval s = ztake k p.
Proof.
  intros Hk Hb. destruct (sdsnewlen_repr (Some p) k cnt) as (o & cnt' & E & Ho); [lia|by intros q [= <-]; lia|].
  destruct o as [s|]; [|by destruct Ho].
  exists s, cnt'. unfold with_cnt_a. cbn [a_env e_cnt]. rewrite E. split; [done|]. by rewrite (repr_val _ _ Ho).
Qed.

Lemma subscribe_loop_run chans fuel c pv cb a cnt h n l t m :
  table_of pv a = Some t -> represents t m -> Forall short chans ->
  Z.of_nat (size m) + zlen chans <= 2 ^ 30 -> (length chans < fuel)%nat ->
  exists t' (cnt' : nat), subscribe_loop fuel (c ++ concat (bulk <$> chans) ++ [NUL]) (zlen c) pv cb
      (AState (Some a) (Env cnt h n) l) =
    Some (tt, AState (Some (with_table pv (Some t') a)) (Env cnt' h n) l) /\
    represents t' (register cb chans m).
Proof.
  intros Ht Hm Hs. revert fuel c cb a cnt t m Ht Hm.
  induction Hs as [|ch chans Hch _ IH]; intros [|fuel] c cb a cnt t m Ht Hm Hsz Hf; simpl in Hf; try lia.
  - exists t, cnt. cbn [fmap list_fmap concat subscribe_loop]. rewrite app_nil_l, next_end. steps.
    split; [|done]. do 3 f_equal. by destruct pv, a; simpl in *; subst.
  - cbn [fmap list_fmap concat]. rewrite <- app_assoc. set (rest := concat (bulk <$> chans) ++ [NUL]).
    pose proof (next_from Hlp c [] ch rest (Forall_nil_2 _) Hch) as En.
    pose proof (next_text c [] ch rest) as Et. rewrite !app_nil_l, !app_nil_r in *.
    cbn [subscribe_loop]. rewrite En. steps. rewrite Et. steps. pose proof (zlen_nonneg ch). rewrite zlen_cons in Hsz.
    pose proof (zlen_nonneg chans).
    assert (INT_MAX <= BUF_SAFE) by done. unfold short in Hch.
    destruct (name_run ch (zlen ch) cnt a h n l) as (sn & cnt1 & E1 & Ev); [lia..|]. step E1. steps.
    step (get_table_run pv t a _ l Ht). rewrite Ev, ztake_all by lia.
    destruct (table_find long_64 t m ch Hm Hch) as (de & Ed & Hde). rewrite Ed. steps.
    set (cb' := match de with Some e => _ | None => cb end).
    assert (cb' = match m !! ch with
                  | Some old => Callback (cb_fn cb) (s32 (cb_pending_subs old + 1)) (cb_privdata cb)
                  | None => cb
                  end) as Ecb by (unfold cb'; rewrite Hde; by destruct de).
    destruct (table_replace Hal long_64 t m ch cb' cnt1 Hm Hch ltac:(lia)) as (st & t1 & evs & cnt2 & Er & Hm1).
    assert (with_cnt_a (fun x : nat => r ← dictReplace callbackDict t ch cb' x; let '(_, t, _, y) := r in Some (t, y))
      (AState (Some a) (Env cnt1 h n) l) = Some (t1, AState (Some a) (Env cnt2 h n) l)) as E2.
    { unfold with_cnt_a. cbn [a_env e_cnt]. by rewrite Er. }
    step E2. steps.
    destruct (IH fuel (c ++ bulk ch) cb' (with_table pv (Some t1) a) cnt2 t1 (<[ch := cb']> m))
      as (t' & cnt' & E3 & Hm'); [by destruct pv|done| |lia|].
    { rewrite map_size_insert. destruct (m !! ch); simpl; lia. }
    exists t', cnt'. rewrite (app_assoc c (bulk ch) rest). split; [unfold rest; rewrite E3; by destruct pv|].
    cbn [register]. by rewrite <- Ecb.
Qed.

(** The name is compared without regard to case. *)
Lemma name_same (k x r : bytes) :
  NUL ∉ x -> NUL ∉ k -> tolower <$> k = k -> tolower <$> x = k ->
  strncaseeq (length k + 2) (x ++ crlf ++ r) (k ++ crlf) = true.
Proof.
  intros Hx Hk Hlow E. unfold strncaseeq. apply bool_decide_true.
  assert (forall y z, NUL ∉ y -> cstr (y ++ crlf ++ z) = y ++ crlf ++ cstr z) as Hc.
  { intros y z. induction y as [|b y IH]; [done|]. intros [Hb Hy]%not_elem_of_cons.
    rewrite <- !app_comm_cons. cbn [cstr]. rewrite bool_decide_false by done. by rewrite (IH Hy). }
  assert (length x = length k) as El by (rewrite <- E; by rewrite length_fmap).
  assert (forall y z, length y = length k -> take (length k + 2) (y ++ crlf ++ z) = y ++ crlf) as Ht.
  { intros y z Hy. rewrite app_assoc, take_app_le, take_ge; [done|..]; rewrite length_app; simpl; lia. }
  rewrite (Hc x r Hx), <- (app_nil_r (k ++ crlf)), <- app_assoc, (Hc k [] Hk), !Ht by done.
  rewrite !fmap_app, E, Hlow. done.
Qed.

(** [PSUBSCRIBE] is about patterns. *)
Definition is_pattern (name : bytes) : bool := bool_decide (tolower (hd CR name) = Byte.x70).

Lemma subscribe_run fuel fn priv name chans a cnt h n l b v t m :
  let args := name :: chans in let pv := is_pattern name in
  closing (ac_c a) = false -> c_obuf (ac_c a) = BLive b -> sds_repr b v ->
  zlen v + zlen (resp_command args) <= BUF_SAFE -> zlen (resp_command args) < INT_MAX ->
  NUL ∉ name -> tolower <$> stripped name = bs "subscribe" -> chans <> [] ->
  table_of pv a = Some t -> represents t m -> Z.of_nat (size m) + zlen chans <= 2 ^ 30 ->
  (length chans < fuel)%nat ->
  exists t' b' cnt' l',
    redisAsyncCommandArgv fuel fn priv (zlen args) args (Some (zlen <$> args)) (AState (Some a) (Env cnt h n) l) =
      Some (REDIS_OK, AState (Some (with_c (with_obuf (BLive b') (set_flag REDIS_SUBSCRIBED (ac_c a)))
                                           (with_table pv (Some t') a))) (Env cnt' h n) (l ++ l')) /\
    noise l' /\ sds_repr b' (v ++ resp_command args) /\
    represents t' (register (Callback fn 1 priv) chans m).
Proof.
  intros args pv Hc Eb Hb Hl Hm Hnul Hsub Hne Ht Hrep Hsz Hf.
  destruct (redisFormatSdsCommandArgv_spec Hal args (Some (zlen <$> args)) args cnt (exact_args args) Hm)
    as (s & cnt1 & Ef & Hs). pose proof (zlen_nonneg (resp_command args)).
  assert (with_cnt_a (redisFormatSdsCommandArgv true (zlen args) args (Some (zlen <$> args)))
    (AState (Some a) (Env cnt h n) l) = Some (SdsCmd s (zlen (resp_command args)),
      AState (Some a) (Env cnt1 h n) l)) as E1 by (unfold with_cnt_a; cbn [a_env e_cnt]; by rewrite Ef).
  pose proof (name_short _ _ Hm) as Hn. apply Forall_cons in Hn as [Hn Hcs].
  destruct (dispatch_name name chans Hlp Hn) as (p & q & En & Ep & Eq & Ed & Edp).
  set (cmd := resp_command args ++ [NUL]) in *. fold args in En, Ep, Eq, Ed, Edp. fold cmd in En, Ep, Eq, Ed, Edp.
  set (a1 := with_c (set_flag REDIS_SUBSCRIBED (ac_c a)) a).
  assert (0 <= p <= zlen cmd) as Hp by (apply zget_Some in Ep; lia).
  destruct (subscribe_loop_run chans fuel (ztake p cmd) pv (Callback fn 1 priv) a1 cnt1 h n l t m)
    as (t' & cnt2 & E2 & Hrep'); [by destruct pv|done..|].
  rewrite <- Edp, ztake_zdrop, zlen_ztake in E2 by done.
  destruct (queue_run Hal (ac_c a1) cnt2 h n b v (resp_command args) Eb Hb Hl) as (b' & cnt3 & Ea & Hb').
  set (a2 := with_c (with_obuf (BLive b') (ac_c a1)) (with_table pv (Some t') a1)).
  destruct (chatty_add_write a2 (Env cnt3 h n) l) as (l' & Ew & Hn').
  exists t', b', cnt3, l'. split; [|done].
  unfold redisAsyncCommandArgv. step E1. rewrite (proj2 (Z.ltb_ge _ _)) by lia. rewrite (repr_val _ _ Hs).
  unfold __redisAsyncCommand. steps. rewrite closing_mask, Hc. cbn [negb]. fold cmd.
  rewrite En. steps. rewrite Ep. steps. rewrite Eq. steps. rewrite Ed. fold (is_pattern name). fold pv.
  assert (NUL ∉ stripped name) as Hns by (by apply stripped_elem).
  rewrite (name_same (bs "subscribe") (stripped name) _ Hns) by (done || vm_compute; set_solver).
  assert (bool_decide (match chans with [] => NUL | _ :: _ => Byte.x24 end = Byte.x24) = true) as ->
    by (by destruct chans). cbn [andb]. cbv iota. steps. fold a1. step E2.
  assert (ac_c (with_table pv (Some t') a1) = ac_c a1) as Ec by (by destruct pv).
  rewrite <- Ec in Ea. rewrite (a_bind _ _ _ _ _ (on_c_run _ _ _ _ _ _ _ Ea)). rewrite Ec. fold a2.
  step Ew. unfold a2, a1. by destruct pv.
Qed.

End subscribe.

(** ** What a message of the server does *)

Definition is_kind (stype k : bytes) : bool := bool_decide (tolower <$> stripped stype = k).

(** The callback that a message is for, and the table afterwards. *)
Definition message (stype ch : bytes) (dst : redisCallback) (m : subs) : redisCallback * subs :=
  match m !! ch with
  | None => (dst, m)
  | Some cb =>
      let cb := if is_kind stype (bs "subscribe")
                then Callback (cb_fn cb) (s32 (cb_pending_subs cb - 1)) (cb_privdata cb) else cb in
      (cb, if is_kind stype (bs "unsubscribe") && (cb_pending_subs cb =? 0)
           then delete ch m else <[ch := cb]> m)
  end.

(** The last unsubscription, with nothing registered any more. *)
Definition last_message {fl : FloatLib} (stype ch : bytes) (ts : list reply) (M : bool -> subs) : bool :=
  let pv := is_pattern stype in
  bool_decide (is_Some (M pv !! ch)) && is_kind stype (bs "unsubscribe") &&
  match ts with RInt count :: _ => count =? 0 | _ => false end &&
  bool_decide ((message stype ch null_callback (M pv)).2 = ∅) && bool_decide (M (negb pv) = ∅).

Section messages.
Context {al : Allocator} {dm : DataModel} {fl : FloatLib} {pd : PrintfDouble}.
Context {N : Type} {nw : Network N}.
Hypothesis Hal : alloc_total al.
Hypothesis Hlp : LP64.
Implicit Types (a : redisAsyncContext) (h : heap) (n : N) (l : list call) (m : subs) (t : callback_table).

Lemma elem_cell ts i u lo :
  ts !! i = Some u ->
  exists x, offsets lo ts !! i = Some x /\ cells_list lo ts !! x = Some (root_cell x u) /\ (lo <= x)%nat.
Proof.
  revert i lo. induction ts as [|t ts IH]; intros [|i] lo; [done|done| |]; simpl.
  - intros [= ->]. exists lo. split; [done|]. split; [|done]. apply lookup_union_Some_l.
    destruct u; simpl; by rewrite lookup_insert_eq.
  - intros Hi. destruct (IH i (lo + nodes t)%nat Hi) as (x & Ho & Hc & Hx). exists x. split; [done|].
    split; [|lia]. rewrite lookup_union_r; [done|]. apply cells_range. lia.
Qed.

Lemma element_run ty k ts i u a cnt h n l :
  0 <= i -> ts !! Z.to_nat i = Some u -> k = zlen ts ->
  exists x, element (agg_cell ty k (offsets (S (h_next h)) ts)) i
      (AState (Some a) (Env cnt (h_add (RAgg ty k ts) h) n) l) =
    Some (root_cell x u, AState (Some a) (Env cnt (h_add (RAgg ty k ts) h) n) l).
Proof.
  intros Hi Hu Hk. destruct (elem_cell ts _ u (S (h_next h)) Hu) as (x & Ho & Hc & Hx). exists x.
  pose proof (lookup_lt_Some _ _ _ Hu) as Hlt.
  assert (0 < k) by (rewrite Hk; unfold zlen; lia).
  unfold element, agg_cell. cbn [rp_element]. rewrite (proj2 (Z.ltb_lt 0 k)) by done. steps.
  assert (zget (slots k (offsets (S (h_next h)) ts)) i = Some (Some x)) as ->.
  { apply zget_lookup. split; [done|]. unfold slots. rewrite lookup_app_l by (rewrite length_fmap, length_offsets; lia).
    by rewrite list_lookup_fmap, Ho. }
  steps. unfold cell. cbn [a_env e_heap].
  assert (h_cells (h_add (RAgg ty k ts) h) !! x = Some (root_cell x u)) as ->; [|done].
  unfold h_add. cbn [h_cells]. apply lookup_union_Some_l. by rewrite cells_agg, lookup_insert_ne by lia.
Qed.

Lemma root_run ty k ts a cnt h n l :
  cell (OLoc (h_next h)) (AState (Some a) (Env cnt (h_add (RAgg ty k ts) h) n) l) =
  Some (agg_cell ty k (offsets (S (h_next h)) ts), AState (Some a) (Env cnt (h_add (RAgg ty k ts) h) n) l).
Proof.
  unfold cell. cbn [a_env e_heap].
  assert (h_cells (h_add (RAgg ty k ts) h) !! h_next h = Some (agg_cell ty k (offsets (S (h_next h)) ts))) as ->; [|done].
  unfold h_add. cbn [h_cells]. apply lookup_union_Some_l. by rewrite cells_agg, lookup_insert_eq.
Qed.

Lemma kind_eq (stype : bytes) k :
  NUL ∉ stype -> NUL ∉ k -> tolower <$> k = k ->
  strcaseeq (stripped stype ++ [NUL]) k = is_kind stype k.
Proof.
  intros Hs Hk Hlow. unfold strcaseeq, is_kind. apply bool_decide_ext.
  rewrite (cstr_id k Hk), Hlow. by rewrite (cstr_app_nul _ [] (stripped_elem _ _ Hs)).
Qed.

(** Both tables of the context. *)
Definition holds a (M : bool -> subs) : Prop :=
  forall pv, exists t, table_of pv a = Some t /\ represents t (M pv).

Definition set_map (pv : bool) m (M : bool -> subs) : bool -> subs :=
  fun pv' => if eqb pv' pv then m else M pv'.

Lemma holds_set a M pv t m : holds a M -> represents t m -> holds (with_table pv (Some t) a) (set_map pv m M).
Proof. intros Ha Ht pv'. unfold set_map. destruct pv, pv'; first [by exists t|exact (Ha true)|exact (Ha false)]. Qed.

Lemma with_table_twice pv x y a : with_table pv x (with_table pv y a) = with_table pv x a.
Proof. by destruct pv. Qed.

(** The end of an unsubscription: the flag. *)
Lemma unsubscribed_run (cb : redisCallback) ty k ts count ts' u0 u1 a cnt h n l M :
  holds a M -> ts = u0 :: u1 :: RInt count :: ts' -> k = zlen ts ->
  (count ← element (agg_cell ty k (offsets (S (h_next h)) ts)) 2;
   _ ← must (if rp_type count =? REDIS_REPLY_INTEGER then Some tt else None);
   channels ← get_table false;
   patterns ← get_table true;
   _ ← (if (rp_integer count =? 0) && (d_used channels =? 0) && (d_used patterns =? 0)
        then upd_c (clear_flag REDIS_SUBSCRIBED) else mret tt);
   mret cb)
    (AState (Some a) (Env cnt (h_add (RAgg ty k ts) h) n) l) =
  Some (cb, AState (Some (with_c (if (count =? 0) && bool_decide (M false = ∅) && bool_decide (M true = ∅)
    then clear_flag REDIS_SUBSCRIBED (ac_c a) else ac_c a) a)) (Env cnt (h_add (RAgg ty k ts) h) n) l).
Proof.
  intros Ha Hts Hk. destruct (element_run ty k ts 2 (RInt count) a cnt h n l) as (x & E); [lia|by subst|done|].
  step E. cbn [root_cell rp_type rp_integer]. change (REDIS_REPLY_INTEGER =? REDIS_REPLY_INTEGER) with true.
  cbv iota. steps. destruct (Ha false) as (tc & Ec & Hc). destruct (Ha true) as (tp & Ep & Hp).
  step (get_table_run false tc a _ l Ec). step (get_table_run true tp a _ l Ep).
  rewrite (table_used _ _ Hc), (table_used _ _ Hp). destruct (_ && _); [by steps|]. steps. by destruct a.
Qed.

Lemma found_run stype ch ts cb a cnt h n l M t :
  let pv := is_pattern stype in
  let full := RStr REDIS_REPLY_STRING stype :: RStr REDIS_REPLY_STRING ch :: ts in
  let h' := h_add (RAgg REDIS_REPLY_ARRAY (zlen full) full) h in
  holds a M -> table_of pv a = Some t -> represents t (M pv) -> M pv !! ch = Some cb -> NUL ∉ stype ->
  (is_kind stype (bs "unsubscribe") = true -> exists count ts', ts = RInt count :: ts') ->
  exists c tb, found_callback (agg_cell REDIS_REPLY_ARRAY (zlen full) (offsets (S (h_next h)) full)) pv
      (stripped stype ++ [NUL]) t ch cb (AState (Some a) (Env cnt h' n) l) =
    Some ((message stype ch null_callback (M pv)).1,
          AState (Some (with_c c (with_table pv (Some tb) a))) (Env cnt h' n) l) /\
    represents tb (message stype ch null_callback (M pv)).2 /\
    c = (if last_message stype ch ts M then clear_flag REDIS_SUBSCRIBED (ac_c a) else ac_c a).
Proof.
  intros pv full h' Ha Et Ht Hcb Hnul Hun. unfold found_callback, last_message, message. fold pv. rewrite Hcb.
  rewrite !kind_eq by (done || vm_compute; set_solver).
  set (cb' := if is_kind stype (bs "subscribe") then _ else cb). cbn [fst snd].
  assert (short ch) as Hch by exact (rp_short _ _ Ht _ _ Hcb).
  destruct (table_set (long_64 Hlp) t (M pv) ch cb' cb Ht Hcb) as (t1 & -> & H1). steps.
  rewrite (bool_decide_true (is_Some _)) by done. rewrite andb_true_l.
  destruct (is_kind stype (bs "unsubscribe")) eqn:Eu; cbn [negb andb].
  2: { exists (ac_c a), t1. by destruct pv, a. }
  destruct (Hun eq_refl) as (count & ts' & ->).
  set (m2 := if cb_pending_subs cb' =? 0 then delete ch (M pv) else <[ch := cb']> (M pv)).
  assert (exists t2, (if cb_pending_subs cb' =? 0
      then d ← must (dictDelete callbackDict t1 ch); upd_ac (with_table pv (Some d.1.2)) else mret tt)
      (AState (Some (with_table pv (Some t1) a)) (Env cnt h' n) l)
    = Some (tt, AState (Some (with_table pv (Some t2) a)) (Env cnt h' n) l) /\ represents t2 m2) as (t2 & E2 & H2).
  { unfold m2. destruct (cb_pending_subs cb' =? 0); [|by exists t1].
    destruct (table_delete (long_64 Hlp) t1 _ ch H1 Hch) as (st & t2 & evs & -> & H2). exists t2. steps.
    rewrite upd_ac_run, with_table_twice. by rewrite delete_insert_eq in H2. }
  step E2. pose proof (holds_set a M pv t2 m2 Ha H2) as Ha2.
  eexists _, t2. split; [|split; [exact H2|reflexivity]].
  etransitivity; [exact (unsubscribed_run cb' REDIS_REPLY_ARRAY (zlen full) full count ts' _ _
    (with_table pv (Some t2) a) cnt h n l (set_map pv m2 M) Ha2 eq_refl eq_refl)|].
  do 5 f_equal. assert (ac_c (with_table pv (Some t2) a) = ac_c a) as -> by (by destruct pv).
  unfold set_map. destruct pv; cbn [eqb negb]; [|done]. 
  by rewrite <- !andb_assoc, (andb_comm (bool_decide (M false = ∅))).
Qed.

(** A message of the server in a context with subscriptions. *)
Lemma message_run stype ch ts dst a cnt h n l M :
  let pv := is_pattern stype in
  let full := RStr REDIS_REPLY_STRING stype :: RStr REDIS_REPLY_STRING ch :: ts in
  let h' := h_add (RAgg REDIS_REPLY_ARRAY (zlen full) full) h in
  holds a M -> stype <> [] -> NUL ∉ stype -> short ch ->
  (is_kind stype (bs "unsubscribe") = true -> exists count ts', ts = RInt count :: ts') ->
  exists c tb cnt', __redisGetSubscribeCallback (OLoc (h_next h)) dst (AState (Some a) (Env cnt h' n) l) =
    Some ((message stype ch dst (M pv)).1,
          AState (Some (with_c c (with_table pv (Some tb) a))) (Env cnt' h' n) l) /\
    represents tb (message stype ch dst (M pv)).2 /\
    c = (if last_message stype ch ts M then clear_flag REDIS_SUBSCRIBED (ac_c a) else ac_c a).
Proof.
  intros pv full h' Ha Hne Hnul Hch Hun. unfold __redisGetSubscribeCallback.
  assert (2 <= zlen full) by (unfold full; rewrite !zlen_cons; pose proof (zlen_nonneg ts); lia).
  step (root_run REDIS_REPLY_ARRAY (zlen full) full a cnt h n l). cbn [agg_cell rp_type rp_elements].
  change (REDIS_REPLY_ARRAY =? REDIS_REPLY_ARRAY) with true. cbv iota. rewrite (proj2 (Z.leb_le 2 _)) by done. steps.
  destruct (element_run REDIS_REPLY_ARRAY (zlen full) full 0 (RStr REDIS_REPLY_STRING stype) a cnt h n l) as (x & E0);
    [lia|done|done|]. step E0. cbn [root_cell rp_type rp_str].
  change (REDIS_REPLY_STRING =? REDIS_REPLY_STRING) with true. cbv iota. steps.
  assert (zget (stype ++ [NUL]) 0 = Some (hd CR stype)) as -> by (by destruct stype). steps.
  fold (is_pattern stype). fold pv. destruct (Ha pv) as (t & Et & Ht). step (get_table_run pv t a _ l Et).
  destruct (element_run REDIS_REPLY_ARRAY (zlen full) full 1 (RStr REDIS_REPLY_STRING ch) a cnt h n l) as (y & E1);
    [lia|done|done|]. step E1. cbn [root_cell rp_type rp_str rp_len].
  change (REDIS_REPLY_STRING =? REDIS_REPLY_STRING) with true. cbv iota. steps.
  assert (zread (ch ++ [NUL]) 0 (zlen ch) = Some ch) as -> by exact (zread_mid [] ch [NUL]). steps.
  pose proof (zlen_nonneg ch). assert (INT_MAX <= BUF_SAFE) by done. unfold short in Hch.
  destruct (name_run Hal ch (zlen ch) cnt a h' n l) as (sn & cnt' & E2 & Ev); [lia..|].
  step E2. steps. rewrite Ev, ztake_all by lia.
  destruct (table_find (long_64 Hlp) t (M pv) ch Ht Hch) as (de & -> & Hde). steps.
  assert ((if pv then zdrop 1 (stype ++ [NUL]) else stype ++ [NUL]) = stripped stype ++ [NUL]) as ->.
  { unfold pv, is_pattern. destruct stype as [|b s]; [done|]. cbn [hd stripped]. by destruct (bool_decide _). }
  destruct de as [e|].
  - destruct (found_run stype ch ts e.2 a cnt' h n l M t Ha Et Ht Hde Hnul Hun) as (c & tb & E & Hr & Hc).
    exists c, tb, cnt'. assert (message stype ch dst (M pv) = message stype ch null_callback (M pv)) as ->
      by (unfold message; by rewrite Hde). split; [exact E|done].
  - exists (ac_c a), t, cnt'. unfold message, last_message. fold pv. rewrite Hde. cbn [fst snd].
    split; [by destruct pv, a; cbn in *; subst|]. split; [done|]. by rewrite bool_decide_false by (by intros [? ?]).
Qed.

End messages.
