(* ===== verification/AsyncLoop.v ===== *)
(** * The event loop of the asynchronous client

    [live]: the context between two steps of [redisProcessCallbacks], with the
    replies [ts] handed out and the bytes [pre] of the next one read; [over]:
    the context is gone.  Every event keeps the client in one of the two. *)

From Stdlib Require Import Strings.Byte String.
From stdpp Require Import gmap.
From S2P Require Import Prelude CLib Buffer Sds SdsFmt SdsEdit Read Parser ReaderRefines Replies.
From S2P Require Import Session Reply Tree Resp ReplyRefines Streams Printf.
From S2P Require Import Format FormatFacts Dict Network Net Context Transport Pipeline.
From S2P Require Import Async AsyncText AsyncRun AsyncFacts.

#[local] Abbreviation fnd := (Some defaultFunctions).
#[local] Arguments resp : simpl never.

(** ** The book of the calls *)

Section book.
Context {fl : FloatLib}.
Implicit Types (l : list call) (ts : list reply) (h : heap) (cbs : list redisCallback).

(** So far the callbacks were called with the replies [ts], in order. *)
Definition book l ts : Prop :=
  Forall2 answers (calls l) (wanted (take (length ts) (issued l).*1) (Some <$> ts)).

Lemma wanted_app cs1 cs2 rs1 rs2 :
  length cs1 = length rs1 -> wanted (cs1 ++ cs2) (rs1 ++ rs2) = wanted cs1 rs1 ++ wanted cs2 rs2.
Proof. intros E. unfold wanted. by rewrite zip_with_app, filter_app. Qed.

Lemma book_more l l' ts :
  (length ts <= length (issued l))%nat -> calls l' = [] -> book l ts -> book (l ++ l') ts.
Proof.
  intros Hl Hc. unfold book. rewrite calls_app, Hc, app_nil_r, issued_app, fmap_app.
  by rewrite take_app_le by (rewrite length_fmap; lia).
Qed.

Lemma answers_entry cb t h :
  heap_ok h ->
  Forall2 answers (entry cb (Some (OLoc (h_next h))) (h_add t h)) (wanted [cb] [Some t]).
Proof.
  intros Hh. unfold entry, wanted. cbn [zip zip_with]. destruct cb as [[fn|] p d].
  - rewrite filter_cons_True by (by eexists). constructor; [|constructor]. split; [done|]. by exists h.
  - rewrite filter_cons_False by (by intros [? ?]). constructor.
Qed.

Lemma book_snoc l l' ts cb t h :
  (issued l).*1 !! length ts = Some cb -> heap_ok h ->
  calls l' = entry cb (Some (OLoc (h_next h))) (h_add t h) -> book l ts -> book (l ++ l') (ts ++ [t]).
Proof.
  intros Hcb Hh Hc Hb. unfold book in *. pose proof (lookup_lt_Some _ _ _ Hcb) as Hlt.
  rewrite calls_app, Hc, issued_app, fmap_app, length_app. cbn [length].
  rewrite take_app_le by lia. rewrite Nat.add_1_r, (take_S_r _ _ _ Hcb), fmap_app.
  rewrite wanted_app by (rewrite length_take, !length_fmap in *; lia).
  apply Forall2_app; [done|]. by apply answers_entry.
Qed.

Lemma answers_null cbs h :
  Forall2 answers (null_calls cbs h) (wanted cbs (replicate (length cbs) None)).
Proof.
  induction cbs as [|cb cbs IH]; [constructor|].
  change (cb :: cbs) with ([cb] ++ cbs). change (replicate (length ([cb] ++ cbs)) None)
    with ([@None reply] ++ replicate (length cbs) None). rewrite wanted_app by done.
  unfold null_calls. rewrite bind_app. apply Forall2_app; [|exact IH].
  unfold wanted. cbn [mbind list_bind zip zip_with]. rewrite app_nil_r. unfold entry.
  destruct cb as [[fn|] p d].
  - rewrite filter_cons_True by (by eexists). by repeat constructor.
  - rewrite filter_cons_False by (by intros [? ?]). constructor.
Qed.

Lemma book_over l l' ts h :
  (length ts <= length (issued l))%nat -> issued l' = [] ->
  calls l' = null_calls (drop (length ts) (issued l).*1) h -> book l ts ->
  answered (l ++ l') ts (length (issued l) - length ts).
Proof.
  intros Hl Hi Hc Hb. unfold answered, book in *.
  rewrite calls_app, Hc, issued_app, Hi, app_nil_r.
  rewrite take_ge by (rewrite length_fmap; lia).
  rewrite <- (take_drop (length ts) (issued l).*1) at 2.
  rewrite wanted_app by (rewrite length_take, !length_fmap; lia). apply Forall2_app; [done|].
  replace (length (issued l) - length ts)%nat with (length (drop (length ts) (issued l).*1))
    by (rewrite length_drop, length_fmap; lia).
  apply answers_null.
Qed.

End book.

Section loop.
Context {al : Allocator} {dm : DataModel} {fl : FloatLib} {pd : PrintfDouble}.
Context {N : Type} {nw : Network N} {fd : Z} {stm : Stream N fd} {prog : Program N}.
Context {fuel : nat} {L : Z} {scr : Scripted fuel L}.
Hypothesis Hal : alloc_total al.
Hypothesis Hstrtod : strtod_bounded.
Hypothesis Hlp : LP64.
Hypothesis HL : 0 <= L <= INT_MAX.
Hypothesis Hfuel : (Z.to_nat L < fuel)%nat.
Implicit Types (a : redisAsyncContext) (c : redisContext) (n : N) (l : list call) (h : heap) (e : env N).
Implicit Types (ts : list reply) (r : redisReader sds) (s : astate N).

#[local] Abbreviation wire := (wire (fd := fd) (stm := stm)).

(** ** The reader *)

Definition intake ts (pre : bytes) r n hq h : Prop := exists b q,
  awaits fnd b r q /\ takes ts (got n) pre /\ behaves q hq pre h /\ owned h (p_reply q) hq /\
  r_len r <= zlen (got n) /\ heap_ok h.

(** What the reader has in hand can be freed. *)
Lemma intake_freeable ts pre r n hq h :
  intake ts pre r n hq h -> exists h', redisReaderFree fnd r hq = Some h' /\ gives_back h h'.
Proof.
  intros (b & q & (q0 & Hs & _ & Hq) & _ & _ & Ho & _ & Hh).
  assert (p_reply q = r_reply r) as Er.
  { rewrite (sh_reply _ _ _ Hs). by destruct Hq as [(-> & _)|(-> & _ & Hr)]. }
  rewrite Er in Ho. destruct (free_owned h _ _ Hh Ho) as (f & h' & E & Hg & _).
  exists h'. unfold redisReaderFree. rewrite (sh_buf _ _ _ Hs), E. done.
Qed.

Lemma dead_freeable r code msg h : dead r code msg None -> redisReaderFree fnd r h = Some h.
Proof. intros []. unfold redisReaderFree. by rewrite de_buf, de_reply. Qed.

(** ** [redisGetReply] without blocking *)

Lemma getreply_ok (f : nat) c e x c' e' :
  redisGetReplyFromReader (c, e) = Some ((REDIS_OK, x), (c', e')) -> has_flag REDIS_BLOCK c' = false ->
  redisGetReply f true (c, e) = Some ((REDIS_OK, x), (c', e')).
Proof.
  intros E Hb. unfold redisGetReply. rewrite (bind_run _ _ _ _ _ E). cbn [fst snd].
  change (REDIS_OK =? REDIS_ERR) with false. cbv iota.
  rewrite (bind_run _ _ _ c' (c', e')) by done. rewrite Hb.
  by destruct x; rewrite (bind_run _ _ _ _ _ eq_refl).
Qed.

Lemma getreply_err (f : nat) c e x c' e' :
  redisGetReplyFromReader (c, e) = Some ((REDIS_ERR, x), (c', e')) ->
  redisGetReply f true (c, e) = Some ((REDIS_ERR, None), (c', e')).
Proof. intros E. unfold redisGetReply. by rewrite (bind_run _ _ _ _ _ E). Qed.

(** One attempt at a reply. *)
Lemma attempt_reply ts pre r c cnt hq n h :
  intake ts pre r n hq h -> c_reader c = Some r -> has_flag REDIS_BLOCK c = false ->
  match resp 8 pre with
  | ROk t rest => exists r' cnt', redisGetReply fuel true (c, Env cnt hq n) =
        Some ((REDIS_OK, Some (OLoc (h_next h))), (with_reader (Some r') c, Env cnt' (h_add t h) n)) /\
      typed_tree t /\ forall h2, heap_ok h2 -> intake (ts ++ [t]) rest r' n h2 h2
  | RMore => exists r' cnt' hq', redisGetReply fuel true (c, Env cnt hq n) =
        Some ((REDIS_OK, None), (with_reader (Some r') c, Env cnt' hq' n)) /\
      intake ts pre r' n hq' h
  | RBad _ _ => exists code text r' cnt' h', redisGetReply fuel true (c, Env cnt hq n) =
        Some ((REDIS_ERR, None),
              (with_error code text (with_reader (Some r') c), Env cnt' h' n)) /\
      code <> 0 /\ redisReaderFree fnd r' h' = Some h' /\ gives_back h h'
  | RHuge => True
  end.
Proof.
  intros (b & q & Haw & Htk & Hbe & Ho & Hl & Hh) Er Hb.
  pose proof (behaves_step Hal Hstrtod q hq pre h cnt Hh Hbe) as Hst.
  pose proof (fromreader_run c cnt hq n b r q Hlp Er Haw) as Hf.
  destruct (resp 8 pre) as [t rest| |cd m|] eqn:E; [| | |done].
  - destruct Hst as (st & priv & cnt' & Hst & Ht & Ep). rewrite Ep in Hf.
    destruct Hf as (b' & r' & Eg & Haw' & Hl'). exists r', cnt'.
    split; [by apply getreply_ok|]. split; [done|]. intros h2 Hh2.
    exists b'. eexists. split; [exact Haw'|].
    split; [by eapply takes_snoc|]. split; [|split; [done|split; [lia|done]]].
    pose proof (start_ready h2 rest st (Some (OLoc (h_next h))) priv Hst) as Hr.
    exact (behaves_ready Hal _ _ Hr).
  - destruct Hst as (q' & cnt' & hq' & Ep & Hbe' & Ho'). rewrite Ep in Hf.
    destruct Hf as (b' & r' & Eg & Haw' & Hl'). exists r', cnt', hq'.
    split; [by apply getreply_ok|]. exists b', q'. split_and!; try done. lia.
  - destruct Hst as (cnt' & h' & Ep & Hg). rewrite Ep in Hf. destruct Hf as (r' & Eg & Hd).
    exists cd, (ztake 127 (cstr (r_errstr r'))), r', cnt', h'. split; [by eapply getreply_err|].
    split; [by destruct Hd|]. split; [by eapply dead_freeable|done].
Qed.

(** ** The states of a client *)

(** Between two steps of the loop: the replies [ts] have been handed out, [pre]
    is left of what was received. *)
Record between h0 ts pre r h a hq n l : Prop := Between {
  bt_wire : wire (issued l) (length ts) a n;
  bt_idle : has_flag REDIS_IN_CALLBACK (ac_c a) = false;
  bt_free : has_flag REDIS_FREEING (ac_c a) = false;
  bt_err : c_err (ac_c a) = 0;
  bt_limit : zlen (sends (issued l)) <= L;
  bt_served : served n;
  bt_reader : c_reader (ac_c a) = Some r;
  bt_intake : intake ts pre r n hq h;
  bt_heap : gives_back h0 h;
  bt_book : book l ts
}.

(** Between two events: every reply that has arrived was handed out. *)
Definition settled h0 s : Prop := exists ts pre r h a cnt hq n l,
  s = AState (Some a) (Env cnt hq n) l /\ between h0 ts pre r h a hq n l /\ resp 8 pre = RMore.

(** The context is gone, after the replies [ts]. *)
Definition over h0 s : Prop := exists ts pre cnt h n l,
  s = AState None (Env cnt h n) l /\ takes ts (got n) pre /\ (length ts <= length (issued l))%nat /\
  answered l ts (length (issued l) - length ts) /\ gives_back h0 h.

(** The context may be any that agrees on what matters. *)
Lemma between_c h0 ts pre r r' h a hq hq' n l c :
  between h0 ts pre r h a hq n l -> c_fd c = c_fd (ac_c a) -> c_obuf c = c_obuf (ac_c a) ->
  c_flags c = c_flags (ac_c a) -> c_err c = 0 -> c_reader c = Some r' -> intake ts pre r' n hq' h ->
  between h0 ts pre r' h (with_c c a) hq' n l.
Proof.
  intros [] Hf Ho Hfl He Hr Hi. split; try done.
  - apply wire_c; try done; unfold has_flag in *; rewrite Hfl; [done|apply bt_wire0].
  - unfold has_flag in *. cbn. by rewrite Hfl.
  - unfold has_flag in *. cbn. by rewrite Hfl.
Qed.

Lemma ended_over h0 ts pre r h a hq n l k hh h' s :
  between h0 ts pre r h a hq n l -> k = length ts -> gives_back h h' -> ended (stm := stm) k hh h' n l s ->
  over h0 s.
Proof.
  intros Hb -> Hg (cnt & n' & l' & -> & I & C & G). exists ts, pre, cnt, h', n', (l ++ l').
  pose proof (w_done _ _ _ _ (bt_wire _ _ _ _ _ _ _ _ _ Hb)) as Hd.
  assert (issued (l ++ l') = issued l) as Ei by (by rewrite issued_app, I, app_nil_r). rewrite Ei.
  destruct (bt_intake _ _ _ _ _ _ _ _ _ Hb) as (b & q & _ & Ht & _). rewrite <- G in Ht.
  split; [done|]. split; [done|]. split; [done|]. split.
  - eapply book_over; try done. apply Hb.
  - destruct (bt_heap _ _ _ _ _ _ _ _ _ Hb), Hg. split; [congruence|lia].
Qed.

(** The end by [__redisAsyncDisconnect]. *)
Lemma disconnect_over h0 ts pre r h a cnt hq n l :
  between h0 ts pre r h a hq n l -> ac_replies a = [] -> closing (ac_c a) = true ->
  exists s, __redisAsyncDisconnect fuel (AState (Some a) (Env cnt hq n) l) = Some (tt, s) /\ over h0 s.
Proof.
  intros Hb Hr Hc. destruct (intake_freeable _ _ _ _ _ _ (bt_intake _ _ _ _ _ _ _ _ _ Hb)) as (h' & Ef & Hg).
  destruct (disconnect_run (fuel := fuel) (L := L) Hal Hlp HL Hfuel (length ts) a cnt hq n l r h') as (s & E & He);
    try apply Hb; [|done|].
  - right. split; [apply Hb|done].
  - exists s. split; [done|]. by eapply ended_over.
Qed.

Lemma error_over h0 ts pre r r' h a cnt hq hq' h' n l c :
  between h0 ts pre r h a hq n l -> c_fd c = c_fd (ac_c a) -> c_obuf c = c_obuf (ac_c a) ->
  c_flags c = c_flags (ac_c a) -> c_err c <> 0 -> c_reader c = Some r' ->
  redisReaderFree fnd r' hq' = Some h' -> gives_back h h' ->
  exists s, __redisAsyncDisconnect fuel (AState (Some (with_c c a)) (Env cnt hq' n) l) = Some (tt, s) /\
    over h0 s.
Proof.
  intros Hb Hf Ho Hfl He Hr Ef Hg. pose proof (bt_wire _ _ _ _ _ _ _ _ _ Hb) as Hw.
  pose proof (bt_idle _ _ _ _ _ _ _ _ _ Hb) as Hi.
  destruct (disconnect_run (fuel := fuel) (L := L) Hal Hlp HL Hfuel (length ts) (with_c c a) cnt hq' n l r' h')
    as (s & E & Hs); try done; [| |by left|apply Hb|].
  - apply wire_c; try done; unfold has_flag in *; rewrite Hfl; [done|apply Hw].
  - unfold has_flag in *. cbn. by rewrite Hfl.
  - exists s. split; [done|]. by eapply ended_over.
Qed.

(** ** A reply *)

Lemma free_reply_run t a cnt h n l r :
  c_reader (ac_c a) = Some r -> typed_tree t -> heap_ok h ->
  free_reply_ (OLoc (h_next h)) (AState (Some a) (Env cnt (h_add t h) n) l) =
  Some (tt, AState (Some a) (Env cnt (Heap (h_cells h) (h_next (h_add t h))) n) l).
Proof.
  intros Er Ht Hh. unfold free_reply_. steps. rewrite Er. steps.
  assert (on_heap (N := N) (free_reply_object (OLoc (h_next h))) (ac_c a, Env cnt (h_add t h) n)
    = Some (tt, (ac_c a, Env cnt (Heap (h_cells h) (h_next (h_add t h))) n))) as E.
  { unfold on_heap, free_reply_object. cbn [snd e_heap]. by rewrite freeReplyObject_tree. }
  rewrite (on_c_run _ _ _ _ _ _ _ E). by destruct a.
Qed.

(** What is left after a reply object has been freed. *)
Lemma freed_heap t h : heap_ok h -> heap_ok (Heap (h_cells h) (h_next (h_add t h))) /\
  gives_back h (Heap (h_cells h) (h_next (h_add t h))).
Proof.
  intros Hh. split; [|split; [done|simpl; lia]]. intros x Hx. apply Hh. simpl in *. lia.
Qed.

(** There is a callback for every reply. *)
Lemma reply_expected h0 ts pre r h a hq n l t rest :
  between h0 ts pre r h a hq n l -> resp 8 pre = ROk t rest ->
  exists cb cbs, ac_replies a = cb :: cbs /\ (issued l).*1 !! length ts = Some cb.
Proof.
  intros Hb E. pose proof (bt_wire _ _ _ _ _ _ _ _ _ Hb) as Hw.
  destruct (bt_intake _ _ _ _ _ _ _ _ _ Hb) as (_ & _ & _ & Ht & _).
  destruct (w_obuf _ _ _ _ Hw) as (b & v & _ & _ & Ev).
  pose proof (served_solicited n (bt_served _ _ _ _ _ _ _ _ _ Hb) (issued l) v Ev (w_plain _ _ _ _ Hw)) as Hs.
  rewrite (takes_stream _ _ _ (takes_snoc _ _ _ _ _ Ht E)) in Hs. cbn [fst] in Hs.
  rewrite !length_app in Hs. cbn [length] in Hs. rewrite (w_replies _ _ _ _ Hw).
  destruct (lookup_lt_is_Some_2 (issued l).*1 (length ts)) as [cb Ecb]; [rewrite length_fmap; lia|].
  exists cb, (drop (S (length ts)) (issued l).*1). split; [by apply drop_S|done].
Qed.

(** The callback runs and the object is freed. *)
Lemma handed h0 ts pre r r' h a cnt hq n l t rest cb cbs a1 :
  between h0 ts pre r h a hq n l -> ac_replies a = cb :: cbs -> (issued l).*1 !! length ts = Some cb ->
  typed_tree t -> (forall h2, heap_ok h2 -> intake (ts ++ [t]) rest r' n h2 h2) ->
  a1 = with_list Replies cbs (with_c (with_reader (Some r') (ac_c a)) a) ->
  let h2 := Heap (h_cells h) (h_next (h_add t h)) in
  exists a2 cnt2 l2,
    __redisRunCallback cb (Some (OLoc (h_next h))) (AState (Some a1) (Env cnt (h_add t h) n) l) =
      Some (tt, AState (Some a2) (Env cnt2 (h_add t h) n) (l ++ l2)) /\
    free_reply_ (OLoc (h_next h)) (AState (Some a2) (Env cnt2 (h_add t h) n) (l ++ l2)) =
      Some (tt, AState (Some a2) (Env cnt2 h2 n) (l ++ l2)) /\
    if has_flag REDIS_FREEING (ac_c a2)
    then exists s, __redisAsyncFree fuel (AState (Some a2) (Env cnt2 h2 n) (l ++ l2)) = Some (tt, s) /\ over h0 s
    else between h0 (ts ++ [t]) rest r' h2 a2 h2 n (l ++ l2).
Proof.
  intros Hb Er Hcb Ht Hin -> h2.
  set (a1 := with_list Replies cbs (with_c (with_reader (Some r') (ac_c a)) a)).
  destruct (bt_intake _ _ _ _ _ _ _ _ _ Hb) as (_ & _ & _ & _ & _ & _ & _ & Hh).
  destruct (freed_heap t h Hh) as [Hh2 Hg2]. fold h2 in Hh2, Hg2.
  assert (wire (issued l) (S (length ts)) a1 n) as Hw1.
  { apply (wire_shift _ _ (with_c (with_reader (Some r') (ac_c a)) a) n cb cbs); [|done].
    apply wire_c; try done; apply Hb. }
  destruct (callback_run (fuel := fuel) (L := L) Hal Hlp HL cb (Some (OLoc (h_next h))) (S (length ts)) a1 cnt
    (h_add t h) n l Hw1 (bt_idle _ _ _ _ _ _ _ _ _ Hb) (bt_limit _ _ _ _ _ _ _ _ _ Hb))
    as (a2 & cnt2 & l2 & E2 & C2 & Hi2 & [W2 L2 R2 Er2 _]).
  assert (book (l ++ l2) (ts ++ [t])) as Hbook
    by exact (book_snoc _ _ _ _ _ _ Hcb Hh C2 (bt_book _ _ _ _ _ _ _ _ _ Hb)).
  assert (S (length ts) = length (ts ++ [t])) as El by (rewrite length_app; simpl; lia).
  rewrite El in W2. exists a2, cnt2, l2. split; [exact E2|].
  split; [apply (free_reply_run _ _ _ _ _ _ r'); [by rewrite R2|done..]|].
  assert (between h0 (ts ++ [t]) rest r' h2 (with_c (clear_flag REDIS_FREEING (ac_c a2)) a2) h2 n (l ++ l2)) as Hb2.
  { split; cbn [with_c ac_c].
    - apply wire_c; try done; [|by flags; apply W2]. intros f Hf.
      repeat (apply elem_of_cons in Hf as [->|Hf]; [by flags|]). by apply not_elem_of_nil in Hf.
    - by flags.
    - by flags.
    - change (c_err (ac_c a2) = 0). rewrite Er2. apply Hb.
    - done.
    - apply Hb.
    - change (c_reader (ac_c a2) = Some r'). by rewrite R2.
    - by apply Hin.
    - destruct (bt_heap _ _ _ _ _ _ _ _ _ Hb), Hg2. split; [congruence|lia].
    - done. }
  destruct (has_flag REDIS_FREEING (ac_c a2)) eqn:Ef.
  - destruct (intake_freeable _ _ _ _ _ _ (Hin h2 Hh2)) as (h' & Efr & Hg).
    destruct (free_run (fuel := fuel) (L := L) Hal Hlp HL Hfuel (length (ts ++ [t])) a2 cnt2 h2 n (l ++ l2) r' h')
      as (s & E & He); try done.
    + unfold closing. by rewrite Ef, orb_true_r.
    + exists s. split; [done|]. exact (ended_over _ _ _ _ _ _ _ _ _ _ _ _ _ Hb2 eq_refl Hg He).
  - by destruct Hb2.
Qed.

(** ** The loop *)

Lemma intake_takes h0 ts pre r h a hq n l :
  between h0 ts pre r h a hq n l -> takes ts (got n) pre.
Proof. intros Hb. by destruct (bt_intake _ _ _ _ _ _ _ _ _ Hb) as (b & q & _ & Ht & _). Qed.

Lemma process_run f cb h0 ts pre r h a cnt hq n l :
  between h0 ts pre r h a hq n l -> (length (stream (got n)).1 - length ts < f)%nat ->
  exists s, process_loop fuel f cb (AState (Some a) (Env cnt hq n) l) = Some (tt, s) /\
    (settled h0 s \/ over h0 s).
Proof.
  revert cb ts pre r h a cnt hq l. induction f as [|f IH]; intros cb ts pre r h a cnt hq l Hb Hf; [lia|].
  pose proof (intake_takes _ _ _ _ _ _ _ _ _ Hb) as Ht.
  pose proof (bt_wire _ _ _ _ _ _ _ _ _ Hb) as Hw.
  pose proof (attempt_reply ts pre r (ac_c a) cnt hq n h (bt_intake _ _ _ _ _ _ _ _ _ Hb)
    (bt_reader _ _ _ _ _ _ _ _ _ Hb) (w_block _ _ _ _ Hw)) as Hatt.
  cbn [process_loop]. destruct (resp 8 pre) as [t rest| |code m|] eqn:E.
  - destruct Hatt as (r' & cnt' & Eg & Htt & Hin). step (on_c_run _ _ _ _ _ _ _ Eg). cbn [fst snd negb Z.eqb REDIS_OK].
    destruct (reply_expected _ _ _ _ _ _ _ _ _ _ _ Hb E) as (cb' & cbs & Er & Hcb).
    step (shift_run cb' cbs (with_c (with_reader (Some r') (ac_c a)) a) _ _ Er).
    destruct (handed _ _ _ _ r' _ _ cnt' _ _ _ t rest cb' cbs _ Hb Er Hcb Htt Hin eq_refl)
      as (a2 & cnt2 & l2 & E2 & E3 & Hnext).
    rewrite (takes_stream _ _ _ Ht), (stream_ok _ _ _ E) in Hf. cbn [fst] in Hf.
    rewrite length_app in Hf. cbn [length] in Hf.
    assert (has_flag REDIS_FREEING (ac_c a2) = false -> exists s,
      process_loop fuel f cb' (AState (Some a2) (Env cnt2 (Heap (h_cells h) (h_next (h_add t h))) n) (l ++ l2))
        = Some (tt, s) /\ (settled h0 s \/ over h0 s)) as Hgo.
    { intros Efr. rewrite Efr in Hnext. apply (IH _ _ _ _ _ _ _ _ _ Hnext).
      rewrite (takes_stream _ _ _ (takes_snoc _ _ _ _ _ Ht E)). cbn [fst]. rewrite !length_app. simpl length. lia. }
    destruct (cb_fn cb') as [fn|] eqn:Efn.
    + step E2. step E3. steps. destruct (has_flag REDIS_FREEING (ac_c a2)); [|by apply Hgo].
      destruct Hnext as (s & Es & Ho). exists s. auto.
    + assert (a2 = with_list Replies cbs (with_c (with_reader (Some r') (ac_c a)) a) /\ cnt2 = cnt' /\ l ++ l2 = l)
        as (-> & -> & El).
      { unfold __redisRunCallback in E2. rewrite Efn in E2. injection E2. intros. split_and!; symmetry; assumption. }
      rewrite El in *. step E3. apply Hgo. apply Hb.
  - destruct Hatt as (r' & cnt' & hq' & Eg & Hin). step (on_c_run _ _ _ _ _ _ _ Eg). cbn [fst snd negb Z.eqb REDIS_OK].
    set (a1 := with_c (with_reader (Some r') (ac_c a)) a).
    assert (between h0 ts pre r' h a1 hq' n l) as Hb1 by 
      by (apply (between_c _ _ _ r _ _ _ hq); try done; apply Hb).
    pose proof (bt_wire _ _ _ _ _ _ _ _ _ Hb1) as Hw1. destruct (w_obuf _ _ _ _ Hw1) as (o & v & Eo & Ho & _).
    steps. step (on_c_run _ _ _ _ _ _ _ (live_obuf_run _ _ _ Eo)).
    replace (with_c (ac_c a1) a1) with a1 by done.
    destruct (_ && _ && _) eqn:Ed.
    + apply andb_prop in Ed as [[Ed _]%andb_prop Er%bool_decide_eq_true].
      destruct (disconnect_over h0 ts pre r' h a1 cnt' hq' n l Hb1 Er) as (s & Es & Hs).
      { unfold closing. by rewrite Ed. }
      exists s. auto.
    + steps. rewrite (w_monitoring _ _ _ _ Hw1). eexists. split; [done|]. left.
      by exists ts, pre, r', h, a1, cnt', hq', n, l.
  - destruct Hatt as (cd & text & r' & cnt' & h' & Eg & Hcd & Efr & Hg). step (on_c_run _ _ _ _ _ _ _ Eg).
    change (negb (REDIS_ERR =? REDIS_OK)) with true. cbn iota.
    destruct (error_over h0 ts pre r r' h a cnt' hq h' h' n l
      (with_error cd text (with_reader (Some r') (ac_c a))) Hb) as (s & Es & Hs); try done. exists s. auto.
  - destruct (served_sane n (bt_served _ _ _ _ _ _ _ _ _ Hb)).
    rewrite (takes_stream _ _ _ Ht). by apply stream_huge.
Qed.

(** ** Events *)

(** Noise in the log. *)
Lemma between_noise h0 ts pre r h a hq n l l' :
  between h0 ts pre r h a hq n l -> noise l' -> between h0 ts pre r h a hq n (l ++ l').
Proof.
  intros [] [I C]. pose proof (w_done _ _ _ _ bt_wire0).
  split; rewrite ?issued_app, ?I, ?app_nil_r; try done. by apply book_more.
Qed.

(** The connection has moved on, without bytes. *)
Lemma between_same h0 ts pre r h a hq n n' l :
  between h0 ts pre r h a hq n l -> served n' -> sent n' = sent n -> got n' = got n ->
  between h0 ts pre r h a hq n' l.
Proof.
  intros [[] ? ? ? ? ? ? Hi ? ?] Hs He Hg. split; try done.
  - split; try done. by rewrite He.
  - unfold intake in *. by rewrite Hg.
Qed.

(** Bytes that arrive or leave. *)
Lemma between_net h0 ts pre r r' h a hq n n' l c d b' v :
  between h0 ts pre r h a hq n l -> served n' -> c_fd c = c_fd (ac_c a) -> c_flags c = c_flags (ac_c a) ->
  c_err c = 0 -> c_obuf c = BLive b' -> sds_repr b' v -> sent n' ++ v = sends (issued l) ->
  c_reader c = Some r' -> got n' = got n ++ d -> intake ts (pre ++ d) r' n' hq h ->
  between h0 ts (pre ++ d) r' h (with_c c a) hq n' l.
Proof.
  intros [[]] Hs Hf Hfl He Eb Hv Ev Er Hg Hi. unfold has_flag in *.
  split; unfold has_flag; cbn [with_c ac_c]; rewrite ?Hfl; try done.
  split; unfold has_flag; cbn [with_c ac_c ac_replies ac_invalid ac_channels ac_patterns];
    rewrite ?Hfl, ?Hf; try done. by exists b', v.
Qed.

Lemma intake_feed ts pre r n n' hq h d b r' q b' :
  awaits fnd b r q -> takes ts (got n) pre -> behaves q hq pre h -> owned h (p_reply q) hq -> heap_ok h ->
  got n' = got n ++ d -> awaits fnd b' r' (p_feed q d) -> r_len r' <= zlen (got n') ->
  intake ts (pre ++ d) r' n' hq h.
Proof.
  intros Ha Ht Hbe Ho Hh Hg Ha' Hl. exists b', (p_feed q d). split; [done|]. rewrite Hg in *.
  split; [by apply takes_more|]. split; [by apply behaves_feed|]. done.
Qed.

(** The outcome of an event. *)
Definition onward h0 s := settled h0 s \/ over h0 s.

(** The loop after some input, or none. *)
Lemma proceed h0 ts pre r h a cnt hq n l :
  between h0 ts pre r h a hq n l ->
  exists s, (_ ← _EL_ADD_READ; redisProcessCallbacks fuel) (AState (Some a) (Env cnt hq n) l) = Some (tt, s) /\
    onward h0 s.
Proof.
  intros Hb. destruct (chatty_add_read a (Env cnt hq n) l) as (l' & El & Hn). step El.
  apply (process_run _ _ _ _ _ _ _ _ _ _ _ _ (between_noise _ _ _ _ _ _ _ _ _ _ Hb Hn)).
  pose proof (bt_wire _ _ _ _ _ _ _ _ _ Hb) as Hw. destruct (w_obuf _ _ _ _ Hw) as (o & v & _ & _ & Ev).
  pose proof (served_solicited n (bt_served _ _ _ _ _ _ _ _ _ Hb) (issued l) v Ev (w_plain _ _ _ _ Hw)).
  pose proof (sends_length (issued l)). pose proof (bt_limit _ _ _ _ _ _ _ _ _ Hb) as Hlim.
  unfold zlen in Hlim. lia.
Qed.

(** An error of the connection ends the context. *)
Lemma failed h0 ts pre r h a cnt hq n l c :
  between h0 ts pre r h a hq n l -> c_fd c = c_fd (ac_c a) -> c_obuf c = c_obuf (ac_c a) ->
  c_flags c = c_flags (ac_c a) -> c_err c <> 0 -> c_reader c = c_reader (ac_c a) ->
  exists s, __redisAsyncDisconnect fuel (AState (Some (with_c c a)) (Env cnt hq n) l) = Some (tt, s) /\
    onward h0 s.
Proof.
  intros Hb Hf Ho Hfl He Hr.
  destruct (intake_freeable _ _ _ _ _ _ (bt_intake _ _ _ _ _ _ _ _ _ Hb)) as (h' & Efr & Hg).
  destruct (error_over h0 ts pre r r h a cnt hq hq h' n l c) as (s & E & Hs); try done.
  - rewrite Hr. apply Hb.
  - exists s. split; [done|by right].
Qed.

Lemma recv_outcome n k d n' r h0 ts pre h a hq l :
  between h0 ts pre r h a hq n l -> sys_recv (c_fd (ac_c a)) (1024 * 16) n = (k, d, n') ->
  served n' /\ sent n' = sent n /\ -1 <= k <= 1024 * 16 /\ (0 < k -> zlen d = k) /\ r_len r + k <= INT_MAX /\
  got n' = (if 0 <? k then got n ++ d else got n).
Proof.
  intros Hb Es. rewrite (w_fd _ _ _ _ (bt_wire _ _ _ _ _ _ _ _ _ Hb)) in Es.
  destruct (bt_intake _ _ _ _ _ _ _ _ _ Hb) as (_ & _ & _ & _ & _ & _ & Hl & _).
  destruct (stream_recv n (1024 * 16) k d n' (bt_served _ _ _ _ _ _ _ _ _ Hb) ltac:(lia) Es) as (Hs' & Hsent & Hk).
  pose proof (served_small n' Hs') as Hsm. destruct Hk as [(Hk & Hd & Hg)|(Hk & Hg)]; rewrite Hg in Hsm |- *.
  - rewrite zlen_app in Hsm. rewrite (proj2 (Z.ltb_lt _ _)) by lia. split_and!; try done; lia.
  - rewrite (proj2 (Z.ltb_ge _ _)) by lia. split_and!; try done; lia.
Qed.

Lemma read_event h0 ts pre r h a cnt hq n l :
  between h0 ts pre r h a hq n l ->
  exists s, redisAsyncHandleRead fuel (AState (Some a) (Env cnt hq n) l) = Some (tt, s) /\ onward h0 s.
Proof.
  intros Hb. unfold redisAsyncHandleRead, when_connected. pose proof (bt_wire _ _ _ _ _ _ _ _ _ Hb) as Hw.
  steps. rewrite (w_connected _ _ _ _ Hw). unfold redisAsyncRead.
  destruct (bt_intake _ _ _ _ _ _ _ _ _ Hb) as (b & q & Ha & Ht & Hbe & Ho & Hl & Hh).
  destruct (sys_recv (c_fd (ac_c a)) (1024 * 16) n) as [[k d] n'] eqn:Es.
  destruct (recv_outcome _ _ _ _ _ _ _ _ _ _ _ _ Hb Es) as (Hs' & Hsent & K1 & K2 & K3 & Hg).
  destruct (bufferread_run Hal (ac_c a) cnt hq n b r q k d n' (bt_err _ _ _ _ _ _ _ _ _ Hb)
    (bt_reader _ _ _ _ _ _ _ _ _ Hb) Ha Es K1 K2 K3) as (status & [c' e'] & Er & Hr).
  destruct (w_obuf _ _ _ _ Hw) as (o & v & Eo & Hv & Ev). rewrite <- Hsent in Ev.
  step (on_c_run _ _ _ _ _ _ _ Er). unfold was_read in Hr.
  destruct (Z.ltb_spec 0 k) as [Hp|Hp].
  - destruct Hr as (-> & b' & r' & cnt' & [= -> ->] & Ha' & Hl'). cbn [REDIS_OK REDIS_ERR Z.eqb].
    apply (proceed h0 ts (pre ++ d) r' h). apply (between_net _ _ _ r _ _ _ _ n _ _ _ d o v); try done; [apply Hb|].
    apply (intake_feed _ _ r n n' _ _ _ b r' q b'); try done. rewrite Hg, zlen_app, (K2 Hp). lia.
  - assert (between h0 ts pre r h a hq n' l) as Hb' by (by apply (between_same _ _ _ _ _ _ _ n)).
    destruct (Z.eqb_spec k 0) as [->|Hz]; destruct Hr as (-> & [= -> ->]).
    { by apply (failed h0 ts pre r h a cnt hq n' l (with_error REDIS_ERR_EOF _ (ac_c a))). }
    unfold recv_error. destruct (again (ac_c a) (errno n')); [|destruct (_ && _)]; cbn [REDIS_OK REDIS_ERR Z.eqb].
    + apply (proceed h0 ts pre r h). destruct a. exact Hb'.
    + by apply (failed h0 ts pre r h a cnt hq n' l (with_error REDIS_ERR_TIMEOUT _ (ac_c a))).
    + by apply (failed h0 ts pre r h a cnt hq n' l (io_error (ac_c a) (errno n'))).
Qed.

Lemma settled_between h0 ts pre r h a cnt hq n l :
  between h0 ts pre r h a hq n l -> resp 8 pre = RMore -> onward h0 (AState (Some a) (Env cnt hq n) l).
Proof. intros Hb E. left. by exists ts, pre, r, h, a, cnt, hq, n, l. Qed.

(** The hooks at the end of a write. *)
Lemma written_settled h0 ts pre r h a cnt hq n l (done_ : bool) :
  between h0 ts pre r h a hq n l -> resp 8 pre = RMore ->
  exists s, (_ ← (if done_ then _EL_DEL_WRITE else _EL_ADD_WRITE); _EL_ADD_READ)
    (AState (Some a) (Env cnt hq n) l) = Some (tt, s) /\ onward h0 s.
Proof.
  intros Hb E.
  assert (chatty (N := N) (_ ← (if done_ then _EL_DEL_WRITE else _EL_ADD_WRITE); _EL_ADD_READ)) as Hch.
  { apply chatty_bind; [|apply chatty_add_read]. destruct done_; [apply chatty_del_write|apply chatty_add_write]. }
  destruct (Hch a (Env cnt hq n) l) as (l' & El & Hn). eexists. split; [exact El|].
  apply (settled_between _ ts pre r h); [|done]. by apply between_noise.
Qed.

Lemma write_event h0 ts pre r h a cnt hq n l :
  between h0 ts pre r h a hq n l -> resp 8 pre = RMore ->
  exists s, redisAsyncHandleWrite fuel (AState (Some a) (Env cnt hq n) l) = Some (tt, s) /\ onward h0 s.
Proof.
  intros Hb E. unfold redisAsyncHandleWrite, when_connected. pose proof (bt_wire _ _ _ _ _ _ _ _ _ Hb) as Hw.
  steps. rewrite (w_connected _ _ _ _ Hw). unfold redisAsyncWrite.
  destruct (w_obuf _ _ _ _ Hw) as (o & v & Eo & Hv & Ev). destruct (decide (v = [])) as [->|Hne].
  - step (on_c_run _ _ _ _ _ _ _ (bufferwrite_empty _ _ _ _ _ (bt_err _ _ _ _ _ _ _ _ _ Hb) Eo Hv)).
    cbn [fst snd REDIS_OK REDIS_ERR Z.eqb]. destruct a. by apply (written_settled h0 ts pre r h _ _ _ _ _ true).
  - destruct (sys_send (c_fd (ac_c a)) v n) as [k n'] eqn:Es. pose proof Es as Es'.
    rewrite (w_fd _ _ _ _ Hw) in Es'.
    destruct (stream_send n v k n' (bt_served _ _ _ _ _ _ _ _ _ Hb) Hne Es') as (Hs' & Hg & Hk).
    pose proof (bt_limit _ _ _ _ _ _ _ _ _ Hb) as Hlim. rewrite <- Ev, zlen_app in Hlim.
    pose proof (zlen_nonneg (sent n)). pose proof (zlen_nonneg v).
    assert (-1 <= k <= zlen v) as Hkr by lia. assert (zlen v <= INT_MAX) as Hvm by lia.
    destruct (bufferwrite_run Hal (ac_c a) cnt hq n o v k n' (bt_err _ _ _ _ _ _ _ _ _ Hb) Eo Hv Hne Hvm Es Hkr)
      as (rw & [c' e'] & Ew & Hwr). step (on_c_run _ _ _ _ _ _ _ Ew). unfold written in Hwr.
    destruct (Z.ltb_spec 0 k) as [Hp|Hp]; [|destruct (Z.eqb_spec k 0) as [->|Hz]].
    + destruct Hwr as (-> & o' & cnt' & [= -> ->] & Hv'). destruct Hk as [[_ Hsent]|[? _]]; [|lia].
      cbn [fst snd REDIS_OK REDIS_ERR Z.eqb]. apply (written_settled h0 ts pre r h); [|done].
      rewrite <- (app_nil_r pre). apply (between_net _ _ _ r _ _ _ _ n _ _ _ [] o' (zdrop k v)); try done;
        rewrite ?app_nil_r; try done; try apply Hb.
      * by rewrite Hsent, <- app_assoc, ztake_zdrop.
      * unfold intake. rewrite Hg. apply Hb.
    + destruct Hwr as (-> & [= -> ->]). destruct Hk as [[_ Hsent]|[? _]]; [|lia].
      cbn [fst snd REDIS_OK REDIS_ERR Z.eqb]. apply (written_settled h0 ts pre r h _ _ _ _ _ false); [|done].
      destruct a.
      apply (between_same _ _ _ _ _ _ _ n); try done. by rewrite Hsent, app_nil_r.
    + destruct Hwr as (-> & [= -> ->]). destruct Hk as [[? _]|(_ & Hsent & H1 & H2)]; [lia|].
      cbn [fst snd REDIS_OK REDIS_ERR Z.eqb]. unfold again.
      rewrite (proj2 (Z.eqb_neq _ _) H1), (proj2 (Z.eqb_neq _ _) H2). cbn [andb orb].
      apply (failed h0 ts pre r h a cnt hq n' l (io_error (ac_c a) (errno n'))); try done.
      by apply (between_same _ _ _ _ _ _ _ n).
Qed.

(** ** Actions of the main part of the program *)

Lemma between_flags h0 ts pre r h a hq n l c :
  between h0 ts pre r h a hq n l -> c_fd c = c_fd (ac_c a) -> c_obuf c = c_obuf (ac_c a) ->
  c_reader c = c_reader (ac_c a) -> c_err c = c_err (ac_c a) ->
  (forall f, f ∈ [REDIS_BLOCK; REDIS_CONNECTED; REDIS_SUBSCRIBED; REDIS_MONITORING; REDIS_IN_CALLBACK;
     REDIS_FREEING] -> has_flag f c = has_flag f (ac_c a)) ->
  has_flag REDIS_NO_AUTO_FREE c = false -> between h0 ts pre r h (with_c c a) hq n l.
Proof.
  intros [] Hf Ho Hr He Hfl Hk. split; cbn [with_c ac_c]; try done; try congruence.
  - apply wire_c; try done. intros f Hin. apply Hfl. set_solver.
  - rewrite Hfl; [done|set_solver].
  - rewrite Hfl; [done|set_solver].
Qed.

Lemma action_event act h0 ts pre r h a cnt hq n l :
  between h0 ts pre r h a hq n l -> resp 8 pre = RMore -> plain_action act ->
  (forall s, run_action fuel act (AState (Some a) (Env cnt hq n) l) = Some (tt, s) -> in_limits L s) ->
  exists s, run_action fuel act (AState (Some a) (Env cnt hq n) l) = Some (tt, s) /\ onward h0 s.
Proof.
  intros Hb E Hp Hlim. pose proof (bt_wire _ _ _ _ _ _ _ _ _ Hb) as Hw. destruct act as [fn priv args| |].
  - destruct (closing (ac_c a)) eqn:Ec.
    + destruct (send_refused Hal fuel fn priv args a cnt hq n l Hp Ec) as (cnt' & Er).
      eexists. split; [exact Er|]. apply (settled_between _ ts pre r h); [|done]. by apply between_noise.
    + pose proof (bt_limit _ _ _ _ _ _ _ _ _ Hb).
      destruct (send_accepted Hal Hlp fuel fn priv args (issued l) (length ts) a cnt hq n l Hp Ec Hw ltac:(lia))
        as (a' & cnt' & l' & Er & [N1 N2] & Hw' & Es). injection Es as Ef Erd Ee.
      eexists. split; [exact Er|]. apply (settled_between _ ts pre r h); [|done].
      pose proof (Hlim _ Er) as Hl'. unfold in_limits in Hl'. cbn [a_log] in Hl'.
      assert (issued (l ++ l' ++ [Issued (Callback fn 1 priv) args REDIS_OK])
        = issued l ++ [(Callback fn 1 priv, args)]) as Ei by (by rewrite !issued_app, N1).
      destruct Hb. split; try done; rewrite ?Ei; unfold has_flag in *; rewrite ?Ef; try done; try congruence.
      apply book_more; try done; [apply Hw|]. by rewrite calls_app, N2.
  - set (c1 := clear_flag REDIS_NO_AUTO_FREE (set_flag REDIS_DISCONNECTING (ac_c a))).
    assert (between h0 ts pre r h (with_c c1 a) hq n l) as Hb1.
    { apply between_flags; try done; [unfold c1; flag_cases|unfold c1; by flags]. }
    unfold run_action, redisAsyncDisconnect. steps.
    change (with_c _ (with_c _ a)) with (with_c c1 a). rewrite (bt_idle _ _ _ _ _ _ _ _ _ Hb1).
    cbn [negb andb]. destruct (bool_decide _) eqn:Er; [|eexists; split; [done|by apply (settled_between _ ts pre r h)]].
    apply bool_decide_eq_true in Er.
    destruct (disconnect_over h0 ts pre r h (with_c c1 a) cnt hq n l Hb1 Er) as (s & Es & Hs).
    { unfold closing, c1. by flags. }
    exists s. split; [done|by right].
  - unfold run_action, redisAsyncFree. steps. flags. rewrite (bt_idle _ _ _ _ _ _ _ _ _ Hb).
    destruct (intake_freeable _ _ _ _ _ _ (bt_intake _ _ _ _ _ _ _ _ _ Hb)) as (h' & Efr & Hg).
    destruct (free_run (fuel := fuel) (L := L) Hal Hlp HL Hfuel (length ts)
      (with_c (set_flag REDIS_FREEING (ac_c a)) a) cnt hq n l r h') as (s & Es & Hs); try done.
    + apply wire_c; try done; [flag_cases|flags; apply Hw].
    + flags. apply Hb.
    + unfold closing. flags. apply orb_true_r.
    + apply Hb.
    + apply Hb.
    + exists s. split; [done|]. right. exact (ended_over _ _ _ _ _ _ _ _ _ _ _ _ _ Hb eq_refl Hg Hs).
Qed.

(** ** Runs *)

Lemma event_run ev h0 s :
  settled h0 s -> plain_event ev -> (forall s', on_event fuel ev s = Some (tt, s') -> in_limits L s') ->
  exists s', on_event fuel ev s = Some (tt, s') /\ onward h0 s'.
Proof.
  intros (ts & pre & r & h & a & cnt & hq & n & l & -> & Hb & E) Hp Hl.
  destruct ev as [| |act]; [by apply (read_event h0 ts pre r h)|by apply (write_event h0 ts pre r h)|].
  by apply (action_event act h0 ts pre r h).
Qed.

Lemma over_stays ev h0 s : over h0 s -> on_event fuel ev s = Some (tt, s).
Proof. by intros (ts & pre & cnt & h & n & l & -> & _). Qed.

Lemma events_run evs h0 s :
  onward h0 s -> Forall plain_event evs -> keeps L (run_events fuel) evs s ->
  exists s', run_events fuel evs s = Some (tt, s') /\ onward h0 s'.
Proof.
  intros Ho Hp. revert s Ho. induction Hp as [|ev evs Hev _ IH]; intros s Ho Hk; [by exists s|].
  assert (exists s1, on_event fuel ev s = Some (tt, s1) /\ onward h0 s1) as (s1 & E1 & Ho1).
  { destruct Ho as [Hs|Hs]; [|exists s; split; [by eapply over_stays|by right]].
    apply event_run; [done..|]. intros s' E'. apply (Hk [ev] evs s'); [done|]. cbn [run_events]. by step E'. }
  destruct (IH s1 Ho1) as (s2 & E2 & Ho2).
  { intros xs1 xs2 s' -> E'. apply (Hk (ev :: xs1) xs2 s'); [done|]. cbn [run_events]. by step E1. }
  exists s2. cbn [run_events]. step E1. done.
Qed.

End loop.
