(* ===== verification/AsyncSim.v ===== *)
(** * A server for the asynchronous client

    A network and a server with which the hypotheses on the connection hold:
    the server answers every command that has arrived with [+OK], up to a
    hundred; [send] accepts seven bytes, [recv] returns three and then says, as
    a non-blocking socket does, that there is nothing.  The callback of the
    example program sends a command again while the budget lasts. *)

From Stdlib Require Import Strings.Byte String.
From stdpp Require Import gmap infinite.
From S2P Require Import Prelude CLib Buffer Sds SdsFmt SdsEdit Read Parser ReaderRefines Replies.
From S2P Require Import Session Reply Tree Resp ReplyRefines Streams Printf.
From S2P Require Import Concrete Format FormatFacts Dict Network Net NetFacts Context.
From S2P Require Import Transport Pipeline Simulation Async AsyncRun AsyncFacts AsyncLoop.

Section server.
Context {fl : FloatLib}.

Lemma stream_sends (cs : list (redisCallback * list bytes)) :
  Forall (fun c => plain c.2) cs -> length (stream (sends cs)).1 = length cs.
Proof.
  intros Hp. assert (sends cs = encodes ((fun c => command_reply c.2) <$> cs)) as ->.
  { unfold sends, encodes. f_equal. rewrite <- list_fmap_compose. apply list_fmap_ext.
    intros i c _. symmetry. apply encode_command. }
  rewrite stream_encodes; [apply length_fmap|]. apply Forall_fmap. eapply Forall_impl; [exact Hp|].
  intros c [_ Hl]. apply wf_command. lia.
Qed.

(** [j] times [+OK]. *)
Definition ok_text : bytes := bs "+OK" ++ crlf.
Definition oks (j : nat) : bytes := concat (replicate j ok_text).
Definition ok_server (d : bytes) : bytes := oks (Nat.min 100 (length (stream d).1)).

Lemma oks_prefix j p :
  p `prefix_of` oks j -> (stream p).2 = RMore /\ (length (stream p).1 <= j)%nat.
Proof.
  revert p. induction j as [|j IH]; intros p Hp.
  { apply prefix_nil_inv in Hp as ->. split; [done|simpl; lia]. }
  assert (oks (S j) = ok_text ++ oks j) as Ej by done. rewrite Ej in Hp.
  destruct (decide (length p < length ok_text)%nat) as [Hl|Hl].
  - assert (p = take (length p) ok_text) as ->.
    { destruct Hp as [k Hk]. apply (f_equal (take (length p))) in Hk.
      rewrite take_app_length, take_app_le in Hk by lia. done. }
    assert (resp 8 (take (length p) ok_text) = RMore) as E.
    { clear -Hl. revert Hl. generalize (length p) as k. intros k Hl.
      do 5 (destruct k as [|k]; [done|]). simpl in Hl. lia. }
    rewrite (stream_more _ E). split; [done|simpl; lia].
  - assert (exists q, p = ok_text ++ q /\ q `prefix_of` oks j) as (q & -> & Hq).
    { destruct Hp as [k Hk]. exists (drop (length ok_text) p).
      assert (take (length ok_text) p = ok_text) as Et.
      { apply (f_equal (take (length ok_text))) in Hk. rewrite take_app_length, take_app_le in Hk by lia. done. }
      split; [by rewrite <- Et at 1; rewrite take_drop|]. exists k.
      apply (f_equal (drop (length ok_text))) in Hk. rewrite drop_app_length, drop_app_le in Hk by lia. done. }
    destruct (IH q Hq) as [H1 H2]. rewrite stream_eq.
    assert (resp 8 (ok_text ++ q) = ROk (RStr REDIS_REPLY_STATUS (bs "OK")) q) as -> by done.
    destruct (stream q). simpl in *. split; [done|lia].
Qed.

End server.

(** [recv] does not wait. *)
Definition loop_recv (answer : bytes -> bytes) (cap : Z) (n : sim) : Z * bytes * sim :=
  match m_delays n with
  | S k => (-1, [], m_with_errno EINTR (m_with_data (m_sent n) (m_read n) k n))
  | O =>
      let rem := zdrop (zlen (m_read n)) (answer (m_sent n)) in
      let d := ztake (Z.min cap 3) rem in
      if bool_decide (d = []) then (-1, [], m_with_errno EWOULDBLOCK n)
      else (zlen d, d, m_with_data (m_sent n) (m_read n ++ d) O n)
  end.

(** The rest of the system is that of Simulation.v. *)
Definition net_with (send : bytes -> sim -> Z * sim) (recv : Z -> sim -> Z * bytes * sim) : Network sim := {|
  errno := m_errno;
  set_errno := m_with_errno;
  sys_socket _ _ _ := sim_socket;
  sys_close fd n := m_with_open (m_open n ∖ {[fd]}) (m_made n) n;
  sys_connect _ _ := sim_connect;
  sys_bind _ _ n := (0, n);
  sys_send _ := send;
  sys_recv _ := recv;
  sys_poll_out _ _ n := (1, n);
  sys_getfl _ n := (2, n);
  sys_setfl _ _ n := (0, n);
  sys_setsockopt _ _ n := (0, n);
  sys_so_error _ n := (0, m_errno n, n);
  sys_getaddrinfo node _ _ := sim_lookup node;
  strerror _ := bs "error";
  gai_strerror _ := bs "no address"
|}.

#[export] Instance loop_net (answer : bytes -> bytes) : Network sim := net_with sim_send (loop_recv answer).

(** What has been read is a part of what the server answered. *)
Definition ok_served {fl : FloatLib} (n : sim) : Prop :=
  m_read n `prefix_of` oks (Nat.min 100 (length (stream (m_sent n)).1)).

Lemma oks_mono {fl : FloatLib} j k : (j <= k)%nat -> oks j `prefix_of` oks k.
Proof.
  intros Hjk. exists (oks (k - j)). unfold oks. rewrite <- concat_app, <- replicate_add.
  f_equal. f_equal. lia.
Qed.

Lemma oks_length {fl : FloatLib} j : length (oks j) = (5 * j)%nat.
Proof. induction j as [|j IH]; [done|]. change (oks (S j)) with (ok_text ++ oks j). rewrite length_app, IH. simpl. lia. Qed.

#[export] Program Instance ok_stream {fl : FloatLib} fd : Stream (nw := loop_net ok_server) sim fd := {|
  sent := m_sent;
  got := m_read;
  served := ok_served
|}.
Next Obligation.
  intros fl fd n Hs cs rest E Hp. destruct (oks_prefix _ _ Hs) as [_ Hl].
  pose proof (stream_mono (m_sent n) rest) as Hm. rewrite E, (stream_sends _ Hp) in Hm. lia.
Qed.
Next Obligation. intros fl fd n Hs. destruct (oks_prefix _ _ Hs) as [-> _]. done. Qed.
Next Obligation.
  intros fl fd n Hs. apply prefix_length in Hs. rewrite oks_length in Hs. unfold zlen.
  assert (500 <= INT_MAX) by done. lia.
Qed.
Next Obligation.
  intros fl fd n d k n' Hs Hd [= <- <-]. assert (0 < zlen d) by (destruct d; [done|zlia]).
  split; [|split; [done|left; split; [lia|done]]]. unfold ok_served in *. cbn [m_read m_sent m_with_data].
  etransitivity; [exact Hs|]. apply oks_mono. pose proof (stream_mono (m_sent n) (ztake (Z.min 7 (zlen d)) d)). lia.
Qed.
Next Obligation.
  intros fl fd n cap k d n' Hs Hcap E. simpl in E. unfold loop_recv in E. destruct (m_delays n) as [|j].
  2: { injection E as <- <- <-. split; [done|]. split; [done|]. right. split; [lia|done]. }
  set (x := ztake (Z.min cap 3) _) in E. case_bool_decide as Hx.
  { injection E as <- <- <-. split; [done|]. split; [done|]. right. split; [lia|done]. }
  injection E as <- <- <-. assert (0 < zlen x) by (destruct x; [done|zlia]).
  assert (zlen x <= cap) as Hxc.
  { unfold x, ztake, zlen. rewrite length_take. lia. }
  split; [|split; [done|left; split; [lia|done]]]. destruct Hs as [k Hk].
  unfold ok_served. cbn [m_read m_sent m_with_data]. unfold x, ok_server. rewrite Hk, zdrop_app_len.
  exists (zdrop (Z.min cap 3) k). by rewrite <- app_assoc, ztake_zdrop.
Qed.
Next Obligation. done. Qed.

(** ** What issues commands *)

Section mute.
Context {al : Allocator} {dm : DataModel} {fl : FloatLib} {pd : PrintfDouble}.
Context {N : Type} {nw : Network N}.

(** A computation that issues no command. *)
Definition mute {A} (m : AIO N A) : Prop :=
  forall s x s', m s = Some (x, s') -> issued (a_log s') = issued (a_log s).

Lemma mute_bind {A B} (m : AIO N A) (k : A -> AIO N B) : mute m -> (forall x, mute (k x)) -> mute (m ≫= k).
Proof.
  intros Hm Hk s y s2 E. unfold mbind, aio_bind in E. destruct (m s) as [[x s1]|] eqn:E1; [|done].
  by rewrite (Hk x s1 y s2 E), (Hm s x s1 E1).
Qed.

Lemma mute_ret {A} (x : A) : mute (mret x).
Proof. by intros s y s' [= <- <-]. Qed.
Lemma mute_must {A} (m : option A) : mute (must (N := N) m).
Proof. intros s y s' E. unfold must in E. destruct m; [|done]. by injection E as <- <-. Qed.
Lemma mute_get : mute get_ac.
Proof. intros s y s' E. unfold get_ac in E. destruct (a_ctx s); [|done]. by injection E as <- <-. Qed.
Lemma mute_upd f : mute (upd_ac f).
Proof. intros s y s' E. unfold upd_ac in E. destruct (a_ctx s); [|done]. by injection E as <- <-. Qed.
Lemma mute_on_c {A} (m : IO N A) : mute (on_c m).
Proof.
  intros s y s' E. unfold on_c in E. destruct (a_ctx s) as [a|]; [|done]. cbn in E.
  destruct (m _) as [[x r]|]; [|done]. by injection E as <- <-.
Qed.
Lemma mute_cnt {A} (f : nat -> option (A * nat)) : mute (with_cnt_a f).
Proof. intros s y s' E. unfold with_cnt_a in E. destruct (f _) as [r|]; [|done]. by injection E as <- <-. Qed.
Lemma mute_malloc sz : mute (a_malloc sz).
Proof. intros s y s' E. unfold a_malloc in E. destruct (malloc _ _). by injection E as <- <-. Qed.
Lemma mute_log e : issued [e] = [] -> mute (log e).
Proof. intros He s y s' [= <- <-]. cbn [a_log]. by rewrite issued_app, He, app_nil_r. Qed.

Ltac mute_tac := repeat (first
  [apply mute_bind; [|intros ?]|apply mute_ret|apply mute_must|apply mute_get|apply mute_upd|apply mute_on_c
  |apply mute_cnt|apply mute_malloc|by apply mute_log
  |match goal with |- mute (match ?x with _ => _ end) => destruct x end|progress cbv zeta]).

Lemma mute_subscribe f m p pv cb : mute (subscribe_loop f m p pv cb).
Proof.
  revert p cb. induction f as [|f IH]; intros p cb; cbn [subscribe_loop]; [apply mute_must|].
  unfold get_table. mute_tac; apply IH.
Qed.

Lemma mute_argv fuel fn privdata argc argv lens : mute (redisAsyncCommandArgv fuel fn privdata argc argv lens).
Proof.
  unfold redisAsyncCommandArgv, __redisAsyncCommand, __redisPushCallback, _EL_ADD_WRITE, hook, refreshTimeout, flag.
  mute_tac; apply mute_subscribe.
Qed.

Context {prog : Program N}.

(** A command that is sent adds its own bytes at most. *)
Lemma send_issues fuel fn privdata args (s s' : astate N) :
  run_action fuel (Send fn privdata args) s = Some (tt, s') ->
  zlen (sends (issued (a_log s'))) <= zlen (sends (issued (a_log s))) + zlen (resp_command args).
Proof.
  unfold run_action. unfold mbind, aio_bind. intros E.
  destruct (redisAsyncCommandArgv _ _ _ _ _ _ s) as [[status s1]|] eqn:E1; [|done]. apply mute_argv in E1.
  injection E as <-. cbn [a_log]. rewrite issued_app, E1, sends_app, zlen_app. apply Z.add_le_mono_l.
  unfold issued. cbn [omap list_omap]. pose proof (zlen_nonneg (resp_command args)).
  destruct (status =? REDIS_OK); unfold sends; cbn [fmap list_fmap concat snd]; rewrite ?app_nil_r; [lia|done].
Qed.

End mute.

(** ** A program *)

(** The callback sends PING again while the commands stay within the budget. *)
Definition example_budget : Z := 80.
Definition example_cmd : list bytes := [bs "PING"].

Definition again_actions {fl : FloatLib} {N} (s : astate N) : list action :=
  if zlen (sends (issued (a_log s))) + zlen (resp_command example_cmd) <=? example_budget
  then [Send (Some 1%nat) 7 example_cmd] else [].

(** The program that takes the actions [acts], with nothing to do on its other
    calls. *)
Definition quiet_program {fl : FloatLib} {N} : Program N := {|
  call_reply _ _ _ := mret tt;
  call_connect _ _ := mret tt;
  call_disconnect _ _ := mret tt
|}.

#[export] Instance example_program {al : Allocator} {dm : DataModel} {fl : FloatLib} {pd : PrintfDouble}
    {N} {nw : Network N} : Program N := {|
  call_reply fn privdata reply s := run_actions (prog := quiet_program) 200 (again_actions s) s;
  call_connect _ _ := mret tt;
  call_disconnect _ _ := mret tt
|}.

Lemma plain_check name args :
  bool_decide (CR ∉ name) && bool_decide (NUL ∉ name) &&
  forallb (fun k => bool_decide (tolower <$> stripped name <> k)) [bs "subscribe"; bs "unsubscribe"; bs "monitor"] &&
  (zlen (resp_command (name :: args)) <? INT_MAX) = true -> plain (name :: args).
Proof.
  intros [[[H1 H2]%andb_prop H3]%andb_prop H4]%andb_prop. split; [|by apply Z.ltb_lt].
  apply bool_decide_eq_true in H1, H2. split; [done|]. split; [done|].
  apply Forall_forall. intros k Hk. rewrite forallb_forall in H3.
  apply list_elem_of_In in Hk. exact (bool_decide_eq_true_1 _ (H3 k Hk)).
Qed.

Lemma example_plain : plain example_cmd.
Proof. apply plain_check. vm_compute. reflexivity. Qed.

#[export] Instance example_scripted {al : Allocator} {dm : DataModel} {fl : FloatLib} {pd : PrintfDouble}
    {N} {nw : Network N} : Scripted (N := N) 200 example_budget.
Proof.
  split; [|done]. intros fn privdata reply s _ Hs. exists (again_actions s).
  assert (forall xs1 xs2 s', again_actions s = xs1 ++ xs2 -> run_actions 200 xs1 s = Some (tt, s') ->
    in_limits example_budget s') as Hk.
  { intros xs1 xs2 s'. unfold again_actions.
    destruct (Z.leb_spec (zlen (sends (issued (a_log s))) + zlen (resp_command example_cmd)) example_budget) as [Hb|_].
    - destruct xs1 as [|x [|y xs1]]; [by intros _ [= <-]| |by intros [= _ ? ?]].
      intros [= <- _]. cbn [run_actions]. unfold mbind, aio_bind.
      destruct (run_action 200 _ s) as [[[] s1]|] eqn:E1; [|done]. intros [= <-].
      apply send_issues in E1. unfold in_limits. lia.
    - intros E. symmetry in E. apply app_nil in E as [-> _]. by intros [= <-]. }
  split; [|split; [|exact Hk]].
  - cbn [call_reply example_program]. unfold again_actions. by destruct (_ <=? _).
  - unfold again_actions. destruct (_ <=? _); [|constructor]. constructor; [apply example_plain|constructor].
Qed.
