(* ===== verification/AsyncTheorems.v ===== *)
(** * The theorems about the asynchronous client *)

From Stdlib Require Import Strings.Byte String.
From stdpp Require Import gmap.
From S2P Require Import Prelude CLib Buffer Sds SdsFmt SdsEdit Read Parser ReaderRefines Replies.
From S2P Require Import Session Reply Tree Resp ReplyRefines Streams Printf.
From S2P Require Import Concrete Format FormatFacts Dict Network Net NetFacts Context.
From S2P Require Import ContextFacts Transport Pipeline Simulation.
From S2P Require Import Async AsyncText AsyncRun AsyncFacts AsyncSubs AsyncLoop AsyncSim.

#[local] Abbreviation fnd := (Some defaultFunctions).

(** A context as it is when the connection has been made: no flag that matters
    but [REDIS_CONNECTED], nothing to send, no callbacks. *)
Record established {al : Allocator} {fl : FloatLib} (fd : Z) (a : redisAsyncContext) : Prop := {
  es_fd : c_fd (ac_c a) = fd;
  es_err : c_err (ac_c a) = 0;
  es_connected : has_flag REDIS_CONNECTED (ac_c a) = true;
  es_flags : Forall (fun f => has_flag f (ac_c a) = false)
    [REDIS_BLOCK; REDIS_SUBSCRIBED; REDIS_MONITORING; REDIS_NO_AUTO_FREE; REDIS_IN_CALLBACK; REDIS_FREEING];
  es_blank : blank (ac_c a);
  es_replies : ac_replies a = [];
  es_invalid : ac_invalid a = [];
  es_tables : ac_channels a = Some dictCreate /\ ac_patterns a = Some dictCreate
}.

Lemma established_settled {al : Allocator} {dm : DataModel} {fl : FloatLib} {N} {nw : Network N} {fd}
    {stm : Stream N fd} (L : Z) a cnt h n l :
  alloc_total al -> 0 <= L -> established fd a -> noise l -> served n -> sent n = [] -> got n = [] ->
  heap_ok h -> settled (stm := stm) (L := L) h (AState (Some a) (Env cnt h n) l).
Proof.
  intros Hal HL [Hf He Hc Hfl [(b & Eb & Hb) (r & Er & x & x' & Ec)] Hr Hi Ht] [Hl1 Hl2] Hs E1 E2 Hh.
  destruct (new_reader_awaits (B := sds) Hal _ _ _ Ec) as (o & Haw & Hlen).
  repeat (apply Forall_cons in Hfl as [? Hfl]).
  exists [], [], r, h, a, cnt, h, n, l. split; [done|]. split; [|done].
  split; rewrite ?Hl1; try done.
  - split; try done. exists b, []. by rewrite E1.
  - exists o, new_parser. split; [done|]. rewrite E2. split; [done|].
    split; [apply (behaves_ready Hal new_parser h), new_parser_ready|]. split; [done|].
    split; [|done]. rewrite Hlen. done.
  - unfold book. rewrite Hl1, Hl2. constructor.
Qed.

(** The calls of a run, for the replies that have arrived: while the context
    lives, each has been handed to the callback of its command; when it has
    ended, some of them have, and every other callback got [NULL], and the heap
    is as it was. *)
Definition handed_out {fl : FloatLib} {N} {nw : Network N} {fd} (stm : Stream N fd) (h : heap)
    (s : astate N) : Prop :=
  let rs := (stream (got (e_net (a_env s)))).1 in
  let l := a_log s in
  match a_ctx s with
  | Some _ => answered l rs 0
  | None => exists ts, ts `prefix_of` rs /\ (length ts <= length (issued l))%nat /\
      answered l ts (length (issued l) - length ts) /\ h_cells (e_heap (a_env s)) = h_cells h
  end.


(** ** A run *)

(** The limit after every part of a run, as a computation. *)
Lemma keeps_check {N X} {fl : FloatLib} (L : Z) (run : list X -> AIO N unit) xs s :
  forallb (fun k => match run (take k xs) s with
                    | Some (_, s') => zlen (sends (issued (a_log s'))) <=? L
                    | None => true
                    end) (seq 0 (S (length xs))) = true -> keeps L run xs s.
Proof.
  intros H xs1 xs2 s' -> E. rewrite forallb_forall in H.
  specialize (H (length xs1)). rewrite take_app_length, E in H. apply Z.leb_le, H, in_seq.
  rewrite length_app. lia.
Qed.

(** The client connects to the server of AsyncSim. *)
Section example.
#[local] Existing Instances always_alloc lp64 digits_lib plain_double.
#[local] Instance example_net : Network sim := loop_net ok_server.

Definition example_made : option (option redisAsyncContext * env sim) :=
  redisAsyncConnect (bs "host") 6379 (Env 0 (Heap ∅ 0) (Sim 0 ∅ 0 [] [] [] 1)).

(** The first event finishes the connection. *)
Definition example_connected : option (unit * astate sim) :=
  r ← example_made;
  a ← r.1;
  redisAsyncHandleWrite 200 (AState (Some a) r.2 []).

Definition example_start : astate sim := Eval vm_compute in
  match example_connected with Some (_, s) => s | None => AState None (Env 0 (Heap ∅ 0) (Sim 0 ∅ 0 [] [] [] 1)) [] end.

Lemma example_started : example_connected = Some (tt, example_start).
Proof. vm_compute. reflexivity. Qed.

Definition example_ac : redisAsyncContext := Eval vm_compute in
  match a_ctx example_start with
  | Some a => a
  | None => Async_ zero_context 0 false (Hooks false false false false false false) None None [] [] None None
  end.

Lemma example_established : established 0 example_ac.
Proof.
  split; try (vm_compute; reflexivity).
  - repeat constructor.
  - split; [eexists; split; [reflexivity|apply (made_repr []); vm_compute; discriminate]|].
    eexists. split; [reflexivity|]. exists 0%nat. eexists. vm_compute. reflexivity.
  - split; reflexivity.
Qed.

(** A command, its reply, a second command sent by the callback, which has not
    been answered in full when the program disconnects, and the end. *)
Definition example_events : list event :=
  [Act (Send (Some 1%nat) 7 example_cmd); Writable; Writable; Writable; Readable; Readable; Readable;
   Act (Send (Some 2%nat) 8 [bs "GET"; bs "key"]); Writable; Writable; Readable; Act Free; Readable].

End example.


(** ** The text of a command *)

(** The search for the arguments of a command, from which a subscription
    takes its channels: on what the formatters write, [nextArgument] finds the
    arguments, in order and no more, whatever bytes they hold, and does not
    leave the text. *)
Theorem arguments_found (dm : DataModel) args fuel :
  LP64 -> Forall (fun a => zlen a <= INT_MAX) args -> (length args < fuel)%nat ->
  arguments fuel (resp_command args ++ [NUL]) 0 = Some args.
Proof. intros Hlp. exact (arguments_command Hlp args fuel). Qed.

Lemma arguments_found_witness :
  let dm := lp64 in
  arguments 4 (resp_command [bs "SUBSCRIBE"; bs "$5"; crlf ++ bs "$1"] ++ [NUL]) 0
    = Some [bs "SUBSCRIBE"; bs "$5"; crlf ++ bs "$1"].
Proof.
  intros dm. refine (arguments_found dm [bs "SUBSCRIBE"; bs "$5"; crlf ++ bs "$1"] 4 _ _ _).
  - reflexivity.
  - repeat constructor; vm_compute; discriminate.
  - simpl. lia.
Defined.

(** ** Subscriptions *)



(** C40: A message of the server, [kind channel ...]: it is for the callback that
    the table of its kind has for the channel, or for the one of before when
    there is none; a confirmation counts the outstanding ones down, the
    confirmation of an unsubscription removes the entry when none is
    outstanding, and the last one, with both tables empty, ends subscribed mode. *)
Theorem message_dispatch (al : Allocator) (dm : DataModel) (fl : FloatLib) N
    stype ch ts dst a cnt h (n : N) l (M : bool -> subs) :
  let pv := is_pattern stype in
  let full := RStr REDIS_REPLY_STRING stype :: RStr REDIS_REPLY_STRING ch :: ts in
  let h' := h_add (RAgg REDIS_REPLY_ARRAY (zlen full) full) h in
  alloc_total al -> LP64 -> holds a M -> stype <> [] -> NUL ∉ stype -> short ch ->
  (is_kind stype (bs "unsubscribe") = true -> exists count ts', ts = RInt count :: ts') ->
  exists c tb cnt', __redisGetSubscribeCallback (OLoc (h_next h)) dst (AState (Some a) (Env cnt h' n) l) =
    Some ((message stype ch dst (M pv)).1,
          AState (Some (with_c c (with_table pv (Some tb) a))) (Env cnt' h' n) l) /\
    represents tb (message stype ch dst (M pv)).2 /\
    c = (if last_message stype ch ts M then clear_flag REDIS_SUBSCRIBED (ac_c a) else ac_c a).
Proof. intros pv full h' Hal Hlp. apply (message_run Hal Hlp). Qed.

(** A table with one channel, confirmed. *)
Definition example_subs : callback_table := Eval vm_compute in
  match dictReplace (al := always_alloc) (dm := lp64) callbackDict dictCreate (bs "a") (Callback (Some 3%nat) 0 9) 0 with
  | Some (_, t, _, _) => t
  | None => dictCreate
  end.

Lemma example_subs_map :
  represents example_subs {[bs "a" := Callback (Some 3%nat) 0 9]}.
Proof.
  destruct (table_replace (dm := lp64) always_total (or_intror eq_refl) dictCreate ∅ (bs "a")
    (Callback (Some 3%nat) 0 9) 0 table_new) as (s & t & evs & a & E & R); [by vm_compute|done|].
  vm_compute in E. injection E as _ <- _ _. exact R.
Qed.

Lemma message_dispatch_witness :
  let al := always_alloc in let dm := lp64 in let fl := digits_lib in
  let M (pv : bool) : subs :=
    if pv then ∅ else {[bs "a" := Callback (Some 3%nat) 0 9]} in
  let a := with_table false (Some example_subs) example_ac in
  let ts := [RInt 0] in
  let full := RStr REDIS_REPLY_STRING (bs "Unsubscribe") :: RStr REDIS_REPLY_STRING (bs "a") :: ts in
  let h' := h_add (RAgg REDIS_REPLY_ARRAY (zlen full) full) (Heap ∅ 0) in
  let n := e_net (a_env example_start) in
  exists c tb cnt', __redisGetSubscribeCallback (OLoc 0) null_callback (AState (Some a) (Env 0 h' n) []) =
    Some ((message (bs "Unsubscribe") (bs "a") null_callback (M false)).1,
          AState (Some (with_c c (with_table false (Some tb) a))) (Env cnt' h' n) []) /\
    represents tb (message (bs "Unsubscribe") (bs "a") null_callback (M false)).2 /\
    c = (if last_message (bs "Unsubscribe") (bs "a") ts M then clear_flag REDIS_SUBSCRIBED (ac_c a) else ac_c a).
Proof.
  intros al dm fl M a ts full h' n.
  refine (message_dispatch al dm fl sim (bs "Unsubscribe") (bs "a") ts null_callback a 0 (Heap ∅ 0) n [] M
    _ _ _ _ _ _ _).
  - exact always_total.
  - reflexivity.
  - intros [|]; [exists dictCreate; split; [reflexivity|apply table_new]|].
    exists example_subs. split; [reflexivity|exact example_subs_map].
  - discriminate.
  - apply (bool_decide_eq_true_1 (NUL ∉ bs "Unsubscribe")). vm_compute. reflexivity.
  - vm_compute. discriminate.
  - intros _. exists 0, []. reflexivity.
Defined.
