(* ===== verification/Slots.v ===== *)
(** * Key slots (r3c/utils.cpp)

    The checksums copied from redis, and the hash slot of a key: the CRC16 of
    the key, or of the part between the first braces, modulo 16384. *)

From Stdlib Require Import Strings.Byte String.
From Stdlib Require Import Strings.Byte String Btauto.
From S2P Require Import Prelude CLib.

(** ** Checksums *)

Definition crc16tab : list Z := [
   0x0000; 0x1021; 0x2042; 0x3063; 0x4084; 0x50a5; 0x60c6; 0x70e7;
   0x8108; 0x9129; 0xa14a; 0xb16b; 0xc18c; 0xd1ad; 0xe1ce; 0xf1ef;
   0x1231; 0x0210; 0x3273; 0x2252; 0x52b5; 0x4294; 0x72f7; 0x62d6;
   0x9339; 0x8318; 0xb37b; 0xa35a; 0xd3bd; 0xc39c; 0xf3ff; 0xe3de;
   0x2462; 0x3443; 0x0420; 0x1401; 0x64e6; 0x74c7; 0x44a4; 0x5485;
   0xa56a; 0xb54b; 0x8528; 0x9509; 0xe5ee; 0xf5cf; 0xc5ac; 0xd58d;
   0x3653; 0x2672; 0x1611; 0x0630; 0x76d7; 0x66f6; 0x5695; 0x46b4;
   0xb75b; 0xa77a; 0x9719; 0x8738; 0xf7df; 0xe7fe; 0xd79d; 0xc7bc;
   0x48c4; 0x58e5; 0x6886; 0x78a7; 0x0840; 0x1861; 0x2802; 0x3823;
   0xc9cc; 0xd9ed; 0xe98e; 0xf9af; 0x8948; 0x9969; 0xa90a; 0xb92b;
   0x5af5; 0x4ad4; 0x7ab7; 0x6a96; 0x1a71; 0x0a50; 0x3a33; 0x2a12;
   0xdbfd; 0xcbdc; 0xfbbf; 0xeb9e; 0x9b79; 0x8b58; 0xbb3b; 0xab1a;
   0x6ca6; 0x7c87; 0x4ce4; 0x5cc5; 0x2c22; 0x3c03; 0x0c60; 0x1c41;
   0xedae; 0xfd8f; 0xcdec; 0xddcd; 0xad2a; 0xbd0b; 0x8d68; 0x9d49;
   0x7e97; 0x6eb6; 0x5ed5; 0x4ef4; 0x3e13; 0x2e32; 0x1e51; 0x0e70;
   0xff9f; 0xefbe; 0xdfdd; 0xcffc; 0xbf1b; 0xaf3a; 0x9f59; 0x8f78;
   0x9188; 0x81a9; 0xb1ca; 0xa1eb; 0xd10c; 0xc12d; 0xf14e; 0xe16f;
   0x1080; 0x00a1; 0x30c2; 0x20e3; 0x5004; 0x4025; 0x7046; 0x6067;
   0x83b9; 0x9398; 0xa3fb; 0xb3da; 0xc33d; 0xd31c; 0xe37f; 0xf35e;
   0x02b1; 0x1290; 0x22f3; 0x32d2; 0x4235; 0x5214; 0x6277; 0x7256;
   0xb5ea; 0xa5cb; 0x95a8; 0x8589; 0xf56e; 0xe54f; 0xd52c; 0xc50d;
   0x34e2; 0x24c3; 0x14a0; 0x0481; 0x7466; 0x6447; 0x5424; 0x4405;
   0xa7db; 0xb7fa; 0x8799; 0x97b8; 0xe75f; 0xf77e; 0xc71d; 0xd73c;
   0x26d3; 0x36f2; 0x0691; 0x16b0; 0x6657; 0x7676; 0x4615; 0x5634;
   0xd94c; 0xc96d; 0xf90e; 0xe92f; 0x99c8; 0x89e9; 0xb98a; 0xa9ab;
   0x5844; 0x4865; 0x7806; 0x6827; 0x18c0; 0x08e1; 0x3882; 0x28a3;
   0xcb7d; 0xdb5c; 0xeb3f; 0xfb1e; 0x8bf9; 0x9bd8; 0xabbb; 0xbb9a;
   0x4a75; 0x5a54; 0x6a37; 0x7a16; 0x0af1; 0x1ad0; 0x2ab3; 0x3a92;
   0xfd2e; 0xed0f; 0xdd6c; 0xcd4d; 0xbdaa; 0xad8b; 0x9de8; 0x8dc9;
   0x7c26; 0x6c07; 0x5c64; 0x4c45; 0x3ca2; 0x2c83; 0x1ce0; 0x0cc1;
   0xef1f; 0xff3e; 0xcf5d; 0xdf7c; 0xaf9b; 0xbfba; 0x8fd9; 0x9ff8;
   0x6e17; 0x7e36; 0x4e55; 0x5e74; 0x2e93; 0x3eb2; 0x0ed1; 0x1ef0].

(** [buf] holds [char]s, which the mask turns into bytes; reading past the end
    of [buf] is undefined. *)
Fixpoint crc16_loop (n : nat) (buf : bytes) (crc : Z) : option Z :=
  match n, buf with
  | O, _ => Some crc
  | S n, b :: buf =>
      t ← zget crc16tab (Z.land (Z.lxor (Z.shiftr crc 8) (bZ b)) 0x00FF);
      crc16_loop n buf (u16 (Z.lxor (Z.shiftl crc 8) t))
  | S _, [] => None
  end.

(** [len] is an [int]; the loop does nothing when it is negative. *)
Definition crc16 (buf : bytes) (len : Z) : option Z := crc16_loop (Z.to_nat len) buf 0.

Definition crc64_tab : list Z := [
   0x0000000000000000; 0x7ad870c830358979; 0xf5b0e190606b12f2; 0x8f689158505e9b8b;
   0xc038e5739841b68f; 0xbae095bba8743ff6; 0x358804e3f82aa47d; 0x4f50742bc81f2d04;
   0xab28ecb46814fe75; 0xd1f09c7c5821770c; 0x5e980d24087fec87; 0x24407dec384a65fe;
   0x6b1009c7f05548fa; 0x11c8790fc060c183; 0x9ea0e857903e5a08; 0xe478989fa00bd371;
   0x7d08ff3b88be6f81; 0x07d08ff3b88be6f8; 0x88b81eabe8d57d73; 0xf2606e63d8e0f40a;
   0xbd301a4810ffd90e; 0xc7e86a8020ca5077; 0x4880fbd87094cbfc; 0x32588b1040a14285;
   0xd620138fe0aa91f4; 0xacf86347d09f188d; 0x2390f21f80c18306; 0x594882d7b0f40a7f;
   0x1618f6fc78eb277b; 0x6cc0863448deae02; 0xe3a8176c18803589; 0x997067a428b5bcf0;
   0xfa11fe77117cdf02; 0x80c98ebf2149567b; 0x0fa11fe77117cdf0; 0x75796f2f41224489;
   0x3a291b04893d698d; 0x40f16bccb908e0f4; 0xcf99fa94e9567b7f; 0xb5418a5cd963f206;
   0x513912c379682177; 0x2be1620b495da80e; 0xa489f35319033385; 0xde51839b2936bafc;
   0x9101f7b0e12997f8; 0xebd98778d11c1e81; 0x64b116208142850a; 0x1e6966e8b1770c73;
   0x8719014c99c2b083; 0xfdc17184a9f739fa; 0x72a9e0dcf9a9a271; 0x08719014c99c2b08;
   0x4721e43f0183060c; 0x3df994f731b68f75; 0xb29105af61e814fe; 0xc849756751dd9d87;
   0x2c31edf8f1d64ef6; 0x56e99d30c1e3c78f; 0xd9810c6891bd5c04; 0xa3597ca0a188d57d;
   0xec09088b6997f879; 0x96d1784359a27100; 0x19b9e91b09fcea8b; 0x636199d339c963f2;
   0xdf7adabd7a6e2d6f; 0xa5a2aa754a5ba416; 0x2aca3b2d1a053f9d; 0x50124be52a30b6e4;
   0x1f423fcee22f9be0; 0x659a4f06d21a1299; 0xeaf2de5e82448912; 0x902aae96b271006b;
   0x74523609127ad31a; 0x0e8a46c1224f5a63; 0x81e2d7997211c1e8; 0xfb3aa75142244891;
   0xb46ad37a8a3b6595; 0xceb2a3b2ba0eecec; 0x41da32eaea507767; 0x3b024222da65fe1e;
   0xa2722586f2d042ee; 0xd8aa554ec2e5cb97; 0x57c2c41692bb501c; 0x2d1ab4dea28ed965;
   0x624ac0f56a91f461; 0x1892b03d5aa47d18; 0x97fa21650afae693; 0xed2251ad3acf6fea;
   0x095ac9329ac4bc9b; 0x7382b9faaaf135e2; 0xfcea28a2faafae69; 0x8632586aca9a2710;
   0xc9622c4102850a14; 0xb3ba5c8932b0836d; 0x3cd2cdd162ee18e6; 0x460abd1952db919f;
   0x256b24ca6b12f26d; 0x5fb354025b277b14; 0xd0dbc55a0b79e09f; 0xaa03b5923b4c69e6;
   0xe553c1b9f35344e2; 0x9f8bb171c366cd9b; 0x10e3202993385610; 0x6a3b50e1a30ddf69;
   0x8e43c87e03060c18; 0xf49bb8b633338561; 0x7bf329ee636d1eea; 0x012b592653589793;
   0x4e7b2d0d9b47ba97; 0x34a35dc5ab7233ee; 0xbbcbcc9dfb2ca865; 0xc113bc55cb19211c;
   0x5863dbf1e3ac9dec; 0x22bbab39d3991495; 0xadd33a6183c78f1e; 0xd70b4aa9b3f20667;
   0x985b3e827bed2b63; 0xe2834e4a4bd8a21a; 0x6debdf121b863991; 0x1733afda2bb3b0e8;
   0xf34b37458bb86399; 0x8993478dbb8deae0; 0x06fbd6d5ebd3716b; 0x7c23a61ddbe6f812;
   0x3373d23613f9d516; 0x49aba2fe23cc5c6f; 0xc6c333a67392c7e4; 0xbc1b436e43a74e9d;
   0x95ac9329ac4bc9b5; 0xef74e3e19c7e40cc; 0x601c72b9cc20db47; 0x1ac40271fc15523e;
   0x5594765a340a7f3a; 0x2f4c0692043ff643; 0xa02497ca54616dc8; 0xdafce7026454e4b1;
   0x3e847f9dc45f37c0; 0x445c0f55f46abeb9; 0xcb349e0da4342532; 0xb1eceec59401ac4b;
   0xfebc9aee5c1e814f; 0x8464ea266c2b0836; 0x0b0c7b7e3c7593bd; 0x71d40bb60c401ac4;
   0xe8a46c1224f5a634; 0x927c1cda14c02f4d; 0x1d148d82449eb4c6; 0x67ccfd4a74ab3dbf;
   0x289c8961bcb410bb; 0x5244f9a98c8199c2; 0xdd2c68f1dcdf0249; 0xa7f41839ecea8b30;
   0x438c80a64ce15841; 0x3954f06e7cd4d138; 0xb63c61362c8a4ab3; 0xcce411fe1cbfc3ca;
   0x83b465d5d4a0eece; 0xf96c151de49567b7; 0x76048445b4cbfc3c; 0x0cdcf48d84fe7545;
   0x6fbd6d5ebd3716b7; 0x15651d968d029fce; 0x9a0d8ccedd5c0445; 0xe0d5fc06ed698d3c;
   0xaf85882d2576a038; 0xd55df8e515432941; 0x5a3569bd451db2ca; 0x20ed197575283bb3;
   0xc49581ead523e8c2; 0xbe4df122e51661bb; 0x3125607ab548fa30; 0x4bfd10b2857d7349;
   0x04ad64994d625e4d; 0x7e7514517d57d734; 0xf11d85092d094cbf; 0x8bc5f5c11d3cc5c6;
   0x12b5926535897936; 0x686de2ad05bcf04f; 0xe70573f555e26bc4; 0x9ddd033d65d7e2bd;
   0xd28d7716adc8cfb9; 0xa85507de9dfd46c0; 0x273d9686cda3dd4b; 0x5de5e64efd965432;
   0xb99d7ed15d9d8743; 0xc3450e196da80e3a; 0x4c2d9f413df695b1; 0x36f5ef890dc31cc8;
   0x79a59ba2c5dc31cc; 0x037deb6af5e9b8b5; 0x8c157a32a5b7233e; 0xf6cd0afa9582aa47;
   0x4ad64994d625e4da; 0x300e395ce6106da3; 0xbf66a804b64ef628; 0xc5bed8cc867b7f51;
   0x8aeeace74e645255; 0xf036dc2f7e51db2c; 0x7f5e4d772e0f40a7; 0x05863dbf1e3ac9de;
   0xe1fea520be311aaf; 0x9b26d5e88e0493d6; 0x144e44b0de5a085d; 0x6e963478ee6f8124;
   0x21c640532670ac20; 0x5b1e309b16452559; 0xd476a1c3461bbed2; 0xaeaed10b762e37ab;
   0x37deb6af5e9b8b5b; 0x4d06c6676eae0222; 0xc26e573f3ef099a9; 0xb8b627f70ec510d0;
   0xf7e653dcc6da3dd4; 0x8d3e2314f6efb4ad; 0x0256b24ca6b12f26; 0x788ec2849684a65f;
   0x9cf65a1b368f752e; 0xe62e2ad306bafc57; 0x6946bb8b56e467dc; 0x139ecb4366d1eea5;
   0x5ccebf68aecec3a1; 0x2616cfa09efb4ad8; 0xa97e5ef8cea5d153; 0xd3a62e30fe90582a;
   0xb0c7b7e3c7593bd8; 0xca1fc72bf76cb2a1; 0x45775673a732292a; 0x3faf26bb9707a053;
   0x70ff52905f188d57; 0x0a2722586f2d042e; 0x854fb3003f739fa5; 0xff97c3c80f4616dc;
   0x1bef5b57af4dc5ad; 0x61372b9f9f784cd4; 0xee5fbac7cf26d75f; 0x9487ca0fff135e26;
   0xdbd7be24370c7322; 0xa10fceec0739fa5b; 0x2e675fb4576761d0; 0x54bf2f7c6752e8a9;
   0xcdcf48d84fe75459; 0xb71738107fd2dd20; 0x387fa9482f8c46ab; 0x42a7d9801fb9cfd2;
   0x0df7adabd7a6e2d6; 0x772fdd63e7936baf; 0xf8474c3bb7cdf024; 0x829f3cf387f8795d;
   0x66e7a46c27f3aa2c; 0x1c3fd4a417c62355; 0x935745fc4798b8de; 0xe98f353477ad31a7;
   0xa6df411fbfb21ca3; 0xdc0731d78f8795da; 0x536fa08fdfd90e51; 0x29b7d047efec8728].

Fixpoint crc64_loop (n : nat) (s : bytes) (crc : Z) : option Z :=
  match n, s with
  | O, _ => Some crc
  | S n, byte :: s =>
      t ← zget crc64_tab (Z.lxor (u8 crc) (bZ byte));
      crc64_loop n s (Z.lxor t (Z.shiftr crc 8))
  | S _, [] => None
  end.

Definition crc64 (crc : Z) (s : bytes) (l : Z) : option Z := crc64_loop (Z.to_nat l) s crc.

(** ** The slot of a key *)

(** The number of bytes before the first [c], or all of them. *)
Fixpoint scan (c : byte) (key : bytes) : Z :=
  match key with
  | [] => 0
  | b :: key => if bool_decide (b = c) then 0 else 1 + scan c key
  end.

Definition slot_of (buf : bytes) (len : Z) : option Z :=
  crc ← crc16 buf (s32 len); Some (Z.land crc 0x3FFF).

(** [key] holds [keylen] bytes. *)
Definition keyHashSlot (key : bytes) (keylen : Z) : option Z :=
  let s := scan Byte.x7b key in
  if s =? keylen then slot_of key keylen else
  let e := s + 1 + scan Byte.x7d (zdrop (s + 1) key) in
  if (e =? keylen) || (e =? s + 1) then slot_of key keylen
  else slot_of (zdrop (s + 1) key) (e - s - 1).

(** The clock, and the first number of a Mersenne twister with a given seed. *)
Class Random (W : Type) := {
  time : W -> Z * W;
  mt19937 : Z -> Z
}.

Section random.
Context {W : Type} {rnd : Random W}.

Definition RandNumber (w : W) : Z * W :=
  let '(t, w) := time w in (s32 (mt19937 (u32 t)), w).

(** [None] for the key is [NULL]. *)
Definition get_key_slot (key : option bytes) (w : W) : option (Z * W) :=
  match key with
  | Some k =>
      if bool_decide (k <> []) then s ← keyHashSlot k (zlen k); Some (s, w)
      else let '(r, w) := RandNumber w in Some (Z.land r 0x3FFF, w)
  | None => let '(r, w) := RandNumber w in Some (Z.land r 0x3FFF, w)
  end.

Fixpoint crossslots_loop (first_key_slot : Z) (keys : list bytes) (w : W) : option (bool * W) :=
  match keys with
  | [] => Some (false, w)
  | k :: keys =>
      x ← get_key_slot (Some k) w;
      let '(cur_key_slot, w) := x in
      if negb (cur_key_slot =? first_key_slot) then Some (true, w)
      else crossslots_loop first_key_slot keys w
  end.

Definition keys_crossslots (keys : list bytes) (w : W) : option (bool * W) :=
  match keys with
  | [] => Some (false, w)
  | k :: keys => x ← get_key_slot (Some k) w; let '(first, w) := x in crossslots_loop first keys w
  end.

Definition get_random_number (base : Z) (w : W) : Z * W :=
  let '(r, w) := RandNumber w in (u64 (base + r), w).

End random.

(** ** The reference definitions

    CRC16/XMODEM and CRC64/Jones, bit by bit. *)

Definition crc16_bit (x : Z) : Z :=
  Z.lxor (Z.land (Z.shiftl x 1) 0xFFFF) (if Z.testbit x 15 then 0x1021 else 0).

Definition crc64_bit (x : Z) : Z :=
  Z.lxor (Z.shiftr x 1) (if Z.testbit x 0 then 0x95AC9329AC4BC9B5 else 0).

Definition crc16_ref (m : bytes) : Z :=
  fold_left (fun crc b => Nat.iter 8 crc16_bit (Z.lxor crc (Z.shiftl (bZ b) 8))) m 0.

Definition crc64_ref (crc : Z) (m : bytes) : Z :=
  fold_left (fun crc b => Nat.iter 8 crc64_bit (Z.lxor crc (bZ b))) m crc.

(** The part of a key that is hashed: what is between the first opening brace
    and the first closing brace after it, unless there is no such part or it is
    empty. *)
Definition hash_tag (key : bytes) : bytes :=
  let tail := (span (fun b => negb (bool_decide (b = Byte.x7b))) key).2 in
  match tail with
  | [] => key
  | _ :: t =>
      match span (fun b => negb (bool_decide (b = Byte.x7d))) t with
      | (_, []) => key
      | ([], _) => key
      | (tag, _) => tag
      end
  end.

Definition key_slot (key : bytes) : Z := crc16_ref (hash_tag key) mod 16384.

(** ** Checksums and key slots: facts

    The table-driven checksums compute what the bit-serial definitions do,
    because a step on one bit is linear for exclusive or; [keyHashSlot] hashes
    the tag of a key. *)

(** ** Bits *)

Lemma lxor_split x : x = Z.lxor (Z.shiftl (Z.shiftr x 8) 8) (u8 x).
Proof.
  unfold uw. rewrite <- Z.land_ones by lia. apply Z.bits_inj'. intros n Hn.
  rewrite Z.lxor_spec, Z.shiftl_spec, Z.land_spec, Z.testbit_ones_nonneg by lia.
  destruct (Z.ltb_spec n 8).
  - rewrite (Z.testbit_neg_r _ (n - 8)) by lia. by rewrite andb_true_r, xorb_false_l.
  - rewrite Z.shiftr_spec by lia. replace (n - 8 + 8) with n by lia.
    by rewrite andb_false_r, xorb_false_r.
Qed.

Lemma uw_lxor w x y : 0 <= w -> uw w (Z.lxor x y) = Z.lxor (uw w x) (uw w y).
Proof.
  intros. unfold uw. rewrite <- !Z.land_ones by lia. apply Z.bits_inj'. intros n Hn.
  rewrite !Z.land_spec, !Z.lxor_spec, !Z.land_spec. btauto.
Qed.

Lemma shiftr_small x : 0 <= x < 256 -> Z.shiftr x 8 = 0.
Proof. intros. rewrite Z.shiftr_div_pow2 by lia. by apply Z.div_small. Qed.

(** A property of all bytes, by computation. *)
Lemma all_bytes (P : Z -> Prop) `{!forall x, Decision (P x)} :
  forallb (fun x => bool_decide (P x)) (Z.of_nat <$> seq 0 256) = true ->
  forall x, 0 <= x < 256 -> P x.
Proof.
  intros Hall x Hx. rewrite forallb_forall in Hall. apply (bool_decide_eq_true_1 _), Hall.
  apply in_map_iff. exists (Z.to_nat x). split; [lia|]. apply in_seq. lia.
Qed.

Section linear.
Variable f : Z -> Z.
Hypothesis lin : forall x y, f (Z.lxor x y) = Z.lxor (f x) (f y).

Lemma iter_linear n x y : Nat.iter n f (Z.lxor x y) = Z.lxor (Nat.iter n f x) (Nat.iter n f y).
Proof. induction n as [|n IH]; simpl; [done|]. by rewrite IH, lin. Qed.

End linear.

Lemma if_xorb (a b : bool) k :
  (if xorb a b then k else 0) = Z.lxor (if a then k else 0) (if b then k else 0).
Proof. destruct a, b; simpl; by rewrite ?Z.lxor_nilpotent, ?Z.lxor_0_r, ?Z.lxor_0_l. Qed.

Lemma lxor_swap a b c d : Z.lxor (Z.lxor a b) (Z.lxor c d) = Z.lxor (Z.lxor a c) (Z.lxor b d).
Proof. apply Z.bits_inj'. intros n Hn. rewrite !Z.lxor_spec. btauto. Qed.

(** ** CRC16 *)

Lemma crc16_bit_linear x y : crc16_bit (Z.lxor x y) = Z.lxor (crc16_bit x) (crc16_bit y).
Proof.
  unfold crc16_bit. rewrite Z.lxor_spec, if_xorb, lxor_swap. f_equal.
  apply Z.bits_inj'. intros n Hn. rewrite Z.lxor_spec, !Z.land_spec, !Z.shiftl_spec by lia.
  rewrite Z.lxor_spec. btauto.
Qed.

Lemma crc16_table h : 0 <= h < 256 ->
  zget crc16tab h = Some (Nat.iter 8 crc16_bit (Z.shiftl h 8)).
Proof.
  revert h. apply (all_bytes (fun h => zget crc16tab h = Some (Nat.iter 8 crc16_bit (Z.shiftl h 8)))).
  by vm_compute.
Qed.

Lemma crc16_low l : 0 <= l < 256 -> Nat.iter 8 crc16_bit l = Z.shiftl l 8.
Proof.
  revert l. apply (all_bytes (fun l => Nat.iter 8 crc16_bit l = Z.shiftl l 8)). by vm_compute.
Qed.

Lemma crc16_bit_range x : 0 <= crc16_bit x < 65536.
Proof.
  unfold crc16_bit. change 0xFFFF with (Z.ones 16). rewrite Z.land_ones by lia.
  assert (forall a, Z.lxor a 0x1021 mod 2 ^ 16 = Z.lxor (a mod 2 ^ 16) 0x1021) as E.
  { intros a. apply (uw_lxor 16 a 0x1021). lia. }
  destruct (Z.testbit x 15).
  - rewrite <- E. apply Z.mod_pos_bound. lia.
  - rewrite Z.lxor_0_r. apply Z.mod_pos_bound. lia.
Qed.

(** One byte: the table lookup does eight steps. *)
Lemma crc16_step crc b : 0 <= crc < 65536 ->
  exists t, zget crc16tab (Z.land (Z.lxor (Z.shiftr crc 8) (bZ b)) 0x00FF) = Some t /\
    u16 (Z.lxor (Z.shiftl crc 8) t) = Nat.iter 8 crc16_bit (Z.lxor crc (Z.shiftl (bZ b) 8)) /\
    0 <= u16 (Z.lxor (Z.shiftl crc 8) t) < 65536.
Proof.
  intros Hc. pose proof (bZ_range b) as Hb.
  set (h := Z.lxor (Z.shiftr crc 8) (bZ b)).
  assert (0 <= Z.shiftr crc 8 < 256) as Hs.
  { rewrite Z.shiftr_div_pow2 by lia. split; [apply Z.div_pos; lia|apply Z.div_lt_upper_bound; lia]. }
  assert (u8 h = h) as Eh by (unfold h; rewrite uw_lxor by lia; by rewrite !u8_small).
  assert (0 <= h < 256) as Hh by (rewrite <- Eh; by apply uw_range).
  change 0x00FF with (Z.ones 8). rewrite Z.land_ones by lia. change (h mod 2 ^ 8) with (u8 h).
  rewrite Eh, crc16_table by done. eexists. split; [done|]. split; [|by apply uw_range].
  assert (0 <= u8 crc < 256) as Hu by (by apply uw_range).
  assert (Z.lxor crc (Z.shiftl (bZ b) 8) = Z.lxor (Z.shiftl h 8) (u8 crc)) as ->.
  { unfold h. rewrite Z.shiftl_lxor. rewrite (lxor_split crc) at 1.
    apply Z.bits_inj'. intros n Hn. rewrite !Z.lxor_spec. btauto. }
  rewrite (iter_linear _ crc16_bit_linear), (crc16_low (u8 crc)) by done.
  rewrite uw_lxor by lia. rewrite Z.lxor_comm. f_equal.
  - apply u16_small. apply crc16_bit_range.
  - unfold uw. rewrite !Z.shiftl_mul_pow2 by lia. change (2 ^ 16) with (2 ^ 8 * 2 ^ 8).
    by rewrite Z.mul_mod_distr_r.
Qed.

Lemma crc16_loop_ref m r crc : 0 <= crc < 65536 ->
  crc16_loop (length m) (m ++ r) crc
  = Some (fold_left (fun crc b => Nat.iter 8 crc16_bit (Z.lxor crc (Z.shiftl (bZ b) 8))) m crc).
Proof.
  revert crc. induction m as [|b m IH]; intros crc Hc; [done|].
  cbn [length crc16_loop fold_left app].
  destruct (crc16_step crc b Hc) as (t & -> & E & Hr). cbn [mbind option_bind].
  rewrite IH by done. by rewrite E.
Qed.

Lemma crc16_exact m r : crc16 (m ++ r) (zlen m) = Some (crc16_ref m).
Proof. unfold crc16, zlen. rewrite Nat2Z.id. by apply crc16_loop_ref. Qed.

(** ** CRC64 *)

Lemma crc64_bit_linear x y : crc64_bit (Z.lxor x y) = Z.lxor (crc64_bit x) (crc64_bit y).
Proof.
  unfold crc64_bit. rewrite Z.lxor_spec, if_xorb, lxor_swap. f_equal. apply Z.shiftr_lxor.
Qed.

Lemma crc64_table l : 0 <= l < 256 -> zget crc64_tab l = Some (Nat.iter 8 crc64_bit l).
Proof.
  revert l. apply (all_bytes (fun l => zget crc64_tab l = Some (Nat.iter 8 crc64_bit l))).
  by vm_compute.
Qed.

Lemma crc64_high (n : nat) x : Nat.iter n crc64_bit (Z.shiftl x (Z.of_nat n)) = x.
Proof.
  revert x. induction n as [|n IH]; intros x; [by rewrite Z.shiftl_0_r|].
  rewrite Nat.iter_succ_r.
  assert (crc64_bit (Z.shiftl x (Z.of_nat (S n))) = Z.shiftl x (Z.of_nat n)) as ->; [|apply IH].
  unfold crc64_bit. rewrite Z.shiftl_spec, Z.testbit_neg_r by lia. rewrite Z.lxor_0_r.
  rewrite Z.shiftr_shiftl_l by lia. f_equal. lia.
Qed.

Lemma crc64_step crc b :
  exists t, zget crc64_tab (Z.lxor (u8 crc) (bZ b)) = Some t /\
    Z.lxor t (Z.shiftr crc 8) = Nat.iter 8 crc64_bit (Z.lxor crc (bZ b)).
Proof.
  pose proof (bZ_range b) as Hb.
  assert (Z.lxor (u8 crc) (bZ b) = u8 (Z.lxor crc (bZ b))) as ->.
  { rewrite uw_lxor by lia. by rewrite (u8_small (bZ b)). }
  rewrite crc64_table by (by apply uw_range). eexists. split; [done|].
  rewrite (lxor_split (Z.lxor crc (bZ b))) at 2. rewrite (iter_linear _ crc64_bit_linear).
  rewrite (crc64_high 8). rewrite Z.lxor_comm. f_equal.
  by rewrite Z.shiftr_lxor, (shiftr_small (bZ b)), Z.lxor_0_r.
Qed.

Lemma crc64_loop_ref m r crc :
  crc64_loop (length m) (m ++ r) crc = Some (crc64_ref crc m).
Proof.
  revert crc. induction m as [|b m IH]; intros crc; [done|].
  cbn [length crc64_loop app]. destruct (crc64_step crc b) as (t & -> & E). cbn [mbind option_bind].
  rewrite IH. unfold crc64_ref. cbn [fold_left]. by rewrite E.
Qed.

Lemma crc64_exact crc m r : crc64 crc (m ++ r) (zlen m) = Some (crc64_ref crc m).
Proof. unfold crc64, zlen. rewrite Nat2Z.id. apply crc64_loop_ref. Qed.

(** ** Hash tags *)

Lemma crc16_ref_range m : 0 <= crc16_ref m < 65536.
Proof.
  unfold crc16_ref. induction m as [|b m IH] using rev_ind; [done|].
  rewrite fold_left_app. cbn [fold_left]. apply (crc16_bit_range (Nat.iter 7 crc16_bit _)).
Qed.

Lemma slot_of_ref m r : zlen m <= INT_MAX ->
  slot_of (m ++ r) (zlen m) = Some (crc16_ref m mod 16384).
Proof.
  intros Hm. pose proof (zlen_nonneg m). unfold slot_of. rewrite s32_small by width_lia.
  rewrite crc16_exact. cbn [mbind option_bind]. f_equal.
  change 0x3FFF with (Z.ones 14). by rewrite Z.land_ones.
Qed.

Lemma scan_span c key :
  let (a, t) := span (fun b => negb (bool_decide (b = c))) key in
  key = a ++ t /\ scan c key = zlen a /\ (t = [] \/ exists t', t = c :: t').
Proof.
  induction key as [|b key IH]; simpl; [by split_and!; [| |left]|].
  destruct (bool_decide_reflect (b = c)) as [->|Hb]; cbn [negb].
  - split_and!; [done|done|]. right. by eexists.
  - destruct (span _ key) as [a t]. destruct IH as (-> & -> & Ht). by rewrite zlen_cons.
Qed.

Lemma keyHashSlot_exact key : zlen key <= INT_MAX -> keyHashSlot key (zlen key) = Some (key_slot key).
Proof.
  intros Hk. unfold keyHashSlot, key_slot, hash_tag.
  assert (slot_of key (zlen key) = Some (crc16_ref key mod 16384)) as Ew.
  { rewrite <- (app_nil_r key) at 1. by apply slot_of_ref. }
  pose proof (scan_span Byte.x7b key) as H.
  destruct (span _ key) as [a t]. destruct H as (Ek & -> & Ht). cbn [snd].
  destruct Ht as [->|[t' ->]].
  { rewrite app_nil_r in Ek. subst a. by rewrite Z.eqb_refl. }
  pose proof (zlen_nonneg a). pose proof (zlen_nonneg t').
  assert (zlen key = zlen a + (1 + zlen t')) as Elen by (by rewrite Ek, zlen_app, zlen_cons).
  rewrite Elen, Ek.
  rewrite (proj2 (Z.eqb_neq _ _)) by lia.
  assert (a ++ Byte.x7b :: t' = (a ++ [Byte.x7b]) ++ t') as Ea by (by rewrite <- app_assoc).
  assert (zdrop (zlen a + 1) (a ++ Byte.x7b :: t') = t') as ->.
  { rewrite Ea. change 1 with (zlen [Byte.x7b]). rewrite <- zlen_app. apply zdrop_app_len. }
  pose proof (scan_span Byte.x7d t') as H'.
  destruct (span _ t') as [g r]. destruct H' as (Et & -> & Hr).
  destruct Hr as [->|[r' ->]].
  { rewrite app_nil_r in Et. subst g.
    rewrite (proj2 (Z.eqb_eq _ _)) by lia. cbn [orb].
    rewrite <- Ek, <- Elen. by destruct t'. }
  rewrite Et in *. rewrite zlen_app, zlen_cons in *. pose proof (zlen_nonneg r').
  rewrite (proj2 (Z.eqb_neq _ _)) by lia. cbn [orb].
  destruct g as [|g0 g].
  - rewrite zlen_nil, (proj2 (Z.eqb_eq _ _)) by lia.
    change 0 with (zlen (A := byte) []) at 1. by rewrite <- Elen, <- Ek.
  - rewrite (proj2 (Z.eqb_neq _ _)) by zlia.
    replace (zlen a + 1 + zlen (g0 :: g) - zlen a - 1) with (zlen (g0 :: g)) by lia.
    apply slot_of_ref. rewrite Ek in Hk. zlia.
Qed.

Lemma span_until c a t : c ∉ a ->
  span (fun b => negb (bool_decide (b = c))) (a ++ c :: t) = (a, c :: t).
Proof.
  intros Ha. apply span_all.
  - apply Forall_forall. intros b Hb. apply negb_true_iff, bool_decide_eq_false. intros ->. done.
  - intros b r' [= <- _]. by rewrite bool_decide_true.
Qed.

Lemma hash_tag_braces a t b :
  Byte.x7b ∉ a -> Byte.x7d ∉ t -> t <> [] ->
  hash_tag (a ++ Byte.x7b :: t ++ Byte.x7d :: b) = t.
Proof.
  intros Ha Ht Hn. unfold hash_tag. rewrite span_until by done. cbn [snd].
  rewrite span_until by done. by destruct t.
Qed.
