(* ===== verification/StdString.v ===== *)
(** * The C++ strings r3c uses

    [std::string] holds any bytes.  A position [None] is [npos]; a [substr]
    that starts beyond the end throws, which is [None] here too. *)

From Stdlib Require Import Strings.Byte String.
From S2P Require Import Prelude CLib.

Definition npos : Z := 18446744073709551615.

(** A position as a [size_type]. *)
Definition pos_val (p : option Z) : Z := default npos p.

Fixpoint find_from (c : byte) (l : bytes) (i : Z) : option Z :=
  match l with
  | [] => None
  | b :: l => if bool_decide (b = c) then Some i else find_from c l (i + 1)
  end.

(** [s.find(c, pos)]. *)
Definition find (s : bytes) (c : byte) (pos : Z) : option Z := find_from c (zdrop pos s) pos.

(** [s.rfind(c)]. *)
Definition rfind (s : bytes) (c : byte) : option Z :=
  p ← find (rev s) c 0; Some (zlen s - 1 - p).

Fixpoint find_str_from (sep l : bytes) (i : Z) : option Z :=
  if bool_decide (sep `prefix_of` l) then Some i else
  match l with
  | [] => None
  | _ :: l => find_str_from sep l (i + 1)
  end.

(** [s.find(sep)]. *)
Definition find_str (s sep : bytes) : option Z := find_str_from sep s 0.

(** [s.substr(pos, len)]. *)
Definition substr (s : bytes) (pos len : Z) : option bytes :=
  if zlen s <? pos then None else Some (ztake (Z.min len (zlen s - pos)) (zdrop pos s)).

(** [strncmp(a, b, n) == 0] on two C strings. *)
Definition strncmp_eq (a b : bytes) (n : Z) : bool :=
  bool_decide (ztake n (cstr a) = ztake n (cstr b)).

(** [atoi]: the C library converts with [strtol] and truncates. *)
Definition atoi {dm : DataModel} (s : bytes) : Z := s32 (strtol s).

(** ** Lemmas *)

Lemma find_from_mid c a l i : c ∉ a -> find_from c (a ++ c :: l) i = Some (i + zlen a).
Proof.
  revert i. induction a as [|b a IH]; intros i Ha; simpl.
  - rewrite bool_decide_true by done. f_equal. zlia.
  - rewrite bool_decide_false by set_solver. rewrite IH by set_solver. f_equal. zlia.
Qed.

Lemma find_from_none c l i : c ∉ l -> find_from c l i = None.
Proof.
  revert i. induction l as [|b l IH]; intros i Hl; [done|]. simpl.
  rewrite bool_decide_false by set_solver. apply IH. set_solver.
Qed.

Lemma find_mid s c p a l : c ∉ a -> s = p ++ a ++ c :: l -> find s c (zlen p) = Some (zlen p + zlen a).
Proof. intros Ha ->. unfold find. rewrite zdrop_app_len. by apply find_from_mid. Qed.

Lemma find_none s c p a : c ∉ a -> s = p ++ a -> find s c (zlen p) = None.
Proof. intros Ha ->. unfold find. rewrite zdrop_app_len. by apply find_from_none. Qed.

(** From the start of a string. *)
Lemma find_char c a l : c ∉ a -> find (a ++ c :: l) c 0 = Some (zlen a).
Proof. intros Ha. by rewrite (find_mid _ c [] a l). Qed.

Lemma find_no_char c a : c ∉ a -> find a c 0 = None.
Proof. intros Ha. by rewrite (find_none _ c [] a). Qed.

Lemma find_from_range c l i p : find_from c l i = Some p -> i <= p < i + zlen l.
Proof.
  revert i. induction l as [|b l IH]; intros i; simpl; [done|].
  case_bool_decide; [intros [= <-]; zlia|]. intros ?%IH. zlia.
Qed.

Lemma find_range s c p q : 0 <= p <= zlen s -> find s c p = Some q -> p <= q < zlen s.
Proof. unfold find. intros Hp ?%find_from_range. rewrite zlen_zdrop in * by lia. lia. Qed.

Lemma substr_some s p n : p <= zlen s -> exists t, substr s p n = Some t.
Proof. intros. unfold substr. rewrite (proj2 (Z.ltb_ge _ _)) by lia. by eexists. Qed.

Lemma rfind_char c a l : c ∉ l -> rfind (a ++ c :: l) c = Some (zlen a).
Proof.
  intros Hl. unfold rfind. rewrite rev_app_distr. simpl. rewrite <- app_assoc. simpl.
  rewrite find_char.
  - cbn [mbind option_bind]. f_equal. unfold zlen. rewrite length_app, length_rev. simpl. lia.
  - by rewrite list_elem_of_In, <- in_rev, <- list_elem_of_In.
Qed.

Lemma substr_mid p m r : substr (p ++ m ++ r) (zlen p) (zlen m) = Some m.
Proof.
  unfold substr. rewrite zlen_app, (proj2 (Z.ltb_ge _ _)) by zlia.
  rewrite zdrop_app_len, Z.min_l by zlia. by rewrite ztake_app_len.
Qed.

Lemma substr_head m r : substr (m ++ r) 0 (zlen m) = Some m.
Proof. apply (substr_mid []). Qed.

Lemma substr_tail p m n : zlen m <= n -> substr (p ++ m) (zlen p) n = Some m.
Proof.
  intros Hn. unfold substr. rewrite zlen_app, (proj2 (Z.ltb_ge _ _)) by zlia.
  by rewrite zdrop_app_len, ztake_all by lia.
Qed.

Lemma find_str_char c a l : c ∉ a -> find_str (a ++ c :: l) [c] = Some (zlen a).
Proof.
  unfold find_str. intros Ha. assert (forall i, find_str_from [c] (a ++ c :: l) i = Some (i + zlen a)) as H.
  { clear -Ha. induction a as [|b a IH]; intros i; simpl.
    - rewrite bool_decide_true by (by eexists). f_equal. zlia.
    - rewrite bool_decide_false by (intros [k [= -> _]]; set_solver).
      rewrite IH by set_solver. f_equal. zlia. }
  rewrite H. done.
Qed.

Lemma find_str_no_char c a : c ∉ a -> find_str a [c] = None.
Proof.
  unfold find_str. intros Ha. generalize 0. induction a as [|b a IH]; intros i; simpl.
  - done.
  - rewrite bool_decide_false by (intros [k [= -> _]]; set_solver). apply IH. set_solver.
Qed.

Lemma atoi_udec {dm : DataModel} v r :
  LP64 -> 0 <= v <= INT_MAX -> (forall b r', r = b :: r' -> isdigit b = false) ->
  atoi (udec v ++ r) = v.
Proof. intros. unfold atoi. rewrite strtol_udec by done. apply s32_small. width_lia. Qed.
