(* ===== verification/ClusterText.v ===== *)
(** * The texts r3c exchanges with a cluster (r3c/utils.cpp)

    Numbers as strings, and the node lists, addresses, slot ranges and
    redirections of a cluster. *)

From Stdlib Require Import Strings.Byte String.
From S2P Require Import Prelude CLib Read StdString.

(** ** Numbers *)

(** The recursion divides by 10^12, so a 64-bit value takes two levels. *)
Fixpoint digits10_fuel (fuel : nat) (v : Z) : Z :=
  match fuel with
  | O => 0
  | S f =>
      if v <? 10 then 1 else if v <? 100 then 2 else if v <? 1000 then 3 else
      if v <? 1000000000000 then
        if v <? 100000000 then
          if v <? 1000000 then
            if v <? 10000 then 4 else 5 + (if 100000 <=? v then 1 else 0)
          else 7 + (if 10000000 <=? v then 1 else 0)
        else if v <? 10000000000 then 9 + (if 1000000000 <=? v then 1 else 0)
        else 11 + (if 100000000000 <=? v then 1 else 0)
      else u32 (12 + digits10_fuel f (v / 1000000000000))
  end.
Definition digits10 (v : Z) : Z := digits10_fuel 2 v.

Definition digit_pairs : bytes :=
  bs "00010203040506070809101112131415161718192021222324252627282930313233343536373839404142434445464748495051525354555657585960616263646566676869707172737475767778798081828384858687888990919293949596979899".

(** Writes the two digits of [i] at [dst[next - 1]] and [dst[next]]. *)
Definition put_pair (dst : bytes) (next i : Z) : option bytes :=
  d1 ← zget digit_pairs (i * 2 + 1);
  d0 ← zget digit_pairs (i * 2);
  dst ← zwrite dst next [d1];
  zwrite dst (u32 (next - 1)) [d0].

(** The loop and the last one or two digits; at most ten turns, since a turn
    removes two digits. *)
Fixpoint ll2string_loop (fuel : nat) (dst : bytes) (next value : Z) : option bytes :=
  match fuel with
  | O => None
  | S f =>
      if 100 <=? value then
        dst ← put_pair dst next (value mod 100);
        ll2string_loop f dst (u32 (next - 2)) (value / 100)
      else if value <? 10 then zwrite dst next [Zb (48 + value)]
      else put_pair dst next value
  end.

(** The length and the buffer. *)
Definition ll2string (dst : bytes) (dstlen svalue : Z) : option (Z * bytes) :=
  let '(negative, value) :=
    if svalue <? 0
    then (1, if negb (svalue =? LLONG_MIN) then u64 (- svalue) else u64 (LLONG_MAX + 1))
    else (0, svalue) in
  let length := u32 (digits10 value + negative) in
  if dstlen <=? length then Some (0, dst) else
  dst ← zwrite dst length [NUL];
  dst ← ll2string_loop 11 dst (u32 (length - 1)) value;
  dst ← (if negative =? 1 then zwrite dst 0 [Byte.x2d] else Some dst);
  Some (s32 length, dst).

(** [s] holds exactly the [slen] bytes; [Some None] is the result 0.  Negating
    the smallest [long long] is undefined. *)
Definition string2ll (s : bytes) : option (option Z) :=
  match s with
  | [] => Some None
  | c :: p' =>
      if bool_decide (s = [Byte.x30]) then Some (Some 0) else
      let negative := bool_decide (c = Byte.x2d) in
      match (if negative then p' else s) with
      | [] => Some None
      | d :: p =>
          if in_range 49 57 d then
            match s2ll_loop (digit_val d) p with
            | None => Some None
            | Some (v, rest) =>
                if bool_decide (rest <> []) then Some None
                else if (negative : bool) then
                  if 9223372036854775808 <? v then Some None
                  else if LLONG_MAX <? s64 v * -1 then None else Some (Some (s64 v * -1))
                else if LLONG_MAX <? v then Some None else Some (Some v)
            end
          else Some None
      end
  end.

(** The buffer has [sizeof("18446744073709551615") + 1] bytes. *)
Definition int2string (n : Z) : option bytes :=
  r ← ll2string (replicate 22 NUL) 22 n; let '(len, str) := r in Some (ztake len str).
Definition int2string_i32 (n : Z) : option bytes := int2string n.
Definition int2string_i16 (n : Z) : option bytes := int2string n.
Definition int2string_u64 (n : Z) : option bytes := int2string (s64 n).
Definition int2string_u32 (n : Z) : option bytes := int2string n.
Definition int2string_u16 (n : Z) : option bytes := int2string_u64 n.

(** The result and [*val]. *)
Definition string2int (s : bytes) (errval : Z) : option (bool * Z) :=
  v ← string2ll s; Some (match v with Some v => (true, v) | None => (false, errval) end).
Definition string2int_i32 (s : bytes) (errval : Z) : option (bool * Z) :=
  r ← string2int s errval;
  Some (match r with (true, v) => (true, s32 v) | (false, _) => (false, errval) end).

(** ** Nodes *)

Abbreviation Node := (bytes * Z)%type.   (* first is IP, second is port: uint16_t *)

Section nodes.
Context {dm : DataModel}.

(** The nodes are added to those of [nodes]; the fuel counts the commas. *)
Fixpoint parse_nodes_loop (fuel : nat) (nodes : list Node) (s : bytes) (pos : Z) : option (list Node) :=
  match fuel with
  | O => None
  | S f =>
      let comma_pos := find s Byte.x2c pos in
      let len := u64 (match comma_pos with Some p => p - pos | None => zlen s - npos end) in
      nodes ← (if 0 <? len then
                 str ← substr s pos len;
                 match find str Byte.x3a 0 with
                 | Some colon_pos =>
                     ip_str ← substr str 0 colon_pos;
                     port_str ← substr str (colon_pos + 1) npos;
                     Some (nodes ++ [(ip_str, u16 (atoi port_str))])
                 | None => Some nodes
                 end
               else Some nodes);
      match comma_pos with
      | Some p => parse_nodes_loop f nodes s (p + 1)
      | None => Some nodes
      end
  end.

Definition parse_nodes (nodes : list Node) (nodes_string : bytes) : option (Z * list Node) :=
  nodes ← parse_nodes_loop (S (length nodes_string)) nodes nodes_string 0;
  Some (s32 (zlen nodes), nodes).

(** [None] is [false]; the arguments are not changed then. *)
Definition parse_node_string (node_string : bytes) : option (option Node) :=
  match find node_string Byte.x3a 0 with
  | None => Some None
  | Some colon_pos =>
      port_str ← substr node_string (colon_pos + 1) npos;
      ip ← substr node_string 0 colon_pos;
      Some (Some (ip, u16 (atoi port_str)))
  end.

(** The start and the end slot. *)
Definition parse_slot_string (slot_string : bytes) : option (Z * Z) :=
  match find slot_string Byte.x2d 0 with
  | None => let s := atoi slot_string in Some (s, s)
  | Some bar_pos =>
      end_slot_str ← substr slot_string (bar_pos + 1) npos;
      start_slot_str ← substr slot_string 0 bar_pos;
      Some (atoi start_slot_str, atoi end_slot_str)
  end.

(** The result and [*node]. *)
Definition parse_moved_string (moved_string : bytes) (node : Node) : option (bool * Node) :=
  match rfind moved_string Byte.x20 with
  | None => Some (false, node)
  | Some space_pos =>
      ip_and_port_string ← substr moved_string (space_pos + 1) npos;
      match find ip_and_port_string Byte.x3a 0 with
      | None => Some (false, node)
      | Some colon_pos =>
          ip ← substr ip_and_port_string 0 colon_pos;
          port_str ← substr ip_and_port_string (colon_pos + 1) npos;
          let node := (ip, u16 (atoi port_str)) in
          Some (negb (node.2 =? 0), node)
      end
  end.

End nodes.

Definition node2string (node : Node) : option bytes :=
  port ← int2string_u16 node.2; Some (node.1 ++ bs ":" ++ port).

(** ** Splitting *)

(** The loop that skips separators: the new position, and whether it reached
    the end of the string.  [str[pos + 1]] must be at most the NUL at the end. *)
Fixpoint skip_loop (fuel : nat) (str sep : bytes) (pos : Z) : option (Z * bool) :=
  match fuel with
  | O => None
  | S f =>
      if zlen str <? pos + 1 then None else
      if strncmp_eq sep (zdrop (pos + 1) str) (zlen sep) then
        let pos := pos + zlen sep in
        if zlen str <=? pos then Some (pos, true) else skip_loop f str sep pos
      else Some (pos, false)
  end.

Fixpoint split_tokens (fuel : nat) (tokens : list bytes) (str sep : bytes) (skip_sep : bool) :
    option (list bytes) :=
  match fuel with
  | O => None
  | S f =>
      let pos := find_str str sep in
      token ← substr str 0 (pos_val pos);
      let tokens := tokens ++ [token] in
      match pos with
      | None => Some tokens
      | Some pos =>
          r ← (if skip_sep then skip_loop (S (length str)) str sep pos else Some (pos, false));
          let '(pos, at_end) := r in
          if (at_end : bool) then Some (tokens ++ [[]]) else
          str ← substr str (pos + zlen sep) npos;
          split_tokens f tokens str sep skip_sep
      end
  end.

(** The result and the tokens. *)
Definition split (tokens : list bytes) (source sep : bytes) (skip_sep : bool) :
    option (Z * list bytes) :=
  tokens ← (if bool_decide (sep = []) then Some (tokens ++ [source])
            else if bool_decide (source <> [])
                 then split_tokens (S (length source)) tokens source sep skip_sep
                 else Some tokens);
  Some (s32 (zlen tokens), tokens).
