(* ===== verification/ClusterTextFacts.v ===== *)
(** * The texts of a cluster: facts

    [int2string] writes the decimal numeral and [string2int] reads it back; the
    parsers of node lists, addresses, slot ranges and redirections invert the
    way redis writes them; [split] on one byte inverts joining. *)

From Stdlib Require Import Strings.Byte String.
From S2P Require Import Prelude CLib Read ReadLines SdsFmt FormatFacts StdString ClusterText.

(** ** [int2string] *)

Lemma zlen_udec_div k v : 0 <= k -> 10 ^ k <= v -> zlen (udec v) = k + zlen (udec (v / 10 ^ k)).
Proof.
  intros Hk. revert v. pattern k. apply natlike_ind; [|clear k Hk; intros k Hk IH|done].
  - intros v _. change (10 ^ 0) with 1. by rewrite Z.div_1_r.
  - intros v Hv. rewrite Z.pow_succ_r in * by done.
    assert (0 < 10 ^ k) by (apply Z.pow_pos_nonneg; lia).
    rewrite zlen_udec_step by lia. rewrite IH by (apply Z.div_le_lower_bound; lia).
    rewrite Z.div_div by lia. lia.
Qed.

Lemma zlen_udec_exact k v : 0 <= k -> 10 ^ k <= v < 10 * 10 ^ k -> zlen (udec v) = k + 1.
Proof.
  intros Hk Hv. rewrite (zlen_udec_div k) by lia.
  assert (0 < 10 ^ k) by (apply Z.pow_pos_nonneg; lia).
  assert (1 <= v / 10 ^ k) by (apply Z.div_le_lower_bound; lia).
  assert (v / 10 ^ k < 10) by (apply Z.div_lt_upper_bound; lia).
  rewrite udec_small by lia. zlia.
Qed.

Lemma digits10_small f v : 0 <= v < 1000000000000 -> digits10_fuel (S f) v = zlen (udec v).
Proof.
  intros Hv. cbn [digits10_fuel]. symmetry.
  destruct (Z.ltb_spec v 10); [by rewrite udec_small by lia|].
  zcases; try lia;
    lazymatch goal with |- _ = ?n => let k := eval cbv in (n - 1) in rewrite (zlen_udec_exact k) by lia end;
    lia.
Qed.

Lemma digits10_exact v : 0 <= v <= ULLONG_MAX -> digits10 v = zlen (udec v).
Proof.
  intros Hv. unfold digits10.
  destruct (Z.lt_ge_cases v 1000000000000) as [|Hge]; [apply digits10_small; lia|].
  assert (0 <= v / 1000000000000 < 1000000000000) as Hd.
  { split; [apply Z.div_pos; lia|apply Z.div_lt_upper_bound; width_lia]. }
  cbn [digits10_fuel]. repeat (rewrite (proj2 (Z.ltb_ge v _)) by lia).
  pose proof (digits10_small 0 _ Hd) as E. cbn [digits10_fuel] in E. rewrite E. clear E.
  rewrite (zlen_udec_div 12 v) by lia. change (10 ^ 12) with 1000000000000. apply u32_small.
  pose proof (zlen_udec_bound _ (proj1 Hd) 12 ltac:(lia) (proj2 Hd)). zlia.
Qed.

Lemma digit_pairs_spec i : 0 <= i < 100 ->
  zget digit_pairs (i * 2 + 1) = Some (digit (i mod 10)) /\
  zget digit_pairs (i * 2) = Some (digit (i / 10)).
Proof.
  intros Hi.
  assert (forallb (fun i => bool_decide (zget digit_pairs (i * 2 + 1) = Some (digit (i mod 10)) /\
    zget digit_pairs (i * 2) = Some (digit (i / 10)))) (Z.of_nat <$> seq 0 100) = true) as Hall
    by (by vm_compute).
  rewrite forallb_forall in Hall. apply (bool_decide_eq_true_1 _), Hall.
  apply in_map_iff. exists (Z.to_nat i). split; [lia|]. apply in_seq. lia.
Qed.

Lemma zwrite_one {A} q (x d : A) r : zwrite (q ++ x :: r) (zlen q) [d] = Some (q ++ d :: r).
Proof. apply (zwrite_mid q [x] r [d]). done. Qed.

Lemma put_pair_spec q x y r i : 0 <= i < 100 -> zlen q < INT_MAX ->
  put_pair (q ++ x :: y :: r) (zlen q + 1) i = Some (q ++ digit (i / 10) :: digit (i mod 10) :: r).
Proof.
  intros Hi Hq. unfold put_pair. destruct (digit_pairs_spec i Hi) as [-> ->].
  cbn [mbind option_bind]. pose proof (zlen_nonneg q).
  change (q ++ x :: y :: r) with (q ++ [x] ++ y :: r). rewrite app_assoc.
  replace (zlen q + 1) with (zlen (q ++ [x])) by zlia.
  rewrite zwrite_one. cbn [mbind option_bind].
  replace (u32 (zlen (q ++ [x]) - 1)) with (zlen q)
    by (rewrite zlen_app, u32_small; change (zlen [x]) with 1; width_lia).
  rewrite <- app_assoc. apply zwrite_one.
Qed.

Lemma udec_pair v : 10 <= v -> exists l, udec v = l ++ [digit (v mod 100 / 10); digit (v mod 10)] /\
  (100 <= v -> l = udec (v / 100)) /\ (v < 100 -> l = []).
Proof.
  intros Hv. rewrite udec_step by done.
  assert ((v / 10) mod 10 = v mod 100 / 10) as E.
  { change 100 with (10 * 10). rewrite Z.rem_mul_r by lia.
    rewrite Z.mul_comm, Z.add_comm, Z.div_add_l by lia.
    rewrite (Z.div_small (v mod 10)) by (apply Z.mod_pos_bound; lia). lia. }
  destruct (Z.lt_ge_cases v 100).
  - exists []. rewrite udec_small by (split; [apply Z.div_pos; lia|apply Z.div_lt_upper_bound; lia]).
    rewrite (Z.mod_small v 100) by lia. split_and!; [done|lia|done].
  - exists (udec (v / 100)). rewrite udec_step by (apply Z.div_le_lower_bound; lia).
    rewrite E, <- app_assoc, Z.div_div by lia. split_and!; [done..|lia].
Qed.

Lemma ll2string_loop_eq f dst next value :
  ll2string_loop (S f) dst next value =
  if 100 <=? value then
    dst ← put_pair dst next (value mod 100);
    ll2string_loop f dst (u32 (next - 2)) (value / 100)
  else if value <? 10 then zwrite dst next [Zb (48 + value)]
  else put_pair dst next value.
Proof. done. Qed.

(** The loop fills the room of the numeral from the right. *)
Lemma ll2string_loop_spec fuel v p m r :
  0 <= v < 100 ^ Z.of_nat (S fuel) -> zlen m = zlen (udec v) -> zlen p + zlen m < INT_MAX ->
  ll2string_loop (S fuel) (p ++ m ++ r) (zlen p + zlen m - 1) v = Some (p ++ udec v ++ r).
Proof.
  revert v m r. induction fuel as [|fuel IH]; intros v m r Hv Hm Hp; pose proof (zlen_nonneg p).
  all: rewrite ll2string_loop_eq.
  all: destruct (Z.lt_ge_cases v 10) as [Hs|Hb];
    [rewrite (proj2 (Z.leb_gt 100 v)), (proj2 (Z.ltb_lt v 10)) by lia;
     rewrite udec_small in Hm |- * by lia; destruct m as [|x [|? ?]]; try (exfalso; zlia);
     change (zlen [x]) with 1; replace (zlen p + 1 - 1) with (zlen p) by lia;
     apply zwrite_one|].
  all: destruct (udec_pair v Hb) as (l & E & H1 & H2); rewrite E in Hm |- *;
    destruct (exists_last (l := m)) as (m1 & y & ->); [intros ->; zlia|];
    destruct (exists_last (l := m1)) as (m0 & x & ->); [intros ->; zlia|];
    rewrite !zlen_app in *; change (zlen [x]) with 1 in *; change (zlen [y]) with 1 in *;
    change (zlen [?a; ?b]) with 2 in *;
    rewrite <- !app_assoc; cbn [app]; rewrite (app_assoc p m0);
    replace (zlen p + (zlen m0 + 1 + 1) - 1) with (zlen (p ++ m0) + 1) by (rewrite zlen_app; lia);
    pose proof (zlen_nonneg m0).
  - rewrite (proj2 (Z.leb_gt 100 v)), (proj2 (Z.ltb_ge v 10)) by (simpl in Hv; lia).
    simpl in Hv. rewrite (Z.mod_small v 100) in * by lia. rewrite H2 in * by lia.
    rewrite put_pair_spec by (rewrite ?zlen_app; lia).
    destruct m0; [|exfalso; zlia]. by rewrite app_nil_r.
  - destruct (Z.leb_spec 100 v) as [Hc|Hc].
    + rewrite put_pair_spec by (rewrite ?zlen_app; try apply Z.mod_pos_bound; lia).
      cbn [mbind option_bind]. rewrite H1 in * by done.
      assert (v mod 100 mod 10 = v mod 10) as ->
        by by (apply Z.mod_mod_divide; exists 10).
      rewrite u32_small by (rewrite zlen_app; pose proof (zlen_udec_pos (v / 100)); 
         assert (0 <= v / 100) by (apply Z.div_pos; lia); width_lia).
      rewrite <- app_assoc.
      replace (zlen (p ++ m0) + 1 - 2) with (zlen p + zlen m0 - 1) by (rewrite zlen_app; lia).
      rewrite IH; [done| |zlia|zlia].
      split; [apply Z.div_pos; lia|apply Z.div_lt_upper_bound; [lia|]].
      rewrite Nat2Z.inj_succ, Z.pow_succ_r in Hv by lia. lia.
    + rewrite (proj2 (Z.ltb_ge v 10)) by lia. rewrite H2 in * by lia.
      rewrite (Z.mod_small v 100) in * by lia.
      rewrite put_pair_spec by (rewrite ?zlen_app; lia).
      destruct m0; [|exfalso; zlia]. by rewrite app_nil_r.
Qed.

Lemma int2string_dec n : LLONG_MIN <= n <= LLONG_MAX -> int2string n = Some (dec n).
Proof.
  intros Hn. unfold int2string, ll2string.
  set (neg := if n <? 0 then 1 else 0).
  assert ((if n <? 0 then (1, if negb (n =? LLONG_MIN) then u64 (- n) else u64 (LLONG_MAX + 1)) else (0, n))
    = (neg, Z.abs n)) as ->.
  { subst neg. destruct (Z.ltb_spec n 0); [|by rewrite Z.abs_eq].
    rewrite Z.abs_neq by lia. destruct (Z.eqb_spec n LLONG_MIN) as [->|]; [done|].
    cbn [negb]. by rewrite u64_small by width_lia. }
  assert (0 <= Z.abs n <= ULLONG_MAX) as Ha by width_lia.
  rewrite digits10_exact by done.
  pose proof (zlen_udec_bound (Z.abs n) ltac:(lia) 20 ltac:(lia) ltac:(width_lia)) as Hl.
  pose proof (zlen_udec_pos (Z.abs n) ltac:(lia)) as Hl1.
  assert (0 <= neg <= 1) as Hneg by (subst neg; destruct (n <? 0); lia).
  rewrite u32_small by lia. set (len := zlen (udec (Z.abs n)) + neg).
  destruct (Z.leb_spec 22 len); [lia|].
  set (k := Z.to_nat neg). set (m := Z.to_nat (zlen (udec (Z.abs n)))).
  assert (replicate 22 NUL = replicate k NUL ++ replicate m NUL ++ replicate (22 - k - m) NUL) as ->.
  { rewrite <- !replicate_add. f_equal. unfold k, m. lia. }
  assert (exists r, replicate (22 - k - m) NUL = NUL :: r) as [r ->].
  { replace (22 - k - m)%nat with (S (21 - k - m)) by (unfold k, m; lia). by eexists. }
  rewrite app_assoc.
  replace len with (zlen (replicate k NUL ++ replicate m NUL)) at 1 by (unfold len, k, m; zlia).
  rewrite zwrite_one. cbn [mbind option_bind]. rewrite <- app_assoc.
  rewrite u32_small by lia.
  replace (len - 1) with (zlen (replicate k NUL) + zlen (replicate m NUL) - 1) by (unfold len, k, m; zlia).
  rewrite ll2string_loop_spec.
  - cbn [mbind option_bind]. subst neg k len. unfold dec.
    destruct (Z.ltb_spec n 0).
    + change (replicate (Z.to_nat 1) NUL) with [NUL]. cbn [app].
      change (1 =? 1) with true. cbv iota.
      rewrite (zwrite_one [] NUL Byte.x2d (udec (Z.abs n) ++ NUL :: r)
        : zwrite (NUL :: _ ++ _) 0 [Byte.x2d] = _).
      cbn [mbind option_bind app]. rewrite s32_small by width_lia.
      f_equal. rewrite Z.abs_neq by lia.
      replace (zlen (udec (- n)) + 1) with (zlen (Byte.x2d :: udec (- n))) by zlia.
      rewrite app_comm_cons. apply ztake_app_len.
    + change (0 =? 1) with false. cbv iota. change (replicate (Z.to_nat 0) NUL) with (@nil byte). cbn [app].
      cbn [mbind option_bind]. rewrite s32_small, Z.abs_eq, Z.add_0_r by width_lia. f_equal. apply ztake_app_len.
  - change (100 ^ Z.of_nat 11) with 10000000000000000000000. width_lia.
  - unfold m. zlia.
  - unfold k, m. zlia.
Qed.

(** ** [string2int] *)

(** The parser of hiredis, except for the smallest integer. *)
Lemma string2ll_read s :
  string2ll s = match Read.string2ll s with
                | Some v => if v =? LLONG_MIN then None else Some (Some v)
                | None => Some None
                end.
Proof.
  rewrite string2ll_eq. unfold string2ll. destruct s as [|c p']; [done|].
  case_bool_decide; [done|].
  assert (forall (neg : bool) t,
    match t with
    | [] => Some None
    | d :: p =>
        if in_range 49 57 d then
          match s2ll_loop (digit_val d) p with
          | None => Some None
          | Some (v, rest) =>
              if bool_decide (rest <> []) then Some None
              else if neg then
                if 9223372036854775808 <? v then Some None
                else if LLONG_MAX <? s64 v * -1 then None else Some (Some (s64 v * -1))
              else if LLONG_MAX <? v then Some None else Some (Some v)
          end
        else Some None
    end = match ll_of neg t with
          | Some v => if v =? LLONG_MIN then None else Some (Some v)
          | None => Some None
          end) as Hg; [|destruct (bool_decide (c = Byte.x2d)); [exact (Hg true p')|exact (Hg false (c :: p'))]].
  intros neg [|d p]; [done|]. simpl. destruct (in_range 49 57 d) eqn:Ed; [|done].
  destruct (s2ll_loop (digit_val d) p) as [[v [|x rest]]|] eqn:El; [|by rewrite bool_decide_true|done].
  rewrite bool_decide_false by auto. cbv iota.
  assert (0 < v) as Hv.
  { assert (isdigit d = true /\ d <> digit 0) as [Hd Hd0].
    { apply in_range_spec in Ed. split; [apply in_range_spec; lia|]. intros ->.
      change (bZ (digit 0)) with 48 in Ed. lia. }
    pose proof (s2ll_loop_inv _ _ _ El) as Hp. rewrite s2ll_loop_numeral in El by done.
    destruct (Z.leb_spec (dec_val (d :: p)) ULLONG_MAX); [|done]. injection El as <-.
    by apply udec_dec_val. }
  destruct neg.
  - destruct (Z.ltb_spec 9223372036854775808 v); [done|]. rewrite s64_neg by lia.
    destruct (Z.eq_dec v 9223372036854775808) as [->|]; [done|].
    rewrite s64_small, (proj2 (Z.ltb_ge _ _)), (proj2 (Z.eqb_neq _ _)) by width_lia.
    do 2 f_equal. lia.
  - destruct (Z.ltb_spec LLONG_MAX v); [done|]. by rewrite (proj2 (Z.eqb_neq _ _)) by width_lia.
Qed.

Lemma string2ll_exact s v :
  string2ll s = Some (Some v) <-> s = dec v /\ LLONG_MIN < v <= LLONG_MAX.
Proof.
  rewrite string2ll_read. destruct (Read.string2ll s) as [w|] eqn:E.
  - apply string2ll_dec in E as [-> Hw]. destruct (Z.eqb_spec w LLONG_MIN) as [->|].
    + split; [done|]. intros [Ed Hv].
      assert (Read.string2ll (dec v) = Some v) as E1 by (apply string2ll_dec; split; [done|lia]).
      rewrite <- Ed in E1. assert (Read.string2ll (dec LLONG_MIN) = Some LLONG_MIN) as E2 by (by vm_compute).
      rewrite E1 in E2. injection E2. lia.
    + split; [intros [= <-]; split; [done|lia]|]. intros [Ed Hv].
      assert (Read.string2ll (dec v) = Some v) as E1 by (apply string2ll_dec; split; [done|lia]).
      assert (Read.string2ll (dec w) = Some w) as E2 by (apply string2ll_dec; split; [done|lia]).
      rewrite <- Ed, E2 in E1. by injection E1 as ->.
  - split; [done|]. intros [-> Hv].
    assert (Read.string2ll (dec v) = Some v) as E1 by (apply string2ll_dec; split; [done|lia]).
    by rewrite E1 in E.
Qed.

(** ** Nodes *)

Section nodes.
Context {dm : DataModel}.
Hypothesis Hlp : LP64.

(** A node whose address can be written as [ip:port]. *)
Definition plain_node (n : Node) : Prop :=
  (Byte.x3a ∉ n.1) /\ (Byte.x2c ∉ n.1) /\ (Byte.x20 ∉ n.1) /\ (LF ∉ n.1) /\ 0 <= n.2 < 65536.

(** How redis and [node2string] write it. *)
Definition addr (n : Node) : bytes := n.1 ++ Byte.x3a :: udec n.2.

Lemma node2string_addr n : 0 <= n.2 < 65536 -> node2string n = Some (addr n).
Proof.
  intros Hn. unfold node2string, int2string_u16, int2string_u64.
  rewrite s64_small, int2string_dec, dec_nonneg by width_lia. done.
Qed.

Lemma not_digit_notin c v : isdigit c = false -> 0 <= v -> c ∉ udec v.
Proof.
  intros Hc Hv Hin. pose proof (udec_digits v Hv) as H. rewrite Forall_forall in H.
  by rewrite (H _ Hin) in Hc.
Qed.

Lemma atoi_port v r : 0 <= v < 65536 -> (forall b r', r = b :: r' -> isdigit b = false) ->
  u16 (atoi (udec v ++ r)) = v.
Proof. intros Hv Hr. rewrite atoi_udec by (done || width_lia). by apply u16_small. Qed.

(** The parts of an address, which [r] may follow. *)
Lemma addr_fields n r : plain_node n -> zlen r < INT_MAX ->
  find (addr n ++ r) Byte.x3a 0 = Some (zlen n.1) /\
  substr (addr n ++ r) 0 (zlen n.1) = Some n.1 /\
  substr (addr n ++ r) (zlen n.1 + 1) npos = Some (udec n.2 ++ r).
Proof.
  intros (H1 & _ & _ & _ & Hp) Hl. unfold addr. rewrite <- app_assoc. cbn [app].
  split_and!; [by apply find_char|apply substr_head|].
  assert (n.1 ++ Byte.x3a :: udec n.2 ++ r = (n.1 ++ [Byte.x3a]) ++ udec n.2 ++ r) as ->
    by (by rewrite <- app_assoc).
  replace (zlen n.1 + 1) with (zlen (n.1 ++ [Byte.x3a])) by zlia.
  pose proof (zlen_udec_bound n.2 ltac:(lia) 5 ltac:(lia) ltac:(lia)).
  apply substr_tail. unfold npos. zlia.
Qed.

(** An address, or an address with the port of the bus. *)
Lemma parse_node_addr n r : plain_node n -> (forall b r', r = b :: r' -> isdigit b = false) ->
  zlen r < INT_MAX -> parse_node_string (addr n ++ r) = Some (Some n).
Proof.
  intros Hn Hr Hl. destruct (addr_fields n r Hn Hl) as (E1 & E2 & E3).
  unfold parse_node_string. rewrite E1, E3. cbn [mbind option_bind]. rewrite E2. cbn [mbind option_bind].
  destruct Hn as (_ & _ & _ & _ & Hp). rewrite atoi_port by done. by destruct n.
Qed.

Lemma parse_slot_range a b : 0 <= a <= INT_MAX -> 0 <= b <= INT_MAX ->
  parse_slot_string (udec a ++ Byte.x2d :: udec b) = Some (a, b).
Proof.
  intros Ha Hb. unfold parse_slot_string. rewrite find_char by (apply not_digit_notin; [done|lia]).
  assert (udec a ++ Byte.x2d :: udec b = (udec a ++ [Byte.x2d]) ++ udec b) as E
    by (by rewrite <- app_assoc).
  rewrite E. replace (zlen (udec a) + 1) with (zlen (udec a ++ [Byte.x2d])) by zlia.
  pose proof (zlen_udec_bound b ltac:(lia) 10 ltac:(lia) ltac:(width_lia)).
  rewrite substr_tail by (unfold npos; zlia). cbn [mbind option_bind].
  rewrite <- E, substr_head. cbn [mbind option_bind].
  rewrite <- (app_nil_r (udec a)), <- (app_nil_r (udec b)) by done. by rewrite !atoi_udec.
Qed.

Lemma parse_slot_single a : 0 <= a <= INT_MAX -> parse_slot_string (udec a) = Some (a, a).
Proof.
  intros Ha. unfold parse_slot_string. rewrite find_no_char by (apply not_digit_notin; [done|lia]).
  rewrite <- (app_nil_r (udec a)). by rewrite atoi_udec.
Qed.

(** A redirection: the last word is the address. *)
Lemma parse_moved_addr w n old : plain_node n -> n.2 <> 0 ->
  zlen n.1 < INT_MAX ->
  parse_moved_string (w ++ Byte.x20 :: addr n) old = Some (true, n).
Proof.
  intros Hn H0 Hl. pose proof Hn as (H1 & _ & H3 & _ & Hp). unfold parse_moved_string.
  assert (Byte.x20 ∉ addr n) as Hs.
  { unfold addr. rewrite not_elem_of_app, not_elem_of_cons. split_and!; [done|done|].
    apply not_digit_notin; [done|lia]. }
  rewrite rfind_char by done.
  pose proof (zlen_udec_bound n.2 ltac:(lia) 5 ltac:(lia) ltac:(lia)).
  assert (w ++ Byte.x20 :: addr n = (w ++ [Byte.x20]) ++ addr n) as -> by (by rewrite <- app_assoc).
  replace (zlen w + 1) with (zlen (w ++ [Byte.x20])) by zlia.
  rewrite substr_tail by (unfold npos, addr; zlia). cbn [mbind option_bind].
  destruct (addr_fields n [] Hn ltac:(done)) as (E1 & E2 & E3). rewrite !app_nil_r in E1, E2, E3.
  rewrite E1, E2. cbn [mbind option_bind]. rewrite E3. cbn [mbind option_bind].
  rewrite atoi_port by done.
  cbn [snd]. rewrite (proj2 (Z.eqb_neq _ _)) by done. by destruct n.
Qed.

(** ** Lists of nodes *)

Lemma addr_no c n : c ∉ n.1 -> c <> Byte.x3a -> isdigit c = false -> 0 <= n.2 -> c ∉ addr n.
Proof.
  intros H1 H2 H3 H4. unfold addr. rewrite not_elem_of_app, not_elem_of_cons.
  split_and!; [done|done|by apply not_digit_notin].
Qed.

(** What one turn of the loop adds for an address. *)
Lemma parse_nodes_item n nodes : plain_node n ->
  match find (addr n) Byte.x3a 0 with
  | Some colon_pos =>
      ip_str ← substr (addr n) 0 colon_pos;
      port_str ← substr (addr n) (colon_pos + 1) npos;
      Some (nodes ++ [(ip_str, u16 (atoi port_str))])
  | None => Some nodes
  end = Some (nodes ++ [n]).
Proof.
  intros Hn. destruct (addr_fields n [] Hn ltac:(done)) as (E1 & E2 & E3).
  rewrite !app_nil_r in E1, E2. rewrite (app_nil_r (addr n)) in E3.
  rewrite E1, E2. cbn [mbind option_bind]. rewrite E3. cbn [mbind option_bind].
  destruct Hn as (_ & _ & _ & _ & Hp). rewrite atoi_port by done. by destruct n.
Qed.

(** The texts separated by [c]. *)
Fixpoint join (c : byte) (l : list bytes) : bytes :=
  match l with
  | [] => []
  | [t] => t
  | t :: l => t ++ c :: join c l
  end.

Lemma zlen_addr_pos n : 1 <= zlen (addr n).
Proof. unfold addr. zlia. Qed.

Lemma parse_nodes_loop_spec ns : forall n nodes p fuel,
  Forall plain_node (n :: ns) -> (length ns < fuel)%nat ->
  zlen (p ++ join Byte.x2c (addr <$> n :: ns)) < INT_MAX ->
  parse_nodes_loop fuel nodes (p ++ join Byte.x2c (addr <$> n :: ns)) (zlen p)
  = Some (nodes ++ n :: ns).
Proof.
  induction ns as [|n' ns IH]; intros n nodes p fuel Hns Hf Hl; apply Forall_cons in Hns as [Hn Hns];
    (destruct fuel as [|fuel]; [simpl in Hf; lia|]);
    pose proof Hn as (_ & Hc & _ & _ & Hp); pose proof (zlen_addr_pos n); pose proof (zlen_nonneg p);
    assert (Byte.x2c ∉ addr n) as Hca by (by apply addr_no; try lia).
  - simpl in Hl |- *. rewrite (find_none _ _ p (addr n)) by done.
    rewrite zlen_app in Hl |- *.
    assert (u64 (zlen p + zlen (addr n) - npos) = zlen p + zlen (addr n) + 1) as ->.
    { unfold uw, npos. change (2 ^ 64) with 18446744073709551616.
      replace (zlen p + zlen (addr n) - 18446744073709551615)
        with (zlen p + zlen (addr n) + 1 + -1 * 18446744073709551616) by lia.
      rewrite Z.mod_add by lia. apply Z.mod_small. width_lia. }
    rewrite (proj2 (Z.ltb_lt _ _)) by lia. rewrite substr_tail by lia. cbn [mbind option_bind].
    by rewrite parse_nodes_item.
  - change (join Byte.x2c (addr <$> n :: n' :: ns))
      with (addr n ++ Byte.x2c :: join Byte.x2c (addr <$> n' :: ns)) in *.
    set (rest := join Byte.x2c (addr <$> n' :: ns)) in *.
    cbn [parse_nodes_loop]. rewrite (find_mid _ _ p (addr n) rest) by done.
    rewrite zlen_app, zlen_app, zlen_cons in Hl. pose proof (zlen_nonneg rest).
    replace (zlen p + zlen (addr n) - zlen p) with (zlen (addr n)) by lia.
    rewrite u64_small, (proj2 (Z.ltb_lt _ _)) by width_lia. rewrite substr_mid. cbn [mbind option_bind].
    rewrite parse_nodes_item by done. cbn [mbind option_bind].
    assert (p ++ addr n ++ Byte.x2c :: rest = (p ++ addr n ++ [Byte.x2c]) ++ rest) as ->
      by (by rewrite <- !app_assoc).
    replace (zlen p + zlen (addr n) + 1) with (zlen (p ++ addr n ++ [Byte.x2c])) by zlia.
    subst rest. rewrite IH; [by rewrite <- app_assoc|done|simpl in Hf; lia|zlia].
Qed.

Lemma length_join c l : (length l <= S (length (join c l)))%nat.
Proof.
  induction l as [|t [|t' l] IH]; simpl; [lia|lia|]. simpl in IH. rewrite length_app. simpl. lia.
Qed.

(** A node list is read back. *)
Lemma parse_nodes_join ns : Forall plain_node ns -> zlen (join Byte.x2c (addr <$> ns)) < INT_MAX ->
  parse_nodes [] (join Byte.x2c (addr <$> ns)) = Some (zlen ns, ns).
Proof.
  intros Hns Hl. unfold parse_nodes. destruct ns as [|n ns]; [done|].
  pose proof (length_join Byte.x2c (addr <$> n :: ns)) as Hj. rewrite length_fmap in Hj. simpl in Hj.
  rewrite (parse_nodes_loop_spec ns n [] []); [|done|simpl; lia|done].
  cbn [mbind option_bind app]. rewrite s32_small; [done|]. unfold zlen in *. simpl in *. width_lia.
Qed.

End nodes.

(** ** [split] *)

Lemma split_tokens_join c l : forall t tokens fuel,
  Forall (fun t => c ∉ t) (t :: l) -> (length l < fuel)%nat -> zlen (join c (t :: l)) < INT_MAX ->
  split_tokens fuel tokens (join c (t :: l)) [c] false = Some (tokens ++ t :: l).
Proof.
  induction l as [|t' l IH]; intros t tokens fuel Ht Hf Hl; apply Forall_cons in Ht as [Hc Ht];
    (destruct fuel as [|fuel]; [simpl in Hf; lia|]).
  - simpl in Hl |- *. rewrite find_str_no_char by done. cbn [pos_val default from_option].
    assert (substr t 0 npos = Some t) as -> by (apply (substr_tail [] t npos); unfold npos; width_lia).
    done.
  - change (join c (t :: t' :: l)) with (t ++ c :: join c (t' :: l)) in *.
    set (rest := join c (t' :: l)) in *. cbn [split_tokens].
    rewrite find_str_char by done. cbn [pos_val default from_option id].
    rewrite substr_head. cbn [mbind option_bind].
    assert (t ++ c :: rest = (t ++ [c]) ++ rest) as -> by (by rewrite <- app_assoc).
    replace (zlen t + zlen [c]) with (zlen (t ++ [c])) by zlia.
    rewrite zlen_app, zlen_cons in Hl. pose proof (zlen_nonneg t).
    rewrite substr_tail by (unfold npos; width_lia). cbn [mbind option_bind].
    subst rest. rewrite IH; [by rewrite <- app_assoc|done|simpl in Hf; lia|lia].
Qed.

Lemma split_join_char c l : Forall (fun t => c ∉ t) l -> join c l <> [] -> zlen (join c l) < INT_MAX ->
  split [] (join c l) [c] false = Some (zlen l, l).
Proof.
  intros Hl Hn Hj. unfold split. rewrite bool_decide_false by done. rewrite bool_decide_true by done.
  destruct l as [|t l]; [done|]. pose proof (length_join c (t :: l)) as Hle. simpl in Hle.
  rewrite split_tokens_join; [|done|simpl; lia|done]. cbn [mbind option_bind app].
  rewrite s32_small; [done|]. unfold zlen in *. simpl in *. width_lia.
Qed.

(** Splitting the empty text gives no token. *)
Lemma split_nil sep : sep <> [] -> split [] [] sep false = Some (0, []).
Proof. intros Hs. unfold split. by rewrite bool_decide_false by done. Qed.
