(* ===== verification/ClusterNodes.v ===== *)
(** * The data of the cluster client (r3c/r3c.h, r3c/r3c.cpp)

    Errors, the arguments of a command, what [CLUSTER NODES] says of a node,
    and the reading of its text.  The message [errmsg] of an error is its
    [raw_errmsg] behind a prefix with the place in the source; it is for
    people and not modelled, like the log. *)

From Stdlib Require Import Strings.Byte String.
From S2P Require Import Prelude CLib StdString ClusterText.

(** [format_string] on the text the format stands for.  [vsnprintf] cuts the
    text to the 4096 bytes of the first buffer, NUL included, and the test of
    its result does not see that when the text has 4096 bytes. *)
Definition format_string (text : bytes) : bytes :=
  if zlen text =? 4096 then ztake 4095 text ++ [NUL] else text.

(** ** Errors *)

Definition ERROR_PARAMETER : Z := -1.
Definition ERROR_INIT_REDIS_CONN : Z := -2.
Definition ERROR_COMMAND : Z := -3.
Definition ERROR_NOT_SUPPORT : Z := -6.
Definition ERROR_UNKNOWN_REPLY_TYPE : Z := -9.
Definition ERROR_ZERO_KEY : Z := -12.
Definition ERROR_REDIS_CONTEXT : Z := -13.
Definition ERROR_REDIS_AUTH : Z := -14.
Definition ERROR_UNEXCEPTED_REPLY_TYPE : Z := -15.
Definition ERROR_REPLY_FORMAT : Z := -16.
Definition ERROR_REDIS_READONLY : Z := -17.
Definition ERROR_NO_ANY_NODE : Z := -18.

Record ErrorInfo := Error { raw_errmsg : bytes; errtype : bytes; errcode : Z }.

(** The constructor, and [clear]. *)
Definition no_error : ErrorInfo := Error [] [] 0.

Definition set_error (code : Z) (raw : bytes) (e : ErrorInfo) : ErrorInfo := Error raw (errtype e) code.
Definition set_errtype (ty : bytes) (e : ErrorInfo) : ErrorInfo := Error (raw_errmsg e) ty (errcode e).

(** What an exception carries. *)
Record CRedisException := Exception {
  x_errinfo : ErrorInfo;
  x_node : Node;
  x_command : bytes;
  x_key : bytes
}.

Definition is_error (name errtype : bytes) : bool :=
  (zlen errtype =? zlen name) && bool_decide (errtype = name).
Definition is_ask_error : bytes -> bool := is_error (bs "ASK").
Definition is_clusterdown_error : bytes -> bool := is_error (bs "CLUSTERDOWN").
Definition is_moved_error : bytes -> bool := is_error (bs "MOVED").
Definition is_noauth_error : bytes -> bool := is_error (bs "NOAUTH").
Definition is_noscript_error : bytes -> bool := is_error (bs "NOSCRIPT").
Definition is_wrongtype_error : bytes -> bool := is_error (bs "WRONGTYPE").
Definition is_busygroup_error : bytes -> bool := is_error (bs "BUSYGROUP").
Definition is_nogroup_error : bytes -> bool := is_error (bs "NOGROUP").
Definition is_crossslot_error : bytes -> bool := is_error (bs "CROSSSLOT").

(** The type of an error reply with [len] and [str]: its first word, when it
    has three letters or more and starts with three capitals; otherwise
    [errtype] is left as it is.  [str] is [None] when it is [NULL]. *)
Definition extract_errtype (len : Z) (str : option bytes) (errtype : bytes) : option bytes :=
  if 2 <? len then
    str ← str;
    match find (cstr str) Byte.x20 0 with
    | Some p =>
        if (2 <? p) && forallb isupper (take 3 str) then Some (ztake p str) else Some errtype
    | None => Some errtype
    end
  else Some errtype.

(** The divisor is the first element of the table, not its size. *)
Definition sleep_milliseconds_table : list Z := [10; 100; 200; 500; 1000].
Definition get_retry_sleep_milliseconds (loop_counter : Z) : option Z :=
  let limit := 4 * zlen sleep_milliseconds_table / 10 - 1 in
  if (loop_counter <? 0) || (limit <=? loop_counter) then Some 1000
  else zget sleep_milliseconds_table loop_counter.

(** ** The arguments of a command *)

Record CommandArgs := Args {
  a_key : bytes;
  a_command : bytes;
  a_args : list bytes;
  a_argc : Z;
  a_argv : list bytes;        (* each with a NUL at the end *)
  a_argvlen : list Z
}.

(** The constructor. *)
Definition new_args : CommandArgs := Args [] [] [] 0 [] [].

Definition set_key (key : bytes) (a : CommandArgs) : CommandArgs :=
  Args key (a_command a) (a_args a) (a_argc a) (a_argv a) (a_argvlen a).
Definition set_command (command : bytes) (a : CommandArgs) : CommandArgs :=
  Args (a_key a) command (a_args a) (a_argc a) (a_argv a) (a_argvlen a).
Definition add_arg (arg : bytes) (a : CommandArgs) : CommandArgs :=
  Args (a_key a) (a_command a) (a_args a ++ [arg]) (a_argc a) (a_argv a) (a_argvlen a).

(** The overloads for numbers. *)
Definition add_arg_i32 (n : Z) (a : CommandArgs) : option CommandArgs :=
  s ← int2string_i32 n; Some (add_arg s a).
Definition add_arg_u32 (n : Z) (a : CommandArgs) : option CommandArgs :=
  s ← int2string_u32 n; Some (add_arg s a).
Definition add_arg_i64 (n : Z) (a : CommandArgs) : option CommandArgs :=
  s ← int2string n; Some (add_arg s a).

(** The overloads of [add_args]: strings, then pairs; a map is the list of its
    pairs in the order of its keys. *)
Definition add_args (args : list bytes) (a : CommandArgs) : CommandArgs :=
  fold_left (fun a arg => add_arg arg a) args a.
Definition add_args_pairs (values : list (bytes * bytes)) (a : CommandArgs) : CommandArgs :=
  fold_left (fun a '(field, value) => add_arg value (add_arg field a)) values a.
Fixpoint add_args_scores (map : list (bytes * Z)) (reverse : bool) (a : CommandArgs) :
    option CommandArgs :=
  match map with
  | [] => Some a
  | (k, v) :: map =>
      a ← (if negb reverse then add_arg_i64 v (add_arg k a) else a ← add_arg_i64 v a; Some (add_arg k a));
      add_args_scores map reverse a
  end.

Definition final (a : CommandArgs) : CommandArgs :=
  Args (a_key a) (a_command a) (a_args a) (s32 (zlen (a_args a)))
    ((fun arg => arg ++ [NUL]) <$> a_args a) (zlen <$> a_args a).

(** ** Nodes *)

Record NodeInfo := Info {
  n_node : Node;
  n_id : bytes;
  n_flags : bytes;
  n_master_id : bytes;
  n_ping_sent : Z;
  n_pong_recv : Z;
  n_epoch : Z;
  n_connected : bool;
  n_slots : list (Z * Z)      (* first and last slot *)
}.

Definition has_word (word flags : bytes) : bool :=
  match find_str flags word with Some _ => true | None => false end.
Definition is_master (n : NodeInfo) : bool := has_word (bs "master") (n_flags n).
Definition is_replica (n : NodeInfo) : bool := has_word (bs "slave") (n_flags n).
Definition is_fail (n : NodeInfo) : bool := has_word (bs "fail") (n_flags n).

Section nodes.
Context {dm : DataModel}.

(** The slots of the tokens, without the ones that are migrating. *)
Fixpoint parse_slots (tokens : list bytes) : option (list (Z * Z)) :=
  match tokens with
  | [] => Some []
  | token :: tokens =>
      if bool_decide (head token = Some Byte.x5b) then parse_slots tokens else
      slot ← parse_slot_string token;
      slots ← parse_slots tokens;
      Some (slot :: slots)
  end.

(** One line with at least eight tokens; [None] inside for a bad address. *)
Definition parse_node_line (tokens : list bytes) : option (option NodeInfo) :=
  match tokens with
  | id :: address :: flags :: master_id :: ping :: pong :: epoch :: state :: slots =>
      node ← parse_node_string address;
      match node with
      | None => Some None
      | Some node =>
          let info := Info node id flags master_id (atoi ping) (atoi pong) (atoi epoch)
                        (bool_decide (state = bs "connected")) in
          if is_master (info []) && negb (is_fail (info []))
          then slots ← parse_slots slots; Some (Some (info slots))
          else Some (Some (info []))
      end
  | _ => None
  end.

(** The loop over the lines: the nodes and the error. *)
Fixpoint parse_node_lines (lines : list bytes) (nodes_info : list NodeInfo) (e : ErrorInfo) :
    option (list NodeInfo * ErrorInfo) :=
  match lines with
  | [] => Some (nodes_info, e)
  | line :: lines =>
      r ← split [] line (bs " ") false;
      let '(num_tokens, tokens) := r in
      if num_tokens =? 0 then Some (nodes_info, no_error)
      else if num_tokens <? 8 then Some ([], set_error ERROR_REPLY_FORMAT (bs "reply format error") e)
      else
        n ← parse_node_line tokens;
        match n with
        | None => Some ([], set_error ERROR_REPLY_FORMAT (bs "reply format error") e)
        | Some nodeinfo => parse_node_lines lines (nodes_info ++ [nodeinfo]) e
        end
  end.

(** The text of the reply of [CLUSTER NODES]. *)
Definition parse_cluster_nodes (text : bytes) (nodes_info : list NodeInfo) (e : ErrorInfo) :
    option (list NodeInfo * ErrorInfo) :=
  r ← split [] text [LF] false;
  let '(num_lines, lines) := r in
  let e := if num_lines <? 1 then set_error ERROR_REPLY_FORMAT (bs "reply nothing") e else e in
  parse_node_lines lines nodes_info e.

End nodes.
