(* ===== verification/SlotTheorems.v ===== *)
(** * r3c: properties of the slots and texts

    The slot of a key, the checksums, numbers, addresses, redirections, and the
    text of a topology. *)

From Stdlib Require Import Strings.Byte String.
From S2P Require Import Prelude CLib Read Slots StdString ClusterText ClusterTextFacts ClusterNodes.
From S2P Require Import Concrete.

#[local] Existing Instance lp64.

(** [long] has 64 bits here. *)
Lemma lp64_wide : LP64.
Proof. done. Qed.

(** C28: The slot of a key is the CRC16 of its hash tag, the part between the
    first braces or else the whole key, modulo 16384: [keyHashSlot] computes it
    for every key, and keys with the same tag have the same slot. *)
Theorem slot_of_key key :
  zlen key <= INT_MAX ->
  keyHashSlot key (zlen key) = Some (crc16_ref (hash_tag key) mod 16384) /\
  forall a t b, key = a ++ Byte.x7b :: t ++ Byte.x7d :: b ->
    Byte.x7b ∉ a -> Byte.x7d ∉ t -> t <> [] ->
    keyHashSlot key (zlen key) = Some (crc16_ref t mod 16384).
Proof.
  intros Hk. rewrite keyHashSlot_exact by done. split; [done|]. intros a t b -> Ha Ht Hn.
  unfold key_slot. by rewrite hash_tag_braces.
Qed.

Lemma slot_of_key_witness :
  let key := bs "user:{42}:name" in
  keyHashSlot key (zlen key) = Some (crc16_ref (hash_tag key) mod 16384) /\
  forall a t b, key = a ++ Byte.x7b :: t ++ Byte.x7d :: b ->
    Byte.x7b ∉ a -> Byte.x7d ∉ t -> t <> [] ->
    keyHashSlot key (zlen key) = Some (crc16_ref t mod 16384).
Proof. intros key. apply (slot_of_key key). vm_compute. discriminate. Defined.

Example slot_foo : keyHashSlot (bs "foo") 3 = Some 12182.
Proof. vm_compute. reflexivity. Qed.

Lemma crossslots_loop_spec {W} {rnd : Random W} first keys (w : W) :
  Forall (fun k => k <> [] /\ zlen k <= INT_MAX) keys ->
  exists b, crossslots_loop first keys w = Some (b, w) /\
    (b = true <-> exists k, k ∈ keys /\ key_slot k <> first).
Proof.
  induction keys as [|k keys IH]; intros Hk; simpl.
  - exists false. split; [done|]. split; [done|]. by intros (k & ?%elem_of_nil & _).
  - apply Forall_cons in Hk as [[Hn Hl] Hk]. rewrite bool_decide_true by done.
    rewrite keyHashSlot_exact by done. cbn [mbind option_bind].
    destruct (Z.eqb_spec (key_slot k) first) as [E|E]; cbn [negb].
    + destruct (IH Hk) as (b & -> & Hb). exists b. split; [done|]. rewrite Hb.
      setoid_rewrite elem_of_cons. naive_solver.
    + exists true. split; [done|]. split; [|done]. intros _. exists k. split; [left|done].
Qed.

(** [keys_crossslots] says whether two of the keys have different slots. *)
Theorem crossslots_exact W (rnd : Random W) keys (w : W) :
  Forall (fun k => k <> [] /\ zlen k <= INT_MAX) keys ->
  exists b, keys_crossslots keys w = Some (b, w) /\
    (b = true <-> exists k k', k ∈ keys /\ k' ∈ keys /\ key_slot k <> key_slot k').
Proof.
  intros Hk. destruct keys as [|k keys]; simpl.
  { exists false. split; [done|]. split; [done|]. by intros (? & ? & ?%elem_of_nil & _). }
  apply Forall_cons in Hk as [[Hn Hl] Hk]. rewrite bool_decide_true by done.
  rewrite keyHashSlot_exact by done. cbn [mbind option_bind].
  destruct (crossslots_loop_spec (key_slot k) keys w Hk) as (b & -> & Hb). exists b. split; [done|].
  rewrite Hb. split.
  - intros (k' & Hin & Hne). exists k', k. split; [by right|]. split; [left|done].
  - intros (k1 & k2 & H1 & H2 & Hne).
    destruct (decide (key_slot k1 = key_slot k)) as [E|E].
    + exists k2. apply elem_of_cons in H2 as [->|H2]; [congruence|]. split; [done|congruence].
    + exists k1. apply elem_of_cons in H1 as [->|H1]; [congruence|done].
Qed.

#[local] Instance still_clock : Random unit := { time w := (0, w); mt19937 s := s }.

Lemma crossslots_exact_witness :
  exists b, keys_crossslots [bs "a{x}"; bs "b{x}"; bs "c"] tt = Some (b, tt) /\
    (b = true <-> exists k k', k ∈ [bs "a{x}"; bs "b{x}"; bs "c"] /\ k' ∈ [bs "a{x}"; bs "b{x}"; bs "c"] /\
       key_slot k <> key_slot k').
Proof.
  apply (crossslots_exact unit still_clock).
  repeat (apply Forall_cons; split; [split; [discriminate|vm_compute; discriminate]|]). apply Forall_nil. done.
Defined.

(** The table-driven [crc16] and [crc64] are the bit-serial CRC16/XMODEM
    and CRC64/Jones of the bytes, for every input. *)
Theorem checksums_exact crc m r :
  crc16 (m ++ r) (zlen m) = Some (crc16_ref m) /\ crc64 crc (m ++ r) (zlen m) = Some (crc64_ref crc m).
Proof. split; [apply crc16_exact|apply crc64_exact]. Qed.

Example checksums_check :
  crc16 (bs "123456789") 9 = Some 0x31C3 /\ crc64 0 (bs "123456789") 9 = Some 0xE9C6D914C4B8D9CA.
Proof. vm_compute. split; reflexivity. Qed.

(** A 64-bit number written by [int2string] is its decimal numeral, and is
    read back by [string2int], but for the smallest one, whose negation
    overflows; and nothing but these numerals is read. *)
Theorem number_roundtrip n err :
  LLONG_MIN <= n <= LLONG_MAX ->
  exists s, int2string n = Some s /\ s = dec n /\
    string2int s err = (if n =? LLONG_MIN then None else Some (true, n)) /\
    forall s' v, string2int s' err = Some (true, v) <-> s' = dec v /\ LLONG_MIN < v <= LLONG_MAX.
Proof.
  intros Hn. exists (dec n). split; [by apply int2string_dec|]. split; [done|].
  assert (forall s' v, string2int s' err = Some (true, v) <-> string2ll s' = Some (Some v)) as Hs.
  { intros s' v. unfold string2int. destruct (string2ll s') as [[w|]|]; simpl; split; congruence. }
  split; [|intros s' v; rewrite Hs; apply string2ll_exact].
  destruct (Z.eqb_spec n LLONG_MIN) as [->|]; [vm_compute; done|].
  apply Hs, string2ll_exact. split; [done|]. lia.
Qed.

Lemma number_roundtrip_witness : exists s, int2string (-907) = Some s /\ s = dec (-907) /\
    string2int s 0 = (if -907 =? LLONG_MIN then None else Some (true, -907)) /\
    forall s' v, string2int s' 0 = Some (true, v) <-> s' = dec v /\ LLONG_MIN < v <= LLONG_MAX.
Proof. apply (number_roundtrip (-907) 0). unfold LLONG_MIN, LLONG_MAX. lia. Defined.

(** A list of nodes, each written by [node2string], with commas between, is
    read back by [parse_nodes] as that list, and its address is what
    [parse_node_string] reads, also when the bus port follows. *)
Theorem nodes_roundtrip ns :
  Forall plain_node ns -> zlen (join Byte.x2c (addr <$> ns)) < INT_MAX ->
  mapM node2string ns = Some (addr <$> ns) /\
  parse_nodes [] (join Byte.x2c (addr <$> ns)) = Some (zlen ns, ns) /\
  forall n bus, n ∈ ns -> zlen (Byte.x40 :: bus) < INT_MAX ->
    parse_node_string (addr n ++ Byte.x40 :: bus) = Some (Some n).
Proof.
  intros Hns Hl. split; [|split; [by apply (parse_nodes_join lp64_wide)|]].
  - clear Hl. induction Hns as [|n ns Hn Hns IH]; [done|]. simpl.
    rewrite node2string_addr by apply Hn. cbn [mbind option_bind]. by rewrite IH.
  - intros n bus Hn Hb. rewrite Forall_forall in Hns.
    apply (parse_node_addr lp64_wide); [by apply Hns|by intros b r' [= <- _]|done].
Qed.

Ltac no_char := let H := fresh in
  intros H; vm_compute in H; repeat (apply elem_of_cons in H as [H|H]; [discriminate H|]);
  by apply elem_of_nil in H.

Lemma nodes_roundtrip_witness :
  let ns := [(bs "10.0.0.1", 6379); (bs "redis-2", 7000)] in
  mapM node2string ns = Some (addr <$> ns) /\
  parse_nodes [] (join Byte.x2c (addr <$> ns)) = Some (zlen ns, ns) /\
  forall n bus, n ∈ ns -> zlen (Byte.x40 :: bus) < INT_MAX ->
    parse_node_string (addr n ++ Byte.x40 :: bus) = Some (Some n).
Proof.
  intros ns. apply (nodes_roundtrip ns).
  - repeat (apply Forall_cons; split; [split_and!; [no_char|no_char|no_char|no_char|simpl; lia|simpl; lia]|]).
    by apply Forall_nil.
  - vm_compute. reflexivity.
Defined.

(** The address at the end of a redirection, MOVED or ASK, is read back,
    whatever the words before it. *)
Theorem redirection_roundtrip words n old :
  plain_node n -> n.2 <> 0 -> zlen n.1 < INT_MAX ->
  parse_moved_string (words ++ Byte.x20 :: addr n) old = Some (true, n).
Proof. apply (parse_moved_addr lp64_wide). Qed.

Lemma redirection_roundtrip_witness :
  parse_moved_string (bs "MOVED 3999" ++ Byte.x20 :: addr (bs "127.0.0.1", 6381)) ([], 0)
  = Some (true, (bs "127.0.0.1", 6381)).
Proof.
  apply (redirection_roundtrip (bs "MOVED 3999") (bs "127.0.0.1", 6381) ([], 0)).
  - split_and!; [no_char|no_char|no_char|no_char|simpl; lia|simpl; lia].
  - discriminate.
  - vm_compute. reflexivity.
Defined.

(** ** The text of a topology *)

(** The words of the line of a node: [bus] follows the address, [moving] are
    the slots on the move. *)
Definition slot_word (x : Z * Z) : bytes :=
  if x.1 =? x.2 then udec x.1 else udec x.1 ++ Byte.x2d :: udec x.2.
Definition node_words (n : NodeInfo) (bus : bytes) (moving : list bytes) : list bytes :=
  [n_id n; addr (n_node n) ++ bus; n_flags n; n_master_id n; udec (n_ping_sent n); udec (n_pong_recv n);
   udec (n_epoch n); if n_connected n then bs "connected" else bs "disconnected"]
  ++ (slot_word <$> n_slots n) ++ moving.

Definition word_ok (w : bytes) : Prop := Byte.x20 ∉ w /\ LF ∉ w.
Definition int_ok (n : Z) : Prop := 0 <= n <= INT_MAX.

(** What a line can say of a node. *)
Record line_ok (n : NodeInfo) (bus : bytes) (moving : list bytes) : Prop := {
  lo_node : plain_node (n_node n);
  lo_bus : zlen bus < INT_MAX /\ (forall b r, bus = b :: r -> isdigit b = false);
  lo_words : Forall word_ok ([n_id n; bus; n_flags n; n_master_id n] ++ moving);
  lo_ints : int_ok (n_ping_sent n) /\ int_ok (n_pong_recv n) /\ int_ok (n_epoch n);
  lo_slots : Forall (fun x => int_ok x.1 /\ int_ok x.2) (n_slots n);
  lo_moving : Forall (fun w => head w = Some Byte.x5b) moving;
  lo_serving : is_master n && negb (is_fail n) = false -> n_slots n = []
}.

Lemma parse_slot_word x : int_ok x.1 -> int_ok x.2 ->
  parse_slot_string (slot_word x) = Some x /\ head (slot_word x) <> Some Byte.x5b.
Proof.
  intros H1 H2. destruct x as [a b]. unfold slot_word. cbn [fst snd] in *.
  destruct (udec_head a) as (d & r & Ec & Hd & _); [apply H1|].
  assert (digit d <> Byte.x5b) as Hc by (intros E; pose proof (isdigit_digit d Hd) as Hi; by rewrite E in Hi).
  destruct (Z.eqb_spec a b) as [<-|].
  - rewrite (parse_slot_single lp64_wide) by done. split; [done|]. rewrite Ec. by intros [= ?].
  - rewrite (parse_slot_range lp64_wide) by done. split; [done|]. rewrite Ec. by intros [= ?].
Qed.

Lemma parse_slots_words slots moving :
  Forall (fun x => int_ok x.1 /\ int_ok x.2) slots -> Forall (fun w => head w = Some Byte.x5b) moving ->
  parse_slots ((slot_word <$> slots) ++ moving) = Some slots.
Proof.
  intros Hs Hm. induction Hs as [|x slots [H1 H2] Hs IH].
  - induction Hm as [|w moving Hw Hm IH]; simpl; [done|]. by rewrite bool_decide_true.
  - destruct (parse_slot_word x H1 H2) as [E Hh]. rewrite fmap_cons. cbn [app parse_slots]. rewrite bool_decide_false by done.
    rewrite E. cbn [mbind option_bind]. by rewrite IH.
Qed.

Lemma atoi_int n : int_ok n -> atoi (udec n) = n.
Proof. intros Hn. rewrite <- (app_nil_r (udec n)). by apply (atoi_udec n []). Qed.

Lemma parse_node_words n bus moving : line_ok n bus moving ->
  parse_node_line (node_words n bus moving) = Some (Some n).
Proof.
  intros [Hn [Hb Hd] Hw (H1 & H2 & H3) Hs Hm Hsv]. unfold node_words, parse_node_line. cbn [app].
  rewrite (parse_node_addr lp64_wide) by done. cbn [mbind option_bind]. rewrite !atoi_int by done.
  assert (bool_decide ((if n_connected n then bs "connected" else bs "disconnected") = bs "connected")
    = n_connected n) as -> by (destruct (n_connected n); vm_compute; done).
  unfold is_master, is_fail in *. cbn [n_flags].
  destruct (has_word (bs "master") (n_flags n) && negb (has_word (bs "fail") (n_flags n))).
  - rewrite parse_slots_words by done. cbn [mbind option_bind]. by destruct n.
  - rewrite <- Hsv by done. by destruct n.
Qed.

(** A line, and the text of the nodes with a line end after each. *)
Definition node_line (x : NodeInfo * (bytes * list bytes)) : bytes :=
  join Byte.x20 (node_words x.1 x.2.1 x.2.2).
Definition topology_text (nodes : list (NodeInfo * (bytes * list bytes))) : bytes :=
  join LF ((node_line <$> nodes) ++ [[]]).

Lemma digits_word v : 0 <= v -> word_ok (udec v).
Proof. intros. split; by apply not_digit_notin. Qed.

Lemma word_app a b : word_ok a -> word_ok b -> word_ok (a ++ b).
Proof. intros [] []. split; by apply not_elem_of_app. Qed.

Lemma node_words_ok n bus moving : line_ok n bus moving -> Forall word_ok (node_words n bus moving).
Proof.
  intros [Hn _ Hw (H1 & H2 & H3) Hs _ _]. unfold node_words.
  apply Forall_app in Hw as [Hw Hm]. do 4 (apply Forall_cons in Hw as [? Hw]).
  repeat (apply Forall_cons; split; [first
    [ done | apply digits_word; first [apply H1|apply H2|apply H3]
    | apply word_app; [split; apply addr_no; first [done|apply Hn]|done]
    | destruct (n_connected n); split; no_char ]|]).
  apply Forall_app. split; [|done]. apply Forall_fmap. eapply Forall_impl; [exact Hs|].
  intros [a b] [Ha Hb]. cbn [fst snd] in *. unfold slot_word, compose. cbn [fst snd].
  destruct (a =? b); [apply digits_word, Ha|].
  change (Byte.x2d :: udec b) with ([Byte.x2d] ++ udec b).
  apply word_app; [apply digits_word, Ha|apply word_app; [split; no_char|apply digits_word, Hb]].
Qed.

Lemma join_no c d l : c <> d -> Forall (fun t => c ∉ t) l -> c ∉ join d l.
Proof.
  intros Hcd. induction 1 as [|t l Ht Hl IH]; [apply not_elem_of_nil|]. simpl.
  destruct l; [done|]. rewrite not_elem_of_app, not_elem_of_cons. done.
Qed.

(** One line: it is split into its words. *)
Lemma split_node_line n bus moving : line_ok n bus moving ->
  zlen (node_line (n, (bus, moving))) < INT_MAX ->
  LF ∉ node_line (n, (bus, moving)) /\
  split [] (node_line (n, (bus, moving))) (bs " ") false
    = Some (zlen (node_words n bus moving), node_words n bus moving).
Proof.
  intros H Hl. pose proof (node_words_ok _ _ _ H) as Hw. unfold node_line in *. cbn [fst snd] in *.
  split.
  - apply join_no; [done|]. eapply Forall_impl; [exact Hw|]. by intros w [].
  - apply (split_join_char Byte.x20); [|unfold node_words; cbn; by destruct (n_id n)|done].
    eapply Forall_impl; [exact Hw|]. by intros w [].
Qed.

Lemma parse_lines_spec nodes : forall acc e,
  Forall (fun x => line_ok x.1 x.2.1 x.2.2 /\ zlen (node_line x) < INT_MAX) nodes ->
  parse_node_lines ((node_line <$> nodes) ++ [[]]) acc e = Some (acc ++ nodes.*1, no_error).
Proof.
  induction nodes as [|[n [bus moving]] nodes IH]; intros acc e Hx.
  - cbn. by rewrite app_nil_r.
  - apply Forall_cons in Hx as [[Hx Hl] Hxs]. rewrite !fmap_cons. cbn [app parse_node_lines fst snd] in *.
    destruct (split_node_line n bus moving Hx Hl) as [_ ->]. cbn [mbind option_bind].
    assert (8 <= zlen (node_words n bus moving)) as H8
      by (unfold node_words; rewrite zlen_app;
          rewrite !zlen_cons, zlen_nil; zlia).
    rewrite (proj2 (Z.eqb_neq _ 0)), (proj2 (Z.ltb_ge _ 8)) by lia.
    rewrite parse_node_words by done. cbn [mbind option_bind]. rewrite IH by done.
    by rewrite <- app_assoc.
Qed.

Lemma zlen_join_in c t l : t ∈ l -> zlen t <= zlen (join c l).
Proof.
  induction l as [|a l IH]; [by intros ?%elem_of_nil|]. intros [->|Hin]%elem_of_cons; simpl.
  - destruct l; [lia|]. zlia.
  - specialize (IH Hin). destruct l; [by apply elem_of_nil in Hin|]. rewrite zlen_app, zlen_cons.
    pose proof (zlen_nonneg a). lia.
Qed.


Definition some_node (f : bytes) (port : Z) (slots : list (Z * Z)) : NodeInfo :=
  Info (bs "10.0.0.1", port) (bs "07c37df") f (bs "-") 0 1426238317 4 true slots.

