(* ===== verification/Driver.v ===== *)
(** * What the cluster client stands on

    The calls of hiredis and of the system that r3c makes, as an interface
    ([Driver]) over a state [W]; the hash tables of C++ ([UnorderedMap]); the
    state of a [CRedisClient]; and the monad of its code: a computation ends
    with a value or an exception, and is [None] for undefined behaviour or a
    failed assertion. *)

From Stdlib Require Import Strings.Byte String.
From stdpp Require Import gmap.
From S2P Require Import Prelude CLib Read Reply Network Slots StdString ClusterText ClusterNodes.

(** ** Interfaces *)

(** Connections and replies are known by their addresses; a call on an address
    that is not valid is [None].  [redisConnect] and [redisConnectWithTimeout]
    are one function.  A reply is read through its fields. *)
Class Driver {fl : FloatLib} (W : Type) := {
  hi_connect : bytes -> Z -> option timeval -> W -> option (option nat * W);
  hi_set_timeout : nat -> timeval -> W -> option (Z * W);
  hi_command : nat -> bytes -> list bytes -> W -> option (option nat * W);
  hi_command_argv : nat -> Z -> list bytes -> list Z -> W -> option (option nat * W);
  hi_free : nat -> W -> option W;
  hi_free_reply : nat -> W -> option W;
  hi_error : nat -> W -> option (Z * bytes);      (* [err] and [errstr] *)
  hi_cell : nat -> W -> option redisReply;
  os_errno : W -> Z;
  os_strerror : Z -> bytes;
  os_sleep : Z -> W -> W;                          (* [millisleep] *)
  os_random :: Random W
}.

(** A table is the list of its entries in the order of iteration; where
    [insert] puts a new key, and how it moves the others, is not specified. *)
Class UnorderedMap := {
  um_place : forall {V : Type}, Node * V -> list (Node * V) -> list (Node * V);
  um_place_perm : forall {V : Type} (x : Node * V) l, um_place x l ≡ₚ x :: l
}.

(** Whether assertions are compiled out, and the address of the client. *)
Class Build := { ndebug : bool; this : Z }.

(** [p != NULL]. *)
Definition isSome {A} (p : option A) : bool := match p with Some _ => true | None => false end.

Section table.
Context {um : UnorderedMap} {V : Type}.
Implicit Types t : list (Node * V).

Definition um_find (k : Node) t : option V :=
  snd <$> head (filter (fun x => x.1 = k) t).

(** [insert]: the table, and whether the key was new. *)
Definition um_insert (k : Node) (v : V) t : list (Node * V) * bool :=
  match um_find k t with Some _ => (t, false) | None => (um_place (k, v) t, true) end.

(** A change of the value of a key. *)
Definition um_update (k : Node) (f : V -> V) t : list (Node * V) :=
  (fun x => if bool_decide (x.1 = k) then (x.1, f x.2) else x) <$> t.

Definition um_erase (k : Node) t : list (Node * V) := filter (fun x => x.1 <> k) t.

End table.

(** ** The state of a client *)

Inductive ReadPolicy := RP_ONLY_MASTER | RP_PRIORITY_MASTER | RP_PRIORITY_REPLICA | RP_READ_REPLICA.

#[global] Instance read_policy_eq_dec : EqDecision ReadPolicy.
Proof. solve_decision. Defined.

Record CRedisNode := RedisNode {
  nd_id : bytes;
  nd_node : Node;
  nd_context : option nat;
  nd_conn_errors : Z          (* unsigned int *)
}.

Record CRedisMasterNode := MasterNode {
  m_self : CRedisNode;
  m_replicas : list (Node * CRedisNode);
  m_index : Z                 (* unsigned int *)
}.

Record CRedisClient := Client {
  c_monitored : bool;         (* [_command_monitor != NULL] *)
  c_raw_nodes_string : bytes;
  c_nodes_string : bytes;
  c_connect_timeout_milliseconds : Z;
  c_readwrite_timeout_milliseconds : Z;
  c_password : bytes;
  c_read_policy : ReadPolicy;
  c_masters : list (Node * CRedisMasterNode);
  c_masters_id : gmap bytes Node;
  c_nodes : list Node;
  c_slot2node : list Node;
  c_hincrby_shastr1 : bytes;
  c_hmincrby_shastr1 : bytes
}.

Definition with_nodes_string s c := Client (c_monitored c) (c_raw_nodes_string c) s
  (c_connect_timeout_milliseconds c) (c_readwrite_timeout_milliseconds c) (c_password c)
  (c_read_policy c) (c_masters c) (c_masters_id c) (c_nodes c) (c_slot2node c)
  (c_hincrby_shastr1 c) (c_hmincrby_shastr1 c).
Definition with_masters m c := Client (c_monitored c) (c_raw_nodes_string c) (c_nodes_string c)
  (c_connect_timeout_milliseconds c) (c_readwrite_timeout_milliseconds c) (c_password c)
  (c_read_policy c) m (c_masters_id c) (c_nodes c) (c_slot2node c)
  (c_hincrby_shastr1 c) (c_hmincrby_shastr1 c).
Definition with_masters_id m c := Client (c_monitored c) (c_raw_nodes_string c) (c_nodes_string c)
  (c_connect_timeout_milliseconds c) (c_readwrite_timeout_milliseconds c) (c_password c)
  (c_read_policy c) (c_masters c) m (c_nodes c) (c_slot2node c)
  (c_hincrby_shastr1 c) (c_hmincrby_shastr1 c).
Definition with_nodes n c := Client (c_monitored c) (c_raw_nodes_string c) (c_nodes_string c)
  (c_connect_timeout_milliseconds c) (c_readwrite_timeout_milliseconds c) (c_password c)
  (c_read_policy c) (c_masters c) (c_masters_id c) n (c_slot2node c)
  (c_hincrby_shastr1 c) (c_hmincrby_shastr1 c).
Definition with_slot2node t c := Client (c_monitored c) (c_raw_nodes_string c) (c_nodes_string c)
  (c_connect_timeout_milliseconds c) (c_readwrite_timeout_milliseconds c) (c_password c)
  (c_read_policy c) (c_masters c) (c_masters_id c) (c_nodes c) t
  (c_hincrby_shastr1 c) (c_hmincrby_shastr1 c).
Definition with_shastr1 s s' c := Client (c_monitored c) (c_raw_nodes_string c) (c_nodes_string c)
  (c_connect_timeout_milliseconds c) (c_readwrite_timeout_milliseconds c) (c_password c)
  (c_read_policy c) (c_masters c) (c_masters_id c) (c_nodes c) (c_slot2node c) s s'.

(** The calls of the command monitor. *)
Inductive monitor_event :=
  | BeforeExecute (node : Node) (command : bytes) (readonly : bool)
  | AfterExecute (result : Z) (node : Node) (command : bytes) (reply : option nat).

(** The client, the [ErrorInfo] that [errinfo] points to, [*which], the calls
    of the monitor, and the state of the driver. *)
Record cstate (W : Type) := CState {
  s_client : CRedisClient;
  s_error : ErrorInfo;
  s_which : Node;
  s_events : list monitor_event;
  s_world : W
}.
Arguments CState {W}. Arguments s_client {W}. Arguments s_error {W}. Arguments s_which {W}.
Arguments s_events {W}. Arguments s_world {W}.

(** ** Computations *)

Inductive outcome (A : Type) := Done (x : A) | Throw (x : CRedisException).
Arguments Done {A}. Arguments Throw {A}.

Definition CM (W A : Type) : Type := cstate W -> option (outcome A * cstate W).

#[global] Instance cm_ret W : MRet (CM W) := fun A x s => Some (Done x, s).
#[global] Instance cm_bind W : MBind (CM W) := fun A B k m s =>
  match m s with
  | Some (Done x, s) => k x s
  | Some (Throw x, s) => Some (Throw x, s)
  | None => None
  end.

Section monad.
Context {fl : FloatLib} {W : Type} {drv : Driver W} {bld : Build}.

Definition throw {A} (x : CRedisException) : CM W A := fun s => Some (Throw x, s).
Definition must {A} (m : option A) : CM W A := fun s => x ← m; Some (Done x, s).

(** [R3C_ASSERT]. *)
Definition r3c_assert (b : bool) : CM W unit := must (if b || ndebug then Some tt else None).

Definition client {A} (f : CRedisClient -> A) : CM W A := fun s => Some (Done (f (s_client s)), s).
Definition upd_client (f : CRedisClient -> CRedisClient) : CM W unit := fun s =>
  Some (Done tt, CState (f (s_client s)) (s_error s) (s_which s) (s_events s) (s_world s)).
Definition get_error : CM W ErrorInfo := fun s => Some (Done (s_error s), s).
Definition upd_error (f : ErrorInfo -> ErrorInfo) : CM W unit := fun s =>
  Some (Done tt, CState (s_client s) (f (s_error s)) (s_which s) (s_events s) (s_world s)).
Definition set_which (n : Node) : CM W unit := fun s =>
  Some (Done tt, CState (s_client s) (s_error s) n (s_events s) (s_world s)).
Definition notify (e : monitor_event) : CM W unit := fun s =>
  Some (Done tt, CState (s_client s) (s_error s) (s_which s)
    (if c_monitored (s_client s) then s_events s ++ [e] else s_events s) (s_world s)).

(** A call of the driver. *)
Definition drive {A} (f : W -> option (A * W)) : CM W A := fun s =>
  r ← f (s_world s);
  Some (Done r.1, CState (s_client s) (s_error s) (s_which s) (s_events s) r.2).
Definition drive_ (f : W -> option W) : CM W unit := drive (fun w => w ← f w; Some (tt, w)).
Definition observe {A} (f : W -> option A) : CM W A := drive (fun w => x ← f w; Some (x, w)).

(** A function with an [ErrorInfo] of its own. *)
Definition local_error {A} (m : CM W A) : CM W A := fun s =>
  r ← m (CState (s_client s) no_error (s_which s) (s_events s) (s_world s));
  let '(x, s') := r in
  Some (x, CState (s_client s') (s_error s) (s_which s') (s_events s') (s_world s')).

(** [try m catch (...) h; throw]. *)
Definition on_throw {A} (m : CM W A) (h : CM W unit) : CM W A := fun s =>
  match m s with
  | Some (Throw x, s) => (h ≫= fun _ => throw x) s
  | r => r
  end.

End monad.
