(* ===== verification/RedisClient.v ===== *)
(** * The cluster client (r3c/r3c.cpp)

    [CRedisClient]: its connections, the table of masters and the slots, and
    [redis_command], which finds the node of a key, sends the command, and
    retries, reconnects, follows redirections and refreshes the table.  A node
    object is named by its place in the tables ([noderef]), since no table
    changes while one is in use. *)

From Stdlib Require Import Strings.Byte String.
From stdpp Require Import gmap.
From S2P Require Import Prelude CLib Read Reply Network Slots StdString ClusterText ClusterNodes Driver.

Definition CLUSTER_SLOTS : Z := 16384.

Inductive noderef := RMaster (n : Node) | RReplica (m r : Node).

Inductive HandleResult :=
  HR_SUCCESS | HR_ERROR | HR_RETRY_COND | HR_RETRY_UNCOND | HR_RECONN_COND | HR_RECONN_UNCOND
  | HR_REDIRECT.

#[global] Instance handle_result_eq_dec : EqDecision HandleResult.
Proof. solve_decision. Defined.

(** ** Nodes *)

Definition new_node (id : bytes) (n : Node) (ctx : option nat) : CRedisNode := RedisNode id n ctx 0.
Definition new_master (id : bytes) (n : Node) (ctx : option nat) : CRedisMasterNode :=
  MasterNode (new_node id n ctx) [] 0.

Definition nd_with_context (c : option nat) (n : CRedisNode) : CRedisNode :=
  RedisNode (nd_id n) (nd_node n) c (nd_conn_errors n).
Definition set_conn_errors (e : Z) (n : CRedisNode) : CRedisNode :=
  RedisNode (nd_id n) (nd_node n) (nd_context n) e.
Definition inc_conn_errors (n : CRedisNode) : CRedisNode := set_conn_errors (u32 (nd_conn_errors n + 1)) n.
Definition reset_conn_errors : CRedisNode -> CRedisNode := set_conn_errors 0.

Definition set_redis_context (c : option nat) (n : CRedisNode) : CRedisNode :=
  let n := nd_with_context c n in if isSome c then n else inc_conn_errors n.

Definition need_refresh_master (n : CRedisNode) : bool :=
  ((3 <? nd_conn_errors n) && (nd_conn_errors n mod 3 =? 0)) || (2018 <? nd_conn_errors n).

Definition node_str (n : CRedisNode) : bytes :=
  format_string (bs "node://(connerrors:" ++ udec (nd_conn_errors n) ++ bs ")" ++
    cstr (nd_node n).1 ++ bs ":" ++ dec (nd_node n).2).

Definition m_with_self (n : CRedisNode) (m : CRedisMasterNode) : CRedisMasterNode :=
  MasterNode n (m_replicas m) (m_index m).
Definition m_with_replicas r (m : CRedisMasterNode) : CRedisMasterNode :=
  MasterNode (m_self m) r (m_index m).
Definition m_with_index i (m : CRedisMasterNode) : CRedisMasterNode :=
  MasterNode (m_self m) (m_replicas m) i.

Definition cluster_mode (c : CRedisClient) : bool := 1 <? zlen (c_nodes c).

Definition get_mode_str (c : CRedisClient) : bytes :=
  if cluster_mode c then bs "CLUSTER" else bs "STANDALONE".

(** ** The objects behind the pointers *)

Definition find_node (r : noderef) (c : CRedisClient) : option CRedisNode :=
  match r with
  | RMaster n => m_self <$> um_find n (c_masters c)
  | RReplica m r => m ← um_find m (c_masters c); um_find r (m_replicas m)
  end.

Definition change_node (r : noderef) (f : CRedisNode -> CRedisNode) (c : CRedisClient) : CRedisClient :=
  with_masters
    match r with
    | RMaster n => um_update n (fun m => m_with_self (f (m_self m)) m) (c_masters c)
    | RReplica m r => um_update m (fun m => m_with_replicas (um_update r f (m_replicas m)) m) (c_masters c)
    end c.

Section client.
Context {dm : DataModel} {fl : FloatLib} {W : Type} {drv : Driver W} {um : UnorderedMap} {bld : Build}.

#[local] Abbreviation C := (CM W).

Definition the_node (r : noderef) : C CRedisNode := c ← client id; must (find_node r c).
Definition upd_node (r : noderef) (f : CRedisNode -> CRedisNode) : C unit :=
  _ ← the_node r; upd_client (change_node r f).

(** [CRedisNode::close], on the object: the connection is closed, if any. *)
Definition close_context (n : CRedisNode) : C unit :=
  match nd_context n with Some c => drive_ (hi_free c) | None => mret tt end.

Definition close (r : noderef) : C unit :=
  n ← the_node r; _ ← close_context n; upd_node r (nd_with_context None).

Fixpoint close_all (l : list (Node * CRedisNode)) : C unit :=
  match l with
  | [] => mret tt
  | (_, n) :: l => _ ← close_context n; close_all l
  end.

(** [delete master_node]: the replicas go first. *)
Definition delete_master (m : CRedisMasterNode) : C unit :=
  _ ← close_all (m_replicas m); close_context (m_self m).

(** [RedisReplyHelper::free]. *)
Definition free_helper (reply : option nat) : C unit :=
  match reply with Some r => drive_ (hi_free_reply r) | None => mret tt end.

(** ** Connections *)

Definition milliseconds (ms : Z) : timeval := Timeval (Z.quot ms 1000) (Z.rem ms 1000 * 1000).

(** The reply of a command that answers OK: the error is set when it does not,
    and the connection freed.  [str] must not be [NULL] for [strcmp]. *)
Definition expect_ok (ctx : nat) (format : bytes) (ap : list bytes) (code : Z) (failed : bytes) :
    C (option nat) :=
  reply ← drive (hi_command ctx format ap);
  match reply with
  | None =>
      _ ← upd_error (set_error code failed);
      _ ← drive_ (hi_free ctx);
      mret None
  | Some r =>
      cell ← observe (hi_cell r);
      str ← must (rp_str cell);
      x ← (if bool_decide (cstr str = bs "OK") then mret (Some ctx) else
           e ← get_error;
           ty ← must (extract_errtype (rp_len cell) (rp_str cell) (errtype e));
           _ ← upd_error (set_errtype ty);
           _ ← upd_error (set_error code (cstr str));
           _ ← drive_ (hi_free ctx);
           mret None);
      _ ← drive_ (hi_free_reply r);
      mret x
  end.

(** The connection and its timeout. *)
Definition open_context (node : Node) : C (option nat) :=
  timeout ← client c_connect_timeout_milliseconds;
  ctx ← drive (hi_connect (cstr node.1) node.2
                 (if timeout <=? 0 then None else Some (milliseconds timeout)));
  match ctx with
  | None => _ ← upd_error (set_error ERROR_REDIS_CONTEXT (bs "can not allocate redis context")); mret None
  | Some ctx =>
      e ← observe (hi_error ctx);
      if negb (e.1 =? 0) then
        _ ← upd_error (set_error ERROR_INIT_REDIS_CONN (cstr e.2));
        _ ← drive_ (hi_free ctx);
        mret None
      else
        timeout ← client c_readwrite_timeout_milliseconds;
        if 0 <? timeout then
          r ← drive (hi_set_timeout ctx (milliseconds timeout));
          if r =? REDIS_ERR then
            e ← observe (hi_error ctx);
            _ ← upd_error (set_error ERROR_INIT_REDIS_CONN (cstr e.2));
            _ ← drive_ (hi_free ctx);
            mret None
          else mret (Some ctx)
        else mret (Some ctx)
  end.

Definition connect_redis_node (node : Node) (readonly : bool) : C (option nat) :=
  _ ← upd_error (fun _ => no_error);
  ctx ← open_context node;
  ctx ← match ctx with
        | None => mret None
        | Some c =>
            password ← client c_password;
            if bool_decide (password <> [])
            then expect_ok c (bs "AUTH %s") [cstr password] ERROR_REDIS_AUTH (bs "authorization failed")
            else mret (Some c)
        end;
  match ctx with
  | Some c =>
      if (readonly : bool)
      then expect_ok c (bs "READONLY") [] ERROR_REDIS_READONLY (bs "readonly failed")
      else mret ctx
  | None => mret None
  end.

(** ** The table of masters *)

Definition update_nodes_string (nodeinfo : NodeInfo) : C unit :=
  s ← must (node2string (n_node nodeinfo));
  upd_client (fun c => with_nodes_string
    (if bool_decide (c_nodes_string c = []) then s else c_nodes_string c ++ bs "," ++ s) c).

(** [_slot2node[slot] = node] for the slots of a segment; the table is not
    written beyond its end, so the fuel is its length. *)
Fixpoint write_slots (fuel : nat) (slot last : Z) (node : Node) (t : list Node) : option (list Node) :=
  if last <? slot then Some t else
  match fuel with
  | O => None
  | S f => t ← zwrite t slot [node]; write_slots f (slot + 1) last node t
  end.

Fixpoint update_segments (slots : list (Z * Z)) (node : Node) (t : list Node) : option (list Node) :=
  match slots with
  | [] => Some t
  | (first, last) :: slots => t ← write_slots (length t) first last node t; update_segments slots node t
  end.

Definition update_slots (nodeinfo : NodeInfo) : C unit :=
  t ← client c_slot2node;
  t ← must (update_segments (n_slots nodeinfo) (n_node nodeinfo) t);
  upd_client (with_slot2node t).

Definition add_master_node (nodeinfo : NodeInfo) : C bool :=
  let node := n_node nodeinfo in
  ctx ← connect_redis_node node false;
  let master_node := new_master (n_id nodeinfo) node ctx in
  masters ← client c_masters;
  let '(masters, is_new) := um_insert node master_node masters in
  _ ← upd_client (with_masters masters);
  _ ← r3c_assert is_new;
  _ ← (if is_new then mret tt else delete_master master_node);
  _ ← upd_client (fun c => with_masters_id (<[n_id nodeinfo := node]> (c_masters_id c)) c);
  mret (isSome ctx).

(** The number of masters connected, and the replicas. *)
Fixpoint init_master_loop (many : bool) (nodes_info : list NodeInfo) (connected : Z)
    (replicas : list NodeInfo) : C (Z * list NodeInfo) :=
  match nodes_info with
  | [] => mret (connected, replicas)
  | nodeinfo :: nodes_info =>
      _ ← (if many then update_nodes_string nodeinfo else mret tt);
      if is_master nodeinfo && negb (is_fail nodeinfo) then
        _ ← update_slots nodeinfo;
        ok ← add_master_node nodeinfo;
        init_master_loop many nodes_info (if (ok : bool) then connected + 1 else connected) replicas
      else if is_replica nodeinfo && negb (is_fail nodeinfo) then
        init_master_loop many nodes_info connected (replicas ++ [nodeinfo])
      else init_master_loop many nodes_info connected replicas
  end.

Definition init_master_nodes (nodes_info : list NodeInfo) : C (bool * list NodeInfo) :=
  let many := 1 <? zlen nodes_info in
  _ ← upd_client (fun c => with_nodes_string (if many then [] else c_raw_nodes_string c) c);
  r ← init_master_loop many nodes_info 0 [];
  mret (0 <? r.1, r.2).

Definition get_redis_master_node (nodeid : bytes) (c : CRedisClient) : option Node :=
  node ← c_masters_id c !! nodeid;
  _ ← um_find node (c_masters c);
  Some node.

(** The old object of the same address, if any, is deleted. *)
Definition add_replica_node (m : Node) (r : CRedisNode) : C unit :=
  c ← client id;
  mn ← must (um_find m (c_masters c));
  match um_find (nd_node r) (m_replicas mn) with
  | None =>
      upd_client (fun c => with_masters (um_update m (fun mn =>
        m_with_replicas (um_insert (nd_node r) r (m_replicas mn)).1 mn) (c_masters c)) c)
  | Some old =>
      _ ← close_context old;
      upd_client (fun c => with_masters (um_update m (fun mn =>
        m_with_replicas (um_update (nd_node r) (fun _ => r) (m_replicas mn)) mn) (c_masters c)) c)
  end.

Fixpoint init_replica_nodes (infos : list NodeInfo) : C unit :=
  match infos with
  | [] => mret tt
  | nodeinfo :: infos =>
      c ← client id;
      _ ← match get_redis_master_node (n_master_id nodeinfo) c with
          | None => mret tt
          | Some m =>
              ctx ← local_error (connect_redis_node (n_node nodeinfo) true);
              match ctx with
              | None => mret tt
              | Some _ => add_replica_node m (new_node (n_id nodeinfo) (n_node nodeinfo) ctx)
              end
          end;
      init_replica_nodes infos
  end.

(** The result, and the nodes; [nodes_info] is empty before. *)
Definition list_cluster_nodes (ctx : nat) : C (bool * list NodeInfo) :=
  reply ← drive (hi_command ctx (bs "CLUSTER NODES") []);
  _ ← upd_error (fun _ => no_error);
  infos ← match reply with
          | None =>
              e ← observe (hi_error ctx);
              _ ← upd_error (set_error ERROR_COMMAND
                    (if negb (e.1 =? 0) then cstr e.2 else bs "redisCommand failed"));
              mret []
          | Some r =>
              cell ← observe (hi_cell r);
              str ← must (rp_str cell);
              if rp_type cell =? REDIS_REPLY_ERROR then
                _ ← upd_error (set_error ERROR_COMMAND (cstr str)); mret []
              else if negb (rp_type cell =? REDIS_REPLY_STRING) then
                _ ← upd_error (set_error ERROR_UNEXCEPTED_REPLY_TYPE (cstr str)); mret []
              else
                e ← get_error;
                p ← must (parse_cluster_nodes (cstr str) [] e);
                _ ← upd_error (fun _ => p.2);
                mret p.1
          end;
  _ ← free_helper reply;
  mret (bool_decide (infos <> []), infos).

Fixpoint close_masters (l : list (Node * CRedisMasterNode)) : C unit :=
  match l with
  | [] => mret tt
  | (_, m) :: l => _ ← delete_master m; close_masters l
  end.

Definition clear_all_master_nodes : C unit :=
  masters ← client c_masters;
  _ ← close_masters masters;
  upd_client (fun c => with_masters_id ∅ (with_masters [] c)).

(** Entries of the nodes that are no longer masters go. *)
Fixpoint clear_invalid_loop (l : list (Node * CRedisMasterNode)) (valid : list Node) : C unit :=
  match l with
  | [] => mret tt
  | (node, m) :: l =>
      _ ← (if bool_decide (node ∈ valid) then mret tt else
           let nodeid := nd_id (m_self m) in
           _ ← upd_client (fun c => with_masters (um_erase node (c_masters c)) c);
           _ ← delete_master m;
           upd_client (fun c => with_masters_id (delete nodeid (c_masters_id c)) c));
      clear_invalid_loop l valid
  end.

Definition clear_invalid_master_nodes (valid : list Node) : C unit :=
  masters ← client c_masters; clear_invalid_loop masters valid.

(** The nodes that are masters, and the replicas. *)
Fixpoint update_master_loop (many : bool) (nodes_info : list NodeInfo) (valid : list Node)
    (replicas : list NodeInfo) : C (list Node * list NodeInfo) :=
  match nodes_info with
  | [] => mret (valid, replicas)
  | nodeinfo :: nodes_info =>
      _ ← (if many then update_nodes_string nodeinfo else mret tt);
      if is_master nodeinfo && negb (is_fail nodeinfo) then
        _ ← update_slots nodeinfo;
        masters ← client c_masters;
        _ ← (if isSome (um_find (n_node nodeinfo) masters) then mret false else add_master_node nodeinfo);
        update_master_loop many nodes_info (n_node nodeinfo :: valid) replicas
      else if is_replica nodeinfo && negb (is_fail nodeinfo) then
        update_master_loop many nodes_info valid (replicas ++ [nodeinfo])
      else update_master_loop many nodes_info valid replicas
  end.

Definition clear_and_update_master_nodes (nodes_info : list NodeInfo) : C (list NodeInfo) :=
  let many := 1 <? zlen nodes_info in
  _ ← (if many then upd_client (with_nodes_string []) else mret tt);
  r ← update_master_loop many nodes_info [] [];
  _ ← clear_invalid_master_nodes r.1;
  mret r.2.

(** The loop over the masters, from a place that depends on the address of the
    client, around the end of the table. *)
Fixpoint refresh_loop (nodes : list Node) (error_node : option Node) : C unit :=
  match nodes with
  | [] => mret tt
  | node :: nodes =>
      if bool_decide (error_node = Some node) then refresh_loop nodes error_node else
      n ← the_node (RMaster node);
      ctx ← (if isSome (nd_context n) then mret (nd_context n) else connect_redis_node node false);
      match ctx with
      | None => refresh_loop nodes error_node
      | Some c =>
          _ ← upd_node (RMaster node) (set_redis_context ctx);
          r ← list_cluster_nodes c;
          if (r.1 : bool) then
            replicas ← clear_and_update_master_nodes r.2;
            policy ← client c_read_policy;
            if bool_decide (policy <> RP_ONLY_MASTER) then init_replica_nodes replicas else mret tt
          else refresh_loop nodes error_node
      end
  end.

(** The remainder of a [seed]; dividing by zero is undefined. *)
Definition pick (seed n : Z) : option Z := if n =? 0 then None else Some (seed mod n).

Definition refresh_master_node_table (error_node : option Node) : C unit :=
  masters ← client c_masters;
  let num_nodes := zlen masters in
  k ← must (pick (u64 (this - num_nodes)) num_nodes);
  let nodes := masters.*1 in
  refresh_loop (zdrop k nodes ++ ztake k nodes) error_node.

Fixpoint init_cluster_loop (n : nat) (seed : Z) : C unit :=
  match n with
  | O => mret tt
  | S n =>
      nodes ← client c_nodes;
      let seed := u64 (seed + 1) in
      j ← must (pick seed (zlen nodes));
      node ← must (zget nodes j);
      ctx ← connect_redis_node node false;
      match ctx with
      | None => init_cluster_loop n seed
      | Some c =>
          r ← list_cluster_nodes c;
          _ ← drive_ (hi_free c);
          if (r.1 : bool) then
            i ← init_master_nodes r.2;
            if (i.1 : bool) then
              policy ← client c_read_policy;
              if bool_decide (policy <> RP_ONLY_MASTER) then init_replica_nodes i.2 else mret tt
            else init_cluster_loop n seed
          else init_cluster_loop n seed
      end
  end.

Definition get_random : C Z := drive (fun w => Some (get_random_number this w)).

(** [_slot2node.resize(CLUSTER_SLOTS)]; new slots have the empty node. *)
Definition resize_slots (t : list Node) : list Node :=
  ztake CLUSTER_SLOTS t ++ replicate (Z.to_nat (CLUSTER_SLOTS - zlen t)) ([], 0).

Definition init_cluster : C bool :=
  nodes ← client c_nodes;
  seed ← get_random;
  _ ← upd_client (fun c => with_slot2node (resize_slots (c_slot2node c)) c);
  _ ← init_cluster_loop (length nodes) seed;
  masters ← client c_masters;
  mret (bool_decide (masters <> [])).

Definition init_standlone : C bool :=
  nodes ← client c_nodes;
  node ← must (zget nodes 0);
  _ ← upd_client (fun c => with_nodes_string (c_raw_nodes_string c) c);
  ctx ← connect_redis_node node false;
  match ctx with
  | None => mret false
  | Some _ =>
      masters ← client c_masters;
      let '(masters, is_new) := um_insert node (new_master [] node ctx) masters in
      _ ← upd_client (with_masters masters);
      _ ← r3c_assert is_new;
      mret true
  end.

(** [THROW_REDIS_EXCEPTION]: the other arguments have default values. *)
Definition throw_error {A} (e : ErrorInfo) : C A := throw (Exception e (bs "-", 0) [] []).

Definition init : C unit :=
  on_throw (local_error
    (c ← client id;
     r ← must (parse_nodes (c_nodes c) (c_raw_nodes_string c));
     let '(num_nodes, nodes) := r in
     _ ← upd_client (with_nodes nodes);
     if num_nodes =? 0 then
       _ ← upd_error (set_error ERROR_PARAMETER
             (format_string (bs "parameter[nodes] error: " ++ cstr (c_raw_nodes_string c))));
       e ← get_error; throw_error e
     else
       ok ← (if num_nodes =? 1 then init_standlone else init_cluster);
       if (ok : bool) then mret tt else e ← get_error; throw_error e))
    clear_all_master_nodes.

Definition fini : C unit := clear_all_master_nodes.

(** ** Choosing a node *)

(** Iterating [K] times from the first entry, around the end. *)
Definition um_nth {V} (K : Z) (t : list (Node * V)) : option Node :=
  k ← pick K (zlen t); fst <$> zget t k.

Definition random_redis_master_node : C (option Node) :=
  c ← client id;
  if bool_decide (c_masters c = []) then mret None else
  seed ← get_random;
  k ← must (pick seed (zlen (c_nodes c)));
  n ← must (um_nth (s32 k) (c_masters c));
  mret (Some n).

Definition choose_node (m : Node) (read_policy : ReadPolicy) : C noderef :=
  c ← client id;
  mn ← must (um_find m (c_masters c));
  let n := zlen (m_replicas mn) in
  if n =? 0 then mret (RMaster m) else
  let k := m_index mn mod (n + 1) in
  _ ← upd_client (fun c => with_masters
        (um_update m (fun mn => m_with_index (u32 (m_index mn + 1)) mn) (c_masters c)) c);
  if bool_decide (read_policy = RP_READ_REPLICA) && (k =? n) then mret (RMaster m) else
  r ← must (um_nth k (m_replicas mn));
  mret (RReplica m r).

(** The connection of a node, made now if there is none. *)
Definition connected (r : noderef) : C (option nat) :=
  n ← the_node r;
  match nd_context n with
  | Some c => mret (Some c)
  | None =>
      ctx ← connect_redis_node (nd_node n) false;
      _ ← upd_node r (set_redis_context ctx);
      mret ctx
  end.

(** The master of the slot, or of the redirection, or any. *)
Definition find_master (slot : Z) (ask_node : option Node) : C (option Node) :=
  c ← client id;
  node ← must match ask_node with None => zget (c_slot2node c) slot | Some n => Some n end;
  match um_find node (c_masters c) with
  | Some _ => mret (Some node)
  | None => random_redis_master_node
  end.

(** [parse_nodes] adds to the nodes there are. *)
Definition restart_cluster : C bool :=
  c ← client id;
  r ← must (parse_nodes (c_nodes c) (c_nodes_string c));
  _ ← upd_client (with_nodes r.2);
  _ ← r3c_assert (1 <? r.1);
  init_cluster.

Definition get_redis_node (slot : Z) (readonly : bool) (ask_node : option Node) : C (option noderef) :=
  c ← client id;
  if slot =? -1 then
    _ ← r3c_assert (bool_decide (c_masters c <> []));
    m ← must (head (c_masters c));
    _ ← connected (RMaster m.1);
    mret (Some (RMaster m.1))
  else
    _ ← r3c_assert ((0 <=? slot) && (slot <? CLUSTER_SLOTS));
    ok ← (if bool_decide (c_masters c = []) then restart_cluster else mret true);
    if negb ok then mret None else
    m ← find_master slot ask_node;
    match m with
    | None => mret None
    | Some m =>
        ctx ← connected (RMaster m);
        policy ← client c_read_policy;
        if negb readonly || bool_decide (policy = RP_ONLY_MASTER) then mret (Some (RMaster m))
        else if isSome ctx && bool_decide (policy = RP_PRIORITY_MASTER)
        then mret (Some (RMaster m))
        else
          r ← choose_node m policy;
          ctx ← connected r;
          mret (Some (if isSome ctx then r else RMaster m))
    end.

(** ** Commands *)

Definition handle_redis_command_error (r : noderef) (ctx : nat) : C HandleResult :=
  n ← the_node r;
  e ← observe (hi_error ctx);
  err ← observe (fun w => Some (os_errno w));
  _ ← upd_error (set_error err (format_string (bs "[" ++ cstr (node_str n) ++ bs "] (" ++ dec e.1 ++
        bs "/" ++ dec err ++ bs ")" ++ cstr e.2 ++ bs " (" ++ cstr (os_strerror err) ++ bs ")")));
  if negb (e.1 =? REDIS_ERR_IO) && negb (e.1 =? REDIS_ERR_EOF) then mret HR_ERROR
  else if e.1 =? REDIS_ERR_EOF then _ ← upd_node r inc_conn_errors; mret HR_RECONN_COND
  else _ ← upd_node r inc_conn_errors; mret HR_RECONN_COND.

Definition handle_redis_replay_error (r : noderef) (cell : redisReply) : C HandleResult :=
  e ← get_error;
  ty ← must (extract_errtype (rp_len cell) (rp_str cell) (errtype e));
  n ← the_node r;
  str ← must (rp_str cell);
  _ ← upd_error (set_errtype ty);
  _ ← upd_error (set_error ERROR_COMMAND
        (format_string (bs "[" ++ cstr (node_str n) ++ bs "] " ++ cstr str)));
  if is_clusterdown_error ty then mret HR_RETRY_UNCOND
  else if is_ask_error ty then mret HR_REDIRECT
  else if is_moved_error ty then _ ← upd_node r (set_conn_errors 2019); mret HR_RETRY_UNCOND
  else mret HR_ERROR.

Definition handle_redis_reply (r : noderef) (cell : redisReply) : C HandleResult :=
  _ ← upd_node r reset_conn_errors;
  if negb (rp_type cell =? REDIS_REPLY_ERROR) then mret HR_SUCCESS
  else handle_redis_replay_error r cell.

(** One attempt on a node: the new value of [redis_reply], and what to do.  The
    reply of ASKING is dropped. *)
Definition attempt (r : noderef) (ask : bool) (a : CommandArgs) (redis_reply : option nat) :
    C (option nat * HandleResult) :=
  n ← the_node r;
  match nd_context n with
  | None => mret (redis_reply, HR_RECONN_UNCOND)
  | Some ctx =>
      _ ← (if ask then drive (hi_command ctx (bs "ASKING") []) else mret None);
      reply ← drive (hi_command_argv ctx (a_argc a) (a_argv a) (a_argvlen a));
      _ ← free_helper redis_reply;
      match reply with
      | None => h ← handle_redis_command_error r ctx; mret (None, h)
      | Some l => cell ← observe (hi_cell l); h ← handle_redis_reply r cell; mret (reply, h)
      end
  end.

(** How a turn of the loop goes on. *)
Inductive next_step :=
  | Return (redis_reply : option nat)
  | Break (redis_reply : option nat) (node : Node)
  | Continue (redis_reply : option nat) (node : Node) (ask_node : option Node).

(** After an attempt that may be repeated: whether the retries are used up. *)
Definition retries_over (h : HandleResult) (loop_counter num_retries : Z) : bool :=
  match h with
  | HR_RECONN_UNCOND => (num_retries <? loop_counter) && (0 <? loop_counter)
  | HR_RETRY_UNCOND => num_retries <? loop_counter
  | _ => num_retries <=? loop_counter
  end.

(** The end of a turn: waiting, and refreshing the table. *)
Definition before_retry (r : noderef) (h : HandleResult) (loop_counter : Z) (node : Node) : C unit :=
  _ ← (match h with
       | HR_RETRY_UNCOND | HR_RECONN_UNCOND =>
           ms ← must (get_retry_sleep_milliseconds loop_counter);
           if 0 <? ms then drive (fun w => Some (tt, os_sleep ms w)) else mret tt
       | _ => mret tt
       end);
  n ← the_node r;
  c ← client id;
  if cluster_mode c && need_refresh_master n then
    match h with
    | HR_RECONN_COND | HR_RECONN_UNCOND => refresh_master_node_table (Some node)
    | _ => refresh_master_node_table None
    end
  else mret tt.

(** What follows an attempt. *)
Definition after_attempt (num_retries loop_counter : Z) (command : bytes) (r : noderef) (node : Node)
    (redis_reply : option nat) (h : HandleResult) : C next_step :=
  let retry :=
    if retries_over h loop_counter num_retries then mret (Break redis_reply node)
    else _ ← before_retry r h loop_counter node; mret (Continue redis_reply node None) in
  match h with
  | HR_SUCCESS => _ ← notify (AfterExecute 0 node command redis_reply); mret (Return redis_reply)
  | HR_ERROR => mret (Break redis_reply node)
  | HR_RECONN_COND | HR_RECONN_UNCOND => _ ← close r; retry
  | HR_REDIRECT =>
      l ← must redis_reply;
      cell ← observe (hi_cell l);
      str ← must (rp_str cell);
      p ← must (parse_moved_string (cstr str) node);
      let '(ok, node) := p in
      if negb ok then mret (Break redis_reply node)
      else if loop_counter <=? 2 then mret (Continue redis_reply node (Some node))
      else mret (Break redis_reply node)
  | HR_RETRY_COND | HR_RETRY_UNCOND => retry
  end.

(** The turn on the node chosen, if there is one. *)
Definition serve (readonly : bool) (num_retries : Z) (a : CommandArgs) (loop_counter : Z)
    (redis_reply : option nat) (ask : bool) (r : option noderef) : C next_step :=
  node ← match r with Some r => n ← the_node r; mret (nd_node n) | None => mret ([], 0) end;
  _ ← set_which node;
  _ ← (if loop_counter =? 0 then notify (BeforeExecute node (a_command a) readonly) else mret tt);
  match r with
  | None =>
      c ← client id;
      _ ← upd_error (set_error ERROR_NO_ANY_NODE
            (format_string (bs "[" ++ cstr (a_command a) ++ bs "][" ++ get_mode_str c ++ bs "][" ++
               cstr node.1 ++ bs ":" ++ dec node.2 ++ bs "] no any node")));
      mret (Break redis_reply node)
  | Some r =>
      x ← attempt r ask a redis_reply;
      after_attempt num_retries loop_counter (a_command a) r node x.1 x.2
  end.

Definition turn (readonly : bool) (num_retries : Z) (key : bytes) (a : CommandArgs)
    (loop_counter : Z) (redis_reply : option nat) (ask_node : option Node) : C next_step :=
  c ← client id;
  slot ← (if cluster_mode c then drive (get_key_slot (Some key)) else mret (-1));
  r ← get_redis_node slot readonly ask_node;
  serve readonly num_retries a loop_counter redis_reply (isSome ask_node) r.

(** The loop: the reply, or the node of the exception. *)
Fixpoint command_loop (fuel : nat) (readonly : bool) (num_retries : Z) (key : bytes)
    (a : CommandArgs) (loop_counter : Z) (redis_reply : option nat) (ask_node : option Node) :
    C (option nat + option nat * Node) :=
  match fuel with
  | O => fun _ => None
  | S f =>
      x ← turn readonly num_retries key a loop_counter redis_reply ask_node;
      match x with
      | Return reply => mret (inl reply)
      | Break reply node => mret (inr (reply, node))
      | Continue reply _ ask => command_loop f readonly num_retries key a (loop_counter + 1) reply ask
      end
  end.

(** The reply returned belongs to the caller; the one at hand when an exception
    is thrown is freed. *)
Definition redis_command (fuel : nat) (readonly : bool) (num_retries : Z) (key : bytes)
    (a : CommandArgs) : C (option nat) :=
  local_error
    (c ← client id;
     if cluster_mode c && bool_decide (key = []) then
       _ ← upd_error (set_error ERROR_ZERO_KEY
             (format_string (bs "[" ++ cstr (a_command a) ++ bs "] key is empty in cluster node")));
       e ← get_error; throw_error e
     else
       r ← command_loop fuel readonly num_retries key a 0 None None;
       match r with
       | inl reply => mret reply
       | inr (reply, node) =>
           _ ← notify (AfterExecute 1 node (a_command a) reply);
           _ ← free_helper reply;
           e ← get_error; throw (Exception e node (a_command a) (a_key a))
       end).

End client.
