(* ===== verification/HiredisDriver.v ===== *)
(** * hiredis as the driver of the cluster client

    The interface of Driver.v implemented by the model of hiredis: connections
    are kept in a store by address, a command runs on the one it names, and
    all share the allocation counter, the reply objects and the network.  Only
    waiting and the clock are added. *)

From Stdlib Require Import Strings.Byte String.
From stdpp Require Import gmap infinite.
From S2P Require Import Prelude CLib Buffer Sds SdsFmt SdsEdit Read Reply Printf Format Network Net.
From S2P Require Import Context Slots StdString ClusterText ClusterNodes Driver Resp.

(** Time on the machine of the client. *)
Class Clock (N : Type) := {
  clock_time : N -> Z * N;
  clock_sleep : Z -> N -> N;
  clock_twister : Z -> Z
}.

Record hiredis {fl : FloatLib} (N : Type) := Hiredis {
  hw_contexts : gmap nat redisContext;
  hw_next : nat;
  hw_env : env N
}.
Arguments Hiredis {fl N}. Arguments hw_contexts {fl N}. Arguments hw_next {fl N}. Arguments hw_env {fl N}.

Section driver.
Context {al : Allocator} {dm : DataModel} {fl : FloatLib} {pd : PrintfDouble}.
Context {N : Type} {nw : Network N} {clk : Clock N}.
Implicit Types (w : hiredis N).

(** A computation on a connection. *)
Definition on_context {A} (m : IO N A) (c : nat) w : option (A * hiredis N) :=
  ctx ← hw_contexts w !! c;
  r ← m (ctx, hw_env w);
  let '(x, (ctx, e)) := r in Some (x, Hiredis (<[c := ctx]> (hw_contexts w)) (hw_next w) e).

Definition on_net {A} (f : N -> A * N) w : A * hiredis N :=
  let e := hw_env w in
  let '(x, n) := f (e_net e) in (x, Hiredis (hw_contexts w) (hw_next w) (Env (e_cnt e) (e_heap e) n)).

Definition connect_context (ip : bytes) (port : Z) (timeout : option timeval) w :
    option (option nat * hiredis N) :=
  r ← match timeout with
      | None => redisConnect ip port (hw_env w)
      | Some tv => redisConnectWithTimeout ip port tv (hw_env w)
      end;
  let '(ctx, e) := r in
  Some (match ctx with
        | Some ctx => (Some (hw_next w),
                       Hiredis (<[hw_next w := ctx]> (hw_contexts w)) (S (hw_next w)) e)
        | None => (None, Hiredis (hw_contexts w) (hw_next w) e)
        end).

(** The address of a reply; the default functions make no other. *)
Definition reply_of (r : option (option optr * hiredis N)) : option (option nat * hiredis N) :=
  x ← r;
  match x with
  | (None, w) => Some (None, w)
  | (Some (OLoc l), w) => Some (Some l, w)
  | (Some (OTag _), _) => None
  end.

Definition free_context (c : nat) w : option (hiredis N) :=
  ctx ← hw_contexts w !! c;
  r ← redisFree (ctx, hw_env w);
  Some (Hiredis (delete c (hw_contexts w)) (hw_next w) r.2.2).

Definition free_reply_at (l : nat) w : option (hiredis N) :=
  let e := hw_env w in
  h ← freeReplyObject (Some l) (e_heap e);
  Some (Hiredis (hw_contexts w) (hw_next w) (Env (e_cnt e) h (e_net e))).

#[export] Instance hiredis_random : Random (hiredis N) := {|
  time := on_net clock_time;
  mt19937 := clock_twister
|}.

(** [fuel] bounds the loops of [redisGetReply]. *)
Definition hiredis_driver (fuel : nat) : Driver (hiredis N) := {|
  hi_connect := connect_context;
  hi_set_timeout c tv := on_context (redisSetTimeout tv) c;
  hi_command c format ap w := reply_of (on_context (redisCommand fuel format (VaPtr <$> ap)) c w);
  hi_command_argv c argc argv lens w :=
    reply_of (on_context (redisCommandArgv fuel argc argv (Some lens)) c w);
  hi_free := free_context;
  hi_free_reply := free_reply_at;
  hi_error c w := (fun ctx => (c_err ctx, c_errstr ctx)) <$> hw_contexts w !! c;
  hi_cell l w := h_cells (e_heap (hw_env w)) !! l;
  os_errno w := errno (e_net (hw_env w));
  os_strerror := strerror;
  os_sleep ms w := (on_net (fun n => (tt, clock_sleep ms n)) w).2;
  os_random := hiredis_random
|}.

End driver.

(** ** A simulated cluster

    A network of servers, for running the whole stack: every socket is
    connected to a server by the address it looked up, and a server is given by
    the requests it knows, each with its answer. *)

(** A connection: the server, what was sent to it, and what was read. *)
Record link := Link { k_server : bytes; k_sent : bytes; k_read : bytes }.

Record farm := Farm { f_links : gmap Z link; f_errno : Z; f_clock : Z; f_made : Z }.

(** The requests a server knows; one that is down is [None]. *)
Abbreviation servers := (bytes -> option (list (bytes * bytes))).

(** The answers to the requests in a stream, as far as they are known. *)
Fixpoint answers (fuel : nat) (known : list (bytes * bytes)) (sent : bytes) : bytes :=
  match fuel with
  | O => []
  | S f =>
      match head (filter (fun x => x.1 `prefix_of` sent) known) with
      | Some (req, ans) => ans ++ answers f known (drop (length req) sent)
      | None => []
      end
  end.

Section farm.
Variable srv : servers.

Definition farm_connect (fd : Z) (a : bytes) (n : farm) : Z * farm :=
  match srv a with
  | Some _ => (0, Farm (<[fd := Link a [] []]> (f_links n)) (f_errno n) (f_clock n) (f_made n))
  | None => (-1, Farm (f_links n) 111 (f_clock n) (f_made n))
  end.

Definition farm_send (fd : Z) (d : bytes) (n : farm) : Z * farm :=
  match f_links n !! fd with
  | Some k => (zlen d, Farm (<[fd := Link (k_server k) (k_sent k ++ d) (k_read k)]> (f_links n))
                         (f_errno n) (f_clock n) (f_made n))
  | None => (-1, Farm (f_links n) 9 (f_clock n) (f_made n))
  end.

Definition farm_recv (fd cap : Z) (n : farm) : Z * bytes * farm :=
  match f_links n !! fd with
  | Some k =>
      let rem := zdrop (zlen (k_read k))
                   (answers (length (k_sent k)) (default [] (srv (k_server k))) (k_sent k)) in
      let d := ztake (Z.min cap (zlen rem)) rem in
      (zlen d, d, Farm (<[fd := Link (k_server k) (k_sent k) (k_read k ++ d)]> (f_links n))
                    (f_errno n) (f_clock n) (f_made n))
  | None => (-1, [], Farm (f_links n) 9 (f_clock n) (f_made n))
  end.

Definition farm_lookup (node service : option bytes) (n : farm) : Z * list addrinfo * farm :=
  match node, service with
  | Some h, Some p => (0, [Addrinfo AF_INET SOCK_STREAM 6 (h ++ bs ":" ++ p)], n)
  | _, _ => (-2, [], n)
  end.

Definition farm_net : Network farm := {|
  errno := f_errno;
  set_errno e n := Farm (f_links n) e (f_clock n) (f_made n);
  sys_socket _ _ _ n := (f_made n, Farm (f_links n) (f_errno n) (f_clock n) (f_made n + 1));
  sys_close fd n := Farm (delete fd (f_links n)) (f_errno n) (f_clock n) (f_made n);
  sys_connect := farm_connect;
  sys_bind _ _ n := (0, n);
  sys_send := farm_send;
  sys_recv := farm_recv;
  sys_poll_out _ _ n := (1, n);
  sys_getfl _ n := (2, n);
  sys_setfl _ _ n := (0, n);
  sys_setsockopt _ _ n := (0, n);
  sys_so_error _ n := (0, 0, n);
  sys_getaddrinfo node service _ := farm_lookup node service;
  strerror _ := bs "error";
  gai_strerror _ := bs "no address"
|}.

Definition farm_clock : Clock farm := {|
  clock_time n := (f_clock n / 1000, n);
  clock_sleep ms n := Farm (f_links n) (f_errno n) (f_clock n + ms) (f_made n);
  clock_twister z := z
|}.

End farm.

(** Tables that put a new entry first. *)
#[export] Program Instance front_table : UnorderedMap := {| um_place V x l := x :: l |}.
Next Obligation. done. Qed.
