(* ===== verification/ClientFacts.v ===== *)
(** * The cluster client: facts

    The laws of a driver that keeps its promises ([Reliable]), rules for the
    computations of the client, and the tables of nodes with the connections
    they own. *)

From Stdlib Require Import Strings.Byte String.
From stdpp Require Import gmap.
From S2P Require Import Prelude CLib Read Reply Network Slots StdString ClusterText.
From S2P Require Import ClusterNodes Driver RedisClient.

(** ** What the client relies on *)

(** The slots of a node are slots, and its port is a port. *)
Definition info_ok (n : NodeInfo) : Prop :=
  0 <= (n_node n).2 < 65536 /\
  Forall (fun x => 0 <= x.1 /\ x.2 < CLUSTER_SLOTS) (n_slots n).

Definition topology_ok {dm : DataModel} (text : bytes) : Prop :=
  forall e, exists infos e', parse_cluster_nodes text [] e = Some (infos, e') /\ Forall info_ok infos.

(** The formats of the commands the client sends on its own. *)
Definition own_command (format : bytes) : Prop :=
  format = bs "AUTH %s" \/ format = bs "READONLY" \/ format = bs "CLUSTER NODES" \/ format = bs "ASKING".

(** A driver whose calls return on valid addresses, which says which
    connections are open and which replies are allocated; replies that are
    strings have a text, the replies to the client's own commands too, and the
    text of a topology is in order. *)
Class Reliable {dm : DataModel} {fl : FloatLib} (W : Type) {drv : Driver W} := {
  live : W -> gset nat;
  replies : W -> gset nat;
  connect_law ip port tv w : exists r w', hi_connect ip port tv w = Some (r, w') /\
    replies w' = replies w /\
    match r with
    | Some c => c ∉ live w /\ live w' = {[c]} ∪ live w
    | None => live w' = live w
    end;
  timeout_law c tv w : c ∈ live w -> exists r w', hi_set_timeout c tv w = Some (r, w') /\
    replies w' = replies w /\ live w' = live w;
  command_law c format ap w : c ∈ live w -> own_command format ->
    exists r w', hi_command c format ap w = Some (r, w') /\ live w' = live w /\
    match r with
    | Some l => l ∉ replies w /\ replies w' = {[l]} ∪ replies w /\
        exists cell str, hi_cell l w' = Some cell /\ rp_str cell = Some str /\
          (format = bs "CLUSTER NODES" -> rp_type cell = REDIS_REPLY_STRING -> topology_ok (cstr str))
    | None => replies w' = replies w
    end;
  argv_law c argc argv lens w : c ∈ live w ->
    exists r w', hi_command_argv c argc argv lens w = Some (r, w') /\ live w' = live w /\
    match r with
    | Some l => l ∉ replies w /\ replies w' = {[l]} ∪ replies w
    | None => replies w' = replies w
    end;
  free_law c w : c ∈ live w -> exists w', hi_free c w = Some w' /\
    live w' = live w ∖ {[c]} /\ replies w' = replies w;
  free_reply_law l w : l ∈ replies w -> exists w', hi_free_reply l w = Some w' /\
    live w' = live w /\ replies w' = replies w ∖ {[l]};
  error_law c w : c ∈ live w -> is_Some (hi_error c w);
  cell_law l w : l ∈ replies w -> exists cell, hi_cell l w = Some cell /\
    (rp_type cell = REDIS_REPLY_ERROR -> is_Some (rp_str cell));
  time_law w : live (time w).2 = live w /\ replies (time w).2 = replies w;
  sleep_law ms w : live (os_sleep ms w) = live w /\ replies (os_sleep ms w) = replies w
}.

(** ** Computations *)

Section rules.
Context {fl : FloatLib} {W : Type} {drv : Driver W} {bld : Build}.
Implicit Types (s : cstate W).

(** [m] ends without fault or exception, with a result for which [P] holds. *)
Definition yields {A} (m : CM W A) s (P : A -> cstate W -> Prop) : Prop :=
  exists x s', m s = Some (Done x, s') /\ P x s'.

Lemma yields_ret {A} (x : A) s (P : A -> cstate W -> Prop) : P x s -> yields (mret x) s P.
Proof. intros. by exists x, s. Qed.

Lemma yields_bind {A B} (m : CM W A) (k : A -> CM W B) s P :
  yields m s (fun x s' => yields (k x) s' P) -> yields (m ≫= k) s P.
Proof.
  intros (x & s' & E & y & s2 & E2 & HP). exists y, s2. split; [|done].
  unfold mbind, cm_bind. by rewrite E.
Qed.

Lemma bind_done {A B} (m : CM W A) (k : A -> CM W B) s x s' :
  m s = Some (Done x, s') -> (m ≫= k) s = k x s'.
Proof. intros E. unfold mbind, cm_bind. by rewrite E. Qed.

Lemma local_run {A} (m : CM W A) s x s' :
  m (CState (s_client s) no_error (s_which s) (s_events s) (s_world s)) = Some (x, s') ->
  local_error m s = Some (x, CState (s_client s') (s_error s) (s_which s') (s_events s') (s_world s')).
Proof. intros E. unfold local_error. by rewrite E. Qed.

Lemma yields_mono {A} (m : CM W A) s (P Q : A -> cstate W -> Prop) :
  yields m s P -> (forall x s', P x s' -> Q x s') -> yields m s Q.
Proof. intros (x & s' & E & HP) H. exists x, s'. auto. Qed.

(** The rest of a computation after a call with a known specification. *)
Lemma yields_seq {A B} (m : CM W A) (k : A -> CM W B) s P Q :
  yields m s P -> (forall x s', P x s' -> yields (k x) s' Q) -> yields (m ≫= k) s Q.
Proof. intros. apply yields_bind. by eapply yields_mono. Qed.

Lemma yields_client {A} (f : CRedisClient -> A) s (P : A -> cstate W -> Prop) :
  P (f (s_client s)) s -> yields (client f) s P.
Proof. intros. by eexists _, s. Qed.

Lemma yields_error s (P : ErrorInfo -> cstate W -> Prop) : P (s_error s) s -> yields get_error s P.
Proof. intros. by eexists _, s. Qed.

Lemma yields_upd f s (P : unit -> cstate W -> Prop) :
  P tt (CState (f (s_client s)) (s_error s) (s_which s) (s_events s) (s_world s)) ->
  yields (upd_client f) s P.
Proof. intros. by eexists tt, _. Qed.

Lemma yields_upd_error f s (P : unit -> cstate W -> Prop) :
  P tt (CState (s_client s) (f (s_error s)) (s_which s) (s_events s) (s_world s)) ->
  yields (upd_error f) s P.
Proof. intros. by eexists tt, _. Qed.

Lemma yields_must {A} (m : option A) x s (P : A -> cstate W -> Prop) :
  m = Some x -> P x s -> yields (must m) s P.
Proof. intros -> ?. by exists x, s. Qed.

Lemma yields_drive {A} (f : W -> option (A * W)) x w s (P : A -> cstate W -> Prop) :
  f (s_world s) = Some (x, w) ->
  P x (CState (s_client s) (s_error s) (s_which s) (s_events s) w) -> yields (drive f) s P.
Proof. intros E ?. eexists x, _. split; [|done]. unfold drive. by rewrite E. Qed.

Lemma yields_drive_ (f : W -> option W) w s (P : unit -> cstate W -> Prop) :
  f (s_world s) = Some w ->
  P tt (CState (s_client s) (s_error s) (s_which s) (s_events s) w) -> yields (drive_ f) s P.
Proof. intros E ?. apply (yields_drive _ tt w); [|done]. by rewrite E. Qed.

Lemma yields_observe {A} (f : W -> option A) x s (P : A -> cstate W -> Prop) :
  f (s_world s) = Some x -> P x s -> yields (observe f) s P.
Proof.
  intros E HP. apply (yields_drive _ x (s_world s)); [by rewrite E|]. by destruct s.
Qed.

Lemma yields_local {A} (m : CM W A) s (P : A -> cstate W -> Prop) :
  yields m (CState (s_client s) no_error (s_which s) (s_events s) (s_world s))
    (fun x s' => P x (CState (s_client s') (s_error s) (s_which s') (s_events s') (s_world s'))) ->
  yields (local_error m) s P.
Proof. intros (x & s' & E & HP). eexists x, _. split; [|exact HP]. unfold local_error. by rewrite E. Qed.

Lemma yields_assert b s (P : unit -> cstate W -> Prop) :
  b || ndebug = true -> P tt s -> yields (r3c_assert b) s P.
Proof. intros Hb HP. unfold r3c_assert. rewrite Hb. by apply (yields_must _ tt). Qed.

(** [m] ends without fault, with a value or an exception. *)
Definition ends {A} (m : CM W A) s (P : outcome A -> cstate W -> Prop) : Prop :=
  exists x s', m s = Some (x, s') /\ P x s'.

Lemma ends_yields {A} (m : CM W A) s (P : outcome A -> cstate W -> Prop) :
  yields m s (fun x s' => P (Done x) s') -> ends m s P.
Proof. intros (x & s' & E & HP). by exists (Done x), s'. Qed.

Lemma cm_ends_mono {A} (m : CM W A) s (P Q : outcome A -> cstate W -> Prop) :
  ends m s P -> (forall x s', P x s' -> Q x s') -> ends m s Q.
Proof. intros (x & s' & E & HP) H. exists x, s'. auto. Qed.

Lemma cm_ends_bind {A B} (m : CM W A) (k : A -> CM W B) s P :
  yields m s (fun x s' => ends (k x) s' P) -> ends (m ≫= k) s P.
Proof.
  intros (x & s' & E & y & s2 & E2 & HP). exists y, s2. split; [|done]. by erewrite bind_done by exact E.
Qed.

Lemma ends_throw {A} x s (P : outcome A -> cstate W -> Prop) : P (Throw x) s -> ends (throw x) s P.
Proof. intros. by exists (Throw x), s. Qed.

Lemma ends_local {A} (m : CM W A) s P :
  ends m (CState (s_client s) no_error (s_which s) (s_events s) (s_world s))
    (fun x s' => P x (CState (s_client s') (s_error s) (s_which s') (s_events s') (s_world s'))) ->
  ends (local_error m) s P.
Proof. intros (x & s' & E & HP). eexists x, _. split; [by apply local_run|exact HP]. Qed.

Lemma ends_on_throw {A} (m : CM W A) h s P :
  ends m s (fun x s' => match x with
                        | Done _ => P x s'
                        | Throw _ => yields h s' (fun _ s' => P x s')
                        end) ->
  ends (on_throw m h) s P.
Proof.
  intros (x & s' & E & HP). unfold on_throw, ends. rewrite E. destruct x as [x|x]; [by exists (Done x), s'|].
  destruct HP as ([] & s2 & E2 & HP). exists (Throw x), s2. split; [|done]. by erewrite bind_done by exact E2.
Qed.

End rules.

(** Runs one primitive of a computation. *)
Ltac crun :=
  lazymatch goal with
  | |- yields (mret _) _ _ => apply yields_ret
  | |- yields (_ ≫= _) _ _ => apply yields_bind
  | |- yields (client _) _ _ => apply yields_client
  | |- yields get_error _ _ => apply yields_error
  | |- yields (upd_client _) _ _ => apply yields_upd
  | |- yields (upd_error _) _ _ => apply yields_upd_error
  end; cbv beta delta [id].

(** ** Tables *)

Section table.
Context {V : Type}.
Implicit Types t : list (Node * V).

Lemma um_find_None k t : um_find k t = None <-> k ∉ t.*1.
Proof.
  unfold um_find. induction t as [|[k' v] t IH]; [set_solver|].
  rewrite filter_cons. simpl. case_decide as E; simpl in *.
  - split; [done|]. intros H. exfalso. apply H. rewrite E. left.
  - rewrite IH, not_elem_of_cons. naive_solver.
Qed.

Lemma um_find_split k v t : NoDup t.*1 -> um_find k t = Some v ->
  exists t1 t2, t = t1 ++ (k, v) :: t2 /\ k ∉ t1.*1 /\ k ∉ t2.*1.
Proof.
  unfold um_find. induction t as [|[k' v'] t IH]; [done|]. intros Hn.
  simpl in Hn. apply NoDup_cons in Hn as [Hk Hn]. rewrite filter_cons. case_decide as E; simpl in *.
  - intros [= <-]. subst k'. exists [], t. split_and!; [done|set_solver|done].
  - intros Hf. destruct (IH Hn Hf) as (t1 & t2 & -> & H1 & H2).
    exists ((k', v') :: t1), t2. split_and!; [done| |done]. simpl. apply not_elem_of_cons. done.
Qed.

Lemma um_find_mid k v t1 t2 : k ∉ t1.*1 -> um_find k (t1 ++ (k, v) :: t2) = Some v.
Proof.
  intros H. unfold um_find. rewrite filter_app.
  assert (filter (fun x : Node * V => x.1 = k) t1 = []) as ->.
  { induction t1 as [|[k' v'] t1 IH]; [done|]. simpl in H. apply not_elem_of_cons in H as [H1 H2].
    rewrite filter_cons_False by (simpl; congruence). by apply IH. }
  simpl. rewrite filter_cons_True by done. done.
Qed.

Lemma um_update_notin k f t : k ∉ t.*1 -> um_update k f t = t.
Proof.
  intros H. unfold um_update. induction t as [|[k' v] t IH]; [done|].
  simpl in H. apply not_elem_of_cons in H as [H1 H2]. simpl.
  rewrite bool_decide_false by congruence. f_equal. by apply IH.
Qed.

Lemma um_update_mid k f v t1 t2 : k ∉ t1.*1 -> k ∉ t2.*1 ->
  um_update k f (t1 ++ (k, v) :: t2) = t1 ++ (k, f v) :: t2.
Proof.
  intros H1 H2. unfold um_update. rewrite fmap_app, fmap_cons. simpl.
  rewrite bool_decide_true by done. f_equal; [by apply um_update_notin|].
  f_equal. by apply um_update_notin.
Qed.

Lemma um_update_keys k f t : (um_update k f t).*1 = t.*1.
Proof.
  unfold um_update. rewrite <- list_fmap_compose. apply list_fmap_ext. intros i [k' v] _. simpl.
  by case_bool_decide.
Qed.

Lemma um_erase_mid k v t1 t2 : k ∉ t1.*1 -> k ∉ t2.*1 -> um_erase k (t1 ++ (k, v) :: t2) = t1 ++ t2.
Proof.
  assert (forall t, k ∉ t.*1 -> um_erase k t = t) as Hid.
  { intros t. unfold um_erase. induction t as [|[k' v'] t IH]; [done|]. simpl.
    intros [H1 H2]%not_elem_of_cons. rewrite filter_cons_True by (simpl; congruence). f_equal. by apply IH. }
  intros H1 H2. unfold um_erase in *. rewrite filter_app, filter_cons_False by (simpl; auto).
  by rewrite !Hid.
Qed.

Lemma um_insert_new {um : UnorderedMap} k v t : um_find k t = None ->
  exists t', um_insert k v t = (t', true) /\ t' ≡ₚ (k, v) :: t.
Proof. intros H. unfold um_insert. rewrite H. eexists. split; [done|]. apply um_place_perm. Qed.

Lemma um_insert_old {um : UnorderedMap} k v v' t : um_find k t = Some v' -> um_insert k v t = (t, false).
Proof. intros H. unfold um_insert. by rewrite H. Qed.

Lemma pick_range seed n : 0 < n -> exists k, pick seed n = Some k /\ 0 <= k < n.
Proof.
  intros H. unfold pick. rewrite (proj2 (Z.eqb_neq _ _)) by lia.
  eexists. split; [done|]. by apply Z.mod_pos_bound.
Qed.

Lemma um_nth_in k t : t <> [] -> exists n, um_nth k t = Some n /\ n ∈ t.*1.
Proof.
  intros Ht. unfold um_nth. destruct (pick_range k (zlen t)) as (j & -> & Hj).
  { destruct t; [done|zlia]. }
  cbn [mbind option_bind]. destruct (zget_is_Some t j Hj) as [[n v] E]. rewrite E.
  exists n. split; [done|]. unfold zget in E. destruct (0 <=? j); [|done].
  apply list_elem_of_lookup_2 in E. apply list_elem_of_fmap. by exists (n, v).
Qed.

End table.

(** ** Connections of a client *)

Definition node_contexts (n : CRedisNode) : list nat := option_list (nd_context n).
Definition replica_contexts (l : list (Node * CRedisNode)) : list nat := l.*2 ≫= node_contexts.
Definition master_contexts (m : CRedisMasterNode) : list nat :=
  node_contexts (m_self m) ++ replica_contexts (m_replicas m).
Definition table_contexts (l : list (Node * CRedisMasterNode)) : list nat := l.*2 ≫= master_contexts.
Definition owned (c : CRedisClient) : list nat := table_contexts (c_masters c).

Lemma owned_with m c : owned (with_masters m c) = table_contexts m.
Proof. done. Qed.

Lemma table_contexts_cons k m t : table_contexts ((k, m) :: t) = master_contexts m ++ table_contexts t.
Proof. done. Qed.

Lemma replica_contexts_cons k n t : replica_contexts ((k, n) :: t) = node_contexts n ++ replica_contexts t.
Proof. done. Qed.

(** The order of a table does not matter. *)
#[export] Instance table_contexts_proper : Proper ((≡ₚ) ==> (≡ₚ)) table_contexts.
Proof. intros t t' H. unfold table_contexts. by rewrite H. Qed.

#[export] Instance replica_contexts_proper : Proper ((≡ₚ) ==> (≡ₚ)) replica_contexts.
Proof. intros t t' H. unfold replica_contexts. by rewrite H. Qed.

Lemma table_contexts_mid k m t1 t2 :
  table_contexts (t1 ++ (k, m) :: t2) ≡ₚ master_contexts m ++ table_contexts (t1 ++ t2).
Proof.
  unfold table_contexts. rewrite !fmap_app, fmap_cons, !bind_app, bind_cons. simpl.
  solve_Permutation.
Qed.

Lemma replica_contexts_mid k n t1 t2 :
  replica_contexts (t1 ++ (k, n) :: t2) ≡ₚ node_contexts n ++ replica_contexts (t1 ++ t2).
Proof.
  unfold replica_contexts. rewrite !fmap_app, fmap_cons, !bind_app, bind_cons. simpl.
  solve_Permutation.
Qed.

(** The keys of the tables. *)
Definition shape_of (l : list (Node * CRedisMasterNode)) : list (Node * list Node) :=
  (fun x => (x.1, (m_replicas x.2).*1)) <$> l.
Definition shape (c : CRedisClient) : list (Node * list Node) := shape_of (c_masters c).

Definition tables_ok (c : CRedisClient) : Prop :=
  NoDup (shape c).*1 /\ Forall (fun x => NoDup x.2) (shape c).

Definition valid (r : noderef) (c : CRedisClient) : Prop := is_Some (find_node r c).

Lemma shape_keys l : (shape_of l).*1 = l.*1.
Proof. unfold shape_of. by rewrite <- list_fmap_compose. Qed.

Lemma um_find_shape k l : um_find k (shape_of l) = (fun m => (m_replicas m).*1) <$> um_find k l.
Proof.
  unfold um_find, shape_of. induction l as [|[k' m] l IH]; [done|].
  rewrite fmap_cons, !filter_cons. simpl. case_decide; [done|]. apply IH.
Qed.

Lemma um_find_keys {V} k (t : list (Node * V)) : is_Some (um_find k t) <-> k ∈ t.*1.
Proof.
  destruct (um_find k t) as [v|] eqn:E.
  - split; [|done]. intros _. destruct (decide (k ∈ t.*1)) as [|H]; [done|].
    apply um_find_None in H. congruence.
  - apply um_find_None in E. split; [by intros [? ?]|done].
Qed.

(** Which references are valid depends on the keys only. *)
Lemma valid_shape r c c' : shape c = shape c' -> valid r c -> valid r c'.
Proof.
  unfold shape. intros Hs. unfold valid, find_node. destruct r as [n|m r].
  - rewrite !fmap_is_Some, !um_find_keys, <- (shape_keys (c_masters c)), Hs. by rewrite shape_keys.
  - intros [n Hn]. pose proof (um_find_shape m (c_masters c)) as H1. rewrite Hs in H1.
    rewrite um_find_shape in H1. destruct (um_find m (c_masters c)) as [mn|]; [|done].
    cbn [mbind option_bind fmap option_fmap option_map] in *.
    destruct (um_find m (c_masters c')) as [mn'|]; [|done]. simpl in H1. injection H1 as H1.
    cbn [mbind option_bind]. apply um_find_keys. rewrite H1. apply um_find_keys. by eexists.
Qed.

Lemma tables_ok_shape c c' : shape c = shape c' -> tables_ok c -> tables_ok c'.
Proof. unfold tables_ok. by intros ->. Qed.

(** A change of one node. *)
Lemma change_node_spec r f c n : tables_ok c -> find_node r c = Some n ->
  shape (change_node r f c) = shape c /\ find_node r (change_node r f c) = Some (f n) /\
  exists rest, owned c ≡ₚ node_contexts n ++ rest /\
    owned (change_node r f c) ≡ₚ node_contexts (f n) ++ rest.
Proof.
  intros [Hn Hr] Hf. unfold shape, owned in *. destruct r as [k|k r].
  - simpl in Hf. apply fmap_Some in Hf as (m & Hm & ->). rewrite shape_keys in Hn.
    destruct (um_find_split k m _ Hn Hm) as (t1 & t2 & E & H1 & H2).
    unfold change_node. simpl. rewrite E, um_update_mid by done.
    split; [unfold shape_of; by rewrite !fmap_app, !fmap_cons|].
    split; [by rewrite um_find_mid by done|].
    exists (replica_contexts (m_replicas m) ++ table_contexts (t1 ++ t2)).
    rewrite !table_contexts_mid. unfold master_contexts. simpl. by rewrite <- !app_assoc.
  - simpl in Hf. apply bind_Some in Hf as (m & Hm & Hf). rewrite shape_keys in Hn.
    destruct (um_find_split k m _ Hn Hm) as (t1 & t2 & E & H1 & H2).
    assert (NoDup (m_replicas m).*1) as Hd.
    { rewrite E in Hr. unfold shape_of in Hr. rewrite fmap_app, fmap_cons in Hr.
      apply Forall_app in Hr as [_ Hr]. by apply Forall_cons in Hr as [? _]. }
    destruct (um_find_split r n _ Hd Hf) as (u1 & u2 & Eu & Hu1 & Hu2).
    unfold change_node. simpl. rewrite E, um_update_mid by done.
    split; [unfold shape_of; rewrite !fmap_app, !fmap_cons; simpl; by rewrite um_update_keys|].
    split; [rewrite um_find_mid by done; simpl; by rewrite Eu, um_update_mid, um_find_mid by done|].
    exists (node_contexts (m_self m) ++ replica_contexts (u1 ++ u2) ++ table_contexts (t1 ++ t2)).
    rewrite !table_contexts_mid. unfold master_contexts. simpl. rewrite Eu, um_update_mid by done.
    rewrite !replica_contexts_mid. split; solve_Permutation.
Qed.
