(* ===== verification/ClientSpecs.v ===== *)
(** * The cluster client: its operations keep the books

    Against a driver that keeps its promises, every operation of the client
    ends, the connections that are open are those of others ([O]), the ones
    the tables of the client hold and the ones at hand ([l]), and the replies
    allocated are those of [X]. *)

From Stdlib Require Import Strings.Byte String.
From stdpp Require Import gmap.
From S2P Require Import Prelude CLib Read Reply Network Slots StdString ClusterText.
From S2P Require Import ClusterTextFacts ClusterNodes Driver RedisClient ClientFacts.

Section specs.
Context {dm : DataModel} {fl : FloatLib} {W : Type} {drv : Driver W} {rel : Reliable W}.
Context {um : UnorderedMap} {bld : Build}.
Variable O : gset nat.
Implicit Types (s : cstate W) (X : gset nat) (l : list nat).

Definition holds X l (w : W) : Prop :=
  NoDup l /\ (forall c, c ∈ l -> c ∉ O) /\ live w = O ∪ list_to_set l /\ replies w = X.

Lemma holds_perm X l l' w : l ≡ₚ l' -> holds X l w -> holds X l' w.
Proof.
  intros Hp (H1 & H2 & H3 & H4). split_and!; [by rewrite <- Hp| |by rewrite <- Hp|done].
  intros c. rewrite <- Hp. apply H2.
Qed.

Lemma holds_live X l w c : holds X l w -> c ∈ l -> c ∈ live w.
Proof. intros (_ & _ & -> & _) Hc. apply elem_of_union_r, elem_of_list_to_set. done. Qed.

Lemma holds_same X l w w' : holds X l w -> live w' = live w -> replies w' = replies w -> holds X l w'.
Proof. intros (H1 & H2 & H3 & H4) E1 E2. split_and!; [done..|by rewrite E1|by rewrite E2]. Qed.

Lemma holds_add X l w w' c : holds X l w -> c ∉ live w -> live w' = {[c]} ∪ live w ->
  replies w' = replies w -> holds X (c :: l) w'.
Proof.
  intros (H1 & H2 & H3 & H4) Hc E1 E2. rewrite H3 in Hc. split_and!.
  - apply NoDup_cons. split; [|done]. set_solver.
  - set_solver.
  - rewrite E1, H3. simpl. set_solver.
  - by rewrite E2.
Qed.

Lemma holds_remove X l w w' c : holds X (c :: l) w -> live w' = live w ∖ {[c]} ->
  replies w' = replies w -> holds X l w'.
Proof.
  intros (H1 & H2 & H3 & H4) E1 E2. apply NoDup_cons in H1 as [Hc H1]. split_and!.
  - done.
  - set_solver.
  - rewrite E1, H3. assert (c ∉ O) by (apply H2; set_solver). simpl. set_solver.
  - by rewrite E2.
Qed.

(** ** Connections *)

(** Nothing of the client changes but the books. *)
Definition books {A} X (l : A -> list nat) s (x : A) s' : Prop :=
  s_client s' = s_client s /\ holds X (l x) (s_world s').

Lemma drive_free X l c s : holds X (c :: l) (s_world s) ->
  yields (drive_ (hi_free c)) s (books X (fun _ => l) s).
Proof.
  intros H. assert (c ∈ live (s_world s)) as Hc by (eapply holds_live; [exact H|left]).
  destruct (free_law c (s_world s) Hc) as (w' & E & El & Er).
  eapply yields_drive_; [exact E|]. split; [done|]. by eapply holds_remove.
Qed.

Lemma free_helper_spec X l o s : holds (list_to_set (option_list o) ∪ X) l (s_world s) ->
  (forall r, o = Some r -> r ∉ X) -> yields (free_helper o) s (books X (fun _ => l) s).
Proof.
  intros (H1 & H2 & H3 & H4) Hr. destruct o as [r|]; simpl.
  - assert (r ∈ replies (s_world s)) as Hin by (rewrite H4; simpl; set_solver).
    destruct (free_reply_law r (s_world s) Hin) as (w' & E & El & Er).
    eapply yields_drive_; [exact E|]. split; [done|]. split_and!; [done|done|by simpl; rewrite El|].
    simpl. rewrite Er, H4. simpl. specialize (Hr r eq_refl). set_solver.
  - crun. split; [done|]. split_and!; [done|done|done|]. rewrite H4. simpl. set_solver.
Qed.

Lemma extract_errtype_some len str e : exists ty, extract_errtype len (Some str) e = Some ty.
Proof. unfold extract_errtype. simpl. repeat case_match; eauto. Qed.

(** A command of the client: the reply, which the caller frees. *)
Lemma own_command_spec X l c format ap s : holds X (c :: l) (s_world s) -> own_command format ->
  yields (drive (hi_command c format ap)) s (fun o s' =>
    s_client s' = s_client s /\ holds (list_to_set (option_list o) ∪ X) (c :: l) (s_world s') /\
    (forall r, o = Some r -> r ∉ X /\ exists cell str, hi_cell r (s_world s') = Some cell /\
       rp_str cell = Some str /\
       (format = bs "CLUSTER NODES" -> rp_type cell = REDIS_REPLY_STRING -> topology_ok (cstr str)))).
Proof.
  intros H Hf. assert (c ∈ live (s_world s)) as Hc by (eapply holds_live; [exact H|left]).
  destruct (command_law c format ap (s_world s) Hc Hf) as (r & w' & E & El & Hr).
  eapply yields_drive; [exact E|]. split; [done|]. destruct H as (H1 & H2 & H3 & H4).
  destruct r as [r|]; simpl.
  - destruct Hr as (Hn & Er & Hcell). rewrite H4 in Hn, Er. split.
    + split_and!; [done|done|by rewrite El|]. rewrite Er. set_solver.
    + intros ? [= <-]. done.
  - split; [|done]. split_and!; [done|done|by rewrite El|]. rewrite Hr, H4. set_solver.
Qed.

Lemma expect_ok_spec X l c format ap code failed s :
  holds X (c :: l) (s_world s) -> own_command format ->
  yields (expect_ok c format ap code failed) s (books X (fun o => option_list o ++ l) s).
Proof.
  intros H Hf. unfold expect_ok.
  eapply yields_seq; [by apply (own_command_spec X l c format ap s)|].
  intros o s1 (Ec & H1 & Ho). destruct o as [r|].
  - destruct (Ho r eq_refl) as (Hr & cell & str & Ecell & Estr & _).
    crun. eapply yields_observe; [exact Ecell|]. crun. eapply yields_must; [exact Estr|]. crun.
    assert (forall x s2, s_client s2 = s_client s -> 
      holds (list_to_set (option_list (Some r)) ∪ X) (option_list x ++ l) (s_world s2) ->
      yields (_ ← drive_ (hi_free_reply r); mret x) s2 (books X (fun o => option_list o ++ l) s)) as Hend.
    { intros x s2 E2 H2. eapply (yields_seq (free_helper (Some r))); [apply (free_helper_spec X (option_list x ++ l) (Some r)); [exact H2|by intros ? [= <-]]|].
      intros [] s3 [E3 H3]. crun. split; [by rewrite E3|exact H3]. }
    destruct (bool_decide (cstr str = bs "OK")).
    + crun. by apply Hend.
    + repeat crun. rewrite Estr. destruct (extract_errtype_some (rp_len cell) str (errtype (s_error s1))) as [ty Ety].
      eapply yields_must; [exact Ety|]. repeat crun. cbn.
      eapply yields_mono; [eapply (drive_free _ l); eassumption|]. intros [] s2 [E2 H2]. crun. cbn in E2.
      apply Hend; [by rewrite E2|done].
  - repeat crun. cbn. eapply yields_mono; [eapply (drive_free _ l); eassumption|]. intros [] s2 [E2 H2]. crun.
    cbn in E2. split; [by rewrite E2|]. simpl in *. by rewrite union_empty_l_L in H2.
Qed.

Lemma open_context_spec X l node s : holds X l (s_world s) ->
  yields (open_context node) s (books X (fun o => option_list o ++ l) s).
Proof.
  intros H. unfold open_context. repeat crun.
  destruct (connect_law (cstr node.1) node.2
    (if c_connect_timeout_milliseconds (s_client s) <=? 0 then None
     else Some (milliseconds (c_connect_timeout_milliseconds (s_client s)))) (s_world s))
    as (o & w' & E & Er & Hl).
  eapply yields_drive; [exact E|]. destruct o as [c|].
  - destruct Hl as [Hc Hl].
    assert (holds X (c :: l) w') as H1 by (by eapply holds_add).
    assert (c ∈ live w') as Hlive by (eapply holds_live; [exact H1|left]).
    assert (forall s1 raw, s_client s1 = s_client s -> holds X (c :: l) (s_world s1) ->
      yields (_ ← upd_error (set_error ERROR_INIT_REDIS_CONN raw); _ ← drive_ (hi_free c); mret None) s1
        (books X (fun o => option_list o ++ l) s)) as Hfail.
    { intros s1 raw E1 Hh. repeat crun. eapply yields_mono; [eapply (drive_free X l); eassumption|].
      intros [] s2 [E2 H2]. crun. cbn in E2. split; [by rewrite E2|done]. }
    destruct (error_law c w' Hlive) as [e Ee]. crun. eapply yields_observe; [exact Ee|].
    destruct (negb (e.1 =? 0)); [by apply Hfail|]. repeat crun.
    destruct (0 <? _); [|by crun]. crun.
    destruct (timeout_law c (milliseconds (c_readwrite_timeout_milliseconds (s_client s))) w' Hlive)
      as (r & w2 & E2 & Er2 & El2).
    assert (holds X (c :: l) w2) as H2 by (by eapply holds_same).
    eapply yields_drive; [exact E2|]. cbn. destruct (r =? REDIS_ERR); [|by crun].
    destruct (error_law c w2) as [e2 Ee2]; [by rewrite El2|]. crun. eapply yields_observe; [exact Ee2|].
    by apply Hfail.
  - repeat crun. split; [done|]. by eapply holds_same.
Qed.

Lemma connect_spec X l node readonly s : holds X l (s_world s) ->
  yields (connect_redis_node node readonly) s (books X (fun o => option_list o ++ l) s).
Proof.
  intros H. unfold connect_redis_node. repeat crun.
  eapply yields_mono; [by apply (open_context_spec X l)|]. intros o s1 [E1 H1]. cbn in E1. crun.
  assert (forall o s2, s_client s2 = s_client s -> holds X (option_list o ++ l) (s_world s2) ->
    yields match o with
           | Some c => if readonly
                       then expect_ok c (bs "READONLY") [] ERROR_REDIS_READONLY (bs "readonly failed")
                       else mret o
           | None => mret None
           end s2 (books X (fun o => option_list o ++ l) s)) as Hend.
  { intros [c|] s2 E2 H2; [|by crun]. destruct readonly; [|by crun].
    eapply yields_mono; [apply (expect_ok_spec X l); [done|by right; left]|].
    intros o' s3 [E3 H3]. split; [by rewrite E3|done]. }
  destruct o as [c|]; [|crun; by apply (Hend None)]. repeat crun.
  destruct (bool_decide _); [|crun; by apply (Hend (Some c))].
  eapply yields_mono; [apply (expect_ok_spec X l); [done|by left]|].
  intros o' s3 [E3 H3]. apply (Hend o'); [by rewrite E3|done].
Qed.

Lemma list_nodes_spec X l c s : holds X (c :: l) (s_world s) ->
  yields (list_cluster_nodes c) s (fun r s' => books X (fun _ => c :: l) s r s' /\
    Forall info_ok r.2 /\ (r.1 = true <-> r.2 <> [])).
Proof.
  intros H. unfold list_cluster_nodes.
  eapply yields_seq; [apply (own_command_spec X l c (bs "CLUSTER NODES") [] s); [done|by right; right; left]|].
  intros o s1 (E1 & H1 & Ho). crun. crun.
  assert (forall infos s2, s_client s2 = s_client s -> Forall info_ok infos ->
    holds (list_to_set (option_list o) ∪ X) (c :: l) (s_world s2) ->
    yields (_ ← free_helper o; mret (bool_decide (infos <> []), infos)) s2 (fun r s' =>
      books X (fun _ => c :: l) s r s' /\ Forall info_ok r.2 /\ (r.1 = true <-> r.2 <> []))) as Hend.
  { intros infos s2 E2 Hi H2. eapply yields_seq;
      [apply (free_helper_spec X (c :: l) o); [done|by intros r Er; apply Ho]|].
    intros [] s3 [E3 H3]. crun. split; [|split; [done|apply bool_decide_eq_true]].
    split; [by rewrite E3|done]. }
  crun. destruct o as [r|].
  - destruct (Ho r eq_refl) as (_ & cell & str & Ecell & Estr & Htop).
    crun. eapply yields_observe; [exact Ecell|]. crun. eapply yields_must; [exact Estr|].
    destruct (rp_type cell =? REDIS_REPLY_ERROR); [do 3 crun; by apply (Hend [])|].
    destruct (Z.eqb_spec (rp_type cell) REDIS_REPLY_STRING) as [Et|]; cbn [negb];
      [|do 3 crun; by apply (Hend [])].
    repeat crun. destruct (Htop eq_refl Et (s_error
      (CState (s_client s1) no_error (s_which s1) (s_events s1) (s_world s1)))) as (infos & e' & Ep & Hi).
    eapply yields_must; [exact Ep|]. do 3 crun. by apply (Hend infos).
  - repeat crun. destruct (error_law c (s_world s1)) as [e Ee]; [eapply holds_live; [exact H1|left]|].
    eapply yields_observe; [exact Ee|]. do 3 crun. by apply (Hend []).
Qed.

(** ** The client *)

(** What a client in cluster mode ([b]) has: two nodes at least, and a place for
    every slot; with one node, it always has its connection object. *)
Definition mode_ok (b : bool) (c : CRedisClient) : Prop :=
  if b then 1 < zlen (c_nodes c) /\ zlen (c_slot2node c) = CLUSTER_SLOTS
  else zlen (c_nodes c) = 1 /\ shape c <> [].

(** What holds between the operations: the books, the tables, and the mode. *)
Record inv (b : bool) X l s : Prop := Inv {
  i_holds : holds X (owned (s_client s) ++ l) (s_world s);
  i_tables : tables_ok (s_client s);
  i_mode : mode_ok b (s_client s)
}.

Lemma mode_shape b c c' : mode_ok b c -> shape c' = shape c -> c_nodes c' = c_nodes c ->
  c_slot2node c' = c_slot2node c -> mode_ok b c'.
Proof. unfold mode_ok. by intros H -> -> ->. Qed.

Lemma inv_perm b X l l' s : l ≡ₚ l' -> inv b X l s -> inv b X l' s.
Proof. intros Hp []. split; [|done..]. eapply holds_perm; [|done]. by rewrite Hp. Qed.

(** Changes that leave the masters, and the length of the other tables. *)
Lemma inv_change b X l s c e wh ev : inv b X l s -> c_masters c = c_masters (s_client s) ->
  mode_ok b c ->
  inv b X l (CState c e wh ev (s_world s)).
Proof.
  intros [H1 H2 H3] E1 E2.
  split; cbn; [|unfold tables_ok, shape in *; by rewrite E1|done..].
  unfold owned in *. by rewrite E1.
Qed.

(** A call that only changes the books. *)
Lemma inv_books {A} b X l k m (mm : CM W A) s P : inv b X (k ++ l) s ->
  (forall l, holds X (k ++ l) (s_world s) -> yields mm s (books X (fun x => m x ++ l) s)) ->
  (forall x s', s_client s' = s_client s -> inv b X (m x ++ l) s' -> P x s') -> yields mm s P.
Proof.
  intros [H1 H2 H3] Hm HP. eapply yields_mono; [apply (Hm (owned (s_client s) ++ l))|].
  - eapply holds_perm; [|exact H1]. solve_Permutation.
  - intros x s' [E H]. apply HP; [done|]. split; rewrite E; [|done..].
    eapply holds_perm; [|exact H]. solve_Permutation.
Qed.

Lemma inv_connect b X l node readonly s P : inv b X l s ->
  (forall o s', s_client s' = s_client s -> inv b X (option_list o ++ l) s' -> P o s') ->
  yields (connect_redis_node node readonly) s P.
Proof. intros H. apply (inv_books b X l [] (fun o => option_list o)); [done|]. intros. by apply connect_spec. Qed.

Lemma inv_free b X l c s P : inv b X (c :: l) s ->
  (forall s', s_client s' = s_client s -> inv b X l s' -> P tt s') -> yields (drive_ (hi_free c)) s P.
Proof.
  intros H HP. apply (inv_books b X l [c] (fun _ => [])); [done|intros; by eapply drive_free|].
  intros []. apply HP.
Qed.

Lemma inv_list_nodes b X l c s P : inv b X (c :: l) s ->
  (forall r s', s_client s' = s_client s -> inv b X (c :: l) s' -> Forall info_ok r.2 ->
     (r.1 = true <-> r.2 <> []) -> P r s') ->
  yields (list_cluster_nodes c) s P.
Proof.
  intros [H1 H2 H3] HP. eapply yields_mono; [apply (list_nodes_spec X (owned (s_client s) ++ l))|].
  - eapply holds_perm; [|exact H1]. solve_Permutation.
  - intros r s' ((E & H) & Hi & Hr). apply HP; [done| |done..]. split; rewrite E; [|done..].
    eapply holds_perm; [|exact H]. solve_Permutation.
Qed.

Lemma inv_close_node b X l n s P : inv b X (node_contexts n ++ l) s ->
  (forall s', s_client s' = s_client s -> inv b X l s' -> P tt s') -> yields (close_context n) s P.
Proof.
  unfold node_contexts, close_context. destruct (nd_context n) as [c|]; simpl; intros H HP.
  - by apply (inv_free b X l).
  - crun. by apply HP.
Qed.

Lemma inv_close_all b X l rs s P : inv b X (replica_contexts rs ++ l) s ->
  (forall s', s_client s' = s_client s -> inv b X l s' -> P tt s') -> yields (close_all rs) s P.
Proof.
  revert s. induction rs as [|[k n] rs IH]; intros s H HP; simpl; [crun; by apply HP|].
  crun. apply (inv_close_node b X (replica_contexts rs ++ l)).
  { rewrite app_assoc. exact H. }
  intros s1 E1 H1. apply IH; [done|]. intros s2 E2 H2. apply HP; [by rewrite E2|done].
Qed.

Lemma inv_delete_master b X l m s P : inv b X (master_contexts m ++ l) s ->
  (forall s', s_client s' = s_client s -> inv b X l s' -> P tt s') -> yields (delete_master m) s P.
Proof.
  intros H HP. unfold delete_master. crun. apply (inv_close_all b X (node_contexts (m_self m) ++ l)).
  { eapply inv_perm; [|exact H]. unfold master_contexts. solve_Permutation. }
  intros s1 E1 H1. apply (inv_close_node b X l); [done|]. intros s2 E2 H2. apply HP; [by rewrite E2|done].
Qed.

(** ** References *)

Lemma the_node_spec r s P : valid r (s_client s) ->
  (forall n, find_node r (s_client s) = Some n -> P n s) -> yields (the_node r) s P.
Proof.
  intros [n Hn] HP. unfold the_node. repeat crun. eapply yields_must; [exact Hn|]. by apply HP.
Qed.

(** A change of a node, with the connections it gains and loses. *)
Lemma upd_node_found b X l l' r f n s P : inv b X l s -> find_node r (s_client s) = Some n ->
  node_contexts n ++ l ≡ₚ node_contexts (f n) ++ l' ->
  (forall s', inv b X l' s' -> shape (s_client s') = shape (s_client s) ->
     find_node r (s_client s') = Some (f n) -> P tt s') ->
  yields (upd_node r f) s P.
Proof.
  intros [H1 H2 H3] Hn Hf HP. unfold upd_node. crun. apply the_node_spec; [by eexists|].
  intros ? _. crun. destruct (change_node_spec r f _ n H2 Hn) as (E1 & E2 & rest & E3 & E4).
  apply HP; [|done..]. split; cbn; [|by eapply tables_ok_shape|by eapply mode_shape].
  eapply holds_perm; [|exact H1].
  rewrite E3, E4, <- !app_assoc, (Permutation_app_comm rest), (Permutation_app_comm rest).
  by rewrite !app_assoc, Hf.
Qed.

Lemma upd_node_spec b X l l' r f s P : inv b X l s -> valid r (s_client s) ->
  (forall n, find_node r (s_client s) = Some n -> node_contexts n ++ l ≡ₚ node_contexts (f n) ++ l') ->
  (forall s', inv b X l' s' -> shape (s_client s') = shape (s_client s) -> P tt s') ->
  yields (upd_node r f) s P.
Proof. intros H [n Hn] Hf HP. eapply upd_node_found; [done|done|by apply Hf|]. intros. by apply HP. Qed.

Lemma inv_keep_node b X l r f s P : inv b X l s -> valid r (s_client s) ->
  (forall n, nd_context (f n) = nd_context n) ->
  (forall s', inv b X l s' -> shape (s_client s') = shape (s_client s) -> P tt s') ->
  yields (upd_node r f) s P.
Proof.
  intros H Hr Hf. apply (upd_node_spec b X l l); [done|done|]. intros n _. unfold node_contexts. by rewrite Hf.
Qed.

Lemma inv_close b X l r s P : inv b X l s -> valid r (s_client s) ->
  (forall s', inv b X l s' -> shape (s_client s') = shape (s_client s) -> P tt s') ->
  yields (close r) s P.
Proof.
  intros H Hr HP. unfold close. crun. apply the_node_spec; [done|]. intros n Hn. crun.
  pose proof H as [H1 H2 H3].
  destruct (change_node_spec r (nd_with_context None) _ n H2 Hn) as (E1 & E2 & rest & E3 & E4).
  assert (yields (close_context n) s (books X (fun _ => rest ++ l) s)) as Hc.
  { assert (holds X (node_contexts n ++ rest ++ l) (s_world s)) as Hh
      by (eapply holds_perm; [|exact H1]; by rewrite E3, app_assoc).
    unfold close_context. unfold node_contexts in Hh. destruct (nd_context n) as [c|]; simpl in Hh.
    - by eapply drive_free.
    - by crun. }
  eapply yields_mono; [exact Hc|]. intros [] s1 [Es Hs]. unfold upd_node. crun.
  apply the_node_spec; [by rewrite Es|]. intros n' _. crun. rewrite Es. apply HP; [|done].
  split; cbn; [|by eapply tables_ok_shape|by eapply mode_shape]. eapply holds_perm; [|exact Hs]. by rewrite E4.
Qed.

(** The connection of a node, made when there is none. *)
Lemma inv_connected b X l r s P : inv b X l s -> valid r (s_client s) ->
  (forall o s', inv b X l s' -> shape (s_client s') = shape (s_client s) -> P o s') ->
  yields (connected r) s P.
Proof.
  intros H Hr HP. unfold connected. crun. apply the_node_spec; [done|]. intros n Hn.
  destruct (nd_context n) as [c|] eqn:Ec; [crun; by apply HP|]. crun.
  apply (inv_connect b X l); [done|]. intros o s1 E1 H1. crun.
  apply (upd_node_spec b X (option_list o ++ l) l); [done|by rewrite E1| |].
  - rewrite E1, Hn. intros ? [= <-]. unfold node_contexts. rewrite Ec. by destruct o.
  - intros s2 H2 E2. crun. apply HP; [done|]. by rewrite E2, E1.
Qed.

End specs.
