(* ===== verification/ClientTable.v ===== *)
(** * The cluster client: its tables

    Adding, updating and clearing nodes, the slots, and refreshing the whole:
    what each does to the tables, and that the books stay in order. *)

From Stdlib Require Import Strings.Byte String.
From stdpp Require Import gmap.
From S2P Require Import Prelude CLib Read Reply Network Slots StdString ClusterText.
From S2P Require Import ClusterTextFacts ClusterNodes Driver RedisClient ClientFacts ClientSpecs.

(** ** Slots *)

Lemma zwrite_point {A} (t : list A) i x : 0 <= i < zlen t ->
  exists t', zwrite t i [x] = Some t' /\ zlen t' = zlen t /\
    forall j, zget t' j = if j =? i then Some x else zget t j.
Proof.
  intros Hi. destruct (zget_is_Some t i Hi) as [y Ey].
  assert (t = ztake i t ++ y :: zdrop (i + 1) t) as E.
  { rewrite <- (ztake_zdrop i t) at 1. f_equal. by apply zdrop_cons. }
  assert (zlen (ztake i t) = i) as El by (apply zlen_ztake; lia).
  revert E El. generalize (ztake i t) (zdrop (i + 1) t). intros a r -> <-. clear.
  exists (a ++ x :: r). split_and!; [apply zwrite_one|by rewrite !zlen_app, !zlen_cons|].
  intros j. destruct (Z.eqb_spec j (zlen a)) as [->|Hj]; [apply zget_mid|].
  destruct (Z.lt_ge_cases j (zlen a)).
  - by rewrite !zget_app_l by lia.
  - rewrite !zget_app_r by lia.
    change (x :: r) with ([x] ++ r). change (y :: r) with ([y] ++ r).
    by rewrite !(zget_app_r [_]) by (rewrite ?zlen_cons, ?zlen_nil; lia).
Qed.

Lemma write_slots_spec fuel first last node (t : list Node) : 0 <= first -> last < zlen t ->
  last - first < Z.of_nat fuel ->
  exists t', write_slots fuel first last node t = Some t' /\ zlen t' = zlen t /\
    forall i, zget t' i = if (first <=? i) && (i <=? last) then Some node else zget t i.
Proof.
  revert first t. induction fuel as [|fuel IH]; intros first t Hf Hl Hfuel.
  - simpl. rewrite (proj2 (Z.ltb_lt last first)) by lia. exists t. split_and!; [done..|].
    intros i. destruct (Z.leb_spec first i), (Z.leb_spec i last); simpl; (done || lia).
  - simpl. destruct (Z.ltb_spec last first).
    { exists t. split_and!; [done..|].
      intros i. destruct (Z.leb_spec first i), (Z.leb_spec i last); simpl; (done || lia). }
    destruct (zwrite_point t first node) as (t1 & -> & El & Eg); [lia|]. cbn [mbind option_bind].
    destruct (IH (first + 1) t1) as (t2 & -> & El2 & Eg2); [lia..|].
    exists t2. split_and!; [done|lia|]. intros i. rewrite Eg2, Eg.
    destruct (Z.leb_spec (first + 1) i), (Z.leb_spec i last), (Z.leb_spec first i), (Z.eqb_spec i first);
      simpl; (done || lia).
Qed.

(** Whether a slot is in one of the segments. *)
Definition in_segments (slots : list (Z * Z)) (i : Z) : bool :=
  existsb (fun x => (x.1 <=? i) && (i <=? x.2)) slots.

Lemma update_segments_spec slots node (t : list Node) :
  Forall (fun x => 0 <= x.1 /\ x.2 < zlen t) slots ->
  exists t', update_segments slots node t = Some t' /\ zlen t' = zlen t /\
    forall i, zget t' i = if in_segments slots i then Some node else zget t i.
Proof.
  revert t. induction slots as [|[first last] slots IH]; intros t Hs; [by exists t|].
  apply Forall_cons in Hs as [[Hf Hl] Hs]. simpl in Hf, Hl. simpl.
  destruct (write_slots_spec (length t) first last node t) as (t1 & -> & El & Eg); [done..|unfold zlen in *; lia|].
  cbn [mbind option_bind]. destruct (IH t1) as (t2 & -> & El2 & Eg2).
  { eapply Forall_impl; [exact Hs|]. intros x Hx. by rewrite El. }
  exists t2. split_and!; [done|lia|]. intros i. rewrite Eg2, Eg. unfold in_segments. simpl.
  destruct (existsb _ slots), ((first <=? i) && (i <=? last)); done.
Qed.

Section table.
Context {dm : DataModel} {fl : FloatLib} {W : Type} {drv : Driver W} {rel : Reliable W}.
Context {um : UnorderedMap} {bld : Build}.
Hypothesis release : ndebug = true.
Variable O : gset nat.
Implicit Types (s : cstate W) (X : gset nat) (l : list nat).

#[local] Abbreviation inv := (inv O).

Lemma update_slots_spec X l info s P : inv true X l s -> info_ok info ->
  (forall t e, zlen t = CLUSTER_SLOTS ->
     (forall i, zget t i = if in_segments (n_slots info) i then Some (n_node info)
                           else zget (c_slot2node (s_client s)) i) ->
     let s' := CState (with_slot2node t (s_client s)) e (s_which s) (s_events s) (s_world s) in
     inv true X l s' -> P tt s') ->
  yields (update_slots info) s P.
Proof.
  intros H [_ Hi] HP. unfold update_slots. repeat crun. pose proof (i_mode _ _ _ _ _ H) as [Hn Hs].
  destruct (update_segments_spec (n_slots info) (n_node info) (c_slot2node (s_client s)))
    as (t & Et & El & Eg). { by rewrite Hs. }
  eapply yields_must; [exact Et|]. crun. apply HP; [by rewrite El|done|].
  apply inv_change; [done..|]. split; [done|]. cbn. by rewrite El.
Qed.

Lemma update_nodes_string_spec b X l info s P : inv b X l s -> info_ok info ->
  (forall str, let s' := CState (with_nodes_string str (s_client s)) (s_error s) (s_which s)
                           (s_events s) (s_world s) in inv b X l s' -> P tt s') ->
  yields (update_nodes_string info) s P.
Proof.
  intros H [Hp _] HP. unfold update_nodes_string. crun.
  eapply yields_must; [by apply node2string_addr|]. crun. apply HP.
  apply inv_change; [done..|]. eapply mode_shape; [apply H|done..].
Qed.

(** ** Adding nodes *)

(** A new entry of the table of masters. *)
Lemma insert_master b X l k m masters e wh ev c w :
  inv b X (master_contexts m ++ l) (CState c e wh ev w) ->
  masters ≡ₚ (k, m) :: c_masters c -> um_find k (c_masters c) = None -> NoDup (m_replicas m).*1 ->
  inv b X l (CState (with_masters masters c) e wh ev w).
Proof.
  intros [H1 [H2 H2'] H3] Hp Hf Hr. cbn in *.
  assert (shape_of masters ≡ₚ (k, (m_replicas m).*1) :: shape c) as Hsh
    by (unfold shape, shape_of; rewrite Hp; done).
  split; cbn [s_client s_world].
  - eapply holds_perm; [|exact H1]. rewrite owned_with, Hp, table_contexts_cons. unfold owned. solve_Permutation.
  - unfold tables_ok, shape. cbn. rewrite Hsh. simpl. split.
    + apply NoDup_cons. split; [|done]. unfold shape. rewrite shape_keys. by apply um_find_None.
    + by apply Forall_cons.
  - destruct b; [exact H3|]. destruct H3 as [H3 _]. split; [done|].
    change (shape (with_masters masters c)) with (shape_of masters).
    intros E. rewrite E in Hsh. by apply Permutation_nil_cons in Hsh.
Qed.

Lemma add_master_node_spec b X l info s P : inv b X l s -> info_ok info ->
  (forall ok s', inv b X l s' -> c_slot2node (s_client s') = c_slot2node (s_client s) ->
     (forall k, is_Some (um_find k (c_masters (s_client s'))) <->
        k = n_node info \/ is_Some (um_find k (c_masters (s_client s)))) -> P ok s') ->
  yields (add_master_node info) s P.
Proof.
  intros H Hi HP. unfold add_master_node. crun. apply (inv_connect O b X l); [done|].
  intros o s1 E1 H1. repeat crun.
  set (m := new_master (n_id info) (n_node info) o).
  assert (master_contexts m = option_list o) as Em.
  { unfold master_contexts, node_contexts, replica_contexts. simpl. by rewrite app_nil_r. }
  destruct (um_find (n_node info) (c_masters (s_client s1))) as [m'|] eqn:Ef.
  - rewrite (um_insert_old _ _ _ _ Ef). repeat crun. apply yields_assert; [by rewrite release|].
    crun. apply (inv_delete_master O b X l).
    { rewrite Em. apply inv_change; [done..|]. eapply mode_shape; [apply H1|done..]. }
    intros s2 E2 H2. repeat crun. apply HP.
    + apply inv_change; [done|done|]. eapply mode_shape; [apply H2|done..].
    + cbn. by rewrite E2, <- E1.
    + intros k. cbn. rewrite E2. cbn. rewrite <- E1. split; [by right|]. intros [->|]; [by eexists|done].
  - destruct (um_insert_new (n_node info) m _ Ef) as (t & -> & Ht). repeat crun.
    apply yields_assert; [done|]. repeat crun.
    assert (forall x, is_Some (um_find x t) <-> x = n_node info \/ is_Some (um_find x (c_masters (s_client s)))) as Hk.
    { intros x. rewrite !um_find_keys, Ht, <- E1. simpl. by rewrite elem_of_cons. }
    apply HP; [|by cbn; rewrite <- E1|done].
    assert (inv b X l (CState (with_masters t (s_client s1)) (s_error s1) (s_which s1) (s_events s1) (s_world s1)))
      as H2.
    { eapply insert_master; [by rewrite Em; destruct s1|exact Ht|done|constructor]. }
    apply (inv_change O b X l _ _ _ _ _ H2); [done|]. eapply mode_shape; [apply H2|done..].
Qed.

Lemma init_master_loop_spec many X l infos : forall n rs s P, inv true X l s ->
  Forall info_ok infos -> Forall info_ok rs ->
  (forall r s', inv true X l s' -> Forall info_ok r.2 -> P r s') ->
  yields (init_master_loop many infos n rs) s P.
Proof.
  induction infos as [|info infos IH]; intros n rs s P H Hi Hrs HP; simpl; [crun; by apply HP|].
  apply Forall_cons in Hi as [Hi His]. crun.
  assert (forall s1, inv true X l s1 ->
    yields (if is_master info && negb (is_fail info) then
        _ ← update_slots info; ok ← add_master_node info;
        init_master_loop many infos (if (ok : bool) then n + 1 else n) rs
      else if is_replica info && negb (is_fail info) then init_master_loop many infos n (rs ++ [info])
      else init_master_loop many infos n rs) s1 P) as Hrest.
  { intros s1 H1. destruct (is_master info && _).
    - crun. apply (update_slots_spec X l); [done..|]. intros t e Ht Hg s2 H2. crun.
      apply (add_master_node_spec true X l); [done..|]. intros ok s3 H3 _ _. by apply IH.
    - destruct (is_replica info && _); apply IH; try done. by apply Forall_app, conj; [|constructor]. }
  destruct many; [|crun; by apply Hrest].
  apply (update_nodes_string_spec true X l); [done..|]. intros str s1 H1. by apply Hrest.
Qed.

Lemma init_master_nodes_spec X l infos s P : inv true X l s -> Forall info_ok infos ->
  (forall r s', inv true X l s' -> Forall info_ok r.2 -> P r s') ->
  yields (init_master_nodes infos) s P.
Proof.
  intros H Hi HP. unfold init_master_nodes. repeat crun.
  apply (init_master_loop_spec _ X l); [|done|constructor|].
  - apply inv_change; [done..|]. eapply mode_shape; [apply H|done..].
  - intros r s' H' Hr. crun. by apply HP.
Qed.

(** A master whose replicas change. *)
Lemma set_replicas b X l l' k mn rs e wh ev c w :
  inv b X l (CState c e wh ev w) -> um_find k (c_masters c) = Some mn ->
  NoDup rs.*1 -> replica_contexts (m_replicas mn) ++ l ≡ₚ replica_contexts rs ++ l' ->
  inv b X l' (CState (with_masters (um_update k (m_with_replicas rs) (c_masters c)) c) e wh ev w).
Proof.
  intros [H1 [H2 H2'] H3] Hf Hr Hp. cbn in *. unfold shape in *. rewrite shape_keys in H2.
  destruct (um_find_split k mn _ H2 Hf) as (t1 & t2 & E & Hk1 & Hk2).
  rewrite E, um_update_mid by done. split; cbn [s_client s_world].
  - eapply holds_perm; [|exact H1]. rewrite owned_with. unfold owned. rewrite E, !table_contexts_mid.
    change (master_contexts (m_with_replicas rs mn)) with (node_contexts (m_self mn) ++ replica_contexts rs).
    unfold master_contexts. rewrite <- !app_assoc. apply Permutation_app_head.
    rewrite (Permutation_app_comm (table_contexts _)), app_assoc, Hp.
    solve_Permutation.
  - unfold tables_ok, shape. cbn. rewrite E in H2'. unfold shape_of in H2'.
    rewrite fmap_app, fmap_cons in H2'. apply Forall_app in H2' as [Ha Hb]. apply Forall_cons in Hb as [_ Hb].
    split.
    + rewrite shape_keys, fmap_app, fmap_cons. simpl. rewrite E, fmap_app, fmap_cons in H2. done.
    + unfold shape_of. rewrite fmap_app, fmap_cons. apply Forall_app. split; [done|]. by apply Forall_cons.
  - unfold mode_ok, shape, shape_of in *. cbn. destruct b; [exact H3|]. split; [apply H3|].
    by destruct t1.
Qed.

Lemma um_update_ext {V} k (f g : V -> V) t : (forall v, um_find k t = Some v -> NoDup t.*1 -> f v = g v) ->
  NoDup t.*1 -> um_update k f t = um_update k g t.
Proof.
  intros Hfg Hn. destruct (um_find k t) as [v|] eqn:E.
  - destruct (um_find_split k v t Hn E) as (t1 & t2 & -> & H1 & H2).
    rewrite !um_update_mid by done. by rewrite (Hfg v).
  - apply um_find_None in E. by rewrite !um_update_notin.
Qed.

Lemma add_replica_spec b X l k r s P : inv b X (node_contexts r ++ l) s ->
  is_Some (um_find k (c_masters (s_client s))) ->
  (forall s', inv b X l s' -> P tt s') -> yields (add_replica_node k r) s P.
Proof.
  intros H [mn Hm] HP. unfold add_replica_node. repeat crun. eapply yields_must; [exact Hm|].
  pose proof (i_tables _ _ _ _ _ H) as [Hn Hr]. unfold shape in Hn. rewrite shape_keys in Hn.
  assert (NoDup (m_replicas mn).*1) as Hd.
  { destruct (um_find_split k mn _ Hn Hm) as (t1 & t2 & E & _). unfold shape, shape_of in Hr.
    rewrite E, fmap_app, fmap_cons in Hr. apply Forall_app in Hr as [_ Hr]. by apply Forall_cons in Hr as [? _]. }
  destruct (um_find (nd_node r) (m_replicas mn)) as [old|] eqn:Eo.
  - destruct (um_find_split _ _ _ Hd Eo) as (u1 & u2 & Eu & Hu1 & Hu2). crun.
    assert (inv b X (node_contexts old ++ node_contexts r ++ l)
      (CState (with_masters (um_update k (m_with_replicas (u1 ++ u2)) (c_masters (s_client s))) (s_client s))
         (s_error s) (s_which s) (s_events s) (s_world s))) as H1.
    { eapply set_replicas; [destruct s; exact H|exact Hm| |].
      - rewrite Eu, fmap_app, fmap_cons in Hd. rewrite fmap_app. simpl in Hd.
        apply NoDup_app in Hd as (Ha & Hb & Hc). apply NoDup_cons in Hc as [_ Hc].
        apply NoDup_app. split_and!; [done| |done]. set_solver.
      - rewrite Eu, replica_contexts_mid. solve_Permutation. }
    assert (yields (close_context old) s (books O X (fun _ =>
      owned (with_masters (um_update k (m_with_replicas (u1 ++ u2)) (c_masters (s_client s))) (s_client s))
        ++ node_contexts r ++ l) s)) as Hc.
    { pose proof (i_holds _ _ _ _ _ H1) as Hh. cbn in Hh. unfold close_context.
      unfold node_contexts in Hh at 1. destruct (nd_context old) as [c|]; simpl in Hh.
      - eapply drive_free. eapply holds_perm; [|exact Hh]. solve_Permutation.
      - crun. by split. }
    eapply yields_mono; [exact Hc|]. intros [] s2 [E2 H2]. crun. rewrite E2. apply HP.
    assert (um_update k (fun mn => m_with_replicas (um_update (nd_node r) (fun _ => r) (m_replicas mn)) mn)
       (c_masters (s_client s)) = um_update k (m_with_replicas (u1 ++ (nd_node r, r) :: u2)) (c_masters (s_client s))) as ->.
    { apply um_update_ext; [|done]. intros v Hv _. rewrite Hm in Hv. injection Hv as <-.
      by rewrite Eu, um_update_mid. }
    assert (inv b X (node_contexts r ++ l) (CState
       (with_masters (um_update k (m_with_replicas (u1 ++ u2)) (c_masters (s_client s))) (s_client s))
       (s_error s2) (s_which s2) (s_events s2) (s_world s2))) as H3.
    { destruct H1 as [_ Ht Hmo]. split; [exact H2|exact Ht|exact Hmo]. }
    assert (um_update k (m_with_replicas (u1 ++ (nd_node r, r) :: u2)) (c_masters (s_client s)) =
      um_update k (m_with_replicas (u1 ++ (nd_node r, r) :: u2))
        (um_update k (m_with_replicas (u1 ++ u2)) (c_masters (s_client s)))) as ->.
    { destruct (um_find_split k mn _ Hn Hm) as (t1 & t2 & -> & Hk1 & Hk2). by rewrite !um_update_mid. }
    assert (um_find k (um_update k (m_with_replicas (u1 ++ u2)) (c_masters (s_client s)))
      = Some (m_with_replicas (u1 ++ u2) mn)) as Hm'.
    { destruct (um_find_split k mn _ Hn Hm) as (t1 & t2 & -> & Hk1 & Hk2).
      by rewrite um_update_mid, um_find_mid. }
    apply (set_replicas b X (node_contexts r ++ l) l k (m_with_replicas (u1 ++ u2) mn)
      (u1 ++ (nd_node r, r) :: u2) _ _ _
      (with_masters (um_update k (m_with_replicas (u1 ++ u2)) (c_masters (s_client s))) (s_client s)) _);
      [exact H3|exact Hm'|by rewrite Eu in Hd; rewrite fmap_app in Hd |- *|].
    simpl. rewrite replica_contexts_mid. solve_Permutation.
  - destruct (um_insert_new (nd_node r) r _ Eo) as (t & Et & Ht). repeat crun. apply HP.
    assert (um_update k (fun mn => m_with_replicas (um_insert (nd_node r) r (m_replicas mn)).1 mn)
       (c_masters (s_client s)) = um_update k (m_with_replicas t) (c_masters (s_client s))) as ->.
    { apply um_update_ext; [|done]. intros v Hv _. rewrite Hm in Hv. injection Hv as <-. by rewrite Et. }
    eapply set_replicas; [destruct s; exact H|exact Hm| |].
    + rewrite Ht. simpl. apply NoDup_cons. split; [by apply um_find_None|done].
    + rewrite Ht, replica_contexts_cons. solve_Permutation.
Qed.

Lemma init_replicas_spec X l infos : forall s P b, inv b X l s -> Forall info_ok infos ->
  (forall s', inv b X l s' -> P tt s') -> yields (init_replica_nodes infos) s P.
Proof.
  induction infos as [|info infos IH]; intros s P b H Hi HP; simpl; [crun; by apply HP|].
  apply Forall_cons in Hi as [Hi His]. repeat crun.
  destruct (get_redis_master_node (n_master_id info) (s_client s)) as [k|] eqn:Eg;
    [|crun; by eapply IH].
  assert (is_Some (um_find k (c_masters (s_client s)))) as Hk.
  { unfold get_redis_master_node in Eg. destruct (_ !! _); [|done]. cbn [mbind option_bind] in Eg.
    destruct (um_find _ _) eqn:E; [|done]. injection Eg as <-. by eexists. }
  crun. apply yields_local. apply (inv_connect O b X l).
  { apply inv_change; [done..|apply H]. }
  intros o s1 E1 H1. cbn in E1.
  assert (inv b X (option_list o ++ l) (CState (s_client s1) (s_error s) (s_which s1) (s_events s1) (s_world s1)))
    as H2 by (apply inv_change; [done..|apply H1]).
  destruct o as [c|]; [|crun; by eapply IH].
  apply (add_replica_spec b X l); [done|cbn; by rewrite E1|]. intros s2 H3. by eapply IH.
Qed.

(** ** Clearing *)

(** Dropping an entry that is somewhere in the table. *)
Lemma erase_master b X l k m t1 t2 e wh ev c w :
  inv b X l (CState c e wh ev w) -> b = true -> c_masters c = t1 ++ (k, m) :: t2 ->
  inv b X (master_contexts m ++ l) (CState (with_masters (um_erase k (c_masters c)) c) e wh ev w) /\
  um_erase k (c_masters c) = t1 ++ t2.
Proof.
  intros [H1 [H2 H2'] H3] -> E. cbn [s_client s_world] in *. unfold shape in *. rewrite shape_keys in H2.
  rewrite E in H2, H2'. rewrite fmap_app, fmap_cons in H2.
  apply NoDup_app in H2 as (Ha & Hb & Hc). apply NoDup_cons in Hc as [Hk Hc].
  assert (um_erase k (c_masters c) = t1 ++ t2) as Ee.
  { rewrite E. apply um_erase_mid; [|done]. intros Hin. apply (Hb _ Hin). left. }
  rewrite Ee. split; [|done]. split; cbn [s_client s_world].
  - eapply holds_perm; [|exact H1]. rewrite owned_with. unfold owned. rewrite E, table_contexts_mid.
    solve_Permutation.
  - unfold tables_ok, shape. cbn. rewrite shape_keys, fmap_app. split.
    + apply NoDup_app. split_and!; [done| |done]. intros x Hx Hx'. apply (Hb _ Hx). by right.
    + unfold shape_of in *. rewrite fmap_app, fmap_cons in H2'. rewrite fmap_app.
      apply Forall_app in H2' as [? H2']. apply Forall_cons in H2' as [_ ?]. by apply Forall_app.
  - exact H3.
Qed.

Lemma clear_invalid_loop_spec X l es valid : forall kept s P, inv true X l s ->
  c_masters (s_client s) = kept ++ es ->
  (forall s', inv true X l s' -> c_slot2node (s_client s') = c_slot2node (s_client s) ->
     c_masters (s_client s') = kept ++ filter (fun x => x.1 ∈ valid) es -> P tt s') ->
  yields (clear_invalid_loop es valid) s P.
Proof.
  induction es as [|[k m] es IH]; intros kept s P H E HP; simpl.
  { crun. apply HP; [done|done|by rewrite E]. }
  crun. rewrite filter_cons in HP. simpl in HP. destruct (decide (k ∈ valid)) as [Hv|Hv].
  - rewrite bool_decide_true by done. crun.
    apply (IH (kept ++ [(k, m)])); [done|by rewrite <- app_assoc|].
    intros s' H' Es Em. apply HP; [done|done|]. by rewrite Em, <- app_assoc.
  - rewrite bool_decide_false by done. repeat crun.
    destruct (erase_master true X l k m kept es (s_error s) (s_which s) (s_events s) (s_client s) (s_world s))
      as [H1 Em]; [by destruct s|done|done|].
    apply (inv_delete_master O true X l); [done|]. intros s1 E1 H2. repeat crun.
    apply (IH kept).
    + apply inv_change; [done|done|]. eapply mode_shape; [apply H2|done..].
    + cbn. rewrite E1. cbn. by rewrite Em.
    + cbn. intros s' H' Es Em'. apply HP; [done| |done]. by rewrite Es, E1.
Qed.

Lemma clear_invalid_spec X l valid s P : inv true X l s ->
  (forall s', inv true X l s' -> c_slot2node (s_client s') = c_slot2node (s_client s) ->
     c_masters (s_client s') = filter (fun x => x.1 ∈ valid) (c_masters (s_client s)) -> P tt s') ->
  yields (clear_invalid_master_nodes valid) s P.
Proof.
  intros H HP. unfold clear_invalid_master_nodes. repeat crun.
  by apply (clear_invalid_loop_spec X l _ _ []).
Qed.

(** ** The topology *)

(** The masters that serve, of the nodes of a topology. *)
Definition serving_master (n : NodeInfo) : bool := is_master n && negb (is_fail n).

(** The node of a slot after the nodes have been gone through, in order. *)
Definition slot_owner (infos : list NodeInfo) (i : Z) (old : option Node) : option Node :=
  fold_left (fun o n => if serving_master n && in_segments (n_slots n) i then Some (n_node n) else o) infos old.

Lemma update_master_loop_spec many X l infos : forall valid rs s P, inv true X l s ->
  Forall info_ok infos -> Forall info_ok rs ->
  (forall k, k ∈ valid -> is_Some (um_find k (c_masters (s_client s)))) ->
  (forall r s', inv true X l s' -> Forall info_ok r.2 ->
     (forall k, k ∈ r.1 <-> k ∈ valid \/ exists n, n ∈ infos /\ serving_master n = true /\ n_node n = k) ->
     (forall k, k ∈ r.1 -> is_Some (um_find k (c_masters (s_client s')))) ->
     (forall i, zget (c_slot2node (s_client s')) i = slot_owner infos i (zget (c_slot2node (s_client s)) i)) ->
     P r s') ->
  yields (update_master_loop many infos valid rs) s P.
Proof.
  induction infos as [|info infos IH]; intros valid rs s P H Hi Hrs Hv HP; simpl.
  { crun. apply HP; try done. cbn. intros k. split; [by left|]. intros [|(n & Hn & _)]; [done|].
    by apply elem_of_nil in Hn. }
  apply Forall_cons in Hi as [Hi His]. crun.
  assert (forall s1, inv true X l s1 -> c_masters (s_client s1) = c_masters (s_client s) ->
    c_slot2node (s_client s1) = c_slot2node (s_client s) ->
    yields (if is_master info && negb (is_fail info) then
        _ ← update_slots info;
        masters ← client c_masters;
        _ ← (if isSome (um_find (n_node info) masters) then mret false else add_master_node info);
        update_master_loop many infos (n_node info :: valid) rs
      else if is_replica info && negb (is_fail info) then update_master_loop many infos valid (rs ++ [info])
      else update_master_loop many infos valid rs) s1 P) as Hrest.
  { intros s1 H1 E1 E2. change (is_master info && negb (is_fail info)) with (serving_master info).
    destruct (serving_master info) eqn:Em.
    - crun. apply (update_slots_spec X l); [done..|]. intros t e Ht Hg s2 H2. repeat crun.
      assert (forall s3, inv true X l s3 -> c_slot2node (s_client s3) = t ->
        (forall k, is_Some (um_find k (c_masters (s_client s3))) <->
           k = n_node info \/ is_Some (um_find k (c_masters (s_client s1)))) ->
        yields (update_master_loop many infos (n_node info :: valid) rs) s3 P) as Hgo.
      { intros s3 H3 Es Hk. apply IH; try done.
        - intros k [->|Hin]%elem_of_cons; apply Hk; [by left|right; rewrite E1; by apply Hv].
        - intros r s4 H4 Hr Hin Hf Hsl. apply HP; try done.
          + intros k. rewrite Hin, elem_of_cons. split.
            * intros [[->|?]|(n & ? & ? & ?)]; [right; exists info; by split; [left|]|by left|].
              right. exists n. split; [by right|done].
            * intros [?|(n & [->|?]%elem_of_cons & ? & <-)]; [by left; right|by left; left|].
              right. by exists n.
          + intros i. rewrite Hsl, Es, Hg. unfold slot_owner. cbn [fold_left]. rewrite Em, E2. cbn [andb].
            done. }
      destruct (um_find (n_node info) (c_masters (s_client s2))) as [m|] eqn:Ef; cbn [isSome].
      + crun. apply Hgo; [done|done|]. intros k. split; [by right|]. intros [->|]; [by eexists|done].
      + apply (add_master_node_spec true X l); [done..|]. intros ok s3 H3 Es Hk. by apply Hgo.
    - assert (forall rs', Forall info_ok rs' -> yields (update_master_loop many infos valid rs') s1 P) as Hgo.
      { intros rs' Hrs'. apply IH; try done; [by rewrite E1|].
        intros r s4 H4 Hr Hin Hf Hsl. apply HP; try done.
        - intros k. rewrite Hin. split.
          + intros [?|(n & ? & ? & ?)]; [by left|]. right. exists n. split; [by right|done].
          + intros [?|(n & [->|?]%elem_of_cons & Hs & <-)]; [by left|by rewrite Hs in Em|]. right. by exists n.
        - intros i. rewrite Hsl, E2. unfold slot_owner. cbn [fold_left]. by rewrite Em. }
      destruct (is_replica info && _); apply Hgo; [|done]. by apply Forall_app, conj; [|constructor]. }
  destruct many; [|crun; by apply Hrest].
  apply (update_nodes_string_spec true X l); [done..|]. intros str s1 H1. by apply Hrest.
Qed.

(** After the update the table holds the serving masters of the topology and
    no other, and every slot belongs to the last of them that claims it. *)
Definition follows_topology (infos : list NodeInfo) s s' : Prop :=
  (forall k, is_Some (um_find k (c_masters (s_client s'))) <->
     exists n, n ∈ infos /\ serving_master n = true /\ n_node n = k) /\
  (forall i, zget (c_slot2node (s_client s')) i = slot_owner infos i (zget (c_slot2node (s_client s)) i)).

Lemma filter_find {V} (valid : list Node) (t : list (Node * V)) k :
  is_Some (um_find k (filter (fun x => x.1 ∈ valid) t)) <-> k ∈ valid /\ is_Some (um_find k t).
Proof.
  rewrite !um_find_keys, !list_elem_of_fmap. split.
  - intros (x & -> & [Hx Hin]%list_elem_of_filter). split; [done|]. by exists x.
  - intros (Hv & x & -> & Hin). exists x. split; [done|]. by apply list_elem_of_filter.
Qed.

Lemma clear_and_update_spec X l infos s P : inv true X l s -> Forall info_ok infos ->
  (forall rs s', inv true X l s' -> Forall info_ok rs -> follows_topology infos s s' -> P rs s') ->
  yields (clear_and_update_master_nodes infos) s P.
Proof.
  intros H Hi HP. unfold clear_and_update_master_nodes. crun.
  assert (forall many s1, inv true X l s1 -> c_slot2node (s_client s1) = c_slot2node (s_client s) ->
    yields (r ← update_master_loop many infos [] [];
            _ ← clear_invalid_master_nodes r.1; mret r.2) s1 P) as Hgo.
  { intros many s1 H1 E1. crun. apply (update_master_loop_spec _ X l); [done|done|constructor|by intros ? ?%elem_of_nil|].
    intros r s2 H2 Hr Hin Hf Hsl. crun. apply (clear_invalid_spec X l); [done|].
    intros s3 H3 Es Em. crun. apply HP; [done|done|]. split.
    - intros k. rewrite Em, filter_find, Hin. split.
      + intros [[?%elem_of_nil|?] _]; [done|done].
      + intros Hn. split; [by right|]. apply Hf, Hin. by right.
    - intros i. by rewrite Es, Hsl, E1. }
  destruct (1 <? zlen infos); crun; apply Hgo; try done.
  apply inv_change; [done..|]. eapply mode_shape; [apply H|done..].
Qed.

End table.
