(* ===== verification/ClientRun.v ===== *)
(** * The cluster client: running a command

    Refreshing the table, choosing a node, and the loop of [redis_command]:
    against a driver that keeps its promises all of them end, and the books
    stay in order. *)

From Stdlib Require Import Strings.Byte String.
From stdpp Require Import gmap.
From S2P Require Import Prelude CLib Read Reply Network Slots StdString ClusterText.
From S2P Require Import ClusterTextFacts ClusterNodes Driver RedisClient ClientFacts ClientSpecs ClientTable.

(** ** Texts that are always read *)

Lemma rfind_range s c p : rfind s c = Some p -> 0 <= p < zlen s.
Proof.
  unfold rfind. destruct (find (rev s) c 0) as [q|] eqn:E; [|done]. cbn [mbind option_bind].
  intros [= <-]. apply find_range in E; [|zlia]. unfold zlen in *. rewrite length_rev in E. lia.
Qed.

Lemma parse_moved_some {dm : DataModel} text node : exists r, parse_moved_string text node = Some r.
Proof.
  unfold parse_moved_string. destruct (rfind text Byte.x20) as [p|] eqn:E; [|by eexists].
  apply rfind_range in E. destruct (substr_some text (p + 1) npos) as [t ->]; [lia|].
  cbn [mbind option_bind]. destruct (find t Byte.x3a 0) as [q|] eqn:Eq; [|by eexists].
  apply find_range in Eq; [|zlia]. destruct (substr_some t 0 q) as [ip ->]; [zlia|].
  cbn [mbind option_bind]. destruct (substr_some t (q + 1) npos) as [port ->]; [lia|]. by eexists.
Qed.

Lemma parse_nodes_loop_some {dm : DataModel} fuel : forall nodes s pos,
  0 <= pos <= zlen s -> (Z.to_nat (zlen s - pos) < fuel)%nat ->
  exists ns, parse_nodes_loop fuel nodes s pos = Some (nodes ++ ns).
Proof.
  induction fuel as [|fuel IH]; intros nodes s pos Hp Hf; [lia|]. cbn [parse_nodes_loop].
  assert (forall len, exists ns, (if 0 <? len then
      str ← substr s pos len;
      match find str Byte.x3a 0 with
      | Some colon_pos =>
          ip_str ← substr str 0 colon_pos;
          port_str ← substr str (colon_pos + 1) npos;
          Some (nodes ++ [(ip_str, u16 (atoi port_str))])
      | None => Some nodes
      end
    else Some nodes) = Some (nodes ++ ns)) as Hitem.
  { intros len. destruct (0 <? len); [|by exists []; rewrite app_nil_r].
    destruct (substr_some s pos len) as [t ->]; [lia|]. cbn [mbind option_bind].
    destruct (find t Byte.x3a 0) as [q|] eqn:Eq; [|by exists []; rewrite app_nil_r].
    apply find_range in Eq; [|zlia]. destruct (substr_some t 0 q) as [ip ->]; [zlia|].
    cbn [mbind option_bind]. destruct (substr_some t (q + 1) npos) as [port ->]; [lia|].
    cbn [mbind option_bind]. by eexists. }
  destruct (find s Byte.x2c pos) as [p|] eqn:E.
  - destruct (Hitem (u64 (p - pos))) as [ns ->]. cbn [mbind option_bind].
    apply find_range in E; [|lia]. destruct (IH (nodes ++ ns) s (p + 1)) as [ns' ->]; [lia..|].
    exists (ns ++ ns'). by rewrite app_assoc.
  - destruct (Hitem (u64 (zlen s - npos))) as [ns ->]. cbn [mbind option_bind]. by exists ns.
Qed.

Lemma parse_nodes_some {dm : DataModel} nodes s : exists ns,
  parse_nodes nodes s = Some (s32 (zlen (nodes ++ ns)), nodes ++ ns).
Proof.
  unfold parse_nodes. destruct (parse_nodes_loop_some (S (length s)) nodes s 0) as [ns ->]; [zlia|unfold zlen; lia|].
  by exists ns.
Qed.

Lemma zlen_resize t : zlen (resize_slots t) = CLUSTER_SLOTS.
Proof.
  unfold resize_slots. rewrite zlen_app, zlen_replicate. unfold zlen, ztake, CLUSTER_SLOTS.
  rewrite length_take. lia.
Qed.

Section run.
Context {dm : DataModel} {fl : FloatLib} {W : Type} {drv : Driver W} {rel : Reliable W}.
Context {um : UnorderedMap} {bld : Build}.
Hypothesis release : ndebug = true.
Variable O : gset nat.
Implicit Types (s : cstate W) (X : gset nat) (l : list nat).

#[local] Abbreviation inv := (inv O).

(** ** Refreshing *)

Lemma refresh_loop_spec X nodes : forall err s P, inv true X [] s ->
  Forall (fun n => valid (RMaster n) (s_client s)) nodes ->
  (forall s', inv true X [] s' -> P tt s') -> yields (refresh_loop nodes err) s P.
Proof.
  induction nodes as [|n nodes IH]; intros err s P H Hn HP; simpl; [crun; by apply HP|].
  apply Forall_cons in Hn as [Hn Hns]. destruct (bool_decide _); [by apply IH|].
  crun. apply the_node_spec; [done|]. intros nd Hnd. crun.
  assert (forall o s1, shape (s_client s1) = shape (s_client s) ->
    (forall c, o = Some c -> inv true X [] s1 /\ (exists nd, find_node (RMaster n) (s_client s1) = Some nd /\ nd_context nd = Some c)
       \/ inv true X [c] s1 /\ (exists nd, find_node (RMaster n) (s_client s1) = Some nd /\ nd_context nd = None)) ->
    (o = None -> inv true X [] s1) ->
    yields match o with
           | None => refresh_loop nodes err
           | Some c =>
               _ ← upd_node (RMaster n) (set_redis_context o);
               r ← list_cluster_nodes c;
               if (r.1 : bool) then
                 replicas ← clear_and_update_master_nodes r.2;
                 policy ← client c_read_policy;
                 if bool_decide (policy <> RP_ONLY_MASTER) then init_replica_nodes replicas else mret tt
               else refresh_loop nodes err
           end s1 P) as Hgo.
  { intros [c|] s1 Es Hc Hnone; cbn [mbind].
    2: { apply IH; [by apply Hnone| |done]. eapply Forall_impl; [exact Hns|].
         intros x Hx. by eapply valid_shape. }
    assert (valid (RMaster n) (s_client s1)) as Hn1 by by eapply valid_shape.
    assert (forall s2, inv true X [] s2 -> shape (s_client s2) = shape (s_client s1) ->
      (exists nd, find_node (RMaster n) (s_client s2) = Some nd /\ nd_context nd = Some c) ->
      yields (r ← list_cluster_nodes c;
               if (r.1 : bool) then
                 replicas ← clear_and_update_master_nodes r.2;
                 policy ← client c_read_policy;
                 if bool_decide (policy <> RP_ONLY_MASTER) then init_replica_nodes replicas else mret tt
               else refresh_loop nodes err) s2 P) as Hlist.
    { intros s2 H2 Es2 (nd2 & Hf2 & Ec2). crun.
      destruct (change_node_spec (RMaster n) id _ nd2 (i_tables _ _ _ _ _ H2) Hf2) as (_ & _ & rest & Ho & _).
      assert (holds O X (c :: rest) (s_world s2)) as Hh.
      { eapply holds_perm; [|apply H2]. rewrite app_nil_r, Ho. unfold node_contexts. by rewrite Ec2. }
      eapply yields_mono; [by apply (list_nodes_spec O X rest)|].
      intros r s3 ((E3 & H3) & Hi & Hr). 
      assert (inv true X [] s3) as Hinv.
      { destruct H2 as [Ha Hb Hd]. split; [|by rewrite E3..].
        eapply holds_perm; [|exact H3]. rewrite E3, app_nil_r, Ho. unfold node_contexts. by rewrite Ec2. }
      destruct r as [ok infos]. cbn [fst snd] in *. destruct ok.
      - crun. apply (clear_and_update_spec release O X []); [done..|].
        intros rs s4 H4 Hrs _. repeat crun. destruct (bool_decide _); [|crun; by apply HP].
        by apply (init_replicas_spec release O X [] rs _ _ true).
      - apply IH; [done| |done]. eapply Forall_impl; [exact Hns|]. intros x Hx.
        eapply valid_shape; [|exact Hx]. by rewrite E3, Es2, Es. }
    crun. destruct (Hc c eq_refl) as [[H1 (nd1 & Hf1 & Ec1)]|[H1 (nd1 & Hf1 & Ec1)]].
    - apply (upd_node_found O true X [] [] _ _ nd1); [done|done| |].
      + unfold node_contexts. by rewrite Ec1.
      + intros s2 H2 Es2 Hf2. apply Hlist; [done..|]. by eexists.
    - apply (upd_node_found O true X [c] [] _ _ nd1); [done|done| |].
      + unfold node_contexts. by rewrite Ec1.
      + intros s2 H2 Es2 Hf2. apply Hlist; [done..|]. by eexists. }
  destruct (nd_context nd) as [c|] eqn:Ec; cbn [isSome].
  - crun. apply (Hgo (Some c)); [done| |done]. intros ? [= <-]. left. split; [done|]. by exists nd.
  - apply (inv_connect O true X []); [done|]. intros o s1 E1 H1. apply (Hgo o); [by rewrite E1| |].
    + intros c ->. right. split; [done|]. rewrite E1. by exists nd.
    + by intros ->.
Qed.

Lemma refresh_spec X err s P : inv true X [] s -> c_masters (s_client s) <> [] ->
  (forall s', inv true X [] s' -> P tt s') -> yields (refresh_master_node_table err) s P.
Proof.
  intros H Hm HP. unfold refresh_master_node_table. repeat crun.
  destruct (pick_range (u64 (this - zlen (c_masters (s_client s)))) (zlen (c_masters (s_client s)))) as (k & Ek & _).
  { destruct (c_masters (s_client s)); [done|zlia]. }
  eapply yields_must; [exact Ek|]. apply (refresh_loop_spec X); [done| |done].
  apply Forall_forall. intros n Hn.
  assert (n ∈ (c_masters (s_client s)).*1) as Hin.
  { rewrite <- (ztake_zdrop k (c_masters (s_client s)).*1), elem_of_app.
    apply elem_of_app in Hn as [?|?]; [by right|by left]. }
  apply um_find_keys in Hin as [m Hm']. unfold valid, find_node. rewrite Hm'. by eexists.
Qed.

(** ** Starting *)

Lemma init_cluster_loop_spec X n : forall seed s P, inv true X [] s ->
  (forall s', inv true X [] s' -> P tt s') -> yields (init_cluster_loop n seed) s P.
Proof.
  induction n as [|n IH]; intros seed s P H HP; simpl; [crun; by apply HP|]. repeat crun.
  pose proof (i_mode _ _ _ _ _ H) as [Hn _].
  destruct (pick_range (u64 (seed + 1)) (zlen (c_nodes (s_client s)))) as (j & Ej & Hj); [lia|].
  eapply yields_must; [exact Ej|]. crun. destruct (zget_is_Some _ j Hj) as [node En].
  eapply yields_must; [exact En|]. crun. apply (inv_connect O true X []); [done|].
  intros [c|] s1 E1 H1; [|by apply IH]. simpl in H1.
  crun. apply (inv_list_nodes O true X []); [done|]. intros [ok infos] s2 E2 H2 Hi Hr. crun.
  apply (inv_free O true X []); [done|]. intros s3 E3 H3. cbn [fst snd] in *.
  destruct ok; [|by apply IH]. crun. apply (init_master_nodes_spec release O X []); [done..|].
  intros [ok rs] s4 H4 Hrs. cbn [fst snd] in *. destruct ok; [|by apply IH].
  repeat crun. destruct (bool_decide _); [|crun; by apply HP].
  by apply (init_replicas_spec release O X [] rs _ _ true).
Qed.

(** The clock does not touch the books. *)
Lemma inv_random b X l s x w : inv b X l s -> time (s_world s) = (x, w) ->
  inv b X l (CState (s_client s) (s_error s) (s_which s) (s_events s) w).
Proof.
  intros [H1 H2 H3] E. pose proof (time_law (s_world s)) as [El Er]. rewrite E in El, Er.
  split; [by eapply holds_same|done..].
Qed.

Lemma random_spec b X l s P : inv b X l s ->
  (forall x s', inv b X l s' -> s_client s' = s_client s -> P x s') -> yields get_random s P.
Proof.
  intros H HP. unfold get_random, get_random_number, RandNumber.
  destruct (time (s_world s)) as [t w] eqn:Et.
  eapply yields_drive; [by rewrite Et|]. apply HP; [|done]. by eapply inv_random.
Qed.

Lemma init_cluster_spec X s P : inv true X [] s \/
    (holds O X (owned (s_client s)) (s_world s) /\ tables_ok (s_client s) /\ 1 < zlen (c_nodes (s_client s))) ->
  (forall ok s', inv true X [] s' -> (ok = true <-> c_masters (s_client s') <> []) -> P ok s') ->
  yields init_cluster s P.
Proof.
  intros H HP. unfold init_cluster. repeat crun.
  assert (holds O X (owned (s_client s)) (s_world s) /\ tables_ok (s_client s) /\ 1 < zlen (c_nodes (s_client s)))
    as (H1 & H2 & H3).
  { destruct H as [[Ha Hb [Hc _]]|?]; [|done]. by rewrite app_nil_r in Ha. }
  unfold get_random, get_random_number, RandNumber.
  destruct (time (s_world s)) as [t w] eqn:Et. eapply yields_drive; [by rewrite Et|]. repeat crun.
  apply (init_cluster_loop_spec X).
  - pose proof (time_law (s_world s)) as [El Er]. rewrite Et in El, Er.
    split; cbn; [rewrite app_nil_r; by eapply holds_same|exact H2|]. split; [exact H3|apply zlen_resize].
  - intros s1 Hs1. repeat crun. apply HP; [done|]. apply bool_decide_eq_true.
Qed.

Lemma restart_spec X s P : inv true X [] s ->
  (forall ok s', inv true X [] s' -> (ok = true <-> c_masters (s_client s') <> []) -> P ok s') ->
  yields restart_cluster s P.
Proof.
  intros H HP. unfold restart_cluster. repeat crun.
  destruct (parse_nodes_some (c_nodes (s_client s)) (c_nodes_string (s_client s))) as [ns Ens].
  eapply yields_must; [exact Ens|]. repeat crun. apply yields_assert; [by rewrite release, orb_true_r|].
  apply (init_cluster_spec X); [|done]. left. cbn [fst snd].
  apply inv_change; [done|done|]. destruct (i_mode _ _ _ _ _ H) as [Hn Hs]. split; [|done].
  cbn. rewrite zlen_app. pose proof (zlen_nonneg ns). lia.
Qed.

(** ** Choosing a node *)

Lemma index_contexts k f t :
  table_contexts (um_update k (fun m => m_with_index (f m) m) t) = table_contexts t.
Proof.
  unfold um_update. induction t as [|[k' m] t IH]; [done|].
  rewrite fmap_cons. cbn [fst snd]. case_bool_decide; rewrite !table_contexts_cons, IH; done.
Qed.

(** A change of the index of a master. *)
Lemma set_index b X l k f s e wh ev : inv b X l s ->
  let c := with_masters (um_update k (fun m => m_with_index (f m) m) (c_masters (s_client s))) (s_client s) in
  inv b X l (CState c e wh ev (s_world s)) /\ shape c = shape (s_client s).
Proof.
  intros [H1 H2 H3] c.
  assert (shape c = shape (s_client s)) as Es.
  { unfold shape, shape_of, c. cbn. unfold um_update. rewrite <- list_fmap_compose.
    apply list_fmap_ext. intros i [k' m] _. cbn. by case_bool_decide. }
  assert (owned c = owned (s_client s)) as Eo by apply index_contexts.
  split; [|done]. split; cbn [s_client s_world]; [by rewrite Eo|by eapply tables_ok_shape|by eapply mode_shape].
Qed.

Lemma choose_node_spec b X l m policy s P : inv b X l s -> valid (RMaster m) (s_client s) ->
  (forall r s', inv b X l s' -> valid r (s_client s') -> shape (s_client s') = shape (s_client s) -> P r s') ->
  yields (choose_node m policy) s P.
Proof.
  intros H Hm HP. unfold choose_node. repeat crun.
  unfold valid, find_node in Hm. apply fmap_is_Some in Hm as [mn Hm].
  eapply yields_must; [exact Hm|].
  assert (valid (RMaster m) (s_client s)) as Hv by (unfold valid, find_node; rewrite Hm; by eexists).
  destruct (Z.eqb_spec (zlen (m_replicas mn)) 0) as [|Hn]; [crun; by apply HP|]. repeat crun.
  destruct (set_index b X l m (fun mn => u32 (m_index mn + 1)) s (s_error s) (s_which s) (s_events s) H)
    as [H1 Es].
  destruct (bool_decide _ && _); [crun; apply HP; [done|by eapply valid_shape|done]|]. crun.
  destruct (um_nth_in (m_index mn mod (zlen (m_replicas mn) + 1)) (m_replicas mn)) as (r & Er & Hr).
  { intros E. by rewrite E in Hn. }
  eapply yields_must; [exact Er|]. crun. apply HP; [done| |done].
  eapply (valid_shape _ (s_client s)); [done|]. unfold valid, find_node. rewrite Hm.
  by apply um_find_keys.
Qed.

Lemma find_master_spec X slot ask s P : inv true X [] s -> 0 <= slot < CLUSTER_SLOTS ->
  (forall m s', inv true X [] s' -> (forall n, m = Some n -> valid (RMaster n) (s_client s')) -> P m s') ->
  yields (find_master slot ask) s P.
Proof.
  intros H Hs HP. unfold find_master. repeat crun. pose proof (i_mode _ _ _ _ _ H) as [Hn Hsl].
  assert (exists node, match ask with None => zget (c_slot2node (s_client s)) slot | Some n => Some n end = Some node)
    as [node En].
  { destruct ask; [by eexists|]. apply zget_is_Some. by rewrite Hsl. }
  eapply yields_must; [exact En|]. destruct (um_find node (c_masters (s_client s))) as [m|] eqn:Ef.
  - crun. apply HP; [done|]. intros ? [= <-]. unfold valid, find_node. rewrite Ef. by eexists.
  - unfold random_redis_master_node. repeat crun. destruct (decide (c_masters (s_client s) = [])) as [E|E].
    + rewrite bool_decide_true by done. crun. by apply HP.
    + rewrite bool_decide_false by done. crun. apply (random_spec true X []); [done|].
      intros seed s1 H1 E1. crun.
      destruct (pick_range seed (zlen (c_nodes (s_client s)))) as (k & Ek & _); [lia|].
      eapply yields_must; [exact Ek|]. crun. destruct (um_nth_in (s32 k) _ E) as (n & En' & Hin).
      eapply yields_must; [exact En'|]. crun. apply HP; [done|]. intros ? [= <-]. rewrite E1.
      apply um_find_keys in Hin as [m Hm]. unfold valid, find_node. rewrite Hm. by eexists.
Qed.

Lemma get_redis_node_spec b X slot readonly ask s P : inv b X [] s ->
  (if b then 0 <= slot < CLUSTER_SLOTS else slot = -1) ->
  (forall r s', inv b X [] s' -> (forall n, r = Some n -> valid n (s_client s')) -> P r s') ->
  yields (get_redis_node slot readonly ask) s P.
Proof.
  intros H Hs HP. unfold get_redis_node. repeat crun. destruct b.
  - rewrite (proj2 (Z.eqb_neq slot (-1))) by lia. crun.
    apply yields_assert; [by rewrite release, orb_true_r|]. crun.
    assert (forall ok s1, inv true X [] s1 ->
      yields (if negb ok then mret None else
        m ← find_master slot ask;
        match m with
        | None => mret None
        | Some m =>
            ctx ← connected (RMaster m);
            policy ← client c_read_policy;
            if negb readonly || bool_decide (policy = RP_ONLY_MASTER) then mret (Some (RMaster m))
            else if isSome ctx && bool_decide (policy = RP_PRIORITY_MASTER)
            then mret (Some (RMaster m))
            else
              r ← choose_node m policy;
              ctx ← connected r;
              mret (Some (if isSome ctx then r else RMaster m))
        end) s1 P) as Hgo.
    { intros ok s1 H1. destruct ok; cbn [negb]; [|crun; by apply HP]. crun.
      apply (find_master_spec X); [done..|]. intros [m|] s2 H2 Hm; [|crun; by apply HP].
      specialize (Hm m eq_refl). crun. apply (inv_connected O true X []); [done..|].
      intros ctx s3 H3 Es3. assert (valid (RMaster m) (s_client s3)) as Hm3 by by eapply valid_shape.
      repeat crun. destruct (negb readonly || _); [crun; apply HP; [done|by intros ? [= <-]]|].
      destruct (isSome ctx && _); [crun; apply HP; [done|by intros ? [= <-]]|]. crun.
      apply (choose_node_spec true X []); [done..|]. intros r s4 H4 Hr Es4. crun.
      apply (inv_connected O true X []); [done..|]. intros ctx' s5 H5 Es5. crun. apply HP; [done|].
      intros ? [= <-]. destruct (isSome ctx'); (eapply valid_shape; [|]); [by symmetry|done|by symmetry|].
      eapply valid_shape; [by symmetry|done]. }
    destruct (bool_decide (c_masters (s_client s) = [])); [|crun; by apply Hgo].
    apply (restart_spec X); [done|]. intros ok s1 H1 _. by apply Hgo.
  - subst slot. cbn [Z.eqb Pos.eqb]. pose proof (i_mode _ _ _ _ _ H) as [_ Hm].
    assert (c_masters (s_client s) <> []) as Hne by (intros E; apply Hm; unfold shape; by rewrite E).
    crun. apply yields_assert; [by rewrite bool_decide_true|]. crun.
    destruct (c_masters (s_client s)) as [|[k m] t] eqn:Em; [done|].
    eapply yields_must; [done|]. crun. cbn [fst].
    assert (valid (RMaster k) (s_client s)) as Hv.
    { apply fmap_is_Some, um_find_keys. rewrite Em. left. }
    apply (inv_connected O false X []); [done..|]. intros o s1 H1 Es. crun. apply HP; [done|].
    intros ? [= <-]. by eapply valid_shape.
Qed.

End run.
