(* ===== verification/ClientLoop.v ===== *)
(** * The cluster client: the loop of a command

    One attempt, one turn, and the loop of [redis_command]: it always ends,
    after a number of turns known beforehand; every connection and every reply
    is accounted for, but for the replies of ASKING. *)

From Stdlib Require Import Strings.Byte String.
From stdpp Require Import gmap.
From S2P Require Import Prelude CLib Read Reply Network Slots StdString ClusterText.
From S2P Require Import ClusterTextFacts ClusterNodes Driver RedisClient ClientFacts ClientSpecs.
From S2P Require Import ClientTable ClientRun.

(** The replies allocated: the one at hand, and those of others. *)
Definition reps (o : option nat) (X : gset nat) : gset nat := list_to_set (option_list o) ∪ X.
Definition fresh (o : option nat) (X : gset nat) : Prop := forall r, o = Some r -> r ∉ X.

Lemma client_slot_range key : 0 <= key_slot key < CLUSTER_SLOTS.
Proof. unfold key_slot, CLUSTER_SLOTS. apply Z.mod_pos_bound. lia. Qed.

Lemma mode_cluster b c : mode_ok b c -> cluster_mode c = b.
Proof. unfold mode_ok, cluster_mode. destruct b; intros [H _]; [by apply Z.ltb_lt|by rewrite H]. Qed.

Lemma retry_sleep_some n : 0 <= n -> exists ms, get_retry_sleep_milliseconds n = Some ms.
Proof.
  intros H. unfold get_retry_sleep_milliseconds. rewrite (proj2 (Z.ltb_ge n 0)) by lia.
  destruct (Z.leb_spec (4 * zlen sleep_milliseconds_table / 10 - 1) n); [by eexists|].
  assert (n = 0) as -> by (change (4 * zlen sleep_milliseconds_table / 10 - 1) with 1 in *; lia).
  by eexists.
Qed.

Section loop.
Context {dm : DataModel} {fl : FloatLib} {W : Type} {drv : Driver W} {rel : Reliable W}.
Context {um : UnorderedMap} {bld : Build}.
Hypothesis release : ndebug = true.
Variable O : gset nat.
Implicit Types (s : cstate W) (X D : gset nat) (l : list nat).

#[local] Abbreviation inv := (inv O).

(** A change of the driver that leaves the connections. *)
Lemma inv_world b X X' l s e wh ev w : inv b X l s -> live w = live (s_world s) -> replies w = X' ->
  inv b X' l (CState (s_client s) e wh ev w).
Proof.
  intros [(H1 & H2 & H3 & H4) Ht Hm] El Er. split; [|done..]. split_and!; [done|done|cbn; by rewrite El|done].
Qed.

Lemma inv_same b X l s e wh ev : inv b X l s -> inv b X l (CState (s_client s) e wh ev (s_world s)).
Proof. intros H. apply (inv_world b X X l); [done|done|apply H]. Qed.

Lemma inv_replies b X l s : inv b X l s -> replies (s_world s) = X.
Proof. by intros [(_ & _ & _ & H) _ _]. Qed.

Lemma inv_live b X l r n c s : inv b X l s -> find_node r (s_client s) = Some n ->
  nd_context n = Some c -> c ∈ live (s_world s).
Proof.
  intros [H1 H2 H3] Hn Ec. destruct (change_node_spec r id _ n H2 Hn) as (_ & _ & rest & Ho & _).
  eapply holds_live; [exact H1|]. rewrite Ho. unfold node_contexts. rewrite Ec. left.
Qed.

Lemma free_reply_spec b X l o s P : inv b (reps o X) l s -> fresh o X ->
  (forall s', inv b X l s' -> s_client s' = s_client s -> live (s_world s') = live (s_world s) -> P tt s') ->
  yields (free_helper o) s P.
Proof.
  intros H Hf HP. destruct o as [r|]; simpl.
  - assert (r ∈ replies (s_world s)) as Hr by (rewrite (inv_replies _ _ _ _ H); unfold reps; set_solver).
    destruct (free_reply_law r (s_world s) Hr) as (w & E & El & Er).
    eapply yields_drive_; [exact E|]. apply HP; [|done|done].
    eapply inv_world; [exact H|done|]. rewrite Er, (inv_replies _ _ _ _ H). unfold reps. specialize (Hf r eq_refl).
    set_solver.
  - crun. apply HP; [|done|done]. unfold reps in H. simpl in H. by rewrite union_empty_l_L in H.
Qed.

(** ** One attempt *)

Lemma command_error_spec b X l r n c s P : inv b X l s -> find_node r (s_client s) = Some n ->
  nd_context n = Some c ->
  (forall h s', inv b X l s' -> shape (s_client s') = shape (s_client s) -> h <> HR_REDIRECT -> P h s') ->
  yields (handle_redis_command_error r c) s P.
Proof.
  intros H Hn Ec HP. unfold handle_redis_command_error. crun. apply the_node_spec; [by eexists|].
  intros n' _. crun. destruct (error_law c (s_world s)) as [e Ee]; [by eapply inv_live|].
  eapply yields_observe; [exact Ee|]. crun. eapply yields_observe; [done|]. repeat crun.
  destruct (_ && _); [crun; apply HP; [by apply inv_same|done|done]|].
  destruct (e.1 =? REDIS_ERR_EOF); repeat crun.
  all: apply (inv_keep_node O b X l); [by apply inv_same|by eexists|done|];
    intros s1 H1 E1; crun; by apply HP.
Qed.

(** What a redirection is read from. *)
Definition readable (o : option nat) (w : W) : Prop :=
  exists (k : nat) cell str, o = Some k /\ hi_cell k w = Some cell /\ rp_str cell = Some str.

Lemma reply_spec b X l r k cell s P : inv b X l s -> valid r (s_client s) ->
  hi_cell k (s_world s) = Some cell -> (rp_type cell = REDIS_REPLY_ERROR -> is_Some (rp_str cell)) ->
  (forall h s', inv b X l s' -> shape (s_client s') = shape (s_client s) ->
     (h = HR_REDIRECT -> readable (Some k) (s_world s')) -> P h s') ->
  yields (handle_redis_reply r cell) s P.
Proof.
  intros H Hr Hk Hstr HP. unfold handle_redis_reply, upd_node. repeat crun.
  apply the_node_spec; [done|]. intros n Hn. crun.
  set (s1 := CState (change_node r reset_conn_errors (s_client s)) (s_error s) (s_which s) (s_events s) (s_world s)).
  destruct (change_node_spec r reset_conn_errors _ n (i_tables _ _ _ _ _ H) Hn) as (Es & Hn1 & rest & E3 & E4).
  assert (inv b X l s1) as H1.
  { destruct H as [Ha Hb Hc]. split; cbn [s_client s_world s1]; [|by eapply tables_ok_shape|by eapply mode_shape].
    eapply holds_perm; [|exact Ha]. rewrite E3, E4. done. }
  destruct (Z.eqb_spec (rp_type cell) REDIS_REPLY_ERROR) as [Et|]; cbn [negb]; [|crun; by apply HP].
  destruct (Hstr Et) as [str Estr]. unfold handle_redis_replay_error. repeat crun. rewrite Estr.
  destruct (extract_errtype_some (rp_len cell) str (errtype (s_error s))) as [ty Ety].
  eapply yields_must; [exact Ety|]. crun. apply the_node_spec; [by eexists|]. intros n' _. crun.
  eapply yields_must; [done|]. repeat crun.
  destruct (is_clusterdown_error ty); [crun; apply HP; [by apply (inv_same b X l s1)|done|done]|].
  destruct (is_ask_error ty).
  { crun. apply HP; [by apply (inv_same b X l s1)|done|]. intros _. by exists k, cell, str. }
  destruct (is_moved_error ty); [|crun; apply HP; [by apply (inv_same b X l s1)|done|done]].
  crun. apply (inv_keep_node O b X l); [by apply (inv_same b X l s1)|by eexists|done|].
  intros s2 H2 E2. crun. apply HP; [done| |done]. by rewrite E2.
Qed.

(** At most one reply, of ASKING, is dropped. *)
Lemma attempt_spec b X r (ask : bool) a o s P : inv b (reps o X) [] s -> fresh o X -> valid r (s_client s) ->
  (forall o' h D s', inv b (reps o' (D ∪ X)) [] s' -> fresh o' (D ∪ X) -> (size D <= if ask then 1 else 0)%nat ->
     shape (s_client s') = shape (s_client s) -> (h = HR_REDIRECT -> readable o' (s_world s')) -> P (o', h) s') ->
  yields (attempt r ask a o) s P.
Proof.
  intros H Hf Hr HP. unfold attempt. crun. apply the_node_spec; [done|]. intros n Hn.
  destruct (nd_context n) as [c|] eqn:Ec.
  2: { crun. apply (HP _ _ ∅); rewrite ?union_empty_l_L; [done|done|rewrite size_empty; lia|done|done]. }
  crun.
  assert (forall D s1, inv b (reps o (D ∪ X)) [] s1 -> fresh o (D ∪ X) -> (size D <= if ask then 1 else 0)%nat ->
    s_client s1 = s_client s -> 
    yields (
      reply ← drive (hi_command_argv c (a_argc a) (a_argv a) (a_argvlen a));
      _ ← free_helper o;
      match reply with
      | None => h ← handle_redis_command_error r c; mret (None, h)
      | Some l => cell ← observe (hi_cell l); h ← handle_redis_reply r cell; mret (reply, h)
      end) s1 P) as Hgo.
  { intros D s1 H1 Hf1 HD E1. crun.
    assert (c ∈ live (s_world s1)) as Hc by (eapply inv_live; [done|by rewrite E1|done]).
    destruct (argv_law c (a_argc a) (a_argv a) (a_argvlen a) (s_world s1) Hc) as (k & w & E & El & Hk).
    eapply yields_drive; [exact E|]. crun. destruct k as [k|].
    - destruct Hk as [Hk Er]. rewrite (inv_replies _ _ _ _ H1) in Hk, Er.
      apply (free_reply_spec b (reps (Some k) (D ∪ X)) [] o).
      + eapply inv_world; [exact H1|done|]. rewrite Er. unfold reps. simpl. set_solver.
      + intros x ->. specialize (Hf1 x eq_refl). unfold reps in *. simpl in *. set_solver.
      + intros s2 H2 E2 _. crun. cbn in E2.
        destruct (cell_law k (s_world s2)) as (cell & Ecell & Hcell).
        { rewrite (inv_replies _ _ _ _ H2). unfold reps. simpl. set_solver. }
        eapply yields_observe; [exact Ecell|]. crun.
        apply (reply_spec b (reps (Some k) (D ∪ X)) [] r k); [done|by rewrite E2, E1; eexists|done|done|].
        intros h s3 H3 E3 Hh. crun. apply (HP _ _ D); [done| |done|by rewrite E3, E2, E1|done].
        intros ? [= <-]. unfold reps in Hk. set_solver.
    - apply (free_reply_spec b (D ∪ X) [] o).
      + eapply inv_world; [exact H1|done|]. by rewrite Hk, (inv_replies _ _ _ _ H1).
      + done.
      + intros s2 H2 E2 _. crun. cbn in E2.
        apply (command_error_spec b (D ∪ X) [] r n); [done|by rewrite E2, E1|done|].
        intros h s3 H3 E3 Hh. crun. apply (HP _ _ D); [|done|done|by rewrite E3, E2, E1|done].
        unfold reps. simpl. by rewrite union_empty_l_L. }
  destruct ask.
  - destruct (command_law c (bs "ASKING") [] (s_world s)) as (k & w & E & El & Hk);
      [by eapply inv_live|by right; right; right|].
    eapply yields_drive; [exact E|]. rewrite (inv_replies _ _ _ _ H) in Hk. destruct k as [k|].
    + destruct Hk as (Hk & Er & _). apply (Hgo {[k]}); [|..|done].
      * eapply inv_world; [exact H|done|]. rewrite Er. unfold reps. set_solver.
      * intros x ->. specialize (Hf x eq_refl). unfold reps in Hk. simpl in Hk. set_solver.
      * by rewrite size_singleton.
    + apply (Hgo ∅); rewrite ?union_empty_l_L; [by eapply inv_world|done|rewrite size_empty; lia|done].
  - crun. apply (Hgo ∅); rewrite ?union_empty_l_L; [done..|by rewrite size_empty|done].
Qed.

(** ** One turn *)

Lemma before_retry_spec b X r h n node s P : inv b X [] s -> valid r (s_client s) -> 0 <= n ->
  (forall s', inv b X [] s' -> P tt s') -> yields (before_retry r h n node) s P.
Proof.
  intros H Hr Hn HP. unfold before_retry. crun. destruct (retry_sleep_some n Hn) as [ms Ems].
  assert (forall s1, inv b X [] s1 -> valid r (s_client s1) -> yields (
     n ← the_node r; c ← client id;
     if cluster_mode c && need_refresh_master n then
       match h with
       | HR_RECONN_COND | HR_RECONN_UNCOND => refresh_master_node_table (Some node)
       | _ => refresh_master_node_table None
       end
     else mret tt) s1 P) as Hgo.
  { intros s1 H1 Hr1. crun. apply the_node_spec; [done|]. intros nd _. repeat crun.
    rewrite (mode_cluster b) by apply H1. destruct b; cbn [andb]; [|crun; by apply HP].
    destruct (need_refresh_master nd); [|crun; by apply HP].
    assert (c_masters (s_client s1) <> []) as Hm.
    { intros E. destruct Hr1 as [? E1]. destruct r; simpl in E1; by rewrite E in E1. }
    destruct h; by apply (refresh_spec release O X). }
  assert (yields (ms ← must (get_retry_sleep_milliseconds n);
    if 0 <? ms then drive (fun w => Some (tt, os_sleep ms w)) else mret tt) s
    (fun _ s' => inv b X [] s' /\ valid r (s_client s'))) as Hsleep.
  { crun. eapply yields_must; [exact Ems|]. destruct (0 <? ms); [|by crun].
    eapply yields_drive; [done|]. destruct (sleep_law ms (s_world s)) as [El Er].
    split; [|done]. eapply inv_world; [exact H|done|]. by rewrite Er, (inv_replies _ _ _ _ H). }
  destruct h; try (crun; by apply Hgo); (eapply yields_mono; [exact Hsleep|]); intros [] s1 [H1 H2]; by apply Hgo.
Qed.

(** What a turn leaves. *)
Definition turn_post b (ask : bool) X (lc num : Z) (x : next_step) s : Prop :=
  exists D, (size D <= if ask then 1 else 0)%nat /\
  match x with
  | Return o | Break o _ => inv b (reps o (D ∪ X)) [] s /\ fresh o (D ∪ X)
  | Continue o _ ask' => inv b (reps o (D ∪ X)) [] s /\ fresh o (D ∪ X) /\
      lc <= Z.max 2 num /\ (is_Some ask' -> lc <= 2)
  end.

Lemma turn_slot_spec b X key s P : inv b X [] s -> (b = true -> key <> []) -> zlen key <= INT_MAX ->
  P (if b then key_slot key else -1) s ->
  yields (if cluster_mode (s_client s) then drive (get_key_slot (Some key)) else mret (-1)) s P.
Proof.
  intros H Hb Hk HP. rewrite (mode_cluster b) by apply H. destruct b; [|by crun].
  eapply yields_drive.
  - unfold get_key_slot. rewrite bool_decide_true by auto. by rewrite keyHashSlot_exact.
  - by destruct s.
Qed.

Lemma notify_spec b X ev s P : inv b X [] s ->
  (forall s', inv b X [] s' -> s_client s' = s_client s -> P tt s') -> yields (notify ev) s P.
Proof. intros H HP. eexists tt, _. split; [done|]. apply HP; [|done]. by apply inv_same. Qed.

Lemma after_attempt_spec b (ask : bool) X D lc num cmd r node o h s :
  inv b (reps o (D ∪ X)) [] s -> fresh o (D ∪ X) -> (size D <= if ask then 1 else 0)%nat ->
  valid r (s_client s) -> 0 <= lc -> (h = HR_REDIRECT -> readable o (s_world s)) ->
  yields (after_attempt num lc cmd r node o h) s (turn_post b ask X lc num).
Proof.
  intros H Hf HD Hv Hlc Hred. unfold after_attempt.
  assert (forall s4, inv b (reps o (D ∪ X)) [] s4 -> valid r (s_client s4) ->
    yields (if retries_over h lc num then mret (Break o node)
      else _ ← before_retry r h lc node; mret (Continue o node None)) s4
      (turn_post b ask X lc num)) as Hretry.
  { intros s4 H4 Hv4. destruct (retries_over h lc num) eqn:Eo; [crun; by exists D|].
    crun. apply (before_retry_spec b (reps o (D ∪ X))); [done..|]. intros s5 H5. crun.
    exists D. split; [done|]. split_and!; [done|done| |by intros [? ?]].
    unfold retries_over in Eo. destruct h; lia. }
  assert (yields (_ ← close r; if retries_over h lc num then mret (Break o node)
      else _ ← before_retry r h lc node; mret (Continue o node None)) s
      (turn_post b ask X lc num)) as Hclose.
  { crun. apply (inv_close O b (reps o (D ∪ X)) []); [done..|]. intros s4 H4 E4. apply Hretry; [done|].
    by eapply valid_shape. }
  destruct h; cbv zeta; try (by apply Hretry); try exact Hclose.
  - crun. apply (notify_spec b (reps o (D ∪ X))); [done|]. intros s1 H1 _. crun. by exists D.
  - crun. by exists D.
  - destruct (Hred eq_refl) as (k & cell & str & -> & Ecell & Estr).
    crun. eapply yields_must; [done|]. crun. eapply yields_observe; [exact Ecell|].
    crun. eapply yields_must; [exact Estr|]. crun.
    destruct (parse_moved_some (cstr str) node) as [[ok node'] Ep]. eapply yields_must; [exact Ep|].
    destruct ok; cbn [negb]; [|crun; by exists D].
    destruct (Z.leb_spec lc 2); crun; exists D; [|by split].
    split; [done|]. split_and!; [done|done|lia|done].
Qed.

Lemma serve_spec b X ro num a lc o ask r s : inv b (reps o X) [] s -> fresh o X -> 0 <= lc ->
  (forall n, r = Some n -> valid n (s_client s)) ->
  yields (serve ro num a lc o ask r) s (turn_post b ask X lc num).
Proof.
  intros H Hf Hlc Hr. unfold serve.
  assert (forall node, yields (if lc =? 0 then notify (BeforeExecute node (a_command a) ro) else mret tt)
    (CState (s_client s) (s_error s) node (s_events s) (s_world s))
    (fun _ s2 => inv b (reps o X) [] s2 /\ s_client s2 = s_client s)) as Hn.
  { intros node. destruct (lc =? 0).
    - by apply (notify_spec b (reps o X)); [apply inv_same|].
    - crun. split; [by apply inv_same|done]. }
  destruct r as [r|]; crun.
  - crun. apply the_node_spec; [by apply Hr|]. intros nd _. do 2 crun. eexists tt, _. split; [done|]. crun.
    eapply yields_mono; [apply Hn|]. intros [] s2 [H2 E2]. crun.
    apply (attempt_spec b X); [done..|by rewrite E2; apply Hr|]. intros o' h D s3 H3 Hf3 HD Es3 Hred. cbn [fst snd].
    apply (after_attempt_spec b ask X D); [done..| |done|done].
    eapply valid_shape; [by symmetry; rewrite Es3, E2|by apply Hr].
  - do 2 crun. eexists tt, _. split; [done|]. crun.
    eapply yields_mono; [apply Hn|]. intros [] s2 [H2 E2]. repeat crun.
    exists ∅. rewrite size_empty, union_empty_l_L. split; [lia|]. split; [by apply inv_same|done].
Qed.

Lemma turn_spec b X ro num key a lc o ask s : inv b (reps o X) [] s -> fresh o X -> 0 <= lc ->
  (b = true -> key <> []) -> zlen key <= INT_MAX ->
  yields (turn ro num key a lc o ask) s (turn_post b (isSome ask) X lc num).
Proof.
  intros H Hf Hlc Hb Hk. unfold turn. do 3 crun. apply (turn_slot_spec b (reps o X)); [done..|].
  crun. apply (get_redis_node_spec release O b (reps o X)); [done| |].
  { destruct b; [apply client_slot_range|done]. }
  intros r s1 H1 Hr. by apply (serve_spec b X).
Qed.

(** ** The loop *)

Lemma size_union_le D D' : (size (D ∪ D') <= size D + size D')%nat.
Proof.
  rewrite size_union_alt. assert (size (D' ∖ D) <= size D')%nat by (apply subseteq_size; set_solver). lia.
Qed.

(** The replies of ASKING that may still be dropped. *)
Definition asks_left (ask : option Node) (lc : Z) : Z :=
  (if isSome ask then 1 else 0) + Z.max 0 (3 - lc).

Lemma command_loop_spec b ro num key a fuel : forall lc X o ask s,
  inv b (reps o X) [] s -> fresh o X -> 0 <= lc -> (b = true -> key <> []) -> zlen key <= INT_MAX ->
  lc <= Z.max 2 num + 1 -> Z.max 2 num + 2 - lc <= Z.of_nat fuel ->
  yields (command_loop fuel ro num key a lc o ask) s (fun r s' =>
    exists D, Z.of_nat (size D) <= asks_left ask lc /\
      let o' := match r with inl o' => o' | inr (o', _) => o' end in
      inv b (reps o' (D ∪ X)) [] s' /\ fresh o' (D ∪ X)).
Proof.
  induction fuel as [|fuel IH]; intros lc X o ask s H Hf Hlc Hb Hk Hmax Hfuel; [lia|].
  cbn [command_loop]. eapply yields_seq; [by apply (turn_spec b X)|].
  intros x s1 (D & HD & Hx). unfold asks_left.
  destruct x as [o1|o1 n1|o1 n1 ask1]; cbv beta iota; [crun|crun|].
  1,2: exists D; split; [destruct (isSome ask); lia|done].
  destruct Hx as (H1 & Hf1 & Hlc1 & Hask).
  eapply yields_mono; [apply (IH (lc + 1) (D ∪ X) o1 ask1); try done; lia|].
  intros r s2 (D' & HD' & H2 & Hf2). exists (D' ∪ D). split.
  - pose proof (size_union_le D' D) as Hs.
    unfold asks_left in HD'. destruct ask1; cbn [isSome] in *.
    + assert (lc <= 2) by by apply Hask. destruct (isSome ask); lia.
    + destruct (isSome ask); lia.
  - by rewrite (assoc_L (∪)) in H2, Hf2.
Qed.

(** *** The command: it ends, with a reply or an exception *)

Lemma redis_command_spec b ro num key a fuel X s :
  inv b X [] s -> (b = true -> key <> []) -> zlen key <= INT_MAX -> Z.max 2 num + 2 <= Z.of_nat fuel ->
  exists x s' D, redis_command fuel ro num key a s = Some (x, s') /\ (size D <= 3)%nat /\
    s_error s' = s_error s /\
    match x with
    | Done o => inv b (reps o (D ∪ X)) [] s' /\ fresh o (D ∪ X)
    | Throw _ => inv b (D ∪ X) [] s'
    end.
Proof.
  intros H Hb Hk Hfuel. unfold redis_command.
  set (s0 := CState (s_client s) no_error (s_which s) (s_events s) (s_world s)).
  assert (inv b X [] s0) as H0 by by apply inv_same.
  destruct (command_loop_spec b ro num key a fuel 0 X None None s0) as (r & s1 & E1 & D & HD & Hr); try done; try lia.
  { unfold reps. simpl. by rewrite union_empty_l_L. }
  cbv zeta in Hr. unfold asks_left in HD. cbn [isSome] in HD.
  assert (cluster_mode (s_client s0) && bool_decide (key = []) = false) as Ek.
  { rewrite (mode_cluster b) by apply H0. destruct b; [by rewrite bool_decide_false by auto|done]. }
  destruct r as [o'|[o' node]]; destruct Hr as [Hr Hf].
  - eexists _, _, D. split; [apply local_run; fold s0; erewrite bind_done by done; cbv beta|].
    { change (id (s_client s0)) with (s_client s0). rewrite Ek. by erewrite bind_done by exact E1. }
    split; [lia|]. split; [done|]. split; [|done]. by apply inv_same.
  - destruct (notify_spec b (reps o' (D ∪ X)) (AfterExecute 1 node (a_command a) o') s1
      (fun _ s2 => inv b (reps o' (D ∪ X)) [] s2)) as ([] & s2 & E2 & H2); [done..|].
    destruct (free_reply_spec b (D ∪ X) [] o' s2 (fun _ s' => inv b (D ∪ X) [] s')) as ([] & s3 & E3 & H3);
      [done..|].
    eexists _, _, D. split; [apply local_run; fold s0; erewrite bind_done by done; cbv beta|].
    { change (id (s_client s0)) with (s_client s0). rewrite Ek. erewrite bind_done by exact E1. cbv beta iota. erewrite bind_done by exact E2.
      by erewrite bind_done by exact E3. }
    split; [lia|]. split; [done|]. by apply inv_same.
Qed.

End loop.

(** ** The cluster client: its life

    Closing all the nodes, and [init] and [fini]: a client that could not start
    and a client that is gone leave no connection open. *)

(** The nodes of a text are no more than its bytes. *)
Lemma parse_nodes_loop_len {dm : DataModel} fuel : forall nodes s pos ns,
  0 <= pos <= zlen s -> parse_nodes_loop fuel nodes s pos = Some ns ->
  zlen ns <= zlen nodes + (zlen s - pos) + 1.
Proof.
  induction fuel as [|fuel IH]; intros nodes s pos ns Hp; [done|]. cbn [parse_nodes_loop].
  destruct (find s Byte.x2c pos) as [p|] eqn:E.
  - apply find_range in E; [|lia]. intros H. apply bind_Some in H as (ns1 & H1 & H2).
    apply IH in H2; [|lia]. assert (zlen ns1 <= zlen nodes + 1); [|lia].
    destruct (0 <? _); [|simplify_eq; lia]. apply bind_Some in H1 as (t & _ & H1).
    destruct (find t Byte.x3a 0); [|simplify_eq; lia].
    apply bind_Some in H1 as (? & _ & H1). apply bind_Some in H1 as (? & _ & H1).
    injection H1 as <-. rewrite zlen_app, zlen_cons, zlen_nil. lia.
  - intros H. apply bind_Some in H as (ns1 & H1 & [= <-]). 
    destruct (0 <? _); [|simplify_eq; lia]. apply bind_Some in H1 as (t & _ & H1).
    destruct (find t Byte.x3a 0); [|simplify_eq; lia].
    apply bind_Some in H1 as (? & _ & H1). apply bind_Some in H1 as (? & _ & H1).
    injection H1 as <-. rewrite zlen_app, zlen_cons, zlen_nil. lia.
Qed.

Lemma parse_nodes_count {dm : DataModel} s : zlen s < INT_MAX -> exists ns,
  parse_nodes [] s = Some (zlen ns, ns).
Proof.
  intros Hs. destruct (parse_nodes_some [] s) as [ns E]. exists ns. rewrite E. simpl. do 2 f_equal.
  unfold parse_nodes in E. destruct (parse_nodes_loop _ _ _ _) as [ns1|] eqn:E1; [|done].
  injection E as _ E. subst ns1. apply parse_nodes_loop_len in E1; [|zlia].
  rewrite zlen_nil in E1. apply s32_small. zlia.
Qed.

Section life.
Context {dm : DataModel} {fl : FloatLib} {W : Type} {drv : Driver W} {rel : Reliable W}.
Context {um : UnorderedMap} {bld : Build}.
Hypothesis release : ndebug = true.
Variable O : gset nat.
Implicit Types (s : cstate W) (X : gset nat) (l : list nat).

#[local] Abbreviation inv := (inv O).
#[local] Abbreviation holds := (holds O).
#[local] Abbreviation books := (books O).

(** ** Closing *)

Lemma close_context_books X l n s : holds X (node_contexts n ++ l) (s_world s) ->
  yields (close_context n) s (books X (fun _ => l) s).
Proof.
  unfold node_contexts, close_context. destruct (nd_context n); simpl; intros H; [by apply drive_free|by crun].
Qed.

Lemma close_all_books X l rs : forall s, holds X (replica_contexts rs ++ l) (s_world s) ->
  yields (close_all rs) s (books X (fun _ => l) s).
Proof.
  induction rs as [|[k n] rs IH]; intros s H; simpl; [by crun|].
  eapply yields_seq; [apply (close_context_books X (replica_contexts rs ++ l))|].
  { rewrite replica_contexts_cons, <- app_assoc in H. exact H. }
  intros [] s1 [E1 H1]. eapply yields_mono; [by apply IH|]. intros [] s2 [E2 H2]. split; [by rewrite E2|done].
Qed.

Lemma delete_master_books X l m s : holds X (master_contexts m ++ l) (s_world s) ->
  yields (delete_master m) s (books X (fun _ => l) s).
Proof.
  intros H. unfold delete_master. eapply yields_seq; [apply (close_all_books X (node_contexts (m_self m) ++ l))|].
  { eapply holds_perm; [|exact H]. unfold master_contexts. solve_Permutation. }
  intros [] s1 [E1 H1]. eapply yields_mono; [by apply (close_context_books X l)|].
  intros [] s2 [E2 H2]. split; [by rewrite E2|done].
Qed.

Lemma close_masters_books X l t : forall s, holds X (table_contexts t ++ l) (s_world s) ->
  yields (close_masters t) s (books X (fun _ => l) s).
Proof.
  induction t as [|[k m] t IH]; intros s H; simpl; [by crun|].
  eapply yields_seq; [apply (delete_master_books X (table_contexts t ++ l))|].
  { rewrite table_contexts_cons, <- app_assoc in H. exact H. }
  intros [] s1 [E1 H1]. eapply yields_mono; [by apply IH|]. intros [] s2 [E2 H2]. split; [by rewrite E2|done].
Qed.

Lemma clear_all_spec X s : holds X (owned (s_client s)) (s_world s) ->
  yields clear_all_master_nodes s (fun _ s' => holds X [] (s_world s') /\ c_masters (s_client s') = []).
Proof.
  intros H. unfold clear_all_master_nodes. repeat crun.
  eapply yields_mono; [apply (close_masters_books X []); by rewrite app_nil_r|].
  intros [] s1 [E1 H1]. by crun.
Qed.

(** ** Starting *)

Lemma init_standlone_spec X node s : holds X [] (s_world s) -> c_masters (s_client s) = [] ->
  c_nodes (s_client s) = [node] ->
  yields init_standlone s (fun ok s' => if (ok : bool) then inv false X [] s' else
    holds X [] (s_world s') /\ c_masters (s_client s') = []).
Proof.
  intros H Hm Hn. unfold init_standlone. repeat crun. rewrite Hn.
  eapply yields_must; [done|]. repeat crun.
  eapply yields_mono; [by apply (connect_spec O X [])|]. intros o s1 [E1 H1]. cbn in E1.
  destruct o as [c|]; [|crun; by rewrite E1]. repeat crun. rewrite E1. cbn [c_masters with_nodes_string].
  rewrite Hm. unfold um_insert. cbn [um_find filter list_filter head fmap option_fmap option_map].
  pose proof (um_place_perm (node, new_master [] node (Some c)) []) as Hp. apply Permutation_singleton_r in Hp.
  rewrite Hp. repeat crun. apply yields_assert; [done|]. crun.
  split; cbn.
  - exact H1.
  - unfold tables_ok, shape, shape_of. simpl. split; [apply NoDup_singleton|].
    apply Forall_singleton. constructor.
  - rewrite E1. cbn. by rewrite Hn.
Qed.

(** A new client: it has connections, or it throws and has none. *)
Lemma client_init_spec X s : holds X [] (s_world s) -> c_masters (s_client s) = [] -> c_nodes (s_client s) = [] ->
  zlen (c_raw_nodes_string (s_client s)) < INT_MAX ->
  ends init s (fun x s' => match x with
    | Done _ => exists b, inv b X [] s'
    | Throw _ => holds X [] (s_world s') /\ c_masters (s_client s') = []
    end).
Proof.
  intros H Hm Hn Hs. destruct (parse_nodes_count _ Hs) as [ns Ens].
  set (Q := fun (x : outcome unit) s' => match x with
     | Done _ => exists b, inv b X [] (CState (s_client s') (s_error s) (s_which s') (s_events s') (s_world s'))
     | Throw _ => yields clear_all_master_nodes
         (CState (s_client s') (s_error s) (s_which s') (s_events s') (s_world s'))
         (fun _ s' => holds X [] (s_world s') /\ c_masters (s_client s') = [])
     end).
  unfold init. apply ends_on_throw, ends_local. apply (cm_ends_mono _ _ Q); [|by intros []].
  apply cm_ends_bind. crun. apply cm_ends_bind. cbn [s_client].
  eapply yields_must; [by rewrite Hn|]. apply cm_ends_bind. crun. cbn [s_client s_error s_which s_events s_world].
  assert (forall (e : ErrorInfo) s1, holds X (owned (s_client s1)) (s_world s1) ->
    ends (throw_error e) s1 Q) as Hthrow.
  { intros e s1 H1. apply ends_throw. by apply clear_all_spec. }
  set (s0 := CState (with_nodes ns (s_client s)) no_error (s_which s) (s_events s) (s_world s)).
  assert (holds X (owned (s_client s0)) (s_world s0)) as H0.
  { unfold owned. cbn. by rewrite Hm. }
  destruct (Z.eqb_spec (zlen ns) 0).
  { apply cm_ends_bind. crun. apply cm_ends_bind. crun. by apply Hthrow. }
  apply cm_ends_bind.
  assert (yields (if zlen ns =? 1 then init_standlone else init_cluster) s0
    (fun ok s' => if (ok : bool) then exists b, inv b X [] s' else holds X (owned (s_client s')) (s_world s'))) as Hi.
  { destruct (Z.eqb_spec (zlen ns) 1) as [E1|].
    - destruct ns as [|node [|]]; [done| |rewrite !zlen_cons in E1; zlia].
      eapply yields_mono; [by apply (init_standlone_spec X node)|]. intros ok s1 H1. destruct ok; [by exists false|].
      destruct H1 as [H1 E]. unfold owned. by rewrite E.
    - apply (init_cluster_spec release O X).
      + right. split_and!; [done| |]; cbn.
        * unfold tables_ok, shape. cbn. rewrite Hm. split; constructor.
        * pose proof (zlen_nonneg ns). lia.
      + intros ok s1 H1 _. destruct ok; [by exists true|]. pose proof (i_holds _ _ _ _ _ H1) as Hh.
        by rewrite app_nil_r in Hh. }
  eapply yields_mono; [exact Hi|]. intros ok s1 H1. destruct ok.
  - apply ends_yields. crun. destruct H1 as [b H1]. exists b. by apply inv_same.
  - apply cm_ends_bind. crun. by apply Hthrow.
Qed.

End life.
