(* ===== verification/MockDriver.v ===== *)
(** * A driver in memory

    The simplest driver that keeps the promises of [Reliable]: every
    connection succeeds, every command is answered from a table.  The examples
    run the client against it. *)

From Stdlib Require Import Strings.Byte String.
From stdpp Require Import gmap.
From S2P Require Import Prelude CLib Read Reply Network Slots StdString ClusterText ClusterNodes Driver.
From S2P Require Import RedisClient ClientFacts Concrete.

#[local] Existing Instances digits_lib lp64.

Record mock := Mock {
  mk_live : gset nat;
  mk_cells : gmap nat (Z * bytes);   (* the type and the text of a reply *)
  mk_log : list (nat * list bytes)   (* the commands with arguments, and where they went *)
}.

Definition fresh_nat (X : gset nat) : nat := S (max_list (elements X)).

Lemma fresh_nat_new X : fresh_nat X ∉ X.
Proof.
  intros H. apply elem_of_elements, max_list_elem_of_le in H. unfold fresh_nat in H. lia.
Qed.

(** A reply of type [ty] with a text. *)
Definition text_reply (ty : Z) (text : bytes) : redisReply := Reply ty 0 None (zlen text) (Some (text ++ [NUL])) 0 None.

Section mock.
(** What the servers say: their topology, and the type and text of the answer
    to a command on a connection. *)
Variable topology : bytes.
Variable answer : nat -> list bytes -> Z * bytes.

Definition on_live {A} (c : nat) (w : mock) (x : A) : option A :=
  if decide (c ∈ mk_live w) then Some x else None.

(** A reply, and the log. *)
Definition reply_with (cell : Z * bytes) (log : list (nat * list bytes)) (w : mock) : option nat * mock :=
  let l := fresh_nat (dom (mk_cells w)) in
  (Some l, Mock (mk_live w) (<[l := cell]> (mk_cells w)) log).

#[global] Instance mock_random : Random mock := { time w := (7, w); mt19937 s := s }.

#[global] Instance mock_driver : Driver mock := {
  hi_connect _ _ _ w := let c := fresh_nat (mk_live w) in
    Some (Some c, Mock ({[c]} ∪ mk_live w) (mk_cells w) (mk_log w));
  hi_set_timeout c _ w := on_live c w (0, w);
  hi_command c format _ w := on_live c w
    (reply_with (if bool_decide (format = bs "CLUSTER NODES")
                 then (REDIS_REPLY_STRING, topology)
                 else (REDIS_REPLY_STATUS, bs "OK")) (mk_log w) w);
  hi_command_argv c _ argv _ w := on_live c w
    (reply_with (answer c argv) (mk_log w ++ [(c, argv)]) w);
  hi_free c w := on_live c w (Mock (mk_live w ∖ {[c]}) (mk_cells w) (mk_log w));
  hi_free_reply l w := if decide (l ∈ dom (mk_cells w))
    then Some (Mock (mk_live w) (delete l (mk_cells w)) (mk_log w)) else None;
  hi_error c w := on_live c w (0, []);
  hi_cell l w := (fun x => text_reply x.1 x.2) <$> mk_cells w !! l;
  os_errno _ := 0;
  os_strerror _ := [];
  os_sleep _ w := w;
  os_random := mock_random
}.

Hypothesis topology_fine : topology_ok topology.
Hypothesis topology_text : NUL ∉ topology.

Lemma on_live_yes {A} c w (x : A) : c ∈ mk_live w -> on_live c w x = Some x.
Proof. intros H. unfold on_live. by rewrite decide_True. Qed.

Lemma reply_with_spec cell log w : exists l w', reply_with cell log w = (Some l, w') /\
  mk_live w' = mk_live w /\ l ∉ dom (mk_cells w) /\ dom (mk_cells w') = {[l]} ∪ dom (mk_cells w) /\
  mk_cells w' !! l = Some cell.
Proof.
  eexists _, _. split; [done|]. cbn. split; [done|]. split; [apply fresh_nat_new|].
  split; [by rewrite dom_insert_L|apply lookup_insert_eq].
Qed.

#[global] Instance mock_reliable : Reliable mock.
Proof.
  refine {| live := mk_live; replies w := dom (mk_cells w) |}.
  - intros. eexists _, _. split; [done|]. split; [done|]. split; [apply fresh_nat_new|done].
  - intros c tv w Hc. eexists _, _. split; [by apply on_live_yes|done].
  - intros c format ap w Hc Hf. cbn [hi_command mock_driver]. rewrite on_live_yes by done.
    destruct (reply_with_spec (if bool_decide (format = bs "CLUSTER NODES") then (REDIS_REPLY_STRING, topology)
      else (REDIS_REPLY_STATUS, bs "OK")) (mk_log w) w) as (l & w' & E & El & Hl & Er & Ec).
    exists (Some l), w'. rewrite E. split_and!; [done..|].
    cbn [hi_cell mock_driver]. rewrite Ec. eexists _, _. split; [done|]. split; [done|].
    intros -> _. rewrite bool_decide_true by done. cbn [snd]. by rewrite cstr_app_nul.
  - intros c argc argv lens w Hc. cbn [hi_command_argv mock_driver]. rewrite on_live_yes by done.
    destruct (reply_with_spec (answer c argv) (mk_log w ++ [(c, argv)]) w) as (l & w' & E & El & Hl & Er & _).
    exists (Some l), w'. by rewrite E.
  - intros c w Hc. eexists. split; [by apply on_live_yes|done].
  - intros l w Hl. cbn [hi_free_reply mock_driver]. rewrite decide_True by done. eexists. split; [done|].
    split; [done|]. cbn. apply dom_delete_L.
  - intros c w Hc. cbn [hi_error mock_driver]. rewrite on_live_yes by done. by eexists.
  - intros l w Hl. cbn [hi_cell mock_driver]. apply elem_of_dom in Hl as [x ->]. eexists. split; [done|].
    intros _. by eexists.
  - done.
  - done.
Defined.

End mock.
