(* ===== verification/ClientTheorems.v ===== *)
(** * r3c: properties of the cluster client

    Stated for every driver that keeps the promises of [Reliable]; the examples
    use the driver in memory. *)

From Stdlib Require Import Strings.Byte String.
From stdpp Require Import gmap.
From S2P Require Import Prelude CLib Read Reply Network Slots StdString ClusterText.
From S2P Require Import ClusterTextFacts ClusterNodes Driver RedisClient ClientFacts ClientSpecs ClientTable.
From S2P Require Import ClientRun ClientLoop Concrete MockDriver.

(** ** Concrete clients *)

#[local] Existing Instances digits_lib lp64.
#[local] Instance front : UnorderedMap := {| um_place V x l := x :: l; um_place_perm V x l := reflexivity _ |}.
#[local] Instance release_build : Build := {| ndebug := true; this := 4096 |}.

Definition node_a : Node := (bs "a", 7000).
Definition node_b : Node := (bs "b", 7001).

(** A topology of two masters. *)
Definition two_masters : bytes :=
  bs "a1 a:7000@17000 myself,master - 0 0 1 connected 0-3" ++ [LF] ++
  bs "b1 b:7001@17001 master - 0 0 1 connected 8192-8195" ++ [LF].

Lemma two_masters_ok : topology_ok two_masters.
Proof.
  intros e. eexists _, _. split; [vm_compute; reflexivity|].
  apply Forall_cons; split; [|apply Forall_cons; split; [|by apply Forall_nil]];
    (split; [simpl; lia|]); (apply Forall_cons; split; [|by apply Forall_nil]);
    unfold CLUSTER_SLOTS; simpl; lia.
Qed.

Lemma two_masters_text : NUL ∉ two_masters.
Proof. intros H. apply (bool_decide_eq_true_2 _) in H. vm_compute in H. discriminate. Qed.

(** Every command is answered with a status. *)
Definition all_ok (_ : nat) (_ : list bytes) : Z * bytes := (REDIS_REPLY_STATUS, bs "OK").

#[local] Instance toy : Driver mock := mock_driver two_masters all_ok.
#[local] Instance toy_reliable : Reliable mock := mock_reliable two_masters all_ok two_masters_ok two_masters_text.

(** A client of two masters, before and after it has started. *)
Definition new_client : cstate mock :=
  CState (Client false (bs "a:7000,b:7001") [] 0 0 [] RP_ONLY_MASTER [] ∅ [] [] [] []) no_error ([], 0) [] (Mock ∅ ∅ []).
Definition started : cstate mock :=
  match init new_client with Some (_, s) => s | None => new_client end.

Lemma started_inv : inv ∅ true ∅ [] started.
Proof.
  destruct (client_init_spec (bld := release_build) (eq_refl true) ∅ ∅ new_client) as (x & s & E & H).
  - split_and!; [apply NoDup_nil; done|by intros ? ?%elem_of_nil|done|done].
  - done.
  - done.
  - vm_compute. done.
  - assert (match init new_client with Some (Done _, s) => cluster_mode (s_client s) | _ => false end = true) as Ht
      by (vm_compute; done).
    unfold started. rewrite E in *. destruct x; [|done]. destruct H as [b H].
    assert (b = true) as -> by (rewrite <- Ht; symmetry; apply mode_cluster; apply H). done.
Qed.

Definition get_k : CommandArgs :=
  final (add_arg (bs "k") (add_arg (bs "GET") (set_command (bs "GET") (set_key (bs "k") new_args)))).

Section theorems.
Context {dm : DataModel} {fl : FloatLib} {W : Type} {drv : Driver W} {rel : Reliable W}.
Context {um : UnorderedMap} {bld : Build}.



(** [fini] closes every connection of the client and no other. *)
Theorem fini_closes_all O b X (s : cstate W) : inv O b X [] s ->
  yields fini s (fun _ s' => live (s_world s') = O /\ replies (s_world s') = X /\
    c_masters (s_client s') = [] /\ c_masters_id (s_client s') = ∅).
Proof.
  intros H. pose proof (i_holds _ _ _ _ _ H) as Hh. rewrite app_nil_r in Hh.
  unfold fini, clear_all_master_nodes. repeat crun.
  eapply yields_mono; [apply (close_masters_books O X []); by rewrite app_nil_r|].
  intros [] s' [_ (_ & _ & H1 & H2)]. crun. cbn. rewrite H1. split_and!; [set_solver|done..].
Qed.

(** C10: Updating the table from a topology: afterwards it holds exactly the
    masters of the topology that serve, every slot belongs to the last of them
    that claims it, slots nobody claims keep their node, and the connections of
    the masters that went are closed. *)
Theorem update_follows_topology O X infos (s : cstate W) :
  ndebug = true -> inv O true X [] s -> Forall info_ok infos ->
  yields (clear_and_update_master_nodes infos) s (fun _ s' => inv O true X [] s' /\
    (forall k, is_Some (um_find k (c_masters (s_client s'))) <->
       exists n, n ∈ infos /\ serving_master n = true /\ n_node n = k) /\
    (forall i, zget (c_slot2node (s_client s')) i = slot_owner infos i (zget (c_slot2node (s_client s)) i))).
Proof.
  intros Hb H Hi. apply (clear_and_update_spec Hb O X []); [done..|]. intros rs s' H' _ [H1 H2]. done.
Qed.

End theorems.



Lemma fini_closes_all_witness :
  yields fini started (fun _ s' => live (s_world s') = ∅ /\ replies (s_world s') = ∅ /\
    c_masters (s_client s') = [] /\ c_masters_id (s_client s') = ∅).
Proof. apply (fini_closes_all ∅ true ∅ started). exact started_inv. Defined.

Definition topology_b : list NodeInfo :=
  [Info node_b (bs "b1") (bs "master") (bs "-") 0 0 2 true [(0, 16383)]].

Lemma update_follows_topology_witness :
  yields (clear_and_update_master_nodes topology_b) started (fun _ s' => inv ∅ true ∅ [] s' /\
    (forall k, is_Some (um_find k (c_masters (s_client s'))) <->
       exists n, n ∈ topology_b /\ serving_master n = true /\ n_node n = k) /\
    (forall i, zget (c_slot2node (s_client s')) i = slot_owner topology_b i (zget (c_slot2node (s_client started)) i))).
Proof.
  apply (update_follows_topology ∅ ∅ topology_b started).
  - reflexivity.
  - exact started_inv.
  - apply Forall_cons; split; [|by apply Forall_nil]. split; [simpl; lia|].
    apply Forall_cons; split; [unfold CLUSTER_SLOTS; simpl; lia|by apply Forall_nil].
Defined.
