(* ===== verification/RouteTheorems.v ===== *)
(** * r3c: properties of routing

    Where a command goes, what an error reply makes the client do, and how
    reads are spread over the replicas. *)

From Stdlib Require Import Strings.Byte String.
From stdpp Require Import gmap.
From S2P Require Import Prelude CLib Read Reply Network Slots StdString ClusterText.
From S2P Require Import ClusterTextFacts ClusterNodes Driver RedisClient ClientFacts ClientSpecs ClientTable.
From S2P Require Import ClientRun ClientLoop Concrete MockDriver ClientTheorems.

Section theorems.
Context {dm : DataModel} {fl : FloatLib} {W : Type} {drv : Driver W} {rel : Reliable W}.
Context {um : UnorderedMap} {bld : Build}.

(** Connecting a node changes nothing but its connection and error count. *)
Lemma connected_keeps O X r (s : cstate W) : inv O true X [] s -> valid r (s_client s) ->
  yields (connected r) s (fun _ s' => inv O true X [] s' /\
    shape (s_client s') = shape (s_client s) /\ c_read_policy (s_client s') = c_read_policy (s_client s)).
Proof.
  intros H Hr. unfold connected. crun. apply the_node_spec; [done|].
  intros nd Hnd. destruct (nd_context nd) as [c|] eqn:Ec; [by crun|]. crun.
  apply (inv_connect O true X []); [done|]. intros o s1 E1 H1. crun.
  assert (find_node r (s_client s1) = Some nd) as Hnd1 by by rewrite E1.
  unfold upd_node. crun. apply the_node_spec; [by eexists|]. intros ? _. crun.
  destruct (change_node_spec r (set_redis_context o) _ nd (i_tables _ _ _ _ _ H1) Hnd1)
    as (F1 & F2 & rest & F3 & F4).
  crun. cbn [s_client]. split; [|by rewrite F1; cbn; rewrite E1]. destruct H1 as [Ha Hb Hd].
  split; cbn [s_client s_world]; [|by eapply tables_ok_shape|by eapply mode_shape].
  eapply holds_perm; [|exact Ha]. rewrite F3, F4. unfold node_contexts. rewrite Ec. destruct o; simpl; [|done].
  rewrite app_nil_r. by rewrite Permutation_app_comm.
Qed.

(** C25: A command that is not for a replica goes to the master its slot belongs
    to, or to the one it is redirected to, when that master is in the table. *)
Theorem routed_to_owner O X slot readonly ask n (s : cstate W) :
  inv O true X [] s -> 0 <= slot < CLUSTER_SLOTS ->
  match ask with Some n => Some n | None => zget (c_slot2node (s_client s)) slot end = Some n ->
  is_Some (um_find n (c_masters (s_client s))) ->
  readonly = false \/ c_read_policy (s_client s) = RP_ONLY_MASTER ->
  yields (get_redis_node slot readonly ask) s (fun r s' => r = Some (RMaster n) /\
    inv O true X [] s' /\ shape (s_client s') = shape (s_client s)).
Proof.
  intros H Hs Hn [m Hm] Hro. unfold get_redis_node. repeat crun.
  rewrite (proj2 (Z.eqb_neq slot (-1))) by lia. crun.
  apply yields_assert; [by rewrite (proj2 (Z.leb_le 0 slot)), (proj2 (Z.ltb_lt slot CLUSTER_SLOTS)) by lia|].
  assert (c_masters (s_client s) <> []) as Hne by (intros E; by rewrite E in Hm).
  rewrite bool_decide_false by done. do 2 crun. cbn [negb]. unfold find_master. repeat crun.
  assert (match ask with None => zget (c_slot2node (s_client s)) slot | Some n => Some n end = Some n) as Hn'
    by by destruct ask.
  eapply yields_must; [exact Hn'|]. rewrite Hm. repeat crun.
  eapply yields_mono; [by apply (connected_keeps O X); [|unfold valid, find_node; rewrite Hm; eexists]|]. intros ctx s1 (H1 & Es & Ep). repeat crun. rewrite Ep.
  assert (negb readonly || bool_decide (c_read_policy (s_client s) = RP_ONLY_MASTER) = true) as ->.
  { destruct Hro as [->|E]; [done|]. rewrite bool_decide_true by done. by rewrite orb_true_r. }
  by crun.
Qed.

Lemma node_of_master n m (c : CRedisClient) : um_find n (c_masters c) = Some m ->
  find_node (RMaster n) c = Some (m_self m).
Proof. intros E. unfold find_node. by rewrite E. Qed.

(** A connected master is found as it is. *)
Lemma route_connected slot readonly n m c (s : cstate W) P :
  0 <= slot < CLUSTER_SLOTS -> zget (c_slot2node (s_client s)) slot = Some n ->
  um_find n (c_masters (s_client s)) = Some m -> nd_context (m_self m) = Some c ->
  readonly = false \/ c_read_policy (s_client s) = RP_ONLY_MASTER ->
  P (Some (RMaster n)) s -> yields (get_redis_node slot readonly None) s P.
Proof.
  intros Hr Hs Hm Hc Hro HP. unfold get_redis_node. repeat crun. rewrite (proj2 (Z.eqb_neq slot (-1))) by lia.
  crun. apply yields_assert; [by rewrite (proj2 (Z.leb_le 0 slot)), (proj2 (Z.ltb_lt slot CLUSTER_SLOTS)) by lia|].
  assert (c_masters (s_client s) <> []) as Hne by (intros E; by rewrite E in Hm).
  rewrite bool_decide_false by done. do 2 crun. cbn [negb]. unfold find_master. repeat crun.
  eapply yields_must; [exact Hs|]. rewrite Hm. repeat crun. unfold connected. crun.
  apply the_node_spec; [by eexists; apply node_of_master|].
  intros nd Hnd. rewrite (node_of_master n m) in Hnd by done. injection Hnd as <-. rewrite Hc. do 3 crun.
  assert (negb readonly || bool_decide (c_read_policy (s_client s) = RP_ONLY_MASTER) = true) as ->.
  { destruct Hro as [->|E]; [done|]. rewrite bool_decide_true by done. by rewrite orb_true_r. }
  by crun.
Qed.

(** An attempt that is answered without an error. *)
Lemma attempt_answered r a nd c l cell w (s : cstate W) P :
  find_node r (s_client s) = Some nd -> nd_context nd = Some c ->
  hi_command_argv c (a_argc a) (a_argv a) (a_argvlen a) (s_world s) = Some (Some l, w) ->
  hi_cell l w = Some cell -> rp_type cell <> REDIS_REPLY_ERROR ->
  P (Some l, HR_SUCCESS)
    (CState (change_node r reset_conn_errors (s_client s)) (s_error s) (s_which s) (s_events s) w) ->
  yields (attempt r false a None) s P.
Proof.
  intros Hn Hc Hcmd Hcell Hty HP. unfold attempt. crun. apply the_node_spec; [by eexists|].
  intros nd' Hnd. rewrite Hn in Hnd. injection Hnd as <-. rewrite Hc. do 3 crun.
  eapply yields_drive; [exact Hcmd|]. crun. unfold free_helper. do 2 crun. eapply yields_observe; [exact Hcell|].
  unfold handle_redis_reply, upd_node. do 3 crun. apply the_node_spec; [by eexists|]. intros nd' _.
  crun. rewrite (proj2 (Z.eqb_neq _ _)) by done. cbn [negb]. by do 2 crun.
Qed.

(** A command whose master is connected and answers. *)
Lemma command_direct_run readonly num_retries key a fuel n m c l cell w (s : cstate W) :
  cluster_mode (s_client s) = true -> key <> [] -> zlen key <= INT_MAX ->
  zget (c_slot2node (s_client s)) (key_slot key) = Some n ->
  um_find n (c_masters (s_client s)) = Some m -> nd_context (m_self m) = Some c ->
  hi_command_argv c (a_argc a) (a_argv a) (a_argvlen a) (s_world s) = Some (Some l, w) ->
  hi_cell l w = Some cell -> rp_type cell <> REDIS_REPLY_ERROR ->
  readonly = false \/ c_read_policy (s_client s) = RP_ONLY_MASTER ->
  yields (redis_command (S fuel) readonly num_retries key a) s (fun o s' => o = Some l /\
    s_client s' = change_node (RMaster n) reset_conn_errors (s_client s) /\
    s_which s' = nd_node (m_self m) /\ s_world s' = w /\ s_error s' = s_error s /\
    s_events s' = if c_monitored (s_client s)
                  then s_events s ++ [BeforeExecute (nd_node (m_self m)) (a_command a) readonly;
                                      AfterExecute 0 (nd_node (m_self m)) (a_command a) (Some l)]
                  else s_events s).
Proof.
  intros Hmode Hk Hlen Hslot Hm Hc Hcmd Hcell Hty Hro. unfold redis_command.
  apply yields_local. repeat crun. cbn [s_client]. rewrite Hmode, bool_decide_false by done. cbn [andb].
  crun. cbn [command_loop]. unfold turn. do 3 crun. cbn [s_client]. rewrite Hmode.
  crun. eapply yields_drive.
  { unfold get_key_slot. rewrite bool_decide_true by done. by rewrite keyHashSlot_exact. }
  crun. apply (route_connected (key_slot key) readonly n m c); [apply client_slot_range|done..|].
  unfold serve. do 2 crun. apply the_node_spec; [by eexists; apply node_of_master|].
  intros nd Hnd. cbn [s_client] in Hnd. rewrite (node_of_master n m) in Hnd by done. injection Hnd as <-.
  do 2 crun. eexists tt, _. split; [done|]. crun. cbn [Z.eqb]. eexists tt, _. split; [done|]. crun.
  cbn [isSome s_client s_error s_which s_events s_world].
  eapply attempt_answered; [by apply node_of_master|done..|]. cbn [s_client s_error s_which s_events s_world fst snd].
  unfold after_attempt. crun. eexists tt, _. split; [done|]. do 3 crun.
  cbn [s_client s_error s_which s_events s_world]. split_and!; [done..|].
  change (c_monitored (change_node (RMaster n) reset_conn_errors (s_client s))) with (c_monitored (s_client s)).
  destruct (c_monitored (s_client s)); [by rewrite <- app_assoc|done].
Qed.


(** What an error reply makes the client do, by its first word. *)
Definition error_action (word : bytes) : HandleResult :=
  if bool_decide (word = bs "CLUSTERDOWN") then HR_RETRY_UNCOND
  else if bool_decide (word = bs "ASK") then HR_REDIRECT
  else if bool_decide (word = bs "MOVED") then HR_RETRY_UNCOND
  else HR_ERROR.

Lemma is_error_exact name ty : is_error name ty = bool_decide (ty = name).
Proof.
  unfold is_error. destruct (Z.eqb_spec (zlen ty) (zlen name)); [done|].
  symmetry. apply bool_decide_eq_false. by intros ->.
Qed.

Lemma extract_first_word word rest len old :
  forallb isupper (take 3 word) = true -> 3 <= zlen word -> Byte.x20 ∉ word -> NUL ∉ word ->
  NUL ∉ rest -> 2 < len ->
  extract_errtype len (Some (word ++ Byte.x20 :: rest ++ [NUL])) old = Some word.
Proof.
  intros Hup Hw Hs H1 H2 Hlen. unfold extract_errtype. rewrite (proj2 (Z.ltb_lt 2 len)) by lia.
  cbn [mbind option_bind].
  assert (cstr (word ++ Byte.x20 :: rest ++ [NUL]) = word ++ Byte.x20 :: rest) as ->.
  { change (word ++ Byte.x20 :: rest ++ [NUL]) with (word ++ (Byte.x20 :: rest) ++ [NUL]).
    rewrite app_assoc. apply cstr_app_nul. rewrite not_elem_of_app, not_elem_of_cons. done. }
  rewrite find_char by done. rewrite (proj2 (Z.ltb_lt 2 _)) by lia.
  assert (take 3 (word ++ Byte.x20 :: rest ++ [NUL]) = take 3 word) as ->.
  { apply take_app_le. unfold zlen in Hw. lia. }
  rewrite Hup. cbn [andb]. by rewrite ztake_app_len.
Qed.


(** ** Reading from replicas *)

Lemma um_find_update {V} k f (t : list (Node * V)) : um_find k (um_update k f t) = f <$> um_find k t.
Proof.
  unfold um_find, um_update. induction t as [|[k' v] t IH]; [done|]. rewrite fmap_cons. cbn [fst snd].
  case_bool_decide as E.
  - by rewrite !filter_cons_True by done.
  - rewrite !filter_cons_False by done. exact IH.
Qed.

(** The nodes in the order in which they are chosen. *)
Definition read_cycle (m : Node) (mn : CRedisMasterNode) : list noderef :=
  (RReplica m <$> (m_replicas mn).*1) ++ [RMaster m].

Lemma choose_step m mn (s : cstate W) P :
  um_find m (c_masters (s_client s)) = Some mn -> m_replicas mn <> [] ->
  (forall r s', read_cycle m mn !! Z.to_nat (m_index mn mod zlen (read_cycle m mn)) = Some r ->
     um_find m (c_masters (s_client s')) = Some (m_with_index (u32 (m_index mn + 1)) mn) -> P r s') ->
  yields (choose_node m RP_READ_REPLICA) s P.
Proof.
  intros Hm Hne HP. unfold choose_node. repeat crun. eapply yields_must; [exact Hm|].
  set (n := zlen (m_replicas mn)) in *.
  assert (0 < n) as Hn by (unfold n; destruct (m_replicas mn); [done|zlia]).
  assert (zlen (read_cycle m mn) = n + 1) as Ec.
  { unfold read_cycle, n, zlen. rewrite length_app, !length_fmap. simpl. lia. }
  rewrite Ec in HP. pose proof (Z.mod_pos_bound (m_index mn) (n + 1) ltac:(lia)) as Hk.
  rewrite (proj2 (Z.eqb_neq n 0)) by lia. do 2 crun. rewrite bool_decide_true by done. cbn [andb].
  assert (forall f, um_find m (um_update m f (c_masters (s_client s))) = Some (f mn)) as Hu
    by (intros f; by rewrite um_find_update, Hm).
  destruct (Z.eqb_spec (m_index mn mod (n + 1)) n) as [E|E].
  - crun. apply HP; [|by cbn; rewrite Hu]. rewrite E. unfold read_cycle.
    rewrite lookup_app_r by (rewrite !length_fmap; unfold n, zlen; lia).
    rewrite !length_fmap. by replace (Z.to_nat n - length (m_replicas mn))%nat with 0%nat by (unfold n, zlen; lia).
  - crun. destruct (zget_is_Some (m_replicas mn) (m_index mn mod (n + 1))) as [[k v] Eg]; [fold n; lia|].
    assert (um_nth (m_index mn mod (n + 1)) (m_replicas mn) = Some k) as En.
    { unfold um_nth, pick. fold n. rewrite (proj2 (Z.eqb_neq n 0)) by lia.
      rewrite (Z.mod_small _ n) by lia. cbn [mbind option_bind]. by rewrite Eg. }
    eapply yields_must; [exact En|]. crun. apply HP; [|by cbn; rewrite Hu]. unfold read_cycle.
    rewrite lookup_app_l by (rewrite !length_fmap; unfold n, zlen in *; lia).
    rewrite !list_lookup_fmap. unfold zget in Eg. destruct (0 <=? _); [|done]. by rewrite Eg.
Qed.

(** Choosing a number of times in a row. *)
Fixpoint choose_many (k : nat) (m : Node) : CM W (list noderef) :=
  match k with
  | O => mret []
  | S k => r ← choose_node m RP_READ_REPLICA; l ← choose_many k m; mret (r :: l)
  end.

Lemma choose_many_spec m mn k : forall i (s : cstate W),
  um_find m (c_masters (s_client s)) = Some (m_with_index i mn) -> m_replicas mn <> [] ->
  0 <= i -> i + Z.of_nat k <= 4294967295 ->
  yields (choose_many k m) s (fun l s' => length l = k /\ forall j, (j < k)%nat ->
    l !! j = read_cycle m mn !! Z.to_nat ((i + Z.of_nat j) mod zlen (read_cycle m mn))).
Proof.
  induction k as [|k IH]; intros i s Hm Hne Hi Hk; simpl; [crun; split; [done|lia]|].
  crun. eapply (choose_step m (m_with_index i mn)); [exact Hm|done|]. intros r s1 Hr Hm1. cbn in Hm1.
  assert (u32 (i + 1) = i + 1) as E by (apply u32_small; lia).
  crun. eapply yields_mono; [apply (IH (i + 1)); [by rewrite <- E|done|lia|lia]|].
  intros l s2 [Hl Hj]. crun. split; [simpl; lia|]. intros [|j] Hlt; simpl.
  - rewrite Z.add_0_r. by rewrite <- Hr.
  - rewrite Hj by lia. do 3 f_equal. lia.
Qed.

(** Reads that may go to replicas go around: in any row of as many choices
    as there are replicas and master, each replica and the master is chosen
    exactly once. *)
Theorem choose_round_robin m mn (s : cstate W) :
  um_find m (c_masters (s_client s)) = Some mn -> m_replicas mn <> [] ->
  0 <= m_index mn -> m_index mn + zlen (m_replicas mn) + 1 <= 4294967295 ->
  yields (choose_many (S (length (m_replicas mn))) m) s (fun l s' =>
    l ≡ₚ RMaster m :: (RReplica m <$> (m_replicas mn).*1)).
Proof.
  intros Hm Hne Hi Hk. set (N := S (length (m_replicas mn))).
  assert (length (read_cycle m mn) = N) as HN.
  { unfold read_cycle, N. rewrite length_app, !length_fmap. simpl. lia. }
  eapply yields_mono; [apply (choose_many_spec m mn N (m_index mn)); [destruct mn; exact Hm|done|done|unfold N, zlen in *; lia]|].
  intros l _ [Hl Hj]. set (r := Z.to_nat (m_index mn mod Z.of_nat N)).
  assert (r < N)%nat as Hr.
  { pose proof (Z.mod_pos_bound (m_index mn) (Z.of_nat N) ltac:(lia)). unfold r. lia. }
  assert (l = drop r (read_cycle m mn) ++ take r (read_cycle m mn)) as ->.
  { apply list_eq_same_length with N; [rewrite length_app, length_drop, length_take; lia|done|].
    intros j x y Hjn Hx Hy. rewrite Hj in Hx by done. unfold zlen in Hx. rewrite HN in Hx.
    assert ((m_index mn + Z.of_nat j) mod Z.of_nat N = (Z.of_nat r + Z.of_nat j) mod Z.of_nat N) as E.
    { unfold r. rewrite Z2Nat.id by (apply Z.mod_pos_bound; lia). by rewrite Zplus_mod_idemp_l. }
    rewrite E in Hx. destruct (decide (j < N - r)%nat).
    - rewrite lookup_app_l, lookup_drop in Hy by (rewrite length_drop; lia).
      rewrite Z.mod_small in Hx by lia. replace (Z.to_nat _) with (r + j)%nat in Hx by lia. congruence.
    - rewrite lookup_app_r, length_drop, HN, lookup_take_lt in Hy by (rewrite ?length_drop; lia).
      assert ((Z.of_nat r + Z.of_nat j) mod Z.of_nat N = Z.of_nat r + Z.of_nat j - Z.of_nat N) as E2.
      { symmetry. apply Z.mod_unique with 1; lia. }
      rewrite E2 in Hx. replace (Z.to_nat _) with (j - (N - r))%nat in Hx by lia. congruence. }
  rewrite (Permutation_app_comm (drop _ _)), take_drop. unfold read_cycle. by rewrite Permutation_app_comm.
Qed.

End theorems.

(** ** Examples *)

#[local] Existing Instances digits_lib lp64 front release_build toy toy_reliable.

(** A key of the first node. *)
Example slot_k596 : key_slot (bs "k596") = 0.
Proof. vm_compute. reflexivity. Qed.

Lemma routed_to_owner_witness :
  yields (get_redis_node 8193 false None) started (fun r s' => r = Some (RMaster node_b) /\
    inv ∅ true ∅ [] s' /\ shape (s_client s') = shape (s_client started)).
Proof.
  apply (routed_to_owner ∅ ∅ 8193 false None node_b started).
  - exact started_inv.
  - unfold CLUSTER_SLOTS. lia.
  - vm_compute. reflexivity.
  - eexists. vm_compute. reflexivity.
  - left. reflexivity.
Defined.

Definition master_a : CRedisMasterNode := new_master (bs "a1") node_a (Some 1%nat).
Definition get_k596 : CommandArgs :=
  final (add_arg (bs "k596") (add_arg (bs "GET") (set_command (bs "GET") (set_key (bs "k596") new_args)))).
Definition answered : mock :=
  match hi_command_argv 1 (a_argc get_k596) (a_argv get_k596) (a_argvlen get_k596) (s_world started) with
  | Some (_, w) => w
  | None => s_world started
  end.



(** A master with two replicas. *)
Definition with_replicas : cstate mock :=
  CState (Client false [] [] 0 0 [] RP_READ_REPLICA
            [(node_a, MasterNode (new_node (bs "a1") node_a None)
                        [(node_b, new_node (bs "b1") node_b None);
                         ((bs "c", 7002), new_node (bs "c1") (bs "c", 7002) None)] 4)] ∅ [node_a; node_b] [] [] [])
    no_error ([], 0) [] (Mock ∅ ∅ []).

Lemma choose_round_robin_witness :
  yields (choose_many 3 node_a) with_replicas (fun l s' =>
    l ≡ₚ [RMaster node_a; RReplica node_a node_b; RReplica node_a (bs "c", 7002)]).
Proof.
  apply (choose_round_robin node_a (MasterNode (new_node (bs "a1") node_a None)
                        [(node_b, new_node (bs "b1") node_b None);
                         ((bs "c", 7002), new_node (bs "c1") (bs "c", 7002) None)] 4) with_replicas).
  - vm_compute. reflexivity.
  - discriminate.
  - simpl. lia.
  - vm_compute. discriminate.
Defined.
