(* ===== verification/Sha1.v ===== *)
(** * SHA-1 (r3c/sha1.cpp, strsha1 of r3c/utils.cpp)

    The context, its updates and the digest, with words of 32 bits as integers
    below [2 ^ 32].  After them the standard's definition: the padded message,
    its blocks, the schedule of eighty words and the eighty rounds. *)

From Stdlib Require Import Strings.Byte String.
From stdpp Require Import list.
From S2P Require Import Prelude.

(** ** The program *)

(** The macros are chosen by the order of the bytes of a word in memory. *)
Class ByteOrder := little_endian : bool.

Definition rol (value bits : Z) : Z :=
  Z.lor (u32 (Z.shiftl value bits)) (Z.shiftr value (32 - bits)).

(** A word from its bytes, the highest first. *)
Definition word_of (b : bytes) : Z := foldl (fun a x => 256 * a + bZ x) 0 b.

Record SHA1_CTX := Ctx { state : list Z; count0 : Z; count1 : Z; buffer : bytes }.

Section sha1.
Context {bo : ByteOrder}.

(** [block->l] after the copy of 64 bytes to [block->c]. *)
Definition load (b : bytes) : Z := word_of (if little_endian then rev b else b).
Definition words (b : bytes) : list Z :=
  (fun i => load (take 4 (drop (4 * i) b))) <$> seq 0 16.

(** The macros [blk0] and [blk]: the word, which is also stored. *)
Definition blk0 (l : list Z) (i : nat) : Z * list Z :=
  if little_endian then
    let x := Z.lor (Z.land (rol (l !!! i) 24) 0xFF00FF00) (Z.land (rol (l !!! i) 8) 0x00FF00FF) in
    (x, <[i := x]> l)
  else (l !!! i, l).
Definition blk (l : list Z) (i : nat) : Z * list Z :=
  let at_ k := l !!! Nat.land (i + k) 15 in
  let x := rol (Z.lxor (Z.lxor (Z.lxor (at_ 13%nat) (at_ 8%nat)) (at_ 2%nat)) (at_ 0%nat)) 1 in
  (x, <[Nat.land i 15 := x]> l).

(** The functions and constants of [R0] (and [R1]), [R2], [R3], [R4]. *)
Definition R01_f (w x y : Z) : Z := Z.lxor (Z.land w (Z.lxor x y)) y.
Definition R24_f (w x y : Z) : Z := Z.lxor (Z.lxor w x) y.
Definition R3_f (w x y : Z) : Z := Z.lor (Z.land (Z.lor w x) y) (Z.land w x).
Definition R (f : Z -> Z -> Z -> Z) (k word v w x y z : Z) : Z * Z :=
  (u32 (z + (f w x y + word + k + rol v 5)), rol w 30).

(** The variables [a] to [e] are a list; the [i]th use of a macro has them
    turned by [i]. *)
Definition role (i j : nat) : nat := Z.to_nat ((Z.of_nat j - Z.of_nat i) mod 5).

Definition round (s : list Z * list Z) (i : nat) : list Z * list Z :=
  let '(vars, block) := s in
  let '(word, block) := if Nat.ltb i 16 then blk0 block i else blk block i in
  let '(f, k) := if Nat.ltb i 20 then (R01_f, 0x5A827999) else
                 if Nat.ltb i 40 then (R24_f, 0x6ED9EBA1) else
                 if Nat.ltb i 60 then (R3_f, 0x8F1BBCDC) else (R24_f, 0xCA62C1D6) in
  let var j := vars !!! role i j in
  let '(z, w) := R f k word (var 0%nat) (var 1%nat) (var 2%nat) (var 3%nat) (var 4%nat) in
  (<[role i 1 := w]> (<[role i 4 := z]> vars), block).

Definition SHA1Transform (state : list Z) (buffer : bytes) : list Z :=
  let vars := (foldl round (state, words buffer) (seq 0 80)).1 in
  zip_with (fun s v => u32 (s + v)) state vars.

(** The buffer is left as it is in memory. *)
Definition SHA1Init (buffer : bytes) : SHA1_CTX :=
  Ctx [0x67452301; 0xEFCDAB89; 0x98BADCFE; 0x10325476; 0xC3D2E1F0] 0 0 buffer.

(** The blocks of the data from [i] on; the fuel counts them. *)
Fixpoint transform_blocks (fuel : nat) (state : list Z) (data : bytes) (i len : Z) : option (list Z * Z) :=
  match fuel with
  | O => None
  | S fuel =>
      if u32 (i + 63) <? len then
        b ← zread data i 64;
        transform_blocks fuel (SHA1Transform state b) data (u32 (i + 64)) len
      else Some (state, i)
  end.

(** The blocks that the data completes: the state, the buffer, where the rest of
    the data starts and where it goes.  [None]: a read beyond the data, a write
    beyond the buffer, or a loop that does not end. *)
Definition absorb (c : SHA1_CTX) (data : bytes) (len j : Z) : option (list Z * bytes * Z * Z) :=
  if 63 <? u32 (j + len) then
    let i := 64 - j in
    b ← zread data 0 i;
    buffer ← zwrite (buffer c) j b;
    r ← transform_blocks (S (Z.to_nat len)) (SHA1Transform (state c) buffer) data i len;
    Some (r.1, buffer, r.2, 0)
  else Some (state c, buffer c, 0, j).

Definition SHA1Update (c : SHA1_CTX) (data : bytes) (len : Z) : option SHA1_CTX :=
  let j := count0 c in
  let count0 := u32 (j + u32 (Z.shiftl len 3)) in
  let count1 := if count0 <? j then u32 (count1 c + 1) else count1 c in
  let count1 := u32 (count1 + Z.shiftr len 29) in
  let j := Z.land (Z.shiftr j 3) 63 in
  '(state, buffer, i, j) ← absorb c data len j;
  b ← zread data i (u32 (len - i));
  buffer ← zwrite buffer j b;
  Some (Ctx state count0 count1 buffer).

Fixpoint pad_zeros (fuel : nat) (c : SHA1_CTX) : option SHA1_CTX :=
  match fuel with
  | O => None
  | S fuel =>
      if Z.land (count0 c) 504 =? 448 then Some c
      else c ← SHA1Update c [Byte.x00] 1; pad_zeros fuel c
  end.

(** The byte [i] of words with the highest byte first. *)
Definition byte_at (word : nat -> Z) (i : nat) : byte :=
  Zb (Z.land (Z.shiftr (word (i / 4)%nat) ((3 - Z.land (Z.of_nat i) 3) * 8)) 255).

Definition SHA1Final (c : SHA1_CTX) : option bytes :=
  let finalcount := byte_at (fun i => if Nat.eqb i 0 then count1 c else count0 c) <$> seq 0 8 in
  c ← SHA1Update c [Byte.x80] 1;
  c ← pad_zeros 65 c;
  c ← SHA1Update c finalcount 8;
  Some (byte_at (fun i => state c !!! i) <$> seq 0 20).

Definition hex_table : bytes := bs "0123456789abcdef".
Definition hex_digit (n : Z) : byte := default NUL (zget hex_table n).

(** [buffer] is what the context has on the stack; the size is truncated. *)
Definition strsha1 (buffer str : bytes) : option bytes :=
  c ← SHA1Update (SHA1Init buffer) str (u32 (zlen str));
  hash ← SHA1Final c;
  Some (flat_map (fun x => [hex_digit (Z.land (Z.shiftr (bZ x) 4) 0x0f); hex_digit (Z.land (bZ x) 0x0f)]) hash).

End sha1.

(** ** The standard (FIPS 180-4) *)

Definition rotl (n x : Z) : Z := Z.lor (x * 2 ^ n mod 2 ^ 32) (x / 2 ^ (32 - n)).

Definition ch (x y z : Z) : Z := Z.lxor (Z.land x y) (Z.land (Z.lnot x) z).
Definition parity (x y z : Z) : Z := Z.lxor (Z.lxor x y) z.
Definition maj (x y z : Z) : Z := Z.lxor (Z.lxor (Z.land x y) (Z.land x z)) (Z.land y z).

Definition sha_f (t : nat) : Z -> Z -> Z -> Z :=
  if Nat.ltb t 20 then ch else if Nat.ltb t 40 then parity else if Nat.ltb t 60 then maj else parity.
Definition sha_k (t : nat) : Z :=
  if Nat.ltb t 20 then 0x5a827999 else if Nat.ltb t 40 then 0x6ed9eba1 else
  if Nat.ltb t 60 then 0x8f1bbcdc else 0xca62c1d6.

(** The schedule: sixteen words of the block, and each further one from four
    before it. *)
Fixpoint extend (n : nat) (w : list Z) : list Z :=
  match n with
  | O => w
  | S n =>
      let t := length w in
      extend n (w ++ [rotl 1 (Z.lxor (Z.lxor (Z.lxor (w !!! (t - 3)%nat) (w !!! (t - 8)%nat))
                                             (w !!! (t - 14)%nat)) (w !!! (t - 16)%nat))])
  end.
Definition message_words (b : bytes) : list Z := (fun i => word_of (take 4 (drop (4 * i) b))) <$> seq 0 16.
Definition schedule (b : bytes) : list Z := extend 64 (message_words b).

Definition sha_step (w : list Z) (s : Z * Z * Z * Z * Z) (t : nat) : Z * Z * Z * Z * Z :=
  let '(a, b, c, d, e) := s in
  ((rotl 5 a + sha_f t b c d + e + sha_k t + w !!! t) mod 2 ^ 32, a, rotl 30 b, c, d).

Definition compress (h : Z * Z * Z * Z * Z) (b : bytes) : Z * Z * Z * Z * Z :=
  let '(a, b, c, d, e) := foldl (sha_step (schedule b)) h (seq 0 80) in
  let '(h0, h1, h2, h3, h4) := h in
  ((h0 + a) mod 2 ^ 32, (h1 + b) mod 2 ^ 32, (h2 + c) mod 2 ^ 32, (h3 + d) mod 2 ^ 32, (h4 + e) mod 2 ^ 32).

Definition sha_init : Z * Z * Z * Z * Z := (0x67452301, 0xefcdab89, 0x98badcfe, 0x10325476, 0xc3d2e1f0).

(** The first [n] blocks of a message. *)
Fixpoint hash_blocks (n : nat) (h : Z * Z * Z * Z * Z) (m : bytes) : Z * Z * Z * Z * Z :=
  match n with
  | O => h
  | S n => hash_blocks n (compress h (take 64 m)) (drop 64 m)
  end.

(** A number as [n] bytes, the highest first. *)
Definition be_bytes (n : nat) (x : Z) : bytes :=
  (fun i => Zb (x / 256 ^ (Z.of_nat n - 1 - Z.of_nat i))) <$> seq 0 n.

Definition sha_pad (m : bytes) : bytes :=
  m ++ [Byte.x80] ++ replicate (Z.to_nat ((55 - zlen m) mod 64)) Byte.x00 ++ be_bytes 8 (8 * zlen m).

Definition sha1 (m : bytes) : bytes :=
  let '(a, b, c, d, e) := hash_blocks (length (sha_pad m) / 64) sha_init (sha_pad m) in
  be_bytes 4 a ++ be_bytes 4 b ++ be_bytes 4 c ++ be_bytes 4 d ++ be_bytes 4 e.
