(* ===== verification/Sha1Facts.v ===== *)
(** * SHA-1 computes the standard's function

    The macros are the standard's functions; the window of sixteen words holds
    the last of its schedule; the five variables in turn hold its state.  Then
    the context, after any updates, holds the hash of the whole blocks of what
    it was given and the rest in its buffer. *)

From Stdlib Require Import Strings.Byte String.
From stdpp Require Import list.
From S2P Require Import Prelude Sha1.

(** ** Words *)

Lemma word_testbit a b n : 0 <= n ->
  Z.testbit (256 * a + bZ b) n = if n <? 8 then Z.testbit (bZ b) n else Z.testbit a (n - 8).
Proof.
  intros Hn. pose proof (bZ_range b). destruct (Z.ltb_spec n 8).
  - rewrite <- (Z.mod_pow2_bits_low (256 * a + bZ b) 8 n) by lia. f_equal.
    change (2 ^ 8) with 256. rewrite (Z.mul_comm 256), Z.add_comm, Z_mod_plus_full. by apply Z.mod_small.
  - replace n with ((n - 8) + 8) at 1 by lia. rewrite <- Z.div_pow2_bits by lia. f_equal.
    change (2 ^ 8) with 256. rewrite (Z.mul_comm 256), Z.div_add_l by lia. rewrite Z.div_small; lia.
Qed.

Lemma rol_rotl n x : 0 <= n <= 32 -> rol x n = rotl n x.
Proof.
  intros. unfold rol, rotl, uw. by rewrite Z.shiftl_mul_pow2, Z.shiftr_div_pow2 by lia.
Qed.

Lemma rotl_testbit n x i : 0 <= n <= 32 -> 0 <= i ->
  Z.testbit (rotl n x) i
  = ((i <? 32) && (n <=? i) && Z.testbit x (i - n)) || Z.testbit x (i + (32 - n)).
Proof.
  intros. unfold rotl. rewrite Z.lor_spec, Z.div_pow2_bits by lia. f_equal.
  destruct (Z.ltb_spec i 32).
  - rewrite Z.mod_pow2_bits_low, <- Z.shiftl_mul_pow2, Z.shiftl_spec by lia.
    destruct (Z.leb_spec n i); [done|]. by rewrite Z.testbit_neg_r by lia.
  - by rewrite Z.mod_pow2_bits_high by lia.
Qed.

Lemma bZ_testbit_high b n : 8 <= n -> Z.testbit (bZ b) n = false.
Proof.
  intros. rewrite <- (Z.mod_small (bZ b) (2 ^ 8)) by (pose proof (bZ_range b); lia).
  by apply Z.mod_pow2_bits_high.
Qed.

Lemma word4_testbit b0 b1 b2 b3 n : 0 <= n ->
  Z.testbit (word_of [b0; b1; b2; b3]) n
  = if n <? 8 then Z.testbit (bZ b3) n else if n <? 16 then Z.testbit (bZ b2) (n - 8) else
    if n <? 24 then Z.testbit (bZ b1) (n - 16) else if n <? 32 then Z.testbit (bZ b0) (n - 24) else false.
Proof.
  intros Hn. unfold word_of. cbn [foldl]. rewrite word_testbit by done.
  destruct (Z.ltb_spec n 8); [done|]. rewrite word_testbit by lia.
  destruct (Z.ltb_spec (n - 8) 8), (Z.ltb_spec n 16); try lia; [done|].
  rewrite word_testbit by lia. replace (n - 8 - 8) with (n - 16) by lia.
  destruct (Z.ltb_spec (n - 16) 8), (Z.ltb_spec n 24); try lia; [done|].
  rewrite word_testbit by lia. replace (n - 16 - 8) with (n - 24) by lia.
  destruct (Z.ltb_spec (n - 24) 8), (Z.ltb_spec n 32); try lia; [done|].
  change (256 * 0) with 0. apply Z.testbit_0_l.
Qed.

Lemma ones_testbit n : 0 <= n < 8 -> Z.testbit (bZ Byte.xff) n = true.
Proof. intros. change (bZ Byte.xff) with (Z.ones 8). apply Z.ones_spec_low. lia. Qed.
Lemma zeros_testbit n : Z.testbit (bZ Byte.x00) n = false.
Proof. apply Z.testbit_0_l. Qed.

(** The bytes of a word exchanged, as [blk0] does it. *)
Lemma swap_word b0 b1 b2 b3 :
  let x := word_of [b3; b2; b1; b0] in
  Z.lor (Z.land (rol x 24) 0xFF00FF00) (Z.land (rol x 8) 0x00FF00FF) = word_of [b0; b1; b2; b3].
Proof.
  intros x. subst x. apply Z.bits_inj'. intros n Hn.
  change 0xFF00FF00 with (word_of [Byte.xff; Byte.x00; Byte.xff; Byte.x00]).
  change 0x00FF00FF with (word_of [Byte.x00; Byte.xff; Byte.x00; Byte.xff]).
  rewrite !rol_rotl, Z.lor_spec, !Z.land_spec, !rotl_testbit, !(word4_testbit _ _ _ _ n) by lia.
  assert (n < 8 \/ 8 <= n < 16 \/ 16 <= n < 24 \/ 24 <= n < 32 \/ 32 <= n) as Hr by lia.
  destruct Hr as [?|[?|[?|[?|?]]]];
    repeat match goal with
    | |- context [?a <? ?b] => first [ztrue (a <? b) | zfalse (a <? b)]
    | |- context [?a <=? ?b] => first [ztrue (a <=? b) | zfalse (a <=? b)]
    end; rewrite ?ones_testbit, ?zeros_testbit by lia; simpl;
    rewrite ?word4_testbit by lia;
    repeat match goal with
    | |- context [?a <? ?b] => first [ztrue (a <? b) | zfalse (a <? b)]
    end; rewrite ?andb_true_r, ?andb_false_r, ?orb_false_r, ?orb_false_l; try done; f_equal; lia.
Qed.

(** ** The functions of the rounds *)

Ltac bitwise :=
  intros; apply Z.bits_inj'; intros n Hn;
  rewrite ?Z.lor_spec, ?Z.lxor_spec, ?Z.land_spec, ?Z.lnot_spec by done;
  rewrite ?Z.lor_spec, ?Z.lxor_spec, ?Z.land_spec, ?Z.lnot_spec by done;
  repeat match goal with |- context [Z.testbit ?x n] => destruct (Z.testbit x n) end; reflexivity.

Lemma R01_ch w x y : R01_f w x y = ch w x y.
Proof. unfold R01_f, ch. revert w x y. bitwise. Qed.
Lemma R3_maj w x y : R3_f w x y = maj w x y.
Proof. unfold R3_f, maj. revert w x y. bitwise. Qed.

(** ** The schedule *)

Definition next_word (w : list Z) (t : nat) : Z :=
  rotl 1 (Z.lxor (Z.lxor (Z.lxor (w !!! (t - 3)%nat) (w !!! (t - 8)%nat)) (w !!! (t - 14)%nat)) (w !!! (t - 16)%nat)).

Lemma extend_length n w : length (extend n w) = (n + length w)%nat.
Proof.
  revert w. induction n as [|n IH]; intros w; [done|]. cbn [extend]. rewrite IH, length_app. simpl. lia.
Qed.

Lemma extend_prefix n w t : (t < length w)%nat -> extend n w !!! t = w !!! t.
Proof.
  revert w. induction n as [|n IH]; intros w Ht; [done|]. cbn [extend].
  rewrite IH by (rewrite length_app; simpl; lia). by apply lookup_total_app_l.
Qed.

Lemma extend_next n w t :
  (16 <= length w <= t)%nat -> (t < n + length w)%nat -> extend n w !!! t = next_word (extend n w) t.
Proof.
  revert w. induction n as [|n IH]; intros w Hw Ht; [lia|]. cbn [extend].
  destruct (decide (t = length w)) as [->|].
  - unfold next_word. rewrite !(extend_prefix n) by (rewrite length_app; simpl; lia).
    rewrite list_lookup_total_middle by done. by rewrite !(lookup_total_app_l w) by lia.
  - apply IH; rewrite length_app; simpl; lia.
Qed.

Lemma words_length f (b : bytes) : length ((fun i => f (take 4 (drop (4 * i) b))) <$> seq 0 16 : list Z) = 16%nat.
Proof. by rewrite length_fmap, length_seq. Qed.

Lemma words_lookup f (b : bytes) t : (t < 16)%nat ->
  ((fun i => f (take 4 (drop (4 * i) b))) <$> seq 0 16 : list Z) !!! t = f (take 4 (drop (4 * t) b)).
Proof.
  intros. apply list_lookup_total_correct. rewrite list_lookup_fmap, lookup_seq_lt by done. done.
Qed.

Lemma schedule_first b t : (t < 16)%nat -> schedule b !!! t = word_of (take 4 (drop (4 * t) b)).
Proof.
  intros. unfold schedule, message_words. rewrite extend_prefix by (by rewrite words_length). by apply words_lookup.
Qed.
Lemma schedule_next b t : (16 <= t < 80)%nat -> schedule b !!! t = next_word (schedule b) t.
Proof.
  intros. assert (length (message_words b) = 16%nat) as Hl by apply words_length.
  unfold schedule. rewrite extend_next; [done| |]; rewrite Hl; lia.
Qed.

(** ** The window *)

Section window.
Context {bo : ByteOrder}.

Lemma load_swapped b : length b = 4%nat ->
  (if little_endian then
     Z.lor (Z.land (rol (load b) 24) 0xFF00FF00) (Z.land (rol (load b) 8) 0x00FF00FF)
   else load b) = word_of b.
Proof.
  intros Hb. destruct b as [|b0 [|b1 [|b2 [|b3 [|]]]]]; try done. unfold load.
  destruct little_endian; [apply swap_word|done].
Qed.

(** Before round [t]. *)
Definition window (b : bytes) (t : nat) (block : list Z) : Prop :=
  length block = 16%nat /\
  (forall s, (s < t <= s + 16)%nat -> block !!! (s mod 16)%nat = schedule b !!! s) /\
  (forall s, (t <= s < 16)%nat -> block !!! s = load (take 4 (drop (4 * s) b))).

Lemma window_start b : window b 0 (words b).
Proof.
  split; [apply words_length|]. split; [intros; lia|]. intros. apply words_lookup. lia.
Qed.

Lemma window_store b t block x : window b t block -> x = schedule b !!! t ->
  window b (S t) (<[(t mod 16)%nat := x]> block).
Proof.
  intros (Hl & Hold & Hraw) ->. pose proof (Nat.mod_upper_bound t 16 ltac:(lia)).
  split; [by rewrite length_insert|]. split.
  - intros s Hs. destruct (decide (s = t)) as [->|].
    + apply list_lookup_total_insert_eq. lia.
    + assert ((s mod 16)%nat <> (t mod 16)%nat).
      { intros E. pose proof (Nat.div_mod_eq s 16). pose proof (Nat.div_mod_eq t 16). lia. }
      rewrite list_lookup_total_insert_ne by done. apply Hold. lia.
  - intros s Hs. rewrite list_lookup_total_insert_ne by (rewrite Nat.mod_small; lia).
    apply Hraw. lia.
Qed.

Lemma land_15 n : Nat.land n 15 = (n mod 16)%nat.
Proof. apply (Nat.land_ones n 4). Qed.

Lemma window_word b t block : length b = 64%nat -> (t < 80)%nat -> window b t block ->
  let r := if Nat.ltb t 16 then blk0 block t else blk block t in
  r.1 = schedule b !!! t /\ window b (S t) r.2.
Proof.
  intros Hb Ht Hw. pose proof Hw as (Hl & Hold & Hraw). destruct (Nat.ltb_spec t 16) as [Hs|Hs].
  - pose proof (load_swapped (take 4 (drop (4 * t) b))) as Hx.
    rewrite length_take, length_drop in Hx. specialize (Hx ltac:(lia)).
    unfold blk0. rewrite Hraw by lia.
    destruct little_endian; cbn [fst snd]; rewrite Hx, <- schedule_first by done; (split; [done|]).
    + pose proof (window_store b t block _ Hw eq_refl) as Hw'. by rewrite Nat.mod_small in Hw'.
    + pose proof (window_store b t block _ Hw eq_refl) as Hw'. rewrite Nat.mod_small in Hw' by done.
      rewrite list_insert_id in Hw'; [done|]. rewrite schedule_first, <- Hx, <- Hraw by lia.
      apply list_lookup_lookup_total_lt. lia.
  - assert (rol (Z.lxor (Z.lxor (Z.lxor (block !!! Nat.land (t + 13) 15) (block !!! Nat.land (t + 8) 15))
                          (block !!! Nat.land (t + 2) 15)) (block !!! Nat.land (t + 0) 15)) 1
            = schedule b !!! t) as Hx.
    { rewrite schedule_next by lia. unfold next_word. rewrite rol_rotl, !land_15 by lia.
      assert (forall k j, (k + j = 16)%nat -> (0 < j)%nat ->
        block !!! ((t + k) mod 16)%nat = schedule b !!! (t - j)%nat) as Hat.
      { intros k j Hk Hj. replace (t + k)%nat with ((t - j) + 1 * 16)%nat by lia.
        rewrite Nat.Div0.mod_add. apply Hold. lia. }
      rewrite (Hat 13%nat 3%nat), (Hat 8%nat 8%nat), (Hat 2%nat 14%nat), (Hat 0%nat 16%nat) by lia. done. }
    unfold blk. cbn [fst snd]. rewrite Hx, land_15. split; [done|]. by apply window_store.
Qed.

(** ** The rounds *)

Definition variables (i : nat) (vars : list Z) : Z * Z * Z * Z * Z :=
  (vars !!! role i 0, vars !!! role i 1, vars !!! role i 2, vars !!! role i 3, vars !!! role i 4).

Lemma role_mod i j : role i j = role (i mod 5) j.
Proof.
  unfold role. rewrite Nat2Z.inj_mod. f_equal. symmetry. apply Zminus_mod_idemp_r.
Qed.
Lemma role_mod_S i j : role (S i) j = role (S (i mod 5)) j.
Proof.
  rewrite role_mod, (role_mod (S (i mod 5))). f_equal.
  rewrite <- (Nat.add_1_l i), <- (Nat.add_1_l (i mod 5)). symmetry. apply Nat.Div0.add_mod_idemp_r.
Qed.

Lemma variables_turn i vars z w : length vars = 5%nat ->
  variables (S i) (<[role i 1 := w]> (<[role i 4 := z]> vars))
  = (z, vars !!! role i 0, w, vars !!! role i 2, vars !!! role i 3).
Proof.
  intros Hl. destruct vars as [|a [|b [|c [|d [|e [|]]]]]]; try done.
  unfold variables. rewrite !(role_mod_S i), !(role_mod i).
  pose proof (Nat.mod_upper_bound i 5 ltac:(lia)) as Hi.
  remember (i mod 5)%nat as r. clear Heqr.
  do 5 (destruct r as [|r]; [reflexivity|]). lia.
Qed.

Lemma round_step b i vars block : length b = 64%nat -> (i < 80)%nat ->
  length vars = 5%nat -> window b i block ->
  let r := round (vars, block) i in
  length r.1 = 5%nat /\ window b (S i) r.2 /\
  variables (S i) r.1 = sha_step (schedule b) (variables i vars) i.
Proof.
  intros Hb Hi Hl Hw. unfold round.
  destruct (window_word b i block Hb Hi Hw) as [Hx Hw'].
  destruct (if Nat.ltb i 16 then blk0 block i else blk block i) as [x block']. cbn [fst snd] in Hx, Hw'. subst x.
  assert ((if Nat.ltb i 20 then (R01_f, 0x5A827999) else if Nat.ltb i 40 then (R24_f, 0x6ED9EBA1) else
           if Nat.ltb i 60 then (R3_f, 0x8F1BBCDC) else (R24_f, 0xCA62C1D6)).2 = sha_k i /\
          forall w x y, (if Nat.ltb i 20 then (R01_f, 0x5A827999) else if Nat.ltb i 40 then (R24_f, 0x6ED9EBA1) else
           if Nat.ltb i 60 then (R3_f, 0x8F1BBCDC) else (R24_f, 0xCA62C1D6)).1 w x y = sha_f i w x y) as [Hk Hf].
  { unfold sha_k, sha_f. destruct (Nat.ltb i 20), (Nat.ltb i 40), (Nat.ltb i 60); (split; [done|]);
      intros; cbn [fst]; try apply R01_ch; try apply R3_maj; done. }
  destruct (if Nat.ltb i 20 then _ else _) as [f k]. cbn [fst snd] in Hk, Hf. subst k. unfold R.
  cbn [fst snd]. rewrite !length_insert. split; [done|]. split; [done|].
  rewrite variables_turn by done. unfold variables, sha_step. rewrite Hf, !rol_rotl by lia.
  unfold uw. do 4 f_equal. f_equal. lia.
Qed.

Lemma rounds_run b vars n : length b = 64%nat -> length vars = 5%nat -> (n <= 80)%nat ->
  let r := foldl round (vars, words b) (seq 0 n) in
  length r.1 = 5%nat /\ window b n r.2 /\
  variables n r.1 = foldl (sha_step (schedule b)) (variables 0 vars) (seq 0 n).
Proof.
  intros Hb Hl. induction n as [|n IH]; intros Hn.
  { split; [done|]. split; [apply window_start|done]. }
  rewrite seq_S, !foldl_app. cbn [foldl]. destruct IH as (Hl' & Hw & E); [lia|].
  destruct (foldl round (vars, words b) (seq 0 n)) as [vars' block].
  destruct (round_step b n vars' block) as (? & ? & E'); [done|lia|done|done|].
  rewrite <- E. auto.
Qed.

Definition vars_of (h : Z * Z * Z * Z * Z) : list Z :=
  let '(a, b, c, d, e) := h in [a; b; c; d; e].

(** A block is hashed as the standard says. *)
Lemma transform_compress h b : length b = 64%nat ->
  SHA1Transform (vars_of h) b = vars_of (compress h b).
Proof.
  intros Hb. unfold SHA1Transform, compress.
  destruct (rounds_run b (vars_of h) 80 Hb) as (Hl & _ & E); [by destruct h as [[[[]]]]|lia|].
  destruct (foldl round _ _) as [vars block]. cbn [fst] in *.
  assert (variables 0 (vars_of h) = h) as E0 by (by destruct h as [[[[]]]]).
  rewrite E0 in E. revert E. generalize (foldl (sha_step (schedule b)) h (seq 0 80)). intros h' <-.
  destruct vars as [|a [|b' [|c [|d [|e [|]]]]]]; try done. by destruct h as [[[[]]]].
Qed.

End window.

(** ** Updates of a SHA-1 context

    Whatever the pieces a message comes in, the context holds the hash of its
    whole blocks, the rest in its buffer and the number of bits. *)

(** ** Blocks *)

Lemma hash_blocks_add n k h m :
  hash_blocks (n + k) h m = hash_blocks k (hash_blocks n h m) (drop (64 * n) m).
Proof.
  revert h m. induction n as [|n IH]; intros h m; [done|].
  cbn [Nat.add hash_blocks]. rewrite IH, drop_drop. do 2 f_equal. lia.
Qed.

Lemma hash_blocks_S n h m :
  hash_blocks (S n) h m = compress (hash_blocks n h m) (take 64 (drop (64 * n) m)).
Proof. by rewrite <- Nat.add_1_r, hash_blocks_add. Qed.

Lemma hash_blocks_prefix n h m d : (64 * n <= length m)%nat ->
  hash_blocks n h (m ++ d) = hash_blocks n h m.
Proof.
  revert h m. induction n as [|n IH]; intros h m Hn; [done|]. cbn [hash_blocks].
  rewrite take_app_le, drop_app_le by lia. apply IH. rewrite length_drop. lia.
Qed.

Lemma blocks_unique n r : (64 * n <= r < 64 * n + 64)%nat -> (r / 64 = n)%nat.
Proof. intros. symmetry. apply (Nat.div_unique r 64 n (r - 64 * n)); lia. Qed.

(** ** Reads and writes *)

Lemma zread_take {A} (l : list A) i n : 0 <= i -> 0 <= n -> i + n <= zlen l ->
  zread l i n = Some (take (Z.to_nat n) (drop (Z.to_nat i) l)).
Proof.
  intros. unfold zread. ztrue (0 <=? i). ztrue (0 <=? n). by ztrue (i + n <=? zlen l).
Qed.

Lemma zwrite_take {A} (l k : list A) i : 0 <= i -> i + zlen k <= zlen l ->
  exists l', zwrite l i k = Some l' /\ length l' = length l /\
    take (Z.to_nat i + length k) l' = take (Z.to_nat i) l ++ k.
Proof.
  intros Hi Hk. unfold zlen in *. unfold zwrite, zlen.
  ztrue (0 <=? i). ztrue (i + Z.of_nat (length k) <=? Z.of_nat (length l)). cbn [andb].
  eexists. split; [reflexivity|]. unfold ztake, zdrop.
  assert (length (take (Z.to_nat i) l) = Z.to_nat i) as Hl by (rewrite length_take; lia).
  split.
  - rewrite !length_app, Hl, length_drop. lia.
  - rewrite app_assoc. apply take_app_length'. rewrite length_app. lia.
Qed.

Section update.
Context {bo : ByteOrder}.

Definition bits (m : bytes) : Z := 8 * zlen m.

(** The context after the message [m]. *)
Definition hashed (m : bytes) (c : SHA1_CTX) : Prop :=
  state c = vars_of (hash_blocks (length m / 64) sha_init m) /\
  length (buffer c) = 64%nat /\
  take (length m mod 64) (buffer c) = drop (64 * (length m / 64)) m /\
  count0 c = bits m mod 2 ^ 32 /\ count1 c = (bits m / 2 ^ 32) mod 2 ^ 32.

Lemma init_hashed b : length b = 64%nat -> hashed [] (SHA1Init b).
Proof. done. Qed.

(** ** The number of bits *)

Lemma count_carry m d c : hashed m c -> zlen d < 2 ^ 32 ->
  let c0 := u32 (count0 c + u32 (Z.shiftl (zlen d) 3)) in
  c0 = bits (m ++ d) mod 2 ^ 32 /\
  u32 ((if c0 <? count0 c then u32 (count1 c + 1) else count1 c) + Z.shiftr (zlen d) 29)
  = (bits (m ++ d) / 2 ^ 32) mod 2 ^ 32.
Proof.
  intros (_ & _ & _ & H0 & H1) Hd. rewrite H0, H1. unfold bits, uw. rewrite zlen_app.
  rewrite Z.shiftl_mul_pow2, Z.shiftr_div_pow2 by lia.
  change (2 ^ 32) with 4294967296. change (2 ^ 3) with 8. change (2 ^ 29) with 536870912.
  pose proof (zlen_nonneg m). pose proof (zlen_nonneg d).
  split; [Z.div_mod_to_equations; lia|].
  destruct (Z.ltb_spec ((8 * zlen m mod 4294967296 + zlen d * 8 mod 4294967296) mod 4294967296)
              (8 * zlen m mod 4294967296)); Z.div_mod_to_equations; lia.
Qed.

Lemma count_offset m c : hashed m c ->
  Z.land (Z.shiftr (count0 c) 3) 63 = Z.of_nat (length m mod 64).
Proof.
  intros (_ & _ & _ & H0 & _). rewrite H0. unfold bits, zlen.
  change 63 with (Z.ones 6). rewrite Z.land_ones, Z.shiftr_div_pow2 by lia.
  change (2 ^ 32) with 4294967296. change (2 ^ 6) with 64. change (2 ^ 3) with 8.
  rewrite Nat2Z.inj_mod. change (Z.of_nat 64) with 64. Z.div_mod_to_equations. lia.
Qed.

(** ** The blocks of an update *)

Lemma transform_blocks_spec m d n i fuel :
  Z.of_nat (length m) + i = 64 * Z.of_nat n -> 0 <= i <= zlen d -> zlen d <= 2 ^ 32 - 64 ->
  zlen d - i < 64 * Z.of_nat fuel ->
  transform_blocks fuel (vars_of (hash_blocks n sha_init (m ++ d))) d i (zlen d)
  = Some (vars_of (hash_blocks (length (m ++ d) / 64) sha_init (m ++ d)),
          64 * Z.of_nat (length (m ++ d) / 64) - Z.of_nat (length m)).
Proof.
  revert n i. induction fuel as [|fuel IH]; intros n i Hn Hi Hd Hf; [lia|].
  cbn [transform_blocks]. rewrite u32_small by lia. destruct (Z.ltb_spec (i + 63) (zlen d)).
  - rewrite zread_take by lia. cbn [mbind option_bind]. rewrite u32_small by lia.
    assert (take (Z.to_nat 64) (drop (Z.to_nat i) d) = take 64 (drop (64 * n) (m ++ d))) as ->.
    { rewrite drop_app_ge by lia. do 2 f_equal. lia. }
    rewrite transform_compress, <- hash_blocks_S
      by (rewrite length_take, length_drop, length_app; unfold zlen in *; lia).
    apply IH; lia.
  - assert (length (m ++ d) / 64 = n)%nat as ->; [|do 2 f_equal; lia].
    apply blocks_unique. rewrite length_app. unfold zlen in *. lia.
Qed.

Lemma absorb_spec m d c : hashed m c -> zlen d <= 2 ^ 32 - 64 ->
  exists b i j,
    absorb c d (zlen d) (Z.of_nat (length m mod 64))
    = Some (vars_of (hash_blocks (length (m ++ d) / 64) sha_init (m ++ d)), b, i, j) /\
    length b = 64%nat /\ 0 <= i <= zlen d /\ 0 <= j /\ j + (zlen d - i) = Z.of_nat (length (m ++ d) mod 64) /\
    take (Z.to_nat j) b ++ drop (Z.to_nat i) d = drop (64 * (length (m ++ d) / 64)) (m ++ d).
Proof.
  intros (Hs & Hl & Ht & _) Hd. unfold absorb.
  pose proof (Nat.mod_upper_bound (length m) 64 ltac:(lia)) as Hj.
  pose proof (Nat.div_mod_eq (length m) 64) as Hm. pose proof (zlen_nonneg d).
  pose proof (Nat.div_mod_eq (length (m ++ d)) 64) as HM.
  pose proof (Nat.mod_upper_bound (length (m ++ d)) 64 ltac:(lia)) as HM'.
  set (j := (length m mod 64)%nat) in *. set (n := (length m / 64)%nat) in *.
  assert (Z.of_nat (length (m ++ d)) = Z.of_nat (length m) + zlen d) as HL by (rewrite length_app; unfold zlen; lia).
  rewrite (u32_small (Z.of_nat j + zlen d)) by lia.
  destruct (Z.ltb_spec 63 (Z.of_nat j + zlen d)) as [Hbig|Hsmall].
  - rewrite zread_take by lia. cbn [mbind option_bind]. change (Z.to_nat 0) with 0%nat. rewrite drop_0.
    set (b := take (Z.to_nat (64 - Z.of_nat j)) d).
    assert (length b = 64 - j)%nat as Hb by (unfold b; rewrite length_take; unfold zlen in *; lia).
    destruct (zwrite_take (buffer c) b (Z.of_nat j)) as (b1 & -> & Hl1 & Ht1); [lia|unfold zlen; lia|].
    cbn [mbind option_bind].
    assert (b1 = take 64 (drop (64 * n) (m ++ d))) as Eb.
    { rewrite Nat2Z.id, Ht in Ht1. rewrite drop_app_le, take_app_ge by (rewrite ?length_drop; lia).
      rewrite length_drop, <- (take_ge b1 (j + length b)), Ht1 by lia. unfold b. do 2 f_equal. lia. }
    rewrite Hs, transform_compress, Eb by lia.
    rewrite <- (hash_blocks_prefix n sha_init m d), <- hash_blocks_S by lia.
    rewrite (transform_blocks_spec m d (S n)) by lia. cbn [mbind option_bind fst snd].
    assert (S n <= length (m ++ d) / 64)%nat by lia.
    do 3 eexists. split; [reflexivity|]. rewrite <- Eb. split; [lia|]. split; [lia|]. split; [lia|]. split; [lia|].
    change (take (Z.to_nat 0) b1) with (@nil byte). cbn [app]. rewrite drop_app_ge by lia. f_equal. lia.
  - assert (length (m ++ d) / 64 = n)%nat as EN by (apply blocks_unique; lia).
    do 3 eexists. rewrite EN in *. rewrite hash_blocks_prefix, Hs by lia. split; [reflexivity|].
    split; [done|]. split; [lia|]. split; [lia|]. split; [lia|].
    change (Z.to_nat 0) with 0%nat. rewrite drop_0, Nat2Z.id, Ht, drop_app_le by lia. done.
Qed.

(** The data of one update appended to what is there. *)
Lemma sha1_update_spec m d c : hashed m c -> zlen d <= 2 ^ 32 - 64 ->
  exists c', SHA1Update c d (zlen d) = Some c' /\ hashed (m ++ d) c'.
Proof.
  intros Hc Hd. unfold SHA1Update.
  destruct (count_carry m d c Hc) as [E0 E1]; [lia|]. rewrite (count_offset m c Hc).
  destruct (absorb_spec m d c Hc Hd) as (b & i & j & -> & Hb & Hi & Hj & Hji & Et). cbn [mbind option_bind].
  rewrite (u32_small (zlen d - i)), zread_take by lia. cbn [mbind option_bind].
  replace (take (Z.to_nat (zlen d - i)) (drop (Z.to_nat i) d)) with (drop (Z.to_nat i) d)
    by (symmetry; apply take_ge; rewrite length_drop; unfold zlen; lia).
  pose proof (Nat.mod_upper_bound (length (m ++ d)) 64 ltac:(lia)).
  assert (zlen (drop (Z.to_nat i) d) = zlen d - i) as Hz by (unfold zlen in *; rewrite length_drop; lia).
  destruct (zwrite_take b (drop (Z.to_nat i) d) j) as (b2 & -> & Hl2 & Ht2); [lia|unfold zlen in *; lia|].
  eexists. split; [reflexivity|]. split; [done|]. cbn [buffer count0 count1].
  split; [lia|]. split; [|done]. rewrite <- Et, <- Ht2. f_equal. unfold zlen in *. lia.
Qed.

End update.
