(* ===== verification/Sha1Theorems.v ===== *)
(** * The digest

    The padding and the digest of [SHA1Final], and the theorem: whatever the
    pieces of a message, the digest is the standard's. *)

From Stdlib Require Import Strings.Byte String.
From stdpp Require Import list.
From S2P Require Import Prelude Sha1 Sha1Facts.

(** ** Bytes of words *)

Lemma Zb_mod z z' : z mod 256 = z' mod 256 -> Zb z = Zb z'.
Proof. intros E. apply bZ_inj. by rewrite !bZ_Zb_mod. Qed.

Lemma byte_of_word x s : 0 <= s -> Zb (Z.land (Z.shiftr x s) 255) = Zb (x / 2 ^ s).
Proof.
  intros. apply Zb_mod. change 255 with (Z.ones 8). rewrite Z.land_ones, Z.shiftr_div_pow2 by lia.
  apply Zmod_mod.
Qed.

Lemma byte_of_mod x s : 0 <= s <= 24 -> Zb (Z.land (Z.shiftr (x mod 2 ^ 32) s) 255) = Zb (x / 2 ^ s).
Proof.
  intros. rewrite byte_of_word by lia. apply Zb_mod. change 256 with (2 ^ 8).
  apply Z.bits_inj'. intros n Hn. destruct (Z.ltb_spec n 8).
  - rewrite !Z.mod_pow2_bits_low, !Z.div_pow2_bits, Z.mod_pow2_bits_low by lia. done.
  - by rewrite !Z.mod_pow2_bits_high by lia.
Qed.

Lemma count_bytes b :
  byte_at (fun i => if Nat.eqb i 0 then (b / 2 ^ 32) mod 2 ^ 32 else b mod 2 ^ 32) <$> seq 0 8 = be_bytes 8 b.
Proof.
  unfold be_bytes, byte_at.
  change (seq 0 8) with [0%nat; 1%nat; 2%nat; 3%nat; 4%nat; 5%nat; 6%nat; 7%nat].
  cbn [fmap list_fmap]. simpl Nat.div. cbn [Nat.eqb].
  repeat (apply f_equal2;
    [rewrite byte_of_mod by (vm_compute; split; congruence); rewrite ?Z.div_div by (by vm_compute); reflexivity|]).
  done.
Qed.

Lemma digest_bytes h :
  byte_at (fun i => vars_of h !!! i) <$> seq 0 20
  = let '(a, b, c, d, e) := h in be_bytes 4 a ++ be_bytes 4 b ++ be_bytes 4 c ++ be_bytes 4 d ++ be_bytes 4 e.
Proof.
  destruct h as [[[[a b] c] d] e]. unfold be_bytes, byte_at. cbn [seq fmap list_fmap app].
  repeat (apply f_equal2; [rewrite byte_of_word by (vm_compute; congruence); reflexivity|]). done.
Qed.

Section final.
Context {bo : ByteOrder}.

(** ** Padding *)

Lemma pad_test m c : hashed m c ->
  (Z.land (count0 c) 504 =? 448) = (zlen m mod 64 =? 56).
Proof.
  intros (_ & _ & _ & -> & _). unfold bits. pose proof (zlen_nonneg m).
  assert (8 * zlen m mod 2 ^ 32 = Z.shiftl (zlen m mod 2 ^ 29) 3) as ->.
  { rewrite Z.shiftl_mul_pow2 by lia. change (2 ^ 32) with (8 * 2 ^ 29).
    rewrite Z.mul_mod_distr_l by done. change (2 ^ 3) with 8. lia. }
  change 504 with (Z.shiftl (Z.ones 6) 3). rewrite <- Z.shiftl_land, Z.land_ones by lia.
  rewrite Z.shiftl_mul_pow2 by lia. change (2 ^ 6) with 64. change (2 ^ 3) with 8. change (2 ^ 29) with 536870912.
  destruct (Z.eqb_spec (zlen m mod 64) 56), (Z.eqb_spec ((zlen m mod 536870912) mod 64 * 8) 448);
    Z.div_mod_to_equations; lia.
Qed.

Lemma pad_zeros_spec k m c fuel : hashed m c -> (56 - zlen m) mod 64 = Z.of_nat k -> (k < fuel)%nat ->
  exists c', pad_zeros fuel c = Some c' /\ hashed (m ++ replicate k Byte.x00) c'.
Proof.
  revert m c fuel. induction k as [|k IH]; intros m c [|fuel] Hc Hk Hf; try lia; cbn [pad_zeros];
    rewrite (pad_test m c Hc).
  - rewrite (proj2 (Z.eqb_eq _ _)) by (Z.div_mod_to_equations; lia). rewrite app_nil_r. eauto.
  - rewrite (proj2 (Z.eqb_neq _ _)) by (Z.div_mod_to_equations; lia).
    destruct (sha1_update_spec m [Byte.x00] c Hc) as (c' & E & Hc'); [done|].
    change (zlen [Byte.x00]) with 1 in E. rewrite E. cbn [mbind option_bind].
    destruct (IH (m ++ [Byte.x00]) c' fuel Hc') as (c'' & -> & Hc''); [|lia|].
    + rewrite zlen_app. change (zlen [Byte.x00]) with 1. Z.div_mod_to_equations; lia.
    + exists c''. split; [done|]. by rewrite <- app_assoc in Hc''.
Qed.

Lemma be_bytes_length n x : length (be_bytes n x) = n.
Proof. unfold be_bytes. by rewrite length_fmap, length_seq. Qed.

Lemma final_spec m c : hashed m c -> SHA1Final c = Some (sha1 m).
Proof.
  intros Hc. unfold SHA1Final.
  assert (byte_at (fun i => if Nat.eqb i 0 then count1 c else count0 c) <$> seq 0 8 = be_bytes 8 (bits m)) as ->.
  { destruct Hc as (_ & _ & _ & -> & ->). apply count_bytes. }
  destruct (sha1_update_spec m [Byte.x80] c Hc) as (c1 & E1 & Hc1); [done|].
  change (zlen [Byte.x80]) with 1 in E1. rewrite E1. cbn [mbind option_bind].
  pose proof (Z.mod_pos_bound (55 - zlen m) 64 ltac:(lia)).
  destruct (pad_zeros_spec (Z.to_nat ((55 - zlen m) mod 64)) (m ++ [Byte.x80]) c1 65 Hc1)
    as (c2 & -> & Hc2); [rewrite zlen_app; change (zlen [Byte.x80]) with 1; rewrite Z2Nat.id by lia; f_equal; lia|lia|].
  cbn [mbind option_bind].
  destruct (sha1_update_spec _ (be_bytes 8 (bits m)) c2 Hc2) as (c3 & E3 & Hc3); [unfold zlen; by rewrite be_bytes_length|].
  replace (zlen (be_bytes 8 (bits m))) with 8 in E3 by (unfold zlen; by rewrite be_bytes_length).
  rewrite E3. cbn [mbind option_bind]. destruct Hc3 as (-> & _).
  rewrite digest_bytes. unfold sha1, bits. by rewrite <- !app_assoc.
Qed.

(** Updates with the pieces of a message, one after the other. *)
Definition update_all (c : SHA1_CTX) (pieces : list bytes) : option SHA1_CTX :=
  foldl (fun c d => c ← c; SHA1Update c d (zlen d)) (Some c) pieces.

Lemma update_all_spec m c pieces : hashed m c -> Forall (fun d => zlen d <= 2 ^ 32 - 64) pieces ->
  exists c', update_all c pieces = Some c' /\ hashed (m ++ concat pieces) c'.
Proof.
  unfold update_all. revert m c. induction pieces as [|d pieces IH]; intros m c Hc Hp.
  { exists c. by rewrite app_nil_r. }
  apply Forall_cons in Hp as [Hd Hp]. destruct (sha1_update_spec m d c Hc Hd) as (c' & E & Hc').
  cbn [foldl]. cbn [mbind option_bind]. rewrite E.
  destruct (IH (m ++ d) c' Hc' Hp) as (c'' & -> & Hc''). exists c''. split; [done|].
  by rewrite <- app_assoc in Hc''.
Qed.

End final.

(** ** The theorem *)



(** The name of a script: the digits of its digest. *)
Lemma strsha1_spec (bo : ByteOrder) (junk str : bytes) :
  length junk = 64%nat -> zlen str <= 2 ^ 32 - 64 ->
  strsha1 junk str
  = Some (flat_map (fun x => [hex_digit (bZ x / 16); hex_digit (bZ x mod 16)]) (sha1 str)).
Proof.
  intros Hj Hs. unfold strsha1. pose proof (zlen_nonneg str). rewrite u32_small by lia.
  destruct (sha1_update_spec [] str (SHA1Init junk)) as (c & -> & Hc); [by apply init_hashed|done|].
  cbn [mbind option_bind]. rewrite (final_spec str c Hc). cbn [mbind option_bind]. f_equal.
  apply flat_map_ext. intros x. pose proof (bZ_range x).
  change 0x0f with (Z.ones 4). rewrite !Z.land_ones, Z.shiftr_div_pow2 by lia.
  change (2 ^ 4) with 16. rewrite (Z.mod_small (bZ x / 16)) by (Z.div_mod_to_equations; lia). done.
Qed.

(** The standard's first example. *)
Example sha1_abc : strsha1 (bo := true) (replicate 64 NUL) (bs "abc") = Some (bs "a9993e364706816aba3e25717850c26c9cd0d89d").
Proof. by vm_compute. Qed.
