(* ===== verification/Decoders.v ===== *)
(** * Decoding replies (r3c/r3c.cpp)

    [get_value], [get_values] and [get_entry]: from a reply object, whose
    elements are read through their addresses by [rd], to the values of C++.
    [None] is an access that is not defined: a [NULL] pointer or an index out
    of range.  A [std::map] is a finite map, a [std::set] a finite set. *)

From Stdlib Require Import Strings.Byte String.
From stdpp Require Import gmap.
From S2P Require Import Prelude CLib Read Reply StdString ClusterText Driver.

(** ** Streams *)

Record FVPair := FV { field : bytes; value : bytes }.
Record StreamEntry := Entry { e_id : bytes; e_fvpairs : list FVPair }.
Record Stream := MkStream { st_key : bytes; st_entries : list StreamEntry }.
Record ConsumerPending := MkConsumerPending { cp_name : bytes; cp_count : Z }.
Record GroupPending := MkGroupPending {
  gp_count : Z; gp_start : bytes; gp_end : bytes; gp_consumers : list ConsumerPending
}.
Record DetailedPending := MkDetailedPending {
  dp_id : bytes; dp_consumer : bytes; dp_elapsed : Z; dp_delivered : Z
}.
Record ConsumerInfo := MkConsumerInfo { ci_name : bytes; ci_pendings : Z; ci_idletime : Z }.
Record GroupInfo := MkGroupInfo {
  gi_name : bytes; gi_last_delivered_id : bytes; gi_consumers : Z; gi_pendings : Z
}.
Record StreamInfo := MkStreamInfo {
  si_entries : Z; si_radix_tree_keys : Z; si_radix_tree_nodes : Z; si_groups : Z;
  si_last_generated_id : bytes; si_first_entry : StreamEntry; si_last_entry : StreamEntry
}.

Definition extract_ids (entries : list StreamEntry) (ids : list bytes) : Z * list bytes :=
  let num_ids := s32 (zlen entries) in
  (num_ids, if 0 <? num_ids then e_id <$> entries else ids).

(** [atoll]: 64 bits on every system. *)
Definition atoll (s : bytes) : Z := @strtol (64 : DataModel) s.

Section decode.
Context {fl : FloatLib} {bld : Build}.
Variable rd : nat -> option redisReply.
Implicit Types r : redisReply.

(** ** Parts of a reply *)

(** The bytes of [str, str + len), as for [std::string] and [assign]; with
    [len] 0 the pointer may be [NULL]. *)
Definition text r : option bytes :=
  if rp_len r =? 0 then Some [] else s ← rp_str r; zread s 0 (rp_len r).

(** [str] as a C string. *)
Definition ctext r : option bytes := s ← rp_str r; Some (cstr s).

(** [element[i]], dereferenced. *)
Definition element_at r (i : Z) : option redisReply :=
  v ← rp_element r; p ← zget v i; a ← p; rd a.

(** [f] on the elements from [i] on, [step] apart, as long as [i] is less than
    the number of elements. *)
Fixpoint over_elements {A} (fuel : nat) (i step : Z) (n : Z) (f : Z -> option A) : option (list A) :=
  match fuel with
  | O => None
  | S fuel =>
      if i <? n then x ← f i; l ← over_elements fuel (i + step) step n f; Some (x :: l) else Some []
  end.
Definition elements_of {A} (step : Z) r (f : Z -> option A) : option (list A) :=
  over_elements (S (Z.to_nat (rp_elements r))) 0 step (rp_elements r) f.

(** The same with the number of elements as an [int]; a vector of negative size
    throws before anything is read, and is left out. *)
Definition elements_int {A} r (f : Z -> option A) : option (list A) :=
  let n := s32 (rp_elements r) in
  if n <? 0 then None else over_elements (S (Z.to_nat n)) 0 1 n f.

Definition is_nil r : bool := rp_type r =? REDIS_REPLY_NIL.

(** ** Values *)

(** The result and [*value]. *)
Definition get_value r : option (bool * bytes) :=
  if is_nil r then Some (false, []) else
  if 0 <? rp_len r then v ← text r; Some (true, v) else Some (true, []).

(** The vector has a string for every element, empty for nil. *)
Definition get_values r : option (Z * list bytes) :=
  l ← elements_of 1 r (fun i => v ← element_at r i; if is_nil v then Some [] else text v);
  Some (s32 (rp_elements r), l).

Definition get_values_set r : option (Z * gset bytes) :=
  l ← elements_of 1 r (fun i =>
        v ← element_at r i; if is_nil v then Some None else t ← text v; Some (Some t));
  Some (s32 (rp_elements r), list_to_set (omap id l)).

(** With scores, the vector has half as many entries as there are elements; the
    last of an odd number would be written beyond it. *)
Definition get_values_scores r (withscores : bool) : option (Z * list (bytes * Z)) :=
  l ← (if withscores then
         if rp_elements r mod 2 =? 1 then None else
         elements_of 2 r (fun i =>
           k ← element_at r i; v ← element_at r (i + 1);
           k ← text k; v ← text v; Some (k, atoll (cstr v)))
       else elements_of 1 r (fun i => v ← element_at r i; t ← text v; Some (t, 0)));
  Some (s32 (zlen l), l).

(** Later entries of the same field replace earlier ones. *)
Definition get_values_map r : option (Z * gmap bytes bytes) :=
  l ← elements_of 2 r (fun i =>
        f ← element_at r i; v ← element_at r (i + 1);
        f ← text f; v ← text v; Some (f, v));
  Some (s32 (rp_elements r / 2), foldl (fun m x => <[x.1 := x.2]> m) ∅ l).

Definition get_values_fields r (fields : list bytes) (keep_null : bool) : option (Z * gmap bytes bytes) :=
  l ← elements_of 1 r (fun i =>
        v ← element_at r i;
        if negb (is_nil v) then f ← zget fields i; t ← text v; Some (Some (f, t))
        else if keep_null then f ← zget fields i; Some (Some (f, []))
        else Some None);
  let m := foldl (fun m x => <[x.1 := x.2]> m) ∅ (omap id l) in
  Some (s32 (Z.of_nat (size m)), m).

(** [values] is not [NULL]; without elements it is left as it is. *)
Definition get_values_ints r (values : list Z) : option (Z * list Z) :=
  l ← elements_of 1 r (fun i => v ← element_at r i; Some (rp_integer v));
  Some (s32 (rp_elements r), if 0 <? rp_elements r then l else values).

(** ** Streams *)

(** Pairs of elements; the last of an odd number would be beyond the vector. *)
Definition fvpairs_of r : option (list FVPair) :=
  if rp_elements r mod 2 =? 1 then None else
  elements_of 2 r (fun k =>
    f ← element_at r k; v ← element_at r (k + 1);
    f ← text f; v ← text v; Some (FV f v)).

(** The identifier in element 0 and the pairs in element 1. *)
Definition get_entry r : option StreamEntry :=
  id ← element_at r 0; fvpairs ← element_at r 1;
  id ← text id; fvpairs ← fvpairs_of fvpairs;
  Some (Entry id fvpairs).

Definition entries_of r : option (list StreamEntry) :=
  elements_of 1 r (fun j => e ← element_at r j; get_entry e).

(** The assertion on the type. *)
Definition nil_or_array r : option unit :=
  if is_nil r || (rp_type r =? REDIS_REPLY_ARRAY) || ndebug then Some tt else None.

Definition get_values_entries r (values : list StreamEntry) : option (Z * list StreamEntry) :=
  _ ← nil_or_array r;
  if is_nil r then Some (0, values) else
  l ← entries_of r; Some (s32 (rp_elements r), l).

Definition get_values_streams r (values : list Stream) : option (Z * list Stream) :=
  _ ← nil_or_array r;
  if is_nil r then Some (0, values) else
  l ← elements_of 1 r (fun i =>
        key ← element_at r i;
        name ← element_at key 0; entries ← element_at key 1;
        name ← text name; entries ← entries_of entries;
        Some (MkStream name entries));
  Some (s32 (rp_elements r), l).

Definition get_values_pendings r : option (Z * list DetailedPending) :=
  l ← elements_int r (fun i =>
        e ← element_at r i;
        id ← element_at e 0; consumer ← element_at e 1;
        elapsed ← element_at e 2; delivered ← element_at e 3;
        id ← text id; consumer ← text consumer;
        Some (MkDetailedPending id consumer (rp_integer elapsed) (rp_integer delivered)));
  Some (s32 (rp_elements r), l).

(** The number of consumers is taken from the reply, not from its element 3. *)
Definition get_values_group r (groups : GroupPending) : option (Z * GroupPending) :=
  count ← element_at r 0; start ← element_at r 1; end_ ← element_at r 2; consumers ← element_at r 3;
  start ← text start; end_ ← text end_;
  l ← elements_int r (fun i =>
        c ← element_at consumers i;
        name ← element_at c 0; number ← element_at c 1;
        name ← text name; num_str ← text number;
        n ← string2int_i32 num_str (-1);
        Some (MkConsumerPending name n.2));
  let count := s32 (rp_integer count) in
  Some (count, MkGroupPending count start end_ l).

(** Every entry is made of the first three elements of the reply. *)
Definition get_values_consumers r (infos : list ConsumerInfo) : option (Z * list ConsumerInfo) :=
  let n := s32 (rp_elements r) in
  if 0 <? n then
    l ← elements_int r (fun _ =>
          name ← element_at r 0; pendings ← element_at r 1; idletime ← element_at r 2;
          name ← text name;
          Some (MkConsumerInfo name (s32 (rp_integer pendings)) (rp_integer idletime)));
    Some (n, l)
  else Some (n, infos).

(** The name and the number of consumers are assigned twice. *)
Definition get_values_groups r (infos : list GroupInfo) : option (Z * list GroupInfo) :=
  let n := s32 (rp_elements r) in
  if 0 <? n then
    let infos := take (Z.to_nat n) infos ++
                 replicate (Z.to_nat (n - zlen infos)) (MkGroupInfo [] [] 0 0) in
    l ← elements_int r (fun i =>
          info ← element_at r i;
          old ← zget infos i;
          if rp_elements info =? 8 then
            name ← element_at info 1; consumers ← element_at info 3;
            pendings ← element_at info 5; last ← element_at info 7;
            name ← text name; last ← text last;
            Some (MkGroupInfo last (gi_last_delivered_id old) (s32 (rp_integer pendings)) (gi_pendings old))
          else Some old);
    Some (n, l)
  else Some (n, infos).

Definition get_value_info r (info : StreamInfo) : option StreamInfo :=
  entries ← element_at r 1; keys ← element_at r 3; nodes ← element_at r 5; groups ← element_at r 7;
  last ← element_at r 9;
  last ← text last;
  fe ← (if 14 <=? rp_elements r then
          first_entry ← element_at r 11; last_entry ← element_at r 13;
          first_entry ← get_entry first_entry; last_entry ← get_entry last_entry;
          Some (first_entry, last_entry)
        else Some (si_first_entry info, si_last_entry info));
  Some (MkStreamInfo (s32 (rp_integer entries)) (s32 (rp_integer keys)) (s32 (rp_integer nodes))
          (s32 (rp_integer groups)) last fe.1 fe.2).

End decode.
