(* ===== verification/Commands.v ===== *)
(** * Commands on keys, scripts and hashes (r3c/r3c.cpp)

    The methods of [CRedisClient]: each builds the arguments of a command, runs
    it and decodes the reply, which is then freed.  The fuel of the loop of
    [redis_command] is a parameter.  What a method writes through a pointer is
    an argument, the old value, and a part of the result; overloads have names
    of their own. *)

From Stdlib Require Import Strings.Byte String.
From stdpp Require Import gmap.
From S2P Require Import Prelude CLib Read Reply Network Slots StdString ClusterText ClusterNodes Driver.
From S2P Require Import RedisClient Decoders.

(** ** Arguments *)

(** The arguments of the overloads of [add_arg] and [add_args]. *)
Inductive arg :=
  | Str (s : bytes)
  | I32 (n : Z)
  | U32 (n : Z)
  | I64 (n : Z)
  | Strs (l : list bytes)
  | Pairs (l : list (bytes * bytes))        (* pairs, or a map *)
  | Scores (l : list (bytes * Z)) (reverse : bool)
  | FVPairs (l : list FVPair).

Definition put_arg (x : arg) (a : CommandArgs) : option CommandArgs :=
  match x with
  | Str s => Some (add_arg s a)
  | I32 n => add_arg_i32 n a
  | U32 n => add_arg_u32 n a
  | I64 n => add_arg_i64 n a
  | Strs l => Some (add_args l a)
  | Pairs l => Some (add_args_pairs l a)
  | Scores l reverse => add_args_scores l reverse a
  | FVPairs l => Some (add_args_pairs ((fun x => (field x, value x)) <$> l) a)
  end.

Fixpoint put_args (l : list arg) (a : CommandArgs) : option CommandArgs :=
  match l with
  | [] => Some a
  | x :: l => a ← put_arg x a; put_args l a
  end.

(** [set_key], [set_command], the command itself and its arguments. *)
Definition unfinished (key : option bytes) (command : bytes) (l : list arg) : option CommandArgs :=
  let a := match key with Some k => set_key k new_args | None => new_args end in
  put_args (Str command :: l) (set_command command a).
Definition build (key : option bytes) (command : bytes) (l : list arg) : option CommandArgs :=
  final <$> unfinished key command l.

(** [MATCH] and [COUNT] of the scanning commands. *)
Definition scan_options (pattern : bytes) (count : Z) : list arg :=
  (if bool_decide (pattern <> []) then [Str (bs "MATCH"); Str pattern] else []) ++
  (if 0 <? count then [Str (bs "COUNT"); I32 count] else []).

(** ** Results *)

Section results.
Context {fl : FloatLib} {bld : Build}.

(** A decoder reads objects by address and starts from one. *)
Definition decoder (A : Type) : Type := (nat -> option redisReply) -> redisReply -> option A.

Definition reply_bool : decoder bool := fun _ r =>
  Some (if rp_type r =? REDIS_REPLY_INTEGER then rp_integer r =? 1 else true).
Definition reply_int : decoder Z := fun _ r =>
  Some (if rp_type r =? REDIS_REPLY_INTEGER then s32 (rp_integer r) else 0).
Definition reply_int64 : decoder Z := fun _ r =>
  Some (if rp_type r =? REDIS_REPLY_INTEGER then rp_integer r else 0).
Definition or_nil {A} (x : A) (d : decoder A) : decoder A := fun rd r =>
  if is_nil r then Some x else d rd r.
Definition reply_value (value : bytes) : decoder (bool * bytes) := or_nil (false, value) (fun _ r =>
  if rp_type r =? REDIS_REPLY_STRING then get_value r else Some (true, value)).
Definition on_array {A} (x : A) (d : decoder A) : decoder A := fun rd r =>
  if rp_type r =? REDIS_REPLY_ARRAY then d rd r else Some x.
Definition reply_values (values : list bytes) : decoder (Z * list bytes) := on_array (0, values) get_values.
Definition reply_score : decoder Z := fun _ r =>
  if rp_type r =? REDIS_REPLY_STRING then s ← ctext r; Some (atoll s) else Some 0.

(** The cursor in element 0 and the values in element 1. *)
Definition reply_scan {A} (values : A) (d : decoder (Z * A)) : decoder (Z * A) :=
  on_array (0, values) (fun rd r =>
    e ← element_at rd r 1; v ← d rd e;
    c ← element_at rd r 0; c ← ctext c; Some (atoll c, v.2)).

End results.

Section commands.
Context {dm : DataModel} {fl : FloatLib} {W : Type} {drv : Driver W} {um : UnorderedMap} {bld : Build}.
Variable fuel : nat.

#[local] Abbreviation C := (CM W).

(** ** Running a command *)

(** A command whose reply the caller frees. *)
Definition command (readonly : bool) (num_retries : Z) (key : bytes) (a : option CommandArgs) :
    C (option nat) :=
  a ← must a; redis_command fuel readonly num_retries key a.

(** The reply is decoded, and freed at the end. *)
Definition decode {A} (d : decoder A) (reply : option nat) : C A :=
  l ← must reply;
  cell ← observe (hi_cell l);
  x ← observe (fun w => d (fun l => hi_cell l w) cell);
  _ ← free_helper reply;
  mret x.

Definition call {A} (readonly : bool) (num_retries : Z) (key : bytes) (a : option CommandArgs)
    (d : decoder A) : C A :=
  reply ← command readonly num_retries key a; decode d reply.

(** The reply is not looked at. *)
Definition call_ (readonly : bool) (num_retries : Z) (key : bytes) (a : option CommandArgs) : C unit :=
  reply ← command readonly num_retries key a; free_helper reply.

(** An exception of the method itself; [errmsg] is not modelled. *)
Definition refuse {A} (code : Z) (ty raw : bytes) : C A := throw_error (Error raw ty code).

(** ** Keys *)

Definition list_nodes (nodes_info : list NodeInfo) : C (Z * list NodeInfo) :=
  local_error
    (masters ← client c_masters;
     nodes_info ← (fix loop (l : list (Node * CRedisMasterNode)) : C (list NodeInfo) :=
       match l with
       | [] => mret nodes_info
       | (_, m) :: l =>
           match nd_context (m_self m) with
           | Some c =>
               r ← list_cluster_nodes c;
               if (r.1 : bool) then mret r.2 else loop l
           | None => loop l
           end
       end) masters;
     if bool_decide (nodes_info = []) then e ← get_error; throw_error e
     else mret (s32 (zlen nodes_info), nodes_info)).

Definition NUM_RETRIES : Z := 15.

Definition flushall : C unit := call_ true NUM_RETRIES [] (build None (bs "FLUSHALL") []).

Definition multi (key : bytes) : C unit :=
  c ← client id;
  if cluster_mode c then refuse ERROR_NOT_SUPPORT [] []
  else call_ false 0 key (build (Some key) (bs "MULTI") []).

Definition exec (key : bytes) : C (option nat) :=
  c ← client id;
  if cluster_mode c then refuse ERROR_NOT_SUPPORT [] []
  else command false 0 key (build (Some key) (bs "EXEC") []).

Definition expire (key : bytes) (seconds num_retries : Z) : C bool :=
  call false num_retries key (build (Some key) (bs "EXPIRE") [Str key; U32 seconds]) reply_bool.

Definition exists_ (key : bytes) (num_retries : Z) : C bool :=
  call true num_retries key (build (Some key) (bs "EXISTS") [Str key]) reply_bool.

Definition del (key : bytes) (num_retries : Z) : C bool :=
  call false num_retries key (build (Some key) (bs "DEL") [Str key]) reply_bool.

Definition get (key value : bytes) (num_retries : Z) : C (bool * bytes) :=
  call true num_retries key (build (Some key) (bs "GET") [Str key]) (reply_value value).

Definition set (key value : bytes) (num_retries : Z) : C unit :=
  call_ false num_retries key (build (Some key) (bs "SET") [Str key; Str value]).

Definition setnx (key value : bytes) (num_retries : Z) : C bool :=
  call false num_retries key (build (Some key) (bs "SETNX") [Str key; Str value]) reply_bool.

Definition setex (key value : bytes) (expired_seconds num_retries : Z) : C unit :=
  call_ false num_retries key (build (Some key) (bs "SETEX") [Str key; U32 expired_seconds; Str value]).

Definition setnxex (key value : bytes) (expired_seconds num_retries : Z) : C bool :=
  call false num_retries key
    (build (Some key) (bs "SET") [Str key; Str value; Str (bs "EX"); U32 expired_seconds; Str (bs "NX")])
    (fun _ r => Some (negb (is_nil r))).

(** In cluster mode one GET for every key; when one throws the vector is
    cleared, and the exception goes on. *)
Fixpoint mget_loop (keys : list bytes) (num_retries : Z) : C (list bytes) :=
  match keys with
  | [] => mret []
  | key :: keys => v ← get key [] num_retries; l ← mget_loop keys num_retries; mret (v.2 :: l)
  end.
Definition mget (keys : list bytes) (num_retries : Z) : C (Z * list bytes) :=
  c ← client id;
  if negb (cluster_mode c) then
    call true num_retries [] (build None (bs "MGET") [Strs keys]) (reply_values [])
  else l ← mget_loop keys num_retries; mret (s32 (zlen l), l).

Fixpoint mset_loop (kv_map : list (bytes * bytes)) (num_retries success : Z) : C Z :=
  match kv_map with
  | [] => mret success
  | (key, value) :: kv_map => _ ← set key value num_retries; mset_loop kv_map num_retries (success + 1)
  end.
Definition mset (kv_map : list (bytes * bytes)) (num_retries : Z) : C Z :=
  if bool_decide (kv_map = []) then refuse ERROR_PARAMETER [] [] else
  c ← client id;
  if negb (cluster_mode c) then
    _ ← call_ false num_retries [] (build None (bs "MSET") [Pairs kv_map]);
    mret (s32 (zlen kv_map))
  else mset_loop kv_map num_retries 0.

Definition incrby (key : bytes) (increment num_retries : Z) : C Z :=
  call false num_retries key (build (Some key) (bs "INCRBY") [Str key; I64 increment]) reply_int64.

Definition key_type (key : bytes) (num_retries : Z) : C (bool * bytes) :=
  call true num_retries key (build (Some key) (bs "TYPE") [Str key]) (fun _ r => get_value r).

Definition ttl (key : bytes) (num_retries : Z) : C Z :=
  call true num_retries key (build (Some key) (bs "TTL") [Str key]) reply_int64.

(** The key is empty: in cluster mode [redis_command] refuses it. *)
Definition scan (cursor : Z) (pattern : bytes) (count : Z) (values : list bytes) (num_retries : Z) :
    C (Z * list bytes) :=
  call true num_retries [] (build None (bs "SCAN") (I64 cursor :: scan_options pattern count))
    (reply_scan values get_values).
Definition scan_all (cursor : Z) := scan cursor [] 0.
Definition scan_count (cursor count : Z) := scan cursor [] count.
Definition scan_pattern (cursor : Z) (pattern : bytes) := scan cursor pattern 0.

(** ** Scripts *)

Definition eval (key lua_scripts : bytes) (num_retries : Z) : C (option nat) :=
  command false num_retries key (build (Some key) (bs "EVAL") [Str lua_scripts; I32 1; Str key]).

Definition eval_parameters (key lua_scripts : bytes) (parameters : list bytes) (num_retries : Z) :
    C (option nat) :=
  command false num_retries key
    (build (Some key) (bs "EVAL") [Str lua_scripts; I32 1; Str key; Strs parameters]).

Definition evalsha (key sha1 : bytes) (parameters : list bytes) (num_retries : Z) : C (option nat) :=
  command false num_retries key
    (build (Some key) (bs "EVALSHA") [Str sha1; I32 1; Str key; Strs parameters]).

(** Scripts on several keys, which must have the same slot in cluster mode. *)
Definition script_keys (name script : bytes) (keys parameters : list bytes) (num_retries : Z) :
    C (option nat) :=
  c ← client id;
  cross ← (if cluster_mode c then drive (keys_crossslots keys) else mret false);
  if (cross : bool) then refuse ERROR_NOT_SUPPORT [] []
  else
    let key := if cluster_mode c then default [] (head keys) else [] in
    command false num_retries key
      (build (if bool_decide (key <> []) then Some key else None) name
         [Str script; I32 (s32 (zlen keys)); Strs keys; Strs parameters]).
Definition eval_keys (lua_scripts : bytes) := script_keys (bs "EVAL") lua_scripts.
Definition evalsha_keys (sha1 : bytes) := script_keys (bs "EVALSHA") sha1.

Definition incrby_script : bytes := bs
  "local n;n=redis.call('INCRBY',KEYS[1],ARGV[1]);if (n==tonumber(ARGV[2])) then redis.call('EXPIRE',KEYS[1],ARGV[3]) end;return n;".
Definition incrby_expire (key : bytes) (increment expired_increment expired_seconds num_retries : Z) : C Z :=
  p0 ← must (int2string increment);
  p1 ← must (int2string expired_increment);
  p2 ← must (int2string_u32 expired_seconds);
  reply ← eval_parameters key incrby_script [p0; p1; p2] num_retries;
  decode reply_int64 reply.
Definition incrby_expire_first (key : bytes) (increment expired_seconds num_retries : Z) : C Z :=
  incrby_expire key increment increment expired_seconds num_retries.

(** ** Hashes *)

Definition hdel (key field : bytes) (num_retries : Z) : C bool :=
  call false num_retries key (build (Some key) (bs "HDEL") [Str key; Str field]) (or_nil false reply_bool).

Definition hmdel (key : bytes) (fields : list bytes) (num_retries : Z) : C Z :=
  call false num_retries key (build (Some key) (bs "HDEL") [Str key; Strs fields]) (or_nil 0 reply_int).
Definition hdel_fields := hmdel.

Definition hexists (key field : bytes) (num_retries : Z) : C bool :=
  call true num_retries key (build (Some key) (bs "HEXISTS") [Str key; Str field]) reply_bool.

Definition hlen (key : bytes) (num_retries : Z) : C Z :=
  call true num_retries key (build (Some key) (bs "HLEN") [Str key]) reply_int.

Definition hset (key field value : bytes) (num_retries : Z) : C bool :=
  call false num_retries key (build (Some key) (bs "HSET") [Str key; Str field; Str value]) reply_bool.

Definition hsetex_script : bytes := bs
  "local n;n=redis.call('HSET',KEYS[1],ARGV[1],ARGV[2]);if (n>0) then redis.call('EXPIRE',KEYS[1],ARGV[3]) end;return n;".
Definition hsetex (key field value : bytes) (expired_seconds num_retries : Z) : C bool :=
  p2 ← must (int2string_u32 expired_seconds);
  reply ← eval_parameters key hsetex_script [field; value; p2] num_retries;
  decode reply_bool reply.

Definition hsetnx (key field value : bytes) (num_retries : Z) : C bool :=
  call false num_retries key (build (Some key) (bs "HSETNX") [Str key; Str field; Str value]) reply_bool.

Definition hsetnxex_script : bytes := bs
  "local n=redis.call('HLEN',KEYS[1]);local m=redis.call('HSETNX',KEYS[1],ARGV[1],ARGV[2]);if(n==0) then redis.call('EXPIRE',KEYS[1],ARGV[3]) end;return m;".
Definition hsetnxex (key field value : bytes) (expired_seconds num_retries : Z) : C bool :=
  p2 ← must (int2string_u32 expired_seconds);
  reply ← eval_parameters key hsetnxex_script [field; value; p2] num_retries;
  decode reply_bool reply.

Definition hget (key field value : bytes) (num_retries : Z) : C (bool * bytes) :=
  call true num_retries key (build (Some key) (bs "HGET") [Str key; Str field]) (reply_value value).

Definition hincrby (key field : bytes) (increment num_retries : Z) : C Z :=
  call false num_retries key (build (Some key) (bs "HINCRBY") [Str key; Str field; I64 increment]) reply_int64.

Definition hmincrby_script : bytes := bs
  "local j=1;local results={};for i=1,#ARGV,2 do local f=ARGV[i];local v=ARGV[i+1];results[j]=redis.call('HINCRBY',KEYS[1],f,v);j=j+1; end;return results;".
Fixpoint increment_parameters (increments : list (bytes * Z)) : option (list bytes) :=
  match increments with
  | [] => Some []
  | (f, n) :: increments => v ← int2string n; l ← increment_parameters increments; Some (f :: v :: l)
  end.
Definition hmincrby (key : bytes) (increments : list (bytes * Z)) (newvalues : list Z) (num_retries : Z) :
    C (list Z) :=
  parameters ← must (increment_parameters increments);
  reply ← eval_parameters key hmincrby_script parameters num_retries;
  decode (on_array newvalues (fun rd r => v ← get_values_ints rd r newvalues; Some v.2)) reply.
Definition hincrby_fields := hmincrby.

Definition hmset (key : bytes) (map : list (bytes * bytes)) (num_retries : Z) : C unit :=
  call_ false num_retries key (build (Some key) (bs "HMSET") [Str key; Pairs map]).
Definition hset_map := hmset.

Definition hmget (key : bytes) (fields : list bytes) (map : gmap bytes bytes) (keep_null : bool)
    (num_retries : Z) : C (Z * gmap bytes bytes) :=
  call true num_retries key (build (Some key) (bs "HMGET") [Str key; Strs fields])
    (or_nil (0, map) (on_array (0, map) (fun rd r => get_values_fields rd r fields keep_null))).
Definition hget_fields := hmget.

Definition hgetall (key : bytes) (map : gmap bytes bytes) (num_retries : Z) : C (Z * gmap bytes bytes) :=
  call true num_retries key (build (Some key) (bs "HGETALL") [Str key])
    (or_nil (0, map) (on_array (0, map) get_values_map)).

Definition hstrlen (key field : bytes) (num_retries : Z) : C Z :=
  call true num_retries key (build (Some key) (bs "HSTRLEN") [Str key; Str field]) (or_nil 0 reply_int).

Definition hkeys (key : bytes) (fields : list bytes) (num_retries : Z) : C (Z * list bytes) :=
  call true num_retries key (build (Some key) (bs "HKEYS") [Str key])
    (or_nil (0, fields) (reply_values fields)).

Definition hvals (key : bytes) (vals : list bytes) (num_retries : Z) : C (Z * list bytes) :=
  call true num_retries key (build (Some key) (bs "HVALS") [Str key])
    (or_nil (0, vals) (reply_values vals)).

Definition hscan (key : bytes) (cursor : Z) (pattern : bytes) (count : Z) (map : gmap bytes bytes)
    (num_retries : Z) : C (Z * gmap bytes bytes) :=
  call true num_retries key
    (build (Some key) (bs "HSCAN") (Str key :: I64 cursor :: scan_options pattern count))
    (reply_scan map get_values_map).
Definition hscan_all (key : bytes) (cursor : Z) := hscan key cursor [] 0.
Definition hscan_count (key : bytes) (cursor count : Z) := hscan key cursor [] count.
Definition hscan_pattern (key : bytes) (cursor : Z) (pattern : bytes) := hscan key cursor pattern 0.

End commands.
