(* ===== verification/Collections.v ===== *)
(** * Commands on lists, sets, sorted sets and streams (r3c/r3c.cpp)

    As in [Commands.v]: the arguments, the reply decoded, and the reply freed.
    A [std::map] is the list of its entries in the order of its keys. *)

From Stdlib Require Import Strings.Byte String.
From stdpp Require Import gmap.
From S2P Require Import Prelude CLib Read Reply Network Slots StdString ClusterText ClusterNodes Driver.
From S2P Require Import RedisClient Decoders Commands.

(** ** Flags of ZADD *)

Inductive ZADDFLAG := Z_NS | Z_XX | Z_NX | Z_CH.

Definition zaddflag2str (zaddflag : ZADDFLAG) : bytes :=
  match zaddflag with Z_XX => bs "XX" | Z_NX => bs "NX" | Z_CH => bs "CH" | Z_NS => [] end.

Section collections.
Context {dm : DataModel} {fl : FloatLib} {W : Type} {drv : Driver W} {um : UnorderedMap} {bld : Build}.
Variable fuel : nat.

#[local] Abbreviation C := (CM W).
#[local] Abbreviation call := (call fuel).
#[local] Abbreviation call_ := (call_ fuel).

(** ** Lists *)

Definition llen (key : bytes) (num_retries : Z) : C Z :=
  call true num_retries key (build (Some key) (bs "LLEN") [Str key]) reply_int.

Definition lpop (key value : bytes) (num_retries : Z) : C (bool * bytes) :=
  call false num_retries key (build (Some key) (bs "LPOP") [Str key]) (reply_value value).

Definition lpush (key value : bytes) (num_retries : Z) : C Z :=
  call false num_retries key (build (Some key) (bs "LPUSH") [Str key; Str value]) reply_int.

Definition lpush_values (key : bytes) (values : list bytes) (num_retries : Z) : C Z :=
  call false num_retries key (build (Some key) (bs "LPUSH") [Str key; Strs values]) reply_int.

Definition lpushx (key value : bytes) (num_retries : Z) : C Z :=
  call false num_retries key (build (Some key) (bs "LPUSHX") [Str key; Str value]) reply_int.

Definition lrange (key : bytes) (start end_ : Z) (values : list bytes) (num_retries : Z) : C (Z * list bytes) :=
  call true num_retries key (build (Some key) (bs "LRANGE") [Str key; I64 start; I64 end_])
    (reply_values values).

Definition ltrim (key : bytes) (start end_ num_retries : Z) : C unit :=
  call_ false num_retries key (build (Some key) (bs "LTRIM") [Str key; I64 start; I64 end_]).

Definition lset (key : bytes) (index : Z) (value : bytes) (num_retries : Z) : C unit :=
  call_ false num_retries key (build (Some key) (bs "LSET") [Str key; I32 index; Str value]).

Definition linsert (key pivot value : bytes) (before : bool) (num_retries : Z) : C Z :=
  call false num_retries key
    (build (Some key) (bs "LINSERT")
       [Str key; Str (if before then bs "BEFORE" else bs "AFTER"); Str pivot; Str value])
    reply_int.

Definition lrem (key : bytes) (count : Z) (value : bytes) (num_retries : Z) : C Z :=
  call false num_retries key (build (Some key) (bs "LREM") [Str key; I32 count; Str value]) reply_int.

Definition lindex (key : bytes) (index : Z) (value : bytes) (num_retries : Z) : C (bool * bytes) :=
  call false num_retries key (build (Some key) (bs "LINDEX") [Str key; I32 index]) (reply_value value).

Definition rpop (key value : bytes) (num_retries : Z) : C (bool * bytes) :=
  call false num_retries key (build (Some key) (bs "RPOP") [Str key]) (reply_value value).

Definition rpush (key value : bytes) (num_retries : Z) : C Z :=
  call false num_retries key (build (Some key) (bs "RPUSH") [Str key; Str value]) reply_int.

Definition rpush_values (key : bytes) (values : list bytes) (num_retries : Z) : C Z :=
  call false num_retries key (build (Some key) (bs "RPUSH") [Str key; Strs values]) reply_int.

Definition rpushx (key value : bytes) (num_retries : Z) : C Z :=
  call false num_retries key (build (Some key) (bs "RPUSHX") [Str key; Str value]) reply_int.

(** ** Sets *)

Definition sadd (key value : bytes) (num_retries : Z) : C Z :=
  call false num_retries key (build (Some key) (bs "SADD") [Str key; Str value]) reply_int.

Definition sadd_values (key : bytes) (values : list bytes) (num_retries : Z) : C Z :=
  call false num_retries key (build (Some key) (bs "SADD") [Str key; Strs values]) reply_int.

Definition scard (key : bytes) (num_retries : Z) : C Z :=
  call true num_retries key (build (Some key) (bs "SCARD") [Str key]) reply_int.

Definition sismember (key value : bytes) (num_retries : Z) : C bool :=
  call true num_retries key (build (Some key) (bs "SISMEMBER") [Str key; Str value]) reply_bool.

Definition smembers (key : bytes) (values : list bytes) (num_retries : Z) : C (Z * list bytes) :=
  call true num_retries key (build (Some key) (bs "SMEMBERS") [Str key]) (reply_values values).

Definition smembers_set (key : bytes) (values : gset bytes) (num_retries : Z) : C (Z * gset bytes) :=
  call true num_retries key (build (Some key) (bs "SMEMBERS") [Str key])
    (on_array (0, values) get_values_set).

Definition spop_count (key : bytes) (count : Z) (values : list bytes) (num_retries : Z) : C (Z * list bytes) :=
  call false num_retries key (build (Some key) (bs "SPOP") [Str key; I32 count]) (reply_values values).

(** [*value = value[0]] assigns the string to itself: the member is lost. *)
Definition spop (key value : bytes) (num_retries : Z) : C (bool * bytes) :=
  r ← spop_count key 1 [] num_retries; mret (0 <? r.1, value).

Definition srandmember (key value : bytes) (num_retries : Z) : C (bool * bytes) :=
  call true num_retries key (build (Some key) (bs "SRANDMEMBER") [Str key]) (reply_value value).

Definition srandmember_count (key : bytes) (count : Z) (values : list bytes) (num_retries : Z) :
    C (Z * list bytes) :=
  call true num_retries key (build (Some key) (bs "SRANDMEMBER") [Str key; I32 count]) (reply_values values).

Definition srem (key value : bytes) (num_retries : Z) : C Z :=
  call false num_retries key (build (Some key) (bs "SREM") [Str key; Str value]) reply_int.

Definition srem_values (key : bytes) (values : list bytes) (num_retries : Z) : C Z :=
  call false num_retries key (build (Some key) (bs "SREM") [Str key; Strs values]) reply_int.

Definition sscan (key : bytes) (cursor : Z) (pattern : bytes) (count : Z) (values : list bytes)
    (num_retries : Z) : C (Z * list bytes) :=
  call true num_retries key
    (build (Some key) (bs "SSCAN") (Str key :: I64 cursor :: scan_options pattern count))
    (reply_scan values get_values).
Definition sscan_all (key : bytes) (cursor : Z) := sscan key cursor [] 0.
Definition sscan_count (key : bytes) (cursor count : Z) := sscan key cursor [] count.
Definition sscan_pattern (key : bytes) (cursor : Z) (pattern : bytes) := sscan key cursor pattern 0.

Definition sscan_set (key : bytes) (cursor : Z) (pattern : bytes) (count : Z) (values : gset bytes)
    (num_retries : Z) : C (Z * gset bytes) :=
  call true num_retries key
    (build (Some key) (bs "SSCAN") (Str key :: I64 cursor :: scan_options pattern count))
    (reply_scan values get_values_set).

(** The key is not set in the arguments, but given to [redis_command]. *)
Definition sunionstore (destinationkey : bytes) (keys : list bytes) (num_retries : Z) : C Z :=
  let allKeys := keys ++ [destinationkey] in
  if zlen keys <? 1 then refuse ERROR_NOT_SUPPORT [] [] else
  c ← client id;
  cross ← (if cluster_mode c then drive (keys_crossslots allKeys) else mret false);
  if (cross : bool) then refuse ERROR_NOT_SUPPORT [] []
  else call false num_retries destinationkey
         (build None (bs "SUNIONSTORE") [Str destinationkey; Strs keys]) reply_int.

(** ** Sorted sets *)

Definition zrem (key field : bytes) (num_retries : Z) : C Z :=
  call false num_retries key (build (Some key) (bs "ZREM") [Str key; Str field]) reply_int.

Definition zrem_fields (key : bytes) (fields : list bytes) (num_retries : Z) : C Z :=
  call false num_retries key (build (Some key) (bs "ZREM") [Str key; Strs fields]) reply_int.

(** The score before its member. *)
Definition zadd_map (key : bytes) (map : list (bytes * Z)) (flag : ZADDFLAG) (num_retries : Z) : C Z :=
  let flag_str := zaddflag2str flag in
  call false num_retries key
    (build (Some key) (bs "ZADD")
       (Str key :: (if bool_decide (flag_str <> []) then [Str flag_str] else []) ++ [Scores map true]))
    reply_int.
Definition zadd (key field : bytes) (score : Z) (flag : ZADDFLAG) (num_retries : Z) : C Z :=
  zadd_map key [(field, score)] flag num_retries.

Definition zcard (key : bytes) (num_retries : Z) : C Z :=
  call true num_retries key (build (Some key) (bs "ZCARD") [Str key]) reply_int64.

Definition zcount (key : bytes) (min max num_retries : Z) : C Z :=
  call true num_retries key (build (Some key) (bs "ZCOUNT") [Str key; I64 min; I64 max]) reply_int64.

Definition zincrby (key field : bytes) (increment num_retries : Z) : C Z :=
  call false num_retries key (build (Some key) (bs "ZINCRBY") [Str key; I64 increment; Str field]) reply_score.

(** The commands on a range, from one bound to the other, with a limit or
    without. *)
Definition range_arguments (key : bytes) (from to : Z) (withscores : bool) (limit : option (Z * Z)) : list arg :=
  [Str key; I64 from; I64 to] ++ (if withscores then [Str (bs "WITHSCORES")] else []) ++
  match limit with Some (offset, count) => [Str (bs "LIMIT"); I64 offset; I64 count] | None => [] end.
Definition reply_scores (vec : list (bytes * Z)) (withscores : bool) : decoder (Z * list (bytes * Z)) :=
  on_array (0, vec) (fun rd r => get_values_scores rd r withscores).
Definition range_command (name key : bytes) (from to : Z) (withscores : bool) (limit : option (Z * Z))
    (vec : list (bytes * Z)) (num_retries : Z) : C (Z * list (bytes * Z)) :=
  call true num_retries key (build (Some key) name (range_arguments key from to withscores limit))
    (reply_scores vec withscores).

Definition zrange (key : bytes) (start end_ : Z) (withscores : bool) :=
  range_command (bs "ZRANGE") key start end_ withscores None.
Definition zrevrange (key : bytes) (start end_ : Z) (withscores : bool) :=
  range_command (bs "ZREVRANGE") key start end_ withscores None.
Definition zrangebyscore (key : bytes) (min max : Z) (withscores : bool) :=
  range_command (bs "ZRANGEBYSCORE") key min max withscores None.
Definition zrevrangebyscore (key : bytes) (max min : Z) (withscores : bool) :=
  range_command (bs "ZREVRANGEBYSCORE") key max min withscores None.
Definition zrangebyscore_limit (key : bytes) (min max offset count : Z) (withscores : bool) :=
  range_command (bs "ZRANGEBYSCORE") key min max withscores (Some (offset, count)).
Definition zrevrangebyscore_limit (key : bytes) (max min offset count : Z) (withscores : bool) :=
  range_command (bs "ZREVRANGEBYSCORE") key max min withscores (Some (offset, count)).

Definition zremrangebyrank (key : bytes) (start end_ num_retries : Z) : C Z :=
  call false num_retries key (build (Some key) (bs "ZREMRANGEBYRANK") [Str key; I64 start; I64 end_]) reply_int.

Definition zrank (key field : bytes) (num_retries : Z) : C Z :=
  call true num_retries key (build (Some key) (bs "ZRANK") [Str key; Str field]) (or_nil (-1) reply_int).

Definition zrevrank (key field : bytes) (num_retries : Z) : C Z :=
  call true num_retries key (build (Some key) (bs "ZREVRANK") [Str key; Str field]) (or_nil (-1) reply_int).

Definition zscore (key field : bytes) (num_retries : Z) : C Z :=
  call true num_retries key (build (Some key) (bs "ZSCORE") [Str key; Str field]) (or_nil (-1) reply_score).

Definition zscan (key : bytes) (cursor : Z) (pattern : bytes) (count : Z) (values : list (bytes * Z))
    (num_retries : Z) : C (Z * list (bytes * Z)) :=
  call true num_retries key
    (build (Some key) (bs "ZSCAN") (Str key :: I64 cursor :: scan_options pattern count))
    (reply_scan values (fun rd r => get_values_scores rd r true)).
Definition zscan_all (key : bytes) (cursor : Z) := zscan key cursor [] 0.
Definition zscan_count (key : bytes) (cursor count : Z) := zscan key cursor [] count.
Definition zscan_pattern (key : bytes) (cursor : Z) (pattern : bytes) := zscan key cursor pattern 0.

End collections.

(** ** Streams and bits

    As in [Commands.v].  The pointers for the results are not [NULL]. *)

Section streams.
Context {dm : DataModel} {fl : FloatLib} {W : Type} {drv : Driver W} {um : UnorderedMap} {bld : Build}.
Variable fuel : nat.

#[local] Abbreviation C := (CM W).
#[local] Abbreviation call := (call fuel).
#[local] Abbreviation call_ := (call_ fuel).

(** ** Acknowledging, adding, consumer groups *)

(** The arguments are not made final: the command is sent with none. *)
Definition xack (key groupname : bytes) (ids : list bytes) (num_retries : Z) : C Z :=
  call false num_retries key (unfinished (Some key) (bs "XACK") [Str key; Str groupname; Strs ids]) reply_int.
Definition xack_id (key groupname id : bytes) (num_retries : Z) : C Z :=
  xack key groupname [id] num_retries.

(** Whatever the reply, its string is the result. *)
Definition reply_text : decoder bytes := fun _ r => v ← get_value r; Some v.2.

(** The character is promoted to an integer. *)
Definition xadd_maxlen (key id : bytes) (values : list FVPair) (maxlen c num_retries : Z) : C bytes :=
  call false num_retries key
    (build (Some key) (bs "XADD") [Str key; Str (bs "MAXLEN"); I32 c; I64 maxlen; Str id; FVPairs values])
    reply_text.
Definition xadd (key id : bytes) (values : list FVPair) (num_retries : Z) : C bytes :=
  call false num_retries key (build (Some key) (bs "XADD") [Str key; Str id; FVPairs values]) reply_text.

Definition xgroup_create (key groupname id : bytes) (mkstream : bool) (num_retries : Z) : C unit :=
  call_ false num_retries key
    (build (Some key) (bs "XGROUP")
       ([Str (bs "CREATE"); Str key; Str groupname; Str id] ++
        (if mkstream then [Str (bs "MKSTREAM")] else []))).

Definition xgroup_destroy (key groupname : bytes) (num_retries : Z) : C unit :=
  call_ false num_retries key (build (Some key) (bs "XGROUP") [Str (bs "DESTROY"); Str key; Str groupname]).

Definition xgroup_setid (key id : bytes) (num_retries : Z) : C unit :=
  call_ false num_retries key (build (Some key) (bs "XGROUP") [Str (bs "SETID"); Str key; Str id]).

Definition xgroup_delconsumer (key groupname consumername : bytes) (num_retries : Z) : C unit :=
  call_ false num_retries key
    (build (Some key) (bs "XGROUP") [Str (bs "DELCONSUMER"); Str key; Str groupname; Str consumername]).

(** ** Reading *)

(** The checks and the key that both commands share. *)
Definition read_streams (readonly : bool) (name : bytes) (few unbalanced : bytes) (group : list arg)
    (keys ids : list bytes) (count block_milliseconds : Z) (noack : bool)
    (values : list Stream) (num_retries : Z) : C (list Stream) :=
  if bool_decide (keys = []) then refuse ERROR_PARAMETER (bs "ERR") few
  else if negb (zlen keys =? zlen ids) then refuse ERROR_PARAMETER (bs "ERR") unbalanced
  else
    c ← client id;
    cross ← (if cluster_mode c then drive (keys_crossslots keys) else mret false);
    if (cross : bool) then
      refuse ERROR_PARAMETER (bs "CROSSSLOT") (bs "keys in request don't hash to the same slot")
    else
      let key := if cluster_mode c then default [] (head keys) else [] in
      call readonly num_retries key
        (build (if bool_decide (key <> []) then Some key else None) name
           (group ++ [Str (bs "COUNT"); I64 count] ++
            (if 0 <=? block_milliseconds then [Str (bs "BLOCK"); I64 block_milliseconds] else []) ++
            (if noack then [Str (bs "NOACK")] else []) ++
            [Str (bs "STREAMS"); Strs keys; Strs ids]))
        (fun rd r => v ← get_values_streams rd r values; Some v.2).

(** The entries of the first stream, when there is one. *)
Definition one_stream (streams : C (list Stream)) (values : list StreamEntry) : C (list StreamEntry) :=
  l ← streams; mret match l with [] => values | s :: _ => st_entries s end.

Definition xreadgroup (groupname consumername : bytes) (keys ids : list bytes)
    (count block_milliseconds : Z) (noack : bool) (values : list Stream) (num_retries : Z) : C (list Stream) :=
  read_streams false (bs "XREADGROUP")
    (bs "wrong number of arguments for 'xreadgroup' command")
    (bs "unbalanced XREADGROUP list of streams: for each stream key an ID or '$' must be specified")
    [Str (bs "GROUP"); Str groupname; Str consumername]
    keys ids count block_milliseconds noack values num_retries.
Definition xreadgroup_count (groupname consumername : bytes) (keys ids : list bytes) (count : Z) (noack : bool) :=
  xreadgroup groupname consumername keys ids count (-1) noack.
Definition xreadgroup_all (groupname consumername : bytes) (keys ids : list bytes) (noack : bool) :=
  xreadgroup groupname consumername keys ids 0 (-1) noack.
Definition xreadgroup_key (groupname consumername key : bytes) (ids : list bytes)
    (count block_milliseconds : Z) (noack : bool) (values : list StreamEntry) (num_retries : Z) :=
  one_stream (xreadgroup groupname consumername [key] ids count block_milliseconds noack [] num_retries) values.
Definition xreadgroup_new (groupname consumername key : bytes) (count block_milliseconds : Z) (noack : bool) :=
  xreadgroup_key groupname consumername key [bs "$"] count block_milliseconds noack.

Definition xread (keys ids : list bytes) (count block_milliseconds : Z)
    (values : list Stream) (num_retries : Z) : C (list Stream) :=
  read_streams true (bs "XREAD")
    (bs "wrong number of arguments for 'xread' command")
    (bs "unbalanced XREAD list of streams: for each stream key an ID or '$' must be specified")
    [] keys ids count block_milliseconds false values num_retries.
Definition xread_count (keys ids : list bytes) (count : Z) := xread keys ids count (-1).
Definition xread_all (keys ids : list bytes) := xread keys ids 0 (-1).
Definition xread_key (key : bytes) (ids : list bytes) (count block_milliseconds : Z)
    (values : list StreamEntry) (num_retries : Z) :=
  one_stream (xread [key] ids count block_milliseconds [] num_retries) values.
Definition xread_new (key : bytes) (count block_milliseconds : Z) :=
  xread_key key [bs ">"] count block_milliseconds.

(** ** Entries *)

Definition xdel (key : bytes) (ids : list bytes) (num_retries : Z) : C Z :=
  call false num_retries key (build (Some key) (bs "XDEL") [Str key; Strs ids]) reply_int.
Definition xdel_id (key id : bytes) (num_retries : Z) : C Z := xdel key [id] num_retries.

Definition xtrim_char (key : bytes) (maxlen c num_retries : Z) : C Z :=
  call false num_retries key
    (build (Some key) (bs "XTRIM") [Str key; Str (bs "MAXLEN"); I32 c; I64 maxlen]) reply_int.
Definition xtrim (key : bytes) (maxlen num_retries : Z) : C Z :=
  call false num_retries key (build (Some key) (bs "XTRIM") [Str key; Str (bs "MAXLEN"); I64 maxlen]) reply_int.

Definition xlen (key : bytes) (num_retries : Z) : C Z :=
  call true num_retries key (build (Some key) (bs "XLEN") [Str key]) reply_int.

Definition reply_entries (values : list StreamEntry) : decoder (list StreamEntry) := fun rd r =>
  v ← get_values_entries rd r values; Some v.2.

Definition xrange_count (key start end_ : bytes) (count : Z) (values : list StreamEntry) (num_retries : Z) :
    C (list StreamEntry) :=
  call true num_retries key
    (build (Some key) (bs "XRANGE")
       ([Str key; Str start; Str end_] ++ (if 0 <=? count then [Str (bs "COUNT"); I64 count] else [])))
    (reply_entries values).
Definition xrange (key start end_ : bytes) := xrange_count key start end_ (-1).

(** The command is [XRANGE] too; without a count the bounds are exchanged
    once more. *)
Definition xrevrange_count (key end_ start : bytes) (count : Z) (values : list StreamEntry) (num_retries : Z) :
    C (list StreamEntry) :=
  call true num_retries key
    (build (Some key) (bs "XRANGE")
       ([Str key; Str end_; Str start] ++ (if 0 <=? count then [Str (bs "COUNT"); I64 count] else [])))
    (reply_entries values).
Definition xrevrange (key end_ start : bytes) := xrevrange_count key start end_ (-1).

(** ** Pending entries *)

(** [errcode] of the exception is its default. *)
Definition xpending_consumer (key groupname start end_ : bytes) (count : Z) (consumer : bytes)
    (num_retries : Z) : C (Z * list DetailedPending) :=
  if bool_decide (start = []) || bool_decide (end_ = []) || bool_decide (consumer = []) then
    refuse 0 (bs "ERR") (bs "wrong number of arguments for 'xpending' command")
  else call true num_retries key
         (build (Some key) (bs "XPENDING")
            [Str key; Str groupname; Str start; Str end_; I32 count; Str consumer])
         get_values_pendings.
Definition xpending_range (key groupname start end_ : bytes) (count : Z) :=
  xpending_consumer key groupname start end_ count [].
Definition xpending (key groupname : bytes) (groups : GroupPending) (num_retries : Z) : C (Z * GroupPending) :=
  call true num_retries key (build (Some key) (bs "XPENDING") [Str key; Str groupname])
    (fun rd r => get_values_group rd r groups).

(** The retry count without its keyword. *)
Definition claim_arguments (key groupname consumer : bytes) (minidle : Z) (ids : list bytes)
    (idletime unixtime retrycount : Z) (force : bool) : list arg :=
  [Str key; Str groupname; Str consumer] ++
  (if 0 <=? minidle then [I64 minidle] else []) ++ [Strs ids] ++
  (if 0 <=? idletime then [Str (bs "IDLE"); I64 idletime] else []) ++
  (if 0 <=? unixtime then [Str (bs "TIME"); I64 unixtime] else []) ++
  (if 0 <=? retrycount then [I64 retrycount] else []) ++
  (if force then [Str (bs "FORCE")] else []).

Definition claim {A} (more : list arg) (d : decoder A) (key groupname consumer : bytes) (minidle : Z)
    (ids : list bytes) (idletime unixtime retrycount : Z) (force : bool) (num_retries : Z) : C A :=
  if bool_decide (ids = []) then
    refuse 0 (bs "ERR") (bs "wrong number of arguments for 'xclaim' command")
  else call true num_retries key
         (build (Some key) (bs "XCLAIM")
            (claim_arguments key groupname consumer minidle ids idletime unixtime retrycount force ++ more)) d.

Definition xclaim_options (key groupname consumer : bytes) (minidle : Z) (ids : list bytes)
    (idletime unixtime retrycount : Z) (force : bool) (values : list StreamEntry) (num_retries : Z) :=
  claim [] (reply_entries values) key groupname consumer minidle ids idletime unixtime retrycount force num_retries.
Definition xclaim (key groupname consumer : bytes) (minidle : Z) (ids : list bytes) :=
  xclaim_options key groupname consumer minidle ids (-1) (-1) (-1) false.
Definition xclaim_ids_options (key groupname consumer : bytes) (minidle : Z) (ids : list bytes)
    (idletime unixtime retrycount : Z) (force : bool) (num_retries : Z) :=
  claim [Str (bs "JUSTID")] (fun rd r => v ← get_values rd r; Some v.2)
    key groupname consumer minidle ids idletime unixtime retrycount force num_retries.
Definition xclaim_ids (key groupname consumer : bytes) (minidle : Z) (ids : list bytes) :=
  xclaim_ids_options key groupname consumer minidle ids (-1) (-1) (-1) false.

(** ** Information *)

Definition xinfo_consumers (key groupname : bytes) (infos : list ConsumerInfo) (num_retries : Z) :
    C (Z * list ConsumerInfo) :=
  call true num_retries key (build (Some key) (bs "XINFO") [Str (bs "CONSUMERS"); Str key; Str groupname])
    (fun rd r => get_values_consumers rd r infos).

Definition xinfo_groups (key : bytes) (infos : list GroupInfo) (num_retries : Z) : C (Z * list GroupInfo) :=
  call true num_retries key (build (Some key) (bs "XINFO") [Str (bs "GROUPS"); Str key])
    (fun rd r => get_values_groups rd r infos).

Definition xinfo_stream (key : bytes) (info : StreamInfo) (num_retries : Z) : C StreamInfo :=
  call true num_retries key (build (Some key) (bs "XINFO") [Str (bs "STREAM"); Str key])
    (fun rd r => get_value_info rd r info).

(** ** Bits *)

Definition setbit (key : bytes) (offset value num_retries : Z) : C unit :=
  call_ false num_retries key (build (Some key) (bs "SETBIT") [Str key; U32 offset; U32 value]).

Definition getbit (key : bytes) (offset num_retries : Z) : C Z :=
  call true num_retries key (build (Some key) (bs "GETBIT") [Str key; U32 offset]) reply_int.

Definition bitcount (key : bytes) (start end_ num_retries : Z) : C Z :=
  call true num_retries key (build (Some key) (bs "BITCOUNT") [Str key; I32 start; I32 end_]) reply_int.

Definition bitpos (key : bytes) (bit start end_ num_retries : Z) : C Z :=
  call true num_retries key (build (Some key) (bs "BITPOS") [Str key; I32 bit; I32 start; I32 end_]) reply_int.

End streams.
