(* ===== verification/Scripts.v ===== *)
(** * Increments applied once, and the life of a client (r3c/r3c.cpp)

    [hincrby] and [hmincrby] with a unique identifier: a script run by its
    digest when the client has it, and by its text otherwise; when the server
    has lost the script the client forgets the digest and tries once more.
    Then the constructors and the destructor. *)

From Stdlib Require Import Strings.Byte String.
From stdpp Require Import gmap.
From S2P Require Import Prelude CLib Read Reply Network Slots StdString ClusterText ClusterNodes Driver.
From S2P Require Import RedisClient Decoders Commands Sha1.

(** [try m catch (CRedisException& ex) h]. *)
Definition catch {W A} (m : CM W A) (h : CRedisException -> CM W A) : CM W A := fun s =>
  match m s with
  | Some (Throw x, s) => h x s
  | r => r
  end.

Section scripts.
Context {dm : DataModel} {fl : FloatLib} {W : Type} {drv : Driver W} {um : UnorderedMap} {bld : Build} {bo : ByteOrder}.
Variable fuel : nat.

(** What the context of SHA-1 has in its buffer at first. *)
Variable stack : bytes.

#[local] Abbreviation C := (CM W).

(** The reply to a script, whose digest is kept by [keep]. *)
Definition run_script (shastr : bytes) (keep : bytes -> CRedisClient -> CRedisClient)
    (key script : bytes) (parameters : list bytes) (num_retries : Z) : C (option nat) :=
  if bool_decide (shastr <> []) then evalsha fuel key shastr parameters num_retries
  else
    reply ← eval_parameters fuel key script parameters num_retries;
    sha1 ← must (strsha1 stack script);
    _ ← upd_client (keep sha1);
    mret reply.

(** The labels and the jumps: at most one more attempt. *)
Definition once_more {A} (attempt : C A) (forget : CRedisClient -> CRedisClient) : C A :=
  catch attempt (fun ex =>
    if is_noscript_error (errtype (x_errinfo ex)) then _ ← upd_client forget; attempt else throw ex).

Definition hincrby_script : bytes := bs
  "local hk='{'..KEYS[1]..'}'..ARGV[3];local ret=redis.call('SET',hk,'1','EX',ARGV[4],'NX');if not ret then  return nil;else  return redis.call('HINCRBY',KEYS[1],ARGV[1],ARGV[2]);end".

Definition keep_hincrby (sha1 : bytes) c := with_shastr1 sha1 (c_hmincrby_shastr1 c) c.

Definition hincrby_attempt (key field : bytes) (increment : Z) (uid : bytes) (expired_seconds newvalue num_retries : Z) :
    C (bool * Z) :=
  p1 ← must (int2string increment);
  p3 ← must (int2string_u32 expired_seconds);
  sha1 ← client c_hincrby_shastr1;
  reply ← run_script sha1 keep_hincrby key hincrby_script [field; p1; uid; p3] num_retries;
  decode (fun _ r =>
    if is_nil r then Some (false, newvalue) else
    if rp_type r =? REDIS_REPLY_INTEGER then Some (true, rp_integer r) else
    if rp_type r =? REDIS_REPLY_STRING then s ← text r; v ← string2int s (-1); Some (true, v.2) else
    Some (true, 0)) reply.

Definition hincrby_once (key field : bytes) (increment : Z) (uid : bytes) (expired_seconds newvalue num_retries : Z) :
    C (bool * Z) :=
  once_more (hincrby_attempt key field increment uid expired_seconds newvalue num_retries) (keep_hincrby []).

Definition hmincrby_once_script : bytes := bs
  "local hk='{'..KEYS[1]..'}'..ARGV[1];local ret=redis.call('SET',hk,'1','EX',ARGV[2],'NX');if not ret then  return nil;else  local results={};  local j=1;  for i=3,#ARGV,2  do    local f=ARGV[i];    local v=ARGV[i+1];    results[j]=redis.call('HINCRBY',KEYS[1],f,v);    j=j+1;  end  return results;end".

Definition keep_hmincrby (sha1 : bytes) c := with_shastr1 (c_hincrby_shastr1 c) sha1 c.

Definition hmincrby_attempt (key : bytes) (increments : list (bytes * Z)) (uid : bytes) (expired_seconds : Z)
    (newvalues : list Z) (num_retries : Z) : C (bool * list Z) :=
  p1 ← must (int2string_u32 expired_seconds);
  l ← must (increment_parameters increments);
  sha1 ← client c_hmincrby_shastr1;
  reply ← run_script sha1 keep_hmincrby key hmincrby_once_script (uid :: p1 :: l) num_retries;
  decode (fun rd r =>
    if is_nil r then Some (false, newvalues) else
    if rp_type r =? REDIS_REPLY_ARRAY then v ← get_values_ints rd r newvalues; Some (true, v.2) else
    Some (true, newvalues)) reply.

Definition hmincrby_once (key : bytes) (increments : list (bytes * Z)) (uid : bytes) (expired_seconds : Z)
    (newvalues : list Z) (num_retries : Z) : C (bool * list Z) :=
  once_more (hmincrby_attempt key increments uid expired_seconds newvalues num_retries) (keep_hmincrby []).

End scripts.

(** ** The life of a client *)

Section life.
Context {dm : DataModel} {fl : FloatLib} {W : Type} {drv : Driver W} {um : UnorderedMap} {bld : Build}.

(** The three constructors differ in the order of their arguments; what the
    client was before is not read. *)
Definition construct (raw_nodes_string : bytes) (connect_timeout_milliseconds readwrite_timeout_milliseconds : Z)
    (password : bytes) (read_policy : ReadPolicy) : CM W unit :=
  _ ← upd_client (fun _ => Client false raw_nodes_string [] connect_timeout_milliseconds
        readwrite_timeout_milliseconds password read_policy [] ∅ [] [] [] []);
  init.
Definition destruct_client : CM W unit := fini.

Definition set_command_monitor (monitor : bool) : CM W unit :=
  upd_client (fun c => Client monitor (c_raw_nodes_string c) (c_nodes_string c)
    (c_connect_timeout_milliseconds c) (c_readwrite_timeout_milliseconds c) (c_password c)
    (c_read_policy c) (c_masters c) (c_masters_id c) (c_nodes c) (c_slot2node c)
    (c_hincrby_shastr1 c) (c_hmincrby_shastr1 c)).

Definition str (c : CRedisClient) : bytes :=
  bs (if cluster_mode c then "rediscluster://" else "redisstandalone://") ++ c_raw_nodes_string c.

End life.
