(* ===== verification/CommandFacts.v ===== *)
(** * Commands: arguments and decoded replies

    The words a command is built of, with the numbers as decimal numerals; and
    the decoders on the representation of a reply tree in memory: parts of a
    tree, lists, maps and streams. *)

From Stdlib Require Import Strings.Byte String.
From stdpp Require Import gmap.
From S2P Require Import Prelude CLib Read Reply Tree Printf Format FormatFacts Network Pipeline Slots.
From S2P Require Import StdString ClusterText ClusterTextFacts ClusterNodes Driver RedisClient Decoders.
From S2P Require Import Commands Collections.

(** ** Arguments *)

(** The words of an argument, and the numbers in it. *)
Definition arg_words (x : arg) : list bytes :=
  match x with
  | Str s => [s]
  | I32 n | U32 n | I64 n => [dec n]
  | Strs l => l
  | Pairs l => flat_map (fun p => [p.1; p.2]) l
  | Scores l reverse => flat_map (fun p => if reverse : bool then [dec p.2; p.1] else [p.1; dec p.2]) l
  | FVPairs l => flat_map (fun p => [field p; value p]) l
  end.
Definition arg_numbers (x : arg) : list Z :=
  match x with I32 n | U32 n | I64 n => [n] | Scores l _ => l.*2 | _ => [] end.
Definition arg_ok (x : arg) : Prop := Forall (fun n => LLONG_MIN <= n <= LLONG_MAX) (arg_numbers x).

Definition words_of (name : bytes) (l : list arg) : list bytes := name :: flat_map arg_words l.

(** More words at the end. *)
Definition more (w : list bytes) (a : CommandArgs) : CommandArgs :=
  Args (a_key a) (a_command a) (a_args a ++ w) (a_argc a) (a_argv a) (a_argvlen a).

Lemma more_nil a : more [] a = a.
Proof. destruct a. unfold more. simpl. by rewrite app_nil_r. Qed.
Lemma more_app w w' a : more w' (more w a) = more (w ++ w') a.
Proof. unfold more. simpl. by rewrite app_assoc. Qed.

Lemma add_args_more l a : add_args l a = more l a.
Proof.
  revert a. induction l as [|x l IH]; intros a; [by rewrite more_nil|].
  change (add_args (x :: l) a) with (add_args l (more [x] a)). by rewrite IH, more_app.
Qed.

Lemma add_pairs_more l a : add_args_pairs l a = more (flat_map (fun p => [p.1; p.2]) l) a.
Proof.
  revert a. induction l as [|[k v] l IH]; intros a; [by rewrite more_nil|].
  change (add_args_pairs ((k, v) :: l) a) with (add_args_pairs l (more [v] (more [k] a))).
  by rewrite IH, !more_app.
Qed.

Lemma add_scores_more l reverse a : Forall (fun n => LLONG_MIN <= n <= LLONG_MAX) l.*2 ->
  add_args_scores l reverse a
  = Some (more (flat_map (fun p => if reverse : bool then [dec p.2; p.1] else [p.1; dec p.2]) l) a).
Proof.
  revert a. induction l as [|[k v] l IH]; intros a Hl; [by rewrite more_nil|].
  apply Forall_cons in Hl as [Hv Hl]. cbn [add_args_scores]. unfold add_arg_i64.
  rewrite int2string_dec by done. cbn [mbind option_bind].
  destruct reverse; cbn [negb mbind option_bind flat_map fst snd app]; rewrite IH by done; f_equal;
    exact (eq_trans (f_equal (more _) (more_app [_] [_] a)) (more_app [_; _] _ a)).
Qed.

Lemma put_arg_more x a : arg_ok x -> put_arg x a = Some (more (arg_words x) a).
Proof.
  destruct x as [s|n|n|n|l|l|l reverse|l]; intros Hx; cbn [put_arg arg_words]; try done.
  1-3: apply Forall_inv in Hx; unfold add_arg_i32, add_arg_u32, add_arg_i64, int2string_i32, int2string_u32;
    by rewrite int2string_dec.
  - by rewrite add_args_more.
  - by rewrite add_pairs_more.
  - by apply add_scores_more.
  - rewrite add_pairs_more. do 2 f_equal. clear Hx. induction l as [|p l IH]; [done|]. cbn [fmap list_fmap flat_map fst snd]. by f_equal; f_equal.
Qed.

Lemma put_args_more l a : Forall arg_ok l -> put_args l a = Some (more (flat_map arg_words l) a).
Proof.
  revert a. induction l as [|x l IH]; intros a Hl; [by rewrite more_nil|].
  apply Forall_cons in Hl as [Hx Hl]. cbn [put_args]. rewrite put_arg_more by done.
  cbn [mbind option_bind]. rewrite IH by done. by rewrite more_app.
Qed.

(** What [redis_command] is given. *)
Definition ready (key : option bytes) (words : list bytes) : CommandArgs :=
  Args (default [] key) (hd [] words) words (zlen words) ((fun w => w ++ [NUL]) <$> words) (zlen <$> words).

Lemma build_ready key name l : Forall arg_ok l -> zlen (words_of name l) <= INT_MAX ->
  build key name l = Some (ready key (words_of name l)).
Proof.
  intros Hl Hn. unfold build, unfinished. rewrite put_args_more by (constructor; [by constructor|done]).
  cbn [fmap option_fmap option_map]. unfold final, ready, more. rewrite s32_small.
  - by destruct key.
  - pose proof (zlen_nonneg (words_of name l)). destruct key; simpl; unfold words_of in *; simpl in *; width_lia.
Qed.

(** The words are what hiredis takes from the vectors. *)
Lemma nul_args_loop f j (args : list bytes) :
  (length args - j < f)%nat ->
  args_loop f (Z.of_nat j) (zlen args) ((fun w => w ++ [NUL]) <$> args) (Some (zlen <$> args)) = Some (drop j args).
Proof.
  revert j. induction f as [|f IH]; intros j Hf; [lia|]. cbn [args_loop].
  destruct (Z.ltb_spec (Z.of_nat j) (zlen args)) as [Hj|Hj].
  2: { rewrite drop_ge; [done|]. unfold zlen in Hj. lia. }
  destruct (lookup_lt_is_Some_2 args j) as [x Hx]; [unfold zlen in Hj; lia|].
  assert (forall A (l : list A) y, l !! j = Some y -> zget l (Z.of_nat j) = Some y) as Hz.
  { intros A l y Hy. unfold zget. by rewrite (proj2 (Z.leb_le 0 _)), Nat2Z.id by lia. }
  unfold arg_text. rewrite (Hz _ _ (x ++ [NUL])) by (by rewrite list_lookup_fmap, Hx). cbn [mbind option_bind].
  rewrite (Hz _ _ (zlen x)) by (by rewrite list_lookup_fmap, Hx). cbn [mbind option_bind].
  rewrite (zread_app x [NUL] 0 (zlen x) x) by apply zread_all. cbn [mbind option_bind].
  replace (Z.of_nat j + 1) with (Z.of_nat (S j)) by lia. rewrite IH by (apply lookup_lt_Some in Hx; lia).
  simpl. by rewrite (drop_S _ _ _ Hx).
Qed.

Lemma ready_texts key words :
  arg_texts (a_argc (ready key words)) (a_argv (ready key words)) (Some (a_argvlen (ready key words))) = Some words.
Proof. apply (nul_args_loop _ 0). cbn [a_argc ready]. unfold zlen. lia. Qed.

(** ** Trees in memory *)

Section trees.
Context {fl : FloatLib} {bld : Build}.
Variable rd : nat -> option redisReply.

(** [r] is the root of a tree whose cells can be read. *)
Definition shows (r : redisReply) (t : reply) : Prop :=
  exists lo, r = root_cell lo t /\ forall l c, cells lo t !! l = Some c -> rd l = Some c.

Lemma cells_list_at ts i t lo : ts !! i = Some t ->
  exists lo', offsets lo ts !! i = Some lo' /\ forall l c, cells lo' t !! l = Some c -> cells_list lo ts !! l = Some c.
Proof.
  revert i lo. induction ts as [|u ts IH]; intros [|i] lo Hi; simplify_eq/=.
  - exists lo. split; [done|]. intros l c Hc. rewrite lookup_union, Hc. by destruct (cells_list _ _ !! l).
  - destruct (IH i (lo + nodes u)%nat Hi) as (lo' & E & Hc). exists lo'. split; [done|].
    intros l c Hl. rewrite lookup_union_r; [by apply Hc|]. apply cells_range.
    assert (is_Some (cells_list (lo + nodes u) ts !! l)) as Hs by (eexists; by apply Hc).
    right. destruct (decide (lo + nodes u <= l)%nat); [done|].
    rewrite cells_list_outside in Hs by lia. by destruct Hs.
Qed.

Lemma shows_element r ty ts i t :
  shows r (RAgg ty (zlen ts) ts) -> ts !! i = Some t ->
  exists r', element_at rd r (Z.of_nat i) = Some r' /\ shows r' t.
Proof.
  intros (lo & -> & Hrd) Hi. rewrite cells_agg in Hrd.
  destruct (cells_list_at ts i t (S lo) Hi) as (lo' & Ho & Hc). exists (root_cell lo' t).
  assert (forall l c, cells lo' t !! l = Some c -> rd l = Some c) as Ht.
  { intros l c Hl. apply Hrd. rewrite lookup_insert_ne; [by apply Hc|]. intros ->.
    pose proof (Hc _ _ Hl) as Hx. rewrite cells_list_outside in Hx by lia. done. }
  split; [|by exists lo'].
  assert (0 < zlen ts) as Hpos by (apply lookup_lt_Some in Hi; unfold zlen; lia).
  unfold element_at, root_cell, agg_cell. cbn [rp_element]. rewrite (proj2 (Z.ltb_lt _ _)) by done.
  cbn [mbind option_bind]. unfold zget. rewrite (proj2 (Z.leb_le 0 _)), Nat2Z.id by lia.
  unfold slots. rewrite lookup_app_l by (rewrite length_fmap, length_offsets; by apply lookup_lt_Some in Hi).
  rewrite list_lookup_fmap, Ho. cbn [fmap option_fmap option_map mbind option_bind].
  apply Ht. destruct t; simpl; apply lookup_insert_eq.
Qed.

Lemma shows_text r ty s : shows r (RStr ty s) -> text r = Some s.
Proof.
  intros (lo & -> & _). unfold text. cbn [root_cell rp_len rp_str].
  destruct (Z.eqb_spec (zlen s) 0) as [E|_]; [by apply zlen_0_nil in E as ->|].
  cbn [mbind option_bind]. apply zread_app, zread_all.
Qed.

Lemma shows_type r t : shows r t -> is_nil r =
  match t with RNil => true | RStr ty _ => ty =? REDIS_REPLY_NIL | RAgg ty _ _ => ty =? REDIS_REPLY_NIL | _ => false end.
Proof. intros (lo & -> & _). by destruct t. Qed.

Lemma shows_elements r ty n ts : shows r (RAgg ty n ts) -> rp_elements r = n /\ rp_type r = ty.
Proof. by intros (lo & -> & _). Qed.

(** ** Loops *)

Lemma over_elements_spec {A} (f : Z -> option A) step n xs i fuel :
  0 < step -> n = i + step * zlen xs -> (length xs < fuel)%nat ->
  (forall k x, xs !! k = Some x -> f (i + step * Z.of_nat k) = Some x) ->
  over_elements fuel i step n f = Some xs.
Proof.
  intros Hstep. revert i fuel. induction xs as [|x xs IH]; intros i [|fuel] Hn Hf Hx; try (simpl in Hf; lia);
    cbn [over_elements].
  - rewrite (proj2 (Z.ltb_ge i n)) by (rewrite zlen_nil in Hn; lia). done.
  - rewrite zlen_cons in Hn. pose proof (zlen_nonneg xs). rewrite (proj2 (Z.ltb_lt i n)) by nia.
    pose proof (Hx 0%nat x eq_refl) as E. rewrite Z.mul_0_r, Z.add_0_r in E. rewrite E. cbn [mbind option_bind].
    rewrite (IH (i + step)); [done|nia|simpl in Hf; lia|].
    intros k y Hk. rewrite <- (Hx (S k) y Hk). f_equal. lia.
Qed.

Lemma elements_of_spec {A} (f : Z -> option A) step r xs :
  0 < step -> rp_elements r = step * zlen xs ->
  (forall k x, xs !! k = Some x -> f (step * Z.of_nat k) = Some x) ->
  elements_of step r f = Some xs.
Proof.
  intros Hs He Hf. unfold elements_of. apply over_elements_spec; try done.
  - unfold zlen in He. nia.
Qed.

(** The elements of an aggregate that is the image of a list. *)
Lemma elements_of_trees {A B} (f : Z -> option A) r ty (tree : B -> reply) (res : B -> A) l :
  shows r (RAgg ty (zlen l) (tree <$> l)) ->
  (forall i x r', l !! i = Some x -> element_at rd r (Z.of_nat i) = Some r' -> shows r' (tree x) ->
     f (Z.of_nat i) = Some (res x)) ->
  elements_of 1 r f = Some (res <$> l).
Proof.
  intros Hr Hf. destruct (shows_elements _ _ _ _ Hr) as [He _].
  apply elements_of_spec; [done|by rewrite zlen_fmap, Z.mul_1_l|].
  intros k y Hk. rewrite list_lookup_fmap in Hk. destruct (l !! k) as [x|] eqn:Ex; [|done]. injection Hk as <-.
  rewrite Z.mul_1_l. rewrite <- (zlen_fmap tree) in Hr.
  destruct (shows_element _ _ _ k (tree x) Hr) as (r' & E & Hr'); [by rewrite list_lookup_fmap, Ex|]. eauto.
Qed.

End trees.

(** ** What decoders make of reply trees

    The trees that stand for values, maps and streams, and the decoders that
    give these back. *)

Section trees.
Context {fl : FloatLib}.

Definition str_tree (s : bytes) : reply := RStr REDIS_REPLY_STRING s.
Definition array (ts : list reply) : reply := RAgg REDIS_REPLY_ARRAY (zlen ts) ts.

(** A value, or nil. *)
Definition value_tree (o : option bytes) : reply := match o with Some s => str_tree s | None => RNil end.

(** Names and values in turn. *)
Definition pair_trees (l : list (bytes * bytes)) : list reply :=
  flat_map (fun p => [str_tree p.1; str_tree p.2]) l.

Definition entry_tree (e : StreamEntry) : reply :=
  array [str_tree (e_id e); array (pair_trees ((fun x => (field x, value x)) <$> e_fvpairs e))].
Definition stream_tree (s : Stream) : reply :=
  array [str_tree (st_key s); array (entry_tree <$> st_entries s)].

Section decoders.
Context {bld : Build}.
Variable rd : nat -> option redisReply.

#[local] Abbreviation shows := (shows rd).

Lemma array_fmap {A} (f : A -> reply) l : array (f <$> l) = RAgg REDIS_REPLY_ARRAY (zlen l) (f <$> l).
Proof. unfold array. by rewrite zlen_fmap. Qed.

Lemma pair_trees_lookup l k p : l !! k = Some p ->
  pair_trees l !! (2 * k)%nat = Some (str_tree p.1) /\ pair_trees l !! (2 * k + 1)%nat = Some (str_tree p.2).
Proof.
  revert k. induction l as [|q l IH]; intros [|k] Hk; simplify_eq/=; [done|].
  destruct (IH k Hk) as [E1 E2]. rewrite <- E1, <- E2. split.
  - by replace (k + S (k + 0))%nat with (S (2 * k)) by lia.
  - by replace (k + S (k + 0) + 1)%nat with (S (2 * k + 1)) by lia.
Qed.

Lemma pair_trees_zlen l : zlen (pair_trees l) = 2 * zlen l.
Proof. induction l as [|p l IH]; [done|]. unfold pair_trees in *. simpl. rewrite !zlen_cons. lia. Qed.

(** A loop over pairs. *)
Lemma elements_of_pairs {A} (f : Z -> option A) r l (res : bytes * bytes -> A) :
  shows r (array (pair_trees l)) ->
  (forall i p r1 r2, element_at rd r (2 * i) = Some r1 -> element_at rd r (2 * i + 1) = Some r2 ->
     text r1 = Some p.1 -> text r2 = Some p.2 -> f (2 * i) = Some (res p)) ->
  elements_of 2 r f = Some (res <$> l).
Proof.
  intros Hr Hf. destruct (shows_elements _ _ _ _ _ Hr) as [He _].
  apply elements_of_spec; [done|by rewrite He, pair_trees_zlen, zlen_fmap|].
  intros k y Hk. rewrite list_lookup_fmap in Hk. destruct (l !! k) as [p|] eqn:Ep; [|done]. injection Hk as <-.
  destruct (pair_trees_lookup l k p Ep) as [E1 E2].
  destruct (shows_element _ _ _ _ _ _ Hr E1) as (r1 & F1 & H1).
  destruct (shows_element _ _ _ _ _ _ Hr E2) as (r2 & F2 & H2).
  apply (Hf (Z.of_nat k) p r1 r2); [rewrite <- F1|rewrite <- F2|by eapply shows_text|by eapply shows_text]; f_equal; lia.
Qed.

Lemma get_value_tree r o : shows r (value_tree o) -> get_value r = Some (isSome o, default [] o).
Proof.
  intros Hr. unfold get_value. rewrite (shows_type _ _ _ Hr). destruct o as [s|]; [|done]. cbn [value_tree str_tree].
  change (REDIS_REPLY_STRING =? REDIS_REPLY_NIL) with false. cbv iota.
  rewrite (shows_text _ _ _ _ Hr). destruct Hr as (lo & -> & _). cbn [root_cell value_tree str_tree rp_len].
  destruct (Z.ltb_spec 0 (zlen s)); [done|]. pose proof (zlen_nonneg s). by rewrite (zlen_0_nil s) by lia.
Qed.

Lemma get_values_tree r l : shows r (array (value_tree <$> l)) ->
  get_values rd r = Some (s32 (zlen l), default [] <$> l).
Proof.
  intros Hr. rewrite array_fmap in Hr. unfold get_values. destruct (shows_elements _ _ _ _ _ Hr) as [-> _].
  rewrite (elements_of_trees rd _ r _ value_tree (default []) l Hr); [done|].
  intros i o r' _ -> Hr'. cbn [mbind option_bind]. rewrite (shows_type _ _ _ Hr'). destruct o as [s|]; [|done].
  cbn [value_tree str_tree]. change (REDIS_REPLY_STRING =? REDIS_REPLY_NIL) with false. cbv iota.
  by apply shows_text in Hr'.
Qed.

Lemma get_values_map_tree r l : shows r (array (pair_trees l)) ->
  get_values_map rd r = Some (s32 (zlen l), foldl (fun m x => <[x.1 := x.2]> m) ∅ l).
Proof.
  intros Hr. unfold get_values_map. destruct (shows_elements _ _ _ _ _ Hr) as [-> _].
  rewrite (elements_of_pairs _ r l id Hr), list_fmap_id.
  - cbn [mbind option_bind]. rewrite pair_trees_zlen. by rewrite Z.mul_comm, Z.div_mul.
  - intros i [p1 p2] r1 r2 -> -> E1 E2. cbn [mbind option_bind]. rewrite E1, E2. done.
Qed.

Lemma fvpairs_tree r l : shows r (array (pair_trees ((fun x => (field x, value x)) <$> l))) ->
  fvpairs_of rd r = Some l.
Proof.
  intros Hr. unfold fvpairs_of. destruct (shows_elements _ _ _ _ _ Hr) as [-> _].
  rewrite pair_trees_zlen, Z.mul_comm, Z.mod_mul by done. change (0 =? 1) with false. cbv iota.
  rewrite (elements_of_pairs _ r _ (fun p => FV p.1 p.2) Hr).
  - f_equal. clear Hr. induction l as [|[f v] l IH]; [done|]. cbn [fmap list_fmap field value fst snd]. f_equal. exact IH.
  - intros i p r1 r2 -> -> E1 E2. cbn [mbind option_bind]. rewrite E1, E2. done.
Qed.

Lemma pair_elements r t0 t1 : shows r (array [t0; t1]) ->
  exists r0 r1, element_at rd r 0 = Some r0 /\ shows r0 t0 /\ element_at rd r 1 = Some r1 /\ shows r1 t1.
Proof.
  intros Hr. destruct (shows_element _ _ _ _ 0 t0 Hr eq_refl) as (r0 & E0 & H0).
  destruct (shows_element _ _ _ _ 1 t1 Hr eq_refl) as (r1 & E1 & H1). by exists r0, r1.
Qed.

Lemma get_entry_tree r e : shows r (entry_tree e) -> get_entry rd r = Some e.
Proof.
  intros (r0 & r1 & E0 & H0 & E1 & H1)%pair_elements. unfold get_entry. rewrite E0, E1. cbn [mbind option_bind].
  rewrite (shows_text _ _ _ _ H0), (fvpairs_tree _ _ H1). by destruct e.
Qed.

Lemma entries_tree r l : shows r (array (entry_tree <$> l)) -> entries_of rd r = Some l.
Proof.
  intros Hr. rewrite array_fmap in Hr. unfold entries_of.
  rewrite (elements_of_trees rd _ r _ entry_tree id l Hr), list_fmap_id; [done|].
  intros i e r' _ -> Hr'. by apply get_entry_tree.
Qed.

Lemma array_checked r ts : shows r (array ts) -> nil_or_array r = Some tt /\ is_nil r = false.
Proof.
  intros Hr. destruct (shows_elements _ _ _ _ _ Hr) as [_ Ht]. unfold nil_or_array, is_nil. by rewrite Ht.
Qed.

Lemma get_values_entries_tree r l old : shows r (array (entry_tree <$> l)) ->
  get_values_entries rd r old = Some (s32 (zlen l), l).
Proof.
  intros Hr. destruct (array_checked _ _ Hr) as [E1 E2]. unfold get_values_entries. rewrite E1, E2.
  cbn [mbind option_bind]. rewrite (entries_tree _ _ Hr). cbn [mbind option_bind].
  destruct (shows_elements _ _ _ _ _ Hr) as [-> _]. by rewrite zlen_fmap.
Qed.

Lemma get_values_streams_tree r l old : shows r (array (stream_tree <$> l)) ->
  get_values_streams rd r old = Some (s32 (zlen l), l).
Proof.
  intros Hr. destruct (array_checked _ _ Hr) as [E1 E2]. unfold get_values_streams. rewrite E1, E2.
  cbn [mbind option_bind]. destruct (shows_elements _ _ _ _ _ Hr) as [-> _]. rewrite array_fmap in Hr.
  rewrite (elements_of_trees rd _ r _ stream_tree id l Hr), list_fmap_id, zlen_fmap; [done|].
  intros i s r' _ -> (r0 & r1 & F0 & H0 & F1 & H1)%pair_elements. cbn [mbind option_bind].
  rewrite F0, F1. cbn [mbind option_bind]. rewrite (shows_text _ _ _ _ H0), (entries_tree _ _ H1). by destruct s.
Qed.

(** A scan: the cursor and a batch of values. *)
Lemma reply_scan_tree {A} r cursor t (values : A) d v :
  shows r (array [str_tree cursor; t]) -> NUL ∉ cursor ->
  (forall r', shows r' t -> d rd r' = Some v) ->
  reply_scan values d rd r = Some (atoll cursor, v.2).
Proof.
  intros Hr Hc Hd. unfold reply_scan, on_array. destruct (shows_elements _ _ _ _ _ Hr) as [_ ->].
  change (REDIS_REPLY_ARRAY =? REDIS_REPLY_ARRAY) with true. cbv iota.
  destruct (pair_elements _ _ _ Hr) as (r0 & r1 & -> & (lo & -> & _) & -> & H1). cbn [mbind option_bind].
  rewrite (Hd r1 H1). unfold ctext. cbn [root_cell str_tree rp_str mbind option_bind]. by rewrite cstr_app_nul.
Qed.

End decoders.
End trees.
