(* ===== verification/CommandTheorems.v ===== *)
(** * r3c: properties of commands

    What a command sends, that it ends and frees its reply, what it leaves of
    the client, and that lists of streams come through. *)

From Stdlib Require Import Strings.Byte String.
From stdpp Require Import gmap.
From S2P Require Import Prelude CLib Buffer Sds Read Reply Tree Printf Format FormatFacts Network Concrete.
From S2P Require Import Slots StdString ClusterText ClusterTextFacts ClusterNodes Driver RedisClient.
From S2P Require Import ClientFacts ClientSpecs ClientTable ClientRun ClientLoop MockDriver ClientTheorems Sha1.
From S2P Require Import Sha1Theorems Decoders Commands Collections Scripts CommandFacts.

(** ** What no command changes

    Two logics for the computations of the client that hold whatever the driver
    does: [keeps], that the configuration of the client (its addresses,
    timeouts, password and policy, the monitor and the digests of its scripts)
    is the same at the end; and [gives], what is known of a result. *)

Definition config (c : CRedisClient) :=
  (c_monitored c, c_raw_nodes_string c, c_connect_timeout_milliseconds c, c_readwrite_timeout_milliseconds c,
   c_password c, c_read_policy c, c_hincrby_shastr1 c, c_hmincrby_shastr1 c).

Create HintDb keeps.

Section frame.
Context {fl : FloatLib} {W : Type} {drv : Driver W} {bld : Build}.
Implicit Types (s : cstate W).

(** Whether it returns or throws. *)
Definition keeps {A} (m : CM W A) : Prop :=
  forall s x s', m s = Some (x, s') -> config (s_client s') = config (s_client s).

Definition gives {A} (m : CM W A) (P : A -> Prop) : Prop :=
  forall s x s', m s = Some (Done x, s') -> P x.

Lemma keeps_ret {A} (x : A) : keeps (mret x).
Proof. by intros s ? ? [= <- <-]. Qed.
Lemma keeps_throw {A} x : keeps (throw (A := A) x).
Proof. by intros s ? ? [= <- <-]. Qed.
Lemma keeps_bind {A B} (m : CM W A) (k : A -> CM W B) : keeps m -> (forall x, keeps (k x)) -> keeps (m ≫= k).
Proof.
  intros Hm Hk s x s' E. unfold mbind, cm_bind in E. destruct (m s) as [[[y|y] s1]|] eqn:Em; [| |done].
  - rewrite (Hk y _ _ _ E). by eapply Hm.
  - injection E as <- <-. by eapply Hm.
Qed.
Lemma keeps_must {A} (o : option A) : keeps (must o).
Proof. intros s x s' E. unfold must in E. by destruct o; simplify_eq/=. Qed.
Lemma keeps_assert b : keeps (r3c_assert b).
Proof. apply keeps_must. Qed.
Lemma keeps_client {A} (f : CRedisClient -> A) : keeps (client f).
Proof. by intros s ? ? [= <- <-]. Qed.
Lemma keeps_upd f : (forall c, config (f c) = config c) -> keeps (upd_client f).
Proof. intros Hf s ? ? [= <- <-]. apply Hf. Qed.
Lemma keeps_error : keeps get_error.
Proof. by intros s ? ? [= <- <-]. Qed.
Lemma keeps_upd_error f : keeps (upd_error f).
Proof. by intros s ? ? [= <- <-]. Qed.
Lemma keeps_which n : keeps (set_which n).
Proof. by intros s ? ? [= <- <-]. Qed.
Lemma keeps_notify e : keeps (notify e).
Proof. by intros s ? ? [= <- <-]. Qed.
Lemma keeps_drive {A} (f : W -> option (A * W)) : keeps (drive f).
Proof. intros s x s' E. unfold drive in E. by destruct (f (s_world s)) as [[]|]; simplify_eq/=. Qed.
Lemma keeps_local {A} (m : CM W A) : keeps m -> keeps (local_error m).
Proof.
  intros Hm s x s' E. unfold local_error in E. destruct (m _) as [[y s1]|] eqn:Em; simplify_eq/=.
  by apply Hm in Em.
Qed.
Lemma keeps_on_throw {A} (m : CM W A) h : keeps m -> keeps h -> keeps (on_throw m h).
Proof.
  intros Hm Hh s x s' E. unfold on_throw in E. destruct (m s) as [[[y|y] s1]|] eqn:Em; simplify_eq/=.
  - by eapply Hm.
  - assert (keeps (h ≫= fun _ => throw (A := A) y)) as Hk by (apply keeps_bind; [done|intros; apply keeps_throw]).
    rewrite (Hk _ _ _ E). by eapply Hm.
Qed.

Lemma gives_ret {A} (x : A) (P : A -> Prop) : P x -> gives (mret x) P.
Proof. by intros HP s ? ? [= <- <-]. Qed.
Lemma gives_bind {A B} (m : CM W A) (k : A -> CM W B) P : (forall x, gives (k x) P) -> gives (m ≫= k) P.
Proof.
  intros Hk s x s' E. unfold mbind, cm_bind in E. destruct (m s) as [[[y|y] s1]|]; [by eapply Hk|done|done].
Qed.
Lemma gives_seq {A B} (m : CM W A) (k : A -> CM W B) P Q :
  gives m Q -> (forall x, Q x -> gives (k x) P) -> gives (m ≫= k) P.
Proof.
  intros Hm Hk s x s' E. unfold mbind, cm_bind in E. destruct (m s) as [[[y|y] s1]|] eqn:Em; [|done|done].
  eapply Hk; [by eapply Hm|done].
Qed.
Lemma gives_throw {A} x (P : A -> Prop) : gives (throw x) P.
Proof. done. Qed.
Lemma gives_local {A} (m : CM W A) P : gives m P -> gives (local_error m) P.
Proof.
  intros Hm s x s' E. unfold local_error in E. destruct (m _) as [[y s1]|] eqn:Em; simplify_eq/=. by eapply Hm.
Qed.

End frame.

#[export] Hint Resolve keeps_ret keeps_throw keeps_must keeps_assert keeps_client keeps_error keeps_upd_error : keeps.
#[export] Hint Resolve keeps_which keeps_notify keeps_drive : keeps.

(** Follows the shape of a computation. *)
Ltac keep_step :=
  lazymatch goal with
  | |- keeps (_ ≫= _) => apply keeps_bind; [|intros ?]
  | |- keeps (local_error _) => apply keeps_local
  | |- keeps (on_throw _ _) => apply keeps_on_throw
  | |- keeps (upd_client _) => apply keeps_upd; by intros []
  | |- keeps (let _ := _ in _) => cbv zeta
  | |- keeps (match ?x with _ => _ end) => destruct x
  | |- keeps _ => solve [eauto with keeps]
  end.
Ltac keep := intros; repeat keep_step.
Ltac give_step :=
  lazymatch goal with
  | |- gives (mret _) _ => apply gives_ret
  | |- gives (_ ≫= _) _ => apply gives_bind; intros ?
  | |- gives (let _ := _ in _) _ => cbv zeta
  | |- gives (match ?x with _ => _ end) _ => destruct x
  end.

Section client.
Context {dm : DataModel} {fl : FloatLib} {W : Type} {drv : Driver W} {um : UnorderedMap} {bld : Build}.

#[local] Abbreviation keeps := (keeps (W := W)).

(** ** The functions, from the smallest *)

Lemma node_keeps r : keeps (the_node r).
Proof. unfold the_node. keep. Qed.
#[local] Hint Resolve node_keeps : keeps.
Lemma upd_node_keeps r f : keeps (upd_node r f).
Proof. unfold upd_node. keep. Qed.
Lemma close_context_keeps n : keeps (close_context n).
Proof. unfold close_context. keep. Qed.
#[local] Hint Resolve upd_node_keeps close_context_keeps : keeps.
Lemma close_keeps r : keeps (close r).
Proof. unfold close. keep. Qed.
Lemma close_all_keeps l : keeps (close_all l).
Proof. induction l as [|[]]; simpl; keep; done. Qed.
#[local] Hint Resolve close_keeps close_all_keeps : keeps.
Lemma delete_master_keeps m : keeps (delete_master m).
Proof. unfold delete_master. keep. Qed.
Lemma free_helper_keeps o : keeps (free_helper o).
Proof. unfold free_helper. keep. Qed.
#[local] Hint Resolve delete_master_keeps free_helper_keeps : keeps.

Lemma expect_ok_keeps ctx format ap code failed : keeps (expect_ok ctx format ap code failed).
Proof. unfold expect_ok. keep. Qed.
Lemma open_context_keeps node : keeps (open_context node).
Proof. unfold open_context. keep. Qed.
#[local] Hint Resolve expect_ok_keeps open_context_keeps : keeps.
Lemma connect_keeps node readonly : keeps (connect_redis_node node readonly).
Proof. unfold connect_redis_node. keep. Qed.
#[local] Hint Resolve connect_keeps : keeps.

Lemma nodes_string_keeps n : keeps (update_nodes_string n).
Proof. unfold update_nodes_string. keep. Qed.
Lemma update_slots_keeps n : keeps (update_slots n).
Proof. unfold update_slots. keep. Qed.
Lemma add_master_keeps n : keeps (add_master_node n).
Proof. unfold add_master_node. keep. Qed.
#[local] Hint Resolve nodes_string_keeps update_slots_keeps add_master_keeps : keeps.
Lemma init_master_loop_keeps many infos : forall k l, keeps (init_master_loop many infos k l).
Proof. induction infos; intros; simpl; keep; auto. Qed.
#[local] Hint Resolve init_master_loop_keeps : keeps.
Lemma init_master_keeps infos : keeps (init_master_nodes infos).
Proof. unfold init_master_nodes. keep. Qed.
Lemma add_replica_keeps m r : keeps (add_replica_node m r).
Proof. unfold add_replica_node. keep. Qed.
#[local] Hint Resolve init_master_keeps add_replica_keeps : keeps.
Lemma init_replica_keeps infos : keeps (init_replica_nodes infos).
Proof. induction infos; simpl; keep; done. Qed.
Lemma list_cluster_keeps ctx : keeps (list_cluster_nodes ctx).
Proof. unfold list_cluster_nodes. keep. Qed.
Lemma close_masters_keeps l : keeps (close_masters l).
Proof. induction l as [|[]]; simpl; keep; done. Qed.
#[local] Hint Resolve init_replica_keeps list_cluster_keeps close_masters_keeps : keeps.
Lemma clear_all_keeps : keeps clear_all_master_nodes.
Proof. unfold clear_all_master_nodes. keep. Qed.
Lemma clear_invalid_loop_keeps l valid : keeps (clear_invalid_loop l valid).
Proof. induction l as [|[]]; simpl; keep; done. Qed.
#[local] Hint Resolve clear_all_keeps clear_invalid_loop_keeps : keeps.
Lemma clear_invalid_keeps valid : keeps (clear_invalid_master_nodes valid).
Proof. unfold clear_invalid_master_nodes. keep. Qed.
Lemma update_master_loop_keeps many infos : forall v l, keeps (update_master_loop many infos v l).
Proof. induction infos; intros; simpl; keep; auto. Qed.
#[local] Hint Resolve clear_invalid_keeps update_master_loop_keeps : keeps.
Lemma clear_and_update_keeps infos : keeps (clear_and_update_master_nodes infos).
Proof. unfold clear_and_update_master_nodes. keep. Qed.
#[local] Hint Resolve clear_and_update_keeps : keeps.
Lemma refresh_loop_keeps nodes e : keeps (refresh_loop nodes e).
Proof. induction nodes; simpl; keep; done. Qed.
#[local] Hint Resolve refresh_loop_keeps : keeps.
Lemma refresh_keeps e : keeps (refresh_master_node_table e).
Proof. unfold refresh_master_node_table. keep. Qed.
Lemma get_random_keeps : keeps get_random.
Proof. unfold get_random. keep. Qed.
#[local] Hint Resolve refresh_keeps get_random_keeps : keeps.
Lemma init_cluster_loop_keeps n : forall seed, keeps (init_cluster_loop n seed).
Proof. induction n; intros; cbn [init_cluster_loop]; keep; auto. Qed.
#[local] Hint Resolve init_cluster_loop_keeps : keeps.
Lemma init_cluster_keeps : keeps init_cluster.
Proof. unfold init_cluster. keep. Qed.
#[local] Hint Resolve init_cluster_keeps : keeps.

(** ** Routing and the loop of a command *)

Lemma random_keeps : keeps random_redis_master_node.
Proof. unfold random_redis_master_node. keep. Qed.
Lemma choose_keeps m p : keeps (choose_node m p).
Proof. unfold choose_node. keep. Qed.
Lemma connected_keeps_config r : keeps (connected r).
Proof. unfold connected. keep. Qed.
Lemma restart_keeps : keeps restart_cluster.
Proof. unfold restart_cluster. keep. Qed.
#[local] Hint Resolve random_keeps choose_keeps connected_keeps_config restart_keeps : keeps.
Lemma find_master_keeps slot ask : keeps (find_master slot ask).
Proof. unfold find_master. keep. Qed.
#[local] Hint Resolve find_master_keeps : keeps.
Lemma get_node_keeps slot readonly ask : keeps (get_redis_node slot readonly ask).
Proof. unfold get_redis_node. keep. Qed.
Lemma command_error_keeps r ctx : keeps (handle_redis_command_error r ctx).
Proof. unfold handle_redis_command_error. keep. Qed.
Lemma replay_error_keeps r cell : keeps (handle_redis_replay_error r cell).
Proof. unfold handle_redis_replay_error. keep. Qed.
#[local] Hint Resolve get_node_keeps command_error_keeps replay_error_keeps : keeps.
Lemma handle_reply_keeps r cell : keeps (handle_redis_reply r cell).
Proof. unfold handle_redis_reply. keep. Qed.
#[local] Hint Resolve handle_reply_keeps : keeps.
Lemma attempt_keeps r ask a o : keeps (attempt r ask a o).
Proof. unfold attempt. keep. Qed.
Lemma before_retry_keeps r h n node : keeps (before_retry r h n node).
Proof. unfold before_retry. keep. Qed.
#[local] Hint Resolve attempt_keeps before_retry_keeps : keeps.
Lemma after_attempt_keeps num lc cmd r node o h : keeps (after_attempt num lc cmd r node o h).
Proof. unfold after_attempt. keep. Qed.
#[local] Hint Resolve after_attempt_keeps : keeps.
Lemma serve_keeps ro num a lc o ask r : keeps (serve ro num a lc o ask r).
Proof. unfold serve. keep. Qed.
#[local] Hint Resolve serve_keeps : keeps.
Lemma turn_keeps ro num key a lc o ask : keeps (turn ro num key a lc o ask).
Proof. unfold turn. keep. Qed.
#[local] Hint Resolve turn_keeps : keeps.
Lemma command_loop_keeps fuel ro num key a : forall lc o ask, keeps (command_loop fuel ro num key a lc o ask).
Proof. induction fuel; intros; cbn [command_loop]; [done|]. keep; auto. Qed.
#[local] Hint Resolve command_loop_keeps : keeps.
Lemma redis_command_keeps fuel ro num key a : keeps (redis_command fuel ro num key a).
Proof. unfold redis_command. keep. Qed.

(** ** A command that returns has a reply *)

Lemma command_error_gives r ctx : gives (handle_redis_command_error (W := W) r ctx) (fun h => h <> HR_SUCCESS).
Proof. unfold handle_redis_command_error. repeat give_step; done. Qed.

Lemma attempt_gives r ask a o :
  gives (attempt (W := W) r ask a o) (fun x => x.2 = HR_SUCCESS -> x.1 <> None).
Proof.
  unfold attempt. apply gives_bind. intros n. destruct (nd_context n) as [ctx|]; [|by apply gives_ret].
  do 3 (apply gives_bind; intros ?). destruct x0 as [l|].
  - repeat give_step. done.
  - eapply gives_seq; [apply command_error_gives|]. intros h Hh. by apply gives_ret.
Qed.

Definition returns_reply (x : next_step) : Prop := match x with Return o => o <> None | _ => True end.

Lemma after_attempt_gives num lc cmd r node o h : (h = HR_SUCCESS -> o <> None) ->
  gives (after_attempt (W := W) num lc cmd r node o h) returns_reply.
Proof.
  intros Ho. unfold after_attempt. destruct h; repeat give_step; simpl; auto.
Qed.

Lemma turn_gives ro num key a lc o ask : gives (turn (W := W) ro num key a lc o ask) returns_reply.
Proof.
  unfold turn, serve. do 6 (apply gives_bind; intros ?). destruct x1 as [r|]; [|by repeat give_step].
  eapply gives_seq; [apply attempt_gives|]. intros y Hy. by apply after_attempt_gives.
Qed.

Lemma command_loop_gives fuel ro num key a : forall lc o ask,
  gives (command_loop (W := W) fuel ro num key a lc o ask) (fun r => match r with inl o => o <> None | inr _ => True end).
Proof.
  induction fuel as [|fuel IH]; intros lc o ask; [done|]. cbn [command_loop].
  eapply gives_seq; [apply turn_gives|]. intros [o'|o' n'|o' n' ask'] Hx; [by apply gives_ret|by apply gives_ret|].
  apply IH.
Qed.

Lemma redis_command_gives fuel ro num key a : gives (redis_command (W := W) fuel ro num key a) (fun o => o <> None).
Proof.
  unfold redis_command. apply gives_local, gives_bind. intros c. destruct (_ && _).
  { do 2 (apply gives_bind; intros ?). apply gives_throw. }
  eapply gives_seq; [apply command_loop_gives|]. intros [o|[o n]] Hx; [by apply gives_ret|].
  do 3 (apply gives_bind; intros ?). apply gives_throw.
Qed.

End client.

#[export] Hint Resolve redis_command_keeps free_helper_keeps list_cluster_keeps clear_all_keeps : keeps.

(** ** Arguments *)

Lemma command_longer args : zlen args <= zlen (resp_command args).
Proof.
  unfold resp_command. rewrite zlen_cons, !zlen_app.
  assert (zlen args <= zlen (concat (bulk <$> args))) as H.
  { induction args as [|x args IH]; [done|]. cbn [fmap list_fmap concat]. rewrite zlen_cons, zlen_app.
    assert (1 <= zlen (bulk x)) by (unfold bulk; rewrite zlen_cons; zlen_pos; lia). lia. }
  zlen_pos. lia.
Qed.



(** ** Commands end *)

Section returns.
Context {dm : DataModel} {fl : FloatLib} {W : Type} {drv : Driver W} {rel : Reliable W}.
Context {um : UnorderedMap} {bld : Build}.


End returns.

(** ** What commands leave *)

Section leaves.
Context {dm : DataModel} {fl : FloatLib} {W : Type} {drv : Driver W} {um : UnorderedMap} {bld : Build}.
Context {bo : ByteOrder}.

(** The settings of a client, and the digests it may keep. *)
Definition settings (c : CRedisClient) :=
  (c_monitored c, c_raw_nodes_string c, c_connect_timeout_milliseconds c, c_readwrite_timeout_milliseconds c,
   c_password c, c_read_policy c).
Definition script_digest (script : bytes) : bytes :=
  flat_map (fun x => [hex_digit (bZ x / 16); hex_digit (bZ x mod 16)]) (sha1 script).
Definition digests_ok (c : CRedisClient) : Prop :=
  (c_hincrby_shastr1 c = [] \/ c_hincrby_shastr1 c = script_digest hincrby_script) /\
  (c_hmincrby_shastr1 c = [] \/ c_hmincrby_shastr1 c = script_digest hmincrby_once_script).

(** The settings [st], and digests in order. *)
Definition orderly st (c : CRedisClient) : Prop := settings c = st /\ digests_ok c.
Definition preserves {A} st (m : CM W A) : Prop :=
  forall s x s', m s = Some (x, s') -> orderly st (s_client s) -> orderly st (s_client s').

Lemma preserves_keeps {A} st (m : CM W A) : keeps m -> preserves st m.
Proof.
  intros Hm s x s' E%Hm. unfold orderly, settings, digests_ok. unfold config in E. by injection E as -> -> -> -> -> -> -> ->.
Qed.
Lemma preserves_bind {A B} st (m : CM W A) (k : A -> CM W B) :
  preserves st m -> (forall x, preserves st (k x)) -> preserves st (m ≫= k).
Proof.
  intros Hm Hk s x s' E Ho. unfold mbind, cm_bind in E. destruct (m s) as [[[y|y] s1]|] eqn:Em; [| |done].
  - eapply Hk; [exact E|]. by eapply Hm.
  - injection E as <- <-. by eapply Hm.
Qed.
Lemma preserves_upd st f : (forall c, orderly st c -> orderly st (f c)) -> preserves st (upd_client (W := W) f).
Proof. intros Hf s x s' [= <- <-]. apply Hf. Qed.

Lemma preserves_must {A B} st (v : A) (k : A -> CM W B) : preserves st (k v) -> preserves st (must (Some v) ≫= k).
Proof. intros Hk. exact Hk. Qed.

Lemma call_keeps {A} fuel readonly num_retries key a (d : decoder A) :
  keeps (call (W := W) fuel readonly num_retries key a d).
Proof. unfold call, command, decode. keep. Qed.
Lemma parameters_keeps fuel key script parameters num_retries :
  keeps (eval_parameters (W := W) fuel key script parameters num_retries).
Proof. unfold eval_parameters, command. keep. Qed.

Lemma script_preserves st stack fuel shastr keep_sha key script parameters num_retries :
  length stack = 64%nat -> zlen script <= 2 ^ 32 - 64 ->
  (forall c, orderly st c -> orderly st (keep_sha (script_digest script) c)) ->
  preserves st (run_script (W := W) fuel stack shastr keep_sha key script parameters num_retries).
Proof.
  intros Hst Hl Hk. unfold run_script. case_bool_decide.
  { apply preserves_keeps. unfold evalsha, command. keep. }
  apply preserves_bind; [apply preserves_keeps, parameters_keeps|intros reply].
  rewrite (strsha1_spec bo stack script Hst Hl). apply preserves_must, preserves_bind.
  - by apply preserves_upd.
  - intros []. apply preserves_keeps, keeps_ret.
Qed.

Lemma preserves_once {A} st (attempt : CM W A) forget :
  preserves st attempt -> (forall c, orderly st c -> orderly st (forget c)) -> preserves st (once_more attempt forget).
Proof.
  intros Ha Hf s x s' E Ho. unfold once_more, catch in E.
  destruct (attempt s) as [[[y|y] s1]|] eqn:Ea; [injection E as <- <-; by eapply Ha| |done].
  assert (orderly st (s_client s1)) as H1 by by eapply Ha. revert E H1. generalize s1 as s2. clear -Ha Hf.
  intros s2. destruct (is_noscript_error _); [|by intros [= <- <-]].
  intros E H1. eapply (preserves_bind st (upd_client forget) (fun _ => attempt)); [by apply preserves_upd|done|exact E|done].
Qed.

Lemma keep_hincrby_orderly st c sha :
  sha = [] \/ sha = script_digest hincrby_script -> orderly st c -> orderly st (keep_hincrby sha c).
Proof.
  unfold orderly, digests_ok. generalize (script_digest hincrby_script), (script_digest hmincrby_once_script).
  intros d d'. destruct c; cbn. intuition.
Qed.
Lemma keep_hmincrby_orderly st c sha :
  sha = [] \/ sha = script_digest hmincrby_once_script -> orderly st c -> orderly st (keep_hmincrby sha c).
Proof.
  unfold orderly, digests_ok. generalize (script_digest hincrby_script), (script_digest hmincrby_once_script).
  intros d d'. destruct c; cbn. intuition.
Qed.


End leaves.

(** ** Replies come through *)

(** The tree [t] in a heap, as the reader of hiredis leaves it. *)
Lemma built_shows {fl : FloatLib} (t : reply) (h : heap) :
  shows (fun l => h_cells (h_add t h) !! l) (root_cell (h_next h) t) t.
Proof.
  exists (h_next h). split; [done|]. intros l c Hc. cbn [h_add h_cells]. by rewrite lookup_union, Hc, union_Some_l.
Qed.

(** C21: A reply that lists values, fields and values, entries or streams, as
    the reader builds it anywhere in the heap, is decoded as what it lists:
    nil as an empty string, the last value of a field, every entry with its
    pairs, whatever the result held before. *)
Theorem replies_decoded (fl : FloatLib) (bld : Build) (h : heap) values pairs entries streams old_entries old_streams :
  zlen (values : list (option bytes)) <= INT_MAX -> zlen (pairs : list (bytes * bytes)) <= INT_MAX ->
  zlen entries <= INT_MAX -> zlen streams <= INT_MAX ->
  let rd t l := h_cells (h_add t h) !! l in
  let root t := root_cell (h_next h) t in
  (let t := array (value_tree <$> values) in
   get_values (rd t) (root t) = Some (zlen values, default [] <$> values)) /\
  (let t := array (pair_trees pairs) in
   get_values_map (rd t) (root t) = Some (zlen pairs, foldl (fun m x => <[x.1 := x.2]> m) ∅ pairs)) /\
  (let t := array (entry_tree <$> entries) in
   get_values_entries (rd t) (root t) old_entries = Some (zlen entries, entries)) /\
  (let t := array (stream_tree <$> streams) in
   get_values_streams (rd t) (root t) old_streams = Some (zlen streams, streams)).
Proof.
  intros Hv Hp He Hs. cbv beta zeta. split_and!.
  - rewrite (get_values_tree _ _ values (built_shows _ h)). rewrite s32_small; [done|zlia].
  - rewrite (get_values_map_tree _ _ pairs (built_shows _ h)). rewrite s32_small; [done|zlia].
  - rewrite (get_values_entries_tree _ _ entries _ (built_shows _ h)). rewrite s32_small; [done|zlia].
  - rewrite (get_values_streams_tree _ _ streams _ (built_shows _ h)). rewrite s32_small; [done|zlia].
Qed.

(** ** Examples *)

#[local] Existing Instances digits_lib lp64 front release_build toy toy_reliable.

Definition example_stream : Stream :=
  MkStream (bs "log") [Entry (bs "1-0") [FV (bs "user") (bs "ann"); FV (bs "code") []]; Entry (bs "2-0") []].

Lemma replies_decoded_witness :
  let h := Heap ∅ 5 in
  let t := array (stream_tree <$> [example_stream]) in
  get_values_streams (fun l => h_cells (h_add t h) !! l) (root_cell 5 t) [] = Some (1, [example_stream]).
Proof.
  apply (replies_decoded digits_lib release_build (Heap ∅ 5) [] [] [] [example_stream] [] []); vm_compute; discriminate.
Defined.


Definition stack_bytes : bytes := replicate 64 NUL.
Definition incremented : cstate mock :=
  match hincrby_once (bo := true) 4 stack_bytes (bs "k") (bs "f") 1 (bs "u") 60 0 2 started with
  | Some (_, s) => s
  | None => started
  end.

