(* ===== verification/StackTheorems.v ===== *)
(** * The whole stack

    A command of the cluster client, over the model of hiredis, over a
    connection to a server: the words, the bytes, the reply and the value. *)

From Stdlib Require Import Strings.Byte String.
From stdpp Require Import gmap.
From S2P Require Import Prelude CLib Buffer Sds Read Parser ReaderRefines Replies Session Reply Tree Resp.
From S2P Require Import ReplyRefines Streams.
From S2P Require Import Printf Concrete Format FormatFacts Network Net Context Transport Pipeline Simulation.
From S2P Require Import ContextTheorems Slots StdString ClusterText ClusterNodes Driver RedisClient.
From S2P Require Import HiredisDriver ClientFacts RouteTheorems Decoders Commands CommandFacts.
From S2P Require Import CommandTheorems.
From S2P Require Import HiredisDriver ClientTheorems.

Section stack.
Context {al : Allocator} {dm : DataModel} {fl : FloatLib} {pd : PrintfDouble} {N : Type} {nw : Network N} {clk : Clock N}.

Lemma built_root (t : reply) (h : heap) : h_cells (h_add t h) !! h_next h = Some (root_cell (h_next h) t).
Proof.
  cbn [h_add h_cells]. rewrite lookup_union.
  assert (cells (h_next h) t !! h_next h = Some (root_cell (h_next h) t)) as ->
    by (destruct t; simpl; apply lookup_insert_eq).
  apply union_Some_l.
Qed.

(** A command on a connection to a server that answers it, as the client sees
    it through the driver. *)
Lemma driver_answered answer fd (peer : Peer N answer fd) hf key words c ctx t (w : hiredis N) :
  alloc_total al -> strtod_bounded -> LP64 -> zlen (resp_command words) < INT_MAX ->
  hw_contexts w !! c = Some ctx -> connected_to peer (ctx, hw_env w) ->
  answer (delivered (e_net (hw_env w)) ++ resp_command words)
    = answer (delivered (e_net (hw_env w))) ++ encode t ->
  wf_reply 8 t -> zlen (encode t) <= INT_MAX ->
  (length (resp_command words) + length (encode t) + delays (e_net (hw_env w)) < hf)%nat ->
  let l := h_next (e_heap (hw_env w)) in
  exists w', hi_command_argv (Driver := hiredis_driver hf) c (a_argc (ready key words)) (a_argv (ready key words))
      (a_argvlen (ready key words)) w = Some (Some l, w') /\
    e_heap (hw_env w') = h_add t (e_heap (hw_env w)) /\
    delivered (e_net (hw_env w')) = delivered (e_net (hw_env w)) ++ resp_command words /\
    hi_cell (Driver := hiredis_driver hf) l w' = Some (root_cell l t).
Proof.
  intros Hal Hst Hlp Hl Hc Hp Ha Hw Ht Hf l.
  destruct (command_answered_spec peer Hal Hst Hlp hf _ _ _ t (ctx, hw_env w) Hp (ready_texts key words) Hl
    (conj Ha (conj Hw (conj Ht Hf)))) as ([ctx' e'] & E & _ & Eh & Ed & _).
  exists (Hiredis (<[c := ctx']> (hw_contexts w)) (hw_next w) e'). split; [|split; [exact Eh|split; [exact Ed|]]].
  - cbn [hi_command_argv hiredis_driver]. unfold on_context. rewrite Hc. cbn [mbind option_bind].
    change (a_argc (ready key words)) with (zlen words). rewrite E. reflexivity.
  - cbn [hi_cell hiredis_driver hw_env]. cbn [fst snd] in Eh. rewrite Eh.
    apply built_root.
Qed.

(** C1: In a cluster, with the master of the slot of the key connected, a
    command that is not for a replica travels through the whole stack: the server
    gets the RESP array of the words and no more, its answer is read, decoded
    and freed, and the value of the answer is returned; of the client only the
    errors counted for that node change. *)
Theorem stack_answered {um : UnorderedMap} {bld : Build} {A} answer fd (peer : Peer N answer fd)
    hf k readonly num_retries key name l (d : decoder A) x n m c ctx t (s : cstate (hiredis N)) :
  alloc_total al -> strtod_bounded -> LP64 ->
  cluster_mode (s_client s) = true -> key <> [] -> zlen key <= INT_MAX ->
  zget (c_slot2node (s_client s)) (key_slot key) = Some n ->
  um_find n (c_masters (s_client s)) = Some m -> nd_context (m_self m) = Some c ->
  hw_contexts (s_world s) !! c = Some ctx -> connected_to peer (ctx, hw_env (s_world s)) ->
  Forall arg_ok l -> zlen (resp_command (words_of name l)) < INT_MAX ->
  answer (delivered (e_net (hw_env (s_world s))) ++ resp_command (words_of name l))
    = answer (delivered (e_net (hw_env (s_world s)))) ++ encode t ->
  wf_reply 8 t -> zlen (encode t) <= INT_MAX -> rp_type (root_cell 0 t) <> REDIS_REPLY_ERROR ->
  (length (resp_command (words_of name l)) + length (encode t) + delays (e_net (hw_env (s_world s))) < hf)%nat ->
  readonly = false \/ c_read_policy (s_client s) = RP_ONLY_MASTER ->
  (forall rd r, shows rd r t -> d rd r = Some x) ->
  yields (call (drv := hiredis_driver hf) (S k) readonly num_retries key (build (Some key) name l) d) s
    (fun y s' => y = x /\ s_client s' = change_node (RMaster n) reset_conn_errors (s_client s) /\
      h_cells (e_heap (hw_env (s_world s'))) = h_cells (e_heap (hw_env (s_world s))) /\
      delivered (e_net (hw_env (s_world s')))
        = delivered (e_net (hw_env (s_world s))) ++ resp_command (words_of name l)).
Proof.
  intros Hal Hst Hlp Hmode Hk Hkl Hslot Hm Hnc Hctx Hp Hl Hlen Ha Hw Ht Hty Hf Hro Hd.
  pose proof (command_longer (words_of name l)).
  destruct (driver_answered answer fd peer hf (Some key) (words_of name l) c ctx t (s_world s))
    as (w' & E & Eh & Ed & Ec); [done..|].
  unfold call, command. rewrite build_ready by (done || lia). crun. crun. eapply yields_must; [done|].
  eapply yields_mono; [eapply (command_direct_run (drv := hiredis_driver hf)); [done..|exact E|exact Ec| |exact Hro]|].
  { by destruct t. }
  intros o s1 (-> & Es & _ & <- & _). unfold decode. crun. eapply yields_must; [done|].
  crun. eapply yields_observe; [exact Ec|]. crun. eapply yields_observe.
  { apply Hd. cbn [hi_cell hiredis_driver]. rewrite Eh. apply built_shows. }
  crun. cbn [free_helper]. eapply yields_drive_.
  { cbn [hi_free_reply hiredis_driver]. unfold free_reply_at. rewrite Eh.
    rewrite freeReplyObject_tree; [reflexivity|by eapply wf_typed|apply Hp]. }
  crun. cbn [s_client s_world hw_env e_heap e_net h_cells]. done.
Qed.

End stack.

(** ** Example *)

#[local] Existing Instances digits_lib lp64 always_alloc plain_double front_table release_build.

#[local] Instance example_sim : Network sim := sim_net example_server.
#[local] Instance still : Clock sim := {|
  clock_time n := (0, n); clock_sleep _ n := n; clock_twister z := z
|}.

(** A client of two masters, the first, connected, with all the slots. *)
Definition example_client (ctx : redisContext) (a : nat) : cstate (hiredis sim) :=
  CState (Client false (bs "a:7000,b:7001") [] 0 0 [] RP_ONLY_MASTER
            [(node_a, new_master (bs "a1") node_a (Some 0%nat))] ∅ [node_a; node_b]
            (replicate 16384 node_a) [] [])
    no_error ([], 0) [] (Hiredis {[0%nat := ctx]} 1 (Env a (Heap ∅ 0) example_net)).

Lemma stack_answered_witness :
  exists ctx a, yields (get (drv := hiredis_driver 100) 1 (bs "key") [] 2) (example_client ctx a)
    (fun y s' => y = (true, bs "the value") /\
      s_client s' = change_node (RMaster node_a) reset_conn_errors (s_client (example_client ctx a)) /\
      h_cells (e_heap (hw_env (s_world s'))) = ∅ /\
      m_sent (e_net (hw_env (s_world s'))) = resp_command example_get).
Proof.
  destruct (example_connected (fl := digits_lib)) as (ctx & a & _ & Hc). exists ctx, a.
  apply (stack_answered example_server 7 (sim_peer example_server 7) 100 0 true 2 (bs "key") (bs "GET")
    [Str (bs "key")] (reply_value []) (true, bs "the value") node_a (new_master (bs "a1") node_a (Some 0%nat)) 0
    ctx (str_tree (bs "the value")) (example_client ctx a)).
  - exact always_total.
  - exact digits_bounded.
  - reflexivity.
  - reflexivity.
  - discriminate.
  - vm_compute. discriminate.
  - vm_compute. reflexivity.
  - vm_compute. reflexivity.
  - reflexivity.
  - apply lookup_insert_eq.
  - exact Hc.
  - repeat constructor.
  - vm_compute. reflexivity.
  - vm_compute. reflexivity.
  - repeat constructor; simpl; vm_compute; discriminate.
  - vm_compute. discriminate.
  - discriminate.
  - vm_compute. lia.
  - right. reflexivity.
  - intros rd r Hr. unfold reply_value, or_nil. rewrite (shows_type rd r _ Hr).
    change (REDIS_REPLY_STRING =? REDIS_REPLY_NIL) with false. cbv iota.
    pose proof (get_value_tree rd r (Some (bs "the value")) Hr) as ->. destruct Hr as (lo & -> & _). reflexivity.
Defined.
