(* ===== verification/RedisConn.v ===== *)
(** * A client of one connection (RedisCpp-hiredis/src/CRedisConn.h)

    [CRedisConn] holds a context of hiredis, and its methods format a command,
    take the reply and free it.  A method returns whether it succeeded and what
    it leaves in its last argument, and the reason of a failure is kept in
    [_errStr]. *)

From Stdlib Require Import Strings.Byte String.
From stdpp Require Import gmap.
From S2P Require Import Prelude CLib Buffer Sds SdsFmt Read Parser ReaderRefines Replies Session Reply Tree Resp.
From S2P Require Import ReplyRefines Streams Printf Concrete Format FormatFacts Network Net Context Transport Pipeline.
From S2P Require Import Simulation ContextTheorems Slots StdString ClusterText ClusterNodes Driver HiredisDriver.
From S2P Require Import ClientFacts MockDriver ClientTheorems Decoders CommandFacts CommandTheorems StackTheorems.

(** [redisvCommand], beside the calls of [Driver]. *)
Class FormatDriver {fl : FloatLib} (W : Type) := {
  format_driver :: Driver W;
  hi_vcommand : nat -> bytes -> list vaarg -> W -> option (option nat * W)
}.

Definition ERR_NO_ERROR := bs "No error.".
Definition ERR_NULL := bs "NULL pointer ".
Definition ERR_NO_CONNECT := bs "No connection to the redis server.".
Definition ERR_NO_PIVOT := bs "Inser Error,pivot not found.".
Definition ERR_NO_KEY := bs "key not found".
Definition ERR_NO_FIELD := bs "hash field not found".
Definition ERR_INDEX := bs "error index".
Definition either (a b : bytes) : bytes := a ++ bs " or " ++ b.

Inductive INSERT_POS := BEFORE | AFTER.

Record CRedisConn := MkConn {
  _redCtx : option nat;
  _host : bytes;
  _port : Z;
  _password : bytes;
  _timeout : Z;
  _connected : bool;
  _errStr : bytes
}.

Definition new_conn : CRedisConn := MkConn None [] 0 [] 0 false ERR_NO_ERROR.
Definition init (host : bytes) (port : Z) (password : bytes) (timeout : Z) (c : CRedisConn) : CRedisConn :=
  MkConn (_redCtx c) host port password timeout (_connected c) (_errStr c).

(** ** Computations *)

(** [None]: a null pointer is followed, or another access that is not defined. *)
Definition RM (W A : Type) : Type := CRedisConn * W -> option (A * (CRedisConn * W)).
#[global] Instance rm_ret W : MRet (RM W) := fun A x s => Some (x, s).
#[global] Instance rm_bind W : MBind (RM W) := fun A B k m s => match m s with Some (x, s) => k x s | None => None end.

(** What a method makes of a reply, whose elements are read by the function:
    success, its last argument, and the reason of a failure. *)
Definition conn_decoder {fl : FloatLib} (A : Type) : Type := (nat -> option redisReply) -> redisReply -> A -> option (bool * A * option bytes).

Section conn.
Context {dm : DataModel} {fl : FloatLib} {W : Type} {drv : FormatDriver W}.

#[local] Abbreviation R := (RM W).

Definition self : R CRedisConn := fun s => Some (s.1, s).
Definition set_self (f : CRedisConn -> CRedisConn) : R unit := fun s => Some (tt, (f s.1, s.2)).
Definition call_driver {A} (f : W -> option (A * W)) : R A := fun s => r ← f s.2; Some (r.1, (s.1, r.2)).
Definition look {A} (f : W -> option A) : R A := fun s => x ← f s.2; Some (x, s).
Definition defined {A} (o : option A) : R A := fun s => x ← o; Some (x, s).

Definition set_context (p : option nat) (connected : bool) : R unit :=
  set_self (fun c => MkConn p (_host c) (_port c) (_password c) (_timeout c) connected (_errStr c)).
Definition set_password (password : bytes) : R unit :=
  set_self (fun c => MkConn (_redCtx c) (_host c) (_port c) password (_timeout c) (_connected c) (_errStr c)).
Definition set_errStr (e : bytes) : R unit :=
  set_self (fun c => MkConn (_redCtx c) (_host c) (_port c) (_password c) (_timeout c) (_connected c) e).

(** ** Errors *)

Definition getError_context (redCtx : option nat) : R bool :=
  _ ← set_errStr ERR_NO_ERROR;
  match redCtx with
  | None => _ ← set_errStr ERR_NULL; mret true
  | Some p =>
      e ← look (hi_error p);
      if negb (e.1 =? 0) then _ ← set_errStr (cstr e.2); mret true else mret false
  end.

(** The absence of a reply is not an error. *)
Definition getError_reply (reply : option nat) : R bool :=
  _ ← set_errStr ERR_NO_ERROR;
  match reply with
  | None => _ ← set_errStr ERR_NULL; mret false
  | Some l =>
      cell ← look (hi_cell l);
      if rp_type cell =? REDIS_REPLY_ERROR then
        str ← defined (ctext cell); _ ← set_errStr str; mret true
      else mret false
  end.

(** ** The connection *)

Definition free_pointer (p : option nat) (free : nat -> W -> option W) : R unit :=
  match p with Some p => call_driver (fun w => w ← free p w; Some (tt, w)) | None => mret tt end.

Definition disConnect : R unit :=
  c ← self;
  _ ← (if _connected c then free_pointer (_redCtx c) hi_free else mret tt);
  set_self (fun c => MkConn (if _connected c then None else _redCtx c) (_host c) (_port c) (_password c) (_timeout c)
    false (_errStr c)).

(** The password is not used. *)
Definition connect : R bool :=
  c ← self;
  _ ← (if _connected c then disConnect else mret tt);
  redCtx ← call_driver (hi_connect (cstr (_host c)) (_port c) (Some (Timeval (_timeout c) 0)));
  failed ← getError_context redCtx;
  if (failed : bool) then
    _ ← free_pointer redCtx hi_free; _ ← set_context None false; mret false
  else _ ← set_context redCtx true; mret true.
Definition connect_to (host : bytes) (port : Z) (password : bytes) (timeout : Z) : R bool :=
  _ ← set_self (init host port password timeout); connect.
Definition reconnect : R bool := connect.
Definition isConneced : R bool := c ← self; mret (_connected c).
Definition getErrorStr : R bytes := c ← self; mret (_errStr c).

(** [redisvCommand(NULL, ...)] follows the pointer. *)
Definition redisCmd (format : bytes) (ap : list vaarg) : R (option nat) :=
  c ← self; p ← defined (_redCtx c); call_driver (hi_vcommand p format ap).

(** Whether there is an error, after which the reply is freed. *)
Definition answered_well (format : bytes) (ap : list vaarg) : R bool :=
  reply ← redisCmd format ap;
  failed ← getError_reply reply;
  _ ← free_pointer reply hi_free_reply;
  mret (negb failed).

Definition auth (password : bytes) : R bool :=
  c ← self;
  if negb (_connected c) then _ ← set_errStr ERR_NO_CONNECT; mret false else
  _ ← set_password password;
  answered_well (bs "AUTH %s") [VaPtr (cstr password)].

Definition ping : R bool :=
  c ← self;
  if negb (_connected c) || negb (isSome (_redCtx c)) then _ ← set_errStr ERR_NO_CONNECT; mret false else
  answered_well (bs "PING") [].

(** ** Commands *)

(** The method of a command: [val] is the last argument, [val0] what it is set
    to before the command is sent. *)
Definition exchange {A} (format : bytes) (ap : list vaarg) (decode : conn_decoder A) (val val0 : A) : R (bool * A) :=
  c ← self;
  if negb (_connected c) || negb (isSome (_redCtx c)) then _ ← set_errStr ERR_NO_CONNECT; mret (false, val) else
  reply ← redisCmd format ap;
  failed ← getError_reply reply;
  x ← (if (failed : bool) then mret (false, val0) else
       l ← defined reply;
       cell ← look (hi_cell l);
       r ← look (fun w => decode (fun l => hi_cell l w) cell val0);
       _ ← (match r.2 with Some e => set_errStr e | None => mret tt end);
       mret r.1);
  _ ← free_pointer reply hi_free_reply;
  mret x.

(** What the methods make of a reply. *)
Definition the_integer (width : Z) : conn_decoder Z := fun _ reply _ => Some (true, uw width (rp_integer reply), None).
Definition popped : conn_decoder bytes := fun _ reply _ =>
  match rp_str reply with None => Some (false, [], Some ERR_NO_KEY) | Some str => Some (true, cstr str, None) end.
Definition string_or_nil (on_nil : bytes -> bytes) (e : bytes) : conn_decoder bytes := fun _ reply value =>
  if is_nil reply then Some (false, on_nil value, Some e) else str ← ctext reply; Some (true, str, None).

Definition getArryToList (rd : nat -> option redisReply) (reply : redisReply) (valueList : list bytes) : option (list bytes) :=
  l ← elements_of 1 reply (fun i => e ← element_at rd reply i; ctext e); Some (valueList ++ l).
(** [insert] leaves a field that is there as it is. *)
Definition insert_pair (m : gmap bytes bytes) (p : bytes * bytes) : gmap bytes bytes :=
  match m !! p.1 with Some _ => m | None => <[p.1 := p.2]> m end.
Definition getArryToMap (rd : nat -> option redisReply) (reply : redisReply) (valueMap : gmap bytes bytes) :
    option (gmap bytes bytes) :=
  l ← elements_of 2 reply (fun i =>
        f ← element_at rd reply i; f ← ctext f; v ← element_at rd reply (i + 1); v ← ctext v; Some (f, v));
  Some (foldl insert_pair valueMap l).

Definition is_empty_array (reply : redisReply) : bool := (rp_type reply =? REDIS_REPLY_ARRAY) && (rp_elements reply =? 0).

Definition lpush (key value : bytes) (retval : Z) :=
  exchange (bs "LPUSH %s %s") [VaPtr (cstr key); VaPtr (cstr value)] (the_integer 64) retval 0.
Definition lpop (key value : bytes) := exchange (bs "LPOP %s") [VaPtr (cstr key)] popped value value.
Definition lrange (key : bytes) (start stop : Z) (valueList : list bytes) :=
  exchange (bs "LRANGE %s %d %d") [VaPtr (cstr key); VaInt start; VaInt stop] (fun rd reply valueList =>
    if is_empty_array reply then Some (false, valueList, Some (either ERR_INDEX ERR_NO_KEY))
    else l ← getArryToList rd reply valueList; Some (true, l, None)) valueList valueList.
Definition rpush (key value : bytes) (retval : Z) :=
  exchange (bs "RPUSH %s %s") [VaPtr (cstr key); VaPtr (cstr value)] (the_integer 64) retval 0.
Definition rpop (key value : bytes) := exchange (bs "RPOP %s") [VaPtr (cstr key)] popped value value.
Definition linsert (key : bytes) (position : INSERT_POS) (pivot value : bytes) (retval : Z) :=
  let pos := match position with BEFORE => bs "BEFORE" | AFTER => bs "AFTER" end in
  exchange (bs "LINSERT %s %s %s %s") [VaPtr (cstr key); VaPtr pos; VaPtr (cstr pivot); VaPtr (cstr value)]
    (fun _ reply retval =>
      if rp_type reply =? REDIS_REPLY_INTEGER then
        if rp_integer reply =? -1 then Some (false, retval, Some ERR_NO_PIVOT) else
        if rp_integer reply =? 0 then Some (false, retval, Some ERR_NO_KEY) else Some (true, rp_integer reply, None)
      else Some (false, retval, None)) retval retval.
Definition lindex (key : bytes) (index : Z) (value : bytes) :=
  exchange (bs "LINDEX %s %d") [VaPtr (cstr key); VaInt index]
    (string_or_nil (fun _ => []) (either ERR_NO_KEY ERR_INDEX)) value value.
Definition llen (key : bytes) (retval : Z) :=
  exchange (bs "LLEN %s") [VaPtr (cstr key)] (fun _ reply retval =>
    if (rp_type reply =? REDIS_REPLY_INTEGER) && (rp_integer reply =? 0) then Some (false, retval, Some ERR_NO_KEY)
    else Some (true, u64 (rp_integer reply), None)) retval retval.

Definition get (key value : bytes) :=
  exchange (bs "GET %s") [VaPtr (cstr key)] (string_or_nil id (either ERR_NO_KEY ERR_NO_FIELD)) value value.
Definition set (key value : bytes) (retval : Z) :=
  exchange (bs "SET %s %s") [VaPtr (cstr key); VaPtr (cstr value)] (the_integer 32) retval retval.
Definition del (key : bytes) (retval : Z) := exchange (bs "DEL %s") [VaPtr (cstr key)] (the_integer 32) retval retval.

Definition hget (key filed value : bytes) :=
  exchange (bs "HGET %s %s") [VaPtr (cstr key); VaPtr (cstr filed)]
    (string_or_nil id (either ERR_NO_KEY ERR_NO_FIELD)) value value.
Definition hset (key filed value : bytes) (retval : Z) :=
  exchange (bs "HSET %s %s %s") [VaPtr (cstr key); VaPtr (cstr filed); VaPtr (cstr value)] (the_integer 32) retval retval.
(** An argument that the format does not name is passed too. *)
Definition hdel (key filed : bytes) (retval : Z) :=
  exchange (bs "HDEL %s %s") [VaPtr (cstr key); VaPtr (cstr filed); VaInt retval] (fun _ reply retval =>
    if (rp_type reply =? REDIS_REPLY_INTEGER) && (rp_integer reply =? 0)
    then Some (false, retval, Some (either ERR_NO_KEY ERR_NO_FIELD))
    else Some (true, u32 (rp_integer reply), None)) retval retval.
Definition hgetall (key : bytes) (valueMap : gmap bytes bytes) :=
  exchange (bs "HGETALL %s") [VaPtr (cstr key)] (fun rd reply valueMap =>
    if is_empty_array reply then Some (false, valueMap, Some ERR_NO_KEY)
    else m ← getArryToMap rd reply valueMap; Some (true, m, None)) valueMap valueMap.

End conn.

(** ** What a method does *)

Section methods.
Context {dm : DataModel} {fl : FloatLib} {W : Type} {drv : FormatDriver W}.
Implicit Types (s : CRedisConn * W).

Definition with_errStr (e : bytes) (c : CRedisConn) : CRedisConn :=
  MkConn (_redCtx c) (_host c) (_port c) (_password c) (_timeout c) (_connected c) e.

(** A client is connected when it has a context. *)
Definition conn_ok (c : CRedisConn) : Prop := _connected c = isSome (_redCtx c).

(** What a reply comes to: an error, or what the method makes of it. *)
Definition method_outcome {A} (decode : conn_decoder A) (rd : nat -> option redisReply) (cell : redisReply) (val0 : A) :
    option (bool * A * bytes) :=
  if rp_type cell =? REDIS_REPLY_ERROR then str ← ctext cell; Some (false, val0, str)
  else r ← decode rd cell val0; Some (r.1, default ERR_NO_ERROR r.2).

Lemma exchange_closed {A} format ap (decode : conn_decoder A) val val0 s : conn_ok s.1 -> _redCtx s.1 = None ->
  exchange format ap decode val val0 s = Some ((false, val), (with_errStr ERR_NO_CONNECT s.1, s.2)).
Proof.
  destruct s as [c w]. unfold conn_ok. cbn [fst snd]. intros Hc Ep. rewrite Ep in Hc. unfold exchange, mbind, rm_bind, self.
  cbn [fst snd]. by rewrite Hc.
Qed.

(** No reply: the pointer is followed all the same. *)
Lemma exchange_lost {A} format ap (decode : conn_decoder A) val val0 s p w' : conn_ok s.1 -> _redCtx s.1 = Some p ->
  hi_vcommand p format ap s.2 = Some (None, w') -> exchange format ap decode val val0 s = None.
Proof.
  destruct s as [c w]. unfold conn_ok. cbn [fst snd]. intros Hc Ep E. rewrite Ep in Hc. unfold exchange, mbind, rm_bind, self.
  cbn [fst snd]. rewrite Hc, Ep. cbn [isSome negb orb]. unfold redisCmd, mbind, rm_bind, self, defined, call_driver. cbn [fst snd].
  rewrite Ep. cbn. by rewrite E.
Qed.

Lemma exchange_reply {A} format ap (decode : conn_decoder A) val val0 s p l w' cell :
  conn_ok s.1 -> _redCtx s.1 = Some p -> hi_vcommand p format ap s.2 = Some (Some l, w') -> hi_cell l w' = Some cell ->
  exchange format ap decode val val0 s =
    (x ← method_outcome decode (fun l => hi_cell l w') cell val0;
     w'' ← hi_free_reply l w'; Some (x.1, (with_errStr x.2 s.1, w''))).
Proof.
  destruct s as [c w]. unfold conn_ok. cbn [fst snd]. intros Hc Ep E Ec. rewrite Ep in Hc.
  unfold exchange, mbind, rm_bind, self. cbn [fst snd]. rewrite Hc, Ep. cbn [isSome negb orb].
  unfold redisCmd, mbind, rm_bind, self, defined, call_driver. cbn [fst snd]. rewrite Ep. cbn [mbind option_bind fst snd].
  rewrite E. cbn [mbind option_bind fst snd]. unfold method_outcome.
  unfold getError_reply, set_errStr, set_self, mbind, rm_bind, look, defined. cbn [fst snd]. rewrite Ec.
  cbn [mbind option_bind fst snd]. destruct (rp_type cell =? REDIS_REPLY_ERROR).
  - destruct (ctext cell) as [str|]; [|done]. cbn [mbind option_bind fst snd].
    unfold free_pointer, call_driver. cbn. by destruct (hi_free_reply l w').
  - unfold mret, rm_ret. cbn [mbind option_bind fst snd]. rewrite Ec. cbn [mbind option_bind fst snd].
    destruct (decode _ cell val0) as [[[b' y'] e']|] eqn:Ed; [|done]. cbn [mbind option_bind fst snd].
    destruct e' as [e'|]; cbn; unfold free_pointer, call_driver; cbn; by destruct (hi_free_reply l w').
Qed.

End methods.

(** ** The connection *)

Section connection.
Context {dm : DataModel} {fl : FloatLib} {W : Type} {drv : FormatDriver W} {rel : Reliable W}.
Implicit Types (s : CRedisConn * W).

(** The connection of the client is open, and so are those of others. *)
Definition conn_books (L : gset nat) s : Prop :=
  conn_ok s.1 /\ live s.2 = list_to_set (option_list (_redCtx s.1)) ∪ L /\
  forall p, _redCtx s.1 = Some p -> p ∉ L.


Lemma disConnect_run L c w : conn_books L (c, w) -> exists c' w', disConnect (c, w) = Some (tt, (c', w')) /\
  _redCtx c' = None /\ conn_books L (c', w') /\ live w' = L /\ replies w' = replies w.
Proof.
  intros (Hc & Hl & Hp). unfold conn_ok in Hc. cbn [fst snd] in *. unfold disConnect, mbind, rm_bind, self. cbn [fst snd].
  destruct (_redCtx c) as [p|] eqn:Ep; rewrite Hc; cbn [isSome].
  - destruct (free_law p w) as (w' & E & El & Er); [rewrite Hl; set_solver|]. unfold free_pointer, call_driver. cbn [fst snd].
    rewrite E. cbn. unfold set_self. cbn. rewrite Hc. eexists _, w'. split; [reflexivity|]. cbn.
    assert (live w' = L) as El' by (rewrite El, Hl; specialize (Hp p eq_refl); set_solver).
    split; [done|]. split; [|done]. split; [done|]. split; [|done]. cbn. rewrite El'. set_solver.
  - cbn. unfold set_self. cbn. rewrite Hc, Ep. eexists _, w. split; [reflexivity|]. cbn. assert (live w = L) as El by (rewrite Hl; set_solver).
    split; [done|]. split; [|done]. split; [done|]. split; [|done]. cbn. rewrite El. set_solver.
Qed.

Lemma conn_connect_run L s : conn_books L s -> exists b c' w', connect s = Some (b, (c', w')) /\
  conn_books L (c', w') /\ b = _connected c' /\ replies w' = replies s.2.
Proof.
  destruct s as [c w]. intros H. cbn [fst snd].
  assert (exists c1 w1, (if _connected c then disConnect else mret tt) (c, w) = Some (tt, (c1, w1)) /\
    live w1 = L /\ replies w1 = replies w) as (c1 & w1 & E1 & El1 & Er1).
  { destruct (_connected c) eqn:Hc.
    - destruct (disConnect_run L c w H) as (c' & w' & E & _ & _ & El & Er). by exists c', w'.
    - exists c, w. split; [done|]. destruct H as (Hok & Hl & _). unfold conn_ok in Hok. cbn [fst snd] in *.
      split; [|done]. rewrite Hl. destruct (_redCtx c); [by rewrite Hc in Hok|]. cbn. set_solver. }
  unfold connect. unfold mbind at 1, rm_bind at 1, self. cbn [fst snd]. unfold mbind at 1, rm_bind at 1. rewrite E1.
  unfold mbind, rm_bind, call_driver. cbn [fst snd].
  destruct (connect_law (cstr (_host c)) (_port c) (Some (Timeval (_timeout c) 0)) w1) as (r & w2 & E2 & Er2 & Hr).
  rewrite E2. cbn [mbind option_bind fst snd]. unfold getError_context, mbind, rm_bind, set_errStr, set_self. cbn [fst snd].
  destruct r as [p|].
  2: { cbn. eexists false, _, w2. split; [reflexivity|]. split; [|split; [done|congruence]].
       split_and!; [done| |done]. cbn. rewrite Hr, El1. set_solver. }
  destruct Hr as [Hp El2]. assert (p ∈ live w2) as Hin by (rewrite El2; set_solver).
  destruct (error_law p w2 Hin) as [e Ee]. unfold look. cbn [fst snd]. rewrite Ee. cbn [mbind option_bind fst snd].
  destruct (negb (e.1 =? 0)).
  - cbn. destruct (free_law p w2 Hin) as (w3 & E3 & El3 & Er3). unfold free_pointer, call_driver. cbn. rewrite E3. cbn.
    eexists false, _, w3. split; [reflexivity|]. split; [|split; [done|congruence]].
    split_and!; [done| |done]. cbn. rewrite El3, El2, El1. rewrite El1 in Hp. set_solver.
  - cbn. eexists true, _, w2. split; [reflexivity|]. split; [|split; [done|congruence]].
    split_and!; [done| |]; cbn; [rewrite El2, El1; set_solver|]. intros q [= <-]. by rewrite <- El1.
Qed.

(** [redisvCommand] on a valid format, as documented. *)
Class FormatReliable {pd : PrintfDouble} := vcommand_law p format ap words w :
  p ∈ live w -> command_args format ap = Some (words, true) ->
  exists r w', hi_vcommand p format ap w = Some (r, w') /\ live w' = live w /\
    match r with
    | Some l => l ∉ replies w /\ replies w' = {[l]} ∪ replies w
    | None => replies w' = replies w
    end.

Lemma exchange_run {pd : PrintfDouble} {frel : FormatReliable} {A} L format ap words (decode : conn_decoder A) val val0 s p :
  conn_books L s -> command_args format ap = Some (words, true) -> _redCtx s.1 = Some p ->
  exists r w', hi_vcommand p format ap s.2 = Some (r, w') /\
    match r with
    | None => exchange format ap decode val val0 s = None
    | Some l => exists cell, hi_cell l w' = Some cell /\
        match method_outcome decode (fun l => hi_cell l w') cell val0 with
        | None => exchange format ap decode val val0 s = None
        | Some (x, e) => exists w'', exchange format ap decode val val0 s = Some (x, (with_errStr e s.1, w'')) /\
            conn_books L (with_errStr e s.1, w'') /\ replies w'' = replies s.2
        end
    end.
Proof.
  destruct s as [c w]. cbn [fst snd]. intros (Hok & Hl & Hp) Ha Ep. cbn [fst snd] in *.
  destruct (vcommand_law p format ap words w) as (r & w' & E & El & Hr); [rewrite Hl, Ep; set_solver|done|].
  exists r, w'. split; [done|]. destruct r as [l|]; [|by apply (exchange_lost _ _ _ _ _ (c, w) p w')].
  destruct Hr as [Hnew Er]. destruct (cell_law l w' ltac:(rewrite Er; set_solver)) as (cell & Ec & _).
  exists cell. split; [done|]. pose proof (exchange_reply format ap decode val val0 (c, w) p l w' cell Hok Ep E Ec) as Ex.
  cbn [fst snd] in Ex. destruct (method_outcome _ _ cell val0) as [[x e]|]; [|done].
  destruct (free_reply_law l w' ltac:(rewrite Er; set_solver)) as (w'' & E' & El' & Er').
  exists w''. rewrite Ex. cbn [mbind option_bind fst snd]. rewrite E'. split; [done|]. split; [|rewrite Er', Er; set_solver].
  split; [done|]. cbn [fst snd _redCtx with_errStr]. by rewrite El', El.
Qed.

End connection.


(** ** The commands *)

Section meanings.
Context {dm : DataModel} {fl : FloatLib} {W : Type} {drv : FormatDriver W}.

(** Parts of a reply as a C string and as a number. *)
Definition tree_text (t : reply) : option bytes :=
  match t with RStr _ s | RDbl _ s => Some (cstr s) | _ => None end.
Definition tree_number (t : reply) : Z := match t with RInt v => v | RBool true => 1 | _ => 0 end.
Fixpoint tree_pairs (ts : list reply) : option (list (bytes * bytes)) :=
  match ts with
  | [] => Some []
  | a :: b :: ts => a ← tree_text a; b ← tree_text b; l ← tree_pairs ts; Some ((a, b) :: l)
  | [_] => None
  end.

(** Success, the last argument and the reason, for a reply that is not an error. *)
Abbreviation answer_of A := (reply -> option (bool * A * bytes)).

Definition a_number {A} (f : Z -> A) : answer_of A := fun t => Some (true, f (tree_number t), ERR_NO_ERROR).
Definition a_pop : answer_of bytes := fun t =>
  match tree_text t with Some s => Some (true, s, ERR_NO_ERROR) | None => Some (false, [], ERR_NO_KEY) end.
Definition a_value (on_nil e : bytes) : answer_of bytes := fun t =>
  match t with RNil => Some (false, on_nil, e) | _ => s ← tree_text t; Some (true, s, ERR_NO_ERROR) end.
(** An array is not empty. *)
Definition a_list {A} (old : A) (e : bytes) (f : list reply -> option A) : answer_of A := fun t =>
  match t with
  | RAgg ty _ ts =>
      if (ty =? REDIS_REPLY_ARRAY) && bool_decide (ts = []) then Some (false, old, e)
      else l ← f ts; Some (true, l, ERR_NO_ERROR)
  | _ => l ← f []; Some (true, l, ERR_NO_ERROR)
  end.
Definition a_count {A} (old : A) (e : bytes) (f : Z -> A) : answer_of A := fun t =>
  match t with RInt 0 => Some (false, old, e) | _ => a_number f t end.
Definition a_place (old : Z) : answer_of Z := fun t =>
  match t with
  | RInt v => if v =? -1 then Some (false, old, ERR_NO_PIVOT) else if v =? 0 then Some (false, old, ERR_NO_KEY)
              else Some (true, v, ERR_NO_ERROR)
  | _ => Some (false, old, ERR_NO_ERROR)
  end.

(** What the methods mean: the words of the command, the last argument after an
    error, and what another reply comes to. *)
Inductive means : forall {A}, RM W (bool * A) -> list bytes -> A -> answer_of A -> Prop :=
  | means_lpush key value n :
      means (lpush key value n) [bs "LPUSH"; cstr key; cstr value] 0 (a_number u64)
  | means_lpop key value : means (lpop key value) [bs "LPOP"; cstr key] value a_pop
  | means_lrange key start stop l :
      means (lrange key start stop l) [bs "LRANGE"; cstr key; dec (s32 start); dec (s32 stop)] l
        (a_list l (either ERR_INDEX ERR_NO_KEY) (fun ts => x ← mapM tree_text ts; Some (l ++ x)))
  | means_rpush key value n :
      means (rpush key value n) [bs "RPUSH"; cstr key; cstr value] 0 (a_number u64)
  | means_rpop key value : means (rpop key value) [bs "RPOP"; cstr key] value a_pop
  | means_linsert key position pivot value n :
      means (linsert key position pivot value n)
        [bs "LINSERT"; cstr key; match position with BEFORE => bs "BEFORE" | AFTER => bs "AFTER" end; cstr pivot; cstr value]
        n (a_place n)
  | means_lindex key index value :
      means (lindex key index value) [bs "LINDEX"; cstr key; dec (s32 index)] value
        (a_value [] (either ERR_NO_KEY ERR_INDEX))
  | means_llen key n : means (llen key n) [bs "LLEN"; cstr key] n (a_count n ERR_NO_KEY u64)
  | means_get key value :
      means (get key value) [bs "GET"; cstr key] value (a_value value (either ERR_NO_KEY ERR_NO_FIELD))
  | means_set key value n : means (set key value n) [bs "SET"; cstr key; cstr value] n (a_number u32)
  | means_del key n : means (del key n) [bs "DEL"; cstr key] n (a_number u32)
  | means_hget key field value :
      means (hget key field value) [bs "HGET"; cstr key; cstr field] value (a_value value (either ERR_NO_KEY ERR_NO_FIELD))
  | means_hset key field value n :
      means (hset key field value n) [bs "HSET"; cstr key; cstr field; cstr value] n (a_number u32)
  | means_hdel key field n :
      means (hdel key field n) [bs "HDEL"; cstr key; cstr field] n (a_count n (either ERR_NO_KEY ERR_NO_FIELD) u32)
  | means_hgetall key m :
      means (hgetall key m) [bs "HGETALL"; cstr key] m
        (a_list m ERR_NO_KEY (fun ts => x ← tree_pairs ts; Some (foldl insert_pair m x))).

Definition answer_of_reply {A} (val0 : A) (f : answer_of A) : answer_of A := fun t =>
  match t with
  | RStr ty s => if ty =? REDIS_REPLY_ERROR then Some (false, val0, cstr s) else f t
  | _ => f t
  end.

(** ** Decoding *)

Section reading.
Variable rd : nat -> option redisReply.

Lemma cstr_ended s : cstr (s ++ [NUL]) = cstr s.
Proof. induction s as [|b s IH]; simpl; [done|]. case_bool_decide; [done|]. by rewrite IH. Qed.

Lemma shows_ctext r t : shows rd r t -> ctext r = tree_text t.
Proof. intros (lo & -> & _). by destruct t; try done; unfold ctext; simpl; rewrite cstr_ended. Qed.

Lemma shows_number r t : shows rd r t -> rp_integer r = tree_number t.
Proof. intros (lo & -> & _). by destruct t as [| | | |[]|]. Qed.

Lemma elements_of_texts r ty ts l : shows rd r (RAgg ty (zlen ts) ts) -> mapM tree_text ts = Some l ->
  elements_of 1 r (fun i => e ← element_at rd r i; ctext e) = Some l.
Proof.
  intros Hr Hl%mapM_Some. destruct (shows_elements _ _ _ _ _ Hr) as [He _].
  apply elements_of_spec; [done|rewrite He; unfold zlen; apply Forall2_length in Hl; lia|].
  intros k x Hk. destruct (Forall2_lookup_r _ _ _ _ _ Hl Hk) as (t & Ht & Et). rewrite Z.mul_1_l.
  destruct (shows_element _ _ _ _ _ _ Hr Ht) as (r' & -> & Hr'). cbn [mbind option_bind]. by rewrite (shows_ctext _ _ Hr').
Qed.

Lemma tree_pairs_lookup ts l : tree_pairs ts = Some l -> zlen ts = 2 * zlen l /\
  forall k p, l !! k = Some p -> exists a b, ts !! (2 * k)%nat = Some a /\ ts !! (2 * k + 1)%nat = Some b /\
    tree_text a = Some p.1 /\ tree_text b = Some p.2.
Proof.
  revert l. induction ts as [ts IH] using (induction_ltof1 _ length). destruct ts as [|a [|b ts]]; intros l E; cbn [tree_pairs] in E; [..|].
  - by injection E as <-.
  - done.
  - destruct (tree_text a) as [ta|] eqn:Ea, (tree_text b) as [tb|] eqn:Eb; try done. cbn [mbind option_bind] in E.
    destruct (tree_pairs ts) as [l'|] eqn:El; [|done]. injection E as <-.
    destruct (IH ts ltac:(unfold ltof; simpl; lia) l' El) as [Hn Hl]. split; [rewrite !zlen_cons; lia|].
    intros [|k] p Hk; simplify_eq/=; [by exists a, b|]. destruct (Hl k p Hk) as (a' & b' & Ha & Hb & H). exists a', b'.
    rewrite <- Ha, <- Hb. split_and!; [|..|apply H|apply H].
    + by replace (k + S (k + 0))%nat with (S (2 * k)) by lia.
    + by replace (k + S (k + 0) + 1)%nat with (S (2 * k + 1)) by lia.
Qed.

Lemma elements_of_pair_texts r ty ts l : shows rd r (RAgg ty (zlen ts) ts) -> tree_pairs ts = Some l ->
  elements_of 2 r (fun i => f ← element_at rd r i; f ← ctext f; v ← element_at rd r (i + 1); v ← ctext v; Some (f, v))
    = Some l.
Proof.
  intros Hr [Hn Hl]%tree_pairs_lookup. destruct (shows_elements _ _ _ _ _ Hr) as [He _].
  apply elements_of_spec; [done|by rewrite He|].
  intros k [p q] Hk. destruct (Hl k _ Hk) as (a & b & Ha & Hb & Ea & Eb).
  destruct (shows_element _ _ _ _ _ _ Hr Ha) as (r1 & F1 & H1). destruct (shows_element _ _ _ _ _ _ Hr Hb) as (r2 & F2 & H2).
  replace (2 * Z.of_nat k) with (Z.of_nat (2 * k)) by lia. replace (Z.of_nat (2 * k) + 1) with (Z.of_nat (2 * k + 1)) by lia.
  rewrite F1, F2. cbn [mbind option_bind]. by rewrite (shows_ctext _ _ H1), (shows_ctext _ _ H2), Ea, Eb.
Qed.

(** A decoder does what a method means. *)
Definition decodes {A} (decode : conn_decoder A) (val0 : A) (f : answer_of A) : Prop :=
  forall r t b x e, wf_reply 8 t -> shows rd r t -> rp_type r <> REDIS_REPLY_ERROR -> f t = Some (b, x, e) ->
  exists e', decode rd r val0 = Some (b, x, e') /\ e = default ERR_NO_ERROR e'.

Lemma decodes_integer w f val0 : (forall v, f v = uw w v) -> decodes (the_integer w) val0 (a_number f).
Proof.
  intros Hf r t b x e _ Hr _ E. injection E as <- <- <-. exists None. unfold the_integer. by rewrite (shows_number _ _ Hr), Hf.
Qed.

Lemma shows_str r t : shows rd r t -> cstr <$> rp_str r = tree_text t.
Proof. intros Hr. rewrite <- (shows_ctext _ _ Hr). done. Qed.

Lemma decodes_popped val0 : decodes popped val0 a_pop.
Proof.
  intros r t b x e _ Hr _ E. unfold popped. pose proof (shows_str _ _ Hr) as Es. unfold a_pop in E. rewrite <- Es in E.
  destruct (rp_str r); injection E as <- <- <-; eauto.
Qed.

(** Only nil has the type of nil. *)
Lemma shows_nil r t : wf_reply 8 t -> shows rd r t -> is_nil r = match t with RNil => true | _ => false end.
Proof.
  intros Hw Hr. rewrite (shows_type _ _ _ Hr). destruct t as [ty s| | | | |ty n ts]; try done.
  - destruct Hw as [Hty _]. by destruct (Z.eqb_spec ty REDIS_REPLY_NIL) as [->|].
  - apply wf_agg in Hw as (? & _ & Hty & _). by destruct (Z.eqb_spec ty REDIS_REPLY_NIL) as [->|].
Qed.

Lemma decodes_value on_nil e0 val0 : decodes (string_or_nil on_nil e0) val0 (a_value (on_nil val0) e0).
Proof.
  intros r t b x e Hw Hr _ E. unfold string_or_nil. rewrite (shows_nil _ _ Hw Hr), (shows_ctext _ _ Hr).
  destruct t; try (injection E as <- <- <-; eauto); simpl in E |- *; simplify_eq; eauto.
Qed.

Lemma shows_integer_type r t : wf_reply 8 t -> shows rd r t ->
  rp_type r =? REDIS_REPLY_INTEGER = match t with RInt _ => true | _ => false end.
Proof.
  intros Hw (lo & -> & _). destruct t as [ty s| | | | |ty n ts]; try done; cbn [root_cell rp_type agg_cell].
  - destruct Hw as [Hty _]. by destruct (Z.eqb_spec ty REDIS_REPLY_INTEGER) as [->|].
  - apply wf_agg in Hw as (? & _ & Hty & _). by destruct (Z.eqb_spec ty REDIS_REPLY_INTEGER) as [->|].
Qed.

Lemma decodes_count w f e0 val0 : (forall v, f v = uw w v) ->
  decodes (fun _ reply retval => if (rp_type reply =? REDIS_REPLY_INTEGER) && (rp_integer reply =? 0)
    then Some (false, retval, Some e0) else Some (true, uw w (rp_integer reply), None)) val0 (a_count val0 e0 f).
Proof.
  intros Hf r t b x e Hw Hr _ E. rewrite (shows_integer_type _ _ Hw Hr), (shows_number _ _ Hr).
  destruct t as [|[]| | | |]; simpl in E |- *; injection E as <- <- <-; rewrite <- ?Hf; eauto.
Qed.

Lemma decodes_place val0 :
  decodes (fun _ reply retval =>
      if rp_type reply =? REDIS_REPLY_INTEGER then
        if rp_integer reply =? -1 then Some (false, retval, Some ERR_NO_PIVOT) else
        if rp_integer reply =? 0 then Some (false, retval, Some ERR_NO_KEY) else Some (true, rp_integer reply, None)
      else Some (false, retval, None)) val0 (a_place val0).
Proof.
  intros r t b x e Hw Hr _ E. rewrite (shows_integer_type _ _ Hw Hr), (shows_number _ _ Hr).
  destruct t; simpl in E |- *; repeat case_match; simplify_eq; eauto.
Qed.

(** The elements of an array, and nothing of another reply. *)
Lemma decodes_list {A} (old : A) e0 (get : redisReply -> A -> option A) (f : list reply -> option A) :
  (forall r, rp_elements r = 0 -> get r old = f []) ->
  (forall r ty ts x, shows rd r (RAgg ty (zlen ts) ts) -> f ts = Some x -> get r old = Some x) ->
  decodes (fun _ reply old =>
    if is_empty_array reply then Some (false, old, Some e0) else l ← get reply old; Some (true, l, None)) old (a_list old e0 f).
Proof.
  intros H0 Hget r t b x e Hw Hr _ E. unfold is_empty_array.
  destruct t as [ty s|v|d s| |c|ty n ts].
  6: { apply wf_agg in Hw as (_ & _ & _ & -> & _). destruct (shows_elements _ _ _ _ _ Hr) as [-> ->]. simpl in E.
       assert ((zlen ts =? 0) = bool_decide (ts = [])) as -> by (destruct ts; [done|]; rewrite zlen_cons;
         pose proof (zlen_nonneg ts); by rewrite (proj2 (Z.eqb_neq _ _)) by lia).
       destruct (_ && _); [injection E as <- <- <-; eauto|]. destruct (f ts) as [y|] eqn:Ey; [|done].
       rewrite (Hget _ _ _ _ Hr Ey). injection E as <- <- <-. eauto. }
  1: assert (rp_type r =? REDIS_REPLY_ARRAY = false) as ->
       by (destruct Hr as (lo & -> & _), Hw as [Hty _]; cbn [root_cell rp_type];
           by destruct (Z.eqb_spec ty REDIS_REPLY_ARRAY) as [->|]).
  2-5: assert (rp_type r =? REDIS_REPLY_ARRAY = false) as -> by (by destruct Hr as (lo & -> & _)).
  all: rewrite H0 by (by destruct Hr as (lo & -> & _)); simpl in E |- *; destruct (f []); [|done];
    injection E as <- <- <-; eauto.
Qed.

Lemma no_elements {A} step r (f : Z -> option A) : 0 < step -> rp_elements r = 0 -> elements_of step r f = Some [].
Proof. intros Hs Hr. apply elements_of_spec; [done|by rewrite Hr, Z.mul_0_r|done]. Qed.

Lemma decodes_texts old e0 : decodes (fun rd reply valueList =>
    if is_empty_array reply then Some (false, valueList, Some e0)
    else l ← getArryToList rd reply valueList; Some (true, l, None))
  old (a_list old e0 (fun ts => x ← mapM tree_text ts; Some (old ++ x))).
Proof.
  apply (decodes_list old e0 (getArryToList rd)); unfold getArryToList.
  - intros r Hr. by rewrite no_elements.
  - intros r ty ts x Hr E. destruct (mapM tree_text ts) as [l|] eqn:El; [|done]. by rewrite (elements_of_texts _ _ _ _ Hr El).
Qed.

Lemma decodes_pairs old e0 : decodes (fun rd reply valueMap =>
    if is_empty_array reply then Some (false, valueMap, Some e0)
    else m ← getArryToMap rd reply valueMap; Some (true, m, None))
  old (a_list old e0 (fun ts => x ← tree_pairs ts; Some (foldl insert_pair old x))).
Proof.
  apply (decodes_list old e0 (getArryToMap rd)); unfold getArryToMap.
  - intros r Hr. by rewrite no_elements.
  - intros r ty ts x Hr E. destruct (tree_pairs ts) as [l|] eqn:El; [|done]. by rewrite (elements_of_pair_texts _ _ _ _ Hr El).
Qed.

End reading.

(** ** Words *)

Definition lits (s : bytes) : list segment := Lit <$> s.
Definition arg_word (s : bytes) : list segment := [ArgS (cstr s)].

Lemma arg_text_word s : word_text (arg_word s) = cstr s.
Proof. apply app_nil_r. Qed.

(** A method is a command of such words, with others after those it needs, and
    a decoder that does what is meant. *)
Definition method_of {A} (m : RM W (bool * A)) words val0 (f : answer_of A) ws ap : Prop :=
  exists (decode : conn_decoder A) val, m = exchange (template_format ws) (template_args ws ++ ap) decode val val0 /\
    Forall word_ok ws /\ word_text <$> ws = words /\ forall rd, decodes rd decode val0 f.

Lemma lits_text s : word_text (lits s) = s.
Proof. unfold word_text, lits. induction s as [|b s IH]; [done|]. by rewrite !fmap_cons, concat_cons, IH. Qed.

Lemma arg_word_ok s : word_ok (arg_word s).
Proof. split; [done|]. repeat constructor. apply cstr_no_nul. Qed.

Lemma int_word_ok z : word_ok [ArgD z].
Proof. by repeat constructor. Qed.

(** Words that are concrete, a key or value, and a number. *)
Ltac words_ok := repeat first
  [apply List.Forall_cons | apply List.Forall_nil | apply arg_word_ok | apply int_word_ok | split; [discriminate|repeat constructor; discriminate]].

Ltac method ws ap :=
  exists ws, ap; eexists _, _; split; [reflexivity|split; [words_ok|split;
    [cbn [fmap list_fmap]; rewrite ?lits_text, ?arg_text_word; repeat f_equal; apply app_nil_r|intros rd]]].

Lemma means_method {A} (m : RM W (bool * A)) words val0 f : means m words val0 f -> exists ws ap, method_of m words val0 f ws ap.
Proof.
  destruct 1.
  - method [lits (bs "LPUSH"); arg_word key; arg_word value] (@nil vaarg). by apply decodes_integer.
  - method [lits (bs "LPOP"); arg_word key] (@nil vaarg). apply decodes_popped.
  - method [lits (bs "LRANGE"); arg_word key; [ArgD start]; [ArgD stop]] (@nil vaarg). apply decodes_texts.
  - method [lits (bs "RPUSH"); arg_word key; arg_word value] (@nil vaarg). by apply decodes_integer.
  - method [lits (bs "RPOP"); arg_word key] (@nil vaarg). apply decodes_popped.
  - destruct position.
    + method [lits (bs "LINSERT"); arg_word key; arg_word (bs "BEFORE"); arg_word pivot; arg_word value] (@nil vaarg). apply decodes_place.
    + method [lits (bs "LINSERT"); arg_word key; arg_word (bs "AFTER"); arg_word pivot; arg_word value] (@nil vaarg). apply decodes_place.
  - method [lits (bs "LINDEX"); arg_word key; [ArgD index]] (@nil vaarg). apply (decodes_value rd (fun _ => [])).
  - method [lits (bs "LLEN"); arg_word key] (@nil vaarg). by apply decodes_count.
  - method [lits (bs "GET"); arg_word key] (@nil vaarg). apply (decodes_value rd id).
  - method [lits (bs "SET"); arg_word key; arg_word value] (@nil vaarg). by apply decodes_integer.
  - method [lits (bs "DEL"); arg_word key] (@nil vaarg). by apply decodes_integer.
  - method [lits (bs "HGET"); arg_word key; arg_word field] (@nil vaarg). apply (decodes_value rd id).
  - method [lits (bs "HSET"); arg_word key; arg_word field; arg_word value] (@nil vaarg). by apply decodes_integer.
  - method [lits (bs "HDEL"); arg_word key; arg_word field] [VaInt n]. by apply decodes_count.
  - method [lits (bs "HGETALL"); arg_word key] (@nil vaarg). apply decodes_pairs.
Qed.

End meanings.

(** What is meant is what a method makes of the reply. *)
Lemma outcome_meant {fl : FloatLib} {A} rd r t b x e (decode : conn_decoder A) val0 f :
  wf_reply 8 t -> shows rd r t -> decodes rd decode val0 f -> answer_of_reply val0 f t = Some (b, x, e) ->
  method_outcome decode rd r val0 = Some (b, x, e).
Proof.
  intros Hw Hr Hd E. unfold method_outcome. destruct (Z.eqb_spec (rp_type r) REDIS_REPLY_ERROR) as [Hty|Hty].
  - rewrite (shows_ctext _ _ _ Hr). destruct Hr as (lo & -> & _). destruct t as [ty s|v|d s| |c|ty n ts]; try done.
    + simpl in Hty, E. subst ty. by injection E as <- <- <-.
    + apply wf_agg in Hw as (? & _ & Hag & _). simpl in Hty. by subst ty.
  - assert (f t = Some (b, x, e)) as Ef.
    { destruct t as [ty s| | | | |]; try done. simpl in E. destruct Hr as (lo & -> & _). simpl in Hty.
      by destruct (Z.eqb_spec ty REDIS_REPLY_ERROR). }
    destruct (Hd r t b x e Hw Hr Hty Ef) as (e' & -> & ->). done.
Qed.

(** ** Over hiredis *)

Section stack.
Context {al : Allocator} {dm : DataModel} {fl : FloatLib} {pd : PrintfDouble} {N : Type} {nw : Network N} {clk : Clock N}.

Definition hiredis_format_driver (fuel : nat) : FormatDriver (hiredis N) := {|
  format_driver := hiredis_driver fuel;
  hi_vcommand c format ap w := reply_of (on_context (redisvCommand fuel format ap) c w)
|}.

Lemma format_driver_answered answer fd (peer : Peer N answer fd) hf format ap words c ctx t (w : hiredis N) :
  alloc_total al -> strtod_bounded -> LP64 -> (forall l d, NUL ∉ fmt_double l d) ->
  command_args format ap = Some (words, true) -> zlen (resp_command words) < INT_MAX ->
  hw_contexts w !! c = Some ctx -> connected_to peer (ctx, hw_env w) ->
  replies_to peer (resp_command words) t hf (ctx, hw_env w) ->
  let l := h_next (e_heap (hw_env w)) in
  exists w', hi_vcommand (FormatDriver := hiredis_format_driver hf) c format ap w = Some (Some l, w') /\
    e_heap (hw_env w') = h_add t (e_heap (hw_env w)) /\
    delivered (e_net (hw_env w')) = delivered (e_net (hw_env w)) ++ resp_command words /\
    received (e_net (hw_env w')) = answer (delivered (e_net (hw_env w'))) /\
    h_cells (e_heap (hw_env w')) !! l = Some (root_cell l t).
Proof.
  intros Hal Hst Hlp Hd Ha Hl Hc Hp Hr l.
  destruct (vcommand_answered peer Hal Hst Hlp hf format ap words t (ctx, hw_env w) Hd Hp Ha Hl Hr)
    as ([ctx' e'] & E & _ & Eh & Ed & Erec).
  exists (Hiredis (<[c := ctx']> (hw_contexts w)) (hw_next w) e'). split; [|split_and!; [exact Eh|exact Ed|exact Erec|]].
  - cbn [hi_vcommand hiredis_format_driver]. unfold on_context. rewrite Hc. cbn [mbind option_bind]. rewrite E. reflexivity.
  - cbn [hw_env]. cbn [fst snd] in Eh. rewrite Eh. apply built_root.
Qed.


End stack.

(** ** The theorems *)

Section theorems.
Context {dm : DataModel} {fl : FloatLib} {W : Type} {drv : FormatDriver W}.
Implicit Types (s : CRedisConn * W).

(** C19: Connecting ends, whatever hiredis answers, and leaves at most one
    connection open: the one before is closed, one that failed too, the result
    tells whether the client is connected, and disconnecting afterwards closes
    what was opened. *)
Theorem conn_connects {rel : Reliable W} L s : conn_books L s ->
  exists b c w, connect s = Some (b, (c, w)) /\ conn_books L (c, w) /\ b = _connected c /\ replies w = replies s.2 /\
    exists c' w', disConnect (c, w) = Some (tt, (c', w')) /\ _connected c' = false /\ live w' = L /\
      replies w' = replies s.2.
Proof.
  intros H. destruct (conn_connect_run L s H) as (b & c & w & E & Hb & Eb & Er).
  exists b, c, w. do 4 (split; [done|]). destruct (disConnect_run L c w Hb) as (c' & w' & E' & Ep & Hb' & El & Er').
  exists c', w'. split; [done|]. split; [|split; [done|congruence]]. destruct Hb' as (Hok & _). unfold conn_ok in Hok.
  cbn [fst] in Hok. by rewrite Ep in Hok.
Qed.


(** A ping without a reply is reported as a success. *)
Lemma ping_lost s p w' : conn_ok s.1 -> _redCtx s.1 = Some p -> hi_vcommand p (bs "PING") [] s.2 = Some (None, w') ->
  ping s = Some (true, (with_errStr ERR_NULL s.1, w')).
Proof.
  destruct s as [c w]. unfold conn_ok. cbn [fst snd]. intros Hok Ep E. rewrite Ep in Hok.
  unfold ping, mbind, rm_bind, self. cbn [fst snd]. rewrite Hok, Ep. cbn [isSome negb orb].
  unfold answered_well, redisCmd, mbind, rm_bind, self, defined, call_driver. cbn [fst snd]. rewrite Ep.
  cbn [mbind option_bind fst snd]. by rewrite E.
Qed.

(** The password given to [connect] is never sent. *)
Lemma password_unused host port password password' timeout s :
  (fun r => (r.1, r.2.2)) <$> connect_to host port password timeout s
    = (fun r => (r.1, r.2.2)) <$> connect_to host port password' timeout s.
Proof.
  destruct s as [c w]. unfold connect_to, connect, disConnect, free_pointer, getError_context, call_driver, look, set_context,
    set_errStr, set_self, self, mbind, option_bind, rm_bind, mret, rm_ret, init. cbn.
  repeat (case_match; simplify_eq/=; try done).
Qed.

End theorems.

(** ** Examples *)

Section examples.

#[local] Existing Instances digits_lib lp64 always_alloc plain_double.
#[local] Instance example_sim : Network sim := sim_net example_server.
#[local] Instance still : Clock sim := {| clock_time n := (0, n); clock_sleep _ n := n; clock_twister z := z |}.

(** A server that knows one key. *)
Definition one_key (_ : nat) (words : list bytes) : Z * bytes :=
  if bool_decide (words = [bs "GET"; bs "key"]) then (REDIS_REPLY_STRING, bs "the value") else (REDIS_REPLY_STATUS, bs "OK").

#[local] Instance toy_format : FormatDriver mock := {|
  format_driver := mock_driver two_masters one_key;
  hi_vcommand c format ap w :=
    match command_args format ap with
    | Some (words, true) => on_live c w (reply_with (one_key c words) (mk_log w ++ [(c, words)]) w)
    | _ => None
    end
|}.
#[local] Instance toy_conn : Reliable mock := mock_reliable two_masters one_key two_masters_ok two_masters_text.
#[local] Instance toy_commands : FormatReliable.
Proof.
  intros p format ap words w Hp Ha. cbn [hi_vcommand toy_format]. rewrite Ha, on_live_yes by done.
  destruct (reply_with_spec (one_key p words) (mk_log w ++ [(p, words)]) w) as (l & w' & E & El & Hl & Er & _).
  exists (Some l), w'. by rewrite E.
Qed.

Definition unused : CRedisConn * mock := (init (bs "127.0.0.1") 6379 [] 5 new_conn, Mock ∅ ∅ []).

Lemma conn_connects_witness :
  exists b c w, connect unused = Some (b, (c, w)) /\ conn_books ∅ (c, w) /\ b = _connected c /\ replies w = ∅ /\
    exists c' w', disConnect (c, w) = Some (tt, (c', w')) /\ _connected c' = false /\ live w' = ∅ /\ replies w' = ∅.
Proof. apply (conn_connects (rel := toy_conn) ∅ unused). split_and!; done. Defined.

(** The commands on the way, and what comes back. *)
Lemma get_twice : (fun r => (r.1, mk_log r.2.2)) <$>
    (_ ← connect; a ← get (bs "key") (bs "old"); b ← set (bs "key") (bs "new") 7; mret (a, b) : RM mock _) unused
  = Some ((true, bs "the value"), (true, 0), [(1%nat, [bs "GET"; bs "key"]); (1%nat, [bs "SET"; bs "key"; bs "new"])]).
Proof. vm_compute. reflexivity. Qed.

Definition on_line : CRedisConn * mock :=
  (MkConn (Some 1%nat) (bs "127.0.0.1") 6379 [] 5 true ERR_NO_ERROR, Mock {[1%nat]} ∅ []).



End examples.
