(* ===== verification/Pool.v ===== *)
(** * The pooled client: commands, connections and servers (redis_client/src/RedisClient.cpp)

    [CRedisCommand] holds the arguments of a command and its reply,
    [CRedisConnection] a context of hiredis that is made again when it has been
    idle too long, and [CRedisServer] a queue of idle connections.  A pointer
    to a server is an address in the store of the state; a connection has one
    owner and is a value, and so is a command.

    A command that shares the memory of its arguments keeps pointers to them.
    Two commands of the program are given temporaries, which are gone when the
    command is sent; what their memory holds then is a parameter. *)

From Stdlib Require Import Strings.Byte String.
From stdpp Require Import gmap.
From S2P Require Import Prelude CLib Read Reply Network Slots StdString ClusterText ClusterNodes Driver Decoders.

Definition RC_RESULT_EOF := 5.
Definition RC_NO_EFFECT := 4.
Definition RC_OBJ_NOT_EXIST := 3.
Definition RC_OBJ_EXIST := 2.
Definition RC_PART_SUCCESS := 1.
Definition RC_SUCCESS := 0.
Definition RC_PARAM_ERR := -1.
Definition RC_REPLY_ERR := -2.
Definition RC_RQST_ERR := -3.
Definition RC_NO_RESOURCE := -4.
Definition RC_PIPELINE_ERR := -5.
Definition RC_NOT_SUPPORT := -6.
Definition RQST_RETRY_TIMES := 3.
Definition WAIT_RETRY_TIMES := 60.

(** ** What the client stands on *)

(** Pipelining, beside the calls of [Driver]: [redisAppendCommandArgv] and
    [redisGetReply], which leaves the pointer as it is when it fails. *)
Class PipeDriver {fl : FloatLib} (W : Type) := {
  pipe_driver :: Driver W;
  hi_append_argv : nat -> Z -> list bytes -> list Z -> W -> option (Z * W);
  hi_get_reply : nat -> W -> option ((Z * option nat) * W)
}.

(** Where [new] puts a server, given the addresses in use. *)
Class Allocation := {
  new_at : gset nat -> nat;
  new_at_fresh X : new_at X ∉ X
}.

(** The memory of a temporary after its life. *)
Class Temporaries := {
  stale : bytes -> bytes;
  stale_length b : zlen (stale b) = zlen b
}.

(** [stringstream << double]. *)
Class StreamDouble {fl : FloatLib} := double_text : double -> bytes.

(** ** Key slots *)

Definition crc16Table : list Z := [
   0x0000; 0x1021; 0x2042; 0x3063; 0x4084; 0x50a5; 0x60c6; 0x70e7;
   0x8108; 0x9129; 0xa14a; 0xb16b; 0xc18c; 0xd1ad; 0xe1ce; 0xf1ef;
   0x1231; 0x0210; 0x3273; 0x2252; 0x52b5; 0x4294; 0x72f7; 0x62d6;
   0x9339; 0x8318; 0xb37b; 0xa35a; 0xd3bd; 0xc39c; 0xf3ff; 0xe3de;
   0x2462; 0x3443; 0x0420; 0x1401; 0x64e6; 0x74c7; 0x44a4; 0x5485;
   0xa56a; 0xb54b; 0x8528; 0x9509; 0xe5ee; 0xf5cf; 0xc5ac; 0xd58d;
   0x3653; 0x2672; 0x1611; 0x0630; 0x76d7; 0x66f6; 0x5695; 0x46b4;
   0xb75b; 0xa77a; 0x9719; 0x8738; 0xf7df; 0xe7fe; 0xd79d; 0xc7bc;
   0x48c4; 0x58e5; 0x6886; 0x78a7; 0x0840; 0x1861; 0x2802; 0x3823;
   0xc9cc; 0xd9ed; 0xe98e; 0xf9af; 0x8948; 0x9969; 0xa90a; 0xb92b;
   0x5af5; 0x4ad4; 0x7ab7; 0x6a96; 0x1a71; 0x0a50; 0x3a33; 0x2a12;
   0xdbfd; 0xcbdc; 0xfbbf; 0xeb9e; 0x9b79; 0x8b58; 0xbb3b; 0xab1a;
   0x6ca6; 0x7c87; 0x4ce4; 0x5cc5; 0x2c22; 0x3c03; 0x0c60; 0x1c41;
   0xedae; 0xfd8f; 0xcdec; 0xddcd; 0xad2a; 0xbd0b; 0x8d68; 0x9d49;
   0x7e97; 0x6eb6; 0x5ed5; 0x4ef4; 0x3e13; 0x2e32; 0x1e51; 0x0e70;
   0xff9f; 0xefbe; 0xdfdd; 0xcffc; 0xbf1b; 0xaf3a; 0x9f59; 0x8f78;
   0x9188; 0x81a9; 0xb1ca; 0xa1eb; 0xd10c; 0xc12d; 0xf14e; 0xe16f;
   0x1080; 0x00a1; 0x30c2; 0x20e3; 0x5004; 0x4025; 0x7046; 0x6067;
   0x83b9; 0x9398; 0xa3fb; 0xb3da; 0xc33d; 0xd31c; 0xe37f; 0xf35e;
   0x02b1; 0x1290; 0x22f3; 0x32d2; 0x4235; 0x5214; 0x6277; 0x7256;
   0xb5ea; 0xa5cb; 0x95a8; 0x8589; 0xf56e; 0xe54f; 0xd52c; 0xc50d;
   0x34e2; 0x24c3; 0x14a0; 0x0481; 0x7466; 0x6447; 0x5424; 0x4405;
   0xa7db; 0xb7fa; 0x8799; 0x97b8; 0xe75f; 0xf77e; 0xc71d; 0xd73c;
   0x26d3; 0x36f2; 0x0691; 0x16b0; 0x6657; 0x7676; 0x4615; 0x5634;
   0xd94c; 0xc96d; 0xf90e; 0xe92f; 0x99c8; 0x89e9; 0xb98a; 0xa9ab;
   0x5844; 0x4865; 0x7806; 0x6827; 0x18c0; 0x08e1; 0x3882; 0x28a3;
   0xcb7d; 0xdb5c; 0xeb3f; 0xfb1e; 0x8bf9; 0x9bd8; 0xabbb; 0xbb9a;
   0x4a75; 0x5a54; 0x6a37; 0x7a16; 0x0af1; 0x1ad0; 0x2ab3; 0x3a92;
   0xfd2e; 0xed0f; 0xdd6c; 0xcd4d; 0xbdaa; 0xad8b; 0x9de8; 0x8dc9;
   0x7c26; 0x6c07; 0x5c64; 0x4c45; 0x3ca2; 0x2c83; 0x1ce0; 0x0cc1;
   0xef1f; 0xff3e; 0xcf5d; 0xdf7c; 0xaf9b; 0xbfba; 0x8fd9; 0x9ff8;
   0x6e17; 0x7e36; 0x4e55; 0x5e74; 0x2e93; 0x3eb2; 0x0ed1; 0x1ef0].

Fixpoint CRC16_loop (n : nat) (pszData : bytes) (nCrc : Z) : option Z :=
  match n, pszData with
  | O, _ => Some nCrc
  | S n, b :: pszData =>
      t ← zget crc16Table (Z.land (Z.lxor (Z.shiftr nCrc 8) (bZ b)) 0x00FF);
      CRC16_loop n pszData (u16 (Z.lxor (Z.shiftl nCrc 8) t))
  | S _, [] => None
  end.

(** [nLen] is an [int]. *)
Definition CRC16 (pszData : bytes) (nLen : Z) : option Z := CRC16_loop (Z.to_nat nLen) pszData 0.

Definition HASH_SLOT (strKey : bytes) : option Z :=
  let nKeyLen := zlen strKey in
  let slot data len := crc ← CRC16 data (s32 len); Some (Z.land crc 16383) in
  let nStart := Slots.scan Byte.x7b strKey in
  if nStart =? nKeyLen then slot strKey nKeyLen else
  let nEnd := nStart + 1 + Slots.scan Byte.x7d (zdrop (nStart + 1) strKey) in
  if (nEnd =? nKeyLen) || (nEnd =? nStart + 1) then slot strKey nKeyLen
  else slot (zdrop (nStart + 1) strKey) (nEnd - nStart - 1).

(** ** Data *)

Record SlotRegion := MkRegion {
  nStartSlot : Z;
  nEndSlot : Z;
  sr_strHost : bytes;
  sr_nPort : Z;
  pRedisServ : option nat
}.

Section command.
Context {fl : FloatLib}.

(** [funcConv(nRet, pReply)], called after [funcFetch], which follows the pointer. *)
Definition TFuncConvert : Type := Z -> redisReply -> option Z.

(** The arrays of pointers and of lengths; [None] is an entry not yet written. *)
Record CRedisCommand := MkCommand {
  m_strCmd : bytes;
  m_bShareMem : bool;
  m_nArgs : Z;
  m_nIdx : Z;
  m_pszArgs : list (option bytes);
  m_pnArgsLen : list (option Z);
  m_pReply : option nat;
  m_nSlot : Z;
  m_funcConv : TFuncConvert
}.

End command.

Record CRedisConnection := MkConnection {
  m_pContext : option nat;
  m_nUseTime : Z;
  m_pRedisServ : nat
}.

Record CRedisServer := MkServer {
  sv_strHost : bytes;
  sv_nPort : Z;
  m_nCliTimeout : Z;
  m_nSerTimeout : Z;
  sv_nConnNum : Z;
  m_queIdleConn : list CRedisConnection;
  m_vecHosts : list (bytes * Z)
}.

Record CRedisClient := MkClient {
  m_strHost : bytes;
  m_nPort : Z;
  m_nTimeout : Z;
  m_nConnNum : Z;
  m_bCluster : bool;
  m_bValid : bool;
  m_bExit : bool;
  m_vecSlot : list SlotRegion;
  m_vecRedisServ : list nat
}.

(** The thread that refreshes the tables: before its loop's test, in
    [m_condAny.wait], woken, or ended. *)
Inductive refresher := NoThread | AtTop | Waiting | Woken | Ended.
#[global] Instance refresher_eq_dec : EqDecision refresher.
Proof. solve_decision. Defined.

(** What happens where another thread may run: the turns of the loop of the
    refreshing thread and the spurious wakes of its wait, and whether a
    [try_lock_shared] that follows succeeds, which it need not. *)
Inductive tick := Turn | Wake.
Record slice := Slice { sl_ticks : list tick; sl_try : bool }.

Record pstate (W : Type) := PState {
  ps_client : CRedisClient;
  ps_servers : gmap nat CRedisServer;
  ps_thread : refresher;
  ps_slices : list slice;
  ps_world : W
}.
Arguments PState {W}. Arguments ps_client {W}. Arguments ps_servers {W}. Arguments ps_thread {W}.
Arguments ps_slices {W}. Arguments ps_world {W}.

(** ** Computations *)

(** [None]: an access that is not defined, or an exception of the library. *)
Definition PM (W A : Type) : Type := pstate W -> option (A * pstate W).

#[global] Instance pm_ret W : MRet (PM W) := fun A x s => Some (x, s).
#[global] Instance pm_bind W : MBind (PM W) := fun A B k m s =>
  match m s with Some (x, s) => k x s | None => None end.

Section monad.
Context {fl : FloatLib} {W : Type} {drv : PipeDriver W}.

Definition valid {A} (m : option A) : PM W A := fun s => x ← m; Some (x, s).
Definition client {A} (f : CRedisClient -> A) : PM W A := fun s => Some (f (ps_client s), s).
Definition set_client (f : CRedisClient -> CRedisClient) : PM W unit := fun s =>
  Some (tt, PState (f (ps_client s)) (ps_servers s) (ps_thread s) (ps_slices s) (ps_world s)).

(** [*p], which must not have been deleted. *)
Definition server (p : nat) : PM W CRedisServer := fun s => v ← ps_servers s !! p; Some (v, s).
Definition set_servers (f : gmap nat CRedisServer -> gmap nat CRedisServer) : PM W unit := fun s =>
  Some (tt, PState (ps_client s) (f (ps_servers s)) (ps_thread s) (ps_slices s) (ps_world s)).
Definition set_server (p : nat) (f : CRedisServer -> CRedisServer) : PM W unit :=
  v ← server p; set_servers (insert p (f v)).

(** A call of hiredis or of the system. *)
Definition drive {A} (f : W -> option (A * W)) : PM W A := fun s =>
  r ← f (ps_world s);
  Some (r.1, PState (ps_client s) (ps_servers s) (ps_thread s) (ps_slices s) r.2).
Definition drive_ (f : W -> option W) : PM W unit := drive (fun w => w ← f w; Some (tt, w)).
Definition observe {A} (f : W -> option A) : PM W A := drive (fun w => x ← f w; Some (x, w)).
Definition now : PM W Z := drive (fun w => Some (time w)).
Definition sleep_for (ms : Z) : PM W unit := drive (fun w => Some (tt, os_sleep ms w)).

End monad.

(** ** Replies *)

(** What [FetchResult] calls: the result, and what its pointer points to. *)
Definition fetcher {fl : FloatLib} (A : Type) : Type := (nat -> option redisReply) -> redisReply -> A -> option (Z * A).

Section convert.
Context {fl : FloatLib}.

Definition FUNC_DEF_CONV : TFuncConvert := fun nRet _ => Some nRet.

Definition IntResConv (nConvRet nVal : Z) : TFuncConvert := fun nRet pReply =>
  Some (if (nRet =? RC_SUCCESS) && (rp_integer pReply =? nVal) then nConvRet else nRet).
Definition StuResConv (strVal : bytes) : TFuncConvert := fun nRet pReply =>
  if nRet =? RC_SUCCESS then str ← ctext pReply; Some (if bool_decide (strVal <> str) then RC_REPLY_ERR else nRet)
  else Some nRet.
Definition NilResConv : TFuncConvert := fun nRet pReply =>
  Some (if (nRet =? RC_SUCCESS) && is_nil pReply then RC_OBJ_NOT_EXIST else nRet).
Definition ExistErrConv : TFuncConvert := fun nRet pReply =>
  if nRet =? RC_REPLY_ERR then
    str ← ctext pReply; Some (if bool_decide (bs "Target key name is busy" = str) then RC_OBJ_EXIST else nRet)
  else Some nRet.

End convert.

Section fetch.
Context {dm : DataModel} {fl : FloatLib}.

(** The pointer for the result may be [NULL], which is [None]. *)
Definition FetchInteger : fetcher (option Z) := fun _ pReply pnVal =>
  if rp_type pReply =? REDIS_REPLY_INTEGER then
    Some (RC_SUCCESS, (fun _ => sw long_bits (rp_integer pReply)) <$> pnVal)
  else Some (if is_nil pReply then RC_OBJ_NOT_EXIST else RC_REPLY_ERR, pnVal).

Definition FetchString : fetcher (option bytes) := fun _ pReply pstrVal =>
  if (rp_type pReply =? REDIS_REPLY_STRING) || (rp_type pReply =? REDIS_REPLY_STATUS) then
    match pstrVal with
    | Some _ => s ← text pReply; Some (RC_SUCCESS, Some s)
    | None => Some (RC_SUCCESS, None)
    end
  else if is_nil pReply then Some (RC_SUCCESS, (fun _ => []) <$> pstrVal)
  else Some (RC_REPLY_ERR, pstrVal).

(** The elements from [i] on that are fetched with success; an element that is
    not makes the result partial. *)
Fixpoint fetch_each {A} (fuel : nat) (i n : Z) (fetch : Z -> option (Z * option A)) (nRet : Z) (vec : list A) :
    option (Z * list A) :=
  match fuel with
  | O => None
  | S fuel =>
      if i <? n then
        r ← fetch i;
        if r.1 =? RC_SUCCESS then x ← r.2; fetch_each fuel (i + 1) n fetch nRet (vec ++ [x])
        else fetch_each fuel (i + 1) n fetch RC_PART_SUCCESS vec
      else Some (nRet, vec)
  end.

Definition fetch_array {A} (fetch : fetcher (option A)) (x : A) : fetcher (list A) := fun rd pReply _ =>
  fetch_each (S (Z.to_nat (rp_elements pReply))) 0 (rp_elements pReply)
    (fun i => e ← element_at rd pReply i; fetch rd e (Some x)) RC_SUCCESS [].

Definition FetchIntegerArray : fetcher (option (list Z)) := fun rd pReply pvecLongVal =>
  if rp_type pReply =? REDIS_REPLY_INTEGER then
    match pvecLongVal with
    | None => Some (RC_SUCCESS, None)
    | Some v => r ← fetch_array FetchInteger 0 rd pReply v; Some (r.1, Some r.2)
    end
  else Some (RC_REPLY_ERR, pvecLongVal).

Definition FetchStringArray : fetcher (option (list bytes)) := fun rd pReply pvecStrVal =>
  if rp_type pReply =? REDIS_REPLY_ARRAY then
    match pvecStrVal with
    | None => Some (RC_SUCCESS, None)
    | Some v => r ← fetch_array FetchString [] rd pReply v; Some (r.1, Some r.2)
    end
  else if is_nil pReply then Some (RC_SUCCESS, (fun _ => []) <$> pvecStrVal)
  else Some (RC_REPLY_ERR, pvecStrVal).

(** [insert] leaves a key that is there as it is. *)
Definition map_insert {V} (f : bytes) (v : V) (m : gmap bytes V) : gmap bytes V :=
  match m !! f with Some _ => m | None => <[f := v]> m end.

Fixpoint map_loop (fuel : nat) (rd : nat -> option redisReply) (pReply : redisReply) (i : Z)
    (mapFv : gmap bytes bytes) : option (Z * gmap bytes bytes) :=
  match fuel with
  | O => None
  | S fuel =>
      if i <? rp_elements pReply then
        e ← element_at rd pReply i;
        f ← FetchString rd e (Some []);
        if negb (f.1 =? RC_SUCCESS) then Some (f.1, mapFv) else
        e ← element_at rd pReply (i + 1);
        v ← FetchString rd e (Some []);
        if negb (v.1 =? RC_SUCCESS) then Some (v.1, mapFv) else
        strFld ← f.2; strVal ← v.2;
        map_loop fuel rd pReply (i + 2) (map_insert strFld strVal mapFv)
      else Some (RC_SUCCESS, mapFv)
  end.

Definition FetchMap : fetcher (option (gmap bytes bytes)) := fun rd pReply pmapFv =>
  if rp_type pReply =? REDIS_REPLY_ARRAY then
    match pmapFv with
    | None => Some (RC_SUCCESS, None)
    | Some m =>
        if negb (rp_elements pReply mod 2 =? 0) then Some (RC_REPLY_ERR, Some m) else
        r ← map_loop (S (Z.to_nat (rp_elements pReply))) rd pReply 0 ∅; Some (r.1, Some r.2)
    end
  else Some (RC_REPLY_ERR, pmapFv).

Definition FetchTime : fetcher (option timeval) := fun rd pReply ptmVal =>
  if rp_type pReply =? REDIS_REPLY_ARRAY then
    if negb (rp_elements pReply =? 2) then Some (RC_REPLY_ERR, ptmVal) else
    e0 ← element_at rd pReply 0;
    if negb (rp_type e0 =? REDIS_REPLY_STRING) then Some (RC_REPLY_ERR, ptmVal) else
    e1 ← element_at rd pReply 1;
    if negb (rp_type e1 =? REDIS_REPLY_STRING) then Some (RC_REPLY_ERR, ptmVal) else
    match ptmVal with
    | None => Some (RC_SUCCESS, None)
    | Some _ => s ← ctext e0; u ← ctext e1; Some (RC_SUCCESS, Some (Timeval (strtol s) (strtol u)))
    end
  else Some (RC_REPLY_ERR, ptmVal).

Fixpoint slot_loop (fuel : nat) (rd : nat -> option redisReply) (pReply : redisReply) (i : Z)
    (vecSlot : list SlotRegion) : option (Z * list SlotRegion) :=
  match fuel with
  | O => None
  | S fuel =>
      if i <? rp_elements pReply then
        pSubReply ← element_at rd pReply i;
        if negb (rp_type pSubReply =? REDIS_REPLY_ARRAY) || (rp_elements pSubReply <? 3)
        then Some (RC_REPLY_ERR, vecSlot) else
        e0 ← element_at rd pSubReply 0; e1 ← element_at rd pSubReply 1; e2 ← element_at rd pSubReply 2;
        host ← element_at rd e2 0; strHost ← ctext host; port ← element_at rd e2 1;
        slot_loop fuel rd pReply (i + 1)
          (vecSlot ++ [MkRegion (s32 (rp_integer e0)) (s32 (rp_integer e1)) strHost (s32 (rp_integer port)) None])
      else Some (RC_SUCCESS, vecSlot)
  end.

Definition FetchSlot : fetcher (option (list SlotRegion)) := fun rd pReply pvecSlot =>
  if rp_type pReply =? REDIS_REPLY_ARRAY then
    match pvecSlot with
    | None => Some (RC_SUCCESS, None)
    | Some _ => r ← slot_loop (S (Z.to_nat (rp_elements pReply))) rd pReply 0 []; Some (r.1, Some r.2)
    end
  else Some (RC_REPLY_ERR, pvecSlot).

End fetch.

(** ** Commands *)

(** What the overloads of [SetArgs] take: a string, a vector or a set of
    strings, a map (in the order of its keys). *)
Inductive value := Text (s : bytes) | Texts (l : list bytes) | Pairs (l : list (bytes * bytes)).

Section pool.
Context {dm : DataModel} {fl : FloatLib} {W : Type} {drv : PipeDriver W} {tmp : Temporaries}.

#[local] Abbreviation P := (PM W).

Definition new_command (strCmd : bytes) (bShareMem : bool) : CRedisCommand :=
  MkCommand strCmd bShareMem 0 0 [] [] None (-1) FUNC_DEF_CONV.
Definition SetSlot (nSlot : Z) (c : CRedisCommand) : CRedisCommand :=
  MkCommand (m_strCmd c) (m_bShareMem c) (m_nArgs c) (m_nIdx c) (m_pszArgs c) (m_pnArgsLen c) (m_pReply c)
    nSlot (m_funcConv c).
Definition SetConvFunc (funcConv : TFuncConvert) (c : CRedisCommand) : CRedisCommand :=
  MkCommand (m_strCmd c) (m_bShareMem c) (m_nArgs c) (m_nIdx c) (m_pszArgs c) (m_pnArgsLen c) (m_pReply c)
    (m_nSlot c) funcConv.
Definition with_reply (pReply : option nat) (c : CRedisCommand) : CRedisCommand :=
  MkCommand (m_strCmd c) (m_bShareMem c) (m_nArgs c) (m_nIdx c) (m_pszArgs c) (m_pnArgsLen c) pReply
    (m_nSlot c) (m_funcConv c).

Definition free_reply (pReply : option nat) : P unit :=
  match pReply with Some l => drive_ (hi_free_reply l) | None => mret tt end.

(** The pointers of copied arguments are deleted. *)
Definition ClearArgs (c : CRedisCommand) : P CRedisCommand :=
  _ ← valid (if m_bShareMem c then Some [] else mapM id (m_pszArgs c));
  _ ← free_reply (m_pReply c);
  mret (MkCommand (m_strCmd c) (m_bShareMem c) 0 0 [] [] None (m_nSlot c) (m_funcConv c)).

(** A shared argument has the terminator of its string after it. *)
Definition AppendValue (c : CRedisCommand) (strVal : bytes) : CRedisCommand :=
  if m_nArgs c <=? m_nIdx c then c else
  let i := Z.to_nat (m_nIdx c) in
  MkCommand (m_strCmd c) (m_bShareMem c) (m_nArgs c) (m_nIdx c + 1)
    (<[i := Some (if m_bShareMem c then strVal ++ [NUL] else strVal)]> (m_pszArgs c))
    (<[i := Some (zlen strVal)]> (m_pnArgsLen c)) (m_pReply c) (m_nSlot c) (m_funcConv c).

Definition InitMemory (nArgs : Z) (c : CRedisCommand) : P CRedisCommand :=
  c ← ClearArgs c;
  _ ← valid (if nArgs <? 0 then None else Some tt);
  let n := Z.to_nat nArgs in
  mret (AppendValue (MkCommand (m_strCmd c) (m_bShareMem c) nArgs 0 (replicate n None) (replicate n None)
    (m_pReply c) (m_nSlot c) (m_funcConv c)) (m_strCmd c)).

(** The size is converted to an [int]. *)
Definition fill (nArgs : Z) (l : list bytes) (c : CRedisCommand) : P CRedisCommand :=
  c ← InitMemory (s32 nArgs) c; mret (foldl AppendValue c l).

(** [vecArg1[i], vecArg2[i], ...] for the indices of the first. *)
Fixpoint zipped (vecArg1 vecArg2 : list bytes) : option (list bytes) :=
  match vecArg1, vecArg2 with
  | [], _ => Some []
  | x :: vecArg1, y :: vecArg2 => l ← zipped vecArg1 vecArg2; Some (x :: y :: l)
  | _ :: _, [] => None
  end.

Definition pair_list (mapArg : list (bytes * bytes)) : list bytes := flat_map (fun kv => [kv.1; kv.2]) mapArg.

Definition SetArgs (args : list value) (c : CRedisCommand) : P CRedisCommand :=
  match args with
  | [] => fill 1 [] c
  | [Text strArg] => fill 2 [strArg] c
  | [Texts vecArg] => fill (zlen vecArg + 1) vecArg c
  | [Text strArg1; Text strArg2] => fill 3 [strArg1; strArg2] c
  | [Text strArg1; Texts vecArg2] => fill (zlen vecArg2 + 2) (strArg1 :: vecArg2) c
  | [Texts vecArg1; Text strArg2] =>
      if bool_decide (vecArg1 = []) then mret c else fill (zlen vecArg1 + 2) (vecArg1 ++ [strArg2]) c
  | [Texts vecArg1; Texts vecArg2] =>
      if negb (zlen vecArg1 =? zlen vecArg2) then mret c
      else l ← valid (zipped vecArg1 vecArg2); fill (zlen vecArg1 * 2 + 1) l c
  | [Pairs mapArg] => fill (zlen mapArg * 2 + 1) (pair_list mapArg) c
  | [Text strArg1; Pairs mapArg2] => fill (zlen mapArg2 * 2 + 2) (strArg1 :: pair_list mapArg2) c
  | [Text strArg1; Text strArg2; Text strArg3] => fill 4 [strArg1; strArg2; strArg3] c
  | [Text strArg1; Text strArg2; Texts vecArg3] => fill (zlen vecArg3 + 3) (strArg1 :: strArg2 :: vecArg3) c
  | [Text strArg1; Texts vecArg2; Texts vecArg3] =>
      l ← valid (zipped vecArg2 vecArg3); fill (zlen vecArg2 * 2 + 2) (strArg1 :: l) c
  | [Text strArg1; Text strArg2; Text strArg3; Text strArg4] => fill 5 [strArg1; strArg2; strArg3; strArg4] c
  | _ => valid None      (* no such overload *)
  end.

(** The arrays as hiredis reads them: all written. *)
Definition arguments (c : CRedisCommand) : option (list bytes * list Z) :=
  a ← mapM id (m_pszArgs c); n ← mapM id (m_pnArgsLen c); Some (a, n).

Definition CmdRequest (pContext : option nat) (c : CRedisCommand) : P (Z * CRedisCommand) :=
  if m_nArgs c <=? 0 then mret (RC_PARAM_ERR, c) else
  match pContext with
  | None => mret (RC_RQST_ERR, c)
  | Some p =>
      _ ← free_reply (m_pReply c);
      a ← valid (arguments c);
      r ← drive (hi_command_argv p (m_nArgs c) a.1 a.2);
      mret (if isSome r then RC_SUCCESS else RC_RQST_ERR, with_reply r c)
  end.

Definition CmdAppend (pContext : option nat) (c : CRedisCommand) : P Z :=
  if m_nArgs c <=? 0 then mret RC_PARAM_ERR else
  match pContext with
  | None => mret RC_RQST_ERR
  | Some p =>
      a ← valid (arguments c);
      nRet ← drive (hi_append_argv p (m_nArgs c) a.1 a.2);
      mret (if nRet =? REDIS_OK then RC_SUCCESS else RC_RQST_ERR)
  end.

Definition CmdReply (pContext : option nat) (c : CRedisCommand) : P (Z * CRedisCommand) :=
  _ ← free_reply (m_pReply c);
  p ← valid pContext;
  r ← drive (hi_get_reply p);
  mret (if r.1 =? REDIS_OK then RC_SUCCESS else RC_RQST_ERR, with_reply r.2 c).

Definition FetchResult {A} (funcFetch : fetcher A) (x : A) (c : CRedisCommand) : P (Z * A) :=
  l ← valid (m_pReply c);
  cell ← observe (hi_cell l);
  r ← observe (fun w => funcFetch (fun l => hi_cell l w) cell x);
  nRet ← valid (m_funcConv c r.1 cell);
  mret (nRet, r.2).

Definition FetchErrMsg (c : CRedisCommand) : P bytes :=
  match m_pReply c with
  | None => mret []
  | Some l =>
      cell ← observe (hi_cell l);
      if rp_type cell =? REDIS_REPLY_ERROR then valid (text cell) else mret []
  end.

Definition IsMovedErr (c : CRedisCommand) : P bool :=
  s ← FetchErrMsg c; word ← valid (substr s 0 5); mret (bool_decide (word = bs "MOVED")).

(** ** Connections *)

Definition free_context (pContext : option nat) : P unit :=
  match pContext with Some p => drive_ (hi_free p) | None => mret tt end.

Definition ConnectToRedis (strHost : bytes) (nPort nTimeout : Z) (c : CRedisConnection) :
    P (bool * CRedisConnection) :=
  _ ← free_context (m_pContext c);
  let tmTimeout := Timeval nTimeout 0 in
  pContext ← drive (hi_connect (cstr strHost) nPort (Some tmTimeout));
  match pContext with
  | None => mret (false, MkConnection None (m_nUseTime c) (m_pRedisServ c))
  | Some p =>
      e ← observe (hi_error p);
      if negb (e.1 =? 0) then
        _ ← free_context (Some p);
        mret (false, MkConnection None (m_nUseTime c) (m_pRedisServ c))
      else
        _ ← drive (hi_set_timeout p tmTimeout);
        t ← now;
        mret (true, MkConnection (Some p) t (m_pRedisServ c))
  end.

(** The hosts known, until one is connected, which the server keeps. *)
Fixpoint try_hosts (hosts : list (bytes * Z)) (c : CRedisConnection) : P (bool * CRedisConnection) :=
  match hosts with
  | [] => mret (false, c)
  | (host, port) :: hosts =>
      serv ← server (m_pRedisServ c);
      r ← ConnectToRedis host port (m_nCliTimeout serv) c;
      if (r.1 : bool) then
        _ ← set_server (m_pRedisServ c) (fun v => MkServer host port (m_nCliTimeout v) (m_nSerTimeout v)
              (sv_nConnNum v) (m_queIdleConn v) (m_vecHosts v));
        mret r
      else try_hosts hosts r.2
  end.

Definition Reconnect (c : CRedisConnection) : P (bool * CRedisConnection) :=
  serv ← server (m_pRedisServ c);
  r ← (if bool_decide (sv_strHost serv <> []) then ConnectToRedis (sv_strHost serv) (sv_nPort serv) (m_nCliTimeout serv) c
       else mret (false, c));
  if (r.1 : bool) then mret r else
  r ← try_hosts (m_vecHosts serv) r.2;
  if (r.1 : bool) then mret r else
  _ ← set_server (m_pRedisServ c) (fun v => MkServer [] (sv_nPort v) (m_nCliTimeout v) (m_nSerTimeout v)
        (sv_nConnNum v) (m_queIdleConn v) (m_vecHosts v));
  mret (false, r.2).

Definition new_connection (pRedisServ : nat) : P CRedisConnection :=
  r ← Reconnect (MkConnection None 0 pRedisServ); mret r.2.
Definition delete_connection (c : CRedisConnection) : P unit := free_context (m_pContext c).
Definition IsValid (c : CRedisConnection) : bool := isSome (m_pContext c).

(** Whether the server may have closed the connection. *)
Definition expired (tmNow : Z) (c : CRedisConnection) : P bool :=
  serv ← server (m_pRedisServ c); mret (m_nSerTimeout serv <=? tmNow - m_nUseTime c).

(** The connection, made again when there is none or it is too old. *)
Definition freshen (tmNow : Z) (c : CRedisConnection) : P (bool * CRedisConnection) :=
  old ← (if IsValid c then expired tmNow c else mret true);
  if (old : bool) then Reconnect c else mret (true, c).

Definition used (tmNow : Z) (c : CRedisConnection) : CRedisConnection :=
  MkConnection (m_pContext c) tmNow (m_pRedisServ c).

Definition ConnRequest (cmd : CRedisCommand) (c : CRedisConnection) : P (Z * CRedisCommand * CRedisConnection) :=
  tmNow ← now;
  f ← freshen tmNow c;
  if negb f.1 then mret (RC_RQST_ERR, cmd, f.2) else
  let c := f.2 in
  r ← CmdRequest (m_pContext c) cmd;
  if negb (r.1 =? RC_RQST_ERR) then mret (r, used tmNow c) else
  old ← expired tmNow c;
  if negb old then mret (r, c) else
  f ← Reconnect c;
  if negb f.1 then mret (RC_RQST_ERR, r.2, f.2) else
  let c := f.2 in
  r ← CmdRequest (m_pContext c) r.2;
  mret (r, if negb (r.1 =? RC_RQST_ERR) then used tmNow c else c).

(** The commands of a pipeline that this connection serves, by index. *)
Fixpoint append_all (pContext : option nat) (cmds : list CRedisCommand) (l : list nat) (nRet : Z) : P Z :=
  match l with
  | [] => mret nRet
  | i :: l =>
      if negb (nRet =? RC_SUCCESS) then mret nRet else
      cmd ← valid (cmds !! i);
      nRet ← CmdAppend pContext cmd;
      append_all pContext cmds l nRet
  end.

Fixpoint reply_all (pContext : option nat) (cmds : list CRedisCommand) (l : list nat) (nRet : Z) :
    P (Z * list CRedisCommand) :=
  match l with
  | [] => mret (nRet, cmds)
  | i :: l =>
      if negb (nRet =? RC_SUCCESS) then mret (nRet, cmds) else
      cmd ← valid (cmds !! i);
      r ← CmdReply pContext cmd;
      reply_all pContext (<[i := r.2]> cmds) l r.1
  end.

Definition ConnRequest_all (cmds : list CRedisCommand) (l : list nat) (c : CRedisConnection) :
    P (Z * list CRedisCommand * CRedisConnection) :=
  tmNow ← now;
  f ← freshen tmNow c;
  if negb f.1 then mret (RC_RQST_ERR, cmds, f.2) else
  let c := f.2 in
  nRet ← append_all (m_pContext c) cmds l RC_SUCCESS;
  r ← reply_all (m_pContext c) cmds l nRet;
  mret (r, c).

(** ** Servers *)

Definition with_queue (q : list CRedisConnection) (v : CRedisServer) : CRedisServer :=
  MkServer (sv_strHost v) (sv_nPort v) (m_nCliTimeout v) (m_nSerTimeout v) (sv_nConnNum v) q (m_vecHosts v).

Fixpoint delete_all (q : list CRedisConnection) : P unit :=
  match q with [] => mret tt | c :: q => _ ← delete_connection c; delete_all q end.

Definition CleanConn (p : nat) : P unit :=
  v ← server p; _ ← delete_all (m_queIdleConn v); set_server p (with_queue []).

Definition SetSlave (p : nat) (strHost : bytes) (nPort : Z) : P unit :=
  set_server p (fun v => MkServer (sv_strHost v) (sv_nPort v) (m_nCliTimeout v) (m_nSerTimeout v) (sv_nConnNum v)
    (m_queIdleConn v) (m_vecHosts v ++ [(strHost, nPort)])).

(** [m_queIdleConn.size()] as a [bool]. *)
Definition serv_valid (v : CRedisServer) : bool := bool_decide (m_queIdleConn v <> []).

Definition FetchConnection (p : nat) : P (option CRedisConnection) :=
  v ← server p;
  match m_queIdleConn v with
  | [] => mret None
  | c :: q => _ ← set_server p (with_queue q); mret (Some c)
  end.

Definition ReturnConnection (p : nat) (c : CRedisConnection) : P unit :=
  set_server p (fun v => with_queue (m_queIdleConn v ++ [c]) v).

Fixpoint fetch_loop (nTry : nat) (p : nat) : P (option CRedisConnection) :=
  match nTry with
  | O => mret None
  | S nTry =>
      r ← FetchConnection p;
      match r with
      | Some c => mret (Some c)
      | None => _ ← sleep_for 100; fetch_loop nTry p
      end
  end.

Definition ServRequest (p : nat) (cmd : CRedisCommand) : P (Z * CRedisCommand) :=
  r ← fetch_loop (Z.to_nat RQST_RETRY_TIMES) p;
  match r with
  | None => mret (RC_NO_RESOURCE, cmd)
  | Some c => r ← ConnRequest cmd c; _ ← ReturnConnection p r.2; mret r.1
  end.

Definition ServRequest_all (p : nat) (cmds : list CRedisCommand) (l : list nat) : P (Z * list CRedisCommand) :=
  r ← fetch_loop (Z.to_nat RQST_RETRY_TIMES) p;
  match r with
  | None => mret (RC_NO_RESOURCE, cmds)
  | Some c => r ← ConnRequest_all cmds l c; _ ← ReturnConnection p r.2; mret r.1
  end.

Fixpoint make_connections (n : nat) (p : nat) : P unit :=
  match n with
  | O => mret tt
  | S n =>
      c ← new_connection p;
      _ ← (if IsValid c then ReturnConnection p c else mret tt);
      make_connections n p
  end.

(** The time a server keeps an idle connection, by [CONFIG GET timeout], whose
    two words are temporaries. *)
Definition load_timeout (p : nat) : P unit :=
  cmd ← SetArgs [Text (stale (bs "get")); Text (stale (bs "timeout"))] (new_command (bs "config") true);
  r ← ServRequest p cmd;
  f ← (if r.1 =? RC_SUCCESS then FetchResult FetchStringArray (Some []) r.2 else mret (r.1, Some []));
  _ ← (match f.2 with
       | Some [_; t] =>
           if f.1 =? RC_SUCCESS then
             set_server p (fun v => MkServer (sv_strHost v) (sv_nPort v) (m_nCliTimeout v) (atoi (cstr t))
               (sv_nConnNum v) (m_queIdleConn v) (m_vecHosts v))
           else mret tt
       | _ => mret tt
       end);
  _ ← ClearArgs r.2; mret tt.

Definition serv_Initialize (p : nat) : P bool :=
  _ ← CleanConn p;
  v ← server p;
  _ ← make_connections (Z.to_nat (sv_nConnNum v)) p;
  v ← server p;
  _ ← (if serv_valid v then load_timeout p else mret tt);
  v ← server p;
  mret (serv_valid v).

Context {hp : Allocation}.

Definition new_server (strHost : bytes) (nPort nTimeout nConnNum : Z) : P nat := fun s =>
  let p := new_at (dom (ps_servers s)) in
  (_ ← set_servers (insert p (MkServer strHost nPort nTimeout 0 nConnNum [] []));
   _ ← SetSlave p strHost nPort;
   _ ← serv_Initialize p;
   mret p) s.

Definition delete_server (p : nat) : P unit := _ ← CleanConn p; set_servers (delete p).

End pool.
