(* ===== verification/PoolClient.v ===== *)
(** * The pooled client: pipelines, tables and execution (redis_client/src/RedisClient.cpp)

    [CRedisPipeline], and [CRedisClient] without its commands: the servers, the
    table of slots, the thread that refreshes them, and [Execute].

    The refreshing thread holds the lock for a whole turn of its loop and a
    command holds it, shared, while it is executed, so that turns happen
    between these: at each such place [other_threads] runs what the next slice
    of the schedule says. *)

From Stdlib Require Import Strings.Byte String.
From stdpp Require Import gmap sorting.
From S2P Require Import Prelude CLib Read Reply Network Slots StdString ClusterText ClusterNodes Driver Decoders.
From S2P Require Import Pool.

(** [std::sort] by the first slot; the order of equal ones is not specified. *)
Class RegionSort := {
  sort_regions : list SlotRegion -> list SlotRegion;
  sort_perm l : sort_regions l ≡ₚ l;
  sort_sorted l : Sorted (fun x y => nStartSlot x <= nStartSlot y) (sort_regions l)
}.

(** ** Finding a slot *)

Section search.
Context {A : Type}.
Implicit Types less : A -> bool.

(** The binary search of [std::lower_bound]: the first index, from [first] on,
    of the [len] elements there that is not [less]. *)
Fixpoint partition_point (fuel : nat) less (l : list A) (first len : Z) : option Z :=
  match fuel with
  | O => None
  | S fuel =>
      if 0 <? len then
        let half := len / 2 in
        x ← zget l (first + half);
        if less x then partition_point fuel less l (first + half + 1) (len - half - 1)
        else partition_point fuel less l first half
      else Some first
  end.

(** [std::equal_range], with both orders of the comparison. *)
Definition equal_range less (not_greater : A -> bool) (l : list A) : option (Z * Z) :=
  a ← partition_point (S (length l)) less l 0 (zlen l);
  b ← partition_point (S (length l)) not_greater l 0 (zlen l);
  Some (a, b).

End search.

Definition CompSlot_before (nSlot : Z) (slotReg : SlotRegion) : bool := nEndSlot slotReg <? nSlot.
Definition CompSlot_after (nSlot : Z) (slotReg : SlotRegion) : bool := nSlot <? nStartSlot slotReg.

Definition find_slot (m_vecSlot : list SlotRegion) (nSlot : Z) : option (option nat) :=
  r ← equal_range (CompSlot_before nSlot) (fun x => negb (CompSlot_after nSlot x)) m_vecSlot;
  if negb (r.1 =? zlen m_vecSlot) && negb (r.1 =? r.2) then x ← zget m_vecSlot r.1; Some (pRedisServ x)
  else Some None.

(** ** Information about a server *)

(** [std::getline] at line feeds; an empty last line makes no difference. *)
Fixpoint lines_from (line : bytes) (l : bytes) : list bytes :=
  match l with
  | [] => [line]
  | b :: l => if bool_decide (b = LF) then line :: lines_from [] l else lines_from (line ++ [b]) l
  end.
Definition lines (l : bytes) : list bytes := lines_from [] l.

Fixpoint info_loop (ls : list bytes) (mapVal : gmap bytes bytes) : option (bool * gmap bytes bytes) :=
  match ls with
  | [] => Some (true, mapVal)
  | strLine :: ls =>
      if bool_decide (strLine = []) || bool_decide (head strLine = Some CR) || bool_decide (head strLine = Some Byte.x23)
      then info_loop ls mapVal else
      match find strLine Byte.x3a 0 with
      | None => Some (false, mapVal)
      | Some nPos =>
          k ← substr strLine 0 nPos; v ← substr strLine (nPos + 1) npos;
          info_loop ls (map_insert k v mapVal)
      end
  end.
Definition ConvertToMapInfo (strVal : bytes) (mapVal : gmap bytes bytes) : option (bool * gmap bytes bytes) :=
  info_loop (lines strVal) mapVal.

(** The words between white space, as [>>] extracts them. *)
Fixpoint words_from (word : bytes) (l : bytes) : list bytes :=
  match l with
  | [] => if bool_decide (word = []) then [] else [word]
  | b :: l =>
      if isspace b then (if bool_decide (word = []) then [] else [word]) ++ words_from [] l
      else words_from (word ++ [b]) l
  end.

Section client.
Context {dm : DataModel} {fl : FloatLib} {W : Type} {drv : PipeDriver W} {tmp : Temporaries} {hp : Allocation}.
Context {srt : RegionSort}.

#[local] Abbreviation P := (PM W).

(** ** The state *)

Definition set_valid (b : bool) : P unit := set_client (fun c => MkClient (m_strHost c) (m_nPort c) (m_nTimeout c)
  (m_nConnNum c) (m_bCluster c) b (m_bExit c) (m_vecSlot c) (m_vecRedisServ c)).
Definition set_exit : P unit := set_client (fun c => MkClient (m_strHost c) (m_nPort c) (m_nTimeout c)
  (m_nConnNum c) (m_bCluster c) (m_bValid c) true (m_vecSlot c) (m_vecRedisServ c)).
Definition set_cluster (b : bool) : P unit := set_client (fun c => MkClient (m_strHost c) (m_nPort c) (m_nTimeout c)
  (m_nConnNum c) b (m_bValid c) (m_bExit c) (m_vecSlot c) (m_vecRedisServ c)).
Definition set_tables (vecSlot : list SlotRegion) (vecRedisServ : list nat) : P unit := set_client (fun c =>
  MkClient (m_strHost c) (m_nPort c) (m_nTimeout c) (m_nConnNum c) (m_bCluster c) (m_bValid c) (m_bExit c)
    vecSlot vecRedisServ).
Definition thread : P refresher := fun s => Some (ps_thread s, s).
Definition set_thread (t : refresher) : P unit := fun s =>
  Some (tt, PState (ps_client s) (ps_servers s) t (ps_slices s) (ps_world s)).

(** ** Servers and slots *)

Fixpoint delete_servers (l : list nat) : P unit :=
  match l with [] => mret tt | p :: l => _ ← delete_server p; delete_servers l end.

Definition CleanServer : P unit :=
  l ← client m_vecRedisServ; _ ← delete_servers l; set_tables [] [].

(** [FindServer] of a host and a port. *)
Fixpoint FindServer (vecRedisServ : list nat) (strHost : bytes) (nPort : Z) : P (option nat) :=
  match vecRedisServ with
  | [] => mret None
  | p :: l =>
      v ← server p;
      if bool_decide (strHost = sv_strHost v) && (nPort =? sv_nPort v) then mret (Some p)
      else FindServer l strHost nPort
  end.

(** The servers of the slots, those not yet there made anew; [None] when one
    of them has no connection, which is then not deleted. *)
Fixpoint slot_servers (vecSlot done : list SlotRegion) (vecRedisServ : list nat) :
    P (option (list SlotRegion) * list nat) :=
  match vecSlot with
  | [] => mret (Some done, vecRedisServ)
  | r :: vecSlot =>
      let assigned p := done ++ [MkRegion (nStartSlot r) (nEndSlot r) (sr_strHost r) (sr_nPort r) (Some p)] in
      f ← FindServer vecRedisServ (sr_strHost r) (sr_nPort r);
      match f with
      | Some p => slot_servers vecSlot (assigned p) vecRedisServ
      | None =>
          c ← client id;
          p ← new_server (sr_strHost r) (sr_nPort r) (m_nTimeout c) (m_nConnNum c);
          v ← server p;
          if negb (serv_valid v) then mret (None, vecRedisServ)
          else slot_servers vecSlot (assigned p) (vecRedisServ ++ [p])
      end
  end.

(** The command is sent to one server after the other until one answers. *)
Fixpoint load_from (l : list nat) (cmd : CRedisCommand) (vecSlot : list SlotRegion) : P (bool * CRedisCommand) :=
  match l with
  | [] => mret (false, cmd)
  | p :: l =>
      v ← server p;
      if negb (serv_valid v) then mret (false, cmd) else
      r ← ServRequest p cmd;
      f ← (if r.1 =? RC_SUCCESS then FetchResult FetchSlot (Some vecSlot) r.2 else mret (r.1, Some vecSlot));
      vecSlot ← valid f.2;
      if negb (f.1 =? RC_SUCCESS) then load_from l r.2 vecSlot else
      n ← slot_servers vecSlot [] [];
      match n.1 with
      | None => _ ← delete_servers n.2; mret (false, r.2)
      | Some vecSlot =>
          _ ← CleanServer; _ ← set_tables (sort_regions vecSlot) n.2; mret (true, r.2)
      end
  end.

Definition LoadClusterSlots : P bool :=
  cmd ← SetArgs [Text (stale (bs "slots"))] (new_command (bs "cluster") true);
  l ← client m_vecRedisServ;
  r ← load_from l cmd [];
  _ ← ClearArgs r.2;
  mret r.1.

(** The text of the stream, which is never cleared, and whether it has failed:
    reading the words to the end makes it fail, and what is written to it
    after that is lost. *)
Fixpoint slave_loop (n : nat) (i : Z) (ss : bytes * bool) (mapInfo : gmap bytes bytes) (p : nat) : P unit :=
  match n with
  | O => mret tt
  | S n =>
      let ss := if ss.2 then ss else (ss.1 ++ bs "slave" ++ dec i, false) in
      match mapInfo !! ss.1 with
      | None => slave_loop n (i + 1) ss mapInfo p
      | Some info =>
          let items := if ss.2 then [] else words_from [] info in
          let f a item :=
            if bool_decide (ztake 3 item = bs "ip=") then (zdrop 3 item, a.2) else
            if bool_decide (ztake 5 item = bs "port=") then (a.1, atoi (cstr (zdrop 5 item))) else a in
          let a := foldl f ([], -1) items in
          _ ← (if bool_decide (a.1 <> []) && negb (a.2 =? -1) then SetSlave p a.1 a.2 else mret tt);
          slave_loop n (i + 1) (info, true) mapInfo p
      end
  end.

Definition LoadSlaveInfo (mapInfo : gmap bytes bytes) : P bool :=
  match mapInfo !! bs "connected_slaves" with
  | None => mret true
  | Some s =>
      l ← client m_vecRedisServ;
      let nSlave := Z.to_nat (atoi (cstr s)) in
      _ ← (match nSlave with
           | O => mret tt
           | S _ => p ← valid (head l); slave_loop nSlave 0 ([], false) mapInfo p
           end);
      mret true
  end.

(** ** The refreshing thread *)

Definition refresh : P unit :=
  b ← client m_bCluster;
  ok ← (if (b : bool) then LoadClusterSlots else l ← client m_vecRedisServ; p ← valid (head l); serv_Initialize p);
  _ ← set_valid ok;
  _ ← (if (ok : bool) then mret tt else sleep_for 1000);
  set_thread AtTop.

(** One turn of the loop of [operator()], from where the thread is to the next
    place where it lets the lock go. *)
Definition refresh_turn : P unit :=
  t ← thread;
  match t with
  | AtTop =>
      c ← client id;
      if m_bExit c then set_thread Ended else if m_bValid c then set_thread Waiting else refresh
  | Woken => refresh
  | _ => mret tt
  end.

Definition notify_all : P unit :=
  t ← thread; match t with Waiting => set_thread Woken | _ => mret tt end.

Fixpoint run_ticks (l : list tick) : P unit :=
  match l with
  | [] => mret tt
  | k :: l => _ ← (match k with Turn => refresh_turn | Wake => notify_all end); run_ticks l
  end.

Definition next_slice : P slice := fun s =>
  let sl := default (Slice [] true) (head (ps_slices s)) in
  Some (sl, PState (ps_client s) (ps_servers s) (ps_thread s) (tail (ps_slices s)) (ps_world s)).

(** The other threads run; then whether the lock can be had at once. *)
Definition other_threads : P bool := sl ← next_slice; _ ← run_ticks (sl_ticks sl); mret (sl_try sl).

Fixpoint wait_loop (nRetry : nat) : P bool :=
  b ← client m_bValid;
  if (b : bool) then mret true else
  match nRetry with
  | O => mret false
  | S nRetry => _ ← sleep_for 100; _ ← other_threads; wait_loop nRetry
  end.

Definition WaitForRefresh : P bool :=
  free ← other_threads;
  _ ← (if (free : bool) then notify_all else mret tt);
  _ ← other_threads;
  wait_loop (Z.to_nat WAIT_RETRY_TIMES).

(** ** Execution *)

Fixpoint first_valid (l : list nat) : P (option nat) :=
  match l with
  | [] => mret None
  | p :: l => v ← server p; if serv_valid v then mret (Some p) else first_valid l
  end.

Definition GetMatchedServer (cmd : CRedisCommand) : P (option nat) :=
  c ← client id;
  if negb (m_bCluster c) then mret (head (m_vecRedisServ c)) else
  if negb (m_nSlot cmd =? -1) then valid (find_slot (m_vecSlot c) (m_nSlot cmd))
  else first_valid (m_vecRedisServ c).

Definition SimpleExecute (cmd : CRedisCommand) : P (Z * CRedisCommand) :=
  _ ← other_threads;
  b ← client m_bValid;
  if negb b then mret (RC_RQST_ERR, cmd) else
  p ← GetMatchedServer cmd;
  match p with
  | Some p => ServRequest p cmd
  | None => mret (RC_RQST_ERR, cmd)
  end.

Definition again (cmd : CRedisCommand) (nRet : Z) : P (Z * CRedisCommand) :=
  b ← WaitForRefresh; if (b : bool) then SimpleExecute cmd else mret (nRet, cmd).

(** [Execute] without a pipeline. *)
Definition Execute (cmd : CRedisCommand) : P (Z * CRedisCommand) :=
  _ ← other_threads;
  b ← client m_bValid;
  if negb b then mret (RC_RQST_ERR, cmd) else
  r ← SimpleExecute cmd;
  cluster ← client m_bCluster;
  moved ← (if cluster && (r.1 =? RC_REPLY_ERR) then IsMovedErr r.2 else mret false);
  if moved || (r.1 =? RC_RQST_ERR) then again r.2 r.1 else mret r.

(** ** Pipelines *)

(** The commands of each server are indices into [m_vecCmd]; the map is in the
    order of the addresses, [NULL] first. *)
Record CRedisPipeline := MkPipeline {
  m_mapCmd : list (option nat * list nat);
  m_vecCmd : list CRedisCommand;
  m_nCursor : Z
}.

Definition QueueCommand (cmd : CRedisCommand) (l : CRedisPipeline) : CRedisPipeline :=
  MkPipeline (m_mapCmd l) (m_vecCmd l ++ [cmd]) (m_nCursor l).

Definition address_lt (p q : option nat) : bool :=
  match p, q with
  | None, Some _ => true
  | Some p, Some q => Nat.ltb p q
  | _, None => false
  end.

Fixpoint add_command (p : option nat) (i : nat) (mapCmd : list (option nat * list nat)) : list (option nat * list nat) :=
  match mapCmd with
  | [] => [(p, [i])]
  | (q, l) :: m =>
      if bool_decide (p = q) then (q, l ++ [i]) :: m
      else if address_lt p q then (p, [i]) :: (q, l) :: m else (q, l) :: add_command p i m
  end.

Fixpoint match_commands (cmds : list CRedisCommand) (i : nat) (mapCmd : list (option nat * list nat)) :
    P (list (option nat * list nat)) :=
  match cmds with
  | [] => mret mapCmd
  | cmd :: cmds => p ← GetMatchedServer cmd; match_commands cmds (S i) (add_command p i mapCmd)
  end.

Fixpoint flush_servers (mapCmd : list (option nat * list nat)) (cmds : list CRedisCommand) (nRet : Z) :
    P (Z * list CRedisCommand) :=
  match mapCmd with
  | [] => mret (nRet, cmds)
  | (p, l) :: mapCmd =>
      if negb (nRet =? RC_SUCCESS) then mret (nRet, cmds) else
      p ← valid p;
      _ ← other_threads;
      r ← ServRequest_all p cmds l;
      flush_servers mapCmd r.2 r.1
  end.

(** The lock is not held: the other threads may run between the choice of a
    server and its use. *)
Definition FlushCommand (l : CRedisPipeline) : P (Z * CRedisPipeline) :=
  mapCmd ← match_commands (m_vecCmd l) 0 [];
  r ← flush_servers mapCmd (m_vecCmd l) RC_SUCCESS;
  mret (r.1, MkPipeline mapCmd r.2 (m_nCursor l)).

Definition FlushPipeline (ppLine : option CRedisPipeline) : P (Z * option CRedisPipeline) :=
  match ppLine with
  | None => mret (RC_PIPELINE_ERR, None)
  | Some l =>
      _ ← other_threads;
      r ← FlushCommand l;
      cluster ← client m_bCluster;
      if negb (r.1 =? RC_RQST_ERR) || negb cluster then mret (r.1, Some r.2) else
      b ← WaitForRefresh;
      if negb b then mret (r.1, Some r.2) else r ← FlushCommand r.2; mret (r.1, Some r.2)
  end.

Definition CreatePipeline : CRedisPipeline := MkPipeline [] [] 0.

(** [FetchNext], and [FetchReply] of each type, with its function. *)
Definition FetchNext {A} (funcFetch : fetcher A) (x : A) (l : CRedisPipeline) : P (Z * A * CRedisPipeline) :=
  if zlen (m_vecCmd l) <=? m_nCursor l then mret (RC_RESULT_EOF, x, l) else
  cmd ← valid (zget (m_vecCmd l) (m_nCursor l));
  r ← FetchResult funcFetch x cmd;
  mret (r, MkPipeline (m_mapCmd l) (m_vecCmd l) (m_nCursor l + 1)).
Definition FetchNext_reply (pReply : option nat) (l : CRedisPipeline) : P (Z * option nat * CRedisPipeline) :=
  if zlen (m_vecCmd l) <=? m_nCursor l then mret (RC_RESULT_EOF, pReply, l) else
  cmd ← valid (zget (m_vecCmd l) (m_nCursor l));
  mret (RC_SUCCESS, m_pReply cmd, MkPipeline (m_mapCmd l) (m_vecCmd l) (m_nCursor l + 1)).
Definition FetchReply {A} (funcFetch : fetcher A) (x : A) (ppLine : option CRedisPipeline) :
    P (Z * A * option CRedisPipeline) :=
  match ppLine with
  | None => mret (RC_NO_RESOURCE, x, None)
  | Some l => r ← FetchNext funcFetch x l; mret (r.1, Some r.2)
  end.

Fixpoint delete_commands (cmds : list CRedisCommand) : P unit :=
  match cmds with [] => mret tt | cmd :: cmds => _ ← ClearArgs cmd; delete_commands cmds end.
Definition FreePipeline (ppLine : option CRedisPipeline) : P unit :=
  match ppLine with None => mret tt | Some l => delete_commands (m_vecCmd l) end.

(** ** Executing a command *)

Definition ExecuteImpl {A} (strCmd : bytes) (args : list value) (nSlot : Z) (ppLine : option CRedisPipeline)
    (funcFetch : fetcher A) (x : A) (funcConv : TFuncConvert) : P (Z * A * option CRedisPipeline) :=
  cmd ← SetArgs args (new_command strCmd (negb (isSome ppLine)));
  let cmd := SetConvFunc funcConv (SetSlot nSlot cmd) in
  match ppLine with
  | Some l => mret (RC_SUCCESS, x, Some (QueueCommand cmd l))
  | None =>
      r ← Execute cmd;
      f ← (if r.1 =? RC_SUCCESS then FetchResult funcFetch x r.2 else mret (r.1, x));
      _ ← ClearArgs r.2;
      mret (f, None)
  end.

(** ** The life of a client *)

Definition new_client : CRedisClient := MkClient [] (-1) (-1) (-1) false true false [] [].

Definition Initialize (strHost : bytes) (nPort nTimeout nConnNum : Z) : P bool :=
  let nPos := find strHost Byte.x3a 0 in
  host ← valid (match nPos with None => Some strHost | Some n => substr strHost 0 n end);
  port ← valid (match nPos with None => Some nPort | Some n => s ← substr strHost (n + 1) npos; Some (atoi (cstr s)) end);
  _ ← set_client (fun c => MkClient host port nTimeout nConnNum (m_bCluster c) (m_bValid c) (m_bExit c)
        (m_vecSlot c) (m_vecRedisServ c));
  if bool_decide (host = []) || (port <=? 0) || (nTimeout <=? 0) || (nConnNum <=? 0) then mret false else
  p ← new_server host port nTimeout nConnNum;
  v ← server p;
  if negb (serv_valid v) then mret false else
  cmd ← SetArgs [] (new_command (bs "info") true);
  r ← ServRequest p cmd;
  f ← (if r.1 =? RC_SUCCESS then FetchResult FetchString (Some []) r.2 else mret (r.1, Some []));
  info ← valid (if f.1 =? RC_SUCCESS then strInfo ← f.2; ConvertToMapInfo strInfo ∅
                else Some (false, (∅ : gmap bytes bytes)));
  let mapInfo : gmap bytes bytes := info.2 in
  ok ← (match (if (info.1 : bool) then mapInfo !! bs "cluster_enabled" else None) with
        | None => mret false
        | Some s =>
            let cluster := negb (atoi (cstr s) =? 0) in
            _ ← set_cluster cluster;
            l ← client m_vecRedisServ; slots ← client m_vecSlot;
            _ ← set_tables slots (l ++ [p]);
            ok ← (if cluster then LoadClusterSlots else LoadSlaveInfo mapInfo);
            _ ← (if (ok : bool) then set_thread AtTop else mret tt);
            _ ← set_valid ok;
            mret ok
        end);
  _ ← ClearArgs r.2;
  mret ok.

(** [m_pThread->join()]: the turns the thread still takes. *)
Definition join : P unit := _ ← refresh_turn; refresh_turn.

Definition delete_client : P unit :=
  _ ← set_valid false;
  _ ← set_exit;
  _ ← notify_all;
  _ ← join;
  CleanServer.

End client.
