(* ===== verification/PoolCommands.v ===== *)
(** * The pooled client: commands (redis_client/src/RedisClient.cpp)

    The methods of [CRedisClient]: each is executed at the slot of its key, and
    its reply is fetched into what its pointer points to, which is an argument
    and a part of the result; [None] is [NULL].  With a pipeline a command is
    only queued.  Sets and maps given to a method are lists in their order. *)

From Stdlib Require Import Strings.Byte String.
From stdpp Require Import gmap.
From S2P Require Import Prelude CLib Read Reply Network Slots StdString ClusterText ClusterNodes Driver Decoders.
From S2P Require Import Pool PoolClient.

Section commands.
Context {dm : DataModel} {fl : FloatLib} {sd : StreamDouble} {W : Type} {drv : PipeDriver W}.
Context {tmp : Temporaries} {hp : Allocation} {srt : RegionSort}.

#[local] Abbreviation P := (PM W).
#[local] Abbreviation pipe := (option CRedisPipeline).

(** The code, what the pointer points to, and the pipeline. *)
#[local] Abbreviation Result A := (PM W (Z * A * pipe)%type).

Definition execute {A} (strCmd : bytes) (args : list value) (ppLine : pipe) (funcFetch : fetcher A) (x : A)
    (funcConv : TFuncConvert) : Result A := ExecuteImpl strCmd args (-1) ppLine funcFetch x funcConv.
Definition execute_at {A} (strKey : bytes) (strCmd : bytes) (args : list value) (ppLine : pipe)
    (funcFetch : fetcher A) (x : A) (funcConv : TFuncConvert) : Result A :=
  nSlot ← valid (HASH_SLOT strKey); ExecuteImpl strCmd args nSlot ppLine funcFetch x funcConv.

(** [StuResConv()]. *)
Definition ok_status : TFuncConvert := StuResConv (bs "OK").

Definition atof (s : bytes) : double := (strtod (cstr s)).1.

(** A number read from the text of the reply; [*pdVal] is written. *)
Definition as_double (r : Result (option bytes)) (pdVal : option double) : Result (option double) :=
  r ← r;
  if r.1.1 =? RC_SUCCESS then
    strVal ← valid r.1.2; _ ← valid pdVal; mret (r.1.1, Some (atof strVal), r.2)
  else mret (r.1.1, pdVal, r.2).

(** Scores read from their texts. *)
Definition as_scores (r : Result (option (gmap bytes bytes))) (pmapVal : option (gmap bytes double)) :
    Result (option (gmap bytes double)) :=
  r ← r;
  if r.1.1 =? RC_SUCCESS then mapVal ← valid r.1.2; mret (r.1.1, (fun _ => atof <$> mapVal) <$> pmapVal, r.2)
  else mret (r.1.1, pmapVal, r.2).

Definition InSameNode (strKey1 strKey2 : bytes) : P bool :=
  c ← client id;
  if m_bCluster c then
    h1 ← valid (HASH_SLOT strKey1); h2 ← valid (HASH_SLOT strKey2);
    p1 ← valid (find_slot (m_vecSlot c) h1); p2 ← valid (find_slot (m_vecSlot c) h2);
    mret (bool_decide (p1 = p2))
  else mret true.

(** ** Generic *)

Definition Del (strKey : bytes) (pnVal : option Z) (ppLine : pipe) : Result (option Z) :=
  execute_at strKey (bs "del") [Text strKey] ppLine FetchInteger pnVal FUNC_DEF_CONV.
Definition Dump (strKey : bytes) (pstrVal : option bytes) (ppLine : pipe) : Result (option bytes) :=
  execute_at strKey (bs "dump") [Text strKey] ppLine FetchString pstrVal FUNC_DEF_CONV.
Definition Exists (strKey : bytes) (pnVal : option Z) (ppLine : pipe) : Result (option Z) :=
  execute_at strKey (bs "exists") [Text strKey] ppLine FetchInteger pnVal FUNC_DEF_CONV.
Definition Expire (strKey : bytes) (nSec : Z) (pnVal : option Z) (ppLine : pipe) : Result (option Z) :=
  execute_at strKey (bs "expire") [Text strKey; Text (dec nSec)] ppLine FetchInteger pnVal FUNC_DEF_CONV.
Definition Expireat (strKey : bytes) (nTime : Z) (pnVal : option Z) (ppLine : pipe) : Result (option Z) :=
  execute_at strKey (bs "expireat") [Text strKey; Text (dec nTime)] ppLine FetchInteger pnVal FUNC_DEF_CONV.

Fixpoint keys_loop (l : list nat) (cmd : CRedisCommand) (nRet : Z) (pvecVal : option (list bytes)) :
    P (Z * option (list bytes) * CRedisCommand) :=
  match l with
  | [] => mret (nRet, pvecVal, cmd)
  | p :: l =>
      r ← ServRequest p cmd;
      f ← (if r.1 =? RC_SUCCESS then FetchResult FetchStringArray (Some []) r.2 else mret (r.1, Some []));
      if negb (f.1 =? RC_SUCCESS) then mret (f.1, (fun _ => []) <$> pvecVal, r.2) else
      vecVal ← valid f.2;
      keys_loop l r.2 f.1 ((fun v => v ++ vecVal) <$> pvecVal)
  end.
Definition Keys (strPattern : bytes) (pvecVal : option (list bytes)) : P (Z * option (list bytes)) :=
  cmd ← SetArgs [Text strPattern] (new_command (bs "keys") true);
  l ← client m_vecRedisServ;
  r ← keys_loop l cmd RC_SUCCESS pvecVal;
  _ ← ClearArgs r.2;
  mret r.1.

Definition Persist (strKey : bytes) (pnVal : option Z) (ppLine : pipe) : Result (option Z) :=
  execute_at strKey (bs "persist") [Text strKey] ppLine FetchInteger pnVal FUNC_DEF_CONV.
Definition Pexpire (strKey : bytes) (nMilliSec : Z) (pnVal : option Z) (ppLine : pipe) : Result (option Z) :=
  execute_at strKey (bs "pexpire") [Text strKey; Text (dec nMilliSec)] ppLine FetchInteger pnVal FUNC_DEF_CONV.
Definition Pexpireat (strKey : bytes) (nMilliTime : Z) (pnVal : option Z) (ppLine : pipe) : Result (option Z) :=
  execute_at strKey (bs "pexpireat") [Text strKey; Text (dec nMilliTime)] ppLine FetchInteger pnVal FUNC_DEF_CONV.
Definition Pttl (strKey : bytes) (pnVal : option Z) (ppLine : pipe) : Result (option Z) :=
  execute_at strKey (bs "pttl") [Text strKey] ppLine FetchInteger pnVal FUNC_DEF_CONV.
Definition Randomkey (pstrVal : option bytes) (ppLine : pipe) : Result (option bytes) :=
  execute (bs "randomkey") [] ppLine FetchString pstrVal FUNC_DEF_CONV.

Definition Restore (strKey : bytes) (nTtl : Z) (strVal : bytes) (ppLine : pipe) : Result (option bytes) :=
  execute_at strKey (bs "restore") [Text strKey; Text (dec nTtl); Text strVal] ppLine FetchString None ok_status.

(** The key made anew on the other node, and deleted here. *)
Definition move_key (strKey strNewKey : bytes) (nTtl : Z) (strVal : bytes) (fresh : bool) : P (bool * Z) :=
  d ← (if fresh then mret (RC_SUCCESS, None, None) else Del strNewKey None None);
  if d.1.1 <? RC_SUCCESS then mret (false, d.1.1) else
  r ← Restore strNewKey (if nTtl =? -1 then 0 else nTtl) strVal None;
  if negb (r.1.1 =? RC_SUCCESS) then mret (false, r.1.1) else
  d ← Del strKey None None;
  mret (RC_SUCCESS <=? d.1.1, d.1.1).

Definition dump_and_move (strKey strNewKey : bytes) (nx : bool) : P Z :=
  d ← Dump strKey (Some []) None;
  strVal ← valid d.1.2;
  m ← (if negb (d.1.1 =? RC_SUCCESS) || (negb nx && bool_decide (strVal = [])) then mret (false, d.1.1) else
       t ← Pttl strKey (Some 0) None;
       nTtl ← valid t.1.2;
       if negb (t.1.1 =? RC_SUCCESS) || (negb nx && (nTtl =? -2)) then mret (false, t.1.1)
       else move_key strKey strNewKey nTtl strVal nx);
  if (m.1 : bool) then mret RC_SUCCESS else
  _ ← Del strNewKey None None;
  mret (if m.2 =? RC_SUCCESS then RC_REPLY_ERR else m.2).

Definition Rename (strKey strNewKey : bytes) : P Z :=
  same ← InSameNode strKey strNewKey;
  if (same : bool) then
    r ← execute_at strKey (bs "rename") [Text strKey; Text strNewKey] None FetchString None ok_status; mret r.1.1
  else dump_and_move strKey strNewKey false.

Definition Renamenx (strKey strNewKey : bytes) : P Z :=
  same ← InSameNode strKey strNewKey;
  if (same : bool) then
    r ← execute_at strKey (bs "renamenx") [Text strKey; Text strNewKey] None FetchString None ok_status; mret r.1.1
  else
    e ← Exists strNewKey (Some 0) None;
    if negb (e.1.1 =? RC_SUCCESS) then mret e.1.1 else
    nVal ← valid e.1.2;
    if nVal =? 1 then mret RC_REPLY_ERR else dump_and_move strKey strNewKey true.

Definition Scan (pnCursor : option Z) (strPattern : bytes) (nCount : Z) (pvecVal : option (list bytes)) :
    P (Z * option Z * option (list bytes)) := mret (RC_SUCCESS, pnCursor, pvecVal).

Definition Ttl (strKey : bytes) (pnVal : option Z) (ppLine : pipe) : Result (option Z) :=
  execute_at strKey (bs "ttl") [Text strKey] ppLine FetchInteger pnVal FUNC_DEF_CONV.
Definition Type_ (strKey : bytes) (pstrVal : option bytes) (ppLine : pipe) : Result (option bytes) :=
  execute_at strKey (bs "type") [Text strKey] ppLine FetchString pstrVal FUNC_DEF_CONV.

(** ** String *)

Definition Append (strKey : bytes) (strVal : bytes) (pnVal : option Z) (ppLine : pipe) : Result (option Z) :=
  execute_at strKey (bs "append") [Text strKey; Text strVal] ppLine FetchInteger pnVal FUNC_DEF_CONV.
Definition Bitcount (strKey : bytes) (pnVal : option Z) (ppLine : pipe) : Result (option Z) :=
  execute_at strKey (bs "bitcount") [Text strKey] ppLine FetchInteger pnVal FUNC_DEF_CONV.
Definition Bitcount_range (strKey : bytes) (nStart : Z) (nEnd : Z) (pnVal : option Z) (ppLine : pipe) :
    Result (option Z) :=
  execute_at strKey (bs "bitcount") [Text strKey; Text (dec nStart); Text (dec nEnd)] ppLine FetchInteger pnVal
    FUNC_DEF_CONV.
Definition Bitop (strDestKey : bytes) (strOp : bytes) (vecKey : list bytes) (pnVal : option Z) (ppLine : pipe) :
    Result (option Z) :=
  execute_at strDestKey (bs "bitop") [Text strOp; Text strDestKey; Texts vecKey] ppLine FetchInteger pnVal
    FUNC_DEF_CONV.
Definition Bitpos (strKey : bytes) (nBitVal : Z) (pnVal : option Z) (ppLine : pipe) : Result (option Z) :=
  execute_at strKey (bs "bitpos") [Text strKey; Text (dec nBitVal)] ppLine FetchInteger pnVal FUNC_DEF_CONV.
Definition Bitpos_range (strKey : bytes) (nBitVal : Z) (nStart : Z) (nEnd : Z) (pnVal : option Z) (ppLine : pipe) :
    Result (option Z) :=
  execute_at strKey (bs "bitpos") [Text strKey; Text (dec nBitVal); Text (dec nStart); Text (dec nEnd)] ppLine
    FetchInteger pnVal FUNC_DEF_CONV.
Definition Decr (strKey : bytes) (pnVal : option Z) (ppLine : pipe) : Result (option Z) :=
  execute_at strKey (bs "decr") [Text strKey] ppLine FetchInteger pnVal FUNC_DEF_CONV.
Definition Decrby (strKey : bytes) (nDecr : Z) (pnVal : option Z) (ppLine : pipe) : Result (option Z) :=
  execute_at strKey (bs "decrby") [Text strKey; Text (dec nDecr)] ppLine FetchInteger pnVal FUNC_DEF_CONV.
Definition Get (strKey : bytes) (pstrVal : option bytes) (ppLine : pipe) : Result (option bytes) :=
  execute_at strKey (bs "get") [Text strKey] ppLine FetchString pstrVal FUNC_DEF_CONV.
Definition Getbit (strKey : bytes) (nOffset : Z) (pnVal : option Z) (ppLine : pipe) : Result (option Z) :=
  execute_at strKey (bs "getbit") [Text strKey; Text (dec nOffset)] ppLine FetchInteger pnVal FUNC_DEF_CONV.
Definition Getrange (strKey : bytes) (nStart : Z) (nStop : Z) (pstrVal : option bytes) (ppLine : pipe) :
    Result (option bytes) :=
  execute_at strKey (bs "getrange") [Text strKey; Text (dec nStart); Text (dec nStop)] ppLine FetchString
    pstrVal FUNC_DEF_CONV.

Definition Getset (strKey : bytes) (pstrVal : option bytes) (ppLine : pipe) : Result (option bytes) :=
  strVal ← valid pstrVal;
  execute_at strKey (bs "getset") [Text strKey; Text strVal] ppLine FetchString pstrVal FUNC_DEF_CONV.

Definition Incr (strKey : bytes) (pnVal : option Z) (ppLine : pipe) : Result (option Z) :=
  execute_at strKey (bs "incr") [Text strKey] ppLine FetchInteger pnVal FUNC_DEF_CONV.
Definition Incrby (strKey : bytes) (nIncr : Z) (pnVal : option Z) (ppLine : pipe) : Result (option Z) :=
  execute_at strKey (bs "incrby") [Text strKey; Text (dec nIncr)] ppLine FetchInteger pnVal FUNC_DEF_CONV.

Definition Incrbyfloat (strKey : bytes) (dIncr : double) (pdVal : option double) (ppLine : pipe) :
    Result (option double) :=
  as_double (execute_at strKey (bs "incrbyfloat") [Text strKey; Text (double_text dIncr)] ppLine FetchString (Some [])
    FUNC_DEF_CONV) pdVal.

Fixpoint queue_gets (vecKey : list bytes) (ppLine : pipe) : P (Z * pipe) :=
  match vecKey with
  | [] => mret (RC_SUCCESS, ppLine)
  | strKey :: vecKey =>
      r ← Get strKey None ppLine;
      if negb (r.1.1 =? RC_SUCCESS) then mret (r.1.1, r.2) else queue_gets vecKey r.2
  end.

(** Replies are fetched until the end of the pipeline. *)
Fixpoint fetch_values (fuel : nat) (strVal : bytes) (ppLine : pipe) (pvecVal : option (list bytes)) :
    P (Z * option (list bytes) * pipe) :=
  match fuel with
  | O => valid None
  | S fuel =>
      r ← FetchReply FetchString (Some strVal) ppLine;
      let nSubRet := r.1.1 in
      if nSubRet =? RC_RESULT_EOF then mret (RC_SUCCESS, pvecVal, r.2) else
      if negb ((nSubRet =? RC_SUCCESS) || (nSubRet =? RC_REPLY_ERR)) then mret (nSubRet, pvecVal, r.2) else
      v ← valid pvecVal;
      strVal ← valid r.1.2;
      fetch_values fuel strVal r.2 (Some (v ++ [if nSubRet =? RC_SUCCESS then strVal else []]))
  end.

Definition Mget (vecKey : list bytes) (pvecVal : option (list bytes)) : P (Z * option (list bytes)) :=
  match vecKey with
  | [] => mret (RC_SUCCESS, pvecVal)
  | strKey :: _ =>
      cluster ← client m_bCluster;
      if negb cluster then
        r ← execute_at strKey (bs "mget") [Texts vecKey] None FetchStringArray pvecVal FUNC_DEF_CONV; mret r.1
      else
        q ← queue_gets vecKey (Some CreatePipeline);
        f ← FlushPipeline q.2;
        r ← (if q.1 =? RC_SUCCESS then fetch_values (S (length vecKey)) [] f.2 pvecVal else mret (q.1, pvecVal, f.2));
        _ ← FreePipeline r.2;
        mret r.1
  end.

Definition Psetex (strKey : bytes) (nMilliSec : Z) (strVal : bytes) (ppLine : pipe) : Result (option bytes) :=
  execute_at strKey (bs "psetex") [Text strKey; Text (dec nMilliSec); Text strVal] ppLine FetchString None ok_status.
Definition Set_ (strKey : bytes) (strVal : bytes) (ppLine : pipe) : Result (option bytes) :=
  execute_at strKey (bs "set") [Text strKey; Text strVal] ppLine FetchString None ok_status.
Fixpoint queue_sets (vecKey vecVal : list bytes) (ppLine : pipe) : P (Z * pipe) :=
  match vecKey with
  | [] => mret (RC_SUCCESS, ppLine)
  | strKey :: vecKey =>
      strVal ← valid (head vecVal);
      r ← Set_ strKey strVal ppLine;
      if negb (r.1.1 =? RC_SUCCESS) then mret (r.1.1, r.2) else queue_sets vecKey (tail vecVal) r.2
  end.

Fixpoint fetch_statuses (fuel : nat) (nRet : Z) (ppLine : pipe) : P (Z * pipe) :=
  match fuel with
  | O => valid None
  | S fuel =>
      r ← FetchReply FetchString None ppLine;
      if r.1.1 =? RC_RESULT_EOF then mret (nRet, r.2)
      else fetch_statuses fuel (if r.1.1 =? RC_SUCCESS then nRet else RC_PART_SUCCESS) r.2
  end.

Definition Mset (vecKey vecVal : list bytes) : P Z :=
  match vecKey with
  | [] => mret RC_SUCCESS
  | strKey :: _ =>
      cluster ← client m_bCluster;
      if negb cluster then
        r ← execute_at strKey (bs "mset") [Texts vecKey; Texts vecVal] None FetchString None ok_status; mret r.1.1
      else
        q ← queue_sets vecKey vecVal (Some CreatePipeline);
        f ← FlushPipeline q.2;
        r ← (if q.1 =? RC_SUCCESS then fetch_statuses (S (length vecKey)) RC_SUCCESS f.2 else mret (q.1, f.2));
        _ ← FreePipeline r.2;
        mret r.1
  end.

Definition Setbit (strKey : bytes) (nOffset : Z) (bVal : bool) (ppLine : pipe) : Result (option Z) :=
  execute_at strKey (bs "setbit") [Text strKey; Text (dec nOffset); Text (dec (if bVal then 1 else 0))] ppLine
    FetchInteger None FUNC_DEF_CONV.
Definition Setex (strKey : bytes) (nSec : Z) (strVal : bytes) (ppLine : pipe) : Result (option bytes) :=
  execute_at strKey (bs "setex") [Text strKey; Text (dec nSec); Text strVal] ppLine FetchString None ok_status.
Definition Setnx (strKey : bytes) (strVal : bytes) (ppLine : pipe) : Result (option Z) :=
  execute_at strKey (bs "setnx") [Text strKey; Text strVal] ppLine FetchInteger None (IntResConv RC_OBJ_EXIST 0).
Definition Setrange (strKey : bytes) (nOffset : Z) (strVal : bytes) (pnVal : option Z) (ppLine : pipe) :
    Result (option Z) :=
  execute_at strKey (bs "setrange") [Text strKey; Text (dec nOffset); Text strVal] ppLine FetchInteger pnVal
    FUNC_DEF_CONV.
Definition Strlen (strKey : bytes) (pnVal : option Z) (ppLine : pipe) : Result (option Z) :=
  execute_at strKey (bs "strlen") [Text strKey] ppLine FetchInteger pnVal FUNC_DEF_CONV.
Definition Blpop (strKey : bytes) (nTimeout : Z) (pvecVal : option (list bytes)) : Result (option (list bytes)) :=
  execute_at strKey (bs "blpop") [Text strKey; Text (dec nTimeout)] None FetchStringArray pvecVal FUNC_DEF_CONV.

Definition Blpop_keys (vecKey : list bytes) (nTimeout : Z) (pvecVal : option (list bytes)) : P (Z * option (list bytes)) :=
  cluster ← client m_bCluster;
  if (cluster : bool) then mret (RC_NOT_SUPPORT, pvecVal) else
  match vecKey with
  | [] => mret (RC_PARAM_ERR, pvecVal)
  | strKey :: _ =>
      r ← execute_at strKey (bs "blpop") [Texts vecKey; Text (dec nTimeout)] None FetchStringArray pvecVal FUNC_DEF_CONV;
      mret r.1
  end.

Definition Brpop (strKey : bytes) (nTimeout : Z) (pvecVal : option (list bytes)) : Result (option (list bytes)) :=
  execute_at strKey (bs "brpop") [Text strKey; Text (dec nTimeout)] None FetchStringArray pvecVal FUNC_DEF_CONV.

Definition Brpop_keys (vecKey : list bytes) (nTimeout : Z) (pvecVal : option (list bytes)) : P (Z * option (list bytes)) :=
  cluster ← client m_bCluster;
  if (cluster : bool) then mret (RC_NOT_SUPPORT, pvecVal) else
  match vecKey with
  | [] => mret (RC_PARAM_ERR, pvecVal)
  | strKey :: _ =>
      r ← execute_at strKey (bs "brpop") [Texts vecKey; Text (dec nTimeout)] None FetchStringArray pvecVal FUNC_DEF_CONV;
      mret r.1
  end.

Definition Lindex (strKey : bytes) (nIndex : Z) (pstrVal : option bytes) (ppLine : pipe) : Result (option bytes) :=
  execute_at strKey (bs "lindex") [Text strKey; Text (dec nIndex)] ppLine FetchString pstrVal FUNC_DEF_CONV.
Definition Linsert (strKey : bytes) (strPos : bytes) (strPivot : bytes) (strVal : bytes) (pnVal : option Z)
    (ppLine : pipe) : Result (option Z) :=
  execute_at strKey (bs "linsert") [Text strKey; Text strPos; Text strPivot; Text strVal] ppLine FetchInteger
    pnVal FUNC_DEF_CONV.
Definition Llen (strKey : bytes) (pnVal : option Z) (ppLine : pipe) : Result (option Z) :=
  execute_at strKey (bs "llen") [Text strKey] ppLine FetchInteger pnVal FUNC_DEF_CONV.
Definition Lpop (strKey : bytes) (pstrVal : option bytes) (ppLine : pipe) : Result (option bytes) :=
  execute_at strKey (bs "lpop") [Text strKey] ppLine FetchString pstrVal FUNC_DEF_CONV.
Definition Lpush (strKey : bytes) (strVal : bytes) (pnVal : option Z) (ppLine : pipe) : Result (option Z) :=
  execute_at strKey (bs "lpush") [Text strKey; Text strVal] ppLine FetchInteger pnVal FUNC_DEF_CONV.
Definition Lpushx (strKey : bytes) (strVal : bytes) (pnVal : option Z) (ppLine : pipe) : Result (option Z) :=
  execute_at strKey (bs "lpushx") [Text strKey; Text strVal] ppLine FetchInteger pnVal (IntResConv RC_REPLY_ERR 0).
Definition Lrange (strKey : bytes) (nStart : Z) (nStop : Z) (pvecVal : option (list bytes)) (ppLine : pipe) :
    Result (option (list bytes)) :=
  execute_at strKey (bs "lrange") [Text strKey; Text (dec nStart); Text (dec nStop)] ppLine FetchStringArray
    pvecVal FUNC_DEF_CONV.
Definition Lrem (strKey : bytes) (nCount : Z) (strVal : bytes) (pnVal : option Z) (ppLine : pipe) :
    Result (option Z) :=
  execute_at strKey (bs "lrem") [Text strKey; Text (dec nCount); Text strVal] ppLine FetchInteger pnVal FUNC_DEF_CONV.
Definition Lset (strKey : bytes) (nIndex : Z) (strVal : bytes) (ppLine : pipe) : Result (option bytes) :=
  execute_at strKey (bs "lset") [Text strKey; Text (dec nIndex); Text strVal] ppLine FetchString None ok_status.
Definition Ltrim (strKey : bytes) (nStart : Z) (nStop : Z) (ppLine : pipe) : Result (option bytes) :=
  execute_at strKey (bs "ltrim") [Text strKey; Text (dec nStart); Text (dec nStop)] ppLine FetchString None ok_status.
Definition Rpop (strKey : bytes) (pstrVal : option bytes) (ppLine : pipe) : Result (option bytes) :=
  execute_at strKey (bs "rpop") [Text strKey] ppLine FetchString pstrVal FUNC_DEF_CONV.
Definition Rpush (strKey : bytes) (strVal : bytes) (pnVal : option Z) (ppLine : pipe) : Result (option Z) :=
  execute_at strKey (bs "rpush") [Text strKey; Text strVal] ppLine FetchInteger pnVal FUNC_DEF_CONV.
Definition Rpushx (strKey : bytes) (strVal : bytes) (pnVal : option Z) (ppLine : pipe) : Result (option Z) :=
  execute_at strKey (bs "rpushx") [Text strKey; Text strVal] ppLine FetchInteger pnVal (IntResConv RC_REPLY_ERR 0).

(** ** Set *)

Definition Sadd (strKey : bytes) (strVal : bytes) (pnVal : option Z) (ppLine : pipe) : Result (option Z) :=
  execute_at strKey (bs "sadd") [Text strKey; Text strVal] ppLine FetchInteger pnVal FUNC_DEF_CONV.
Definition Scard (strKey : bytes) (pnVal : option Z) (ppLine : pipe) : Result (option Z) :=
  execute_at strKey (bs "scard") [Text strKey] ppLine FetchInteger pnVal FUNC_DEF_CONV.
Definition Sismember (strKey : bytes) (strVal : bytes) (pnVal : option Z) (ppLine : pipe) : Result (option Z) :=
  execute_at strKey (bs "sismember") [Text strKey; Text strVal] ppLine FetchInteger pnVal FUNC_DEF_CONV.
Definition Smembers (strKey : bytes) (pvecVal : option (list bytes)) (ppLine : pipe) : Result (option (list bytes)) :=
  execute_at strKey (bs "smembers") [Text strKey] ppLine FetchStringArray pvecVal FUNC_DEF_CONV.
Definition Spop (strKey : bytes) (pstrVal : option bytes) (ppLine : pipe) : Result (option bytes) :=
  execute_at strKey (bs "spop") [Text strKey] ppLine FetchString pstrVal FUNC_DEF_CONV.
Definition Srem (strKey : bytes) (strVal : bytes) (pnVal : option Z) (ppLine : pipe) : Result (option Z) :=
  execute_at strKey (bs "srem") [Text strKey; Text strVal] ppLine FetchInteger pnVal FUNC_DEF_CONV.
Definition Srem_values (strKey : bytes) (vecVal : list bytes) (pnVal : option Z) (ppLine : pipe) :
    Result (option Z) :=
  execute_at strKey (bs "srem") [Text strKey; Texts vecVal] ppLine FetchInteger pnVal FUNC_DEF_CONV.

(** ** Hash *)

Definition Hdel (strKey : bytes) (strField : bytes) (pnVal : option Z) (ppLine : pipe) : Result (option Z) :=
  execute_at strKey (bs "hdel") [Text strKey; Text strField] ppLine FetchInteger pnVal FUNC_DEF_CONV.
Definition Hexists (strKey : bytes) (strField : bytes) (pnVal : option Z) (ppLine : pipe) : Result (option Z) :=
  execute_at strKey (bs "hexists") [Text strKey; Text strField] ppLine FetchInteger pnVal FUNC_DEF_CONV.
Definition Hget (strKey : bytes) (strField : bytes) (pstrVal : option bytes) (ppLine : pipe) :
    Result (option bytes) :=
  execute_at strKey (bs "hget") [Text strKey; Text strField] ppLine FetchString pstrVal FUNC_DEF_CONV.
Definition Hgetall (strKey : bytes) (pmapFv : option (gmap bytes bytes)) (ppLine : pipe) :
    Result (option (gmap bytes bytes)) :=
  execute_at strKey (bs "hgetall") [Text strKey] ppLine FetchMap pmapFv FUNC_DEF_CONV.
Definition Hincrby (strKey : bytes) (strField : bytes) (nIncr : Z) (pnVal : option Z) (ppLine : pipe) :
    Result (option Z) :=
  execute_at strKey (bs "hincrby") [Text strKey; Text strField; Text (dec nIncr)] ppLine FetchInteger pnVal
    FUNC_DEF_CONV.

Definition Hincrbyfloat (strKey strField : bytes) (dIncr : double) (pdVal : option double) (ppLine : pipe) :
    Result (option double) :=
  as_double (execute_at strKey (bs "hincrbyfloat") [Text strKey; Text strField; Text (double_text dIncr)] ppLine
    FetchString (Some []) FUNC_DEF_CONV) pdVal.

Definition Hkeys (strKey : bytes) (pvecVal : option (list bytes)) (ppLine : pipe) : Result (option (list bytes)) :=
  execute_at strKey (bs "hkeys") [Text strKey] ppLine FetchStringArray pvecVal FUNC_DEF_CONV.
Definition Hlen (strKey : bytes) (pnVal : option Z) (ppLine : pipe) : Result (option Z) :=
  execute_at strKey (bs "hlen") [Text strKey] ppLine FetchInteger pnVal FUNC_DEF_CONV.
Definition Hmget (strKey : bytes) (vecField : list bytes) (pvecVal : option (list bytes)) (ppLine : pipe) :
    Result (option (list bytes)) :=
  execute_at strKey (bs "hmget") [Text strKey; Texts vecField] ppLine FetchStringArray pvecVal FUNC_DEF_CONV.

(** The fields with a value that is not empty. *)
Fixpoint present (fields vecVal : list bytes) (m : gmap bytes bytes) : option (gmap bytes bytes) :=
  match fields, vecVal with
  | [], _ => Some m
  | f :: fields, v :: vecVal => present fields vecVal (if bool_decide (v = []) then m else map_insert f v m)
  | _ :: _, [] => None
  end.

Definition Hmget_map (strKey : bytes) (vecField : list bytes) (pmapVal : option (gmap bytes bytes)) :
    P (Z * option (gmap bytes bytes)) :=
  r ← execute_at strKey (bs "hmget") [Text strKey; Texts vecField] None FetchStringArray (Some []) FUNC_DEF_CONV;
  if negb (r.1.1 =? RC_SUCCESS) then mret (r.1.1, pmapVal) else
  vecVal ← valid r.1.2;
  if bool_decide (vecVal <> []) && negb (zlen vecField =? zlen vecVal) then mret (RC_RQST_ERR, pmapVal) else
  match pmapVal with
  | None => mret (RC_SUCCESS, None)
  | Some _ =>
      m ← valid (if bool_decide (vecVal = []) then Some ∅ else present vecField vecVal ∅);
      mret (RC_SUCCESS, Some m)
  end.

Definition Hmget_set (strKey : bytes) (setField : list bytes) (pmapVal : option (gmap bytes bytes)) :
    P (Z * option (gmap bytes bytes)) :=
  r ← execute_at strKey (bs "hmget") [Text strKey; Texts setField] None FetchStringArray (Some []) FUNC_DEF_CONV;
  if negb (r.1.1 =? RC_SUCCESS) then mret (r.1.1, pmapVal) else
  vecVal ← valid r.1.2;
  if negb (zlen vecVal =? zlen setField) then mret (RC_RQST_ERR, pmapVal) else
  match pmapVal with
  | None => mret (RC_SUCCESS, None)
  | Some _ => m ← valid (present setField vecVal ∅); mret (RC_SUCCESS, Some m)
  end.

Definition Hmset (strKey : bytes) (vecField : list bytes) (vecVal : list bytes) (ppLine : pipe) :
    Result (option bytes) :=
  execute_at strKey (bs "hmset") [Text strKey; Texts vecField; Texts vecVal] ppLine FetchString None ok_status.
Definition Hmset_map (strKey : bytes) (mapFv : list (bytes * bytes)) (ppLine : pipe) : Result (option bytes) :=
  execute_at strKey (bs "hmset") [Text strKey; Pairs mapFv] ppLine FetchString None ok_status.
Definition Hset (strKey : bytes) (strField : bytes) (strVal : bytes) (ppLine : pipe) : Result (option Z) :=
  execute_at strKey (bs "hset") [Text strKey; Text strField; Text strVal] ppLine FetchInteger None FUNC_DEF_CONV.
Definition Hsetnx (strKey : bytes) (strField : bytes) (strVal : bytes) (ppLine : pipe) : Result (option Z) :=
  execute_at strKey (bs "hsetnx") [Text strKey; Text strField; Text strVal] ppLine FetchInteger None
    (IntResConv RC_REPLY_ERR 0).
Definition Hvals (strKey : bytes) (pvecVal : option (list bytes)) (ppLine : pipe) : Result (option (list bytes)) :=
  execute_at strKey (bs "hvals") [Text strKey] ppLine FetchStringArray pvecVal FUNC_DEF_CONV.

(** ** Sorted set *)

Definition Zadd (strKey : bytes) (dScore : double) (strElem : bytes) (pnVal : option Z) (ppLine : pipe) :
    Result (option Z) :=
  execute_at strKey (bs "zadd") [Text strKey; Text (double_text dScore); Text strElem] ppLine FetchInteger
    pnVal FUNC_DEF_CONV.
Definition Zcard (strKey : bytes) (pnVal : option Z) (ppLine : pipe) : Result (option Z) :=
  execute_at strKey (bs "zcard") [Text strKey] ppLine FetchInteger pnVal FUNC_DEF_CONV.
Definition Zcount (strKey : bytes) (dMin : double) (dMax : double) (pnVal : option Z) (ppLine : pipe) :
    Result (option Z) :=
  execute_at strKey (bs "zcount") [Text strKey; Text (double_text dMin); Text (double_text dMax)] ppLine
    FetchInteger pnVal FUNC_DEF_CONV.

Definition Zincrby (strKey : bytes) (dIncr : double) (strElem : bytes) (pdVal : option double) (ppLine : pipe) :
    Result (option double) :=
  as_double (execute_at strKey (bs "zincrby") [Text strKey; Text (double_text dIncr); Text strElem] ppLine
    FetchString (Some []) FUNC_DEF_CONV) pdVal.

Definition Zlexcount (strKey : bytes) (strMin : bytes) (strMax : bytes) (pnVal : option Z) (ppLine : pipe) :
    Result (option Z) :=
  execute_at strKey (bs "zlexcount") [Text strKey; Text strMin; Text strMax] ppLine FetchInteger pnVal FUNC_DEF_CONV.
Definition Zrange (strKey : bytes) (nStart : Z) (nStop : Z) (pvecVal : option (list bytes)) (ppLine : pipe) :
    Result (option (list bytes)) :=
  execute_at strKey (bs "zrange") [Text strKey; Text (dec nStart); Text (dec nStop)] ppLine FetchStringArray
    pvecVal FUNC_DEF_CONV.
Definition Zrangewithscore (strKey : bytes) (nStart : Z) (nStop : Z) (pmapVal : option (gmap bytes bytes))
    (ppLine : pipe) : Result (option (gmap bytes bytes)) :=
  execute_at strKey (bs "zrange") [Text strKey; Text (dec nStart); Text (dec nStop); Text (bs "WITHSCORES")]
    ppLine FetchMap pmapVal FUNC_DEF_CONV.
Definition Zrangebylex (strKey : bytes) (strMin : bytes) (strMax : bytes) (pvecVal : option (list bytes))
    (ppLine : pipe) : Result (option (list bytes)) :=
  execute_at strKey (bs "zrangebylex") [Text strKey; Text strMin; Text strMax] ppLine FetchStringArray pvecVal
    FUNC_DEF_CONV.
Definition Zrangebyscore (strKey : bytes) (dMin : double) (dMax : double) (pvecVal : option (list bytes))
    (ppLine : pipe) : Result (option (list bytes)) :=
  execute_at strKey (bs "zrangebyscore") [Text strKey; Text (double_text dMin); Text (double_text dMax)] ppLine
    FetchStringArray pvecVal FUNC_DEF_CONV.

Definition Zrangebyscore_scores (strKey : bytes) (dMin dMax : double) (pmapVal : option (gmap bytes double))
    (ppLine : pipe) : Result (option (gmap bytes double)) :=
  as_scores (execute_at strKey (bs "zrangebyscore")
    [Text strKey; Text (double_text dMin); Text (double_text dMax); Text (bs "WITHSCORES")] ppLine FetchMap (Some ∅)
    FUNC_DEF_CONV) pmapVal.

Definition Zrank (strKey : bytes) (strElem : bytes) (pnVal : option Z) (ppLine : pipe) : Result (option Z) :=
  execute_at strKey (bs "zrank") [Text strKey; Text strElem] ppLine FetchInteger pnVal FUNC_DEF_CONV.
Definition Zrem (strKey : bytes) (strElem : bytes) (pnVal : option Z) (ppLine : pipe) : Result (option Z) :=
  execute_at strKey (bs "zrem") [Text strKey; Text strElem] ppLine FetchInteger pnVal FUNC_DEF_CONV.
Definition Zrem_elems (strKey : bytes) (vecElem : list bytes) (pnVal : option Z) (ppLine : pipe) :
    Result (option Z) :=
  execute_at strKey (bs "zrem") [Text strKey; Texts vecElem] ppLine FetchInteger pnVal FUNC_DEF_CONV.
Definition Zremrangebylex (strKey : bytes) (strMin : bytes) (strMax : bytes) (pnVal : option Z) (ppLine : pipe) :
    Result (option Z) :=
  execute_at strKey (bs "zremrangebylex") [Text strKey; Text strMin; Text strMax] ppLine FetchInteger pnVal
    FUNC_DEF_CONV.
Definition Zremrangebyrank (strKey : bytes) (nStart : Z) (nStop : Z) (pnVal : option Z) (ppLine : pipe) :
    Result (option Z) :=
  execute_at strKey (bs "zremrangebyrank") [Text strKey; Text (dec nStart); Text (dec nStop)] ppLine
    FetchInteger pnVal FUNC_DEF_CONV.
Definition Zremrangebyscore (strKey : bytes) (dMin : double) (dMax : double) (pnVal : option Z) (ppLine : pipe) :
    Result (option Z) :=
  execute_at strKey (bs "zremrangebyscore") [Text strKey; Text (double_text dMin); Text (double_text dMax)]
    ppLine FetchInteger pnVal FUNC_DEF_CONV.
Definition Zrevrange (strKey : bytes) (nStart : Z) (nStop : Z) (pvecVal : option (list bytes)) (ppLine : pipe) :
    Result (option (list bytes)) :=
  execute_at strKey (bs "zrevrange") [Text strKey; Text (dec nStart); Text (dec nStop)] ppLine FetchStringArray
    pvecVal FUNC_DEF_CONV.
Definition Zrevrangebyscore (strKey : bytes) (dMax : double) (dMin : double) (pvecVal : option (list bytes))
    (ppLine : pipe) : Result (option (list bytes)) :=
  execute_at strKey (bs "zrevrangebyscore") [Text strKey; Text (double_text dMax); Text (double_text dMin)]
    ppLine FetchStringArray pvecVal FUNC_DEF_CONV.

Definition Zrevrangebyscore_scores (strKey : bytes) (dMax dMin : double) (pmapVal : option (gmap bytes double))
    (ppLine : pipe) : Result (option (gmap bytes double)) :=
  as_scores (execute_at strKey (bs "zrevrangebyscore")
    [Text strKey; Text (double_text dMax); Text (double_text dMin); Text (bs "WITHSCORES")] ppLine FetchMap (Some ∅)
    FUNC_DEF_CONV) pmapVal.

Definition Zrevrank (strKey : bytes) (strElem : bytes) (pnVal : option Z) (ppLine : pipe) : Result (option Z) :=
  execute_at strKey (bs "zrevrank") [Text strKey; Text strElem] ppLine FetchInteger pnVal FUNC_DEF_CONV.

Definition Zscore (strKey strElem : bytes) (pdVal : option double) (ppLine : pipe) : Result (option double) :=
  r ← execute_at strKey (bs "zscore") [Text strKey; Text strElem] ppLine FetchString (Some []) FUNC_DEF_CONV;
  if negb (r.1.1 =? RC_SUCCESS) then mret (r.1.1, pdVal, r.2) else
  strVal ← valid r.1.2;
  if bool_decide (strVal = []) then mret (RC_OBJ_NOT_EXIST, pdVal, r.2)
  else mret (RC_SUCCESS, (fun _ => atof strVal) <$> pdVal, r.2).

Definition Time (ptmVal : option timeval) (ppLine : pipe) : Result (option timeval) :=
  execute (bs "time") [] ppLine FetchTime ptmVal FUNC_DEF_CONV.

End commands.
