(* ===== verification/PoolFacts.v ===== *)
(** * The pooled client: facts

    Rules for the computations of the client, the books of its connections and
    replies, and what each operation does to them.  A connection is in the
    queue of a server or in a hand, open, and in one place only. *)

From Stdlib Require Import Strings.Byte String.
From stdpp Require Import gmap sorting.
From S2P Require Import Prelude CLib Read Reply Network Slots StdString ClusterText ClusterNodes Driver RedisClient.
From S2P Require Import ClientFacts Decoders Pool PoolClient.

(** What the client relies on, beside [Reliable], of pipelining. *)
Class PipeReliable {dm : DataModel} {fl : FloatLib} (W : Type) {drv : PipeDriver W} := {
  pipe_reliable :: Reliable W;
  append_law c argc argv lens w : c ∈ live w ->
    exists r w', hi_append_argv c argc argv lens w = Some (r, w') /\ live w' = live w /\ replies w' = replies w;
  get_reply_law c w : c ∈ live w ->
    exists st r w', hi_get_reply c w = Some ((st, r), w') /\ live w' = live w /\ (st = REDIS_OK -> is_Some r) /\
    match r with
    | Some l => l ∉ replies w /\ replies w' = {[l]} ∪ replies w
    | None => replies w' = replies w
    end
}.

(** ** Computations *)

Section rules.
Context {fl : FloatLib} {W : Type} {drv : PipeDriver W}.
Implicit Types (s : pstate W).

(** [m] ends without fault, with a result for which [Q] holds. *)
Definition runs {A} (m : PM W A) s (Q : A -> pstate W -> Prop) : Prop := exists x s', m s = Some (x, s') /\ Q x s'.

Definition with_world w s : pstate W := PState (ps_client s) (ps_servers s) (ps_thread s) (ps_slices s) w.
Definition with_servers m s : pstate W := PState (ps_client s) m (ps_thread s) (ps_slices s) (ps_world s).

Lemma runs_ret {A} (x : A) s (Q : A -> pstate W -> Prop) : Q x s -> runs (mret x) s Q.
Proof. intros. by exists x, s. Qed.
Lemma runs_bind {A B} (m : PM W A) (k : A -> PM W B) s Q :
  runs m s (fun x s' => runs (k x) s' Q) -> runs (m ≫= k) s Q.
Proof. intros (x & s' & E & y & s2 & E2 & H). exists y, s2. split; [|done]. unfold mbind, pm_bind. by rewrite E. Qed.
Lemma runs_mono {A} (m : PM W A) s (Q Q' : A -> pstate W -> Prop) :
  runs m s Q -> (forall x s', Q x s' -> Q' x s') -> runs m s Q'.
Proof. intros (x & s' & E & H) HQ. exists x, s'. auto. Qed.
Lemma runs_seq {A B} (m : PM W A) (k : A -> PM W B) s Q Q' :
  runs m s Q -> (forall x s', Q x s' -> runs (k x) s' Q') -> runs (m ≫= k) s Q'.
Proof. intros. apply runs_bind. by eapply runs_mono. Qed.
Lemma runs_valid {A} (m : option A) x s (Q : A -> pstate W -> Prop) : m = Some x -> Q x s -> runs (valid m) s Q.
Proof. intros -> ?. by exists x, s. Qed.
Lemma runs_client {A} (f : CRedisClient -> A) s (Q : A -> pstate W -> Prop) : Q (f (ps_client s)) s -> runs (client f) s Q.
Proof. intros. by eexists _, s. Qed.
Lemma runs_server p v s (Q : CRedisServer -> pstate W -> Prop) : ps_servers s !! p = Some v -> Q v s -> runs (server p) s Q.
Proof. intros E ?. exists v, s. split; [|done]. unfold server. by rewrite E. Qed.
Lemma runs_set_server p v f s (Q : unit -> pstate W -> Prop) : ps_servers s !! p = Some v ->
  Q tt (with_servers (<[p := f v]> (ps_servers s)) s) -> runs (set_server p f) s Q.
Proof.
  intros E H. apply runs_bind. eapply runs_server; [exact E|]. eexists tt, _. split; [reflexivity|done].
Qed.
Lemma runs_drive {A} (f : W -> option (A * W)) x w s (Q : A -> pstate W -> Prop) :
  f (ps_world s) = Some (x, w) -> Q x (with_world w s) -> runs (drive f) s Q.
Proof. intros E ?. eexists x, _. split; [|done]. unfold drive. by rewrite E. Qed.
Lemma runs_drive_ (f : W -> option W) w s (Q : unit -> pstate W -> Prop) :
  f (ps_world s) = Some w -> Q tt (with_world w s) -> runs (drive_ f) s Q.
Proof. intros E ?. apply (runs_drive _ tt w); [|done]. by rewrite E. Qed.
Lemma runs_observe {A} (f : W -> option A) x s (Q : A -> pstate W -> Prop) :
  f (ps_world s) = Some x -> Q x s -> runs (observe f) s Q.
Proof. intros E H. apply (runs_drive _ x (ps_world s)); [by rewrite E|]. by destruct s. Qed.

End rules.

(** Runs one primitive of a computation. *)
Ltac prun :=
  lazymatch goal with
  | |- runs (mret _) _ _ => apply runs_ret
  | |- runs (_ ≫= _) _ _ => apply runs_bind
  | |- runs (client _) _ _ => apply runs_client
  end; cbv beta delta [id].

(** ** Books *)

Definition conn_contexts (c : CRedisConnection) : list nat := option_list (m_pContext c).
Definition serv_contexts (v : CRedisServer) : list nat := m_queIdleConn v ≫= conn_contexts.
Definition contexts (m : gmap nat CRedisServer) : list nat := map_to_list m ≫= (fun x => serv_contexts x.2).

Lemma contexts_insert p v m : m !! p = None -> contexts (<[p := v]> m) ≡ₚ serv_contexts v ++ contexts m.
Proof. intros H. unfold contexts. rewrite map_to_list_insert by done. done. Qed.
Lemma contexts_delete p v m : m !! p = Some v -> contexts m ≡ₚ serv_contexts v ++ contexts (delete p m).
Proof. intros H. rewrite <- (contexts_insert p) by apply lookup_delete_eq. by rewrite insert_delete_id. Qed.
Lemma contexts_set p v m : contexts (<[p := v]> m) ≡ₚ serv_contexts v ++ contexts (delete p m).
Proof. rewrite <- insert_delete_eq. apply contexts_insert, lookup_delete_eq. Qed.
Lemma contexts_same p v v' m : m !! p = Some v -> m_queIdleConn v' = m_queIdleConn v ->
  contexts (<[p := v']> m) ≡ₚ contexts m.
Proof. intros H E. rewrite contexts_set, (contexts_delete p v m H). unfold serv_contexts. by rewrite E. Qed.

Section books.
Context {dm : DataModel} {fl : FloatLib} {W : Type} {drv : PipeDriver W} {rel : PipeReliable W}.
Implicit Types (s : pstate W) (w : W) (l k : list nat).

(** Exactly the connections [l] are open, and the replies [k] allocated. *)
Definition holds l k w : Prop :=
  live w = list_to_set l /\ NoDup l /\ replies w = list_to_set k /\ NoDup k.

#[global] Instance holds_proper : Proper ((≡ₚ) ==> (≡ₚ) ==> eq ==> iff) holds.
Proof.
  intros l l' Hl k k' Hk w w' <-. unfold holds.
  assert (list_to_set (C := gset nat) l = list_to_set l') as -> by (apply list_to_set_perm_L; exact Hl).
  assert (list_to_set (C := gset nat) k = list_to_set k') as -> by (apply list_to_set_perm_L; exact Hk).
  by rewrite Hl, Hk.
Qed.

Lemma holds_eq l k w w' : live w' = live w -> replies w' = replies w -> holds l k w -> holds l k w'.
Proof. intros El Er (H1 & H2 & H3 & H4). split_and!; congruence. Qed.

Lemma holds_in c l k w : holds (c :: l) k w -> c ∈ live w.
Proof. intros (-> & _). set_solver. Qed.

Lemma free_context_run c l k s (Q : unit -> pstate W -> Prop) :
  holds (option_list c ++ l) k (ps_world s) ->
  (forall w, holds l k w -> Q tt (with_world w s)) -> runs (free_context c) s Q.
Proof.
  intros H HQ. destruct c as [c|].
  - destruct H as (Hl & Hn & Hr & Hk). cbn [option_list app] in *.
    apply NoDup_cons in Hn as [Hc Hn].
    destruct (free_law c (ps_world s)) as (w' & E & El & Er); [rewrite Hl; set_solver|].
    apply (runs_drive_ _ w'); [done|]. apply HQ. split_and!; [rewrite El, Hl; set_solver|done|congruence|done].
  - apply runs_ret. destruct s as [? ? ? ? w]. apply HQ. exact H.
Qed.

Lemma free_pool_reply_run r l k s (Q : unit -> pstate W -> Prop) :
  holds l (option_list r ++ k) (ps_world s) ->
  (forall w, holds l k w -> Q tt (with_world w s)) -> runs (free_reply r) s Q.
Proof.
  intros H HQ. destruct r as [r|].
  - destruct H as (Hl & Hn & Hr & Hk). cbn [option_list app] in *. apply NoDup_cons in Hk as [Hc Hk].
    destruct (free_reply_law r (ps_world s)) as (w' & E & El & Er); [rewrite Hr; set_solver|].
    apply (runs_drive_ _ w'); [done|]. apply HQ. split_and!; [congruence|done|rewrite Er, Hr; set_solver|done].
  - apply runs_ret. destruct s as [? ? ? ? w]. apply HQ. exact H.
Qed.

Lemma now_run l k s (Q : Z -> pstate W -> Prop) :
  holds l k (ps_world s) -> (forall t w, holds l k w -> Q t (with_world w s)) -> runs now s Q.
Proof.
  intros (H1 & H2 & H3 & H4) HQ. destruct (time (ps_world s)) as [t w] eqn:E.
  destruct (time_law (ps_world s)) as [El Er]. rewrite E in El, Er. cbn in El, Er.
  apply (runs_drive _ t w); [by rewrite E|]. apply HQ. split_and!; congruence.
Qed.

Lemma sleep_run ms l k s (Q : unit -> pstate W -> Prop) :
  holds l k (ps_world s) -> (forall w, holds l k w -> Q tt (with_world w s)) -> runs (sleep_for ms) s Q.
Proof.
  intros (H1 & H2 & H3 & H4) HQ. destruct (sleep_law ms (ps_world s)) as [El Er].
  eapply runs_drive; [reflexivity|]. apply HQ. split_and!; congruence.
Qed.

End books.

(** ** Servers that change little *)

(** All of a server but the address it is connected to. *)
Definition body (v : CRedisServer) := (m_nCliTimeout v, m_nSerTimeout v, sv_nConnNum v, m_queIdleConn v, m_vecHosts v).

(** The connections of a queue are those of their server, and the address of a
    server is one of its hosts. *)
Definition serv_ok (p : nat) (v : CRedisServer) : Prop :=
  Forall (fun c => m_pRedisServ c = p) (m_queIdleConn v) /\
  (sv_strHost v = [] \/ (sv_strHost v, sv_nPort v) ∈ m_vecHosts v).
Definition servers_ok (m : gmap nat CRedisServer) : Prop := map_Forall serv_ok m.

Lemma contexts_body m m' : body <$> m = body <$> m' -> contexts m ≡ₚ contexts m'.
Proof.
  intros E. assert (forall m, contexts m ≡ₚ map_to_list (body <$> m) ≫= (fun x => x.2.1.2 ≫= conn_contexts)) as H.
  { intros m0. rewrite map_to_list_fmap. unfold contexts. induction (map_to_list m0) as [|[p v] t IH]; [done|].
    cbn. by rewrite IH. }
  by rewrite H, E, <- H.
Qed.

Section calm.
Context {W : Type}.
Implicit Types (s : pstate W).

Definition rest s := (ps_client s, ps_thread s, ps_slices s).

(** Nothing but the world and the addresses of servers has changed. *)
Definition calm s s' : Prop :=
  body <$> ps_servers s = body <$> ps_servers s' /\ rest s' = rest s /\
  (servers_ok (ps_servers s) -> servers_ok (ps_servers s')).

#[global] Instance calm_preorder : PreOrder calm.
Proof.
  split; [intros s; split_and!; done|]. intros s1 s2 s3 (E1 & R1 & H1) (E2 & R2 & H2).
  split_and!; [congruence|congruence|auto].
Qed.

Lemma calm_server s s' p v : calm s s' -> ps_servers s !! p = Some v ->
  exists v', ps_servers s' !! p = Some v' /\ body v' = body v.
Proof.
  intros (E & _) H. apply (f_equal (.!! p)) in E. rewrite !lookup_fmap, H in E.
  destruct (ps_servers s' !! p) as [v'|]; [|done]. exists v'. split; [done|].
  by apply (inj Some) in E.
Qed.

(** The address of a server is set to one of its hosts, or to none. *)
Lemma calm_address p v f s : ps_servers s !! p = Some v -> body (f v) = body v ->
  (sv_strHost (f v) = [] \/ (sv_strHost (f v), sv_nPort (f v)) ∈ m_vecHosts v) ->
  calm s (with_servers (<[p := f v]> (ps_servers s)) s).
Proof.
  intros H Hb Ha. split_and!; [|done|].
  - cbn [with_servers ps_servers]. rewrite fmap_insert, Hb. symmetry. apply insert_id. by rewrite lookup_fmap, H.
  - intros Hok. cbn [with_servers ps_servers]. apply map_Forall_insert_2; [|exact Hok].
    assert (m_queIdleConn (f v) = m_queIdleConn v /\ m_vecHosts (f v) = m_vecHosts v) as [Eq Eh].
    { unfold body in Hb. by injection Hb as _ _ _ -> ->. }
    split; [rewrite Eq; by apply (Hok p v)|by rewrite Eh].
Qed.

End calm.

(** A change of the world alone. *)
Ltac calm_world := by split_and!.

(** ** Connections *)

Section connections.
Context {dm : DataModel} {fl : FloatLib} {W : Type} {drv : PipeDriver W} {rel : PipeReliable W}.
Implicit Types (s : pstate W) (w : W) (l k : list nat) (c : CRedisConnection).

(** After [Reconnect] and its parts: the connection in hand, open or not. *)
Definition reconnected l k c s (x : bool * CRedisConnection) s' : Prop :=
  holds (conn_contexts x.2 ++ l) k (ps_world s') /\ calm s s' /\
  m_pRedisServ x.2 = m_pRedisServ c /\ (x.1 = true -> IsValid x.2 = true).

Lemma connect_run host port timeout c l k s :
  holds (conn_contexts c ++ l) k (ps_world s) ->
  runs (ConnectToRedis host port timeout c) s (reconnected l k c s).
Proof.
  intros H. unfold ConnectToRedis. prun. apply (free_context_run _ l k); [done|]. intros w Hw. prun.
  destruct (connect_law (cstr host) port (Some (Timeval timeout 0)) w) as (r & w' & E & Er & Hr).
  eapply runs_drive; [exact E|]. destruct r as [p|].
  2: { prun. split; [by apply (holds_eq l k w)|]. split_and!; [calm_world|done|done]. }
  destruct Hr as [Hp El]. destruct Hw as (H1 & H2 & H3 & H4).
  assert (holds (p :: l) k w') as Hw'.
  { split_and!; [rewrite El, H1; set_solver|apply NoDup_cons; rewrite H1 in Hp; set_solver|congruence|done]. }
  assert (p ∈ live w') as Hin by (eapply holds_in, Hw').
  destruct (error_law p w' Hin) as [e Ee]. prun. eapply runs_observe; [exact Ee|].
  destruct (negb (e.1 =? 0)).
  - prun. apply (free_context_run _ l k); [exact Hw'|]. intros w2 Hw2. prun.
    split_and!; [exact Hw2|calm_world|done|done].
  - prun. destruct (timeout_law p (Timeval timeout 0) w' Hin) as (r & w2 & E2 & Er2 & El2).
    eapply runs_drive; [exact E2|]. prun.
    apply (now_run (p :: l) k); [by apply (holds_eq _ _ w')|].
    intros t w3 Hw3. prun. split_and!; [exact Hw3|calm_world|done|done].
Qed.

Lemma reconnected_step l k c c' s s1 x s2 :
  calm s s1 -> m_pRedisServ c' = m_pRedisServ c -> reconnected l k c' s1 x s2 -> reconnected l k c s x s2.
Proof. intros Hs Hc (H1 & H2 & H3 & H4). split_and!; [done|by etrans|congruence|done]. Qed.

Lemma try_hosts_run hosts l k v : forall c s,
  holds (conn_contexts c ++ l) k (ps_world s) ->
  ps_servers s !! m_pRedisServ c = Some v -> hosts ⊆ m_vecHosts v ->
  runs (try_hosts hosts c) s (reconnected l k c s).
Proof.
  revert v. induction hosts as [|[host port] hosts IH]; intros v c s H Hv Hh; cbn [try_hosts].
  { apply runs_ret. split_and!; [done|reflexivity|done|done]. }
  prun. eapply runs_server; [exact Hv|]. eapply runs_seq; [by apply (connect_run _ _ _ c l k)|].
  intros [b c'] s1 (H1 & Hs1 & Hp & Hb). cbn [fst snd] in *.
  destruct (calm_server _ _ _ _ Hs1 Hv) as (v1 & Hv1 & Eb).
  assert (m_vecHosts v1 = m_vecHosts v) as Eh by (unfold body in Eb; by injection Eb).
  destruct b; cbv iota.
  - prun. eapply runs_set_server; [exact Hv1|]. prun. split_and!; [exact H1| |done|done].
    etrans; [exact Hs1|].
    refine (calm_address (m_pRedisServ c) v1 (fun v => MkServer host port (m_nCliTimeout v) (m_nSerTimeout v)
      (sv_nConnNum v) (m_queIdleConn v) (m_vecHosts v)) _ Hv1 _ _); [done|]. right. cbn. rewrite Eh. apply Hh. left.
  - eapply runs_mono; [apply (IH v1 c' s1)|].
    + done.
    + by rewrite Hp.
    + rewrite Eh. set_solver.
    + intros x s2. by apply reconnected_step.
Qed.

Lemma reconnect_run c l k v s :
  holds (conn_contexts c ++ l) k (ps_world s) -> ps_servers s !! m_pRedisServ c = Some v ->
  runs (Reconnect c) s (reconnected l k c s).
Proof.
  intros H Hv. unfold Reconnect. prun. eapply runs_server; [exact Hv|].
  eapply (runs_seq _ _ _ (reconnected l k c s)).
  { case_bool_decide; [by apply connect_run|]. apply runs_ret. split_and!; [done|reflexivity|done|done]. }
  intros [b c1] s1 Hr. destruct b; cbv iota beta; cbn [fst snd]; [by apply runs_ret|].
  destruct Hr as (H1 & Hs1 & Hp & _). cbn [fst snd] in *.
  destruct (calm_server _ _ _ _ Hs1 Hv) as (v1 & Hv1 & Eb).
  eapply (runs_seq _ _ _ (reconnected l k c1 s1)).
  { apply (try_hosts_run _ l k v1); [done|by rewrite Hp|]. unfold body in Eb. injection Eb as _ _ _ _ ->. done. }
  intros [b c2] s2 Hr. assert (reconnected l k c s (b, c2) s2) as Hr' by (by eapply reconnected_step).
  destruct b; cbn [fst snd]; [by apply runs_ret|]. destruct Hr' as (H2 & Hs2 & Hp2 & _). cbn [fst snd] in *.
  destruct (calm_server _ _ _ _ Hs2 Hv) as (v2 & Hv2 & _).
  prun. eapply runs_set_server; [exact Hv2|]. prun. split_and!; [exact H2| |done|done].
  etrans; [exact Hs2|].
  refine (calm_address (m_pRedisServ c) v2 (fun v => MkServer [] (sv_nPort v) (m_nCliTimeout v) (m_nSerTimeout v)
      (sv_nConnNum v) (m_queIdleConn v) (m_vecHosts v)) _ Hv2 _ _); [done|by left].
Qed.

End connections.

(** ** Requests *)

Section requests.
Context {dm : DataModel} {fl : FloatLib} {W : Type} {drv : PipeDriver W} {rel : PipeReliable W}.
Implicit Types (s : pstate W) (w : W) (l k : list nat) (c : CRedisConnection).

(** A command whose arguments are all written, with any reply in hand. *)
Definition cmd_ok (cmd : CRedisCommand) : Prop := is_Some (arguments cmd).

Definition plain_code (z : Z) : Prop := z = RC_SUCCESS \/ z = RC_PARAM_ERR \/ z = RC_RQST_ERR \/ z = RC_NO_RESOURCE.

(** After a request: only the reply of the command is new, and with success
    there is one. *)
Definition answered (cmd : CRedisCommand) (k : list nat) (x : Z * CRedisCommand) (l : list nat) (w : W) : Prop :=
  exists r, x.2 = with_reply r cmd /\ holds l (option_list r ++ k) w /\
    (x.1 = RC_SUCCESS -> is_Some r) /\ plain_code x.1.

Lemma with_same_reply cmd : with_reply (m_pReply cmd) cmd = cmd.
Proof. by destruct cmd. Qed.

(** The command is unchanged. *)
Lemma answered_same cmd k z l w : plain_code z -> z <> RC_SUCCESS ->
  holds l (option_list (m_pReply cmd) ++ k) w -> answered cmd k (z, cmd) l w.
Proof. intros. exists (m_pReply cmd). by rewrite with_same_reply. Qed.

Lemma answered_again cmd r k x l w : answered (with_reply r cmd) k x l w -> answered cmd k x l w.
Proof. intros (r' & E & H). by exists r'. Qed.

Lemma request_run c p l k cmd s :
  m_pContext c = Some p -> cmd_ok cmd ->
  holds (conn_contexts c ++ l) (option_list (m_pReply cmd) ++ k) (ps_world s) ->
  runs (CmdRequest (m_pContext c) cmd) s (fun x s' =>
    answered cmd k x (conn_contexts c ++ l) (ps_world s') /\ calm s s').
Proof.
  intros Ec [[a n] Ea] H. unfold conn_contexts in *. rewrite Ec in *. unfold CmdRequest. cbn [option_list app] in *.
  destruct (m_nArgs cmd <=? 0).
  { prun. split; [by apply answered_same; [right; left| |]|reflexivity]. }
  prun. apply (free_pool_reply_run _ (p :: l) k); [done|]. intros w Hw. prun. apply (runs_valid _ (a, n)); [done|]. prun.
  destruct (argv_law p (m_nArgs cmd) a n w) as (r & w' & E & El & Hr); [by eapply holds_in|].
  eapply runs_drive; [exact E|]. prun. split; [|calm_world]. exists r. split; [done|].
  destruct Hw as (H1 & H2 & H3 & H4). destruct r as [r|]; cbn.
  - destruct Hr as [Hn Hr]. split; [|split; [by eexists|by left]].
    split_and!; [by rewrite El|done|rewrite Hr, H3; set_solver|].
    apply NoDup_cons. split; [|done]. rewrite H3 in Hn. set_solver.
  - split; [by split_and!; [rewrite El| |rewrite Hr|]|]. split; [done|]. right; right; by left.
Qed.

Lemma expired_run t c v s (Q : bool -> pstate W -> Prop) : ps_servers s !! m_pRedisServ c = Some v ->
  (forall b, Q b s) -> runs (expired t c) s Q.
Proof. intros Hv HQ. unfold expired. prun. eapply runs_server; [exact Hv|]. prun. apply HQ. Qed.

Lemma freshen_run t c l k v s :
  holds (conn_contexts c ++ l) k (ps_world s) -> ps_servers s !! m_pRedisServ c = Some v ->
  runs (freshen t c) s (reconnected l k c s).
Proof.
  intros H Hv. unfold freshen. prun. destruct (IsValid c) eqn:Ec.
  - eapply expired_run; [exact Hv|]. intros b. destruct b; [by eapply reconnect_run|].
    apply runs_ret. split_and!; [done|reflexivity|done|done].
  - apply runs_ret. by eapply reconnect_run.
Qed.

Lemma valid_context c : IsValid c = true -> exists p, m_pContext c = Some p.
Proof. unfold IsValid. destruct (m_pContext c); [by eexists|done]. Qed.

Lemma conn_request_run c l k cmd v s :
  cmd_ok cmd -> ps_servers s !! m_pRedisServ c = Some v ->
  holds (conn_contexts c ++ l) (option_list (m_pReply cmd) ++ k) (ps_world s) ->
  runs (ConnRequest cmd c) s (fun x s' => answered cmd k x.1 (conn_contexts x.2 ++ l) (ps_world s') /\ calm s s' /\
    m_pRedisServ x.2 = m_pRedisServ c).
Proof.
  intros Hc Hv H. unfold ConnRequest. prun. eapply now_run; [exact H|]. intros t w Hw. prun.
  eapply runs_mono; [eapply (freshen_run t c l _ v); [exact Hw|exact Hv]|].
  intros [b c1] s1 (H1 & Hs1 & Hp & Hb). cbn [fst snd] in *. destruct b; cbn [negb].
  2: { prun. split; [apply answered_same; [right; right; by left|done|done]|done]. }
  destruct (valid_context c1 (Hb eq_refl)) as [p1 Ep1]. destruct (calm_server _ _ _ _ Hs1 Hv) as (v1 & Hv1 & _).
  eapply runs_seq; [by eapply (request_run c1)|]. intros [z cmd1] s2 [Ha Hs2]. cbn [fst snd].
  destruct (calm_server _ _ _ _ Hs2 Hv1) as (v2 & Hv2 & _). rewrite <- Hp in Hv2.
  assert (calm s s2) as Hss by (etrans; [exact Hs1|exact Hs2]).
  destruct (negb _); [by prun|]. prun.
  eapply expired_run; [exact Hv2|]. intros b. destruct b; cbn [negb]; [|by prun]. prun.
  destruct Ha as (r & E & Hh & _ & _). cbn in E. subst cmd1.
  eapply runs_mono; [by eapply (reconnect_run c1 l)|]. intros [b c3] s3 (H3 & Hs3 & Hp3 & Hb3). cbn [fst snd] in *.
  assert (calm s s3) as Hs3' by (etrans; [exact Hss|exact Hs3]).
  destruct b; cbn [negb].
  2: { prun. split; [|split; [done|exact (eq_trans Hp3 Hp)]]. apply (answered_again cmd r), answered_same; [right; right; by left|done|done]. }
  destruct (valid_context c3 (Hb3 eq_refl)) as [p3 Ep3].
  eapply runs_seq; [by eapply (request_run c3 p3 l k (with_reply r cmd))|]. intros [z' cmd4] s4 [Ha4 Hs4]. prun.
  cbn [fst snd]. apply answered_again in Ha4. destruct (negb _).
  all: split; [exact Ha4|split; [etrans; [exact Hs3'|exact Hs4]|exact (eq_trans Hp3 Hp)]].
Qed.

End requests.

(** ** Servers *)

(** What a request leaves of a server. *)
Definition outline (v : CRedisServer) := (sv_nConnNum v, length (m_queIdleConn v), m_vecHosts v).

Section steady.
Context {W : Type}.
Implicit Types (s : pstate W).

Definition steady s s' : Prop := outline <$> ps_servers s = outline <$> ps_servers s' /\ rest s' = rest s.
#[global] Instance steady_preorder : PreOrder steady.
Proof. split; [by intros s|]. intros s1 s2 s3 [E1 R1] [E2 R2]. split; congruence. Qed.

Lemma body_outline v v' : body v = body v' -> outline v = outline v'.
Proof. unfold body, outline. by intros [= _ _ -> -> ->]. Qed.

Lemma calm_steady s s' : calm s s' -> steady s s'.
Proof.
  intros (E & R & _). split; [|done]. apply map_eq. intros p. apply (f_equal (.!! p)) in E. rewrite !lookup_fmap in *.
  destruct (ps_servers s !! p), (ps_servers s' !! p); try done. cbn in *. apply (inj Some) in E.
  f_equal. by apply body_outline.
Qed.

Lemma steady_server s s' p v : steady s s' -> ps_servers s !! p = Some v ->
  exists v', ps_servers s' !! p = Some v' /\ outline v' = outline v.
Proof.
  intros [E _] H. apply (f_equal (.!! p)) in E. rewrite !lookup_fmap, H in E.
  destruct (ps_servers s' !! p) as [v'|]; [|done]. exists v'. split; [done|]. by apply (inj Some) in E.
Qed.

End steady.

Section servers.
Context {dm : DataModel} {fl : FloatLib} {W : Type} {drv : PipeDriver W} {rel : PipeReliable W} {tmp : Temporaries}.
Implicit Types (s : pstate W) (w : W) (l k : list nat) (c : CRedisConnection).

(** The connections open are those of the servers and [l]; the replies
    allocated are [k]. *)
Definition books l k s : Prop := holds (contexts (ps_servers s) ++ l) k (ps_world s) /\ servers_ok (ps_servers s).

(** A connection taken from the queue of a server. *)
Lemma take_books p c q v l k s : books l k s -> ps_servers s !! p = Some v -> m_queIdleConn v = c :: q ->
  books (conn_contexts c ++ l) k (with_servers (<[p := with_queue q v]> (ps_servers s)) s) /\ m_pRedisServ c = p.
Proof.
  intros [H Ho] Hv Hq. destruct (Ho p v Hv) as [Hf Ha]. rewrite Hq in Hf. apply Forall_cons in Hf as [Hc Hf].
  split; [|done]. split.
  - cbn [with_servers ps_servers ps_world]. rewrite (contexts_delete p v _ Hv) in H. rewrite contexts_set.
    unfold serv_contexts in *. rewrite Hq in H. cbn [with_queue m_queIdleConn mbind list_bind] in *.
    eapply holds_proper; [|reflexivity..|exact H]. solve_Permutation.
  - cbn [with_servers ps_servers]. by apply map_Forall_insert_2.
Qed.

(** And put back at its end. *)
Lemma put_books p c v l k s : books (conn_contexts c ++ l) k s -> ps_servers s !! p = Some v -> m_pRedisServ c = p ->
  books l k (with_servers (<[p := with_queue (m_queIdleConn v ++ [c]) v]> (ps_servers s)) s).
Proof.
  intros [H Ho] Hv Hc. destruct (Ho p v Hv) as [Hf Ha]. split.
  - cbn [with_servers ps_servers ps_world]. rewrite (contexts_delete p v _ Hv) in H. rewrite contexts_set.
    unfold serv_contexts in *. cbn [with_queue m_queIdleConn]. rewrite bind_app, bind_singleton.
    eapply holds_proper; [|reflexivity..|exact H]. solve_Permutation.
  - cbn [with_servers ps_servers]. apply map_Forall_insert_2; [|exact Ho]. split; [|exact Ha].
    apply Forall_app. split; [exact Hf|]. by apply Forall_singleton.
Qed.

(** After looking for a connection, which is taken if there is one. *)
Definition fetched (p : nat) l k s (r : option CRedisConnection) s' : Prop :=
  match r with
  | Some c => exists v v' q, ps_servers s !! p = Some v /\ m_queIdleConn v = c :: q /\ v' = with_queue q v /\
      ps_servers s' = <[p := v']> (ps_servers s) /\ rest s' = rest s /\
      books (conn_contexts c ++ l) k s' /\ m_pRedisServ c = p
  | None => ps_servers s' = ps_servers s /\ rest s' = rest s /\ books l k s'
  end.

Lemma fetch_connection_run p v l k s : books l k s -> ps_servers s !! p = Some v ->
  runs (FetchConnection p) s (fetched p l k s).
Proof.
  intros H Hv. unfold FetchConnection. prun. eapply runs_server; [exact Hv|].
  destruct (m_queIdleConn v) as [|c q] eqn:Eq; [by prun|]. prun. eapply runs_set_server; [exact Hv|]. prun.
  exists v, (with_queue q v), q. destruct (take_books p c q v l k s H Hv Eq). done.
Qed.

Lemma fetch_loop_run n p v l k : forall s, books l k s -> ps_servers s !! p = Some v ->
  runs (fetch_loop n p) s (fetched p l k s).
Proof.
  induction n as [|n IH]; intros s H Hv; cbn [fetch_loop]; [by prun|]. prun.
  eapply runs_mono; [by eapply fetch_connection_run|]. intros [c|] s1 H1; [by prun|]. destruct H1 as (Es & Er & H1).
  prun. eapply sleep_run; [apply H1|]. intros w Hw. eapply runs_mono; [apply IH|].
  - split; [exact Hw|]. apply H1.
  - cbn. by rewrite Es.
  - intros [c|] s2; cbn; rewrite Es; unfold rest in *; cbn; rewrite <- ?Er; auto.
Qed.

Lemma queue_rotates (q : list CRedisConnection) c c' : length (q ++ [c']) = length (c :: q).
Proof. rewrite length_app. cbn. lia. Qed.

(** What is done with a connection of a server keeps the books; [R] tells the
    replies there are in the end. *)
Lemma pooled_run {B} (body_of : CRedisConnection -> PM W (B * CRedisConnection)) (none : B) (R : B -> list nat -> Prop)
    n p v l k s : ps_servers s !! p = Some v -> books l k s -> R none k ->
  (forall c s1 v1 l1, ps_servers s1 !! m_pRedisServ c = Some v1 -> holds (conn_contexts c ++ l1) k (ps_world s1) ->
     runs (body_of c) s1 (fun x s' => exists k', R x.1 k' /\ holds (conn_contexts x.2 ++ l1) k' (ps_world s') /\
       calm s1 s' /\ m_pRedisServ x.2 = m_pRedisServ c)) ->
  runs (r ← fetch_loop n p;
        match r with None => mret none | Some c => r ← body_of c; _ ← ReturnConnection p r.2; mret r.1 end) s
    (fun x s' => exists k', R x k' /\ holds (contexts (ps_servers s') ++ l) k' (ps_world s') /\
       servers_ok (ps_servers s') /\ steady s s').
Proof.
  intros Hv H Hnone Hbody. prun. eapply runs_mono; [by eapply fetch_loop_run|].
  intros [c|] s1 H1.
  2: { destruct H1 as (Es & Er & Hh & Ho). prun. exists k. split_and!; [done|done|done|]. split; [by rewrite Es|done]. }
  destruct H1 as (v0 & v1 & q & Hv0 & Hq & Ev1 & Es1 & Er1 & [Hh Ho] & Hp). assert (v0 = v) as -> by congruence.
  assert (ps_servers s1 !! p = Some v1) as Hv1 by (rewrite Es1; apply lookup_insert_eq).
  prun. eapply runs_mono.
  { apply (Hbody c s1 v1 (contexts (ps_servers s1) ++ l)); [by rewrite Hp|].
    eapply holds_proper; [|reflexivity..|exact Hh]. solve_Permutation. }
  intros [x c2] s2 (k' & HR & Ha & Hs2 & Hp2). cbn [fst snd] in *.
  destruct (calm_server _ _ _ _ Hs2 Hv1) as (v2 & Hv2 & Eb2). prun. unfold ReturnConnection.
  eapply runs_set_server; [exact Hv2|]. prun. pose proof (calm_steady _ _ Hs2) as [Eo _]. destruct Hs2 as (Eb & Er2 & Ho2).
  assert (books (conn_contexts c2 ++ l) k' s2) as Hb2.
  { split; [|by apply Ho2]. rewrite <- (contexts_body _ _ Eb).
    eapply holds_proper; [|reflexivity..|exact Ha]. solve_Permutation. }
  destruct (put_books p c2 v2 l _ s2 Hb2 Hv2) as [Hh3 Ho3]; [congruence|].
  exists k'. split; [done|]. split; [exact Hh3|]. split; [exact Ho3|].
  split; [|cbn; unfold rest in *; cbn; congruence]. cbn [with_servers ps_servers].
  rewrite fmap_insert, <- Eo, Es1, fmap_insert, insert_insert_eq.
  assert (outline (with_queue (m_queIdleConn v2 ++ [c2]) v2) = outline v) as ->.
  { unfold body in Eb2. injection Eb2 as _ _ En Eq Eh. unfold outline. cbn. rewrite Eq, Ev1. cbn.
    rewrite queue_rotates with (c := c), <- Hq, Eh, En, Ev1. done. }
  symmetry. apply insert_id. by rewrite lookup_fmap, Hv.
Qed.

(** A request to a server keeps the books. *)
Lemma serv_request_run p v cmd l k s :
  cmd_ok cmd -> ps_servers s !! p = Some v -> books l (option_list (m_pReply cmd) ++ k) s ->
  runs (ServRequest p cmd) s (fun x s' => answered cmd k x (contexts (ps_servers s') ++ l) (ps_world s') /\
    servers_ok (ps_servers s') /\ steady s s').
Proof.
  intros Hc Hv H. eapply runs_mono.
  { eapply (pooled_run (ConnRequest cmd) (RC_NO_RESOURCE, cmd) (fun x k' => exists r, x.2 = with_reply r cmd /\
      k' = option_list r ++ k /\ (x.1 = RC_SUCCESS -> is_Some r) /\ plain_code x.1)); [exact Hv|exact H| |].
    - exists (m_pReply cmd). rewrite with_same_reply. split_and!; [done|done|done|by do 3 right].
    - intros c s1 v1 l1 Hv1 H1. eapply runs_mono; [by eapply (conn_request_run c l1 k cmd v1)|].
      intros [x c'] s2 ((r & E & Hh & Hr) & Hs & Hp). exists (option_list r ++ k). split; [by exists r|done]. }
  intros x s' (k' & (r & E & -> & Hr) & Hh & Hs). split; [by exists r|exact Hs].
Qed.

End servers.

(** ** Arguments and results *)

(** What an argument is in memory. *)
Definition buffer_of (bShareMem : bool) (s : bytes) : bytes := if bShareMem then s ++ [NUL] else s.

(** The words that [SetArgs] puts after the name: [None] when it puts none. *)
Definition words (args : list value) : option (option (list bytes)) :=
  match args with
  | [] => Some (Some [])
  | [Text s] => Some (Some [s])
  | [Texts v] => Some (Some v)
  | [Text s; Text t] => Some (Some [s; t])
  | [Text s; Texts v] => Some (Some (s :: v))
  | [Texts v; Text s] => Some (if bool_decide (v = []) then None else Some (v ++ [s]))
  | [Texts v; Texts v'] => if negb (zlen v =? zlen v') then Some None else Some <$> zipped v v'
  | [Pairs m] => Some (Some (pair_list m))
  | [Text s; Pairs m] => Some (Some (s :: pair_list m))
  | [Text s; Text t; Text u] => Some (Some [s; t; u])
  | [Text s; Text t; Texts v] => Some (Some (s :: t :: v))
  | [Text s; Texts v; Texts v'] => l ← zipped v v'; Some (Some (s :: l))
  | [Text s; Text t; Text u; Text x] => Some (Some [s; t; u; x])
  | _ => None
  end.

Lemma zipped_length v v' l : zipped v v' = Some l -> zlen l = zlen v * 2.
Proof.
  revert v' l. induction v as [|x v IH]; intros [|y v'] l; cbn; [by intros [= <-]..|done|].
  destruct (zipped v v') as [l'|] eqn:E; [|done]. intros [= <-]. specialize (IH _ _ E). zlia.
Qed.
Lemma pair_list_length m : zlen (pair_list m) = zlen m * 2.
Proof. unfold pair_list. induction m as [|x m IH]; [done|]. cbn. zlia. Qed.

Section arguments.
Context {fl : FloatLib}.

(** A command with [n] places, of which [done] are written. *)
Definition partial (name : bytes) (share : bool) (n : nat) (done : list bytes) : CRedisCommand :=
  let left := (n - length done)%nat in
  MkCommand name share (Z.of_nat n) (zlen done)
    ((Some ∘ buffer_of share <$> done) ++ replicate left None)
    ((Some ∘ zlen <$> done) ++ replicate left None) None (-1) FUNC_DEF_CONV.

Lemma insert_next {A} (l : list (option A)) n x :
  <[length l := Some x]> (l ++ replicate (S n) None) = (l ++ [Some x]) ++ replicate n None.
Proof. rewrite insert_app_r_alt, Nat.sub_diag by lia. cbn. by rewrite <- app_assoc. Qed.

Lemma append_partial name share n done x : (length done < n)%nat ->
  AppendValue (partial name share n done) x = partial name share n (done ++ [x]).
Proof.
  intros H. unfold AppendValue, partial. cbn [m_nArgs m_nIdx m_strCmd m_bShareMem m_pszArgs m_pnArgsLen m_pReply m_nSlot m_funcConv].
  rewrite (proj2 (Z.leb_gt _ _)) by (unfold zlen; lia).
  assert (Z.to_nat (zlen done) = length done) as -> by (unfold zlen; lia).
  replace (n - length done)%nat with (S (n - length (done ++ [x]))) by (rewrite length_app; cbn; lia).
  rewrite <- (length_fmap (Some ∘ buffer_of share) done) at 1. rewrite insert_next.
  rewrite <- (length_fmap (Some ∘ zlen) done) at 1. rewrite insert_next. rewrite !fmap_app, zlen_app. done.
Qed.

Lemma append_all_partial name share n l : forall done, (length done + length l <= n)%nat ->
  foldl AppendValue (partial name share n done) l = partial name share n (done ++ l).
Proof.
  induction l as [|x l IH]; intros done H; cbn in *; [by rewrite app_nil_r|].
  rewrite append_partial by lia. rewrite IH by (rewrite length_app; cbn; lia). by rewrite <- app_assoc.
Qed.

(** All of the words, and the name before them. *)
Definition filled (name : bytes) (share : bool) (l : list bytes) : CRedisCommand :=
  partial name share (S (length l)) (name :: l).

Lemma mapM_id_Some {A} (l : list A) : mapM id (Some <$> l) = Some l.
Proof. induction l as [|x l IH]; [done|]. cbn in *. by rewrite IH. Qed.

Lemma filled_arguments name share l :
  arguments (filled name share l) = Some (buffer_of share <$> name :: l, zlen <$> name :: l).
Proof.
  unfold arguments, filled, partial. cbn [m_pszArgs m_pnArgsLen]. rewrite Nat.sub_diag. cbn [replicate]. rewrite !app_nil_r.
  rewrite !list_fmap_compose, !mapM_id_Some. done.
Qed.

Context {W : Type} {drv : PipeDriver W}.

Lemma fill_filled name share l n (s : pstate W) (Q : CRedisCommand -> pstate W -> Prop) :
  n = zlen l + 1 -> n <= INT_MAX -> Q (filled name share l) s -> runs (fill n l (new_command name share)) s Q.
Proof.
  intros -> Hn HQ. unfold fill, InitMemory, ClearArgs. assert (0 <= zlen l) by apply zlen_nonneg. prun. prun. prun.
  apply (runs_valid _ []); [by destruct share|]. prun. cbn [new_command m_pReply free_reply]. prun. prun.
  rewrite s32_small by zlia. prun. apply (runs_valid _ tt); [by rewrite (proj2 (Z.ltb_ge _ _)) by lia|].
  prun. prun. replace (Z.to_nat (zlen l + 1)) with (S (length l)) by (unfold zlen; lia).
  cbn [new_command m_strCmd m_bShareMem m_pReply m_nSlot m_funcConv].
  assert (MkCommand name share (zlen l + 1) 0 (replicate (S (length l)) None) (replicate (S (length l)) None) None (-1)
    FUNC_DEF_CONV = partial name share (S (length l)) []) as ->.
  { unfold partial. f_equal. unfold zlen. lia. }
  rewrite append_partial by (cbn; lia). rewrite append_all_partial by (cbn; lia). exact HQ.
Qed.

(** A command with the words of its arguments, or with none, which is refused. *)
Definition command_of (name : bytes) (share : bool) (l : option (list bytes)) : CRedisCommand :=
  match l with Some l => filled name share l | None => new_command name share end.

Lemma set_args_run name share args l (s : pstate W) (Q : CRedisCommand -> pstate W -> Prop) :
  words args = Some l -> zlen (default [] l) < INT_MAX -> Q (command_of name share l) s ->
  runs (SetArgs args (new_command name share)) s Q.
Proof.
  intros Hw Hl HQ. unfold SetArgs.
  destruct args as [|[?|?|?] [|[?|?|?] [|[?|?|?] [|[?|?|?] [|]]]]]; try discriminate; cbn [words] in Hw;
    repeat match type of Hw with
      | context [zipped ?v ?v'] =>
          let z := fresh "z" in let E := fresh "E" in
          destruct (zipped v v') as [z|] eqn:E; [pose proof (zipped_length _ _ _ E)|try done]
      | context [negb ?b] => destruct (negb b)
      | context [bool_decide ?p] => destruct (bool_decide p)
      end; try discriminate; cbn in Hw;
    injection Hw as <-; cbn [default from_option id command_of] in *;
    try (apply runs_ret; exact HQ); try (prun; eapply runs_valid; [reflexivity|]);
    (apply fill_filled; [rewrite ?zlen_cons, ?zlen_app, ?zlen_cons, ?zlen_nil, ?pair_list_length; lia| |exact HQ]);
    rewrite ?zlen_cons, ?zlen_app, ?zlen_cons, ?zlen_nil, ?pair_list_length in *; lia.
Qed.

Lemma command_of_ok name share l : cmd_ok (command_of name share l).
Proof. destruct l as [l|]; [eexists; apply filled_arguments|by eexists]. Qed.
Lemma command_of_reply name share l : m_pReply (command_of name share l) = None.
Proof. by destruct l. Qed.

End arguments.

Section results.
Context {dm : DataModel} {fl : FloatLib} {W : Type} {drv : PipeDriver W} {rel : PipeReliable W}.
Implicit Types (s : pstate W) (w : W) (l k : list nat).

(** What a function and a conversion make of any reply is defined. *)
Definition fetches {A} (f : fetcher A) (x : A) (conv : TFuncConvert) : Prop :=
  forall w r cell, r ∈ replies w -> hi_cell r w = Some cell ->
    exists z y n, f (fun r => hi_cell r w) cell x = Some (z, y) /\ conv z cell = Some n.

(** The value [y] was fetched, with the code [n]. *)
Definition fetched_as {A} (f : fetcher A) (x : A) (conv : TFuncConvert) (r : option nat) w (n : Z) (y : A) : Prop :=
  exists i cell z, r = Some i /\ hi_cell i w = Some cell /\ f (fun r => hi_cell r w) cell x = Some (z, y) /\
    conv z cell = Some n.

Lemma fetch_result_run {A} (f : fetcher A) x cmd l k s (Q : Z * A -> pstate W -> Prop) :
  is_Some (m_pReply cmd) -> holds l (option_list (m_pReply cmd) ++ k) (ps_world s) ->
  fetches f x (m_funcConv cmd) ->
  (forall n y, fetched_as f x (m_funcConv cmd) (m_pReply cmd) (ps_world s) n y -> Q (n, y) s) ->
  runs (FetchResult f x cmd) s Q.
Proof.
  intros [r Er] H Hf HQ. unfold FetchResult. rewrite Er in *. cbn [option_list app] in H. prun.
  apply (runs_valid _ r); [done|]. prun.
  assert (r ∈ replies (ps_world s)) as Hr by (destruct H as (_ & _ & -> & _); set_solver).
  destruct (cell_law r _ Hr) as (cell & Ec & _). eapply runs_observe; [exact Ec|]. prun.
  destruct (Hf _ _ _ Hr Ec) as (z & y & n & Ef & Ev). eapply runs_observe; [exact Ef|]. prun. cbn [fst snd].
  apply (runs_valid _ n); [done|]. prun. apply HQ. by exists r, cell, z.
Qed.

Lemma clear_args_run cmd l k s (Q : CRedisCommand -> pstate W -> Prop) :
  cmd_ok cmd -> holds l (option_list (m_pReply cmd) ++ k) (ps_world s) ->
  (forall c w, holds l k w -> Q c (with_world w s)) -> runs (ClearArgs cmd) s Q.
Proof.
  intros [[a n] Ea] H HQ. unfold ClearArgs. prun. unfold arguments in Ea.
  destruct (mapM id (m_pszArgs cmd)) as [a'|] eqn:E; [|done].
  eapply (runs_valid _ (if m_bShareMem cmd then [] else a')); [by destruct (m_bShareMem cmd)|].
  prun. eapply free_pool_reply_run; [exact H|]. intros w Hw. prun. by apply HQ.
Qed.

Lemma cmd_ok_reply cmd r : cmd_ok cmd -> cmd_ok (with_reply r cmd).
Proof. done. Qed.

End results.

(** ** Making and ending servers *)

Section making.
Context {dm : DataModel} {fl : FloatLib} {W : Type} {drv : PipeDriver W} {rel : PipeReliable W} {tmp : Temporaries}.
Context {hp : Allocation}.
Implicit Types (s : pstate W) (w : W) (l k : list nat).

(** The hosts of each server. *)
Definition hosts s : gmap nat (list (bytes * Z)) := m_vecHosts <$> ps_servers s.

(** After an operation that may change the queues: the books, the hosts, and
    what is not the world or the servers. *)
Definition kept l k s (h : gmap nat (list (bytes * Z))) s' : Prop := books l k s' /\ hosts s' = h /\ rest s' = rest s.

Lemma steady_hosts s s' : steady s s' -> hosts s' = hosts s.
Proof.
  intros [E _]. unfold hosts. apply map_eq. intros p. apply (f_equal (.!! p)) in E. rewrite !lookup_fmap in *.
  destruct (ps_servers s !! p), (ps_servers s' !! p); try done. cbn in *. apply (inj Some) in E.
  f_equal. unfold outline in E. by injection E.
Qed.

Lemma hosts_lookup s p h : hosts s !! p = Some h -> exists v, ps_servers s !! p = Some v /\ m_vecHosts v = h.
Proof. unfold hosts. rewrite lookup_fmap. destruct (ps_servers s !! p) as [v|]; [|done]. intros [= <-]. by exists v. Qed.

Lemma hosts_set p v v' s : ps_servers s !! p = Some v -> m_vecHosts v' = m_vecHosts v ->
  m_vecHosts <$> <[p := v']> (ps_servers s) = hosts s.
Proof. intros H E. unfold hosts. rewrite fmap_insert, E. apply insert_id. by rewrite lookup_fmap, H. Qed.

Lemma delete_all_run q l k : forall s (Q : unit -> pstate W -> Prop),
  holds ((q ≫= conn_contexts) ++ l) k (ps_world s) ->
  (forall w, holds l k w -> Q tt (with_world w s)) -> runs (delete_all q) s Q.
Proof.
  induction q as [|c q IH]; intros s Q H HQ; cbn [delete_all].
  { apply runs_ret. destruct s. by apply HQ. }
  prun. apply (free_context_run _ ((q ≫= conn_contexts) ++ l) k).
  { cbn in H. by rewrite <- app_assoc in H. }
  intros w Hw. apply IH; [exact Hw|]. intros w' Hw'. by apply HQ.
Qed.

Lemma clean_conn_run p v l k s : books l k s -> ps_servers s !! p = Some v ->
  runs (CleanConn p) s (fun _ s' => kept l k s (hosts s) s' /\
    ps_servers s' = <[p := with_queue [] v]> (ps_servers s)).
Proof.
  intros [H Ho] Hv. unfold CleanConn. prun. eapply runs_server; [exact Hv|]. prun.
  apply (delete_all_run _ (contexts (delete p (ps_servers s)) ++ l) k).
  { rewrite (contexts_delete p v _ Hv), <- app_assoc in H. exact H. }
  intros w Hw. eapply runs_set_server; [exact Hv|]. split; [|done]. split; [split|split; [|done]].
  - cbn [with_servers with_world ps_servers ps_world]. by rewrite contexts_set.
  - cbn [with_servers with_world ps_servers]. apply map_Forall_insert_2; [|exact Ho]. split; [done|]. by apply (Ho p v Hv).
  - unfold hosts at 1. cbn [with_servers with_world ps_servers]. by apply (hosts_set p v).
Qed.

Lemma make_connections_run n p l k : forall s, books l k s -> is_Some (ps_servers s !! p) ->
  runs (make_connections n p) s (fun _ s' => kept l k s (hosts s) s').
Proof.
  induction n as [|n IH]; intros s H [v Hv]; cbn [make_connections]; [by prun|].
  unfold new_connection. prun. prun. destruct H as [Hh Ho].
  eapply runs_mono; [apply (reconnect_run (MkConnection None 0 p) (contexts (ps_servers s) ++ l) k v); [exact Hh|exact Hv]|].
  intros [b c] s1 (H1 & Hs1 & Hp & _). cbn [fst snd] in *. prun. destruct (calm_server _ _ _ _ Hs1 Hv) as (v1 & Hv1 & Eb).
  pose proof (steady_hosts _ _ (calm_steady _ _ Hs1)) as Eh. destruct Hs1 as (Eb1 & Er & Ho1).
  assert (books (conn_contexts c ++ l) k s1) as Hb1.
  { split; [|by apply Ho1]. rewrite <- (contexts_body _ _ Eb1).
    eapply holds_proper; [|reflexivity..|exact H1]. solve_Permutation. }
  prun. destruct (IsValid c) eqn:Ec.
  - unfold ReturnConnection. eapply runs_set_server; [exact Hv1|].
    eapply runs_mono; [apply IH; [exact (put_books p c v1 l k s1 Hb1 Hv1 Hp)|exists (with_queue (m_queIdleConn v1 ++ [c]) v1); apply lookup_insert_eq]|].
    intros [] s2 (H2 & Eh2 & Er2). split; [done|]. split; [|exact (eq_trans Er2 Er)]. rewrite Eh2, <- Eh.
    unfold hosts at 1. cbn [with_servers ps_servers]. by apply (hosts_set p v1).
  - apply runs_ret. eapply runs_mono; [apply IH; [|by eexists]|].
    + unfold conn_contexts in Hb1. unfold IsValid in Ec. by destruct (m_pContext c).
    + intros [] s2 (H2 & Eh2 & Er2). split; [done|]. split; congruence.
Qed.

(** The answers to [CONFIG GET timeout] can be read. *)
Definition timeouts_ok : Prop := fetches (W := W) FetchStringArray (Some []) FUNC_DEF_CONV.

(** A command made, sent, fetched from, and cleared. *)
Lemma load_timeout_run p l k s : timeouts_ok -> books l k s -> is_Some (ps_servers s !! p) ->
  runs (load_timeout p) s (fun _ s' => kept l k s (hosts s) s').
Proof.
  intros Hf H [v Hv]. unfold load_timeout. prun.
  eapply (set_args_run _ _ _ (Some [stale (bs "get"); stale (bs "timeout")])); [done|done|]. cbn [command_of].
  set (cmd := filled _ _ _). assert (cmd_ok cmd) as Hc by apply (command_of_ok _ _ (Some _)).
  prun. eapply runs_mono; [by apply (serv_request_run p v cmd l k s)|].
  intros [z cmd1] s1 ((r & E & Hh & Hr & _) & Ho & Hs). cbn [fst snd] in *. subst cmd1.
  destruct (steady_server _ _ _ _ Hs Hv) as (v1 & Hv1 & _). prun.
  assert (forall f s' (Q : unit -> pstate W -> Prop),
    (s' = s1 \/ s' = with_servers (<[p := MkServer (sv_strHost v1) (sv_nPort v1) (m_nCliTimeout v1) f
               (sv_nConnNum v1) (m_queIdleConn v1) (m_vecHosts v1)]> (ps_servers s1)) s1) ->
    runs (_ ← ClearArgs (with_reply r cmd); mret tt) s' (fun _ s' => kept l k s (hosts s) s')) as Hend.
  { intros f s' Q Hs'. prun. apply (clear_args_run _ (contexts (ps_servers s1) ++ l) k); [done| |].
    - destruct Hs' as [->| ->]; exact Hh.
    - intros c w Hw. prun. rewrite <- (steady_hosts _ _ Hs). destruct Hs as [_ Er].
      destruct Hs' as [->| ->]; [by split_and!|]. split; [split|split; [|done]].
      + cbn [with_world with_servers ps_servers ps_world]. by rewrite (contexts_same p v1).
      + cbn [with_world with_servers ps_servers]. apply map_Forall_insert_2; [exact (Ho p v1 Hv1)|exact Ho].
      + unfold hosts at 1. cbn [with_world with_servers ps_servers]. by apply (hosts_set p v1). }
  assert (forall y, runs (_ ← (match y.2 with
       | Some [_; t] =>
           if y.1 =? RC_SUCCESS then
             set_server p (fun v => MkServer (sv_strHost v) (sv_nPort v) (m_nCliTimeout v) (atoi (cstr t))
               (sv_nConnNum v) (m_queIdleConn v) (m_vecHosts v))
           else mret tt
       | _ => mret tt
       end); _ ← ClearArgs (with_reply r cmd); mret tt) s1 (fun _ s' => kept l k s (hosts s) s')) as Hrest.
  { intros [n y]. prun.
    assert (runs (mret tt) s1 (fun _ s' => runs (_ ← ClearArgs (with_reply r cmd); mret tt) s'
      (fun _ s' => kept l k s (hosts s) s'))) as Hsame by (prun; apply (Hend 0 s1 (fun _ _ => True)); by left).
    destruct y as [[|x [|t [|]]]|]; cbn [fst snd]; try exact Hsame. destruct (n =? RC_SUCCESS); [|exact Hsame].
    eapply runs_set_server; [exact Hv1|]. apply (Hend (atoi (cstr t)) _ (fun _ _ => True)). by right. }
  destruct (z =? RC_SUCCESS) eqn:Ez.
  - apply Z.eqb_eq in Ez. eapply (fetch_result_run _ _ _ (contexts (ps_servers s1) ++ l) k); [by apply Hr|exact Hh|exact Hf|].
    intros n y _. apply (Hrest (n, y)).
  - prun. apply (Hrest (z, Some [])).
Qed.

Lemma serv_initialize_run p l k s : timeouts_ok -> books l k s -> is_Some (ps_servers s !! p) ->
  runs (serv_Initialize p) s (fun _ s' => kept l k s (hosts s) s').
Proof.
  intros Hf H [v Hv]. unfold serv_Initialize. prun. eapply runs_mono; [by eapply clean_conn_run|].
  intros [] s1 [(H1 & Eh1 & Er1) Es1]. prun. eapply runs_server; [rewrite Es1; apply lookup_insert_eq|]. prun.
  eapply runs_mono; [apply (make_connections_run _ p l k s1); [done|rewrite Es1; eexists; apply lookup_insert_eq]|].
  intros [] s2 (H2 & Eh2 & Er2). prun.
  assert (exists v2, ps_servers s2 !! p = Some v2) as [v2 Hv2].
  { destruct (hosts_lookup s2 p (m_vecHosts v)) as (v2 & Hv2 & _); [|by exists v2].
    rewrite Eh2, Eh1. unfold hosts. by rewrite lookup_fmap, Hv. }
  eapply runs_server; [exact Hv2|]. prun.
  eapply (runs_mono _ _ (fun _ s' => kept l k s2 (hosts s2) s')).
  { destruct (serv_valid v2); [apply load_timeout_run; [done..|by eexists]|by apply runs_ret]. }
  intros [] s3 (H3 & Eh3 & Er3). prun.
  destruct (hosts_lookup s3 p (m_vecHosts v2)) as (v3 & Hv3 & _); [rewrite Eh3; unfold hosts; by rewrite lookup_fmap, Hv2|].
  eapply runs_server; [exact Hv3|]. prun. split; [done|]. split; congruence.
Qed.

Lemma books_new p v l k s : books l k s -> ps_servers s !! p = None -> m_queIdleConn v = [] -> serv_ok p v ->
  books l k (with_servers (<[p := v]> (ps_servers s)) s).
Proof.
  intros [H Ho] Hp Hq Hv. split; cbn [with_servers ps_servers ps_world].
  - rewrite contexts_insert by done. unfold serv_contexts. by rewrite Hq.
  - by apply map_Forall_insert_2.
Qed.

Lemma new_server_run host port timeout n l k s : timeouts_ok -> books l k s ->
  runs (new_server host port timeout n) s (fun p s' =>
    ps_servers s !! p = None /\ kept l k s (<[p := [(host, port)]]> (hosts s)) s').
Proof.
  intros Hf H. unfold new_server. set (p := new_at (dom (ps_servers s))).
  assert (ps_servers s !! p = None) as Hp by apply not_elem_of_dom, new_at_fresh.
  pose (v := MkServer host port timeout 0 n [] [(host, port)]).
  pose (s1 := with_servers (<[p := v]> (ps_servers s)) s).
  assert (books l k s1) as H1 by (apply books_new; [done..|]; split; [done|right; left]).
  enough (runs (_ ← set_servers (insert p (MkServer host port timeout 0 n [] [])); _ ← SetSlave p host port;
    _ ← serv_Initialize p; mret p) s (fun p s' =>
    ps_servers s !! p = None /\ kept l k s (<[p := [(host, port)]]> (hosts s)) s')) by done.
  prun. eexists tt, _. split; [reflexivity|]. prun. unfold SetSlave.
  eapply runs_set_server; [apply lookup_insert_eq|]. cbn [with_servers ps_client ps_servers ps_thread ps_slices ps_world].
  rewrite insert_insert_eq. change (runs (_ ← serv_Initialize p; mret p) s1 (fun p s' =>
    ps_servers s !! p = None /\ kept l k s (<[p := [(host, port)]]> (hosts s)) s')).
  prun. eapply runs_mono; [apply (serv_initialize_run p l k s1); [done|done|eexists; apply lookup_insert_eq]|].
  intros _ s2 (H2 & Eh2 & Er2). prun. split; [done|]. split; [done|]. split; [|done].
  rewrite Eh2. unfold hosts at 1. cbn [s1 with_servers ps_servers]. by rewrite fmap_insert.
Qed.

Lemma delete_server_run p v l k s : books l k s -> ps_servers s !! p = Some v ->
  runs (delete_server p) s (fun _ s' => kept l k s (delete p (hosts s)) s').
Proof.
  intros H Hv. unfold delete_server. prun. eapply runs_mono; [by eapply clean_conn_run|].
  intros [] s1 [([H1 Ho1] & Eh1 & Er1) Es1]. eexists tt, _. split; [reflexivity|]. split; [split|split; [|done]].
  - cbn [ps_servers ps_world]. rewrite (contexts_delete p (with_queue [] v)) in H1 by (rewrite Es1; apply lookup_insert_eq).
    exact H1.
  - cbn [ps_servers]. by apply map_Forall_delete.
  - unfold hosts at 1. cbn [ps_servers]. rewrite fmap_delete. by rewrite <- Eh1.
Qed.

Lemma hosts_server s p : p ∈ dom (hosts s) -> exists v, ps_servers s !! p = Some v.
Proof. unfold hosts. rewrite dom_fmap_L. apply elem_of_dom. Qed.

Lemma delete_servers_run ps l k : forall s, books l k s -> NoDup ps -> Forall (fun p => p ∈ dom (hosts s)) ps ->
  runs (delete_servers ps) s (fun _ s' => kept l k s (foldr delete (hosts s) ps) s').
Proof.
  induction ps as [|p ps IH]; intros s H Hn Hd; cbn [delete_servers]; [by apply runs_ret|].
  apply NoDup_cons in Hn as [Hp Hn]. apply Forall_cons in Hd as [Hd Hds]. destruct (hosts_server s p Hd) as [v Hv].
  prun. eapply runs_mono; [by eapply delete_server_run|]. intros [] s1 (H1 & Eh1 & Er1).
  eapply runs_mono; [apply IH; [done|done|]|].
  - eapply Forall_impl; [|intros q Hq; exact Hq]. rewrite Forall_forall in *. intros q Hq. rewrite Eh1, dom_delete_L.
    apply elem_of_difference. split; [by apply Hds|]. set_solver.
  - intros [] s2 (H2 & Eh2 & Er2). split; [done|]. split; [|congruence]. rewrite Eh2, Eh1. cbn [foldr].
    clear. induction ps as [|q ps IH]; [done|]. cbn [foldr]. by rewrite IH, delete_delete.
Qed.

End making.

(** ** Finding a slot *)

Section search.
Context {A : Type}.
Implicit Types (less : A -> bool) (l : list A).

(** Between the elements that are [less] and the others, if these come first. *)
Lemma partition_point_run less l fuel : forall first len,
  0 <= first -> 0 <= len -> first + len <= zlen l -> len < Z.of_nat fuel ->
  exists k, partition_point fuel less l first len = Some k /\ first <= k <= first + len /\
    ((forall i j x y, 0 <= i <= j -> zget l i = Some x -> zget l j = Some y -> less y = true -> less x = true) ->
     (forall i x, first <= i < k -> zget l i = Some x -> less x = true) /\
     (forall i x, k <= i < first + len -> zget l i = Some x -> less x = false)).
Proof.
  induction fuel as [|fuel IH]; intros first len Hf Hl Hb Hn; [lia|]. cbn [partition_point].
  destruct (0 <? len) eqn:E0; [apply Z.ltb_lt in E0|apply Z.ltb_ge in E0].
  2: { exists first. split; [done|]. split; [lia|]. intros _. split; intros; lia. }
  assert (0 <= len / 2 < len) as Hh by (split; [apply Z.div_pos; lia|apply Z.div_lt; lia]).
  destruct (zget_is_Some l (first + len / 2)) as [x Ex]; [lia|]. rewrite Ex. cbn [mbind option_bind].
  destruct (less x) eqn:Ec.
  - destruct (IH (first + len / 2 + 1) (len - len / 2 - 1)) as (k & Ek & Hk & Hm); [lia..|]. exists k. split; [done|].
    split; [lia|]. intros Hmono. destruct (Hm Hmono) as [H1 H2]. split.
    + intros i y Hi Ey. destruct (decide (i <= first + len / 2)); [|apply (H1 i); [lia|done]].
      eapply (Hmono i (first + len / 2)); [lia|done..].
    + intros i y Hi. apply H2. lia.
  - destruct (IH first (len / 2)) as (k & Ek & Hk & Hm); [lia..|]. exists k. split; [done|].
    split; [lia|]. intros Hmono. destruct (Hm Hmono) as [H1 H2]. split; [done|].
    intros i y Hi Ey. destruct (decide (i < first + len / 2)); [apply (H2 i); [lia|done]|].
    destruct (less y) eqn:Ey'; [|done]. rewrite (Hmono (first + len / 2) i x y) in Ec; [done|lia|done..].
Qed.

Lemma equal_range_run less not_greater l : exists a b, equal_range less not_greater l = Some (a, b) /\
  0 <= a <= zlen l /\ 0 <= b <= zlen l /\
  ((forall i j x y, 0 <= i <= j -> zget l i = Some x -> zget l j = Some y -> less y = true -> less x = true) ->
   (forall i x, 0 <= i < a -> zget l i = Some x -> less x = true) /\
   (forall i x, a <= i < zlen l -> zget l i = Some x -> less x = false)) /\
  ((forall i j x y, 0 <= i <= j -> zget l i = Some x -> zget l j = Some y -> not_greater y = true -> not_greater x = true) ->
   (forall i x, 0 <= i < b -> zget l i = Some x -> not_greater x = true) /\
   (forall i x, b <= i < zlen l -> zget l i = Some x -> not_greater x = false)).
Proof.
  pose proof (zlen_nonneg l). assert (zlen l < Z.of_nat (S (length l))) by (unfold zlen; lia).
  destruct (partition_point_run less l (S (length l)) 0 (zlen l)) as (a & Ea & Ha & Hma); [lia..|].
  destruct (partition_point_run not_greater l (S (length l)) 0 (zlen l)) as (b & Eb & Hb & Hmb); [lia..|].
  exists a, b. unfold equal_range. rewrite Ea, Eb. split_and!; [done|lia..|exact Hma|exact Hmb].
Qed.

End search.

(** A region holds [n]; regions that are not empty and follow each other. *)
Definition region_has (n : Z) (r : SlotRegion) : Prop := nStartSlot r <= n <= nEndSlot r.
Definition in_order (l : list SlotRegion) : Prop :=
  Forall (fun r => nStartSlot r <= nEndSlot r) l /\
  forall i j x y, 0 <= i < j -> zget l i = Some x -> zget l j = Some y -> nEndSlot x < nStartSlot y.

Lemma zget_elem {A} (l : list A) i x : zget l i = Some x -> x ∈ l.
Proof. unfold zget. destruct (0 <=? i); [|done]. apply list_elem_of_lookup_2. Qed.
Lemma elem_zget {A} (l : list A) x : x ∈ l -> exists i, zget l i = Some x.
Proof.
  intros [i H]%list_elem_of_lookup_1. exists (Z.of_nat i). unfold zget. rewrite (proj2 (Z.leb_le _ _)) by lia.
  by rewrite Nat2Z.id.
Qed.

(** The search does not fault, and finds a server of the table. *)
Lemma find_slot_some l n : exists o, find_slot l n = Some o /\ (forall p, o = Some p -> exists r, r ∈ l /\ pRedisServ r = Some p).
Proof.
  unfold find_slot. destruct (equal_range_run (CompSlot_before n) (fun x => negb (CompSlot_after n x)) l)
    as (a & b & -> & Ha & _). cbn [mbind option_bind fst snd].
  destruct (negb (a =? zlen l) && negb (a =? b)) eqn:E; [|by eexists].
  apply andb_true_iff in E as [E _]. apply negb_true_iff, Z.eqb_neq in E.
  destruct (zget_is_Some l a) as [x Ex]; [lia|]. rewrite Ex. eexists. split; [done|]. intros p [= Hp].
  exists x. split; [by eapply zget_elem|done].
Qed.

Lemma find_slot_exact l n : in_order l ->
  (forall r, r ∈ l -> region_has n r -> find_slot l n = Some (pRedisServ r)) /\
  ((forall r, r ∈ l -> ~ region_has n r) -> find_slot l n = Some None).
Proof.
  intros [Hne Ho]. rewrite Forall_forall in Hne. unfold find_slot.
  destruct (equal_range_run (CompSlot_before n) (fun x => negb (CompSlot_after n x)) l)
    as (a & b & -> & Ha & Hb & Hma & Hmb). cbn [mbind option_bind fst snd].
  unfold CompSlot_before, CompSlot_after, region_has in *.
  destruct Hma as [Ha1 Ha2].
  { intros i j x y Hij Ex Ey Hy%Z.ltb_lt. apply Z.ltb_lt. destruct (decide (i = j)) as [->|]; [congruence|].
    assert (nEndSlot x < nStartSlot y) by (eapply (Ho i j); [lia|done..]). pose proof (Hne y (zget_elem _ _ _ Ey)). lia. }
  destruct Hmb as [Hb1 Hb2].
  { intros i j x y Hij Ex Ey Hy%negb_true_iff%Z.ltb_ge. apply negb_true_iff, Z.ltb_ge.
    destruct (decide (i = j)) as [->|]; [congruence|].
    assert (nEndSlot x < nStartSlot y) by (eapply (Ho i j); [lia|done..]). pose proof (Hne x (zget_elem _ _ _ Ex)). lia. }
  split.
  - intros r Hr Hn. destruct (elem_zget l r Hr) as [i Ei]. pose proof (zget_Some _ _ _ Ei).
    assert (a = i) as ->.
    { destruct (decide (a < i)).
      - destruct (zget_is_Some l a) as [x Ex]; [lia|]. pose proof (Ha2 a x ltac:(lia) Ex) as Hx%Z.ltb_ge.
        pose proof (Ho a i x r ltac:(lia) Ex Ei). lia.
      - destruct (decide (i < a)); [|lia]. pose proof (Ha1 i r ltac:(lia) Ei) as Hx%Z.ltb_lt. lia. }
    assert (i < b).
    { destruct (decide (i < b)); [done|]. pose proof (Hb2 i r ltac:(lia) Ei) as Hx%negb_false_iff%Z.ltb_lt. lia. }
    rewrite (proj2 (Z.eqb_neq i (zlen l))), (proj2 (Z.eqb_neq i b)) by lia. cbn [negb andb]. by rewrite Ei.
  - intros Hn. destruct (negb (a =? zlen l) && negb (a =? b)) eqn:E; [exfalso|done].
    apply andb_true_iff in E as [E1%negb_true_iff%Z.eqb_neq E2%negb_true_iff%Z.eqb_neq].
    destruct (zget_is_Some l a) as [x Ex]; [lia|]. pose proof (Ha2 a x ltac:(lia) Ex) as Hx%Z.ltb_ge.
    assert (n < nStartSlot x).
    { destruct (decide (n < nStartSlot x)); [done|]. exfalso. apply (Hn x (zget_elem _ _ _ Ex)). lia. }
    destruct (decide (a < b)).
    + pose proof (Hb1 a x ltac:(lia) Ex) as Hy%negb_true_iff%Z.ltb_ge. lia.
    + destruct (zget_is_Some l b) as [y Ey]; [lia|]. pose proof (Hb2 b y ltac:(lia) Ey) as Hy%negb_false_iff%Z.ltb_lt.
      pose proof (Ha1 b y ltac:(lia) Ey) as Hz%Z.ltb_lt. pose proof (Hne y (zget_elem _ _ _ Ey)). lia.
Qed.

(** Regions that are apart are in order when they are sorted. *)
Definition apart (x y : SlotRegion) : Prop := nEndSlot x < nStartSlot y \/ nEndSlot y < nStartSlot x.
Definition disjoint_regions : list SlotRegion -> Prop := ForallOrdPairs apart.

Lemma disjoint_perm l l' : l ≡ₚ l' -> disjoint_regions l -> disjoint_regions l'.
Proof.
  unfold disjoint_regions. induction 1 as [|x l l' Hp IH|x y l|l1 l2 l3 _ IH1 _ IH2]; intros H; [done| | |by auto].
  - inversion H as [|? ? Hx Hl]; subst. constructor; [by rewrite <- Hp|by apply IH].
  - inversion H as [|? ? Hy Hl]; subst. inversion Hl as [|? ? Hx Hl']; subst.
    inversion Hy as [|? ? Hyx Hy']; subst. constructor; [constructor; [|done]; unfold apart in *; lia|by constructor].
Qed.

Lemma strictly_sorted_zget {A} (R : A -> A -> Prop) l : StronglySorted R l ->
  forall i j x y, 0 <= i < j -> zget l i = Some x -> zget l j = Some y -> R x y.
Proof.
  induction 1 as [|a l Hs IH Ha]; intros i j x y Hij Ex Ey.
  { apply zget_Some in Ey. unfold zlen in Ey. cbn in Ey. lia. }
  change (a :: l) with ([a] ++ l) in *. assert (zlen [a] = 1) as Ea by done.
  rewrite zget_app_r, Ea in Ey by lia.
  destruct (decide (i = 0)) as [->|].
  - injection Ex as ->. rewrite Forall_forall in Ha. apply Ha. by eapply zget_elem.
  - rewrite zget_app_r, Ea in Ex by lia. apply (IH (i - 1) (j - 1)); [lia|done..].
Qed.

Lemma sorted_in_order {srt : RegionSort} l :
  Forall (fun r => nStartSlot r <= nEndSlot r) l -> disjoint_regions l -> in_order (sort_regions l).
Proof.
  intros Hne Hd. assert (Forall (fun r => nStartSlot r <= nEndSlot r) (sort_regions l)) as Hne' by by rewrite sort_perm.
  split; [done|]. apply strictly_sorted_zget.
  assert (StronglySorted (fun x y : SlotRegion => nStartSlot x <= nStartSlot y) (sort_regions l)) as Hs.
  { apply Sorted_StronglySorted; [intros x y z; lia|apply sort_sorted]. }
  assert (disjoint_regions (sort_regions l)) as Hd' by (eapply disjoint_perm; [by rewrite sort_perm|done]).
  clear Hne Hd. induction Hs as [|x t Hs IH Hx]; constructor.
  - inversion Hne'; inversion Hd'; subst. by apply IH.
  - inversion Hne' as [|? ? Hx1 Hne1]; inversion Hd' as [|? ? Hx2 Hd2]; subst. rewrite !Forall_forall in *.
    intros y Hy. pose proof (Hx y Hy). pose proof (Hne1 y Hy). destruct (Hx2 y Hy); lia.
Qed.
