(* ===== verification/PoolTables.v ===== *)
(** * The pooled client: tables and execution

    The tables of a client stay well formed, and every computation of it ends
    without fault, with its books in order. *)

From Stdlib Require Import Strings.Byte String.
From stdpp Require Import gmap sorting.
From S2P Require Import Prelude CLib Read Reply Network Slots StdString ClusterText ClusterNodes Driver RedisClient.
From S2P Require Import ClientFacts Decoders Pool PoolClient PoolFacts.

(** ** Tables *)

Section tables.
Context {dm : DataModel} {fl : FloatLib} {W : Type} {drv : PipeDriver W} {rel : PipeReliable W} {tmp : Temporaries}.
Context {hp : Allocation} {srt : RegionSort}.
Implicit Types (s : pstate W) (w : W) (l k : list nat).

(** Every server of the table exists, once; every region has one of them, of
    its address (of none, when the server has lost its own). *)
Definition slot_ok (h : gmap nat (list (bytes * Z))) (servs : list nat) (r : SlotRegion) : Prop :=
  exists p hs, pRedisServ r = Some p /\ p ∈ servs /\ h !! p = Some hs /\
    (sr_strHost r = [] \/ (sr_strHost r, sr_nPort r) ∈ hs).
Definition table_ok (h : gmap nat (list (bytes * Z))) (slots : list SlotRegion) (servs : list nat) : Prop :=
  NoDup servs /\ Forall (fun p => p ∈ dom h) servs /\ Forall (slot_ok h servs) slots.

(** A region as the cluster tells it. *)
Definition region_text (r : SlotRegion) : Z * Z * bytes * Z := (nStartSlot r, nEndSlot r, sr_strHost r, sr_nPort r).

Lemma slot_ok_mono h h' servs servs' r : h ⊆ h' -> servs ⊆ servs' -> slot_ok h servs r -> slot_ok h' servs' r.
Proof. intros Hh Hs (p & hs & E & Hp & E' & Ha). exists p, hs. split_and!; [done|by apply Hs|by eapply lookup_weaken|done]. Qed.

Lemma find_server_run ps host port s : servers_ok (ps_servers s) -> Forall (fun p => p ∈ dom (hosts s)) ps ->
  runs (FindServer ps host port) s (fun o s' => s' = s /\ forall p, o = Some p ->
    exists hs, p ∈ ps /\ hosts s !! p = Some hs /\ (host = [] \/ (host, port) ∈ hs)).
Proof.
  intros Ho. induction ps as [|p ps IH]; intros Hd; cbn [FindServer]; [by prun|].
  apply Forall_cons in Hd as [Hp Hd]. destruct (hosts_server s p Hp) as [v Hv]. prun. eapply runs_server; [exact Hv|].
  destruct (bool_decide (host = sv_strHost v) && (port =? sv_nPort v)) eqn:E.
  - apply andb_true_iff in E as [->%bool_decide_eq_true ->%Z.eqb_eq]. prun. split; [done|]. intros q [= <-].
    exists (m_vecHosts v). split; [left|]. unfold hosts. rewrite lookup_fmap, Hv. split; [done|]. by apply (Ho p v Hv).
  - eapply runs_mono; [by apply IH|]. intros o s' [-> H]. split; [done|]. intros q Eq.
    destruct (H q Eq) as (hs & Hq & H'). exists hs. split; [by right|done].
Qed.

(** The servers of the regions: new ones, besides those that there were. *)
Definition served l k s (done vec : list SlotRegion) (x : option (list SlotRegion) * list nat) s' : Prop :=
  books l k s' /\ hosts s ⊆ hosts s' /\ rest s' = rest s /\
  NoDup x.2 /\ Forall (fun p => p ∈ dom (hosts s')) x.2 /\
  match x.1 with
  | Some slots => region_text <$> slots = region_text <$> (done ++ vec) /\ Forall (slot_ok (hosts s') x.2) slots
  | None => True
  end.

Lemma slot_servers_run vec l k (X : gset nat) : timeouts_ok -> forall done servs s,
  books l k s -> table_ok (hosts s) done servs -> X ⊆ dom (hosts s) -> Forall (fun p => p ∉ X) servs ->
  runs (slot_servers vec done servs) s (fun x s' =>
    served l k s done vec x s' /\ Forall (fun p => p ∉ X) x.2).
Proof.
  intros Ht. induction vec as [|r vec IH]; intros done servs s H (Hn & Hd & Hs) Hh Hf; cbn [slot_servers].
  { prun. unfold served. cbn [fst snd]. rewrite app_nil_r. by split_and!. }
  prun. eapply runs_mono; [apply find_server_run; [apply H|exact Hd]|]. intros o s' [-> Ho].
  assert (forall p servs' hs s1, books l k s1 -> rest s1 = rest s -> hosts s ⊆ hosts s1 -> servs ⊆ servs' ->
    NoDup servs' -> Forall (fun p => p ∈ dom (hosts s1)) servs' -> Forall (fun p => p ∉ X) servs' ->
    p ∈ servs' -> hosts s1 !! p = Some hs -> (sr_strHost r = [] \/ (sr_strHost r, sr_nPort r) ∈ hs) ->
    runs (slot_servers vec (done ++ [MkRegion (nStartSlot r) (nEndSlot r) (sr_strHost r) (sr_nPort r) (Some p)]) servs') s1
      (fun x s' => served l k s done (r :: vec) x s' /\ Forall (fun p => p ∉ X) x.2)) as Hgo.
  { intros p servs' hs s1 H1 Er1 Hi Hss Hn1 Hd1 Hf1 Hp Ep Ha.
    eapply runs_mono; [apply (IH _ servs' s1); [done| |by etrans; [|apply subseteq_dom]|done]|].
    - split_and!; [done|done|]. apply Forall_app. split.
      + eapply Forall_impl; [exact Hs|]. intros x. by apply slot_ok_mono.
      + apply Forall_singleton. by exists p, hs.
    - intros [slots ps] s2 [(H2 & Hi2 & Er2 & Hn2 & Hd2 & Hx) Hf2]. split; [|done].
      split_and!; [done|by etrans|congruence|done|done|]. cbn [fst snd] in *. destruct slots as [slots|]; [|done].
      destruct Hx as [Hx Hx']. split; [|done]. rewrite Hx, !fmap_app. cbn. by rewrite <- app_assoc. }
  destruct o as [p|].
  - destruct (Ho p eq_refl) as (hs & Hp & Ep & Ha). by apply (Hgo p servs hs).
  - prun. prun. prun. eapply runs_mono; [by apply (new_server_run _ _ _ _ l k)|]. intros p s1 (Hp & H1 & Eh1 & Er1). prun.
    assert (hosts s !! p = None) as Hp' by (unfold hosts; by rewrite lookup_fmap, Hp).
    assert (hosts s ⊆ hosts s1) as Hi by (rewrite Eh1; by apply insert_subseteq).
    assert (hosts s1 !! p = Some [(sr_strHost r, sr_nPort r)]) as Ep by (rewrite Eh1; apply lookup_insert_eq).
    assert (p ∉ servs) as Hps.
    { intros Hin. rewrite Forall_forall in Hd. specialize (Hd p Hin). apply elem_of_dom in Hd as [? Hd]. congruence. }
    destruct (hosts_lookup s1 p _ Ep) as (v & Hv & _). eapply runs_server; [exact Hv|].
    assert (Forall (fun p => p ∈ dom (hosts s1)) servs) as Hd1.
    { eapply Forall_impl; [exact Hd|]. intros q. apply subseteq_dom, Hi. }
    destruct (negb (serv_valid v)); [prun; split; [|exact Hf]; by split_and!|].
    apply (Hgo p (servs ++ [p]) [(sr_strHost r, sr_nPort r)]); [done|done|done|set_solver| | | |set_solver|done|right; left].
    + apply NoDup_app. split_and!; [done|set_solver|apply NoDup_singleton].
    + apply Forall_app. split; [done|]. apply Forall_singleton, elem_of_dom. by eexists.
    + apply Forall_app. split; [done|]. apply Forall_singleton. intros Hin%Hh. apply elem_of_dom in Hin as [? Hin]. congruence.
Qed.

End tables.

(** ** Loading the table of a cluster *)

Section loading.
Context {dm : DataModel} {fl : FloatLib} {W : Type} {drv : PipeDriver W} {rel : PipeReliable W} {tmp : Temporaries}.
Context {hp : Allocation} {srt : RegionSort}.
Implicit Types (s : pstate W) (w : W) (l k : list nat).

Definition tables_ok s : Prop := table_ok (hosts s) (m_vecSlot (ps_client s)) (m_vecRedisServ (ps_client s)).

(** The answers to [CLUSTER SLOTS] can be read. *)
Definition slots_ok : Prop := forall v, fetches (W := W) FetchSlot (Some v) FUNC_DEF_CONV.

(** Regions that were read from a reply. *)
Definition regions_read (v : list SlotRegion) : Prop :=
  exists w i cell v0, hi_cell i w = Some cell /\ FetchSlot (fun r => hi_cell r w) cell (Some v0) = Some (RC_SUCCESS, Some v).

(** The table is that of a reply, sorted, with a server for every region. *)
Definition table_read (c : CRedisClient) : Prop := exists v slots, regions_read v /\
  region_text <$> slots = region_text <$> v /\ m_vecSlot c = sort_regions slots.

(** All but the tables, and whether they are valid. *)
Definition config (c : CRedisClient) := (m_strHost c, m_nPort c, m_nTimeout c, m_nConnNum c, m_bCluster c, m_bExit c).
Definition setting s := (config (ps_client s), ps_thread s, ps_slices s).
Lemma rest_setting s s' : rest s' = rest s -> setting s' = setting s.
Proof. unfold rest, setting. by intros [= -> -> ->]. Qed.

Lemma fetch_slot_some rd cell v z y : FetchSlot rd cell (Some v) = Some (z, y) -> exists v', y = Some v'.
Proof.
  unfold FetchSlot. destruct (rp_type cell =? REDIS_REPLY_ARRAY); [|intros [= _ <-]; by eexists].
  destruct (slot_loop _ rd cell 0 []) as [[]|]; [intros [= _ <-]; by eexists|done].
Qed.

Lemma foldr_delete_lookup (ps : list nat) (h : gmap nat (list (bytes * Z))) p : p ∉ ps -> foldr delete h ps !! p = h !! p.
Proof.
  induction ps as [|q ps IH]; [done|]. intros [Hq Hp]%not_elem_of_cons. cbn [foldr].
  rewrite lookup_delete_ne by done. by apply IH.
Qed.

(** Tables of servers that stay while others go. *)
Lemma table_ok_delete h slots servs ps : table_ok h slots servs -> Forall (fun p => p ∉ ps) servs ->
  table_ok (foldr delete h ps) slots servs.
Proof.
  intros (Hn & Hd & Hs) Hf. pose proof (proj1 (Forall_forall _ _) Hs) as Hs'. rewrite Forall_forall in Hd, Hf.
  split_and!; [done| |].
  - rewrite Forall_forall. intros p Hp. specialize (Hd p Hp). apply elem_of_dom in Hd as [x Hx]. apply elem_of_dom.
    exists x. by rewrite foldr_delete_lookup by auto.
  - rewrite Forall_forall. intros r Hr. destruct (Hs' r Hr) as (p & hs & E & Hp & E' & Ha).
    exists p, hs. by rewrite foldr_delete_lookup by auto.
Qed.
Lemma table_ok_mono h h' slots servs : h ⊆ h' -> table_ok h slots servs -> table_ok h' slots servs.
Proof.
  intros Hh (Hn & Hd & Hs). split_and!; [done| |].
  - eapply Forall_impl; [exact Hd|]. intros p. by apply subseteq_dom.
  - eapply Forall_impl; [exact Hs|]. intros r. by apply slot_ok_mono.
Qed.

Definition loaded l k (cmd : CRedisCommand) s (x : bool * CRedisCommand) s' : Prop :=
  exists r, x.2 = with_reply r cmd /\ books l (option_list r ++ k) s' /\ tables_ok s' /\ setting s' = setting s /\
    if x.1 then table_read (ps_client s') else rest s' = rest s /\ hosts s ⊆ hosts s'.

Lemma rest_client s s' : rest s' = rest s -> ps_client s' = ps_client s.
Proof. unfold rest. by intros [= ->]. Qed.

Lemma clean_server_run l k s : books l k s -> tables_ok s ->
  runs CleanServer s (fun _ s' => books l k s' /\ setting s' = setting s /\
    hosts s' = foldr delete (hosts s) (m_vecRedisServ (ps_client s)) /\
    m_vecSlot (ps_client s') = [] /\ m_vecRedisServ (ps_client s') = []).
Proof.
  intros H (Hn & Hd & _). unfold CleanServer. prun. prun. prun. eapply runs_mono; [by apply (delete_servers_run _ l k)|].
  intros [] s1 (H1 & Eh1 & Er1). eexists tt, _. split; [reflexivity|]. split; [exact H1|]. split; [|by split; [exact Eh1|]].
  apply rest_setting in Er1. exact Er1.
Qed.

Lemma load_failed ps l k cmd r s s1 : books l (option_list r ++ k) s1 -> tables_ok s ->
  rest s1 = rest s -> hosts s ⊆ hosts s1 -> NoDup ps -> Forall (fun p => p ∈ dom (hosts s1)) ps ->
  Forall (fun p => p ∉ dom (hosts s)) ps ->
  runs (_ ← delete_servers ps; mret (false, with_reply r cmd)) s1 (loaded l k cmd s).
Proof.
  intros H Ht Er Hi Hn Hd Hf. prun. eapply runs_mono; [by apply (delete_servers_run _ l (option_list r ++ k))|].
  intros [] s2 (H2 & Eh2 & Er2). prun. exists r. assert (rest s2 = rest s) as Er' by congruence.
  assert (hosts s ⊆ hosts s2) as Hi2.
  { rewrite Eh2. apply map_subseteq_spec. intros p hs Hp. rewrite foldr_delete_lookup; [by eapply lookup_weaken|].
    intros Hin. rewrite Forall_forall in Hf. apply (Hf p Hin), elem_of_dom. by eexists. }
  split_and!; [done|done| |by apply rest_setting|done].
  unfold tables_ok. rewrite (rest_client _ _ Er'). by eapply table_ok_mono.
Qed.

Lemma load_from_run ps l k : timeouts_ok -> slots_ok -> forall cmd v s,
  cmd_ok cmd -> m_funcConv cmd = FUNC_DEF_CONV -> books l (option_list (m_pReply cmd) ++ k) s -> tables_ok s ->
  Forall (fun p => p ∈ dom (hosts s)) ps -> runs (load_from ps cmd v) s (loaded l k cmd s).
Proof.
  intros Hto Hso. induction ps as [|p ps IH]; intros cmd v s Hc Hconv H Ht Hd; cbn [load_from].
  { prun. exists (m_pReply cmd). by rewrite with_same_reply. }
  apply Forall_cons in Hd as [Hp Hd]. destruct (hosts_server s p Hp) as [sv Hv]. prun. eapply runs_server; [exact Hv|].
  destruct (negb (serv_valid sv)); [prun; exists (m_pReply cmd); by rewrite with_same_reply|].
  prun. eapply runs_mono; [by eapply (serv_request_run p sv cmd l k)|].
  intros [z cmd1] s1 ((r & E & Hh & Hr & _) & Ho & Hs). cbn [fst snd] in *. subst cmd1.
  pose proof (steady_hosts _ _ Hs) as Eh. destruct Hs as [_ Er].
  assert (books l (option_list r ++ k) s1) as H1 by done.
  assert (tables_ok s1) as Ht1 by (unfold tables_ok; by rewrite Eh, (rest_client _ _ Er)).
  assert (forall f, (f.1 = RC_SUCCESS -> exists v', f.2 = Some v' /\ regions_read v') -> is_Some f.2 ->
    runs (vecSlot ← valid f.2;
      if negb (f.1 =? RC_SUCCESS) then load_from ps (with_reply r cmd) vecSlot else
      n ← slot_servers vecSlot [] [];
      match n.1 with
      | None => _ ← delete_servers n.2; mret (false, with_reply r cmd)
      | Some vecSlot => _ ← CleanServer; _ ← set_tables (sort_regions vecSlot) n.2; mret (true, with_reply r cmd)
      end) s1 (loaded l k cmd s)) as Hgo.
  { intros [n o] Hok [v' Ev]. cbn [fst snd] in *. subst o. prun. apply (runs_valid _ v'); [done|].
    destruct (n =? RC_SUCCESS) eqn:En; cbn [negb].
    2: { eapply runs_mono; [apply (IH (with_reply r cmd) v' s1); [done|done|done|done|by rewrite Eh]|].
         intros x s2 (r2 & E2 & H2 & Ht2 & Es2 & Hx2). exists r2. split_and!; [done|done|done|by rewrite Es2; apply rest_setting|].
         destruct x.1; [done|]. split; [by rewrite <- Er; apply Hx2|]. rewrite <- Eh. apply Hx2. }
    apply Z.eqb_eq in En. destruct (Hok En) as (v'' & [= <-] & Hread).
    prun. eapply runs_mono.
    { apply (slot_servers_run v' l (option_list r ++ k) (dom (hosts s1))); [done|done| |done|done].
      split_and!; [apply NoDup_nil_2|done|done]. }
    intros [slots servs] s2 ((H2 & Hi2 & Er2 & Hn2 & Hd2 & Hx) & Hf2). cbn [fst snd] in *.
    assert (rest s2 = rest s) as Er2' by congruence.
    destruct slots as [slots|].
    2: { apply load_failed; [done|done|done|by rewrite <- Eh|done|done|by rewrite <- Eh]. }
    destruct Hx as [Etxt Hslots].
    assert (tables_ok s2) as Ht2 by (unfold tables_ok in *; rewrite (rest_client _ _ Er2); by eapply table_ok_mono).
    prun. eapply runs_mono; [apply (clean_server_run l (option_list r ++ k) s2); [done|done]|].
    intros [] s3 (H3 & Es3 & Eh3 & _). prun. eexists tt, _. split; [reflexivity|]. prun. exists r.
    split_and!; [done|exact H3| | |].
    - unfold tables_ok. cbn [ps_client m_vecSlot m_vecRedisServ]. change (hosts (PState _ _ _ _ _)) with (hosts s3).
      rewrite Eh3. apply table_ok_delete; [split_and!; [done|done|by rewrite sort_perm]|].
      rewrite (rest_client _ _ Er2). destruct Ht1 as (_ & Hd1 & _). rewrite Forall_forall in *. intros q Hq Hin.
      apply (Hf2 q Hq). by apply Hd1.
    - etrans; [exact Es3|]. by apply rest_setting.
    - exists v', slots. split_and!; [done|exact Etxt|done]. }
  prun. destruct (z =? RC_SUCCESS) eqn:Ez.
  - apply Z.eqb_eq in Ez. eapply (fetch_result_run _ _ _ (contexts (ps_servers s1) ++ l) k); [by apply Hr|exact Hh|cbn [with_reply m_funcConv]; rewrite Hconv; apply Hso|].
    intros n y (i & cell & z' & Ei & Ec & Ef & En). destruct (fetch_slot_some _ _ _ _ _ Ef) as [v' ->].
    apply Hgo; [|by eexists]. intros Hn. cbn [fst] in Hn. exists v'. split; [done|].
    exists (ps_world s1), i, cell, v. split; [done|]. rewrite Ef. cbn [with_reply m_funcConv] in En. rewrite Hconv in En. injection En as ->. by rewrite Hn.
  - prun. apply Hgo; [|by eexists]. intros Hn. cbn in Hn. subst z. done.
Qed.

Lemma load_cluster_slots_run l k s : timeouts_ok -> slots_ok -> books l k s -> tables_ok s ->
  runs LoadClusterSlots s (fun b s' => books l k s' /\ tables_ok s' /\ setting s' = setting s /\
    if (b : bool) then table_read (ps_client s') else rest s' = rest s).
Proof.
  intros Hto Hso H Ht. unfold LoadClusterSlots. prun.
  eapply (set_args_run _ _ _ (Some [stale (bs "slots")])); [done|done|]. cbn [command_of].
  set (cmd := filled _ _ _). assert (cmd_ok cmd) as Hc by apply (command_of_ok _ _ (Some _)). prun. prun. prun.
  eapply runs_mono; [apply (load_from_run (m_vecRedisServ (ps_client s)) l k Hto Hso cmd [] s); [done|done|done|done|apply Ht]|].
  intros [b cmd1] s1 (r & E & H1 & Ht1 & Es1 & Hb). cbn [fst snd] in *. subst cmd1. prun.
  eapply (clear_args_run (with_reply r cmd) (contexts (ps_servers s1) ++ l) k); [done|apply H1|]. intros c w Hw. prun.
  split_and!; [split; [exact Hw|apply H1]|exact Ht1|exact Es1|]. destruct b; [exact Hb|]. by destruct Hb.
Qed.

End loading.

(** ** The refreshing thread *)

Section execution.
Context {dm : DataModel} {fl : FloatLib} {W : Type} {drv : PipeDriver W} {rel : PipeReliable W} {tmp : Temporaries}.
Context {hp : Allocation} {srt : RegionSort}.
Implicit Types (s : pstate W) (w : W) (l k : list nat).

Definition active (t : refresher) : Prop := t <> NoThread /\ t <> Ended.

(** The invariant of a client, with the connections [l] in the hands of threads
    and the replies [k]: the books, the tables, a server for the refreshing
    thread where it needs one, and the table of a valid client of a cluster. *)
Definition inv l k s : Prop :=
  books l k s /\ tables_ok s /\
  (m_bCluster (ps_client s) = false -> active (ps_thread s) -> m_vecRedisServ (ps_client s) <> []) /\
  (m_bCluster (ps_client s) = true -> m_bValid (ps_client s) = true -> table_read (W := W) (ps_client s)).

(** The configuration stays, and so do the servers of a client that is not one
    of a cluster. *)
Definition settled s s' : Prop := config (ps_client s') = config (ps_client s) /\
  (m_bCluster (ps_client s) = false -> hosts s' = hosts s /\ m_vecRedisServ (ps_client s') = m_vecRedisServ (ps_client s)).
#[global] Instance settled_preorder : PreOrder settled.
Proof.
  split; [by split|]. intros s1 s2 s3 [E1 H1] [E2 H2]. split; [congruence|]. intros Hc.
  assert (m_bCluster (ps_client s2) = false) as Hc2 by (unfold config in E1; congruence).
  destruct (H1 Hc), (H2 Hc2). split; congruence.
Qed.
Lemma steady_settled s s' : steady s s' -> settled s s'.
Proof. intros H. pose proof (steady_hosts _ _ H) as Eh. destruct H as [_ Er]. split; rewrite (rest_client _ _ Er); [done|by split]. Qed.

Definition keeps l k s s' : Prop := inv l k s' /\ settled s s'.

Lemma keeps_trans l k s s1 s2 : settled s s1 -> keeps l k s1 s2 -> keeps l k s s2.
Proof. intros E [H E']. split; [done|by etrans]. Qed.
Lemma keeps_refl l k s : inv l k s -> keeps l k s s.
Proof. intros H. by split. Qed.

(** A change that only the world sees. *)
Lemma inv_driver l k w s : holds (contexts (ps_servers s) ++ l) k w -> inv l k s -> inv l k (with_world w s).
Proof. intros Hw ([_ Ho] & Ht & Ha & Hv). by split_and!. Qed.

Lemma inv_moved l l' k k' s s' : inv l k s -> books l' k' s' -> hosts s' = hosts s -> rest s' = rest s -> inv l' k' s'.
Proof.
  intros (_ & Ht & Ha & Hv) H Eh Er. unfold inv, tables_ok in *. rewrite Eh. unfold rest in Er. by injection Er as -> -> _.
Qed.
Lemma inv_steady l k k' s s' : inv l k s -> books l k' s' -> steady s s' -> inv l k' s'.
Proof. intros H Hb Hs. eapply inv_moved; [exact H|exact Hb|by apply steady_hosts|apply Hs]. Qed.
#[global] Instance inv_proper : Proper ((≡ₚ) ==> (≡ₚ) ==> eq ==> iff) inv.
Proof. intros l l' El k k' Ek s _ <-. unfold inv, books. by rewrite El, Ek. Qed.

Lemma inv_thread l k t s : inv l k s -> (active t -> active (ps_thread s)) ->
  inv l k (PState (ps_client s) (ps_servers s) t (ps_slices s) (ps_world s)).
Proof. intros (H & Ht & Ha & Hv) Hact. split_and!; [done|done|intros; by apply Ha; [|apply Hact]|done]. Qed.

Hypothesis Hto : timeouts_ok (W := W).
Hypothesis Hso : slots_ok (W := W).

(** What a refresh has done: valid tables, or a second of sleep. *)
Lemma refresh_run l k s : inv l k s -> active (ps_thread s) ->
  runs PoolClient.refresh s (fun _ s' => keeps l k s s' /\ ps_thread s' = AtTop).
Proof.
  intros (H & Ht & Ha & Hv) Hact. unfold PoolClient.refresh. prun. prun. prun.
  eapply (runs_mono _ _ (fun b s' => books l k s' /\ tables_ok s' /\ setting s' = setting s /\
    (m_bCluster (ps_client s) = true -> b = true -> table_read (W := W) (ps_client s')) /\
    (m_bCluster (ps_client s) = false -> rest s' = rest s /\ hosts s' = hosts s))).
  { destruct (m_bCluster (ps_client s)) eqn:Ec.
    - eapply runs_mono; [by apply (load_cluster_slots_run l k)|]. intros b s1 (H1 & Ht1 & Es1 & Hb).
      split_and!; [done|done|done| |done]. intros _ ->. exact Hb.
    - prun. prun. destruct (m_vecRedisServ (ps_client s)) as [|p ps] eqn:Ep; [by destruct (Ha eq_refl Hact)|].
      prun. apply (runs_valid _ p); [done|]. destruct Ht as (Hn & Hd & Hs).
      assert (p ∈ dom (hosts s)) as Hp by (rewrite Ep in Hd; by apply Forall_cons in Hd as [? _]).
      eapply runs_mono; [apply (serv_initialize_run p l k s Hto H); by destruct (hosts_server s p Hp) as [v ->]; eexists|].
      intros b s1 (H1 & Eh1 & Er1). split_and!; [done| |by apply rest_setting|done|done].
      unfold tables_ok. rewrite Eh1, (rest_client _ _ Er1). by rewrite Ep in *. }
  intros b s1 (H1 & Ht1 & Es1 & Hb & Hnb). prun. eexists tt, _. split; [reflexivity|]. prun.
  assert (forall w, holds (contexts (ps_servers s1) ++ l) k w -> runs (set_thread AtTop)
    (with_world w (PState (MkClient (m_strHost (ps_client s1)) (m_nPort (ps_client s1)) (m_nTimeout (ps_client s1))
      (m_nConnNum (ps_client s1)) (m_bCluster (ps_client s1)) b (m_bExit (ps_client s1)) (m_vecSlot (ps_client s1))
      (m_vecRedisServ (ps_client s1))) (ps_servers s1) (ps_thread s1) (ps_slices s1) (ps_world s1)))
    (fun _ s' => keeps l k s s' /\ ps_thread s' = AtTop)) as Hend.
  { intros w Hw. eexists tt, _. split; [reflexivity|]. split; [|done].
    unfold setting, config in Es1. injection Es1 as E1 E2 E3 E4 E5 E6 E7 E8.
    split; [|split; [cbn; unfold config; cbn; congruence|]; intros Ec; destruct (Hnb Ec) as [Er1 Eh1];
      split; [exact Eh1|]; cbn; by rewrite (rest_client _ _ Er1)]. split_and!; [split; [exact Hw|apply H1]|exact Ht1| |].
    - cbn. rewrite E5. intros Ec _. rewrite (rest_client _ _ (proj1 (Hnb Ec))). by apply Ha.
    - cbn. rewrite E5. intros Ec ->. by apply Hb. }
  destruct b.
  - prun. apply (Hend (ps_world s1)). apply H1.
  - eapply sleep_run; [apply H1|]. exact Hend.
Qed.

Lemma refresh_turn_run l k s : inv l k s -> runs refresh_turn s (fun _ s' => keeps l k s s').
Proof.
  intros H. unfold refresh_turn. prun. eexists _, _. split; [reflexivity|].
  assert (forall t, ~ active t -> runs (set_thread t) s (fun _ s' => keeps l k s s')) as Hset.
  { intros t Hnt. eexists tt, _. split; [reflexivity|]. split; [|done]. by apply inv_thread. }
  assert (active (ps_thread s) -> runs PoolClient.refresh s (fun _ s' => keeps l k s s')) as Href.
  { intros Ha. eapply runs_mono; [by apply refresh_run|]. by intros [] s1 []. }
  destruct (ps_thread s) eqn:Et; try (prun; by split).
  - prun. prun. destruct (m_bExit (ps_client s)); [apply Hset; intros [_ ?]; done|].
    destruct (m_bValid (ps_client s)); [|by apply Href].
    eexists tt, _. split; [reflexivity|]. split; [|done]. apply inv_thread; [done|]. by rewrite Et.
  - by apply Href.
Qed.

Lemma notify_all_run l k s : inv l k s -> runs notify_all s (fun _ s' => keeps l k s s').
Proof.
  intros H. unfold notify_all. prun. eexists _, _. split; [reflexivity|].
  destruct (ps_thread s) eqn:Et; try (prun; by split).
  eexists tt, _. split; [reflexivity|]. split; [|done]. apply inv_thread; [done|]. by rewrite Et.
Qed.

Lemma run_ticks_run l k ts : forall s, inv l k s -> runs (run_ticks ts) s (fun _ s' => keeps l k s s').
Proof.
  induction ts as [|t ts IH]; intros s H; cbn [run_ticks]; [by prun|]. prun.
  eapply (runs_mono _ _ (fun _ s' => keeps l k s s')); [destruct t; [by apply refresh_turn_run|by apply notify_all_run]|].
  intros [] s1 [H1 E1]. eapply runs_mono; [by apply IH|]. intros [] s2. by apply keeps_trans.
Qed.

Lemma other_threads_run l k s : inv l k s -> runs other_threads s (fun _ s' => keeps l k s s').
Proof.
  intros H. unfold other_threads. prun. eexists _, _. split; [reflexivity|]. prun.
  eapply runs_mono; [apply (run_ticks_run l k); exact H|]. intros [] s1 H1. prun. exact H1.
Qed.

Lemma wait_loop_run n l k : forall s, inv l k s ->
  runs (wait_loop n) s (fun b s' => keeps l k s s' /\ (b = true -> m_bValid (ps_client s') = true)).
Proof.
  induction n as [|n IH]; intros s H; cbn [wait_loop]; prun; prun;
    (destruct (m_bValid (ps_client s)) eqn:Ev; [prun; by split|]); [prun; by split|].
  prun. eapply sleep_run; [apply H|]. intros w Hw. prun.
  eapply runs_mono; [apply (other_threads_run l k), (inv_driver l k w s Hw H)|]. intros b s1 [H1 E1].
  eapply runs_mono; [by apply IH|]. intros b' s2 [H2 Hv]. split; [|done]. by eapply keeps_trans.
Qed.

Lemma wait_for_refresh_run l k s : inv l k s ->
  runs WaitForRefresh s (fun b s' => keeps l k s s' /\ (b = true -> m_bValid (ps_client s') = true)).
Proof.
  intros H. unfold WaitForRefresh. prun. eapply runs_mono; [by apply (other_threads_run l k)|].
  intros free s1 [H1 E1]. prun. eapply (runs_mono _ _ (fun _ s' => keeps l k s1 s')).
  { destruct free; [by apply notify_all_run|by prun]. }
  intros [] s2 [H2 E2]. prun. eapply runs_mono; [by apply (other_threads_run l k)|]. intros _ s3 [H3 E3].
  eapply runs_mono; [by apply (wait_loop_run _ l k)|]. intros b s4 [H4 Hv]. split; [|done].
  eapply keeps_trans; [|exact H4]. etrans; [exact E1|]. by etrans.
Qed.

(** ** Execution *)

Lemma first_valid_run ps s : Forall (fun p => p ∈ dom (hosts s)) ps ->
  runs (first_valid ps) s (fun o s' => s' = s /\ forall p, o = Some p -> p ∈ dom (hosts s)).
Proof.
  induction ps as [|p ps IH]; intros Hd; cbn [first_valid]; [by prun|]. apply Forall_cons in Hd as [Hp Hd].
  destruct (hosts_server s p Hp) as [v Hv]. prun. eapply runs_server; [exact Hv|].
  destruct (serv_valid v); [prun; split; [done|]; by intros q [= <-]|by apply IH].
Qed.

Lemma matched_server_run cmd s : tables_ok s ->
  runs (GetMatchedServer cmd) s (fun o s' => s' = s /\ forall p, o = Some p -> p ∈ dom (hosts s)).
Proof.
  intros (Hn & Hd & Hs). unfold GetMatchedServer. prun. prun. rewrite Forall_forall in Hs. pose proof (proj1 (Forall_forall _ _) Hd) as Hd'.
  destruct (negb (m_bCluster (ps_client s))).
  { prun. split; [done|]. intros p Hp. apply Hd'. destruct (m_vecRedisServ (ps_client s)); [done|].
    injection Hp as <-. left. }
  destruct (negb _); [|by apply first_valid_run].
  destruct (find_slot_some (m_vecSlot (ps_client s)) (m_nSlot cmd)) as (o & E & Ho). apply (runs_valid _ o); [done|].
  split; [done|]. intros p Ep. destruct (Ho p Ep) as (r & Hr & Er). destruct (Hs r Hr) as (q & hs & Eq & Hq & _).
  assert (q = p) as -> by congruence. by apply Hd'.
Qed.

(** After an execution of a command: its reply is the only new one. *)
Definition executed l k (cmd : CRedisCommand) s (x : Z * CRedisCommand) s' : Prop :=
  exists r, x.2 = with_reply r cmd /\ inv l (option_list r ++ k) s' /\ settled s s' /\
    (x.1 = RC_SUCCESS -> is_Some r) /\ plain_code x.1.

Lemma executed_same l k cmd s s' z : plain_code z -> z <> RC_SUCCESS ->
  keeps l (option_list (m_pReply cmd) ++ k) s s' -> executed l k cmd s (z, cmd) s'.
Proof. intros Hz Hn [H E]. exists (m_pReply cmd). by rewrite with_same_reply. Qed.

Lemma simple_execute_run cmd l k s : cmd_ok cmd -> inv l (option_list (m_pReply cmd) ++ k) s ->
  runs (SimpleExecute cmd) s (executed l k cmd s).
Proof.
  intros Hc H. unfold SimpleExecute. prun. eapply runs_mono; [by eapply other_threads_run|]. intros _ s1 [H1 E1].
  prun. prun. assert (plain_code RC_RQST_ERR) as Hq by (right; right; by left).
  destruct (negb _); [prun; by apply executed_same|].
  prun. eapply runs_mono; [apply matched_server_run, H1|]. intros o s2 [-> Ho]. destruct o as [p|]; [|prun; by apply executed_same].
  destruct (hosts_server s1 p (Ho p eq_refl)) as [v Hv].
  eapply runs_mono; [eapply (serv_request_run p v cmd l k); [done|done|apply H1]|].
  intros [z cmd1] s2 ((r & E & Hh & Hr & Hp) & Hok & Hs). exists r. split_and!; [done| | |done|done].
  - eapply inv_steady; [exact H1|by split|done].
  - etrans; [exact E1|by apply steady_settled].
Qed.

Lemma again_run cmd z l k s : cmd_ok cmd -> inv l (option_list (m_pReply cmd) ++ k) s -> plain_code z ->
  z <> RC_SUCCESS -> runs (PoolClient.again cmd z) s (executed l k cmd s).
Proof.
  intros Hc H Hz Hn. unfold PoolClient.again. prun. eapply runs_mono; [by eapply wait_for_refresh_run|].
  intros b s1 [H1 _]. destruct b.
  - eapply runs_mono; [by apply (simple_execute_run cmd l k s1); [|apply H1]|]. intros x s2 (r & E & H2 & E2 & Hr).
    exists r. split_and!; [done|done|etrans; [apply H1|exact E2]|apply Hr|apply Hr].
  - prun. by apply executed_same.
Qed.

Lemma execute_run cmd l k s : cmd_ok cmd -> inv l (option_list (m_pReply cmd) ++ k) s ->
  runs (Execute cmd) s (executed l k cmd s).
Proof.
  intros Hc H. unfold Execute. prun. eapply runs_mono; [by eapply other_threads_run|]. intros _ s1 [H1 E1].
  prun. prun. assert (plain_code RC_RQST_ERR) as Hq by (right; right; by left).
  destruct (negb _); [prun; by apply executed_same|].
  prun. eapply runs_mono; [by apply (simple_execute_run cmd l k s1)|]. intros [z cmd1] s2 (r & E & H2 & E2 & Hr & Hz).
  cbn [fst snd] in *. subst cmd1. prun. prun. assert (settled s s2) as E2' by by etrans.
  assert (z <> RC_REPLY_ERR) as Hne by (destruct Hz as [-> | [-> | [-> | ->]]]; done).
  apply Z.eqb_neq in Hne. rewrite Hne, andb_false_r. prun. prun. cbn [orb].
  destruct (z =? RC_RQST_ERR) eqn:Ez; [|prun; by exists r]. apply Z.eqb_eq in Ez.
  eapply runs_mono; [by apply (again_run (with_reply r cmd) z l k s2); [| |done|rewrite Ez]|].
  intros x s3 (r3 & E3 & H3 & E3' & Hr3). exists r3. split_and!; [done|done|by etrans|apply Hr3|apply Hr3].
Qed.

End execution.

(** ** A command from its arguments to its result *)

Section commands.
Context {dm : DataModel} {fl : FloatLib} {W : Type} {drv : PipeDriver W} {rel : PipeReliable W} {tmp : Temporaries}.
Context {hp : Allocation} {srt : RegionSort}.
Implicit Types (s : pstate W) (w : W) (l k : list nat).
Hypothesis Hto : timeouts_ok (W := W).
Hypothesis Hso : slots_ok (W := W).

(** The code of the result and the value: fetched from a reply, or the value
    there was and why there is no reply. *)
Definition result_of {A} (funcFetch : fetcher A) (x : A) (conv : TFuncConvert) (r : Z * A) : Prop :=
  (exists i w, fetched_as funcFetch x conv i w r.1 r.2) \/
  (r.2 = x /\ (r.1 = RC_PARAM_ERR \/ r.1 = RC_RQST_ERR \/ r.1 = RC_NO_RESOURCE)).

Lemma execute_impl_run {A} name args ws slot (funcFetch : fetcher A) x conv l k s :
  words args = Some ws -> zlen (default [] ws) < INT_MAX -> fetches (W := W) funcFetch x conv -> inv l k s ->
  runs (ExecuteImpl name args slot None funcFetch x conv) s (fun r s' =>
    keeps l k s s' /\ r.2 = None /\ result_of funcFetch x conv r.1).
Proof.
  intros Hw Hl Hf H. unfold ExecuteImpl. prun. cbn [isSome negb]. eapply (set_args_run _ _ _ ws); [done|done|].
  pose proof (command_of_ok name true ws) as Hc. pose proof (command_of_reply name true ws) as Hr0.
  set (cmd := SetConvFunc conv _). assert (cmd_ok cmd) as Hc' by exact Hc.
  assert (m_pReply cmd = None) as Hr' by exact Hr0. prun.
  eapply runs_mono; [apply (execute_run Hto Hso cmd l k s Hc'); by rewrite Hr'|].
  intros [z cmd1] s1 (r & E & H1 & E1 & Hr & Hz). cbn [fst snd] in *. subst cmd1. prun.
  assert (forall y, result_of funcFetch x conv y -> runs (_ ← ClearArgs (with_reply r cmd); mret (y, None)) s1
    (fun x0 s' => keeps l k s s' /\ x0.2 = (None : option CRedisPipeline) /\ result_of funcFetch x conv x0.1)) as Hend.
  { intros y Hy. prun. eapply (clear_args_run (with_reply r cmd) (contexts (ps_servers s1) ++ l) k); [done|apply H1|].
    intros c w Hw'. prun. split; [|done]. split; [|exact E1].
    eapply (inv_steady l (option_list r ++ k)); [exact H1| |by split]. split; [exact Hw'|apply H1]. }
  destruct (z =? RC_SUCCESS) eqn:Ez.
  - apply Z.eqb_eq in Ez. eapply (fetch_result_run _ _ _ (contexts (ps_servers s1) ++ l) k); [by apply Hr|apply H1|exact Hf|].
    intros n y Hy. apply Hend. left. by exists r, (ps_world s1).
  - prun. apply Hend. right. split; [done|]. cbn. destruct Hz as [-> | Hz]; [done|exact Hz].
Qed.

(** ** The life of a client *)

Lemma info_some str m : exists r, ConvertToMapInfo str m = Some r.
Proof.
  unfold ConvertToMapInfo. generalize (lines str) as ls. intros ls. revert m.
  induction ls as [|line ls IH]; intros m; cbn [info_loop]; [by eexists|]. destruct (_ || _); [apply IH|].
  destruct (find line Byte.x3a 0) as [p|] eqn:E; [|by eexists]. apply find_range in E; [|zlia].
  destruct (substr_some line 0 p) as [x ->]; [lia|]. destruct (substr_some line (p + 1) npos) as [y ->]; [lia|]. apply IH.
Qed.

(** The servers stay, with more hosts. *)
Definition tended l k s s' : Prop := books l k s' /\ dom (hosts s') = dom (hosts s) /\ rest s' = rest s.

Lemma set_slave_run p host port l k s : books l k s -> p ∈ dom (hosts s) ->
  runs (SetSlave p host port) s (fun _ s' => tended l k s s').
Proof.
  intros [H Ho] Hp. destruct (hosts_server s p Hp) as [v Hv]. unfold SetSlave. eapply runs_set_server; [exact Hv|].
  split_and!; [split|..|done].
  - cbn [with_servers ps_servers ps_world]. by rewrite (contexts_same p v).
  - cbn [with_servers ps_servers]. apply map_Forall_insert_2; [|exact Ho]. destruct (Ho p v Hv) as [Hq Ha].
    split; [exact Hq|]. destruct Ha as [Ha|Ha]; [by left|right]. cbn. set_solver.
  - unfold hosts. cbn [with_servers ps_servers]. rewrite !dom_fmap_L, dom_insert_L. apply elem_of_dom_2 in Hv. set_solver.
Qed.

Lemma slave_loop_run n l k m p : forall i ss s, books l k s -> p ∈ dom (hosts s) ->
  runs (slave_loop n i ss m p) s (fun _ s' => tended l k s s').
Proof.
  induction n as [|n IH]; intros i ss s H Hp; cbn [slave_loop]; [by prun|].
  destruct (m !! _) as [info|]; [|by apply IH]. cbv zeta. prun.
  eapply (runs_mono _ _ (fun _ s' => tended l k s s')); [destruct (_ && _); [by apply set_slave_run|by prun]|].
  intros [] s1 (H1 & Eh1 & Er1). eapply runs_mono; [apply IH; [done|by rewrite Eh1]|].
  intros [] s2 (H2 & Eh2 & Er2). split_and!; [done|congruence..].
Qed.

Lemma load_slave_run l k m s : books l k s -> tables_ok s -> m_vecRedisServ (ps_client s) <> [] ->
  runs (LoadSlaveInfo m) s (fun b s' => b = true /\ tended l k s s').
Proof.
  intros H (_ & Hd & _) Hne. unfold LoadSlaveInfo. destruct (m !! _) as [x|]; [|by prun]. prun. prun. prun.
  eapply (runs_mono _ _ (fun _ s' => tended l k s s')); [|intros [] s1 H1; by prun].
  destruct (Z.to_nat _) as [|n]; [by prun|]. destruct (m_vecRedisServ (ps_client s)) as [|p ps]; [done|].
  prun. apply (runs_valid _ p); [done|]. apply Forall_cons in Hd as [Hp _]. by apply slave_loop_run.
Qed.

(** The invariant, and the thread when all went well. *)
Definition initialized l k (b : bool) s' : Prop := inv l k s' /\
  if b then m_bValid (ps_client s') = true /\ ps_thread s' = AtTop else ps_thread s' = NoThread.

Lemma load_tables_run m l k s : books l k s -> tables_ok s -> m_vecRedisServ (ps_client s) <> [] ->
  m_vecSlot (ps_client s) = [] ->
  runs (ok ← (if m_bCluster (ps_client s) then LoadClusterSlots else LoadSlaveInfo m);
        _ ← (if (ok : bool) then set_thread AtTop else mret tt); _ ← set_valid ok; mret ok) s
    (fun b s' => ps_thread s = NoThread -> initialized l k b s').
Proof.
  intros H Ht Hne Hsl. prun.
  eapply (runs_mono _ _ (fun b s' => books l k s' /\ tables_ok s' /\ setting s' = setting s /\
    (m_bCluster (ps_client s) = true -> b = true -> table_read (W := W) (ps_client s')) /\
    (m_bCluster (ps_client s) = false -> rest s' = rest s))).
  { destruct (m_bCluster (ps_client s)).
    - eapply runs_mono; [by apply (load_cluster_slots_run l k)|]. intros b s1 (H1 & Ht1 & Es1 & Hb).
      split_and!; [done|done|done| |done]. intros _ ->. exact Hb.
    - eapply runs_mono; [by apply (load_slave_run l k)|]. intros b s1 (_ & H1 & Eh1 & Er1).
      split_and!; [done| |by apply rest_setting|done|done].
      unfold tables_ok, table_ok in *. rewrite Eh1, (rest_client _ _ Er1), Hsl. split_and!; [apply Ht|apply Ht|done]. }
  intros b s1 (H1 & Ht1 & Es1 & Hb & Hnb). unfold setting, config in Es1. injection Es1 as E1 E2 E3 E4 E5 E6 E7 E8.
  prun. eapply (runs_mono _ _ (fun _ s' => s' = PState (ps_client s1) (ps_servers s1)
    (if b then AtTop else ps_thread s1) (ps_slices s1) (ps_world s1))).
  { destruct b; [by eexists tt, _|]. prun. by destruct s1. }
  intros [] s2 ->. prun. eexists tt, _. split; [reflexivity|]. prun. intros Hth. split.
  - split_and!; [exact H1|exact Ht1| |].
    + cbn. rewrite E5. intros Ec _. by rewrite (rest_client _ _ (Hnb Ec)).
    + cbn. rewrite E5. intros Ec ->. by apply Hb.
  - cbn. destruct b; [done|congruence].
Qed.

(** A client that has loaded nothing. *)
Definition blank (c : CRedisClient) : Prop := m_vecSlot c = [] /\ m_vecRedisServ c = [] /\ m_bCluster c = false.
Lemma blank_initialized l k s : books l k s -> blank (ps_client s) -> ps_thread s = NoThread -> initialized l k false s.
Proof.
  intros H (Es & Ep & Ec) Et. split; [|done]. unfold inv, tables_ok. rewrite Es, Ep, Ec, Et.
  split_and!; [done| |by intros _ []|done]. split_and!; [apply NoDup_nil_2|done|done].
Qed.

Lemma fetch_string_some rd cell v z y : FetchString rd cell (Some v) = Some (z, y) -> is_Some y.
Proof.
  unfold FetchString. destruct (_ || _); [|destruct (is_nil cell); by intros [= _ <-]].
  destruct (text cell); [by intros [= _ <-]|done].
Qed.

Lemma initialize_run host port timeout n l k s : fetches (W := W) FetchString (Some []) FUNC_DEF_CONV ->
  books l k s -> ps_client s = new_client -> ps_thread s = NoThread ->
  runs (Initialize host port timeout n) s (initialized l k).
Proof.
  intros Hfs H Hc Hth. unfold Initialize. cbv zeta. prun.
  assert (forall p, find host Byte.x3a 0 = Some p -> 0 <= p < zlen host) as Hp.
  { intros p ?%find_range; [lia|zlia]. }
  assert (exists name, (match find host Byte.x3a 0 with None => Some host | Some n => substr host 0 n end) = Some name) as [name En].
  { destruct (find host Byte.x3a 0) as [p|]; [|by eexists]. apply substr_some. zlia. }
  eapply runs_valid; [exact En|]. prun.
  assert (exists z, (match find host Byte.x3a 0 with None => Some port
    | Some n => s ← substr host (n + 1) npos; Some (atoi (cstr s)) end) = Some z) as [z Ez].
  { destruct (find host Byte.x3a 0) as [p|]; [|by eexists]. specialize (Hp p eq_refl).
    destruct (substr_some host (p + 1) npos) as [t ->]; [lia|]. by eexists. }
  eapply runs_valid; [exact Ez|]. prun. eexists tt, _. split; [reflexivity|]. cbv beta.
  set (s0 := PState (MkClient _ _ _ _ _ _ _ _ _) _ _ _ _).
  assert (blank (ps_client s0)) as Hb by (cbn; rewrite Hc; done).
  destruct (_ || _ || _ || _); [prun; by apply blank_initialized|]. prun.
  eapply runs_mono; [by apply (new_server_run _ _ _ _ l k s0)|]. intros p s1 (_ & H1 & Eh1 & Er1).
  assert (forall s2, books l k s2 -> rest s2 = rest s1 -> initialized l k false s2) as Hno.
  { intros s2 H2 Er2. assert (rest s2 = rest s0) as Er by congruence. unfold rest in Er. injection Er as Ec Et _.
    apply blank_initialized; [done|by rewrite Ec|by rewrite Et]. }
  assert (p ∈ dom (hosts s1)) as Hpd by (rewrite Eh1, dom_insert_L; set_solver).
  destruct (hosts_server s1 p Hpd) as [v Hv]. prun. eapply runs_server; [exact Hv|].
  destruct (negb (serv_valid v)); [prun; by apply Hno|]. prun.
  eapply (set_args_run _ _ _ (Some [])); [done|done|]. cbn [command_of]. set (cmd := filled _ _ _).
  assert (cmd_ok cmd) as Hcmd by apply (command_of_ok _ _ (Some _)). prun.
  eapply runs_mono; [by apply (serv_request_run p v cmd l k)|].
  intros [z1 cmd1] s2 ((r & E & Hh & Hr & _) & Ho & Hs). cbn [fst snd] in *. subst cmd1. prun.
  destruct Hs as [Eo Er2]. pose proof (steady_hosts s1 s2 (conj Eo Er2)) as Eh2.
  assert (books l (option_list r ++ k) s2) as H2 by done.
  assert (forall b s3, initialized l (option_list r ++ k) b s3 ->
    runs (_ ← ClearArgs (with_reply r cmd); mret b) s3 (initialized l k)) as Hend.
  { intros b s3 [H3 Hb3]. prun. eapply (clear_args_run (with_reply r cmd) (contexts (ps_servers s3) ++ l) k); [done|apply H3|].
    intros c w Hw. prun. split; [|exact Hb3]. eapply (inv_steady l (option_list r ++ k)); [exact H3| |by split].
    split; [exact Hw|apply H3]. }
  assert (initialized l (option_list r ++ k) false s2) as Hno2.
  { apply blank_initialized; [done|..]; assert (rest s2 = rest s0) as Er by congruence; unfold rest in Er;
      injection Er as Ec Et _; [by rewrite Ec|by rewrite Et]. }
  eapply (runs_mono _ _ (fun f s' => s' = s2 /\ (f.1 = RC_SUCCESS -> is_Some f.2))).
  { destruct (z1 =? RC_SUCCESS) eqn:Ez1.
    - apply Z.eqb_eq in Ez1. eapply (fetch_result_run _ _ _ (contexts (ps_servers s2) ++ l) k); [by apply Hr|exact Hh|exact Hfs|].
      intros c y (i & cell & z' & _ & _ & Ef & _). split; [done|]. intros _. by eapply fetch_string_some.
    - prun. by split. }
  intros f s3 [-> Hf]. prun.
  assert (exists info, (if f.1 =? RC_SUCCESS then strInfo ← f.2; ConvertToMapInfo strInfo ∅
    else Some (false, (∅ : gmap bytes bytes))) = Some info) as [info Ei].
  { destruct (f.1 =? RC_SUCCESS) eqn:E1; [|by eexists]. apply Z.eqb_eq in E1. destruct (Hf E1) as [x ->]. apply info_some. }
  eapply runs_valid; [exact Ei|]. prun. cbv zeta.
  eapply runs_mono; [|intros b s3 H3; exact (Hend b s3 H3)].
  destruct (if (info.1 : bool) then info.2 !! bs "cluster_enabled" else None) as [x|]; [|by prun].
  prun. eexists tt, _. split; [reflexivity|]. prun. prun. prun. prun. prun. eexists tt, _. split; [reflexivity|].
  cbv beta. assert (rest s2 = rest s0) as Er by congruence. unfold rest in Er. injection Er as Ec Et _.
  set (s3 := PState _ _ _ _ _). change (negb (atoi (cstr x) =? 0)) with (m_bCluster (ps_client s3)).
  assert (m_vecSlot (ps_client s3) = [] /\ m_vecRedisServ (ps_client s3) = [p]) as [Esl Epl].
  { cbn. rewrite Ec. cbn. by rewrite Hc. }
  eapply runs_mono; [apply (load_tables_run info.2 l (option_list r ++ k)); [exact H2| |by rewrite Epl|exact Esl]|].
  - unfold tables_ok. rewrite Esl, Epl. split_and!; [apply NoDup_singleton|apply Forall_singleton|done].
    change (p ∈ dom (hosts s2)). by rewrite Eh2.
  - intros b s4 H4. apply H4. cbn. rewrite Et. exact Hth.
Qed.

(** ** The end of a client *)

Lemma last_turn_run k s : inv [] k s -> m_bExit (ps_client s) = true ->
  runs refresh_turn s (fun _ s' => keeps [] k s s' /\
    (ps_thread s = Woken -> ps_thread s' = AtTop) /\
    (ps_thread s <> Woken -> ps_thread s <> Waiting -> ~ active (ps_thread s'))).
Proof.
  intros H Hx. unfold refresh_turn. prun. eexists _, _. split; [reflexivity|].
  destruct (ps_thread s) eqn:Et.
  - prun. split; [by apply keeps_refl|]. split; [done|]. rewrite Et. by intros _ _ [].
  - prun. prun. rewrite Hx. eexists tt, _. split; [reflexivity|]. split; [|split; [done|by intros _ _ []]].
    split; [|by split]. apply inv_thread; [done|]. by intros [].
  - prun. split; [by apply keeps_refl|]. by split.
  - eapply runs_mono; [apply (refresh_run Hto Hso [] k s H); by rewrite Et|]. intros [] s1 [H1 E1]. by split.
  - prun. split; [by apply keeps_refl|]. split; [done|]. rewrite Et. by intros _ _ [].
Qed.

Lemma join_run k s : inv [] k s -> m_bExit (ps_client s) = true -> ps_thread s <> Waiting ->
  runs PoolClient.join s (fun _ s' => keeps [] k s s' /\ ~ active (ps_thread s')).
Proof.
  intros H Hx Hw. unfold PoolClient.join. prun. eapply runs_mono; [by apply (last_turn_run k)|].
  intros [] s1 (H1 & Ha & Hb).
  assert (m_bExit (ps_client s1) = true) as Hx1 by (destruct H1 as (_ & E1 & _); unfold config in E1; congruence).
  eapply runs_mono; [by apply (last_turn_run k); [apply H1|]|]. intros [] s2 (H2 & Ha2 & Hb2).
  split; [eapply keeps_trans; [|exact H2]; apply H1|]. destruct (decide (ps_thread s = Woken)) as [E|E].
  - apply Hb2; rewrite (Ha E); done.
  - specialize (Hb E Hw). apply Hb2; intros Es; apply Hb; rewrite Es; done.
Qed.

Lemma foldr_delete_elem (ps : list nat) (h : gmap nat (list (bytes * Z))) p : p ∈ ps -> foldr delete h ps !! p = None.
Proof.
  induction ps as [|q ps IH]; [by intros ?%not_elem_of_nil|]. cbn [foldr]. intros [->|Hp]%elem_of_cons; [apply lookup_delete_eq|].
  destruct (decide (p = q)) as [->|Hq]; [apply lookup_delete_eq|]. rewrite lookup_delete_ne by done. by apply IH.
Qed.

(** A client in the end: it has no servers, and the thread is over. *)
Lemma delete_client_run k s : inv [] k s ->
  runs delete_client s (fun _ s' => books [] k s' /\ m_vecSlot (ps_client s') = [] /\
    m_vecRedisServ (ps_client s') = [] /\ ~ active (ps_thread s') /\
    (m_bCluster (ps_client s) = false -> (forall p, p ∈ dom (hosts s) -> p ∈ m_vecRedisServ (ps_client s)) ->
     ps_servers s' = ∅)).
Proof.
  intros (H & Ht & Ha & _). unfold delete_client. prun. eexists tt, _. split; [reflexivity|]. prun.
  eexists tt, _. split; [reflexivity|]. prun. set (s0 := PState _ _ _ _ _).
  assert (inv [] k s0) as H0 by (by split_and!).
  unfold notify_all. prun. eexists _, _. split; [reflexivity|].
  eapply (runs_mono _ _ (fun _ s' => keeps [] k s0 s' /\ m_bExit (ps_client s') = true /\ ps_thread s' <> Waiting)).
  { destruct (ps_thread s0) eqn:Et; try (prun; split; [by apply keeps_refl|split; [done|by rewrite Et]]).
    eexists tt, _. split; [reflexivity|]. split; [|done]. split; [|by split]. apply inv_thread; [done|]. by rewrite Et. }
  intros [] s1 (H1 & Hx1 & Hw1). prun. eapply runs_mono; [apply (join_run k s1); [apply H1|done|done]|].
  intros [] s2 [H2 Hn2]. eapply runs_mono; [apply (clean_server_run [] k s2); apply H2|].
  intros [] s3 (H3 & Es3 & Eh3 & Esl & Eps).
  assert (ps_thread s3 = ps_thread s2) as Et3 by (unfold setting in Es3; congruence).
  split_and!; [done|done|done|by rewrite Et3|].
  intros Hc Hall. destruct H2 as (_ & _ & Hc2). destruct H1 as (_ & Ec1 & Hc1).
  destruct (Hc1 Hc) as [Eh1 Ep1]. assert (m_bCluster (ps_client s1) = false) as Hcl by (unfold config in Ec1; cbn in Ec1; congruence).
  destruct (Hc2 Hcl) as [Eh2 Ep2]. apply map_eq. intros p. rewrite lookup_empty.
  destruct (ps_servers s3 !! p) as [v|] eqn:Ev; [|done]. exfalso.
  assert (hosts s3 !! p = Some (m_vecHosts v)) as Hp by (unfold hosts; by rewrite lookup_fmap, Ev).
  rewrite Eh3, Ep2, Ep1, Eh2, Eh1 in Hp. destruct (decide (p ∈ m_vecRedisServ (ps_client s))) as [Hin|Hin].
  - change (m_vecRedisServ (ps_client s0)) with (m_vecRedisServ (ps_client s)) in Hp. by rewrite foldr_delete_elem in Hp.
  - apply Hin, Hall. change (m_vecRedisServ (ps_client s0)) with (m_vecRedisServ (ps_client s)) in Hp.
    rewrite foldr_delete_lookup in Hp by done. apply elem_of_dom. by eexists.
Qed.

End commands.

(** ** Pipelines *)

Section pipelines.
Context {dm : DataModel} {fl : FloatLib} {W : Type} {drv : PipeDriver W} {rel : PipeReliable W} {tmp : Temporaries}.
Context {hp : Allocation} {srt : RegionSort}.
Implicit Types (s : pstate W) (w : W) (l k : list nat) (cmds : list CRedisCommand).

(** The replies of commands; commands that differ in their replies; whether
    one has a reply. *)
Definition cmd_replies cmds : list nat := cmds ≫= (fun c => option_list (m_pReply c)).
Definition same_commands : list CRedisCommand -> list CRedisCommand -> Prop := Forall2 (fun c c' => exists r, c' = with_reply r c).
Definition has_reply cmds (i : nat) : Prop := exists c, cmds !! i = Some c /\ is_Some (m_pReply c).

Lemma cmd_replies_set cmds i c c' : cmds !! i = Some c -> exists rest,
  cmd_replies cmds ≡ₚ option_list (m_pReply c) ++ rest /\ cmd_replies (<[i := c']> cmds) ≡ₚ option_list (m_pReply c') ++ rest.
Proof.
  intros H. exists (cmd_replies (take i cmds) ++ cmd_replies (drop (S i) cmds)).
  assert (i < length cmds)%nat as Hi by by eapply lookup_lt_Some. split.
  - rewrite <- (take_drop_middle cmds i c H) at 1. unfold cmd_replies. rewrite bind_app, bind_cons. solve_Permutation.
  - rewrite insert_take_drop by done. unfold cmd_replies. rewrite bind_app, bind_cons. solve_Permutation.
Qed.

Lemma same_commands_refl cmds : same_commands cmds cmds.
Proof. apply Forall_Forall2_diag, Forall_true. intros c. exists (m_pReply c). by rewrite with_same_reply. Qed.
Lemma same_commands_trans cmds1 cmds2 cmds3 : same_commands cmds1 cmds2 -> same_commands cmds2 cmds3 -> same_commands cmds1 cmds3.
Proof.
  intros H. revert cmds3. induction H as [|c1 c2 t1 t2 [r2 ->] _ IH]; intros cmds3 H2; inversion H2 as [|? c3 ? t3 [r3 ->]]; subst;
    constructor; [by exists r3|by apply IH].
Qed.
Lemma same_commands_set cmds i c r : cmds !! i = Some c -> same_commands cmds (<[i := with_reply r c]> cmds).
Proof. intros H. rewrite <- (list_insert_id cmds i c H) at 1. apply Forall2_insert; [apply same_commands_refl|by exists r]. Qed.
Lemma same_commands_ok cmds cmds' : same_commands cmds cmds' -> Forall cmd_ok cmds -> Forall cmd_ok cmds'.
Proof. induction 1 as [|c c' t t' [r ->] _ IH]; [done|]. intros [Hc Ht]%Forall_cons. constructor; [exact Hc|by apply IH]. Qed.

Definition indices cmds (ids : list nat) : Prop := Forall (fun i => (i < length cmds)%nat) ids.

Lemma hand_live c p l k w : m_pContext c = Some p -> holds (conn_contexts c ++ l) k w -> p ∈ live w.
Proof. unfold conn_contexts. intros ->. apply holds_in. Qed.

Lemma append_all_run c p ids cmds l k : m_pContext c = Some p -> Forall cmd_ok cmds -> indices cmds ids ->
  forall z s, holds (conn_contexts c ++ l) k (ps_world s) -> plain_code z ->
  runs (append_all (m_pContext c) cmds ids z) s (fun x s' => plain_code x /\ holds (conn_contexts c ++ l) k (ps_world s') /\ calm s s').
Proof.
  intros Ec Hok. induction ids as [|i ids IH]; intros Hi z s H Hz; cbn [append_all]; [by prun|].
  apply Forall_cons in Hi as [Hi His]. destruct (negb (z =? RC_SUCCESS)); [by prun|].
  destruct (lookup_lt_is_Some_2 cmds i Hi) as [cmd Hcmd]. prun. apply (runs_valid _ cmd); [done|]. prun.
  eapply (runs_mono _ _ (fun x s' => plain_code x /\ holds (conn_contexts c ++ l) k (ps_world s') /\ calm s s')).
  { unfold CmdAppend. rewrite Ec. destruct (m_nArgs cmd <=? 0); [prun; split; [by right; left|by split]|].
    pose proof (Forall_lookup_1 _ _ _ _ Hok Hcmd) as [[a n] Ea]. prun. apply (runs_valid _ (a, n)); [done|]. prun.
    assert (p ∈ live (ps_world s)) as Hp by by eapply hand_live.
    destruct (append_law p (m_nArgs cmd) a n (ps_world s) Hp) as (r & w' & E & El & Er). eapply runs_drive; [exact E|].
    prun. split; [destruct (r =? REDIS_OK); [by left|right; right; by left]|]. split; [by eapply holds_eq|calm_world]. }
  intros x s1 (Hx & H1 & Hs1). eapply runs_mono; [by apply IH|]. intros y s2 (Hy & H2 & Hs2).
  split_and!; [done|done|by etrans].
Qed.

(** After the replies of some commands were taken. *)
Definition flushed cmds (ids : list nat) l k (x : Z * list CRedisCommand) w : Prop :=
  same_commands cmds x.2 /\ holds l (cmd_replies x.2 ++ k) w /\ plain_code x.1 /\
  (x.1 = RC_SUCCESS -> Forall (has_reply x.2) ids).

Lemma reply_all_run c p ids l k : m_pContext c = Some p ->
  forall cmds z s, indices cmds ids -> holds (conn_contexts c ++ l) (cmd_replies cmds ++ k) (ps_world s) -> plain_code z ->
  runs (reply_all (m_pContext c) cmds ids z) s (fun x s' => flushed cmds ids (conn_contexts c ++ l) k x (ps_world s') /\
    calm s s' /\ (x.1 = RC_SUCCESS -> z = RC_SUCCESS /\ forall i, has_reply cmds i -> has_reply x.2 i)).
Proof.
  intros Ec. induction ids as [|i ids IH]; intros cmds z s Hi H Hz; cbn [reply_all].
  { prun. split; [|split; [reflexivity|done]]. split_and!; [apply same_commands_refl|done|done|done]. }
  apply Forall_cons in Hi as [Hi His]. destruct (z =? RC_SUCCESS) eqn:Ez; cbn [negb].
  2: { apply Z.eqb_neq in Ez. prun. split; [|split; [reflexivity|done]]. split_and!; [apply same_commands_refl|done|done|done]. }
  destruct (lookup_lt_is_Some_2 cmds i Hi) as [cmd Hcmd]. prun. apply (runs_valid _ cmd); [done|]. prun.
  eapply (runs_mono _ _ (fun x s' => exists r, x.2 = with_reply r cmd /\ plain_code x.1 /\ (x.1 = RC_SUCCESS -> is_Some r) /\
    holds (conn_contexts c ++ l) (cmd_replies (<[i := with_reply r cmd]> cmds) ++ k) (ps_world s') /\ calm s s')).
  { unfold CmdReply. prun. destruct (cmd_replies_set cmds i cmd cmd Hcmd) as (rest0 & E1 & _). rewrite E1, <- app_assoc in H.
    eapply (free_pool_reply_run _ _ (rest0 ++ k)); [exact H|]. intros w Hw. prun. apply (runs_valid _ p); [done|]. prun.
    assert (p ∈ live w) as Hp by by eapply hand_live.
    destruct (get_reply_law p w Hp) as (st & r & w' & E & El & Hst & Hr). eapply runs_drive; [exact E|]. prun. exists r.
    split; [done|]. cbn [fst snd]. split; [destruct (st =? REDIS_OK); [by left|right; right; by left]|].
    split; [destruct (st =? REDIS_OK) eqn:Es; [apply Z.eqb_eq in Es; auto|done]|]. split; [|calm_world].
    destruct (cmd_replies_set cmds i cmd (with_reply r cmd) Hcmd) as (rest & E2 & ->).
    assert (rest ≡ₚ rest0) as -> by (apply (Permutation_app_inv_l (option_list (m_pReply cmd))); by rewrite <- E1, <- E2).
    rewrite <- app_assoc. cbn [with_world ps_world]. destruct Hw as (H1 & H2 & H3 & H4). destruct r as [r|].
    - destruct Hr as [Hn Hr]. split_and!; [by rewrite El|done|rewrite Hr, H3; cbn; set_solver|].
      cbn. apply NoDup_cons. split; [|done]. rewrite H3 in Hn. set_solver.
    - split_and!; [by rewrite El|done|by rewrite Hr|done]. }
  intros [z1 cmd1] s1 (r & E & Hz1 & Hr1 & H1 & Hs1). cbn [fst snd] in *. subst cmd1.
  eapply runs_mono; [apply (IH (<[i := with_reply r cmd]> cmds) z1 s1); [unfold indices; by rewrite length_insert|done|done]|].
  intros x s2 ((Hsame & H2 & Hx & Hall) & Hs2 & Hkeep). split; [|split; [by etrans|]].
  - split_and!; [eapply same_commands_trans; [by apply same_commands_set|exact Hsame]|done|done|].
    intros E. constructor; [|by apply Hall]. destruct (Hkeep E) as [E1 Hk]. apply Hk. exists (with_reply r cmd).
    split; [by apply list_lookup_insert_eq|]. by apply Hr1.
  - intros E. destruct (Hkeep E) as [E1 Hk]. apply Z.eqb_eq in Ez. split; [done|]. intros j (c0 & Hj & Hr0). apply Hk.
    destruct (decide (j = i)) as [->|Hji].
    + exists (with_reply r cmd). split; [by apply list_lookup_insert_eq|]. by apply Hr1.
    + exists c0. by rewrite list_lookup_insert_ne by done.
Qed.

Lemma conn_request_all_run c cmds ids l k v s : Forall cmd_ok cmds -> indices cmds ids ->
  ps_servers s !! m_pRedisServ c = Some v -> holds (conn_contexts c ++ l) (cmd_replies cmds ++ k) (ps_world s) ->
  runs (ConnRequest_all cmds ids c) s (fun x s' => flushed cmds ids (conn_contexts x.2 ++ l) k x.1 (ps_world s') /\
    calm s s' /\ m_pRedisServ x.2 = m_pRedisServ c).
Proof.
  intros Hok Hi Hv H. unfold ConnRequest_all. prun. eapply now_run; [exact H|]. intros t w Hw. prun.
  eapply runs_mono; [eapply (freshen_run t c l _ v); [exact Hw|exact Hv]|].
  intros [b c1] s1 (H1 & Hs1 & Hp & Hb). cbn [fst snd] in *. destruct b; cbn [negb].
  2: { prun. split; [|done]. split_and!; [apply same_commands_refl|exact H1|right; right; by left|done]. }
  destruct (valid_context c1 (Hb eq_refl)) as [p1 Ep1]. prun.
  eapply runs_mono; [eapply (append_all_run c1 p1 ids cmds l); [done|done|done|exact H1|by left]|].
  intros z s2 (Hz & H2 & Hs2). prun. eapply runs_mono; [by apply (reply_all_run c1 p1 ids l k Ep1)|].
  intros x s3 (Hx & Hs3 & _). prun. split; [exact Hx|]. split; [|exact Hp].
  etrans; [exact Hs1|]. by etrans.
Qed.

Lemma serv_request_all_run p v cmds ids l k s :
  Forall cmd_ok cmds -> indices cmds ids -> ps_servers s !! p = Some v -> books l (cmd_replies cmds ++ k) s ->
  runs (ServRequest_all p cmds ids) s (fun x s' => flushed cmds ids (contexts (ps_servers s') ++ l) k x (ps_world s') /\
    servers_ok (ps_servers s') /\ steady s s').
Proof.
  intros Hok Hi Hv H. eapply runs_mono.
  { eapply (pooled_run (ConnRequest_all cmds ids) (RC_NO_RESOURCE, cmds) (fun x k' => same_commands cmds x.2 /\
      k' = cmd_replies x.2 ++ k /\ plain_code x.1 /\ (x.1 = RC_SUCCESS -> Forall (has_reply x.2) ids))); [exact Hv|exact H| |].
    - split_and!; [apply same_commands_refl|done|by do 3 right|done].
    - intros c s1 v1 l1 Hv1 H1. eapply runs_mono; [by eapply (conn_request_all_run c cmds ids l1 k v1)|].
      intros [x c'] s2 ((Hsame & Hh & Hr) & Hs & Hp). exists (cmd_replies x.2 ++ k).
      split; [exact (conj Hsame (conj eq_refl Hr))|]. exact (conj Hh (conj Hs Hp)). }
  intros x s' (k' & (Hsame & -> & Hr) & Hh & Hs). split; [exact (conj Hsame (conj Hh Hr))|exact Hs].
Qed.

Hypothesis Hto : timeouts_ok (W := W).
Hypothesis Hso : slots_ok (W := W).

(** All commands go to the one server of the client. *)
Lemma match_one cmd s p ps : m_bCluster (ps_client s) = false -> m_vecRedisServ (ps_client s) = p :: ps ->
  GetMatchedServer cmd s = Some (Some p, s).
Proof. intros Hc Hp. unfold GetMatchedServer, mbind, pm_bind, client, id. by rewrite Hc, Hp. Qed.

Lemma match_single p ps s cmds : m_bCluster (ps_client s) = false -> m_vecRedisServ (ps_client s) = p :: ps -> forall i l,
  match_commands cmds i [(Some p, l)] s = Some ([(Some p, l ++ seq i (length cmds))], s).
Proof.
  intros Hc Hp. induction cmds as [|cmd cmds IH]; intros i l; cbn [match_commands length seq]; [by rewrite app_nil_r|].
  unfold mbind, pm_bind. rewrite (match_one cmd s p ps Hc Hp). cbn [add_command].
  rewrite bool_decide_true by done. unfold mbind, pm_bind in IH. rewrite IH. by rewrite <- app_assoc.
Qed.
Lemma match_all_single p ps s cmds : m_bCluster (ps_client s) = false -> m_vecRedisServ (ps_client s) = p :: ps ->
  match_commands cmds 0 [] s = Some (match cmds with [] => [] | _ => [(Some p, seq 0 (length cmds))] end, s).
Proof.
  intros Hc Hp. destruct cmds as [|cmd cmds]; [done|]. cbn [match_commands]. unfold mbind, pm_bind.
  rewrite (match_one cmd s p ps Hc Hp). cbn [add_command]. by rewrite (match_single p ps s cmds Hc Hp).
Qed.

(** What a flush leaves: the commands, with their replies. *)
Definition piped cmds l k s (x : Z * list CRedisCommand) s' : Prop :=
  same_commands cmds x.2 /\ inv l (cmd_replies x.2 ++ k) s' /\ settled s s' /\ plain_code x.1 /\
  (x.1 = RC_SUCCESS -> forall i, (i < length cmds)%nat -> has_reply x.2 i).

Lemma flush_command_run pl l k s : Forall cmd_ok (m_vecCmd pl) -> m_bCluster (ps_client s) = false ->
  m_vecRedisServ (ps_client s) <> [] -> inv l (cmd_replies (m_vecCmd pl) ++ k) s ->
  runs (FlushCommand pl) s (fun x s' => piped (m_vecCmd pl) l k s (x.1, m_vecCmd x.2) s' /\ m_nCursor x.2 = m_nCursor pl).
Proof.
  intros Hok Hc Hne H. destruct (m_vecRedisServ (ps_client s)) as [|p ps] eqn:Ep; [done|].
  unfold FlushCommand. prun. eexists _, s. split; [by apply match_all_single with ps|]. prun.
  eapply (runs_mono _ _ (piped (m_vecCmd pl) l k s)); [|intros x s1 Hx; by prun].
  destruct (m_vecCmd pl) as [|cmd0 cmds0] eqn:Ecmds; cbn [flush_servers].
  { prun. split_and!; [constructor|done|reflexivity|by left|]. intros _ i Hi. cbn in Hi. lia. }
  rewrite <- Ecmds in *. clear cmd0 cmds0 Ecmds. change (negb (RC_SUCCESS =? RC_SUCCESS)) with false. cbv iota. prun. apply (runs_valid _ p); [done|]. prun.
  eapply runs_mono; [by eapply other_threads_run|]. intros _ s1 [H1 E1]. destruct (proj2 E1 Hc) as [Eh1 Ep1].
  assert (p ∈ dom (hosts s1)) as Hp.
  { destruct H1 as (_ & (_ & Hd & _) & _). rewrite Ep1, Ep in Hd. by apply Forall_cons in Hd as [? _]. }
  destruct (hosts_server s1 p Hp) as [v Hv]. prun.
  eapply runs_mono; [eapply (serv_request_all_run p v (m_vecCmd pl) (seq 0 (length (m_vecCmd pl))) l k); [done| |exact Hv|apply H1]|].
  { apply Forall_forall. intros i ?%elem_of_seq. lia. }
  intros [z cmds] s2 ((Hsame & Hh & Hz & Hall) & Ho & Hs). prun. split_and!; [done| | |done|].
  - eapply inv_steady; [exact H1|by split|done].
  - etrans; [exact E1|by apply steady_settled].
  - intros E i Hi. specialize (Hall E). rewrite Forall_forall in Hall. apply Hall, elem_of_seq. lia.
Qed.

Lemma flush_pipeline_run pl l k s : Forall cmd_ok (m_vecCmd pl) -> m_bCluster (ps_client s) = false ->
  m_vecRedisServ (ps_client s) <> [] -> inv l (cmd_replies (m_vecCmd pl) ++ k) s ->
  runs (FlushPipeline (Some pl)) s (fun x s' => exists pl', x.2 = Some pl' /\
    piped (m_vecCmd pl) l k s (x.1, m_vecCmd pl') s' /\ m_nCursor pl' = m_nCursor pl).
Proof.
  intros Hok Hc Hne H. unfold FlushPipeline. prun. eapply runs_mono; [by eapply other_threads_run|]. intros _ s1 [H1 E1].
  destruct (proj2 E1 Hc) as [Eh1 Ep1]. assert (m_bCluster (ps_client s1) = false) as Hc1.
  { destruct E1 as [E1 _]. unfold config in E1. congruence. }
  prun. eapply runs_mono; [apply (flush_command_run pl l k s1 Hok Hc1); [by rewrite Ep1|done]|].
  intros [z pl'] s2 ((Hsame & H2 & E2 & Hz) & Hcur). prun. prun.
  assert (m_bCluster (ps_client s2) = false) as Hc2 by (destruct E2 as [E2 _]; unfold config in E2; congruence).
  rewrite Hc2, orb_true_r. prun. exists pl'. split; [done|]. split; [|done]. split_and!; [done|done|by etrans|apply Hz|apply Hz].
Qed.

(** The replies of a pipeline are freed with it. *)
Lemma delete_commands_run cmds l k : forall s (Q : unit -> pstate W -> Prop), Forall cmd_ok cmds ->
  holds l (cmd_replies cmds ++ k) (ps_world s) -> (forall w, holds l k w -> Q tt (with_world w s)) ->
  runs (delete_commands cmds) s Q.
Proof.
  induction cmds as [|cmd cmds IH]; intros s Q Hok H HQ; cbn [delete_commands]; [prun; destruct s; by apply HQ|].
  apply Forall_cons in Hok as [Hc Hok]. prun. eapply (clear_args_run cmd l (cmd_replies cmds ++ k)); [done| |].
  { unfold cmd_replies in H. by rewrite bind_cons, <- app_assoc in H. }
  intros c w Hw. apply IH; [done|exact Hw|]. intros w' Hw'. by apply HQ.
Qed.

Lemma free_pipeline_run pl l k s : Forall cmd_ok (m_vecCmd pl) -> inv l (cmd_replies (m_vecCmd pl) ++ k) s ->
  runs (FreePipeline (Some pl)) s (fun _ s' => keeps l k s s').
Proof.
  intros Hok H. unfold FreePipeline. eapply (delete_commands_run _ (contexts (ps_servers s) ++ l) k); [done|apply H|].
  intros w Hw. split; [|by split]. eapply (inv_moved l); [exact H| |done|done]. split; [exact Hw|apply H].
Qed.

End pipelines.
