(* ===== verification/PoolTheorems.v ===== *)
(** * redis_client: properties of the pooled client

    Stated for every driver that keeps the promises of [PipeReliable], whatever
    the refreshing thread does in between; the examples use a driver in memory. *)

From Stdlib Require Import Strings.Byte String.
From stdpp Require Import gmap sorting.
From S2P Require Import Prelude CLib Read Reply Network Concrete Slots StdString ClusterText ClusterNodes.
From S2P Require Import Driver RedisClient ClientFacts MockDriver Decoders Pool PoolClient PoolCommands PoolFacts.
From S2P Require Import PoolTables.


(** ** Slots *)

(** C30: The two clients agree on the slot of a key: [HASH_SLOT] of the pooled
    client is [keyHashSlot] of r3c, and both are the CRC16 of the hash tag of
    the key modulo 16384. *)
Theorem pool_slots_agree key : zlen key <= INT_MAX ->
  HASH_SLOT key = keyHashSlot key (zlen key) /\ HASH_SLOT key = Some (crc16_ref (hash_tag key) mod 16384).
Proof.
  intros Hk. assert (HASH_SLOT key = keyHashSlot key (zlen key)) as E by reflexivity.
  split; [exact E|]. rewrite E. by apply keyHashSlot_exact.
Qed.

Lemma pool_slots_agree_witness :
  let key := bs "user:{42}:name" in
  HASH_SLOT key = keyHashSlot key (zlen key) /\ HASH_SLOT key = Some (crc16_ref (hash_tag key) mod 16384).
Proof. intros key. apply (pool_slots_agree key). vm_compute. discriminate. Defined.

(** ** Redirections *)

(** [Execute] without its test for MOVED. *)
Definition Execute_unmoved {dm : DataModel} {fl : FloatLib} {W : Type} {drv : PipeDriver W} {tmp : Temporaries}
    {hp : Allocation} {srt : RegionSort} (cmd : CRedisCommand) : PM W (Z * CRedisCommand) :=
  _ ← other_threads;
  b ← client m_bValid;
  if negb b then mret (RC_RQST_ERR, cmd) else
  r ← SimpleExecute cmd;
  _ ← client m_bCluster;
  if r.1 =? RC_RQST_ERR then PoolClient.again r.2 r.1 else mret r.

Section moved.
Context {dm : DataModel} {fl : FloatLib} {W : Type} {drv : PipeDriver W} {tmp : Temporaries}.
Context {hp : Allocation} {srt : RegionSort}.
Implicit Types (s : pstate W).

(** What holds of every result. *)
Definition codes {A} (m : PM W A) (P : A -> Prop) : Prop := forall s x s', m s = Some (x, s') -> P x.

Lemma codes_ret {A} (x : A) (P : A -> Prop) : P x -> codes (mret x) P.
Proof. by intros H s ? ? [= <- <-]. Qed.
Lemma codes_bind {A B} (m : PM W A) (k : A -> PM W B) P : (forall x, codes (k x) P) -> codes (m ≫= k) P.
Proof. intros H s x s' E. unfold mbind, pm_bind in E. destruct (m s) as [[y s1]|]; [by eapply H|done]. Qed.
Lemma codes_seq {A B} (m : PM W A) (k : A -> PM W B) Q P :
  codes m Q -> (forall x, Q x -> codes (k x) P) -> codes (m ≫= k) P.
Proof. intros Hm H s x s' E. unfold mbind, pm_bind in E. destruct (m s) as [[y s1]|] eqn:Em; [|done]. eapply H; [by eapply Hm|done]. Qed.

(** A code that is not that of an error reply. *)
Definition no_reply_error (x : Z * CRedisCommand) : Prop := x.1 <> RC_REPLY_ERR.

Ltac code := lazymatch goal with
  | |- codes (mret _) _ => apply codes_ret; first [done | unfold no_reply_error; cbn [fst]; by destruct (isSome _)]
  | |- codes (_ ≫= _) _ => apply codes_bind; intros ?; code
  | |- codes (if ?b then _ else _) _ => destruct b; code
  | |- codes (match ?o with _ => _ end) _ => destruct o; code
  | |- _ => idtac
  end.

Lemma request_code p cmd : codes (CmdRequest p cmd) no_reply_error.
Proof. unfold CmdRequest. code. Qed.
Lemma conn_request_code cmd c : codes (ConnRequest cmd c) (fun x => no_reply_error x.1).
Proof.
  unfold ConnRequest. do 2 (apply codes_bind; intros ?). destruct (negb _); [by apply codes_ret|].
  eapply codes_seq; [apply request_code|]. intros r Hr. destruct (negb _); [by apply codes_ret|].
  apply codes_bind; intros old. destruct (negb old); [by apply codes_ret|]. apply codes_bind. intros f.
  destruct (negb _); [by apply codes_ret|]. eapply codes_seq; [apply request_code|]. intros r' Hr'. by apply codes_ret.
Qed.
Lemma serv_request_code p cmd : codes (ServRequest p cmd) no_reply_error.
Proof.
  unfold ServRequest. apply codes_bind. intros [c|]; [|by apply codes_ret].
  eapply codes_seq; [apply conn_request_code|]. intros r Hr. code.
Qed.
Lemma simple_execute_code cmd : codes (SimpleExecute cmd) no_reply_error.
Proof. unfold SimpleExecute. code. apply serv_request_code. Qed.

(** A redirection is never followed: no request ends with the code of an
    error reply, so that [Execute] never looks for MOVED; it is the same
    without the test, whatever the driver and the other threads do. *)
Theorem moved_not_followed cmd s : Execute cmd s = Execute_unmoved cmd s.
Proof.
  unfold Execute, Execute_unmoved, mbind, pm_bind. destruct (other_threads s) as [[x s1]|]; [|done].
  destruct (client m_bValid s1) as [[b s2]|]; [|done]. destruct (negb b); [done|].
  destruct (SimpleExecute cmd s2) as [[r s3]|] eqn:E; [|done].
  pose proof (simple_execute_code cmd s2 r s3 E) as Hr. apply Z.eqb_neq in Hr.
  cbn [client]. rewrite Hr, andb_false_r. done.
Qed.

End moved.
(** ** Threads

    Client threads take a connection from the queue of a server, send commands
    over it and give it back, all while they hold the lock shared; the tables
    are refreshed while nobody holds it. *)

Section threads.
Context {dm : DataModel} {fl : FloatLib} {W : Type} {drv : PipeDriver W} {tmp : Temporaries}.
Context {hp : Allocation} {srt : RegionSort}.

(** The state, the connections in the hands of threads, the replies that
    threads have not yet freed. *)
Record system := System {
  sy_state : pstate W;
  sy_hands : list (nat * CRedisConnection);
  sy_replies : list nat
}.

Inductive thread_step : system -> system -> Prop :=
  | step_fetch t p c s s' hands k :
      t ∉ hands.*1 -> FetchConnection p s = Some (Some c, s') ->
      thread_step (System s hands k) (System s' ((t, c) :: hands) k)
  | step_request t c cmd x s s' hands hands' k :
      hands ≡ₚ (t, c) :: hands' -> cmd_ok cmd -> m_pReply cmd = None -> ConnRequest cmd c s = Some (x, s') ->
      thread_step (System s hands k) (System s' ((t, x.2) :: hands') (option_list (m_pReply x.1.2) ++ k))
  | step_return t c s s' hands hands' k :
      hands ≡ₚ (t, c) :: hands' -> ReturnConnection (m_pRedisServ c) c s = Some (tt, s') ->
      thread_step (System s hands k) (System s' hands' k)
  | step_free r s s' hands k k' :
      k ≡ₚ r :: k' -> free_reply (Some r) s = Some (tt, s') -> thread_step (System s hands k) (System s' hands k')
  | step_refresh s s' k :
      refresh_turn s = Some (tt, s') -> thread_step (System s [] k) (System s' [] k)
  | step_wake s s' hands k :
      notify_all s = Some (tt, s') -> thread_step (System s hands k) (System s' hands k).

Definition in_hands (y : system) : list nat := (sy_hands y).*2 ≫= conn_contexts.

End threads.

Section exclusive.
Context {dm : DataModel} {fl : FloatLib} {W : Type} {drv : PipeDriver W} {rel : PipeReliable W} {tmp : Temporaries}.
Context {hp : Allocation} {srt : RegionSort}.
Implicit Types (s : pstate W) (y : system (W := W)).

Lemma runs_det {A} (m : PM W A) s (Q : A -> pstate W -> Prop) x s' : runs m s Q -> m s = Some (x, s') -> Q x s'.
Proof. intros (x' & s2 & E & H) E'. rewrite E in E'. by injection E' as -> ->. Qed.

(** The books are kept with what the threads hold, the connections they hold
    belong to servers that are there, and a thread holds one at most. *)
Definition system_ok y : Prop :=
  inv (in_hands y) (sy_replies y) (sy_state y) /\
  Forall (fun x => m_pRedisServ x.2 ∈ dom (hosts (sy_state y))) (sy_hands y) /\ NoDup (sy_hands y).*1.

Hypothesis Hto : timeouts_ok (W := W).
Hypothesis Hso : slots_ok (W := W).

Lemma hands_perm (hands hands' : list (nat * CRedisConnection)) t c : hands ≡ₚ (t, c) :: hands' ->
  hands.*2 ≫= conn_contexts ≡ₚ conn_contexts c ++ (hands'.*2 ≫= conn_contexts).
Proof. intros Ep. by rewrite Ep. Qed.

(** The servers stay: what is said of the hands stays too. *)
Lemma hands_stay s s' (hands : list (nat * CRedisConnection)) : hosts s' = hosts s ->
  Forall (fun x => m_pRedisServ x.2 ∈ dom (hosts s)) hands -> Forall (fun x => m_pRedisServ x.2 ∈ dom (hosts s')) hands.
Proof. by intros ->. Qed.

Lemma fetch_step t p c s s' hands k : t ∉ hands.*1 -> FetchConnection p s = Some (Some c, s') ->
  system_ok (System s hands k) -> system_ok (System s' ((t, c) :: hands) k).
Proof.
  intros Ht E (H & Hd & Hn). unfold in_hands in *. cbn [sy_state sy_hands sy_replies] in *.
  destruct (ps_servers s !! p) as [v|] eqn:Hv.
  2: { unfold FetchConnection, mbind, pm_bind, server in E. by rewrite Hv in E. }
  pose proof (runs_det _ _ _ _ _ (fetch_connection_run p v _ k s (proj1 H) Hv) E) as (v0 & v1 & q & Hv0 & Hq & Ev1 & Es & Er & Hb & Hp).
  assert (hosts s' = hosts s) as Eh.
  { unfold hosts at 1. rewrite Es. apply (hosts_set p v); [done|]. rewrite Ev1. by replace v0 with v by congruence. }
  split_and!; cbn.
  - eapply inv_moved; [exact H|exact Hb|done|done].
  - apply Forall_cons. split; [cbn; rewrite Eh, Hp; apply elem_of_dom; unfold hosts; rewrite lookup_fmap, Hv; by eexists|].
    by eapply hands_stay.
  - by apply NoDup_cons.
Qed.

Lemma request_step t c cmd x s s' hands hands' k : hands ≡ₚ (t, c) :: hands' -> cmd_ok cmd -> m_pReply cmd = None ->
  ConnRequest cmd c s = Some (x, s') -> system_ok (System s hands k) ->
  system_ok (System s' ((t, x.2) :: hands') (option_list (m_pReply x.1.2) ++ k)).
Proof.
  intros Ep Hc Hr E (H & Hd & Hn). unfold in_hands in *. cbn [sy_state sy_hands sy_replies] in *.
  rewrite (hands_perm _ _ _ _ Ep) in H. rewrite Ep in Hd. apply Forall_cons in Hd as [Hp Hd]. rewrite Ep in Hn.
  destruct (hosts_server s _ Hp) as [v Hv].
  assert (runs (ConnRequest cmd c) s (fun x s' => answered cmd k x.1
    (conn_contexts x.2 ++ contexts (ps_servers s) ++ hands'.*2 ≫= conn_contexts) (ps_world s') /\ calm s s' /\
    m_pRedisServ x.2 = m_pRedisServ c)) as Hrun.
  { eapply (conn_request_run c _ k cmd v s Hc Hv). rewrite Hr. destruct H as [[H _] _].
    eapply holds_proper; [|reflexivity..|exact H]. cbn [snd]. solve_Permutation. }
  destruct (runs_det _ _ _ _ _ Hrun E) as ((r & Ecmd & Hh & _) & Hs & Hps).
  pose proof (steady_hosts _ _ (calm_steady _ _ Hs)) as Eh. destruct Hs as (Eb & Er & Ho). rewrite Ecmd.
  split_and!; cbn [sy_state sy_hands sy_replies in_hands with_reply m_pReply].
  - eapply inv_moved; [exact H| |exact Eh|exact Er]. split; [|apply Ho, H]. rewrite <- (contexts_body _ _ Eb).
    eapply holds_proper; [|reflexivity..|exact Hh]. cbn. solve_Permutation.
  - apply Forall_cons. split; [cbn; by rewrite Eh, Hps|by eapply hands_stay].
  - exact Hn.
Qed.

Lemma return_step t c s s' hands hands' k : hands ≡ₚ (t, c) :: hands' ->
  ReturnConnection (m_pRedisServ c) c s = Some (tt, s') -> system_ok (System s hands k) -> system_ok (System s' hands' k).
Proof.
  intros Ep E (H & Hd & Hn). unfold in_hands in *. cbn [sy_state sy_hands sy_replies] in *.
  rewrite Ep in Hd, Hn. apply Forall_cons in Hd as [Hp Hd]. apply NoDup_cons in Hn as [_ Hn].
  destruct (hosts_server s _ Hp) as [v Hv]. cbn [snd] in *.
  assert (runs (ReturnConnection (m_pRedisServ c) c) s (fun _ s' => hosts s' = hosts s /\ rest s' = rest s /\
    books (hands'.*2 ≫= conn_contexts) k s')) as Hrun.
  { unfold ReturnConnection. eapply runs_set_server; [exact Hv|]. split_and!; [by apply (hosts_set _ v)|done|].
    apply put_books; [|exact Hv|done]. rewrite (hands_perm _ _ _ _ Ep) in H. apply H. }
  destruct (runs_det _ _ _ _ _ Hrun E) as (Eh & Er & Hb).
  split_and!; [by eapply inv_moved|by eapply hands_stay|done].
Qed.

Lemma free_step r s s' hands k k' : k ≡ₚ r :: k' -> free_reply (Some r) s = Some (tt, s') ->
  system_ok (System s hands k) -> system_ok (System s' hands k').
Proof.
  intros Ep E (H & Hd & Hn). unfold in_hands in *. cbn [sy_state sy_hands sy_replies] in *.
  assert (runs (free_reply (Some r)) s (fun _ s' => inv (hands.*2 ≫= conn_contexts) k' s' /\ hosts s' = hosts s)) as Hrun.
  { eapply (free_pool_reply_run (Some r) _ k'); [rewrite Ep in H; apply H|].
    intros w Hw. split; [|done]. eapply (inv_moved _ _ k k'); [exact H| |done|done]. split; [exact Hw|apply H]. }
  destruct (runs_det _ _ _ _ _ Hrun E) as [H' Eh]. split_and!; [done|by eapply hands_stay|done].
Qed.

Lemma thread_step_ok y y' : system_ok y -> thread_step y y' -> system_ok y'.
Proof.
  intros H Hs. destruct Hs as [t p c s s' hands k Ht E|t c cmd x s s' hands hands' k Ep Hc Hr E|
    t c s s' hands hands' k Ep E|r s s' hands k k' Ep E|s s' k E|s s' hands k E].
  - by eapply fetch_step.
  - by eapply request_step.
  - by eapply return_step.
  - by eapply free_step.
  - destruct H as (H & _). destruct (runs_det _ _ _ _ _ (refresh_turn_run Hto Hso _ _ _ H) E) as [H' _].
    split_and!; [exact H'|done|apply NoDup_nil_2].
  - destruct H as (H & Hd & Hn). cbn [sy_state sy_hands sy_replies] in *.
    destruct (runs_det _ _ _ _ _ (notify_all_run _ _ _ H) E) as [H' _].
    assert (hosts s' = hosts s) as Eh.
    { unfold notify_all, mbind, pm_bind, thread in E. destruct (ps_thread s); by injection E as <-. }
    split_and!; [exact H'|by eapply hands_stay|exact Hn].
Qed.

End exclusive.

(** ** Properties *)

Section properties.
Context {dm : DataModel} {fl : FloatLib} {W : Type} {drv : PipeDriver W} {rel : PipeReliable W} {tmp : Temporaries}.
Context {hp : Allocation} {srt : RegionSort}.
Implicit Types (s : pstate W) (l k : list nat).


(** C16: [Initialize] of a new client always ends, and establishes the
    invariant: the connections that are open are those in the queues of its
    servers, every server of the table is there, every region of it has a
    server with the address of the region.  With success the refreshing thread
    runs and the tables are valid, those of an answer to CLUSTER SLOTS when the
    server belongs to a cluster. *)
Theorem pool_initialize host port timeout n k s :
  timeouts_ok (W := W) -> slots_ok (W := W) -> fetches (W := W) FetchString (Some []) FUNC_DEF_CONV ->
  books [] k s -> ps_client s = new_client -> ps_thread s = NoThread ->
  exists b s', Initialize host port timeout n s = Some (b, s') /\ inv [] k s' /\
    if (b : bool) then m_bValid (ps_client s') = true /\ ps_thread s' = AtTop /\
      (m_bCluster (ps_client s') = true -> table_read (W := W) (ps_client s'))
    else ps_thread s' = NoThread.
Proof.
  intros Hto Hso Hf H Hc Ht.
  destruct (initialize_run Hto Hso host port timeout n [] k s Hf H Hc Ht) as (b & s' & E & Hi & Hb).
  exists b, s'. split; [done|]. split; [done|]. destruct b; [|done]. destruct Hb as [Hv Hth]. split_and!; [done|done|].
  intros Hcl. by apply Hi.
Qed.

Lemma disjoint_texts v v' : region_text <$> v = region_text <$> v' -> disjoint_regions v' -> disjoint_regions v.
Proof.
  revert v'. induction v as [|x v IH]; intros [|y v'] E; try discriminate E; [done|]. cbn in E.
  injection E as E1 E2 E3 E4 E. intros H. inversion H as [|? ? Hy Hv]; subst. constructor; [|by eapply IH].
  clear IH H Hv. revert v' E Hy. induction v as [|z v IH]; intros [|u v'] E Hy; try discriminate E; [done|]. cbn in E.
  injection E as F1 F2 F3 F4 E. apply Forall_cons in Hy as [Hu Hy]. constructor; [|by eapply IH].
  unfold apart in *. lia.
Qed.
Lemma filled_texts v v' : region_text <$> v = region_text <$> v' ->
  Forall (fun r => nStartSlot r <= nEndSlot r) v' -> Forall (fun r => nStartSlot r <= nEndSlot r) v.
Proof.
  revert v'. induction v as [|x v IH]; intros [|y v'] E; try discriminate E; [done|]. cbn in E.
  injection E as E1 E2 E3 E4 E. intros [Hy Hv]%Forall_cons. constructor; [lia|by eapply IH].
Qed.
Lemma text_elem (v v' : list SlotRegion) r : region_text <$> v = region_text <$> v' -> r ∈ v' -> exists r', r' ∈ v /\ region_text r' = region_text r.
Proof.
  intros E Hr. assert (region_text r ∈ region_text <$> v) as H by (rewrite E; by apply list_elem_of_fmap_2).
  apply list_elem_of_fmap in H as (r' & E' & H). by exists r'.
Qed.


Lemma hands_exclusive (hands : list (nat * CRedisConnection)) x y p : NoDup (hands.*2 ≫= conn_contexts) ->
  x ∈ hands -> y ∈ hands -> p ∈ conn_contexts x.2 -> p ∈ conn_contexts y.2 -> x = y.
Proof.
  induction hands as [|h hands IH]; [by intros _ ?%not_elem_of_nil|]. cbn [fmap list_fmap mbind list_bind].
  intros (_ & Hd & Hn)%NoDup_app Hx Hy Px Py.
  assert (forall z, z ∈ hands -> p ∈ conn_contexts z.2 -> p ∈ hands.*2 ≫= conn_contexts) as Hz.
  { intros z Hz Pz. apply list_elem_of_bind. exists z.2. split; [done|]. by apply list_elem_of_fmap_2. }
  apply elem_of_cons in Hx as [->|Hx], Hy as [->|Hy]; [done| | |by apply IH].
  - exfalso. by apply (Hd p Px), (Hz y).
  - exfalso. by apply (Hd p Py), (Hz x).
Qed.


(** C18: A client of a single server that is deleted, whatever its thread was
    doing, has closed every connection, its thread is over and no server is
    left. *)
Theorem pool_deleted k s :
  timeouts_ok (W := W) -> slots_ok (W := W) -> inv [] k s -> m_bCluster (ps_client s) = false ->
  (forall p, p ∈ dom (hosts s) -> p ∈ m_vecRedisServ (ps_client s)) ->
  exists s', delete_client s = Some (tt, s') /\ ps_servers s' = ∅ /\ live (ps_world s') = ∅ /\
    replies (ps_world s') = list_to_set k /\ ~ active (ps_thread s').
Proof.
  intros Hto Hso H Hc Hall. destruct (delete_client_run Hto Hso k s H) as ([] & s' & E & [(El & _ & Er & _) _] & _ & _ & Ha & Hs).
  exists s'. specialize (Hs Hc Hall). rewrite Hs in El. split_and!; [done|done|exact El|done|done].
Qed.


(** ** What goes wrong *)

(** A pipeline is given a command whose slot no server has: flushing it
    follows the null pointer to the server. *)
Lemma pipeline_unrouted cmd n s : m_bCluster (ps_client s) = true -> m_nSlot cmd <> -1 ->
  find_slot (m_vecSlot (ps_client s)) (m_nSlot cmd) = Some None -> FlushCommand (MkPipeline [] [cmd] n) s = None.
Proof.
  intros Hc Hs E. unfold FlushCommand. cbn [m_vecCmd match_commands]. unfold mbind, pm_bind.
  assert (GetMatchedServer cmd s = Some (None, s)) as ->; [|done].
  unfold GetMatchedServer, mbind, pm_bind, client, id. rewrite Hc. cbn [negb].
  rewrite (proj2 (Z.eqb_neq _ _)) by done. cbn [negb]. unfold valid. by rewrite E.
Qed.

(** Waiting for a refresh does not wait while the tables are marked valid,
    which only a refresh that fails changes: when no other thread runs in
    between, it succeeds at once, and has not slept. *)
Lemma wait_at_once s : m_bValid (ps_client s) = true -> ps_slices s = [] ->
  exists s', WaitForRefresh s = Some (true, s') /\ ps_world s' = ps_world s /\ ps_client s' = ps_client s.
Proof.
  intros Hv Hs. destruct s as [c m t sl w]. cbn in Hv, Hs. subst sl.
  destruct t; (eexists; split; [cbv [WaitForRefresh other_threads next_slice notify_all mbind pm_bind thread set_thread
    run_ticks mret pm_ret wait_loop client ps_client ps_slices ps_thread head default sl_ticks sl_try from_option id tail
    ps_servers ps_world Z.to_nat WAIT_RETRY_TIMES Pos.to_nat Pos.iter_op]; simpl; rewrite Hv; reflexivity|done]).
Qed.

(** A server that says it keeps idle connections for ever, by a timeout of
    zero, has a connection made anew for every request. *)
Lemma timeout_zero_expired t c v s : ps_servers s !! m_pRedisServ c = Some v -> m_nSerTimeout v = 0 -> m_nUseTime c <= t ->
  expired t c s = Some (true, s).
Proof.
  intros Hv Ht Hle. unfold expired, server, mbind, pm_bind. rewrite Hv. cbn. rewrite Ht. unfold mret, pm_ret.
  do 2 f_equal. apply Z.leb_le. lia.
Qed.

End properties.

(** ** A driver in memory

    Replies are entries of a fixed table: an address that is odd is one of the
    entries, for elements, and an even one is made for an answer. *)

#[local] Existing Instances digits_lib lp64.

Record pmock := PMock {
  pm_cluster : bool;                    (* what the servers say they are *)
  pm_live : gset nat;
  pm_cells : gmap nat nat;              (* the entry of the table that a reply is *)
  pm_queue : list (nat * list bytes)    (* the commands appended, not yet answered *)
}.

Definition entry (i : nat) : option nat := Some (2 * i + 1)%nat.
Definition array_reply (l : list nat) : redisReply := Reply REDIS_REPLY_ARRAY 0 None 0 None (zlen l) (Some (entry <$> l)).
Definition integer_reply (n : Z) : redisReply := Reply REDIS_REPLY_INTEGER n None 0 None 0 None.
Definition string_reply (s : bytes) : redisReply := text_reply REDIS_REPLY_STRING s.

(** A server of a cluster of two: its timeout, its information, its slots. *)
Definition reply_table : list redisReply := [
  text_reply REDIS_REPLY_STATUS (bs "OK");
  array_reply [2; 3]; string_reply (bs "timeout"); string_reply (bs "300");
  string_reply (bs "cluster_enabled:1" ++ [CR; LF]);
  array_reply [6; 11];
  array_reply [7; 8; 9]; integer_reply 0; integer_reply 8191; array_reply [10; 16]; string_reply (bs "a");
  array_reply [12; 13; 14]; integer_reply 8192; integer_reply 16383; array_reply [15; 17]; string_reply (bs "b");
  integer_reply 7000; integer_reply 7001;
  text_reply REDIS_REPLY_ERROR (bs "MOVED 1 b:7001"); string_reply (bs "cluster_enabled:0" ++ [CR; LF])]%nat.

Definition table_entry (i : nat) : redisReply := default (integer_reply 0) (reply_table !! i).

Definition answer_entry (cluster : bool) (argv : list bytes) : nat :=
  match argv with
  | w :: _ =>
      if bool_decide (cstr w = bs "config") then 1 else if bool_decide (cstr w = bs "info") then (if cluster then 4 else 19) else
      if bool_decide (cstr w = bs "cluster") then 5 else if bool_decide (cstr w = bs "lost") then 18 else 0
  | [] => 0
  end%nat.

Definition on_pm {A} (c : nat) (w : pmock) (x : A) : option A := if decide (c ∈ pm_live w) then Some x else None.
Definition fresh_even (X : gset nat) : nat := (2 * fresh_nat X)%nat.
Lemma fresh_even_new X : fresh_even X ∉ X.
Proof. intros H%elem_of_elements%max_list_elem_of_le. unfold fresh_even, fresh_nat in H. lia. Qed.

Definition answered_with (argv : list bytes) (queue : list (nat * list bytes)) (w : pmock) : nat * pmock :=
  let l := fresh_even (dom (pm_cells w)) in
  (l, PMock (pm_cluster w) (pm_live w) (<[l := answer_entry (pm_cluster w) argv]> (pm_cells w)) queue).

#[local] Instance pm_random : Random pmock := { time w := (7, w); mt19937 s := s }.
#[local] Instance pm_driver : Driver pmock := {
  hi_connect _ _ _ w := let c := fresh_nat (pm_live w) in Some (Some c, PMock (pm_cluster w) ({[c]} ∪ pm_live w) (pm_cells w) (pm_queue w));
  hi_set_timeout c _ w := on_pm c w (0, w);
  hi_command c format _ w := on_pm c w (None, w);
  hi_command_argv c _ argv _ w := on_pm c w (let r := answered_with argv (pm_queue w) w in (Some r.1, r.2));
  hi_free c w := on_pm c w (PMock (pm_cluster w) (pm_live w ∖ {[c]}) (pm_cells w) (pm_queue w));
  hi_free_reply l w := if decide (l ∈ dom (pm_cells w)) then Some (PMock (pm_cluster w) (pm_live w) (delete l (pm_cells w)) (pm_queue w)) else None;
  hi_error c w := on_pm c w (0, []);
  hi_cell l w := if Nat.odd l then Some (table_entry (Nat.div2 l)) else table_entry <$> pm_cells w !! l;
  os_errno _ := 0;
  os_strerror _ := [];
  os_sleep _ w := w;
  os_random := pm_random
}.
#[local] Instance pm_pipe : PipeDriver pmock := {
  pipe_driver := pm_driver;
  hi_append_argv c _ argv _ w := on_pm c w (0, PMock (pm_cluster w) (pm_live w) (pm_cells w) (pm_queue w ++ [(c, argv)]));
  hi_get_reply c w := on_pm c w
    match pm_queue w with
    | x :: q => let r := answered_with x.2 q w in ((0, Some r.1), r.2)
    | [] => ((-1, None), w)
    end
}.

Lemma on_pm_yes {A} c w (x : A) : c ∈ pm_live w -> on_pm c w x = Some x.
Proof. intros H. unfold on_pm. by rewrite decide_True. Qed.

(** What holds for the replies of the table holds for every reply. *)
Lemma table_cell (P : redisReply -> Prop) : P (integer_reply 0) -> Forall P reply_table -> forall l w cell,
  hi_cell l w = Some cell -> P cell.
Proof.
  intros H0 Ht l w cell. cbn [hi_cell pipe_driver pm_pipe pm_driver].
  assert (forall i, P (table_entry i)) as Hi.
  { intros i. unfold table_entry. destruct (reply_table !! i) as [c|] eqn:E; [|done]. rewrite Forall_forall in Ht.
    apply Ht. by eapply list_elem_of_lookup_2. }
  destruct (Nat.odd l); [intros [= <-]; apply Hi|]. destruct (pm_cells w !! l); [|done]. intros [= <-]. apply Hi.
Qed.

#[local] Instance pm_reliable : Reliable pmock.
Proof.
  refine {| live := pm_live; replies w := dom (pm_cells w) |}.
  - intros. eexists _, _. split; [done|]. split; [done|]. split; [apply fresh_nat_new|done].
  - intros c tv w Hc. eexists _, _. split; [by apply on_pm_yes|done].
  - intros c format ap w Hc _. eexists _, _. split; [by apply on_pm_yes|done].
  - intros c argc argv lens w Hc. eexists _, _. split; [by apply on_pm_yes|]. split; [done|]. split; [apply fresh_even_new|].
    cbn. by rewrite dom_insert_L.
  - intros c w Hc. eexists. split; [by apply on_pm_yes|done].
  - intros l w Hl. cbn [hi_free_reply pipe_driver pm_pipe pm_driver]. rewrite decide_True by done. eexists. split; [done|].
    split; [done|]. apply dom_delete_L.
  - intros c w Hc. eexists. by apply on_pm_yes.
  - intros l w Hl. destruct (hi_cell l w) as [cell|] eqn:E.
    + exists cell. split; [done|]. revert E. apply (table_cell (fun c => rp_type c = REDIS_REPLY_ERROR -> is_Some (rp_str c))); [done|].
      repeat (constructor; [by intros H; try discriminate H; eexists|]). constructor.
    + exfalso. cbn [hi_cell pipe_driver pm_pipe pm_driver] in E. apply elem_of_dom in Hl as [i Hl].
      rewrite Hl in E. by destruct (Nat.odd l).
  - done.
  - done.
Defined.
#[local] Instance pm_pipe_reliable : PipeReliable pmock.
Proof.
  refine {| pipe_reliable := pm_reliable |}.
  - intros c argc argv lens w Hc. eexists _, _. split; [by apply on_pm_yes|done].
  - intros c w Hc. cbn [hi_get_reply pm_pipe]. rewrite on_pm_yes by done. destruct (pm_queue w) as [|[c' argv] q].
    + by eexists _, _, _.
    + eexists _, _, _. split; [done|]. split; [done|]. split; [by eexists|]. split; [apply fresh_even_new|]. cbn. by rewrite dom_insert_L.
Defined.

(** A function that reads every entry of the table reads every reply. *)
Lemma pm_fetches {A} (f : fetcher A) x : (forall w, Forall (fun c => is_Some (f (fun r => hi_cell r w) c x)) (integer_reply 0 :: reply_table)) ->
  fetches (W := pmock) f x FUNC_DEF_CONV.
Proof.
  intros H w l cell _ E. specialize (H w). apply Forall_cons in H as [H0 H].
  destruct (table_cell _ H0 H l w cell E) as [[z y] Ey]. by exists z, y, z.
Qed.
Lemma some_is_Some {A} (o : option A) : isSome o = true -> is_Some o.
Proof. destruct o; [by eexists|done]. Qed.
Ltac read_table := intros ?; repeat (constructor; [apply some_is_Some; vm_compute; reflexivity|]); constructor.

Lemma pm_timeouts : timeouts_ok (W := pmock).
Proof. apply pm_fetches. read_table. Qed.
Lemma pm_slots : slots_ok (W := pmock).
Proof. intros v. apply pm_fetches. read_table. Qed.
Lemma pm_strings : fetches (W := pmock) FetchString (Some []) FUNC_DEF_CONV.
Proof. apply pm_fetches. read_table. Qed.

#[local] Instance kept_memory : Temporaries := {| stale b := b; stale_length b := eq_refl |}.
#[local] Instance next_free : Allocation := {| new_at := fresh_nat; new_at_fresh := fresh_nat_new |}.
Definition starts_before (x y : SlotRegion) : Prop := nStartSlot x <= nStartSlot y.
#[local] Instance starts_before_dec x y : Decision (starts_before x y).
Proof. unfold starts_before. apply _. Defined.
#[local] Instance starts_before_total : Total starts_before.
Proof. intros x y. unfold starts_before. lia. Qed.
#[local] Instance merging : RegionSort := {|
  sort_regions := merge_sort starts_before;
  sort_perm := merge_sort_Permutation starts_before;
  sort_sorted := Sorted_merge_sort starts_before
|}.

(** A client of the cluster, before and after it has started, with threads to
    come. *)
Definition before : pstate pmock :=
  PState new_client ∅ NoThread [Slice [Turn] true; Slice [Wake; Turn] false; Slice [Turn; Turn] true] (PMock true ∅ ∅ []).
Definition after : pstate pmock :=
  match Initialize (bs "a:7000") 0 5 2 before with Some (_, s) => s | None => before end.

Lemma before_books : books [] [] before.
Proof. split; [|done]. split_and!; [done|apply NoDup_nil_2|done|apply NoDup_nil_2]. Qed.

Lemma after_ready : initialized [] [] true after.
Proof.
  destruct (initialize_run pm_timeouts pm_slots (bs "a:7000") 0 5 2 [] [] before pm_strings before_books eq_refl eq_refl)
    as (b & s & E & H).
  assert (match Initialize (bs "a:7000") 0 5 2 before with Some (b, _) => b | None => false end = true) as Hb by (vm_compute; done).
  unfold after. rewrite E in *. by destruct b.
Qed.
Lemma after_inv : inv [] [] after.
Proof. apply after_ready. Qed.

(** ** Examples *)


Lemma pool_initialize_witness :
  exists b s', Initialize (bs "a:7000") 0 5 2 before = Some (b, s') /\ inv [] [] s' /\
    if (b : bool) then m_bValid (ps_client s') = true /\ ps_thread s' = AtTop /\
      (m_bCluster (ps_client s') = true -> table_read (W := pmock) (ps_client s'))
    else ps_thread s' = NoThread.
Proof.
  apply (pool_initialize (bs "a:7000") 0 5 2 [] before pm_timeouts pm_slots pm_strings before_books); done.
Defined.

(** A command for slot 9000. *)
Definition slot_command : CRedisCommand := SetSlot 9000 (new_command (bs "get") true).


Example slot_9000 : fst <$> GetMatchedServer slot_command after = Some (Some 3%nat).
Proof. vm_compute. reflexivity. Qed.

(** Two threads take the connections of one server. *)
Definition take (t : nat) (y : system) : system (W := pmock) :=
  match FetchConnection 2 (sy_state y) with
  | Some (Some c, s) => System s ((t, c) :: sy_hands y) (sy_replies y)
  | _ => y
  end.
Definition taken : system := take 1 (take 0 (System after [] [])).

Lemma take_step t y : t ∉ (sy_hands y).*1 -> rtc thread_step y (take t y).
Proof.
  destruct y as [s hands k]. intros Ht. unfold take. destruct (FetchConnection 2 _) as [[[c|] s']|] eqn:E; [|done..].
  by eapply rtc_once, step_fetch.
Qed.


(** A client of a single server. *)
Definition single : pstate pmock :=
  match Initialize (bs "a") 7000 5 2 (PState new_client ∅ NoThread [] (PMock false ∅ ∅ [])) with
  | Some (_, s) => s
  | None => before
  end.
Lemma single_inv : inv [] [] single.
Proof.
  destruct (initialize_run pm_timeouts pm_slots (bs "a") 7000 5 2 [] [] (PState new_client ∅ NoThread [] (PMock false ∅ ∅ [])) pm_strings)
    as (b & s & E & H & _); [|done|done|unfold single; by rewrite E].
  split; [|done]. split_and!; [done|apply NoDup_nil_2|done|apply NoDup_nil_2].
Qed.

Lemma pool_deleted_witness :
  size (live (ps_world single)) = 2%nat /\
  exists s', delete_client single = Some (tt, s') /\ ps_servers s' = ∅ /\ live (ps_world s') = ∅ /\
    replies (ps_world s') = list_to_set [] /\ ~ active (ps_thread s').
Proof.
  split; [vm_compute; reflexivity|].
  apply (pool_deleted [] single pm_timeouts pm_slots single_inv); [vm_compute; reflexivity|].
  assert (set_Forall (fun p => p ∈ m_vecRedisServ (ps_client single)) (dom (hosts single))) as H; [|exact H].
  apply (bool_decide_eq_true_1 _). vm_compute. reflexivity.
Defined.

(** A pipeline of two commands. *)
Definition two_commands : CRedisPipeline :=
  match ExecuteImpl (bs "set") [Text (bs "k"); Text (bs "v")] 12706 (Some CreatePipeline) FetchString (Some []) FUNC_DEF_CONV single with
  | Some ((_, Some pl), s) =>
      match ExecuteImpl (bs "get") [Text (bs "k")] 12706 (Some pl) FetchString (Some []) FUNC_DEF_CONV s with
      | Some ((_, Some pl), _) => pl
      | _ => CreatePipeline
      end
  | _ => CreatePipeline
  end.


(** A pipeline holds no lock between choosing the server of a command and using
    it: when the tables are refreshed in between, the server is gone. *)
Definition stale_tables (sl : list slice) : pstate pmock :=
  let c := ps_client after in
  PState (MkClient (m_strHost c) (m_nPort c) (m_nTimeout c) (m_nConnNum c) (m_bCluster c) false (m_bExit c)
    (m_vecSlot c) (m_vecRedisServ c)) (ps_servers after) AtTop sl (ps_world after).
Definition one_command : CRedisPipeline := MkPipeline [] [SetSlot 9000 (filled (bs "get") false [bs "k"])] 0.

Example pipeline_undisturbed : isSome (FlushCommand one_command (stale_tables [])) = true.
Proof. vm_compute. reflexivity. Qed.
Example pipeline_server_deleted : FlushCommand one_command (stale_tables [Slice [Turn] true]) = None.
Proof. vm_compute. reflexivity. Qed.
