(* ===== verification/Findings.v ===== *)
(** * Where the code goes wrong

    Concrete runs in which an operation faults: the result [None] stands for an
    access outside a buffer, a second [free] or a failed [assert]. *)

From Stdlib Require Import Strings.Byte String.
From stdpp Require Import gmap.
From S2P Require Import Prelude CLib Buffer Sds SdsFmt SdsEdit Read Reply Printf Concrete Format.
From S2P Require Import Network Net NetFacts Context Transport Pipeline Simulation.
From S2P Require Import Dict Async AsyncRun AsyncSim.

(** [long] has 32 bits, as on 64-bit Windows. *)
Definition llp64 : DataModel := 32.

(** The reader of [redisReaderCreate], after feeding it some bytes. *)
Definition fed_reader {al : Allocator} {fl : FloatLib} {H : Type}
    (fn : option (redisReplyObjectFunctions H)) (data : bytes) (h : H) : option (redisReader sds * nat) :=
  c ← redisReaderCreate 0;
  match c with
  | (Some r, a) => f ← redisReaderFeed fn r (Some data) (zlen data) a h;
                   let '(_, r, a, _) := f in Some (r, a)
  | (None, _) => None
  end.

Definition first_reply {al : Allocator} {dm : DataModel} {fl : FloatLib} {H : Type}
    (fn : option (redisReplyObjectFunctions H)) (data : bytes) (h : H) : option (Z * option optr) :=
  r ← fed_reader fn data h;
  g ← redisReaderGetReply fn r.1 true r.2 h;
  let '(status, reply, _, _, _) := g in Some (status, reply).

(** With a 32-bit [long] the length of the bulk item wraps around, and the
    string is copied from beyond the end of the buffer. *)
Example bulk_overread_llp64 :
  @first_reply always_alloc llp64 digits_lib _ (Some (@defaultFunctions always_alloc digits_lib))
    (bs "$4294967295" ++ crlf ++ bs "x") (Heap ∅ 0) = None.
Proof. vm_compute. reflexivity. Qed.

(** With a 64-bit [long] the same input waits for the rest of the string. *)
Example bulk_waits_lp64 :
  @first_reply always_alloc lp64 digits_lib _ (Some (@defaultFunctions always_alloc digits_lib))
    (bs "$4294967295" ++ crlf ++ bs "x") (Heap ∅ 0) = Some (REDIS_OK, None).
Proof. vm_compute. reflexivity. Qed.

(** The number of elements is truncated to an [int]: with 2^32 elements the
    [assert] of [moveToNextTask] fails after the first. *)
Example array_length_truncated :
  @first_reply always_alloc lp64 digits_lib unit None
    (bs "*4294967296" ++ crlf ++ bs ":1" ++ crlf) tt = None.
Proof. vm_compute. reflexivity. Qed.

(** A format that ends inside a conversion is taken for valid, because [strchr]
    finds the terminator, and the position moves past the terminator. *)
Example unfinished_conversion_overread :
  @redisvFormatCommand always_alloc lp64 plain_double true (bs "GET %5") [VaInt 1] 0 = None.
Proof. vm_compute. reflexivity. Qed.

(** The allocator whose second request fails. *)
Definition second_fails : Allocator := fun n _ => negb (Nat.eqb n 1).

(** When growing the current argument fails, [sdsMakeRoomFor] has freed it, and
    [redisvFormatCommand] frees it again. *)
Example format_double_free :
  @redisvFormatCommand second_fails lp64 plain_double true (bs "PING") [] 0 = None.
Proof. vm_compute. reflexivity. Qed.

(** ** Connections *)

(** An interrupted [send] makes [redisBufferWrite] fail without any error in
    the context: [redisNetWrite] returns -1 where it means to try again later. *)
Example interrupted_send_fails (dm : DataModel) (fl : FloatLib) N (nw : Network N) c a h n b v n' :
  c_err c = 0 -> c_obuf c = BLive b -> sds_repr b v -> v <> [] -> zlen v <= INT_MAX ->
  sys_send (c_fd c) v n = (-1, n') -> errno n' = EINTR ->
  redisBufferWrite (al := always_alloc) (c, Env a h n) = Some ((REDIS_ERR, false), (c, Env a h n')).
Proof.
  intros He Eb Hb Hne Hv Es Herr. pose proof (zlen_nonneg v).
  destruct (bufferwrite_run always_total c a h n b v (-1) n' He Eb Hb Hne Hv Es ltac:(lia))
    as (r & s & -> & Hw).
  unfold written, again in Hw. rewrite Herr, orb_true_r in Hw. by destruct Hw as [-> ->].
Qed.

(** A Unix connection with an invalid timeout: no error is set, the socket is
    open, and the context is not connected. *)
Example unix_timeout_silent :
  let al := always_alloc in let dm := lp64 in let fl := digits_lib in
  let nw := sim_net (fun _ => []) in
  match redisConnectUnixWithTimeout (bs "/tmp/redis.sock") (Timeval 0 1000001)
          (Env 0 (Heap ∅ 0) (Sim 0 ∅ 0 [] [] [] 0)) with
  | Some (Some c, _) => c_err c = 0 /\ has_flag REDIS_CONNECTED c = false /\ c_fd c <> -1
  | _ => False
  end.
Proof. vm_compute. repeat split; discriminate. Qed.

(** [redisReconnect] on the context of a user's descriptor does not say that
    there is not enough information: it looks up a [NULL] host name. *)
Example fd_reconnects_by_name :
  let al := always_alloc in let dm := lp64 in let fl := digits_lib in
  let nw := sim_net (fun _ => []) in
  match redisConnectFd 7 (Env 0 (Heap ∅ 0) (Sim 0 {[7]} 0 [] [] [] 0)) with
  | Some (Some c, e) => r ← redisReconnect (c, e); Some (r.1, c_errstr r.2.1)
  | _ => None
  end = Some (REDIS_ERR, bs "no address").
Proof. vm_compute. reflexivity. Qed.

(** When appending fails for want of memory, the output buffer has been freed
    and the context still points to it: [redisFree] frees it again. *)
Example append_double_free :
  let al : Allocator := fun n _ => bool_decide (n < 4)%nat in
  let dm := lp64 in let fl := digits_lib in let pd := plain_double in
  let nw := sim_net (fun _ => []) in
  let cmd := replicate 40 (Byte.x61) in
  match redisConnectFd 7 (Env 0 (Heap ∅ 0) (Sim 0 {[7]} 0 [] [] [] 0)) with
  | Some (Some c, e) =>
      match redisAppendFormattedCommand cmd 40 (c, e) with
      | Some (r, s) => (r, c_err s.1, redisFree s) = (REDIS_ERR, REDIS_ERR_OOM, None)
      | None => False
      end
  | _ => False
  end.
Proof. vm_compute. reflexivity. Qed.

(** ** The asynchronous client *)

Section async.
#[local] Existing Instances always_alloc lp64 digits_lib plain_double.

(** A client with one connection to a server, and its state after some events. *)
Definition client_after {nw : Network sim} {prog : Program sim} (evs : list AsyncRun.event) :
    option (astate sim) :=
  r ← redisAsyncConnect (bs "host") 6379 (Env 0 (Heap ∅ 0) (Sim 0 ∅ 0 [] [] [] 0));
  a ← r.1;
  s ← redisAsyncHandleWrite 50 (AState (Some a) r.2 []);
  s ← run_events 50 evs s.2;
  Some s.2.

#[local] Existing Instance quiet_program.

(** A socket that cannot take the command now: the context ends without an
    error while the callback waits, and the [assert] on that fails. *)
Example blocked_send_aborts :
  let busy (d : bytes) (n : sim) := (-1, m_with_errno EWOULDBLOCK n) in
  let nw := net_with busy (loop_recv ok_server) in
  is_Some (client_after [Act (Send (Some 1%nat) 0 [bs "PING"])]) /\
  client_after [Act (Send (Some 1%nat) 0 [bs "PING"]); Writable] = None.
Proof. vm_compute. split; [by eexists|done]. Qed.

(** A connect callback that frees the context, as it may in a reply callback:
    [REDIS_CONNECTED] is set in a context that is gone. *)
Example connect_callback_frees :
  let nw := loop_net ok_server in
  let prog : Program sim := {|
    call_reply _ _ _ := mret tt;
    call_connect _ _ := redisAsyncFree 50;
    call_disconnect _ _ := mret tt |} in
  match redisAsyncConnect (bs "host") 6379 (Env 0 (Heap ∅ 0) (Sim 0 ∅ 0 [] [] [] 0)) with
  | Some (Some a, e) =>
      redisAsyncHandleWrite 50 (AState (Some (with_onConnect (Some 1%nat) a)) e []) = None
  | _ => False
  end.
Proof. vm_compute. reflexivity. Qed.

(** MONITOR, when the first reply does not arrive in one piece: a callback that
    is [NULL] is queued, and every other message has none.  Five messages after
    [+OK] have arrived. *)
Example monitor_loses_messages :
  let feed (d : bytes) := if bool_decide (d = []) then [] else ok_text ++ concat (replicate 5 (bs "+m" ++ crlf)) in
  let nw := loop_net feed in
  match client_after (Act (Send (Some 1%nat) 0 [bs "MONITOR"]) :: Writable :: replicate 9 Readable) with
  | Some s => zlen (m_read (e_net (a_env s))) = 25 /\ length (calls (a_log s)) = 3%nat
  | None => False
  end.
Proof. vm_compute. split; reflexivity. Qed.

Definition pending_of (channel : bytes) (s : astate sim) : option Z :=
  a ← a_ctx s;
  t ← ac_channels a;
  e ← dictFind callbackDict t channel;
  (fun e : bytes * redisCallback => cb_pending_subs e.2) <$> e.

(** [pending_subs] of a channel that waits for its confirmation is carried over
    to the next channel of the command, which will never count down to 0. *)
Example pending_subs_leak :
  let nw := loop_net ok_server in
  match client_after [Act (Send (Some 1%nat) 0 [bs "SUBSCRIBE"; bs "a"]);
                      Act (Send (Some 1%nat) 0 [bs "SUBSCRIBE"; bs "a"; bs "b"])] with
  | Some s => pending_of (bs "b") s
  | None => None
  end = Some 2.
Proof. vm_compute. reflexivity. Qed.

(** A formatted command without a terminator, whose length is given: the search
    for the next argument leaves it. *)
Example formatted_command_overread :
  nextArgument (resp_command [bs "SUBSCRIBE"; bs "a"]) (zlen (resp_command [bs "SUBSCRIBE"; bs "a"])) = None.
Proof. vm_compute. reflexivity. Qed.

End async.
